(* ===== verification/_CoqProject ===== *)
-Q . S2P
Prelude.v
Ssz.v
Slot.v
LeanTypes.v
LeanState.v
LeanStateFacts.v
ThreeSF.v
LeanRefinement.v
LeanEncoding.v
LeanInvariant.v
LeanTransition.v
ProofSelection.v
LeanAcceptance.v
LeanSafety.v
Redb.v
StateMonad.v
LeanDB.v
Ghost.v
ForkChoice.v
ForkChoiceFacts.v
StoreInvariant.v
StoreRuns.v
Attesting.v
Production.v
ProductionFacts.v
ProjectionFacts.v
Aggregation.v
AggregationFacts.v
Concrete.v
StoreConcrete.v
Bytes.v
Shuffling.v
Merkle.v
BeaconTypes.v
BeaconAccess.v
BeaconMutate.v
BeaconEpoch.v
BeaconBlockOps.v
BeaconTransition.v
BeaconFacts.v
BeaconRegistry.v
BeaconSafety.v
BeaconParticipation.v
BeaconJustification.v
BeaconEpochSafety.v
BeaconFrame.v
BeaconReplay.v
BeaconWithdrawals.v
BeaconRewards.v
BeaconProofs.v
ForkTree.v
ForkTreeFacts.v
ForkTreeWeights.v
ForkTreeInvariant.v
ForkTreeBlocks.v
ForkTreeSpec.v
LatestMessages.v
BeaconDb.v
DataAvailability.v
OperationPool.v
SyncCommitteePool.v
BeaconStore.v
BeaconHandlers.v
BeaconWalks.v
BeaconSync.v
BeaconSteps.v
BeaconStoreFacts.v
BeaconBuild.v
BeaconRuns.v
BeaconConcrete.v
DataColumns.v
BlockCache.v
MerkleCache.v
ChunkedList.v
StateRoots.v
LeanTheorems.v
StoreTheorems.v
ProductionTheorems.v
BeaconTheorems.v
BeaconStoreTheorems.v
