(* ===== verification/Prelude.v ===== *)
(** * Ream: a verification development of the consensus client

    Ream is an Ethereum consensus client with two chains: the Lean chain (3SF-mini
    finality with aggregated post-quantum votes) and the beacon chain (the Electra
    state transition).  This library models the deterministic core of both and proves
    what it promises.  Paths below are under [src/crates/].

    ** How code is modelled

    - A fallible function returns [res E A]: a value, an [Err], a [Panic] (an index out
      of range, a division by zero, an [expect]), or [NoFuel].  Every fuelled loop
      reports [NoFuel] when it runs out, so a theorem that gives an [Ok] result says that
      the loop ended.
    - A method on [&mut self] is a computation of the state monad of [StateMonad.v],
      which keeps the changes made before an error, as the code does.
    - Integers are [Z] with wrap-around written out ([%u64]); the release build of the
      code wraps.  Lengths and indices of collections are [nat].
    - [HashMap] and the database tables are [gmap]s; where the iteration order of a hash
      map could matter it is a parameter ([HashOrder]).
    - Code outside the repository is a parameter with the documented laws: SSZ
      lists and bit lists ([SszTypes], [SszVec]), tree hashing ([TreeHash], [Roots]),
      SHA-256 ([Sha256]), the signature libraries ([PqCrypto], [Bls]), the embedded
      database ([Redb]), the network configuration ([NetworkSpec], [BeaconNetworkSpec]),
      the allocator of shared memory ([Allocator]), the polynomial commitment libraries
      ([Kzg], [KzgLaws]).
      [Concrete.v], [StoreConcrete.v] and [BeaconConcrete.v] instantiate them all and run
      the model on small chains.

    ** The Lean chain

    - [Ssz.v], [LeanTypes.v], [Slot.v]: SSZ collections, the containers of
      [common/consensus/lean/src/], and the justifiable slots of [slot.rs].
    - [LeanState.v]: [state.rs] (genesis, [process_slots], [process_block_header],
      [process_attestations], [state_transition]); [ProofSelection.v]:
      [extend_proofs_greedily].
    - [ThreeSF.v] states the 3SF-mini step on sets of slots and voters;
      [LeanRefinement.v] and [LeanEncoding.v] prove that [process_attestations] on bit
      lists and the flat vote encoding implements it.  [LeanInvariant.v],
      [LeanTransition.v], [LeanAcceptance.v], [LeanSafety.v]: well-formed states, what a
      transition accepts, accountable safety.
    - [Redb.v], [LeanDB.v]: the tables of [storage/src/tables/lean/].
    - [Ghost.v], [ForkChoice.v]: [common/fork_choice/lean/src/store.rs], the LMD-GHOST
      walk and the store operations; [ForkChoiceFacts.v], [StoreInvariant.v],
      [StoreRuns.v], [Attesting.v]: the block tree, the invariant and the step relation of
      store operations.
    - [Production.v], [Aggregation.v] with [ProductionFacts.v], [ProjectionFacts.v],
      [AggregationFacts.v]: block production (both strategies) and aggregation.
    - [LeanTheorems.v], [StoreTheorems.v], [ProductionTheorems.v]: the properties.

    The theorems show that votes are tallied as 3SF-mini says, that two conflicting
    justified checkpoints expose a third of the validators, that finality does not move
    back, that valid blocks are accepted and transitions end; that the store keeps its
    database invariant along every run, computes the GHOST head, validates exactly the
    valid attestations; and that a produced block is accepted by the state transition.

    ** The beacon chain

    - [Bytes.v], [Shuffling.v]: byte lists, [compute_shuffled_index],
      [compute_shuffled_list] and committees of [common/consensus/misc/src/misc.rs].
    - [Merkle.v]: [crypto/merkle/src/lib.rs].
    - [BeaconTypes.v]: the containers; [BeaconAccess.v], [BeaconMutate.v],
      [BeaconEpoch.v], [BeaconBlockOps.v], [BeaconTransition.v]: the methods of
      [common/consensus/beacon/src/electra/beacon_state.rs], read-only, shared mutators,
      [process_epoch], block operations, and the transition functions.
    - [BeaconFacts.v], [BeaconRegistry.v]: lemmas on committees, the registry search and the churn; [BeaconSafety.v], [BeaconEpochSafety.v]: no operation panics
      on a well-formed state; [BeaconParticipation.v], [BeaconJustification.v]: the FFG
      rule; [BeaconFrame.v]: what every operation leaves in place;
      [BeaconReplay.v], [BeaconWithdrawals.v], [BeaconRewards.v],
      [BeaconProofs.v]: one subject each.
    - [BeaconTheorems.v]: the properties.

    The theorems show that no block makes the transition panic, that finality, slashings
    and exits are permanent, that justification is the FFG rule, that the optimised
    paths (replay, the path by the epoch start, the single reward pass, the chunked
    participation sums, the list shuffling, the batched registry search) agree with the
    plain definitions, that withdrawals stay within balances and exits within the churn,
    and that Merkle proofs verify and bind.

    ** The beacon fork choice

    The store ([common/fork_choice/beacon/src/store.rs]) keeps blocks, states, votes and
    checkpoints in a database and, beside it, a tree of the unfinalized blocks that caches
    weights and the head.  The handlers ([handlers.rs]) write the database first and then
    bring the tree up to date; when that fails the tree is rebuilt.

    - [ForkTree.v]: [fork_choice_tree.rs].  [ForkTreeFacts.v], [ForkTreeWeights.v],
      [ForkTreeInvariant.v], [ForkTreeBlocks.v]: forests by parent links, sums over
      subtrees, the invariant of the tree and that every operation keeps it.
      [ForkTreeSpec.v]: LMD-GHOST as relations, and the operations of the tree as a type.
    - [LatestMessages.v]: [storage/src/tables/beacon/latest_messages.rs], with the thread
      that writes pending votes as a step relation.  [BeaconDb.v]: the other tables
      ([storage/src/db/beacon.rs], [beacon_canonical.rs], [tables/beacon/]).
    - [DataAvailability.v], [OperationPool.v], [SyncCommitteePool.v]:
      [common/data_availability/src/], [common/operation_pool/src/lib.rs],
      [common/sync_committee_pool/src/lib.rs].
    - [BeaconStore.v], [BeaconHandlers.v]: [store.rs] and [handlers.rs], computations of
      the state monad over the record [Store].
    - [BeaconWalks.v], [BeaconSync.v]: ancestors and the head from the database, against
      the tree ([synced]: the tree mirrors the database).  [BeaconSteps.v],
      [BeaconRuns.v]: every handler keeps the two in step.  [BeaconBuild.v]: building the
      tree, at the start and after a failure.  [BeaconStoreFacts.v]: clocks, checkpoints,
      the finalized chain.
    - [BeaconStoreTheorems.v]: the properties.

    The theorems show that the head the tree caches is the LMD-GHOST head after any
    sequence of operations, that the head computed from the database is the same one, that
    every run of the handlers keeps tree and database in step and that a lost tree is
    rebuilt; that votes, ticks, checkpoints and the finalized chain evolve as they should,
    that the vote table with its writer behaves as one map, and that the pools count every
    vote once.  [op_ok] and [ready] name what the callers of the tree keep to: no block is
    boosted before it is in the tree, balances leave room in 64 bits, and new checkpoints
    are of blocks in the tree.

    ** The caches of the beacon state

    A state's root is computed from caches that states share, and its validators lie in
    chunks that copies of a state share until one of them writes.

    - [MerkleCache.v]: [common/consensus/beacon/src/merkle_tree_cache.rs], [parallel.rs]
      and [cache_lock.rs]: a tree over the leaves of a list that is rehashed where they
      changed, behind a lock that a panic poisons.
    - [ChunkedList.v]: [chunked_list.rs] and [validators_root_cache.rs] over an explicit
      memory with reference counts.
    - [StateRoots.v]: [field_roots] and [state_root] of [beacon_state.rs] from all caches.

    The theorems show that lists that share chunks behave as lists that share nothing, and
    that along any run of changes, hashing and panics the roots from the caches are the
    roots hashed anew.

    ** Data columns and range sync

    - [DataColumns.v]: the sidecars of [common/consensus/beacon/src/blob_sidecar.rs] and
      [data_column_sidecar.rs], the verification of
      [common/polynomial_commitments/src/handlers.rs] and the reconstruction of
      [matrix_entry.rs].  Single cells, batches and whole responses verify alike, and half
      of a block's columns give all of them.
    - [BlockCache.v]: [networking/syncer/src/block_range/block_cache.rs], the blocks, blobs
      and columns a node that is behind has downloaded, the requests in flight, the peers
      tried and the choice of the next request.  A sequence of [CacheOp]s is any use of
      it.  The theorems show that the cache holds verified data only and never panics,
      that half of a block's columns suffice, that every answer of [data_to_fetch] fits the
      cache and that a finished download is complete.  [agreeing] assumes that the columns
      received do not show a collision of the hash ([columns_bound]).

    ** Bounds and fuel

    - Loops bounded by the data get their bound as fuel (the number of slots to process,
      of blocks to walk, of candidates), and the theorems show it is enough.
    - Drawing a proposer or a sync committee is rejection sampling on a hash: its fuel
      ([CandidateFuel]) is a parameter, since its end depends on the hash.
    - Hypotheses such as fewer than 2^40 validators state limits the containers have.

    ** Not modelled

    - Networking, request handling, the loops of the syncers around the download cache,
      the RPC servers, the asynchronous services and the validator clients: message loops
      over libraries.
    - The database engine, cryptography and serialization are parameters.
    - Of the data columns: custody groups, partial columns, and columns made from the
      blobs of the execution client.
    - Of the beacon storage: the files of the state table, the replay of states from their
      summaries and their pruning on another thread (the table is a map from roots to
      states), the capacity of the in-memory caches (a checkpoint state that a read
      computes is not kept), backfill, bootstrap and blob files.
    - Metrics, logging, and the shuffling, total-active-balance and sync-committee-indices
      caches of the beacon state, which hold values the modelled functions compute. *)

From stdpp Require Export prelude list gmap sets sorting.
From Stdlib Require Export ZArith Lia.

#[global] Open Scope Z_scope.

(** ** Results

    A Rust computation returns a value, returns an [Err], panics, or does not
    return.  Fuelled loops report [NoFuel] when the fuel given to them ran out,
    so that a theorem about a result says that the loop stopped. *)

Inductive res (E A : Type) : Type :=
| Ok (a : A)
| Err (e : E)
| Panic
| NoFuel.

Arguments Ok {E A} a.
Arguments Err {E A} e.
Arguments Panic {E A}.
Arguments NoFuel {E A}.

#[global] Instance res_ret E : MRet (res E) := fun A a => Ok a.

#[global] Instance res_bind E : MBind (res E) := fun A B k x =>
  match x with
  | Ok a => k a
  | Err e => Err e
  | Panic => Panic
  | NoFuel => NoFuel
  end.

#[global] Instance res_fmap E : FMap (res E) := fun A B f x =>
  match x with
  | Ok a => Ok (f a)
  | Err e => Err e
  | Panic => Panic
  | NoFuel => NoFuel
  end.

(** [ensure!(b, e)]. *)
Definition ensure {E} (b : bool) (e : E) : res E unit :=
  if b then Ok tt else Err e.

(** [o.ok_or(e)], and [Result::map_err] for operations modelled by an option. *)
Definition ok_or {E A} (o : option A) (e : E) : res E A :=
  match o with Some a => Ok a | None => Err e end.

(** A [for] loop whose body may leave with [?]. *)
Fixpoint foldM {E S A} (f : S -> A -> res E S) (s : S) (l : list A) : res E S :=
  match l with
  | [] => Ok s
  | a :: l' => s' ← f s a; foldM f s' l'
  end.

(** [iter.map(f).collect::<Result<Vec<_>, _>>()]. *)
Fixpoint mapR {E A B} (f : A -> res E B) (l : list A) : res E (list B) :=
  match l with
  | [] => Ok []
  | a :: l' => b ← f a; bs ← mapR f l'; Ok (b :: bs)
  end.

(** The computation came back with a value or an error. *)
Definition returns {E A} (x : res E A) : Prop :=
  match x with Ok _ | Err _ => True | Panic | NoFuel => False end.

Definition is_Ok {E A} (x : res E A) : bool :=
  match x with Ok _ => true | _ => false end.

(** A slice's [chunks]: its parts of [size] elements, the last one shorter. *)
Fixpoint chunks_from {A} (fuel size : nat) (l : list A) : list (list A) :=
  match fuel, l with
  | S fuel', _ :: _ => take size l :: chunks_from fuel' size (drop size l)
  | _, _ => []
  end.
Definition chunks {A} (size : nat) (l : list A) : list (list A) := chunks_from (length l) size l.

Lemma chunks_concat_from {A} size (l : list A) fuel :
  (0 < size)%nat -> (length l <= fuel)%nat -> concat (chunks_from fuel size l) = l.
Proof.
  intros Hs. revert l. induction fuel as [|fuel IH]; intros l Hf.
  - by destruct l; cbn in *; [|lia].
  - destruct l as [|x l]; [done|]. cbn [chunks_from concat]. rewrite IH; [apply take_drop|].
    rewrite length_drop. cbn in *. lia.
Qed.

Lemma concat_chunks {A} size (l : list A) : (0 < size)%nat -> concat (chunks size l) = l.
Proof. intros. by apply chunks_concat_from. Qed.

Section res_lemmas.
Context {E : Type}.

Lemma bind_Ok {A B} (x : res E A) (k : A -> res E B) b :
  (x ≫= k) = Ok b <-> exists a, x = Ok a /\ k a = Ok b.
Proof.
  destruct x; cbn; split; try discriminate;
    try (intros (? & [=] & _); fail); eauto.
  by intros (? & [= ->] & ?).
Qed.

Lemma ensure_Ok b (e : E) u : ensure b e = Ok u <-> b = true.
Proof. destruct b, u; cbn; split; congruence. Qed.

Lemma ok_or_Ok {A} (o : option A) (e : E) a : ok_or o e = Ok a <-> o = Some a.
Proof. destruct o; cbn; split; congruence. Qed.

Lemma returns_ensure b (e : E) : returns (ensure b e).
Proof. by destruct b. Qed.

Lemma returns_ok_or {A} (o : option A) (e : E) : returns (ok_or o e).
Proof. by destruct o. Qed.

Lemma returns_bind {A B} (x : res E A) (k : A -> res E B) :
  returns x -> (forall a, x = Ok a -> returns (k a)) -> returns (x ≫= k).
Proof. destruct x; cbn; auto. Qed.

Lemma foldM_app {S A} (f : S -> A -> res E S) s l1 l2 :
  foldM f s (l1 ++ l2) = (s' ← foldM f s l1; foldM f s' l2).
Proof.
  revert s. induction l1 as [|a l1 IH]; intros s; cbn; [done|].
  destruct (f s a); cbn; auto.
Qed.

(** Invariant rule for a fallible loop. *)
Lemma foldM_inv {S A} (P : S -> Prop) (f : S -> A -> res E S) l s s' :
  P s ->
  (forall s1 a s2, a ∈ l -> P s1 -> f s1 a = Ok s2 -> P s2) ->
  foldM f s l = Ok s' -> P s'.
Proof.
  revert s. induction l as [|a l IH]; intros s Hs Hf; cbn.
  - by intros [= <-].
  - intros (s1 & H1 & H2)%bind_Ok.
    apply (IH s1); [|by intros; eapply Hf; eauto; set_solver|done].
    eapply Hf; eauto. set_solver.
Qed.

(** Relational version: a preorder every iteration respects. *)
Lemma foldM_rel {S A} (R : S -> S -> Prop) `{!PreOrder R}
    (f : S -> A -> res E S) l s s' :
  (forall s1 a s2, a ∈ l -> f s1 a = Ok s2 -> R s1 s2) ->
  foldM f s l = Ok s' -> R s s'.
Proof.
  intros Hf Hl.
  eapply (foldM_inv (R s)); [reflexivity| |exact Hl].
  intros s1 a s2 Ha H1 H2. etrans; [exact H1|eauto].
Qed.

Lemma foldM_returns {S A} (P : S -> Prop) (f : S -> A -> res E S) l s :
  P s ->
  (forall s1 a, a ∈ l -> P s1 -> returns (f s1 a)) ->
  (forall s1 a s2, a ∈ l -> P s1 -> f s1 a = Ok s2 -> P s2) ->
  returns (foldM f s l).
Proof.
  revert s. induction l as [|a l IH]; intros s Hs Hr Hp; cbn; [done|].
  apply returns_bind; [apply Hr; set_solver|].
  intros s1 H1. apply IH; [|intros; apply Hr; set_solver|].
  - eapply Hp; eauto. set_solver.
  - intros; eapply Hp; eauto. set_solver.
Qed.

Lemma foldM_Ok {S A} (P : S -> Prop) (f : S -> A -> res E S) l s :
  P s ->
  (forall s1 a, a ∈ l -> P s1 -> exists s2, f s1 a = Ok s2 /\ P s2) ->
  exists s', foldM f s l = Ok s' /\ P s'.
Proof.
  revert s. induction l as [|a l IH]; intros s Hs Hf; cbn; [eauto|].
  destruct (Hf s a) as (s1 & -> & H1); [set_solver|done|]. cbn.
  apply IH; [done|]. intros; apply Hf; [set_solver|done].
Qed.

Lemma mapR_Ok {A B} (f : A -> res E B) l bs :
  mapR f l = Ok bs <-> Forall2 (fun a b => f a = Ok b) l bs.
Proof.
  revert bs. induction l as [|a l IH]; intros bs; cbn.
  - split; [by intros [= <-]|by inversion 1].
  - rewrite bind_Ok. setoid_rewrite bind_Ok. split.
    + intros (b & Hb & bs' & Hbs & [= <-]). constructor; [done|by apply IH].
    + inversion 1; subst. eexists. split; [done|].
      eexists. split; [by apply IH|done].
Qed.

Lemma mapR_length {A B} (f : A -> res E B) l bs : mapR f l = Ok bs -> length bs = length l.
Proof. intros Hm%mapR_Ok. symmetry. by eapply Forall2_length. Qed.

Lemma mapR_lookup {A B} (f : A -> res E B) l bs i b :
  mapR f l = Ok bs -> bs !! i = Some b -> exists a, l !! i = Some a /\ f a = Ok b.
Proof. intros Hm%mapR_Ok Hb. by apply (Forall2_lookup_r _ _ _ _ _ Hm) in Hb as (a & ? & ?); eauto. Qed.

Lemma mapR_fmap {A B} (f : A -> res E B) (g : A -> B) l :
  (forall a, a ∈ l -> f a = Ok (g a)) -> mapR f l = Ok (g <$> l).
Proof.
  intros Hf. apply mapR_Ok. induction l as [|a l IH]; constructor.
  - apply Hf. set_solver.
  - apply IH. intros. apply Hf. set_solver.
Qed.

Lemma mapR_all {A B} (f : A -> res E B) l :
  (forall a, a ∈ l -> exists b, f a = Ok b) -> exists bs, mapR f l = Ok bs.
Proof.
  induction l as [|a l IH]; intros Hf; cbn; [eauto|].
  destruct (Hf a) as [b ->]; [set_solver|]. destruct IH as [bs ->]; [intros; apply Hf; set_solver|]. cbn. eauto.
Qed.

Lemma mapR_returns {A B} (f : A -> res E B) l :
  (forall a, a ∈ l -> returns (f a)) -> returns (mapR f l).
Proof.
  induction l as [|a l IH]; intros Hf; cbn; [done|].
  apply returns_bind; [apply Hf; set_solver|]. intros b _.
  apply returns_bind; [apply IH; intros; apply Hf; set_solver|]. done.
Qed.

Lemma mapR_app {A B} (f : A -> res E B) l1 l2 :
  mapR f (l1 ++ l2) = (b1 ← mapR f l1; b2 ← mapR f l2; Ok (b1 ++ b2)).
Proof.
  induction l1 as [|a l1 IH]; cbn.
  - by destruct (mapR f l2).
  - destruct (f a); cbn; [|done..]. rewrite IH. destruct (mapR f l1); cbn; [|done..]. by destruct (mapR f l2).
Qed.
End res_lemmas.

(** Decompose a hypothesis [m = Ok x] along the binds of [m]. *)
Ltac res_inv1 H :=
  lazymatch type of H with
  | (_ ≫= _) = Ok _ =>
      let a := fresh "v" in let H1 := fresh "Hb" in
      apply bind_Ok in H as (a & H1 & H); res_inv1 H1; res_inv1 H
  | ensure _ _ = Ok _ => apply ensure_Ok in H
  | ok_or _ _ = Ok _ => apply ok_or_Ok in H
  | Ok _ = Ok _ => injection H as H; subst
  | Err _ = Ok _ => discriminate H
  | Panic = Ok _ => discriminate H
  | NoFuel = Ok _ => discriminate H
  | _ => idtac
  end.
Tactic Notation "res_inv" hyp(H) := res_inv1 H.

Create HintDb res discriminated.
#[export] Hint Resolve returns_ensure returns_ok_or : res.

(** Walk through the binds whose first computation is known to return. *)
Ltac returns_step := apply returns_bind; [solve [auto with res]|intros].

(** ** Machine integers

    [u64] values are integers with the wrap-around of the release profile
    written out; [usize] values are natural numbers, [as usize] is [Z.to_nat]
    and [as u64] is [Z.of_nat]. *)

Definition u64_max : Z := 2 ^ 64 - 1.
Definition wrap64 (z : Z) : Z := z mod 2 ^ 64.
Definition u64_add (a b : Z) : Z := wrap64 (a + b).
Definition u64_sub (a b : Z) : Z := wrap64 (a - b).
Definition u64_mul (a b : Z) : Z := wrap64 (a * b).

(** [u64::saturating_sub] and [u64::checked_sub]. *)
Definition u64_saturating_sub (a b : Z) : Z := Z.max 0 (a - b).
Definition u64_checked_sub (a b : Z) : option Z :=
  if a <? b then None else Some (a - b).
(** [u64::div_ceil]. *)
Definition u64_div_ceil (a b : Z) : Z :=
  if a mod b =? 0 then a / b else a / b + 1.

(** In an expression of several sums and products the outer operation wraps; the inner
    ones need not, the result modulo [2 ^ 64] is the same. *)
Declare Scope u64_scope.
Delimit Scope u64_scope with u64.
Infix "+" := u64_add : u64_scope.
Infix "-" := u64_sub : u64_scope.
Infix "*" := u64_mul : u64_scope.

Definition is_u64 (z : Z) : Prop := 0 <= z < 2 ^ 64.

Definition is_u64_b (z : Z) : bool := (0 <=? z) && (z <? 2 ^ 64).

Lemma is_u64_b_true z : is_u64_b z = true <-> is_u64 z.
Proof. unfold is_u64_b, is_u64. rewrite andb_true_iff, Z.leb_le, Z.ltb_lt. done. Qed.

Lemma wrap64_id z : is_u64 z -> wrap64 z = z.
Proof. intros ?. by apply Z.mod_small. Qed.

Lemma u64_add_id a b : is_u64 (a + b) -> (a + b)%u64 = a + b.
Proof. apply wrap64_id. Qed.
Lemma u64_sub_id a b : is_u64 (a - b) -> (a - b)%u64 = a - b.
Proof. apply wrap64_id. Qed.
Lemma u64_mul_id a b : is_u64 (a * b) -> (a * b)%u64 = a * b.
Proof. apply wrap64_id. Qed.

(** Discharge the range side conditions of the three lemmas above. *)
Ltac u64_solve := unfold is_u64 in *; lia.
Ltac u64_simpl :=
  repeat first
    [ rewrite u64_add_id by u64_solve
    | rewrite u64_sub_id by u64_solve
    | rewrite u64_mul_id by u64_solve ].

(** [usize] subtraction, with the wrap-around of the release profile. *)
Definition usize_sub (a b : nat) : nat :=
  Z.to_nat (u64_sub (Z.of_nat a) (Z.of_nat b)).

Lemma usize_sub_id a b :
  (b <= a)%nat -> Z.of_nat a < 2 ^ 64 -> usize_sub a b = (a - b)%nat.
Proof. intros. unfold usize_sub. u64_simpl. lia. Qed.

(** ** Iterators and maps *)

(** [iter().enumerate()]. *)
Definition enumerate {A} (l : list A) : list (nat * A) := zip (seq 0 (length l)) l.

Lemma elem_of_enumerate {A} (l : list A) i a :
  (i, a) ∈ enumerate l <-> l !! i = Some a.
Proof.
  unfold enumerate. rewrite list_elem_of_lookup. setoid_rewrite lookup_zip_with.
  split.
  - intros (j & Hj). apply bind_Some in Hj as (x & Hx & Hj).
    apply bind_Some in Hj as (y & Hy & [= -> ->]).
    by apply lookup_seq in Hx as [-> _].
  - intros H. exists i. rewrite lookup_seq_lt by (by eapply lookup_lt_Some). by rewrite H.
Qed.

(** Enumeration from an arbitrary first index, for inductions. *)
Definition enumerate_from {A} (k : nat) (l : list A) : list (nat * A) :=
  zip (seq k (length l)) l.

Lemma enumerate_from_cons {A} k (a : A) l :
  enumerate_from k (a :: l) = (k, a) :: enumerate_from (S k) l.
Proof. done. Qed.

(** The integers of the half-open range [a..b]. *)
Definition range (a b : Z) : list Z := seqZ a (b - a).

Lemma elem_of_range a b i : i ∈ range a b <-> a <= i < b.
Proof. unfold range. rewrite elem_of_seqZ. lia. Qed.

Lemma range_seqZ a b : range a b = seqZ a (Z.of_nat (Z.to_nat (b - a))).
Proof. unfold range, seqZ. by rewrite Nat2Z.id. Qed.

(** [HashMap::retain]. *)
Definition map_retain `{Countable K} {V} (f : K -> V -> bool) (m : gmap K V) : gmap K V :=
  filter (fun kv => f kv.1 kv.2 = true) m.

Lemma map_retain_Some `{Countable K} {V} (f : K -> V -> bool) (m : gmap K V) k v :
  map_retain f m !! k = Some v <-> m !! k = Some v /\ f k v = true.
Proof. unfold map_retain. by rewrite map_lookup_filter_Some. Qed.

(** [Iterator::max_by_key] for the order [leb] on elements: the last of the greatest. *)
Fixpoint max_by_from {A} (leb : A -> A -> bool) (best : A) (l : list A) : A :=
  match l with
  | [] => best
  | a :: l' => max_by_from leb (if leb best a then a else best) l'
  end.
Definition max_by {A} (leb : A -> A -> bool) (l : list A) : option A :=
  match l with [] => None | a :: l' => Some (max_by_from leb a l') end.

Section max_by.
Context {A : Type} (leb : A -> A -> bool).
Hypothesis leb_refl : forall a, leb a a = true.
Hypothesis leb_trans : forall a b c, leb a b = true -> leb b c = true -> leb a c = true.
Hypothesis leb_total : forall a b, leb a b = false -> leb b a = true.

Lemma max_by_from_spec l : forall best,
  max_by_from leb best l ∈ best :: l /\
  forall a, a ∈ best :: l -> leb a (max_by_from leb best l) = true.
Proof using leb_refl leb_trans leb_total.
  induction l as [|a l IH]; intros best; cbn.
  - split; [set_solver|]. intros a ->%list_elem_of_singleton. apply leb_refl.
  - destruct (IH (if leb best a then a else best)) as [H1 H2].
    split; [destruct (leb best a); set_solver|]. intros x Hx.
    pose proof (H2 _ (list_elem_of_here _ _)) as Hhd.
    rewrite !elem_of_cons in Hx. destruct Hx as [->|[->|Hx]].
    + destruct (leb best a) eqn:Hb; [by eapply leb_trans|done].
    + destruct (leb best a) eqn:Hb; [done|]. eapply leb_trans; [by apply leb_total|done].
    + apply H2. by right.
Qed.

Lemma max_by_Some l m :
  max_by leb l = Some m -> m ∈ l /\ forall a, a ∈ l -> leb a m = true.
Proof using leb_refl leb_trans leb_total.
  destruct l as [|a l]; [done|]. intros [= <-]. apply max_by_from_spec.
Qed.
End max_by.

Lemma max_by_is_Some {A} (leb : A -> A -> bool) l : l <> [] -> exists m, max_by leb l = Some m.
Proof. destruct l; [done|]. by eexists. Qed.

(** [slice::sort_by_key]: the stable sort for the order [leb]. *)
Fixpoint insert_by {A} (leb : A -> A -> bool) (a : A) (l : list A) : list A :=
  match l with
  | [] => [a]
  | b :: l' => if leb a b then a :: b :: l' else b :: insert_by leb a l'
  end.
Definition sort_by {A} (leb : A -> A -> bool) (l : list A) : list A := foldr (insert_by leb) [] l.

Lemma insert_by_perm {A} (leb : A -> A -> bool) a l : insert_by leb a l ≡ₚ a :: l.
Proof.
  induction l as [|b l IH]; cbn; [done|]. case_match; [done|]. rewrite IH. apply Permutation_swap.
Qed.

Lemma sort_by_perm {A} (leb : A -> A -> bool) l : sort_by leb l ≡ₚ l.
Proof. induction l as [|a l IH]; cbn; [done|]. by rewrite insert_by_perm, IH. Qed.

Section sort_by.
Context {A : Type} (leb : A -> A -> bool).
Hypothesis leb_trans : forall a b c, leb a b = true -> leb b c = true -> leb a c = true.
Hypothesis leb_total : forall a b, leb a b = false -> leb b a = true.

Lemma insert_by_sorted a l :
  StronglySorted (fun x y => leb x y = true) l ->
  StronglySorted (fun x y => leb x y = true) (insert_by leb a l).
Proof using leb_trans leb_total.
  induction 1 as [|b l Hs IH Hb]; cbn; [repeat constructor|].
  destruct (leb a b) eqn:Hab; constructor; [by constructor| |done|].
  - constructor; [done|]. eapply Forall_impl; [exact Hb|]. cbn. intros x Hx. by eapply leb_trans.
  - rewrite insert_by_perm. constructor; [by apply leb_total|done].
Qed.

Lemma sort_by_sorted l : StronglySorted (fun x y => leb x y = true) (sort_by leb l).
Proof using leb_trans leb_total. induction l; cbn; [constructor|by apply insert_by_sorted]. Qed.
End sort_by.

(** ** The iteration order of hash maps

    [HashMap] and [HashSet] iterate in an order the program cannot rely on: it is an
    argument of the loops that use it, and their theorems hold for every order.
    [hl_iter l] is the iteration of a set the elements of [l] were inserted into. *)
Class HashOrder : Type := {
  hm_iter : forall {K : Type} {E : EqDecision K} {C : Countable K} {V : Type}, gmap K V -> list (K * V);
  hs_iter : forall {K : Type} {E : EqDecision K} {C : Countable K}, gset K -> list K;
  hl_iter : forall {A : Type} {E : EqDecision A}, list A -> list A;
}.
Class HashOrderLaws (H : HashOrder) : Prop := {
  hm_iter_perm : forall {K : Type} {E : EqDecision K} {C : Countable K} {V : Type} (m : gmap K V),
    hm_iter m ≡ₚ map_to_list m;
  hs_iter_perm : forall {K : Type} {E : EqDecision K} {C : Countable K} (s : gset K),
    hs_iter s ≡ₚ elements s;
  hl_iter_perm : forall {A : Type} {E : EqDecision A} (l : list A), hl_iter l ≡ₚ remove_dups l;
}.

(** The order of the finite maps of the library. *)
Definition gmap_order : HashOrder := {|
  hm_iter := fun K _ _ V m => map_to_list m;
  hs_iter := fun K _ _ s => elements s;
  hl_iter := fun A _ l => remove_dups l;
|}.
Lemma gmap_order_laws : HashOrderLaws gmap_order.
Proof. by split. Qed.

Section hash_order.
Context {HO : HashOrder} {HL : HashOrderLaws HO}.

Lemma elem_of_hm_iter `{Countable K} {V} (m : gmap K V) k v : (k, v) ∈ hm_iter m <-> m !! k = Some v.
Proof. by rewrite hm_iter_perm, elem_of_map_to_list. Qed.

Lemma NoDup_hm_iter `{Countable K} {V} (m : gmap K V) : NoDup (hm_iter m).*1.
Proof. rewrite hm_iter_perm. apply NoDup_fst_map_to_list. Qed.

Lemma elem_of_hs_iter `{Countable K} (s : gset K) k : k ∈ hs_iter s <-> k ∈ s.
Proof. by rewrite hs_iter_perm, elem_of_elements. Qed.

Lemma NoDup_hs_iter `{Countable K} (s : gset K) : NoDup (hs_iter s).
Proof. rewrite hs_iter_perm. apply NoDup_elements. Qed.

Lemma elem_of_hl_iter `{EqDecision A} (l : list A) x : x ∈ hl_iter l <-> x ∈ l.
Proof. by rewrite hl_iter_perm, elem_of_remove_dups. Qed.
End hash_order.

(** ** Boolean comparisons to propositions *)

Ltac b2p :=
  repeat match goal with
  | H : _ && _ = true |- _ => apply andb_true_iff in H as [? ?]
  | H : _ || _ = false |- _ => apply orb_false_iff in H as [? ?]
  | H : _ || _ = true |- _ => apply orb_true_iff in H
  | H : negb _ = true |- _ => apply negb_true_iff in H
  | H : negb _ = false |- _ => apply negb_false_iff in H
  | H : (_ =? _) = true |- _ => apply Z.eqb_eq in H
  | H : (_ =? _) = false |- _ => apply Z.eqb_neq in H
  | H : (_ <? _) = true |- _ => apply Z.ltb_lt in H
  | H : (_ <? _) = false |- _ => apply Z.ltb_ge in H
  | H : (_ <=? _) = true |- _ => apply Z.leb_le in H
  | H : (_ <=? _) = false |- _ => apply Z.leb_gt in H
  | H : (_ =? _)%nat = true |- _ => apply Nat.eqb_eq in H
  | H : (_ =? _)%nat = false |- _ => apply Nat.eqb_neq in H
  | H : (_ <? _)%nat = true |- _ => apply Nat.ltb_lt in H
  | H : (_ <? _)%nat = false |- _ => apply Nat.ltb_ge in H
  | H : (_ <=? _)%nat = true |- _ => apply Nat.leb_le in H
  | H : (_ <=? _)%nat = false |- _ => apply Nat.leb_gt in H
  | H : bool_decide _ = true |- _ => apply bool_decide_eq_true in H
  | H : bool_decide _ = false |- _ => apply bool_decide_eq_false in H
  end.

(** Split the goal's first [if]. *)
Ltac case_if :=
  match goal with
  | |- context [if ?b then _ else _] => destruct b eqn:?
  | H : context [if ?b then _ else _] |- _ => destruct b eqn:?
  end.
