(* ===== verification/Ssz.v ===== *)
(** * The SSZ collection types the client uses

    [VariableList<T, N>] and [BitList<N>] come from the [ssz_types] crate, which
    is not part of the repository.  Their operations are the fields of the class
    [SszTypes], an argument of every definition that uses them, and what their
    documentation promises is the class [SszLaws].  The capacity [N] is an
    argument of the operations that check it.  [list_ssz] shows that the laws can
    hold, and is what concrete inputs are evaluated with. *)

From S2P Require Import Prelude.

(** Bitwise or of two bit strings, as long as the longer one. *)
Fixpoint bits_or (a b : list bool) : list bool :=
  match a, b with
  | [], _ => b
  | _, [] => a
  | x :: a', y :: b' => (x || y) :: bits_or a' b'
  end.

(** Number of bits set. *)
Fixpoint count_true (l : list bool) : nat :=
  match l with
  | [] => 0%nat
  | b :: l' => ((if b then 1 else 0) + count_true l')%nat
  end.

Class SszTypes : Type := {
  VariableList : Type -> Type;
  #[global] VariableList_eq_dec :: forall A, EqDecision A -> EqDecision (VariableList A);
  vl_iter : forall {A}, VariableList A -> list A;
  vl_empty : forall {A}, VariableList A;
  vl_new : forall {A}, Z -> list A -> option (VariableList A);
  vl_push : forall {A}, Z -> VariableList A -> A -> option (VariableList A);
  BitList : Type;
  #[global] BitList_eq_dec :: EqDecision BitList;
  bl_iter : BitList -> list bool;
  bl_with_capacity : Z -> nat -> option BitList;
  bl_len : BitList -> nat;
  bl_get : BitList -> nat -> option bool;
  bl_set : BitList -> nat -> bool -> option BitList;
  bl_union : BitList -> BitList -> BitList;
  bl_num_set_bits : BitList -> nat;
}.

(** Documented behaviour of [ssz_types]: [VariableList::new] and [push] refuse to
    exceed the capacity; [BitList::with_capacity] gives cleared bits, [get] and
    [set] refuse an index out of range, [union] is as long as the longer side. *)
Class SszLaws (S : SszTypes) : Prop := {
  vl_iter_empty : forall A, vl_iter (@vl_empty S A) = [];
  vl_new_spec : forall A max (l : list A),
    match vl_new max l with
    | Some v => vl_iter v = l /\ Z.of_nat (length l) <= max
    | None => max < Z.of_nat (length l)
    end;
  vl_push_spec : forall A max (v : VariableList A) a,
    match vl_push max v a with
    | Some v' => vl_iter v' = vl_iter v ++ [a] /\ Z.of_nat (length (vl_iter v)) < max
    | None => max <= Z.of_nat (length (vl_iter v))
    end;
  bl_with_capacity_spec : forall max n,
    match bl_with_capacity max n with
    | Some b => bl_iter b = replicate n false /\ Z.of_nat n <= max
    | None => max < Z.of_nat n
    end;
  bl_len_spec : forall b, bl_len b = length (bl_iter b);
  bl_get_spec : forall b i, bl_get b i = bl_iter b !! i;
  bl_set_spec : forall b i v,
    match bl_set b i v with
    | Some b' => (i < length (bl_iter b))%nat /\ bl_iter b' = <[i := v]> (bl_iter b)
    | None => (length (bl_iter b) <= i)%nat
    end;
  bl_union_spec : forall a b, bl_iter (bl_union a b) = bits_or (bl_iter a) (bl_iter b);
  bl_num_set_bits_spec : forall b, bl_num_set_bits b = count_true (bl_iter b);
}.

(** ** Derived facts *)

Section laws.
Context {S : SszTypes} {L : SszLaws S}.

Lemma vl_push_Some A max (v : VariableList A) a v' :
  vl_push max v a = Some v' ->
  vl_iter v' = vl_iter v ++ [a] /\ Z.of_nat (length (vl_iter v)) < max.
Proof. intros H. pose proof (vl_push_spec A max v a) as Hs. by rewrite H in Hs. Qed.

Lemma vl_new_Some A max (l : list A) v :
  vl_new max l = Some v -> vl_iter v = l /\ Z.of_nat (length l) <= max.
Proof. intros H. pose proof (vl_new_spec A max l) as Hs. by rewrite H in Hs. Qed.

Lemma bl_with_capacity_Some max n b :
  bl_with_capacity max n = Some b ->
  bl_iter b = replicate n false /\ Z.of_nat n <= max.
Proof. intros H. pose proof (bl_with_capacity_spec max n) as Hs. by rewrite H in Hs. Qed.

Lemma bl_set_Some b i v b' :
  bl_set b i v = Some b' ->
  (i < length (bl_iter b))%nat /\ bl_iter b' = <[i := v]> (bl_iter b).
Proof. intros H. pose proof (bl_set_spec b i v) as Hs. by rewrite H in Hs. Qed.

Lemma bl_set_is_Some b i v :
  (i < length (bl_iter b))%nat ->
  exists b', bl_set b i v = Some b' /\ bl_iter b' = <[i := v]> (bl_iter b).
Proof.
  intros Hi. pose proof (bl_set_spec b i v) as Hs.
  destruct (bl_set b i v); [naive_solver|lia].
Qed.

Lemma bl_with_capacity_is_Some max n :
  Z.of_nat n <= max ->
  exists b, bl_with_capacity max n = Some b /\ bl_iter b = replicate n false.
Proof.
  intros Hi. pose proof (bl_with_capacity_spec max n) as Hs.
  destruct (bl_with_capacity max n); [naive_solver|lia].
Qed.
End laws.

(** ** Bit strings *)

Lemma length_bits_or a b : length (bits_or a b) = Nat.max (length a) (length b).
Proof. revert b. induction a as [|x a IH]; intros [|y b]; cbn; [done..|by rewrite IH]. Qed.

Lemma bits_or_falses n b :
  (length b <= n)%nat ->
  bits_or (replicate n false) b = b ++ replicate (n - length b) false.
Proof.
  revert b. induction n as [|n IH]; intros [|y b] Hl; cbn in *; try done; [lia|].
  rewrite IH by lia. done.
Qed.

Lemma count_true_replicate_false n : count_true (replicate n false) = 0%nat.
Proof. by induction n. Qed.

Lemma count_true_le l : (count_true l <= length l)%nat.
Proof. induction l as [|[] l IH]; cbn; lia. Qed.

(** Votes only accumulate: a bit string that sets at least the bits of another
    one counts at least as many. *)
Lemma count_true_mono a b :
  length a = length b ->
  (forall i, a !! i = Some true -> b !! i = Some true) ->
  (count_true a <= count_true b)%nat.
Proof.
  revert b. induction a as [|x a IH]; intros [|y b] Hl Hi; cbn in *; try lia.
  specialize (IH b ltac:(lia) (fun i => Hi (S i))).
  destruct x; [|destruct y; lia].
  specialize (Hi 0%nat eq_refl). simplify_eq/=. lia.
Qed.

(** The indices whose bit is set, in increasing order. *)
Fixpoint true_indices_from (i : nat) (l : list bool) : list nat :=
  match l with
  | [] => []
  | b :: l' => if b then i :: true_indices_from (S i) l' else true_indices_from (S i) l'
  end.
Definition true_indices (l : list bool) : list nat := true_indices_from 0 l.

Lemma elem_of_true_indices_from i l j :
  j ∈ true_indices_from i l <-> (i <= j)%nat /\ l !! (j - i)%nat = Some true.
Proof.
  revert i. induction l as [|b l IH]; intros i; cbn.
  - split; [by intros ?%elem_of_nil|intros [_ [=]]].
  - assert (Hcons : j ∈ true_indices_from (S i) l <->
                    (i < j)%nat /\ (b :: l) !! (j - i)%nat = Some true).
    { rewrite IH. split; intros [? H]; (split; [lia|]).
      - replace (j - i)%nat with (S (j - S i)) by lia. done.
      - by replace (j - i)%nat with (S (j - S i)) in H by lia. }
    destruct b; rewrite ?elem_of_cons, Hcons.
    + split; [intros [->|[? ?]]|intros [? ?]].
      * by rewrite Nat.sub_diag.
      * auto with lia.
      * destruct (decide (j = i)); auto with lia.
    + split; [intuition lia|intros [? H]].
      destruct (decide (j = i)) as [->|]; [by rewrite Nat.sub_diag in H|].
      split; [lia|done].
Qed.

Lemma elem_of_true_indices l j : j ∈ true_indices l <-> l !! j = Some true.
Proof.
  unfold true_indices. rewrite elem_of_true_indices_from, Nat.sub_0_r. intuition lia.
Qed.

Lemma NoDup_true_indices l : NoDup (true_indices l).
Proof.
  unfold true_indices. generalize 0%nat as i.
  induction l as [|b l IH]; intros i; cbn; [constructor|].
  destruct b; [|done]. constructor; [|done].
  rewrite elem_of_true_indices_from. lia.
Qed.

Lemma length_true_indices l : length (true_indices l) = count_true l.
Proof.
  unfold true_indices. generalize 0%nat as i.
  induction l as [|b l IH]; intros i; cbn; [done|]. destruct b; cbn; by rewrite IH.
Qed.

(** ** The list instance *)

Definition list_ssz : SszTypes := {|
  VariableList := list;
  VariableList_eq_dec := fun A _ => _;
  vl_iter := fun A l => l;
  vl_empty := fun A => [];
  vl_new := fun A max l => if Z.of_nat (length l) <=? max then Some l else None;
  vl_push := fun A max l a => if Z.of_nat (length l) <? max then Some (l ++ [a]) else None;
  BitList := list bool;
  BitList_eq_dec := _;
  bl_iter := fun l => l;
  bl_with_capacity := fun max n =>
    if Z.of_nat n <=? max then Some (replicate n false) else None;
  bl_len := length;
  bl_get := fun l i => l !! i;
  bl_set := fun l i v => if (i <? length l)%nat then Some (<[i := v]> l) else None;
  bl_union := bits_or;
  bl_num_set_bits := count_true;
|}.

Lemma list_ssz_laws : SszLaws list_ssz.
Proof.
  split; cbn -[Nat.ltb Z.leb Z.ltb]; try done; intros; case_if; b2p; split_and?; done || lia.
Qed.
