(* ===== verification/Slot.v ===== *)
(** * Slot arithmetic of 3SF-mini

    [crates/common/consensus/lean/src/slot.rs]: which slots may be justified
    after a finalized slot, and where the justification bit of a slot lives in
    the window that starts right after the finalized slot. *)

From S2P Require Import Prelude.

Definition wrap128 (z : Z) : Z := z mod 2 ^ 128.

(** [u64::isqrt] and [u128::isqrt]: the integer square root. *)
Definition isqrt (z : Z) : Z := Z.sqrt z.

Definition is_justifiable_after (candidate_slot finalized_slot : Z) : bool :=
  if candidate_slot <? finalized_slot then false
  else
    let delta := (candidate_slot - finalized_slot)%u64 in
    let pronic_discriminant := wrap128 (wrap128 (4 * delta) + 1) in
    let discriminant_root := isqrt pronic_discriminant in
    (delta <=? 5)
    || (wrap64 (isqrt delta ^ 2) =? delta)
    || ((wrap128 (discriminant_root ^ 2) =? pronic_discriminant)
        && (discriminant_root mod 2 =? 1)).

Definition justified_index_after (candidate_slot finalized_slot : Z) : option Z :=
  if candidate_slot <=? finalized_slot then None
  else Some ((candidate_slot - finalized_slot) - 1)%u64.

(** ** Specification *)

(** The distances 3SF-mini allows: at most five, a square, or a pronic number. *)
Definition justifiable_distance (d : Z) : Prop :=
  d <= 5 \/ (exists k, 0 <= k /\ d = k * k) \/ (exists k, 0 <= k /\ d = k * (k + 1)).

Lemma sqrt_square_iff d :
  0 <= d -> Z.sqrt d ^ 2 = d <-> exists k, 0 <= k /\ d = k * k.
Proof.
  intros Hd. split.
  - intros H. exists (Z.sqrt d). split; [apply Z.sqrt_nonneg|]. lia.
  - intros (k & Hk & ->). rewrite Z.sqrt_square by done. lia.
Qed.

(** [4d + 1] is the square of an odd number exactly when [d] is pronic. *)
Lemma sqrt_pronic_iff d :
  0 <= d ->
  (Z.sqrt (4 * d + 1) ^ 2 = 4 * d + 1 /\ Z.sqrt (4 * d + 1) mod 2 = 1)
  <-> exists k, 0 <= k /\ d = k * (k + 1).
Proof.
  intros Hd. split.
  - intros [Hsq Hodd]. pose proof (Z.sqrt_nonneg (4 * d + 1)).
    set (r := Z.sqrt (4 * d + 1)) in *.
    pose proof (Z.div_mod r 2 ltac:(done)) as Hr. rewrite Hodd in Hr.
    exists (r / 2). split; [apply Z.div_pos; lia|]. nia.
  - intros (k & Hk & ->).
    replace (4 * (k * (k + 1)) + 1) with ((2 * k + 1) * (2 * k + 1)) by lia.
    rewrite Z.sqrt_square by lia. split; [lia|].
    rewrite Z.add_comm, Z.mul_comm, Z.mod_add by done. done.
Qed.

Lemma sqrt_sq_le d : 0 <= d -> 0 <= Z.sqrt d ^ 2 <= d.
Proof.
  intros Hd. pose proof (Z.sqrt_nonneg d). pose proof (Z.sqrt_spec d Hd) as Hs. cbv zeta in Hs.
  rewrite Z.pow_2_r. nia.
Qed.

Lemma justified_index_after_Some c f i :
  is_u64 c -> is_u64 f ->
  justified_index_after c f = Some i <-> f < c /\ i = c - f - 1.
Proof.
  unfold justified_index_after. intros Hc Hf. case_if; b2p.
  - split; [done|lia].
  - u64_simpl. split; [intros [= <-]; lia|intros [_ ->]; done].
Qed.

Lemma justified_index_after_None c f : justified_index_after c f = None <-> c <= f.
Proof. unfold justified_index_after. case_if; b2p; split; (done || lia). Qed.

(** The 64- and 128-bit arithmetic of [is_justifiable_after] never wraps on 64-bit
    slots, and the test decides the 3SF-mini rule. *)
Lemma is_justifiable_after_correct c f :
  is_u64 c -> is_u64 f ->
  is_justifiable_after c f = true <-> f <= c /\ justifiable_distance (c - f).
Proof.
  intros Hc Hf. unfold is_justifiable_after, isqrt, justifiable_distance.
  case_if; b2p; [split; [done|lia]|].
  u64_simpl. set (d := c - f). assert (Hd : 0 <= d < 2 ^ 64) by u64_solve.
  pose proof (sqrt_sq_le d ltac:(lia)). pose proof (sqrt_sq_le (4 * d + 1) ltac:(lia)).
  assert (Hw : forall z, 0 <= z < 2 ^ 128 -> wrap128 z = z)
    by (intros; apply Z.mod_small; done).
  rewrite (Hw (4 * d)) by lia. rewrite (Hw (4 * d + 1)) by lia.
  rewrite (Hw (Z.sqrt (4 * d + 1) ^ 2)) by lia. rewrite wrap64_id by u64_solve.
  rewrite !orb_true_iff, andb_true_iff, Z.leb_le, !Z.eqb_eq.
  rewrite sqrt_square_iff, sqrt_pronic_iff by lia. split; [intros|intros [_ ?]]; tauto || (split; [lia|tauto]).
Qed.

(** From any slot on, a justifiable slot is at most the square root of the
    distance away. *)
Lemma justifiable_gap c f :
  0 <= f <= c -> c + Z.sqrt (c - f) < 2 ^ 64 ->
  exists s, c <= s <= c + Z.sqrt (c - f) /\ is_justifiable_after s f = true.
Proof.
  intros Hf Hb. pose proof (Z.sqrt_nonneg (c - f)).
  pose proof (Z.sqrt_spec (c - f) ltac:(lia)) as Hs. cbv zeta in Hs.
  set (k := Z.sqrt (c - f)) in *. unfold Z.succ in Hs.
  assert (Hj : exists s, c <= s <= c + k /\ justifiable_distance (s - f)).
  { destruct (Z.le_gt_cases (c - f) (k * k)) as [Hle|Hgt].
    - exists c. split; [lia|]. right; left. exists k. lia.
    - destruct (Z.le_gt_cases (c - f) (k * (k + 1))) as [Hle'|Hgt'].
      + exists (f + k * (k + 1)). split; [lia|]. right; right. exists k. lia.
      + exists (f + (k + 1) * (k + 1)). split; [lia|]. right; left. exists (k + 1). lia. }
  destruct Hj as (s & Hr & Hj). exists s. split; [done|].
  apply is_justifiable_after_correct; [u64_solve..|]. split; [lia|done].
Qed.
