(* ===== verification/LeanTypes.v ===== *)
(** * Data of the Lean chain

    [crates/common/consensus/lean/src]: checkpoints, attestations, blocks and
    validators, with the source's fields.  A [B256] is the integer its 32 bytes
    spell big-endian, so that the integer order is the byte-wise order the source
    sorts roots by. *)

From S2P Require Import Prelude Ssz.

Definition B256 : Type := Z.
Definition B256_ZERO : B256 := 0.

(** [tree_hash_root], the Merkle root the [tree_hash] crate derives for a type. *)
Class TreeHash (T : Type) : Type := tree_hash_root : T -> B256.

Record Checkpoint : Type := mkCheckpoint {
  cp_root : B256;
  cp_slot : Z;
}.

Definition Checkpoint_default : Checkpoint := mkCheckpoint B256_ZERO 0.

Record Config : Type := mkConfig { genesis_time : Z }.

Record PublicKey : Type := mkPublicKey { pk_inner : list Z }.
Record Signature : Type := mkSignature { sig_inner : list Z }.

Record Validator : Type := mkValidator {
  attestation_public_key : PublicKey;
  proposal_public_key : PublicKey;
  val_index : Z;
}.

(** [slot % validator_count] panics when the registry is empty. *)
Definition is_proposer {E} (validator_index slot validator_count : Z) : res E bool :=
  if validator_count =? 0 then Panic
  else Ok (slot mod validator_count =? validator_index).

Record AttestationData : Type := mkAttestationData {
  ad_slot : Z;
  ad_head : Checkpoint;
  ad_target : Checkpoint;
  ad_source : Checkpoint;
}.

(** Despite its name, one validator's vote. *)
Record AggregatedAttestations : Type := mkAggregatedAttestations {
  aas_validator_id : Z;
  aas_data : AttestationData;
}.

Record SignedAttestation : Type := mkSignedAttestation {
  sa_validator_id : Z;
  sa_message : AttestationData;
  sa_signature : Signature;
}.

Record SignatureKey : Type := mkSignatureKey {
  sk_validator_id : Z;
  sk_data_root : B256;
}.

Definition SignatureKey_from_parts (validator_id : Z) (data_root : B256) : SignatureKey :=
  mkSignatureKey validator_id data_root.

Definition SignatureKey_new `{!TreeHash AttestationData}
    (validator_id : Z) (attestation_data : AttestationData) : SignatureKey :=
  mkSignatureKey validator_id (tree_hash_root attestation_data).

Record BlockHeader : Type := mkBlockHeader {
  hdr_slot : Z;
  hdr_proposer_index : Z;
  hdr_parent_root : B256;
  hdr_state_root : B256;
  hdr_body_root : B256;
}.

Section ssz.
Context {SS : SszTypes}.

Record SingleMessageAggregate : Type := mkSingleMessageAggregate {
  sma_participants : BitList;
  sma_proof : VariableList Z;
}.

(** [to_validator_indices]: the positions of the participation bits that are set. *)
Definition to_validator_indices (self : SingleMessageAggregate) : list Z :=
  Z.of_nat <$> true_indices (bl_iter (sma_participants self)).

Record MultiMessageAggregate : Type := mkMultiMessageAggregate { mma_proof : VariableList Z }.

Record AggregatedAttestation : Type := mkAggregatedAttestation {
  aa_aggregation_bits : BitList;
  aa_message : AttestationData;
}.

Definition aa_slot (self : AggregatedAttestation) : Z := ad_slot (aa_message self).
Definition aa_head (self : AggregatedAttestation) : Checkpoint := ad_head (aa_message self).
Definition aa_target (self : AggregatedAttestation) : Checkpoint := ad_target (aa_message self).
Definition aa_source (self : AggregatedAttestation) : Checkpoint := ad_source (aa_message self).

Record SignedAggregatedAttestation : Type := mkSignedAggregatedAttestation {
  saa_data : AttestationData;
  saa_proof : SingleMessageAggregate;
}.

Record BlockBody : Type := mkBlockBody {
  body_attestations : VariableList AggregatedAttestation;
}.

Record Block : Type := mkBlock {
  blk_slot : Z;
  blk_proposer_index : Z;
  blk_parent_root : B256;
  blk_state_root : B256;
  blk_body : BlockBody;
}.

Record SignedBlock : Type := mkSignedBlock {
  sb_block : Block;
  sb_proof : MultiMessageAggregate;
}.

Record BlockWithSignatures : Type := mkBlockWithSignatures {
  bws_block : Block;
  bws_signatures : VariableList SingleMessageAggregate;
  bws_attestation_public_keys : list (list PublicKey);
}.

(** [impl From<Block> for BlockHeader]. *)
Definition header_of_block `{!TreeHash BlockBody} (block : Block) : BlockHeader :=
  mkBlockHeader (blk_slot block) (blk_proposer_index block) (blk_parent_root block)
    (blk_state_root block) (tree_hash_root (blk_body block)).
End ssz.

(** ** Decidable equality and countability of the key types *)

#[global] Instance Checkpoint_eq_dec : EqDecision Checkpoint.
Proof. solve_decision. Defined.
#[global] Instance PublicKey_eq_dec : EqDecision PublicKey.
Proof. solve_decision. Defined.
#[global] Instance Signature_eq_dec : EqDecision Signature.
Proof. solve_decision. Defined.
#[global] Instance Validator_eq_dec : EqDecision Validator.
Proof. solve_decision. Defined.
#[global] Instance AttestationData_eq_dec : EqDecision AttestationData.
Proof. solve_decision. Defined.
#[global] Instance AggregatedAttestations_eq_dec : EqDecision AggregatedAttestations.
Proof. solve_decision. Defined.
#[global] Instance SignatureKey_eq_dec : EqDecision SignatureKey.
Proof. solve_decision. Defined.
#[global] Instance SingleMessageAggregate_eq_dec `{SszTypes} : EqDecision SingleMessageAggregate.
Proof. solve_decision. Defined.

#[global] Instance Checkpoint_countable : Countable Checkpoint.
Proof.
  apply (inj_countable' (fun c => (cp_root c, cp_slot c)) (fun p => mkCheckpoint p.1 p.2)).
  by intros [].
Defined.
#[global] Instance AttestationData_countable : Countable AttestationData.
Proof.
  apply (inj_countable'
    (fun a => (ad_slot a, ad_head a, ad_target a, ad_source a))
    (fun p => mkAttestationData p.1.1.1 p.1.1.2 p.1.2 p.2)).
  by intros [].
Defined.
#[global] Instance SignatureKey_countable : Countable SignatureKey.
Proof.
  apply (inj_countable' (fun k => (sk_validator_id k, sk_data_root k))
    (fun p => mkSignatureKey p.1 p.2)).
  by intros [].
Defined.

(** ** Constants of [constants/lean.rs] *)

Definition GOSSIP_DISPARITY_INTERVALS : Z := 1.
Definition INTERVALS_PER_SLOT : Z := 5.
Definition MAX_ATTESTATIONS_DATA : Z := 8.
Definition MAX_HISTORICAL_BLOCK_HASHES : Z := 262144.
Definition VALIDATOR_REGISTRY_LIMIT : Z := 4096.

(** The capacities in the types of the state's collections. *)
Definition U4096 : Z := 4096.
Definition U262144 : Z := 262144.
Definition U1073741824 : Z := 1073741824.
