(* ===== verification/LeanState.v ===== *)
(** * The state transition of the Lean chain

    [crates/common/consensus/lean/src/state.rs]: [LeanState] with its slot, header
    and attestation processing.  Each operation that takes [&mut self] maps a
    state to the state it leaves; on [Err] every caller of the client drops the
    state, which is why it is not returned.  Metrics, timers and log lines are
    left out. *)

From S2P Require Import Prelude Ssz Slot LeanTypes.

(** One constructor for each message the functions of [state.rs] fail with. *)
Inductive StateError : Type :=
| SignaturesNotValid
| TargetSlotNotInFuture
| InvalidBlockStateRoot
| BlockSlotMismatch
| BlockSlotNotGreater
| ProposerMismatch
| ParentRootMismatch
| PushParentRootFailed
| PrefillFailed
| ExtendBitListFailed
| SetGenesisBitFailed
| TooManyAttestationData
| NoValidators
| VotesLengthMismatch
| ZeroJustificationRoot
| VotesTooShort
| CreateBitListFailed
| SetJustificationFailed
| GetJustifiedSlotFailed
| SetValidatorFailed
| SetJustifiedSlotFailed
| RebaseFailed
| RootNotFound
| VoteListLengthMismatch
| AppendRootFailed.

Section state.
Context {SS : SszTypes}.

Record LeanState : Type := mkLeanState {
  config : Config;
  slot : Z;
  latest_block_header : BlockHeader;
  latest_justified : Checkpoint;
  latest_finalized : Checkpoint;
  historical_block_hashes : VariableList B256;
  justified_slots : BitList;
  validators : VariableList Validator;
  justifications_roots : VariableList B256;
  justifications_validators : BitList;
}.

(** Field assignments. *)
Definition set_slot (v : Z) (s : LeanState) : LeanState :=
  mkLeanState (config s) v (latest_block_header s) (latest_justified s)
    (latest_finalized s) (historical_block_hashes s) (justified_slots s)
    (validators s) (justifications_roots s) (justifications_validators s).
Definition set_latest_block_header (v : BlockHeader) (s : LeanState) : LeanState :=
  mkLeanState (config s) (slot s) v (latest_justified s)
    (latest_finalized s) (historical_block_hashes s) (justified_slots s)
    (validators s) (justifications_roots s) (justifications_validators s).
Definition set_latest_justified (v : Checkpoint) (s : LeanState) : LeanState :=
  mkLeanState (config s) (slot s) (latest_block_header s) v
    (latest_finalized s) (historical_block_hashes s) (justified_slots s)
    (validators s) (justifications_roots s) (justifications_validators s).
Definition set_latest_finalized (v : Checkpoint) (s : LeanState) : LeanState :=
  mkLeanState (config s) (slot s) (latest_block_header s) (latest_justified s)
    v (historical_block_hashes s) (justified_slots s)
    (validators s) (justifications_roots s) (justifications_validators s).
Definition set_historical_block_hashes (v : VariableList B256) (s : LeanState) : LeanState :=
  mkLeanState (config s) (slot s) (latest_block_header s) (latest_justified s)
    (latest_finalized s) v (justified_slots s)
    (validators s) (justifications_roots s) (justifications_validators s).
Definition set_justified_slots (v : BitList) (s : LeanState) : LeanState :=
  mkLeanState (config s) (slot s) (latest_block_header s) (latest_justified s)
    (latest_finalized s) (historical_block_hashes s) v
    (validators s) (justifications_roots s) (justifications_validators s).
Definition set_justifications (r : VariableList B256) (v : BitList) (s : LeanState) : LeanState :=
  mkLeanState (config s) (slot s) (latest_block_header s) (latest_justified s)
    (latest_finalized s) (historical_block_hashes s) (justified_slots s)
    (validators s) r v.

Definition header_set_state_root (v : B256) (h : BlockHeader) : BlockHeader :=
  mkBlockHeader (hdr_slot h) (hdr_proposer_index h) (hdr_parent_root h) v (hdr_body_root h).

(** [self.validators.len()] and [self.historical_block_hashes.len()]. *)
Definition validators_len (self : LeanState) : nat := length (vl_iter (validators self)).
Definition history (self : LeanState) : list B256 := vl_iter (historical_block_hashes self).

Context {HS : TreeHash LeanState} {HH : TreeHash BlockHeader} {HB : TreeHash BlockBody}
        {HA : TreeHash AttestationData}.

(** [generate_genesis]; the conversions it [expect]s panic when they fail. *)
Definition generate_genesis (genesis_time : Z) (vs : option (list Validator))
  : res StateError LeanState :=
  match bl_with_capacity U262144 0, vl_new U4096 (default [] vs), bl_with_capacity U1073741824 0 with
  | Some js, Some vals, Some jv =>
      Ok (mkLeanState
        (mkConfig genesis_time) 0
        (mkBlockHeader 0 0 B256_ZERO B256_ZERO (tree_hash_root (mkBlockBody vl_empty)))
        Checkpoint_default Checkpoint_default
        vl_empty js vals vl_empty jv)
  | _, _, _ => Panic
  end.

(** ** Slots *)

(** The header with its state root filled in, if it was still zero. *)
Definition cache_state_root (self : LeanState) : BlockHeader :=
  if hdr_state_root (latest_block_header self) =? B256_ZERO
  then header_set_state_root (tree_hash_root self) (latest_block_header self)
  else latest_block_header self.

(** The [while self.slot < target_slot] loop. *)
Fixpoint process_slots_loop (fuel : nat) (target_slot : Z) (self : LeanState)
  : res StateError LeanState :=
  if slot self <? target_slot then
    match fuel with
    | O => NoFuel
    | S fuel =>
        let self := set_latest_block_header (cache_state_root self) self in
        process_slots_loop fuel target_slot (set_slot (slot self + 1)%u64 self)
    end
  else Ok self.

Definition process_slots (self : LeanState) (target_slot : Z) : res StateError LeanState :=
  ensure (slot self <? target_slot) TargetSlotNotInFuture;;
  process_slots_loop (Z.to_nat (target_slot - slot self)) target_slot self.

(** ** Block header *)

Definition state_is_proposer (self : LeanState) (validator_index : Z) : res StateError bool :=
  is_proposer validator_index (slot self) (Z.of_nat (validators_len self)).

(** Pushing the parent root and a zero hash for every empty slot. *)
Definition extend_history (hashes : VariableList B256) (parent_root : B256) (num_empty_slots : Z)
  : res StateError (VariableList B256) :=
  hashes ← ok_or (vl_push U262144 hashes parent_root) PushParentRootFailed;
  if 0 <? num_empty_slots then
    foldM (fun h _ => ok_or (vl_push U262144 h B256_ZERO) PrefillFailed)
      hashes (range 0 num_empty_slots)
  else Ok hashes.

(** Growing the justification window up to the slot before the block, and the
    genesis bit of the first block. *)
Definition extend_justified_slots (self : LeanState) (block_slot : Z)
  : res StateError BitList :=
  match justified_index_after (block_slot - 1)%u64 (cp_slot (latest_finalized self)) with
  | None => Ok (justified_slots self)
  | Some target_index =>
      let length := Z.to_nat (target_index + 1)%u64 in
      js ←
        (if (bl_len (justified_slots self) <? length)%nat then
           new_bitlist ← ok_or (bl_with_capacity U262144 length) ExtendBitListFailed;
           Ok (bl_union new_bitlist (justified_slots self))
         else Ok (justified_slots self));
      if hdr_slot (latest_block_header self) =? 0 then
        match justified_index_after (hdr_slot (latest_block_header self))
                (cp_slot (latest_finalized self)) with
        | Some parent_ids => ok_or (bl_set js (Z.to_nat parent_ids) true) SetGenesisBitFailed
        | None => Ok js
        end
      else Ok js
  end.

Definition process_block_header (self : LeanState) (block : Block) : res StateError LeanState :=
  ensure (blk_slot block =? slot self) BlockSlotMismatch;;
  ensure (hdr_slot (latest_block_header self) <? blk_slot block) BlockSlotNotGreater;;
  proposer ← state_is_proposer self (blk_proposer_index block);
  ensure proposer ProposerMismatch;;
  ensure (blk_parent_root block =? tree_hash_root (latest_block_header self)) ParentRootMismatch;;
  let self :=
    if hdr_slot (latest_block_header self) =? 0 then
      set_latest_finalized (mkCheckpoint (blk_parent_root block) (cp_slot (latest_finalized self)))
        (set_latest_justified
           (mkCheckpoint (blk_parent_root block) (cp_slot (latest_justified self))) self)
    else self in
  let num_empty_slots :=
    ((blk_slot block - hdr_slot (latest_block_header self)) - 1)%u64 in
  hashes ← extend_history (historical_block_hashes self) (blk_parent_root block) num_empty_slots;
  let self := set_historical_block_hashes hashes self in
  js ← extend_justified_slots self (blk_slot block);
  let self := set_justified_slots js self in
  Ok (set_latest_block_header
        (mkBlockHeader (blk_slot block) (blk_proposer_index block) (blk_parent_root block)
           B256_ZERO (tree_hash_root (blk_body block))) self).

(** ** Attestations *)

Definition attestation_data_matches_chain (hashes : list B256) (data : AttestationData) : bool :=
  if (cp_root (ad_source data) =? B256_ZERO)
     || (cp_root (ad_target data) =? B256_ZERO)
     || (cp_root (ad_head data) =? B256_ZERO) then false
  else
    let source_slot := Z.to_nat (cp_slot (ad_source data)) in
    let target_slot := Z.to_nat (cp_slot (ad_target data)) in
    let head_slot := Z.to_nat (cp_slot (ad_head data)) in
    if (length hashes <=? source_slot)%nat
       || (length hashes <=? target_slot)%nat
       || (length hashes <=? head_slot)%nat then false
    else
      bool_decide (hashes !! source_slot = Some (cp_root (ad_source data)))
      && bool_decide (hashes !! target_slot = Some (cp_root (ad_target data)))
      && bool_decide (hashes !! head_slot = Some (cp_root (ad_head data))).

(** The bit list of one tracked root, cut out of the flat vote list. *)
Definition decode_votes (validator_count : nat) (flat_votes : list bool) (i : nat)
  : res StateError BitList :=
  let start_index := (i * validator_count)%nat in
  let end_index := (start_index + validator_count)%nat in
  vote_slice ←
    (if (end_index <=? length flat_votes)%nat
     then Ok (take validator_count (drop start_index flat_votes))
     else Err VotesTooShort);
  new_bitlist ← ok_or (bl_with_capacity U1073741824 validator_count) CreateBitListFailed;
  foldM (fun b '(validator_index, bit) => ok_or (bl_set b validator_index bit) SetJustificationFailed)
    new_bitlist (enumerate vote_slice).

(** [justifications_map]: the pending votes, read back from the flat encoding. *)
Definition decode_justifications (self : LeanState) : res StateError (gmap B256 BitList) :=
  let flat_votes := bl_iter (justifications_validators self) in
  foldM (fun m '(i, root) =>
           b ← decode_votes (validators_len self) flat_votes i;
           Ok (<[root := b]> m))
    ∅ (enumerate (vl_iter (justifications_roots self))).

(** [root_to_slot]: the slots of the non-finalized part of the chain. *)
Definition build_root_to_slot (self : LeanState) : gmap B256 Z :=
  let start_slot := (cp_slot (latest_finalized self) + 1)%u64 in
  foldl (fun m index =>
           match history self !! Z.to_nat index with
           | Some hash => <[hash := index]> m
           | None => m
           end)
    ∅ (range start_slot (Z.of_nat (length (history self)))).

(** Whether a slot is justified: finalized, or its bit of the window is set. *)
Definition slot_is_justified (self : LeanState) (s : Z) : res StateError bool :=
  match justified_index_after s (cp_slot (latest_finalized self)) with
  | Some index => ok_or (bl_get (justified_slots self) (Z.to_nat index)) GetJustifiedSlotFailed
  | None => Ok true
  end.

(** Recording the signers of an attestation in the tally of its target. *)
Definition record_votes (justifications : BitList) (aggregation_bits : BitList)
  : res StateError BitList :=
  foldM (fun j '(validator_id, signed) =>
           if (signed : bool) && negb (default false (bl_get j validator_id))
           then ok_or (bl_set j validator_id true) SetValidatorFailed
           else Ok j)
    justifications (enumerate (bl_iter aggregation_bits)).

(** Dropping the first [delta] bits of the window. *)
Definition rebase_justified_slots (js : BitList) (delta : nat) : res StateError BitList :=
  new_bitlist ← ok_or (bl_with_capacity U262144 (usize_sub (bl_len js) delta)) RebaseFailed;
  foldM (fun b index =>
           if default false (bl_get js index)
           then ok_or (bl_set b (index - delta)%nat true) RebaseFailed
           else Ok b)
    new_bitlist (seq delta (bl_len js - delta)).

Definition is_target_next_valid_justifiable_slot (self : LeanState) (source target : Checkpoint)
  : bool :=
  (cp_slot (latest_finalized self) <? cp_slot source)
  && negb (existsb (fun s => is_justifiable_after s (cp_slot (latest_finalized self)))
             (range (cp_slot source + 1)%u64 (cp_slot target))).

(** What happens when the source of a justifying attestation becomes final. *)
Definition finalize (root_to_slot : gmap B256 Z) (self : LeanState)
    (justifications_map : gmap B256 BitList) (source : Checkpoint)
  : res StateError (LeanState * gmap B256 BitList) :=
  let delta := Z.to_nat (cp_slot source - cp_slot (latest_finalized self))%u64 in
  '(self, justifications_map) ←
    (if (0 <? delta)%nat then
       js ← rebase_justified_slots (justified_slots self) delta;
       Ok (set_justified_slots js self,
           map_retain (fun root _ =>
             match root_to_slot !! root with
             | Some s => cp_slot source <? s
             | None => false
             end) justifications_map)
     else Ok (self, justifications_map));
  Ok (set_latest_finalized source self, justifications_map).

(** What happens when two thirds of the validators voted for a target. *)
Definition justify (root_to_slot : gmap B256 Z) (self : LeanState)
    (justifications_map : gmap B256 BitList) (source target : Checkpoint)
  : res StateError (LeanState * gmap B256 BitList) :=
  let self :=
    if cp_slot (latest_justified self) <? cp_slot target
    then set_latest_justified target self else self in
  js ← match justified_index_after (cp_slot target) (cp_slot (latest_finalized self)) with
       | Some index =>
           ok_or (bl_set (justified_slots self) (Z.to_nat index) true) SetJustifiedSlotFailed
       | None => Ok (justified_slots self)
       end;
  let self := set_justified_slots js self in
  let justifications_map := delete (cp_root target) justifications_map in
  if is_target_next_valid_justifiable_slot self source target
  then finalize root_to_slot self justifications_map source
  else Ok (self, justifications_map).

(** The body of the loop over the attestations of a block. *)
Definition process_attestation (root_to_slot : gmap B256 Z)
    (st : LeanState * gmap B256 BitList) (attestation : AggregatedAttestation)
  : res StateError (LeanState * gmap B256 BitList) :=
  let '(self, justifications_map) := st in
  let source := aa_source attestation in
  let target := aa_target attestation in
  is_source_justified ← slot_is_justified self (cp_slot source);
  if (cp_root source =? B256_ZERO) || (cp_root target =? B256_ZERO) then Ok st else
  if negb is_source_justified then Ok st else
  is_target_already_justified ← slot_is_justified self (cp_slot target);
  if (is_target_already_justified : bool) then Ok st else
  if negb (attestation_data_matches_chain (history self) (aa_message attestation)) then Ok st else
  if cp_slot target <=? cp_slot source then Ok st else
  if negb (is_justifiable_after (cp_slot target) (cp_slot (latest_finalized self))) then Ok st else
  fresh ← ok_or (bl_with_capacity U1073741824 (validators_len self)) CreateBitListFailed;
  let justifications := default fresh (justifications_map !! cp_root target) in
  justifications ← record_votes justifications (aa_aggregation_bits attestation);
  let justifications_map := <[cp_root target := justifications]> justifications_map in
  let count := bl_num_set_bits justifications in
  if (2 * validators_len self <=? 3 * count)%nat
  then justify root_to_slot self justifications_map source target
  else Ok (self, justifications_map).

(** [justifications_map.keys().sorted()]. *)
Definition sorted_keys {V} (m : gmap B256 V) : list B256 :=
  merge_sort Z.le (fst <$> map_to_list m).

(** Flattening the pending votes back into the state. *)
Definition encode_justifications (self : LeanState) (justifications_map : gmap B256 BitList)
  : res StateError LeanState :=
  '(roots_list, votes_list) ←
    foldM (fun '(roots_list, votes_list) root =>
             votes ← ok_or (justifications_map !! root) RootNotFound;
             ensure (bl_len votes =? validators_len self)%nat VoteListLengthMismatch;;
             roots_list ← ok_or (vl_push U262144 roots_list root) AppendRootFailed;
             Ok (roots_list, votes_list ++ bl_iter votes))
      (vl_empty, []) (sorted_keys justifications_map);
  justifications_validators ←
    ok_or (bl_with_capacity U1073741824 (size justifications_map * validators_len self))
      CreateBitListFailed;
  justifications_validators ←
    foldM (fun b '(index, justification) => ok_or (bl_set b index justification) SetJustificationFailed)
      justifications_validators (enumerate votes_list);
  Ok (set_justifications roots_list justifications_validators self).

Definition distinct_data_roots (attestations : list AggregatedAttestation) : gset B256 :=
  list_to_set ((fun a => tree_hash_root (aa_message a)) <$> attestations).

Definition process_attestations (self : LeanState) (attestations : list AggregatedAttestation)
  : res StateError LeanState :=
  ensure (Z.of_nat (size (distinct_data_roots attestations)) <=? MAX_ATTESTATIONS_DATA)
    TooManyAttestationData;;
  ensure (0 <? validators_len self)%nat NoValidators;;
  ensure (bl_len (justifications_validators self)
          =? length (vl_iter (justifications_roots self)) * validators_len self)%nat
    VotesLengthMismatch;;
  ensure (bool_decide (B256_ZERO ∉ vl_iter (justifications_roots self))) ZeroJustificationRoot;;
  justifications_map ← decode_justifications self;
  let root_to_slot := build_root_to_slot self in
  '(self, justifications_map) ←
    foldM (process_attestation root_to_slot) (self, justifications_map) attestations;
  encode_justifications self justifications_map.

Definition process_block (self : LeanState) (block : Block) : res StateError LeanState :=
  self ← process_block_header self block;
  process_attestations self (vl_iter (body_attestations (blk_body block))).

Definition state_transition (self : LeanState) (block : Block) (valid_signatures : bool)
  : res StateError LeanState :=
  ensure valid_signatures SignaturesNotValid;;
  self ← process_slots self (blk_slot block);
  self ← process_block self block;
  ensure (blk_state_root block =? tree_hash_root self) InvalidBlockStateRoot;;
  Ok self.
End state.

#[global] Arguments finalize : simpl never.
#[global] Arguments justify : simpl never.
#[global] Arguments process_attestation : simpl never.
#[global] Arguments process_attestations : simpl never.
#[global] Arguments process_block_header : simpl never.
#[global] Arguments process_block : simpl never.
#[global] Arguments process_slots : simpl never.
#[global] Arguments state_transition : simpl never.
