(* ===== verification/LeanStateFacts.v ===== *)
(** * What the loops of the state transition compute

    Each loop of [LeanState.v] against a closed form on the bit strings and lists
    it reads and writes: filling a bit list, recording votes, rebasing the
    justification window, pushing hashes. *)

From S2P Require Import Prelude Ssz Slot LeanTypes LeanState.

Section facts.
Context {SS : SszTypes} {SL : SszLaws SS}.

(** ** Filling a bit list position by position *)

Lemma fill_bits_from {E} (e : E) votes : forall k b b',
  (k + length votes = length (bl_iter b))%nat ->
  foldM (fun b '(i, v) => ok_or (bl_set b i v) e) b (enumerate_from k votes) = Ok b' ->
  bl_iter b' = take k (bl_iter b) ++ votes.
Proof.
  induction votes as [|v votes IH]; intros k b b' Hl.
  - cbn. intros [= ->]. rewrite app_nil_r, firstn_all2; [done|]. cbn in Hl. lia.
  - rewrite enumerate_from_cons. cbn [foldM]. intros H. res_inv H.
    apply bl_set_Some in Hb as [Hk Hi]. cbn in Hl.
    apply IH in H; [|rewrite Hi, length_insert; lia]. rewrite H, Hi.
    rewrite (take_S_r _ _ v) by (by rewrite list_lookup_insert_eq).
    rewrite take_insert_ge by lia. by rewrite <-app_assoc.
Qed.

Lemma fill_bits {E} (e : E) votes b b' :
  length votes = length (bl_iter b) ->
  foldM (fun b '(i, v) => ok_or (bl_set b i v) e) b (enumerate votes) = Ok b' ->
  bl_iter b' = votes.
Proof.
  intros Hl H. change (enumerate votes) with (enumerate_from 0 votes) in H.
  apply fill_bits_from in H; [|cbn; lia]. done.
Qed.

Lemma fill_bits_Ok {E} (e : E) votes : forall k b,
  (k + length votes = length (bl_iter b))%nat ->
  exists b', foldM (fun b '(i, v) => ok_or (bl_set b i v) e) b (enumerate_from k votes) = Ok b'.
Proof.
  induction votes as [|v votes IH]; intros k b Hl; [by eexists|].
  rewrite enumerate_from_cons. cbn [foldM]. cbn in Hl.
  destruct (bl_set_is_Some b k v ltac:(lia)) as (b1 & -> & Hb1). cbn.
  apply IH. rewrite Hb1, length_insert. lia.
Qed.

(** ** Recording votes *)

Lemma record_votes_from bits : forall k j j',
  foldM (fun j '(validator_id, signed) =>
           if (signed : bool) && negb (default false (bl_get j validator_id))
           then ok_or (bl_set j validator_id true) SetValidatorFailed
           else Ok j) j (enumerate_from k bits) = Ok j' ->
  length (bl_iter j') = length (bl_iter j) /\
  forall i, bl_iter j' !! i = Some true <->
    bl_iter j !! i = Some true \/ (k <= i)%nat /\ bits !! (i - k)%nat = Some true.
Proof.
  induction bits as [|v bits IH]; intros k j j'.
  - cbn. intros [= ->]. split; [done|]. intros i. split; [by left|].
    by intros [?|[_ [=]]].
  - rewrite enumerate_from_cons. cbn [foldM]. rewrite bind_Ok. intros (j1 & H1 & H2).
    apply IH in H2 as [Hl2 Hi2]. clear IH.
    assert (Hstep : length (bl_iter j1) = length (bl_iter j) /\
      forall i, bl_iter j1 !! i = Some true <->
        bl_iter j !! i = Some true \/ i = k /\ v = true).
    { rewrite bl_get_spec in H1. case_if; b2p.
      - res_inv H1. apply bl_set_Some in H1 as [Hk Hj1].
        rewrite Hj1, length_insert. split; [done|]. intros i.
        destruct (decide (i = k)) as [->|].
        + rewrite list_lookup_insert_eq by done. naive_solver.
        + rewrite list_lookup_insert_ne by done. naive_solver.
      - injection H1 as <-. split; [done|]. intros i. split; [by left|].
        intros [?|[-> ->]]; [done|]. cbn in *. b2p.
        destruct (bl_iter j !! k) as [[]|]; done. }
    destruct Hstep as [Hl1 Hi1]. split; [congruence|]. intros i.
    rewrite Hi2, Hi1. split.
    + intros [[?|[-> ->]]|[? Hb]]; [by left| |].
      * right. split; [lia|]. by rewrite Nat.sub_diag.
      * right. split; [lia|]. by replace (i - k)%nat with (S (i - S k)) by lia.
    + intros [?|[? Hb]]; [by left; left|].
      destruct (decide (i = k)) as [->|].
      * rewrite Nat.sub_diag in Hb. cbn in Hb. left; right. naive_solver.
      * right. split; [lia|]. by replace (i - k)%nat with (S (i - S k)) in Hb by lia.
Qed.

(** The tally after an attestation is the union of the tally and its signers. *)
Lemma record_votes_spec j bits j' :
  record_votes j bits = Ok j' ->
  length (bl_iter j') = length (bl_iter j) /\
  forall i, bl_iter j' !! i = Some true <->
    bl_iter j !! i = Some true \/ bl_iter bits !! i = Some true.
Proof.
  intros H. apply (record_votes_from _ 0) in H as [? Hi]. split; [done|].
  intros i. rewrite Hi, Nat.sub_0_r. intuition lia.
Qed.

Lemma record_votes_returns j bits : returns (record_votes j bits).
Proof.
  unfold record_votes. apply (foldM_returns (fun _ => True)); [done| |done].
  intros j1 [i b] _ _. case_if; [auto with res|done].
Qed.

Lemma record_votes_Ok j bits :
  (length (bl_iter bits) <= length (bl_iter j))%nat -> exists j', record_votes j bits = Ok j'.
Proof.
  intros Hl. unfold record_votes.
  destruct (foldM_Ok (fun j1 => length (bl_iter j1) = length (bl_iter j))
    (fun j '(validator_id, signed) =>
       if (signed : bool) && negb (default false (bl_get j validator_id))
       then ok_or (bl_set j validator_id true) SetValidatorFailed
       else Ok j) (enumerate (bl_iter bits)) j) as (j' & -> & _); [done| |by eexists].
  intros j1 [i b] Hi%elem_of_enumerate%lookup_lt_Some Hj. case_if; [|by eexists].
  destruct (bl_set_is_Some j1 i true) as (j2 & -> & Hj2); [lia|]. eexists. split; [done|].
  by rewrite Hj2, length_insert.
Qed.

(** ** Rebasing the window *)

Lemma rebase_loop {E} (e : E) js delta n : forall k b b',
  (delta + k + n = length (bl_iter js))%nat ->
  length (bl_iter b) = (k + n)%nat ->
  drop k (bl_iter b) = replicate n false ->
  foldM (fun b index =>
           if default false (bl_get js index)
           then ok_or (bl_set b (index - delta)%nat true) e
           else Ok b) b (seq (delta + k) n) = Ok b' ->
  bl_iter b' = take k (bl_iter b) ++ drop (delta + k) (bl_iter js).
Proof.
  induction n as [|n IH]; intros k b b' Hn Hl Hf.
  - cbn. intros [= <-]. rewrite (drop_ge (bl_iter js)) by lia.
    by rewrite app_nil_r, take_ge by lia.
  - cbn [seq foldM]. rewrite bind_Ok. intros (b1 & H1 & H2).
    rewrite bl_get_spec in H1.
    destruct (lookup_lt_is_Some_2 (bl_iter js) (delta + k) ltac:(lia)) as [v Hv].
    assert (Hbk : bl_iter b !! k = Some false).
    { pose proof (lookup_drop (bl_iter b) k 0) as Hd.
      rewrite Nat.add_0_r, Hf in Hd. by rewrite <-Hd. }
    assert (Hb1 : bl_iter b1 = <[k := v]> (bl_iter b)).
    { rewrite Hv in H1. cbn in H1. destruct v.
      - res_inv H1. apply bl_set_Some in H1 as [_ ->]. f_equal. lia.
      - injection H1 as <-. by rewrite list_insert_id. }
    rewrite <-Nat.add_succ_r in H2. apply IH in H2; [|rewrite ?Hb1, ?length_insert; lia..|].
    + rewrite H2, Hb1, (take_S_r _ _ v) by (apply list_lookup_insert_eq; lia).
      rewrite take_insert_ge by lia. rewrite (drop_S (bl_iter js) v (delta + k)) by done.
      by rewrite <-app_assoc, Nat.add_succ_r.
    + rewrite Hb1, drop_insert_lt by lia.
      rewrite (drop_S _ false) in Hf by done. by injection Hf.
Qed.

Lemma rebase_justified_slots_spec js delta b :
  Z.of_nat (length (bl_iter js)) <= U262144 ->
  Z.of_nat delta < 2 ^ 63 ->
  rebase_justified_slots js delta = Ok b ->
  (delta <= length (bl_iter js))%nat /\ bl_iter b = drop delta (bl_iter js).
Proof.
  intros Hlen Hd. unfold rebase_justified_slots. intros H. res_inv H.
  apply bl_with_capacity_Some in Hb as [Hv Hc]. rewrite bl_len_spec in *.
  assert (Hle : (delta <= length (bl_iter js))%nat).
  { unfold usize_sub, u64_sub, wrap64, U262144 in *.
    destruct (decide (delta <= length (bl_iter js))%nat) as [|Hn]; [done|exfalso].
    rewrite <-(Z_mod_plus_full _ 1), Z.mod_small in Hc by lia. lia. }
  split; [done|]. rewrite usize_sub_id in * by (unfold U262144 in *; lia).
  replace (seq delta) with (seq (delta + 0)) in H by (f_equal; lia).
  apply rebase_loop in H; [by rewrite Nat.add_0_r in H|lia| |].
  - rewrite Hv, length_replicate. lia.
  - by rewrite Hv.
Qed.

Lemma rebase_justified_slots_returns js delta : returns (rebase_justified_slots js delta).
Proof.
  unfold rebase_justified_slots. apply returns_bind; [auto with res|]. intros b _.
  apply (foldM_returns (fun _ => True)); [done| |done].
  intros b1 i _ _. case_if; [auto with res|done].
Qed.

Lemma rebase_justified_slots_Ok js delta :
  Z.of_nat (length (bl_iter js)) <= U262144 -> (delta <= length (bl_iter js))%nat ->
  exists b, rebase_justified_slots js delta = Ok b.
Proof.
  intros Hl Hd. unfold rebase_justified_slots, U262144 in *. rewrite bl_len_spec.
  rewrite usize_sub_id by lia.
  destruct (bl_with_capacity_is_Some 262144 (length (bl_iter js) - delta)) as (b0 & -> & Hb0);
    [lia|]. cbn.
  destruct (foldM_Ok (fun b => length (bl_iter b) = (length (bl_iter js) - delta)%nat)
    (fun b index => if default false (bl_get js index)
       then ok_or (bl_set b (index - delta)%nat true) RebaseFailed else Ok b)
    (seq delta (length (bl_iter js) - delta)) b0) as (b & -> & _); [| |by eexists].
  - by rewrite Hb0, length_replicate.
  - intros b i Hi%elem_of_seq Hb. case_if; [|by eexists].
    destruct (bl_set_is_Some b (i - delta) true) as (b2 & -> & Hb2); [lia|].
    eexists. split; [done|]. by rewrite Hb2, length_insert.
Qed.

(** ** Extending the history *)

Lemma prefill_spec n : forall h h',
  foldM (fun h _ => ok_or (vl_push U262144 h B256_ZERO) PrefillFailed) h (range 0 n) = Ok h' ->
  vl_iter h' = vl_iter h ++ replicate (Z.to_nat n) B256_ZERO /\
  (Z.of_nat (length (vl_iter h)) <= U262144 ->
   Z.of_nat (length (vl_iter h')) <= U262144).
Proof.
  unfold range. rewrite Z.sub_0_r. generalize 0 as a.
  intros a h h'. unfold seqZ. generalize (Z.to_nat n) as m. clear n.
  intros m. rewrite <-(length_seq m 0) at 2. revert h. generalize (seq 0 m) as l.
  induction l as [|x l IH]; intros h; cbn.
  - intros [= ->]. by rewrite app_nil_r.
  - intros H. res_inv H. apply vl_push_Some in Hb as [Hv Hlt].
    apply IH in H as [-> Hc]. rewrite Hv, <-app_assoc. split; [done|].
    intros _. rewrite Hv in Hc. rewrite <-app_assoc in Hc. apply Hc.
    rewrite length_app. cbn. lia.
Qed.

Lemma extend_history_spec h parent_root n h' :
  extend_history h parent_root n = Ok h' ->
  vl_iter h' = vl_iter h ++ parent_root :: replicate (Z.to_nat n) B256_ZERO /\
  Z.of_nat (length (vl_iter h')) <= U262144.
Proof.
  unfold extend_history. intros H. res_inv H.
  apply vl_push_Some in Hb as [Hv Hlt]. case_if; b2p.
  - apply prefill_spec in H as [-> Hc]. rewrite Hv, <-app_assoc in *. split; [done|].
    apply Hc. rewrite length_app. cbn. lia.
  - injection H as <-. rewrite Hv. replace (Z.to_nat n) with 0%nat by lia.
    split; [done|]. rewrite length_app. cbn. lia.
Qed.

Lemma prefill_Ok l : forall h,
  Z.of_nat (length (vl_iter h) + length l) <= U262144 ->
  exists h', foldM (fun h (_ : Z) => ok_or (vl_push U262144 h B256_ZERO) PrefillFailed) h l = Ok h'.
Proof.
  induction l as [|x l IH]; intros h Hl; [by eexists|]. cbn [foldM]. cbn in Hl.
  pose proof (vl_push_spec _ U262144 h B256_ZERO) as Hp.
  destruct (vl_push U262144 h B256_ZERO) as [h1|]; [|lia]. cbn. destruct Hp as [Hp _].
  apply IH. rewrite Hp, length_app. cbn. lia.
Qed.

Lemma extend_history_Ok h parent_root n :
  0 <= n -> Z.of_nat (length (vl_iter h)) + 1 + n <= U262144 ->
  exists h', extend_history h parent_root n = Ok h'.
Proof.
  intros Hn Hl. unfold extend_history.
  pose proof (vl_push_spec _ U262144 h parent_root) as Hp.
  destruct (vl_push U262144 h parent_root) as [h1|]; [|lia]. cbn [mbind res_bind ok_or].
  destruct Hp as [Hp _]. case_if; [|by eexists]. apply prefill_Ok.
  rewrite Hp, length_app. unfold range. rewrite length_seqZ. cbn. lia.
Qed.

Lemma extend_history_returns h parent_root n : returns (extend_history h parent_root n).
Proof.
  unfold extend_history. apply returns_bind; [auto with res|]. intros h1 _.
  case_if; [|done]. apply (foldM_returns (fun _ => True)); [done| |done].
  intros; auto with res.
Qed.
End facts.

#[export] Hint Resolve record_votes_returns rebase_justified_slots_returns
  extend_history_returns : res.
