(* ===== verification/ThreeSF.v ===== *)
(** * 3SF-mini, abstractly

    What a block's attestations do to the justification state, stated on sets:
    the justified slots above the finalized one are a set of slots and the pending
    tallies are sets of voters.  [LeanRefinement.v] shows that the bit lists and
    the flat vote encoding of [LeanState] implement this; the theorems here are
    about the abstract step. *)

From S2P Require Import Prelude Slot LeanTypes.

Record SF : Type := mkSF {
  sf_justified : Checkpoint;
  sf_finalized : Checkpoint;
  sf_slots : gset Z;
  sf_votes : gmap B256 (gset Z);
}.

Definition sf_is_justified (A : SF) (s : Z) : bool :=
  (s <=? cp_slot (sf_finalized A)) || bool_decide (s ∈ sf_slots A).

(** The checkpoint is a block of the chain (and not an empty slot). *)
Definition on_chain (chain : list B256) (c : Checkpoint) : bool :=
  negb (cp_root c =? B256_ZERO)
  && bool_decide (chain !! Z.to_nat (cp_slot c) = Some (cp_root c)).

Definition root_after (chain : list B256) (s : Z) (root : B256) : bool :=
  bool_decide (root ∈ drop (Z.to_nat (s + 1)) chain).

(** The attestations that count. *)
Definition sf_accepts (chain : list B256) (A : SF) (d : AttestationData) : bool :=
  sf_is_justified A (cp_slot (ad_source d))
  && negb (sf_is_justified A (cp_slot (ad_target d)))
  && on_chain chain (ad_source d) && on_chain chain (ad_target d) && on_chain chain (ad_head d)
  && (cp_slot (ad_source d) <? cp_slot (ad_target d))
  && is_justifiable_after (cp_slot (ad_target d)) (cp_slot (sf_finalized A)).

Definition sf_voters (A : SF) (d : AttestationData) (signers : gset Z) : gset Z :=
  default ∅ (sf_votes A !! cp_root (ad_target d)) ∪ signers.

Definition sf_quorum (n : nat) (voters : gset Z) : bool :=
  (2 * n <=? 3 * size voters)%nat.

(** The source is final when the target is the next slot that could be justified. *)
Definition sf_finalizes (A : SF) (d : AttestationData) : bool :=
  (cp_slot (sf_finalized A) <? cp_slot (ad_source d))
  && negb (existsb (fun s => is_justifiable_after s (cp_slot (sf_finalized A)))
             (range (cp_slot (ad_source d) + 1) (cp_slot (ad_target d)))).

Definition sf_justify (A : SF) (t : Checkpoint) : SF :=
  mkSF (if cp_slot (sf_justified A) <? cp_slot t then t else sf_justified A)
    (sf_finalized A) ({[cp_slot t]} ∪ sf_slots A) (delete (cp_root t) (sf_votes A)).

Definition sf_finalize (chain : list B256) (A : SF) (c : Checkpoint) : SF :=
  mkSF (sf_justified A) c
    (filter (fun s => cp_slot c < s) (sf_slots A))
    (map_retain (fun root _ => root_after chain (cp_slot c) root) (sf_votes A)).

Definition sf_record (A : SF) (d : AttestationData) (voters : gset Z) : SF :=
  mkSF (sf_justified A) (sf_finalized A) (sf_slots A)
    (<[cp_root (ad_target d) := voters]> (sf_votes A)).

Definition sf_step (chain : list B256) (n : nat) (A : SF)
    (d : AttestationData) (signers : gset Z) : SF :=
  if negb (sf_accepts chain A d) then A else
  let voters := sf_voters A d signers in
  if sf_quorum n voters then
    let A1 := sf_justify (sf_record A d voters) (ad_target d) in
    if sf_finalizes A1 d then sf_finalize chain A1 (ad_source d) else A1
  else sf_record A d voters.

#[global] Arguments sf_quorum : simpl never.

(** ** Facts about the step *)

Lemma sf_is_justified_true A s :
  sf_is_justified A s = true <-> s <= cp_slot (sf_finalized A) \/ s ∈ sf_slots A.
Proof. unfold sf_is_justified. rewrite orb_true_iff, Z.leb_le, bool_decide_eq_true. done. Qed.

Lemma on_chain_true chain c :
  on_chain chain c = true <->
  cp_root c <> B256_ZERO /\ chain !! Z.to_nat (cp_slot c) = Some (cp_root c).
Proof.
  unfold on_chain. rewrite andb_true_iff, negb_true_iff, Z.eqb_neq, bool_decide_eq_true. done.
Qed.

Lemma sf_accepts_true chain A d :
  sf_accepts chain A d = true <->
  sf_is_justified A (cp_slot (ad_source d)) = true /\
  sf_is_justified A (cp_slot (ad_target d)) = false /\
  on_chain chain (ad_source d) = true /\ on_chain chain (ad_target d) = true /\
  on_chain chain (ad_head d) = true /\
  cp_slot (ad_source d) < cp_slot (ad_target d) /\
  is_justifiable_after (cp_slot (ad_target d)) (cp_slot (sf_finalized A)) = true.
Proof.
  unfold sf_accepts. rewrite !andb_true_iff, negb_true_iff, Z.ltb_lt. tauto.
Qed.

Lemma root_after_true chain s root :
  0 <= s + 1 ->
  root_after chain s root = true <-> exists i, s < i /\ chain !! Z.to_nat i = Some root.
Proof.
  intros Hs. unfold root_after. rewrite bool_decide_eq_true, list_elem_of_lookup.
  setoid_rewrite lookup_drop. split.
  - intros [i Hi]. exists (s + 1 + Z.of_nat i). split; [lia|]. rewrite <-Hi. f_equal. lia.
  - intros (i & Hi & Hc). exists (Z.to_nat (i - (s + 1))). rewrite <-Hc. f_equal. lia.
Qed.

(** Well-formedness relative to a chain of block roots. *)
Record sf_wf (chain : list B256) (n : nat) (A : SF) : Prop := {
  sfw_order : 0 <= cp_slot (sf_finalized A) <= cp_slot (sf_justified A);
  sfw_justified : sf_is_justified A (cp_slot (sf_justified A)) = true;
  sfw_slots : forall s, s ∈ sf_slots A ->
    cp_slot (sf_finalized A) < s < Z.of_nat (length chain);
  sfw_jroot : chain !! Z.to_nat (cp_slot (sf_justified A)) = Some (cp_root (sf_justified A));
  sfw_froot : chain !! Z.to_nat (cp_slot (sf_finalized A)) = Some (cp_root (sf_finalized A));
  sfw_votes : forall root V, sf_votes A !! root = Some V ->
    root <> B256_ZERO /\ sf_quorum n V = false /\
    exists s, cp_slot (sf_finalized A) < s /\ chain !! Z.to_nat s = Some root;
}.

Section step.
Context (chain : list B256) (n : nat).

(** The invariant survives recording votes without a quorum. *)
Lemma sf_record_wf A d V :
  sf_wf chain n A -> sf_accepts chain A d = true -> sf_quorum n V = false ->
  sf_wf chain n (sf_record A d V).
Proof.
  intros W Ha Hq. apply sf_accepts_true in Ha as (_ & Hnj & _ & Ht & _).
  apply on_chain_true in Ht as [Hz Hc].
  split; try apply W. cbn. intros root V' H.
  rewrite lookup_insert in H. case_decide; simplify_eq; [|by apply W].
  split_and!; [done|done|]. exists (cp_slot (ad_target d)). split; [|done].
  unfold sf_is_justified in Hnj. b2p. lia.
Qed.

Lemma lookup_chain_lt c :
  0 <= cp_slot c -> chain !! Z.to_nat (cp_slot c) = Some (cp_root c) ->
  cp_slot c < Z.of_nat (length chain).
Proof. intros ? ?%lookup_lt_Some. lia. Qed.

Lemma sf_justify_wf A d V :
  sf_wf chain n A -> sf_accepts chain A d = true ->
  sf_wf chain n (sf_justify (sf_record A d V) (ad_target d)).
Proof.
  intros W Ha. apply sf_accepts_true in Ha as (_ & Hnj & _ & Ht & _).
  apply on_chain_true in Ht as [Hz Hc]. unfold sf_is_justified in Hnj. b2p.
  pose proof (sfw_order _ _ _ W).
  assert (Hlt : cp_slot (ad_target d) < Z.of_nat (length chain))
    by (apply lookup_chain_lt; [lia|done]).
  split; cbn.
  - case_if; b2p; lia.
  - apply sf_is_justified_true. cbn. case_if; [set_solver|].
    destruct (proj1 (sf_is_justified_true _ _) (sfw_justified _ _ _ W)); [by left|].
    right. set_solver.
  - intros s [->%elem_of_singleton|Hs]%elem_of_union; [lia|]. by apply W.
  - case_if; [done|apply W].
  - apply W.
  - intros root V'. rewrite delete_insert_eq.
    rewrite lookup_delete_Some. intros [_ HV]. by eapply W.
Qed.

Lemma sf_finalize_wf A d :
  sf_wf chain n A ->
  on_chain chain (ad_source d) = true ->
  cp_slot (sf_finalized A) < cp_slot (ad_source d) <= cp_slot (sf_justified A) ->
  sf_wf chain n (sf_finalize chain A (ad_source d)).
Proof.
  intros W [_ Hs]%on_chain_true Hle. pose proof (sfw_order _ _ _ W). split; cbn.
  - lia.
  - apply sf_is_justified_true. cbn.
    destruct (proj1 (sf_is_justified_true _ _) (sfw_justified _ _ _ W)); [lia|].
    destruct (decide (cp_slot (ad_source d) < cp_slot (sf_justified A))); [|left; lia].
    right. by apply elem_of_filter.
  - intros s [Hlt Hin]%elem_of_filter. split; [done|]. by apply W.
  - apply W.
  - done.
  - intros root V [HV Hr]%map_retain_Some. apply root_after_true in Hr; [|lia].
    split_and!; [by eapply W..|]. done.
Qed.

Lemma sf_step_wf A d signers :
  sf_wf chain n A -> sf_wf chain n (sf_step chain n A d signers).
Proof.
  intros W. unfold sf_step. destruct (sf_accepts chain A d) eqn:Ha; [|done]. cbn.
  destruct (sf_quorum n (sf_voters A d signers)) eqn:Hq; [|by apply sf_record_wf].
  pose proof (sf_justify_wf A d (sf_voters A d signers) W Ha) as W1.
  case_if; [|done]. apply sf_accepts_true in Ha as (_ & _ & Hs & _ & _ & Hlt & _).
  apply sf_finalize_wf; [done..|]. unfold sf_finalizes in *. b2p. cbn in *.
  case_if; b2p; lia.
Qed.

(** Finality and justification never move backwards. *)
Lemma sf_step_monotone A d signers :
  let A' := sf_step chain n A d signers in
  cp_slot (sf_finalized A) <= cp_slot (sf_finalized A') /\
  cp_slot (sf_justified A) <= cp_slot (sf_justified A').
Proof.
  unfold sf_step. repeat case_if; unfold sf_finalizes in *; b2p; cbn in *;
    repeat case_if; b2p; lia.
Qed.

(** A justified slot stays justified. *)
Lemma sf_step_keeps_justified A d signers s :
  sf_is_justified A s = true -> sf_is_justified (sf_step chain n A d signers) s = true.
Proof.
  rewrite !sf_is_justified_true. unfold sf_step. intros H.
  repeat case_if; cbn; try (set_solver; fail).
  unfold sf_finalizes in *. b2p. cbn in *.
  destruct (decide (s <= cp_slot (ad_source d))); [by left|]. right.
  apply elem_of_filter. split; [lia|]. destruct H; [lia|set_solver].
Qed.

(** Only a two-thirds quorum of recorded voters and signers justifies a new
    slot, and the new slot is the target of the attestation. *)
Lemma sf_step_quorum A d signers s :
  s ∈ sf_slots (sf_step chain n A d signers) -> s ∉ sf_slots A ->
  s = cp_slot (ad_target d) /\
  sf_accepts chain A d = true /\
  sf_quorum n (sf_voters A d signers) = true.
Proof.
  unfold sf_step. intros H1 H2. repeat case_if; cbn in *; b2p; set_solver.
Qed.

(** Finalization advances only to the justified source of an accepted
    attestation with a quorum whose target is the next justifiable slot. *)
Lemma sf_step_finalizes A d signers :
  sf_finalized (sf_step chain n A d signers) <> sf_finalized A ->
  sf_finalized (sf_step chain n A d signers) = ad_source d /\
  sf_is_justified A (cp_slot (ad_source d)) = true /\
  cp_slot (sf_finalized A) < cp_slot (ad_source d) < cp_slot (ad_target d) /\
  sf_quorum n (sf_voters A d signers) = true /\
  forall s, cp_slot (ad_source d) < s < cp_slot (ad_target d) ->
    is_justifiable_after s (cp_slot (sf_finalized A)) = false.
Proof.
  unfold sf_step. intros H. repeat case_if; cbn in *; b2p; try done.
  match goal with Ha : sf_accepts _ _ _ = true |- _ =>
    apply sf_accepts_true in Ha as (? & _ & _ & _ & _ & ? & _) end.
  match goal with Hf : sf_finalizes _ _ = true |- _ =>
    unfold sf_finalizes in Hf; cbn in Hf; b2p end.
  split_and!; try done. intros s Hs. destruct (is_justifiable_after s _) eqn:Hj; [|done].
  match goal with He : existsb _ _ = false |- _ => rewrite <-He end.
  symmetry. apply existsb_exists. exists s. split; [|done].
  apply list_elem_of_In, elem_of_range. lia.
Qed.

(** The pending voters of a root were pending before or are signers of the
    attestation just processed, whose target it then is. *)
Lemma sf_step_votes A d signers root V v :
  sf_votes (sf_step chain n A d signers) !! root = Some V -> v ∈ V ->
  v ∈ default ∅ (sf_votes A !! root) \/ root = cp_root (ad_target d) /\ v ∈ signers.
Proof.
  assert (Hrec : forall V', sf_votes (sf_record A d (sf_voters A d signers)) !! root = Some V' ->
    v ∈ V' -> v ∈ default ∅ (sf_votes A !! root) \/ root = cp_root (ad_target d) /\ v ∈ signers).
  { cbn. intros V' H Hv. rewrite lookup_insert in H. case_decide as Hr.
    - simplify_eq. unfold sf_voters in Hv. set_solver.
    - left. by rewrite H. }
  unfold sf_step. intros H Hv. repeat case_if.
  - left. by rewrite H.
  - cbn in H. apply map_retain_Some in H as [H _].
    apply lookup_delete_Some in H as [_ H]. by eapply Hrec.
  - cbn in H. apply lookup_delete_Some in H as [_ H]. by eapply Hrec.
  - by eapply Hrec.
Qed.

Lemma sf_step_justified A d signers :
  sf_justified (sf_step chain n A d signers) = sf_justified A \/
  sf_justified (sf_step chain n A d signers) = ad_target d /\
  sf_accepts chain A d = true /\ sf_quorum n (sf_voters A d signers) = true.
Proof. unfold sf_step. repeat case_if; cbn in *; b2p; repeat case_if; auto. Qed.
End step.

(** Two quorums over the same [n] validators share at least a third of them. *)
Lemma quorum_intersection (n : nat) (P Q : gset Z) :
  (forall v, v ∈ P ∪ Q -> 0 <= v < Z.of_nat n) ->
  sf_quorum n P = true -> sf_quorum n Q = true ->
  (n <= 3 * size (P ∩ Q))%nat.
Proof.
  unfold sf_quorum. intros Hr HP HQ. b2p.
  assert (Hu : (size (P ∪ Q) <= n)%nat).
  { transitivity (size (list_to_set (seqZ 0 (Z.of_nat n)) : gset Z)).
    - apply subseteq_size. intros v Hv. apply elem_of_list_to_set, elem_of_seqZ.
      specialize (Hr v Hv). lia.
    - rewrite size_list_to_set by apply NoDup_seqZ. rewrite length_seqZ. lia. }
  pose proof (size_union_alt P Q) as H1. pose proof (size_difference_alt Q P) as H2.
  assert (Heq : Q ∩ P = P ∩ Q) by (apply set_eq; intros; rewrite !elem_of_intersection; tauto).
  rewrite Heq in H2. lia.
Qed.
