(* ===== verification/LeanRefinement.v ===== *)
(** * The state transition implements 3SF-mini

    An abstraction function from the bit lists of [LeanState] and the map of
    pending votes to the sets of [ThreeSF.v], and the simulation of
    [process_attestation] by [sf_step]. *)

From S2P Require Import Prelude Ssz Slot LeanTypes LeanState LeanStateFacts.
From S2P Require Import ThreeSF.

(** The slots whose bit is set in a window that starts right after slot [f]. *)
Definition window_slots (f : Z) (bits : list bool) : gset Z :=
  list_to_set ((fun i => f + 1 + Z.of_nat i) <$> true_indices bits).

(** The validators whose bit is set. *)
Definition signers (bits : list bool) : gset Z :=
  list_to_set (Z.of_nat <$> true_indices bits).

Lemma elem_of_window_slots f bits s :
  s ∈ window_slots f bits <-> f < s /\ bits !! Z.to_nat (s - f - 1) = Some true.
Proof.
  unfold window_slots. rewrite elem_of_list_to_set, list_elem_of_fmap.
  setoid_rewrite elem_of_true_indices. split.
  - intros (i & -> & Hi). split; [lia|]. rewrite <-Hi. f_equal. lia.
  - intros [Hs Hb]. exists (Z.to_nat (s - f - 1)). split; [lia|done].
Qed.

Lemma elem_of_signers bits v :
  v ∈ signers bits <-> 0 <= v /\ bits !! Z.to_nat v = Some true.
Proof.
  unfold signers. rewrite elem_of_list_to_set, list_elem_of_fmap.
  setoid_rewrite elem_of_true_indices. split.
  - intros (i & -> & Hi). rewrite Nat2Z.id. split; [lia|done].
  - intros [Hv Hb]. exists (Z.to_nat v). split; [lia|done].
Qed.

Lemma size_signers bits : size (signers bits) = count_true bits.
Proof.
  unfold signers. rewrite size_list_to_set.
  - by rewrite length_fmap, length_true_indices.
  - apply NoDup_fmap; [apply _|apply NoDup_true_indices].
Qed.

(** The 64-bit slots of attestation data. *)
Definition att_u64 (d : AttestationData) : Prop :=
  is_u64 (cp_slot (ad_source d)) /\ is_u64 (cp_slot (ad_target d)) /\ is_u64 (cp_slot (ad_head d)).

Section refinement.
Context {SS : SszTypes} {SL : SszLaws SS}.

Definition tally (b : BitList) : gset Z := signers (bl_iter b).

Definition alpha (s : LeanState) (m : gmap B256 BitList) : SF :=
  mkSF (latest_justified s) (latest_finalized s)
    (window_slots (cp_slot (latest_finalized s)) (bl_iter (justified_slots s)))
    (tally <$> m).

(** What attestation processing leaves alone. *)
Definition same_chain (s s' : LeanState) : Prop :=
  config s' = config s /\ slot s' = slot s /\
  latest_block_header s' = latest_block_header s /\
  historical_block_hashes s' = historical_block_hashes s /\
  validators s' = validators s.

#[global] Instance same_chain_preorder : PreOrder same_chain.
Proof. split; [by repeat split|]. unfold same_chain. intros ???; naive_solver congruence. Qed.

(** The bounds the simulation needs, and the meaning of [root_to_slot]. *)
Record loop_pre (r : gmap B256 Z) (s : LeanState) : Prop := {
  lp_fin : 0 <= cp_slot (latest_finalized s) <= U262144;
  lp_hist : Z.of_nat (length (history s)) <= U262144;
  lp_win : Z.of_nat (length (bl_iter (justified_slots s))) <= U262144;
  lp_roots : forall c root, cp_slot (latest_finalized s) <= c ->
    match r !! root with Some i => c <? i | None => false end = root_after (history s) c root;
}.

Lemma slot_is_justified_sim s m sl b :
  is_u64 sl -> 0 <= cp_slot (latest_finalized s) <= U262144 ->
  slot_is_justified s sl = Ok b -> b = sf_is_justified (alpha s m) sl.
Proof.
  intros Hsl Hf. unfold slot_is_justified, sf_is_justified. cbn.
  destruct (justified_index_after _ _) eqn:Hj.
  - apply justified_index_after_Some in Hj as [Hlt ->]; [|done|unfold U262144 in *; u64_solve].
    intros H. res_inv H. rewrite bl_get_spec in H.
    rewrite (proj2 (Z.leb_gt _ _)) by done. cbn.
    destruct b; symmetry; [apply bool_decide_eq_true|apply bool_decide_eq_false];
      rewrite elem_of_window_slots, H; naive_solver.
  - apply justified_index_after_None in Hj. intros [= <-].
    by rewrite (proj2 (Z.leb_le _ _)).
Qed.

Lemma attestation_data_matches_chain_sim hashes d :
  attestation_data_matches_chain hashes d =
  on_chain hashes (ad_source d) && on_chain hashes (ad_target d) && on_chain hashes (ad_head d).
Proof.
  unfold attestation_data_matches_chain, on_chain.
  destruct (cp_root (ad_source d) =? B256_ZERO); [done|].
  destruct (cp_root (ad_target d) =? B256_ZERO); [by rewrite andb_false_r|].
  destruct (cp_root (ad_head d) =? B256_ZERO); [by rewrite andb_false_r|]. cbn.
  assert (Hout : forall c : Checkpoint, (length hashes <=? Z.to_nat (cp_slot c))%nat = true ->
    bool_decide (hashes !! Z.to_nat (cp_slot c) = Some (cp_root c)) = false).
  { intros c Hc. b2p. apply bool_decide_eq_false. by rewrite lookup_ge_None_2. }
  destruct (length hashes <=? Z.to_nat (cp_slot (ad_source d)))%nat eqn:H1;
    [by rewrite (Hout _ H1)|].
  destruct (length hashes <=? Z.to_nat (cp_slot (ad_target d)))%nat eqn:H2;
    [by rewrite (Hout _ H2), andb_false_r|].
  destruct (length hashes <=? Z.to_nat (cp_slot (ad_head d)))%nat eqn:H3;
    [by rewrite (Hout _ H3), andb_false_r|done].
Qed.

Lemma tally_record j bits j' :
  record_votes j bits = Ok j' -> tally j' = tally j ∪ signers (bl_iter bits).
Proof.
  intros [_ H]%record_votes_spec. unfold tally. apply set_eq. intros v.
  rewrite elem_of_union, !elem_of_signers, H. tauto.
Qed.

Lemma finalize_sim r s m c s' m' :
  loop_pre r s ->
  cp_slot (latest_finalized s) < cp_slot c <= U262144 ->
  finalize r s m c = Ok (s', m') ->
  alpha s' m' = sf_finalize (history s) (alpha s m) c /\
  same_chain s s' /\ loop_pre r s'.
Proof.
  intros [Hf Hh Hw Hr] Hc. unfold finalize, U262144 in *. u64_simpl.
  rewrite (proj2 (Nat.ltb_lt 0 _)) by lia. intros H. res_inv H.
  apply rebase_justified_slots_spec in Hb0 as [Hd Hbits]; [|unfold U262144; lia..].
  split_and!; [|done|].
  - unfold alpha, sf_finalize. cbn. f_equal.
    + apply set_eq. intros sl. rewrite elem_of_filter, !elem_of_window_slots, Hbits, lookup_drop.
      split.
      * intros [? Hl]. split_and!; [lia..|]. rewrite <-Hl. f_equal. lia.
      * intros (? & ? & Hl). split; [lia|]. rewrite <-Hl. f_equal. lia.
    + apply map_eq. intros root. apply option_eq. intros V.
      rewrite map_retain_Some, !lookup_fmap, !fmap_Some.
      setoid_rewrite map_retain_Some. rewrite <-Hr by lia. naive_solver.
  - split; cbn; unfold U262144; [lia|done| |].
    + rewrite Hbits, length_drop. lia.
    + intros c' root Hle. rewrite Hr by lia. done.
Qed.

Lemma is_target_next_sim s m d :
  is_u64 (cp_slot (ad_source d) + 1) ->
  is_target_next_valid_justifiable_slot s (ad_source d) (ad_target d)
  = sf_finalizes (alpha s m) d.
Proof. intros. unfold is_target_next_valid_justifiable_slot, sf_finalizes. by u64_simpl. Qed.

Lemma justify_sim r s m d s' m' :
  loop_pre r s ->
  is_u64 (cp_slot (ad_target d)) ->
  cp_slot (latest_finalized s) < cp_slot (ad_target d) ->
  0 <= cp_slot (ad_source d) < U262144 ->
  justify r s m (ad_source d) (ad_target d) = Ok (s', m') ->
  alpha s' m' =
    (let A1 := sf_justify (alpha s m) (ad_target d) in
     if sf_finalizes A1 d then sf_finalize (history s) A1 (ad_source d) else A1) /\
  same_chain s s' /\ loop_pre r s'.
Proof.
  intros P Hu Hlt Hsrc. pose proof (lp_fin _ _ P) as Hfin0. unfold justify.
  set (s0 := if cp_slot (latest_justified s) <? cp_slot (ad_target d)
             then set_latest_justified (ad_target d) s else s).
  assert (Hs0 : latest_finalized s0 = latest_finalized s /\ justified_slots s0 = justified_slots s
                /\ same_chain s s0 /\ latest_justified s0 =
                   (if cp_slot (latest_justified s) <? cp_slot (ad_target d)
                    then ad_target d else latest_justified s)).
  { unfold s0. case_if; repeat split. }
  destruct Hs0 as (Hf0 & Hj0 & Hc0 & Hl0). clearbody s0.
  rewrite Hf0, Hj0. destruct (justified_index_after _ _) eqn:Hi;
    [|apply justified_index_after_None in Hi; lia].
  apply justified_index_after_Some in Hi as [_ ->]; [|done|unfold U262144 in *; u64_solve].
  intros H. res_inv H. apply bl_set_Some in Hb as [Hin Hbits].
  set (s1 := set_justified_slots v s0) in *.
  assert (Ha1 : alpha s1 (delete (cp_root (ad_target d)) m)
                = sf_justify (alpha s m) (ad_target d)).
  { unfold alpha, sf_justify, s1. cbn. rewrite Hf0, Hl0, Hbits, fmap_delete. f_equal.
    apply set_eq. intros sl. rewrite elem_of_union, elem_of_singleton, !elem_of_window_slots.
    destruct (decide (sl = cp_slot (ad_target d))) as [->|].
    - rewrite list_lookup_insert_eq by done. naive_solver.
    - split.
      + intros [? Hx]. right. rewrite list_lookup_insert_ne in Hx by lia. done.
      + intros [?|[? Hx]]; [done|]. rewrite list_lookup_insert_ne by lia. done. }
  assert (Hc1 : same_chain s s1) by done.
  assert (Hh1 : history s1 = history s).
  { unfold history. destruct Hc0 as (_ & _ & _ & Hx & _). cbn. by rewrite Hx. }
  assert (P1 : loop_pre r s1).
  { destruct P as [? ? ? ?].
    split; [unfold s1; cbn; by rewrite Hf0|by rewrite Hh1|unfold s1; cbn; by rewrite Hbits, length_insert|].
    rewrite Hh1. unfold s1; cbn. by rewrite Hf0. }
  rewrite <-Ha1 in *. cbv zeta.
  rewrite (is_target_next_sim s1 (delete (cp_root (ad_target d)) m)) in H by (unfold U262144 in *; u64_solve).
  destruct (sf_finalizes _ d) eqn:Hfin.
  - unfold sf_finalizes in Hfin. cbn in Hfin. b2p. rewrite Hf0 in *.
    apply finalize_sim in H as (-> & Hc2 & P2); [|done|unfold s1; cbn; rewrite Hf0; lia].
    rewrite Hh1. split_and!; [done|by etrans|done].
  - injection H as <- <-. done.
Qed.

(** One attestation: the bit lists simulate the sets. *)
Lemma process_attestation_sim r s m a s' m' :
  loop_pre r s -> att_u64 (aa_message a) ->
  process_attestation r (s, m) a = Ok (s', m') ->
  alpha s' m' = sf_step (history s) (validators_len s) (alpha s m) (aa_message a)
                  (signers (bl_iter (aa_aggregation_bits a))) /\
  same_chain s s' /\ loop_pre r s'.
Proof.
  intros P (Hus & Hut & Huh). pose proof (lp_fin _ _ P) as Hf.
  unfold process_attestation, aa_source, aa_target. set (d := aa_message a) in *. intros H.
  unfold sf_step. res_inv H. apply (slot_is_justified_sim s m) in Hb as ->; [|done..].
  rewrite attestation_data_matches_chain_sim in H.
  assert (Hz : forall c, on_chain (history s) c = true -> (cp_root c =? B256_ZERO) = false).
  { intros c [? _]%on_chain_true. by apply Z.eqb_neq. }
  destruct ((cp_root (ad_source d) =? B256_ZERO) || (cp_root (ad_target d) =? B256_ZERO)) eqn:Hzero.
  { injection H as <- <-. split_and!; [|done..].
    destruct (sf_accepts _ _ _) eqn:Ht; [|done]. exfalso.
    apply sf_accepts_true in Ht as (_ & _ & Hcs & Hct & _).
    by rewrite (Hz _ Hcs), (Hz _ Hct) in Hzero. }
  unfold sf_accepts.
  destruct (sf_is_justified (alpha s m) (cp_slot (ad_source d))) eqn:Hsj; cbn [negb andb] in H |- *;
    [|by injection H as <- <-].
  res_inv H. apply (slot_is_justified_sim s m) in Hb as ->; [|done..].
  destruct (sf_is_justified (alpha s m) (cp_slot (ad_target d))) eqn:Htj; cbn [negb andb];
    [by injection H as <- <-|].
  destruct (on_chain (history s) (ad_source d)) eqn:Hcs; cbn [negb andb] in H |- *; [|by injection H as <- <-].
  destruct (on_chain (history s) (ad_target d)) eqn:Hct; cbn [negb andb] in H |- *; [|by injection H as <- <-].
  destruct (on_chain (history s) (ad_head d)) eqn:Hch; cbn [negb andb] in H |- *; [|by injection H as <- <-].
  rewrite Z.leb_antisym in H.
  destruct (cp_slot (ad_source d) <? cp_slot (ad_target d)) eqn:Hst; cbn [negb andb] in H |- *;
    [|by injection H as <- <-].
  destruct (is_justifiable_after _ _) eqn:Hja; cbn [negb andb] in H |- *; [|by injection H as <- <-].
  res_inv H. apply bl_with_capacity_Some in Hb as [Hfresh _].
  assert (Hdef : tally (default v (m !! cp_root (ad_target d)))
                 = default ∅ ((tally <$> m) !! cp_root (ad_target d))).
  { rewrite lookup_fmap. destruct (m !! cp_root (ad_target d)); [done|]. cbn.
    unfold tally. rewrite Hfresh. apply set_eq. intros x.
    rewrite elem_of_signers, lookup_replicate. set_solver. }
  pose proof (tally_record _ _ _ Hb0) as Htal. rewrite Hdef in Htal.
  rewrite bl_num_set_bits_spec, <-size_signers in H.
  change (signers (bl_iter v0)) with (tally v0) in H. unfold sf_quorum, sf_voters.
  change (sf_votes (alpha s m)) with (tally <$> m). rewrite <-Htal.
  assert (Hrec : alpha s (<[cp_root (ad_target d) := v0]> m)
                 = sf_record (alpha s m) d (tally v0)).
  { unfold alpha, sf_record. cbn. by rewrite fmap_insert. }
  rewrite <-Hrec.
  destruct (2 * validators_len s <=? 3 * size (tally v0))%nat; [|by injection H as <- <-].
  unfold sf_is_justified in Htj. cbn in Htj. b2p.
  eapply justify_sim; [done|done|lia| |done].
  apply on_chain_true in Hcs as [_ Hl%lookup_lt_Some]. pose proof (lp_hist _ _ P).
  unfold U262144 in *. u64_solve.
Qed.
End refinement.
