(* ===== verification/LeanEncoding.v ===== *)
(** * The flat encoding of pending votes

    [justifications_roots] and [justifications_validators] store a map from root
    to bit list as a sorted key list and the concatenation of the bit lists.
    [decode_justifications] and [encode_justifications] are inverse to each other. *)

From S2P Require Import Prelude Ssz LeanTypes LeanState LeanStateFacts.

(** The [i]-th block of [n] bits. *)
Definition chunk (n : nat) (flat : list bool) (i : nat) : list bool :=
  take n (drop (i * n) flat).

Lemma length_chunk n flat i :
  (i * n + n <= length flat)%nat -> length (chunk n flat i) = n.
Proof. intros. unfold chunk. rewrite length_take, length_drop. lia. Qed.

Lemma chunk_concat n (ls : list (list bool)) i l :
  Forall (fun l => length l = n) ls -> ls !! i = Some l -> chunk n (concat ls) i = l.
Proof.
  intros Hf. revert i. induction Hf as [|l' ls Hl' Hf IH]; intros [|i] H; cbn in H; try done.
  - injection H as ->. unfold chunk. rewrite Nat.mul_0_l, drop_0. cbn [concat]. rewrite take_app_length'; done.
  - specialize (IH i H). unfold chunk in *. cbn [concat].
    rewrite drop_app_ge by lia. rewrite <-IH. do 2 f_equal. lia.
Qed.

Lemma length_concat_uniform n (ls : list (list bool)) :
  Forall (fun l => length l = n) ls -> length (concat ls) = (length ls * n)%nat.
Proof. induction 1 as [|l ls Hl _ IH]; [done|]. cbn. rewrite length_app, IH. lia. Qed.

Section encoding.
Context {SS : SszTypes} {SL : SszLaws SS}.

(** The map the flat encoding stands for. *)
Definition pending_votes (s : LeanState) : gmap B256 (list bool) :=
  list_to_map (imap (fun i root =>
      (root, chunk (validators_len s) (bl_iter (justifications_validators s)) i))
    (vl_iter (justifications_roots s))).

Lemma pending_votes_Some s root bits :
  NoDup (vl_iter (justifications_roots s)) ->
  pending_votes s !! root = Some bits <->
  exists i, vl_iter (justifications_roots s) !! i = Some root /\
    bits = chunk (validators_len s) (bl_iter (justifications_validators s)) i.
Proof.
  intros Hnd. unfold pending_votes. rewrite <-elem_of_list_to_map.
  - rewrite list_elem_of_lookup. setoid_rewrite list_lookup_imap.
    setoid_rewrite fmap_Some. naive_solver.
  - replace (imap _ _).*1 with (vl_iter (justifications_roots s)); [done|].
    apply list_eq. intros i. rewrite list_lookup_fmap, list_lookup_imap.
    by destruct (_ !! i).
Qed.

Lemma decode_votes_spec n flat i b :
  decode_votes n flat i = Ok b -> bl_iter b = chunk n flat i.
Proof.
  unfold decode_votes. intros H. res_inv H. case_if; [|done]. injection Hb as <-. b2p.
  apply bl_with_capacity_Some in Hb0 as [Hv _].
  apply fill_bits in H; [done|]. rewrite Hv, length_replicate. by apply length_chunk.
Qed.

Lemma decode_votes_returns n flat i : returns (decode_votes n flat i).
Proof.
  unfold decode_votes. apply returns_bind; [by case_if|]. intros.
  apply returns_bind; [auto with res|]. intros.
  apply (foldM_returns (fun _ => True)); [done| |done]. intros ? [] ??. auto with res.
Qed.

Lemma decode_votes_Ok n flat i :
  (i * n + n <= length flat)%nat -> Z.of_nat n <= U1073741824 ->
  exists b, decode_votes n flat i = Ok b.
Proof.
  intros Hi Hn. unfold decode_votes. rewrite (proj2 (Nat.leb_le _ _)) by lia. cbn.
  destruct (bl_with_capacity_is_Some _ _ Hn) as (b & -> & Hb). cbn.
  apply fill_bits_Ok. cbn. rewrite Hb, length_replicate. by apply length_chunk.
Qed.

Lemma decode_justifications_returns s : returns (decode_justifications s).
Proof.
  apply (foldM_returns (fun _ => True)); [done| |done]. intros m [i root] _ _.
  apply returns_bind; [apply decode_votes_returns|done].
Qed.

(** Reading the flat encoding gives the map it stands for. *)
Lemma decode_justifications_spec s m :
  NoDup (vl_iter (justifications_roots s)) ->
  decode_justifications s = Ok m -> bl_iter <$> m = pending_votes s.
Proof.
  intros Hnd H. apply map_eq. intros root. apply option_eq. intros bits.
  rewrite pending_votes_Some by done. unfold decode_justifications in H.
  change (enumerate ?l) with (enumerate_from 0 l) in H.
  set (chunk' := chunk (validators_len s) (bl_iter (justifications_validators s))).
  enough (Hg : forall roots k m0,
    NoDup roots ->
    (forall root, root ∈ roots -> m0 !! root = None) ->
    foldM (fun m '(i, root) =>
      b ← decode_votes (validators_len s) (bl_iter (justifications_validators s)) i;
      Ok (<[root := b]> m)) m0 (enumerate_from k roots) = Ok m ->
    (bl_iter <$> m) !! root = Some bits <->
    (bl_iter <$> m0) !! root = Some bits \/
    exists i, roots !! i = Some root /\ bits = chunk' (k + i)%nat).
  { rewrite (Hg _ 0%nat ∅ Hnd ltac:(done) H). cbn. rewrite lookup_fmap, lookup_empty.
    split; [by intros [?|?]|by right]. }
  clear H Hnd. induction roots as [|r roots IH]; intros k m0 Hnd Hfree.
  - cbn. intros [= ->]. split; [by left|]. by intros [?|(i & Hi & _)].
  - rewrite enumerate_from_cons. cbn [foldM]. intros H. res_inv H.
    apply NoDup_cons in Hnd as [Hr Hnd]. apply decode_votes_spec in Hb0 as Hb.
    apply IH in H as ->; [|done|].
    2: { intros r' Hr'. rewrite lookup_insert_ne by set_solver. apply Hfree. set_solver. }
    rewrite fmap_insert, Hb, lookup_insert.
    assert (Hnone : m0 !! r = None) by (apply Hfree; set_solver).
    split.
    + intros [Hin|(i & Hi & ->)].
      * case_decide; simplify_eq; [|by left]. right. exists 0%nat. by rewrite Nat.add_0_r.
      * right. exists (S i). split; [done|]. f_equal. lia.
    + intros [Hin|([|i] & Hi & ->)].
      * left. case_decide; [|done]. subst. by rewrite lookup_fmap, Hnone in Hin.
      * cbn in Hi. simplify_eq. left. case_decide; [|done]. by rewrite Nat.add_0_r.
      * right. exists i. split; [done|]. f_equal. lia.
Qed.

Lemma decode_justifications_Ok s :
  length (bl_iter (justifications_validators s))
    = (length (vl_iter (justifications_roots s)) * validators_len s)%nat ->
  (vl_iter (justifications_roots s) <> [] -> Z.of_nat (validators_len s) <= U1073741824) ->
  exists m, decode_justifications s = Ok m.
Proof.
  intros Hl Hn. unfold decode_justifications.
  assert (Hin : forall i root, (i, root) ∈ enumerate (vl_iter (justifications_roots s)) ->
    exists b, decode_votes (validators_len s) (bl_iter (justifications_validators s)) i = Ok b).
  { intros i root Hi%elem_of_enumerate%lookup_lt_Some. apply decode_votes_Ok.
    - rewrite Hl. nia.
    - apply Hn. intros Hnil. rewrite Hnil in Hi. cbn in Hi. lia. }
  revert Hin. generalize (enumerate (vl_iter (justifications_roots s))) as l.
  generalize (∅ : gmap B256 BitList) as m0. intros m0 l. revert m0.
  induction l as [|[i root] l IH]; intros m0 Hin; [by eexists|]. cbn.
  destruct (Hin i root) as [b ->]; [set_solver|]. cbn. apply IH.
  intros i' root' Hi'. apply (Hin i' root'). set_solver.
Qed.

(** ** Sorted keys *)

Lemma sorted_keys_perm {V} (m : gmap B256 V) : sorted_keys m ≡ₚ (map_to_list m).*1.
Proof. apply merge_sort_Permutation. Qed.

Lemma elem_of_sorted_keys {V} (m : gmap B256 V) k : k ∈ sorted_keys m <-> is_Some (m !! k).
Proof.
  rewrite sorted_keys_perm, list_elem_of_fmap. split.
  - intros ([k' v] & -> & ?%elem_of_map_to_list). by exists v.
  - intros [v Hv]. exists (k, v). by rewrite elem_of_map_to_list.
Qed.

Lemma NoDup_sorted_keys {V} (m : gmap B256 V) : NoDup (sorted_keys m).
Proof. rewrite sorted_keys_perm. apply NoDup_fst_map_to_list. Qed.

Lemma length_sorted_keys {V} (m : gmap B256 V) : length (sorted_keys m) = size m.
Proof. rewrite sorted_keys_perm, length_fmap, length_map_to_list. done. Qed.

Lemma sorted_keys_sorted {V} (m : gmap B256 V) : StronglySorted Z.lt (sorted_keys m).
Proof.
  pose proof (NoDup_sorted_keys m) as Hnd.
  assert (Hs : StronglySorted Z.le (sorted_keys m))
    by (apply Sorted_StronglySorted; [apply _|apply Sorted_merge_sort; apply _]).
  induction Hs as [|k l Hs IH Hk]; constructor.
  - apply IH. by apply NoDup_cons in Hnd as [_ ?].
  - apply NoDup_cons in Hnd as [Hn _]. rewrite Forall_forall in Hk |- *.
    intros x Hx. specialize (Hk x Hx). assert (x <> k) by (intros ->; done). lia.
Qed.

Lemma StronglySorted_lt_NoDup l : StronglySorted Z.lt l -> NoDup l.
Proof.
  induction 1 as [|k l _ IH Hk]; constructor; [|done].
  intros Hin. rewrite Forall_forall in Hk. specialize (Hk _ Hin). lia.
Qed.

(** ** Encoding *)

Definition bits_of (m : gmap B256 BitList) (root : B256) : list bool :=
  default [] (bl_iter <$> m !! root).

Lemma encode_loop (n : nat) (m : gmap B256 BitList) ks : forall roots votes roots' votes',
  foldM (fun '(roots_list, votes_list) root =>
             votes ← ok_or (m !! root) RootNotFound;
             ensure (bl_len votes =? n)%nat VoteListLengthMismatch;;
             roots_list ← ok_or (vl_push U262144 roots_list root) AppendRootFailed;
             Ok (roots_list, votes_list ++ bl_iter votes))
      (roots, votes) ks = Ok (roots', votes') ->
  vl_iter roots' = vl_iter roots ++ ks /\
  votes' = votes ++ concat (bits_of m <$> ks) /\
  Forall (fun k => length (bits_of m k) = n) ks.
Proof.
  induction ks as [|k ks IH]; intros roots votes roots' votes'; cbn [foldM].
  - intros [= -> ->]. cbn. rewrite !app_nil_r. done.
  - intros H. res_inv H. apply IH in H as (H1 & H2 & H3).
    apply vl_push_Some in Hb2 as [Hp _]. b2p. rewrite bl_len_spec in *.
    assert (Hk : bits_of m k = bl_iter v0) by (unfold bits_of; by rewrite Hb0).
    split_and!.
    + by rewrite H1, Hp, <-app_assoc.
    + rewrite H2. cbn. by rewrite Hk, app_assoc.
    + constructor; [by rewrite Hk|done].
Qed.

Lemma encode_justifications_spec s m s' :
  encode_justifications s m = Ok s' ->
  s' = set_justifications (justifications_roots s') (justifications_validators s') s /\
  vl_iter (justifications_roots s') = sorted_keys m /\
  bl_iter (justifications_validators s') = concat (bits_of m <$> sorted_keys m) /\
  Forall (fun k => length (bits_of m k) = validators_len s) (sorted_keys m).
Proof.
  unfold encode_justifications. intros H. apply bind_Ok in H as ([rl vl] & H1 & H).
  apply encode_loop in H1 as (Hr & -> & Hf). res_inv H.
  apply bl_with_capacity_Some in Hb as [Hv _]. rewrite vl_iter_empty in Hr. cbn in *.
  apply fill_bits in Hb0; [|rewrite Hv, length_replicate].
  - split_and!; [done..|]. done.
  - rewrite (length_concat_uniform (validators_len s)), length_fmap, length_sorted_keys; [done|].
    by apply Forall_fmap.
Qed.

(** Writing a map and reading it back gives the map. *)
Lemma pending_votes_encode s m s' :
  encode_justifications s m = Ok s' -> pending_votes s' = bl_iter <$> m.
Proof.
  intros H. apply encode_justifications_spec in H as (Hs & Hr & Hv & Hf).
  assert (Hn : validators_len s' = validators_len s) by (by rewrite Hs).
  apply map_eq. intros root. apply option_eq. intros bits.
  rewrite pending_votes_Some by (rewrite Hr; apply NoDup_sorted_keys).
  rewrite Hr, Hv, Hn, lookup_fmap. split.
  - intros (i & Hi & ->).
    assert (Hb : is_Some (m !! root)) by (apply elem_of_sorted_keys, list_elem_of_lookup; eauto).
    destruct Hb as [b Hb]. rewrite Hb. cbn. f_equal. symmetry.
    apply chunk_concat; [by apply Forall_fmap|]. rewrite list_lookup_fmap, Hi. cbn.
    unfold bits_of. by rewrite Hb.
  - destruct (m !! root) as [b|] eqn:Hb; [|done]. cbn. intros [= <-].
    assert (Hin : root ∈ sorted_keys m) by (apply elem_of_sorted_keys; eauto).
    apply list_elem_of_lookup in Hin as [i Hi]. exists i. split; [done|]. symmetry.
    apply chunk_concat; [by apply Forall_fmap|]. rewrite list_lookup_fmap, Hi. cbn.
    unfold bits_of. by rewrite Hb.
Qed.

Lemma encode_justifications_capacity s m s' :
  encode_justifications s m = Ok s' ->
  Z.of_nat (size m * validators_len s) <= U1073741824.
Proof.
  unfold encode_justifications. intros H. apply bind_Ok in H as ([rl vl] & _ & H). res_inv H.
  by apply bl_with_capacity_Some in Hb as [_ ?].
Qed.

(** What was written reads back. *)
Lemma encode_justifications_decodes s m s' :
  encode_justifications s m = Ok s' ->
  exists m', decode_justifications s' = Ok m' /\ bl_iter <$> m' = bl_iter <$> m.
Proof.
  intros H. pose proof (pending_votes_encode _ _ _ H) as Hp.
  pose proof (encode_justifications_capacity _ _ _ H) as Hc.
  apply encode_justifications_spec in H as (Hs & Hr & Hv & Hf).
  assert (Hn : validators_len s' = validators_len s) by (by rewrite Hs).
  destruct (decode_justifications_Ok s') as [m' Hm'].
  - rewrite Hr, Hv, Hn, (length_concat_uniform (validators_len s)), length_fmap; [done|].
    by apply Forall_fmap.
  - rewrite Hr, Hn. intros Hne. rewrite <-length_zero_iff_nil, length_sorted_keys in Hne. nia.
  - exists m'. split; [done|]. rewrite <-Hp. apply decode_justifications_spec; [|done].
    rewrite Hr. apply NoDup_sorted_keys.
Qed.

Lemma encode_justifications_returns s m : returns (encode_justifications s m).
Proof.
  unfold encode_justifications. apply returns_bind.
  - apply (foldM_returns (fun _ => True)); [done| |done]. intros [] k _ _.
    repeat returns_step. done.
  - intros [] _. apply returns_bind; [auto with res|]. intros.
    apply returns_bind; [|done].
    apply (foldM_returns (fun _ => True)); [done| |done]. intros ? [] ??. auto with res.
Qed.

Lemma encode_justifications_Ok s m :
  (forall root b, m !! root = Some b -> length (bl_iter b) = validators_len s) ->
  Z.of_nat (size m) <= U262144 -> Z.of_nat (validators_len s) <= U4096 ->
  exists s', encode_justifications s m = Ok s'.
Proof.
  intros Hm Hsz Hn. unfold encode_justifications.
  assert (Hloop : forall ks roots votes,
    (forall k, k ∈ ks -> is_Some (m !! k)) ->
    Z.of_nat (length (vl_iter roots) + length ks) <= U262144 ->
    exists x, foldM (fun '(roots_list, votes_list) root =>
             votes ← ok_or (m !! root) RootNotFound;
             ensure (bl_len votes =? validators_len s)%nat VoteListLengthMismatch;;
             roots_list ← ok_or (vl_push U262144 roots_list root) AppendRootFailed;
             Ok (roots_list, votes_list ++ bl_iter votes)) (roots, votes) ks = Ok x).
  { induction ks as [|k ks IH]; intros roots votes Hk Hlen; [by eexists|]. cbn [foldM].
    destruct (Hk k) as [b Hb]; [set_solver|]. rewrite Hb. cbn in Hlen |- *.
    rewrite bl_len_spec, (Hm _ _ Hb), Nat.eqb_refl. cbn.
    pose proof (vl_push_spec _ U262144 roots k) as Hp.
    destruct (vl_push U262144 roots k) as [roots'|]; [|lia]. cbn.
    apply IH; [set_solver|]. destruct Hp as [-> _]. rewrite length_app. cbn. lia. }
  destruct (Hloop (sorted_keys m) vl_empty []) as [[rl vl] Hl].
  { intros k. by rewrite elem_of_sorted_keys. }
  { rewrite vl_iter_empty, length_sorted_keys. cbn. lia. }
  rewrite Hl. cbn. apply encode_loop in Hl as (_ & -> & Hf). cbn.
  destruct (bl_with_capacity_is_Some U1073741824 (size m * validators_len s)) as (b & -> & Hb).
  { unfold U1073741824, U262144, U4096 in *. nia. }
  cbn. destruct (fill_bits_Ok SetJustificationFailed (concat (bits_of m <$> sorted_keys m)) 0 b)
    as [b' Hb'].
  { rewrite Hb, length_replicate. cbn.
    rewrite (length_concat_uniform (validators_len s)), length_fmap, length_sorted_keys; [done|].
    by apply Forall_fmap. }
  unfold enumerate_from in Hb'. rewrite Hb'. by eexists.
Qed.
End encoding.

#[export] Hint Resolve decode_justifications_returns encode_justifications_returns : res.
