(* ===== verification/LeanInvariant.v ===== *)
(** * The invariant of the Lean state

    A well-formedness invariant of [LeanState], that genesis has it and that slot,
    header and attestation processing keep it, with the functional behaviour of
    each of them. *)

From S2P Require Import Prelude Ssz Slot LeanTypes LeanState LeanStateFacts.
From S2P Require Import ThreeSF LeanRefinement LeanEncoding.

Section invariant.
Context {SS : SszTypes} {SL : SszLaws SS}.
Context {HS : TreeHash LeanState} {HH : TreeHash BlockHeader} {HB : TreeHash BlockBody}
        {HA : TreeHash AttestationData}.

Abbreviation header_slot s := (hdr_slot (latest_block_header s)).
Abbreviation fin_slot s := (cp_slot (latest_finalized s)).
Abbreviation just_slot s := (cp_slot (latest_justified s)).

(** The abstract state a [LeanState] stands for. *)
Definition sf_of (s : LeanState) : SF :=
  mkSF (latest_justified s) (latest_finalized s)
    (window_slots (fin_slot s) (bl_iter (justified_slots s)))
    (signers <$> pending_votes s).

Lemma alpha_sf_of s m : bl_iter <$> m = pending_votes s -> alpha s m = sf_of s.
Proof.
  intros H. unfold alpha, sf_of. f_equal. rewrite <-H.
  unfold tally. by rewrite <-map_fmap_compose.
Qed.

(** What holds between blocks: one history entry per slot before the latest
    block, a justification window over exactly the slots between the finalized
    one and the latest block, a sorted vote encoding of the right length, and the
    abstract invariant once there is a block. *)
Record wf (s : LeanState) : Prop := {
  wf_slot : 0 <= header_slot s <= slot s;
  wf_slot_u64 : slot s < 2 ^ 64;
  wf_cap : header_slot s <= U262144;
  wf_hist : Z.of_nat (length (history s)) = header_slot s;
  wf_win : length (bl_iter (justified_slots s)) = Z.to_nat (header_slot s - 1 - fin_slot s);
  wf_order : 0 <= fin_slot s <= just_slot s;
  wf_votes : length (bl_iter (justifications_validators s))
             = (length (vl_iter (justifications_roots s)) * validators_len s)%nat;
  wf_sorted : StronglySorted Z.lt (vl_iter (justifications_roots s));
  wf_genesis : header_slot s = 0 ->
    fin_slot s = 0 /\ just_slot s = 0 /\ vl_iter (justifications_roots s) = [];
  wf_sf : 0 < header_slot s -> sf_wf (history s) (validators_len s) (sf_of s);
}.

Lemma wf_fin_bound s : wf s -> 0 <= fin_slot s <= U262144.
Proof.
  intros W. pose proof (wf_order _ W). pose proof (wf_cap _ W). pose proof (wf_slot _ W).
  destruct (decide (header_slot s = 0)) as [Hg0|].
  - destruct (wf_genesis _ W Hg0) as [-> _]. unfold U262144. lia.
  - pose proof (wf_sf _ W ltac:(lia)) as F. pose proof (sfw_froot _ _ _ F) as Hl. cbn in Hl.
    apply lookup_lt_Some in Hl. pose proof (wf_hist _ W). unfold U262144 in *. lia.
Qed.

(** ** Genesis *)

Lemma generate_genesis_wf t vs s : generate_genesis t vs = Ok s -> wf s.
Proof.
  unfold generate_genesis. repeat case_match; try done. intros [= <-].
  match goal with H : bl_with_capacity U262144 0 = Some _ |- _ =>
    apply bl_with_capacity_Some in H as [Hj _] end.
  match goal with H : bl_with_capacity U1073741824 0 = Some _ |- _ =>
    apply bl_with_capacity_Some in H as [Hv _] end.
  split; cbn; unfold history; cbn; rewrite ?vl_iter_empty, ?Hj, ?Hv; cbn;
    try done; unfold U262144; try lia. constructor.
Qed.

(** ** Slots *)

Lemma cache_state_root_slot s : hdr_slot (cache_state_root s) = header_slot s.
Proof. unfold cache_state_root. by case_if. Qed.

Lemma process_slots_loop_S n target s :
  process_slots_loop (S n) target s =
  if slot s <? target then
    process_slots_loop n target
      (set_slot (slot s + 1)%u64 (set_latest_block_header (cache_state_root s) s))
  else Ok s.
Proof. done. Qed.

Lemma process_slots_loop_spec n : forall target s,
  0 <= slot s -> target < 2 ^ 64 -> Z.to_nat (target - slot s) = n ->
  exists s', process_slots_loop n target s = Ok s' /\
    slot s' = Z.max (slot s) target /\
    (exists h, s' = set_slot (slot s') (set_latest_block_header h s) /\
               hdr_slot h = header_slot s).
Proof.
  induction n as [|n IH]; intros target s Hs Ht Hn.
  - exists s. cbn. rewrite (proj2 (Z.ltb_ge _ _)) by lia. split_and!; [done|lia|].
    exists (latest_block_header s). split; [by destruct s|done].
  - cbn [process_slots_loop]. rewrite (proj2 (Z.ltb_lt _ _)) by lia.
    pose proof (cache_state_root_slot s) as Hc. revert Hc.
    generalize (cache_state_root s) as h. intros h Hh. cbn. u64_simpl.
    destruct (IH target (set_slot (slot s + 1) (set_latest_block_header h s)))
      as (s' & -> & Hsl & h' & Hs' & Hh'); cbn; [lia..|].
    exists s'. split_and!; [done|cbn in Hsl; lia|]. exists h'. split; [done|].
    cbn in Hh'. lia.
Qed.

(** However many slots are empty, the header's state root is filled once, with the
    root of the state the loop starts from. *)
Lemma process_slots_loop_header n : forall target s,
  0 <= slot s -> target < 2 ^ 64 -> Z.to_nat (target - slot s) = S n ->
  hdr_state_root (cache_state_root s) <> B256_ZERO ->
  process_slots_loop (S n) target s
  = Ok (set_slot target (set_latest_block_header (cache_state_root s) s)).
Proof.
  induction n as [|n IH]; intros target s Hs Ht Hn Hz;
    rewrite process_slots_loop_S, (proj2 (Z.ltb_lt (slot s) _)) by lia; u64_simpl.
  - cbn. rewrite (proj2 (Z.ltb_ge _ _)) by lia. do 2 f_equal. lia.
  - set (s1 := set_slot (slot s + 1) (set_latest_block_header (cache_state_root s) s)).
    assert (Hc : cache_state_root s1 = cache_state_root s).
    { unfold cache_state_root at 1. cbn. by rewrite (proj2 (Z.eqb_neq _ _)). }
    rewrite IH, Hc; [done|..]. 1-3: unfold s1; cbn; lia. by rewrite Hc.
Qed.

Lemma process_slots_Ok s target s' :
  0 <= slot s -> target < 2 ^ 64 ->
  process_slots s target = Ok s' ->
  slot s < target /\ slot s' = target /\
  exists h, s' = set_slot target (set_latest_block_header h s) /\ hdr_slot h = header_slot s.
Proof.
  intros Hs Ht. unfold process_slots. intros H. res_inv H. b2p.
  destruct (process_slots_loop_spec _ target s Hs Ht eq_refl) as (s2 & H2 & Hsl & h & Hs2 & Hh).
  rewrite H in H2. injection H2 as <-. split_and!; [done|lia|]. exists h.
  split; [|done]. rewrite Hs2. f_equal. lia.
Qed.

Lemma process_slots_returns s target :
  0 <= slot s -> target < 2 ^ 64 -> returns (process_slots s target).
Proof.
  intros Hs Ht. unfold process_slots. apply returns_bind; [auto with res|]. intros _ _.
  by destruct (process_slots_loop_spec _ target s Hs Ht eq_refl) as (s2 & -> & _).
Qed.

Lemma process_slots_wf s target s' :
  wf s -> target < 2 ^ 64 -> process_slots s target = Ok s' -> wf s'.
Proof.
  intros W Ht H. pose proof (wf_slot _ W).
  apply process_slots_Ok in H as (Hlt & _ & h & -> & Hh); [|lia|done].
  destruct W as [? ? ? ? ? ? ? ? Wg Wsf].
  split; cbn; rewrite ?Hh; try done; lia.
Qed.

(** ** Block header *)

Lemma extend_justified_slots_spec s block_slot js :
  is_u64 (block_slot - 1) -> 0 <= fin_slot s <= U262144 ->
  length (bl_iter (justified_slots s)) = Z.to_nat (header_slot s - 1 - fin_slot s) ->
  header_slot s < block_slot ->
  extend_justified_slots s block_slot = Ok js ->
  bl_iter js = bl_iter (justified_slots s) ++
    replicate (Z.to_nat (block_slot - 1 - fin_slot s)
               - length (bl_iter (justified_slots s))) false.
Proof.
  intros Hu Hf Hlen Hb. unfold extend_justified_slots, U262144 in *.
  assert (Hg : (header_slot s =? 0) = true -> justified_index_after (header_slot s) (fin_slot s) = None).
  { intros. b2p. apply justified_index_after_None. lia. }
  rewrite u64_sub_id by done.
  destruct (justified_index_after (block_slot - 1) _) as [ti|] eqn:Hi.
  - apply justified_index_after_Some in Hi as [Hlt ->]; [|done|u64_solve].
    intros H. apply bind_Ok in H as (js1 & H1 & H).
    assert (Hjs : js = js1).
    { case_if; [rewrite Hg in H by done|]; by injection H. }
    subst js. clear H. rewrite bl_len_spec, u64_add_id in H1 by u64_solve. case_if; b2p.
    + res_inv H1. apply bl_with_capacity_Some in Hb0 as [Hv _].
      rewrite bl_union_spec, Hv, bits_or_falses by lia. do 2 f_equal. lia.
    + injection H1 as <-. assert (Z.to_nat (block_slot - 1 - fin_slot s) -
        length (bl_iter (justified_slots s)) = 0)%nat as -> by lia.
      by rewrite app_nil_r.
  - apply justified_index_after_None in Hi. intros [= <-].
    replace (Z.to_nat (block_slot - 1 - fin_slot s)) with 0%nat by lia.
    by rewrite app_nil_r.
Qed.

Lemma extend_justified_slots_returns s b : returns (extend_justified_slots s b).
Proof.
  unfold extend_justified_slots. case_match; [|done]. apply returns_bind.
  - case_if; [|done]. apply returns_bind; [auto with res|done].
  - intros js _. case_if; [|done]. case_match; auto with res. done.
Qed.

(** Everything a successful header step does. *)
Record header_step (s : LeanState) (b : Block) (s' : LeanState) : Prop := {
  hs_slot : blk_slot b = slot s;
  hs_newer : header_slot s < blk_slot b;
  hs_proposer : (0 < validators_len s)%nat /\
    slot s mod Z.of_nat (validators_len s) = blk_proposer_index b;
  hs_parent : blk_parent_root b = tree_hash_root (latest_block_header s);
  hs_header : latest_block_header s' =
    mkBlockHeader (blk_slot b) (blk_proposer_index b) (blk_parent_root b) B256_ZERO
      (tree_hash_root (blk_body b));
  hs_history : history s' = history s ++ blk_parent_root b ::
    replicate (Z.to_nat (blk_slot b - header_slot s - 1)) B256_ZERO;
  hs_capacity : Z.of_nat (length (history s')) <= U262144;
  hs_window : bl_iter (justified_slots s') = bl_iter (justified_slots s) ++
    replicate (Z.to_nat (blk_slot b - 1 - fin_slot s)
               - length (bl_iter (justified_slots s))) false;
  hs_checkpoints :
    (latest_justified s', latest_finalized s') =
    if header_slot s =? 0
    then (mkCheckpoint (blk_parent_root b) (just_slot s), mkCheckpoint (blk_parent_root b) (fin_slot s))
    else (latest_justified s, latest_finalized s);
  hs_frame : config s' = config s /\ slot s' = slot s /\ validators s' = validators s /\
    justifications_roots s' = justifications_roots s /\
    justifications_validators s' = justifications_validators s;
}.

Lemma process_block_header_spec s b s' :
  wf s -> process_block_header s b = Ok s' -> header_step s b s'.
Proof.
  intros W. pose proof (wf_fin_bound _ W) as Hf. pose proof (wf_slot _ W) as Hs.
  pose proof (wf_slot_u64 _ W). unfold process_block_header.
  set (s0 := if header_slot s =? 0 then _ else s).
  assert (Hs0 : header_slot s0 = header_slot s /\ fin_slot s0 = fin_slot s /\
    historical_block_hashes s0 = historical_block_hashes s /\
    justified_slots s0 = justified_slots s /\ config s0 = config s /\
    slot s0 = slot s /\ validators s0 = validators s /\
    justifications_roots s0 = justifications_roots s /\
    justifications_validators s0 = justifications_validators s /\
    (latest_justified s0, latest_finalized s0) =
    if header_slot s =? 0
    then (mkCheckpoint (blk_parent_root b) (just_slot s), mkCheckpoint (blk_parent_root b) (fin_slot s))
    else (latest_justified s, latest_finalized s)).
  { unfold s0. by destruct (header_slot s =? 0). }
  clearbody s0. destruct Hs0 as (E1 & E2 & E3 & E4 & E5 & E6 & E7 & E8 & E9 & E10).
  intros H1. res_inv H1. b2p. unfold state_is_proposer, is_proposer in Hb1. case_if; [done|].
  res_inv Hb1. b2p. unfold U262144 in *.
  rewrite E1, E3 in *. apply extend_history_spec in Hb4 as [Hh Hc].
  repeat rewrite u64_sub_id in Hh by u64_solve.
  apply extend_justified_slots_spec in Hb5; cbn; rewrite ?E1, ?E2, ?E4;
    [|u64_solve|done|apply W|done].
  cbn in Hb5. rewrite E2, E4 in Hb5.
  split; try done. split; [lia|done].
Qed.

Lemma process_block_header_returns s b :
  (0 < validators_len s)%nat -> returns (process_block_header s b).
Proof.
  intros Hn. unfold process_block_header.
  repeat returns_step.
  apply returns_bind.
  { unfold state_is_proposer, is_proposer. case_if; b2p; [lia|done]. }
  intros. repeat returns_step.
  apply returns_bind; [apply extend_justified_slots_returns|]. done.
Qed.

(** With no validator in the registry the proposer check divides by zero. *)
Lemma process_block_header_panics s b :
  validators_len s = 0%nat -> blk_slot b = slot s -> header_slot s < blk_slot b ->
  process_block_header s b = Panic.
Proof.
  intros Hn H1 H2. unfold process_block_header.
  rewrite H1, Z.eqb_refl in *. rewrite (proj2 (Z.ltb_lt (header_slot s) (slot s))) by lia. cbn.
  unfold state_is_proposer, is_proposer. by rewrite Hn.
Qed.

Lemma window_slots_falses f bits n : window_slots f (bits ++ replicate n false) = window_slots f bits.
Proof.
  apply set_eq. intros sl. rewrite !elem_of_window_slots, lookup_app.
  destruct (bits !! _); [done|]. rewrite lookup_replicate. naive_solver.
Qed.

Lemma sf_wf_extend chain chain' n A : sf_wf chain n A -> sf_wf (chain ++ chain') n A.
Proof.
  intros [? ? Hs Hj Hf Hv]. split; try done.
  - intros sl Hsl. specialize (Hs sl Hsl). rewrite length_app. lia.
  - by apply lookup_app_l_Some.
  - by apply lookup_app_l_Some.
  - intros root V HV. destruct (Hv _ _ HV) as (? & ? & i & ? & ?). split_and!; [done..|].
    exists i. split; [done|]. by apply lookup_app_l_Some.
Qed.

Lemma pending_votes_frame s s' :
  validators s' = validators s -> justifications_roots s' = justifications_roots s ->
  justifications_validators s' = justifications_validators s ->
  pending_votes s' = pending_votes s.
Proof. unfold pending_votes, validators_len. by intros -> -> ->. Qed.

Lemma header_step_sf_of s b s' :
  header_step s b s' -> header_slot s <> 0 -> sf_of s' = sf_of s.
Proof.
  intros Hs Hn. pose proof (hs_checkpoints _ _ _ Hs) as Hc.
  rewrite (proj2 (Z.eqb_neq _ _)) in Hc by done. injection Hc as Hj Hf.
  destruct (hs_frame _ _ _ Hs) as (_ & _ & Hv & Hr & Hb). unfold sf_of.
  rewrite Hj, Hf, (hs_window _ _ _ Hs), window_slots_falses.
  by rewrite (pending_votes_frame s s').
Qed.

Lemma process_block_header_wf s b s' :
  wf s -> process_block_header s b = Ok s' -> wf s'.
Proof.
  intros W H. pose proof (process_block_header_spec _ _ _ W H) as P.
  pose proof (wf_slot _ W) as Hsl. pose proof (wf_hist _ W) as Hhl.
  destruct (hs_frame _ _ _ P) as (Hc & Hs & Hv & Hr & Hb).
  assert (Hn : validators_len s' = validators_len s) by (unfold validators_len; by rewrite Hv).
  pose proof (hs_history _ _ _ P) as Hh. pose proof (hs_newer _ _ _ P) as Hnew.
  pose proof (hs_slot _ _ _ P) as Hbs. pose proof (hs_capacity _ _ _ P) as Hcap.
  pose proof (hs_window _ _ _ P) as Hw. pose proof (wf_win _ W) as Hwl.
  pose proof (hs_checkpoints _ _ _ P) as Hcp. pose proof (wf_fin_bound _ W) as Hfb.
  assert (Hlen : Z.of_nat (length (history s')) = blk_slot b).
  { rewrite Hh, length_app. cbn. rewrite length_replicate. lia. }
  assert (Hslots : fin_slot s' = fin_slot s /\ just_slot s' = just_slot s).
  { destruct (header_slot s =? 0); by injection Hcp as -> ->. }
  destruct Hslots as [Hfs Hjs].
  split; rewrite ?(hs_header _ _ _ P), ?Hfs, ?Hjs, ?Hn, ?Hr, ?Hb; cbn; try apply W; try lia.
  - rewrite Hs. apply W.
  - rewrite Hw, length_app, length_replicate. lia.
  - intros _. destruct (decide (header_slot s = 0)) as [Hz|Hz].
    + destruct (wf_genesis _ W Hz) as (Hf0 & Hj0 & Hr0). rewrite Hz in Hcp. cbn in Hcp.
      injection Hcp as Hj Hf. assert (Hhist : history s = []).
      { apply nil_length_inv. lia. }
      rewrite Hhist in Hh. cbn in Hh.
      assert (Hwin : bl_iter (justified_slots s) = []) by (apply nil_length_inv; lia).
      rewrite Hwin in Hw. cbn in Hw.
      split; cbn; rewrite ?Hfs, ?Hjs, ?Hf0, ?Hj0, ?Hh, ?Hw.
      * lia.
      * apply sf_is_justified_true. cbn. rewrite Hfs. left. lia.
      * intros sl [? Hx]%elem_of_window_slots. rewrite lookup_replicate in Hx. naive_solver.
      * by rewrite Hj.
      * by rewrite Hf.
      * intros root V. unfold pending_votes. rewrite Hr, Hr0. cbn.
        by rewrite lookup_fmap, lookup_empty.
    + rewrite (header_step_sf_of s b s') by done. rewrite Hh. apply sf_wf_extend.
      apply W. lia.
Qed.
End invariant.
