(* ===== verification/LeanTransition.v ===== *)
(** * Attestation processing and the whole transition

    [process_attestations] as a fold of the abstract 3SF-mini step, the invariant
    through [process_block] and [state_transition], and that neither panics on a
    registry with validators. *)

From S2P Require Import Prelude Ssz Slot LeanTypes LeanState LeanStateFacts.
From S2P Require Import ThreeSF LeanRefinement LeanEncoding LeanInvariant.

Section transition.
Context {SS : SszTypes} {SL : SszLaws SS}.
Context {HS : TreeHash LeanState} {HH : TreeHash BlockHeader} {HB : TreeHash BlockBody}
        {HA : TreeHash AttestationData}.

Abbreviation header_slot s := (hdr_slot (latest_block_header s)).
Abbreviation fin_slot s := (cp_slot (latest_finalized s)).
Abbreviation just_slot s := (cp_slot (latest_justified s)).

(** ** [root_to_slot] *)

Lemma root_to_slot_fold (h : list B256) start n root :
  0 <= start ->
  let m := foldl (fun m index =>
             match h !! Z.to_nat index with Some hash => <[hash := index]> m | None => m end)
             (∅ : gmap B256 Z) (seqZ start (Z.of_nat n)) in
  (forall i, m !! root = Some i -> start <= i < start + Z.of_nat n /\ h !! Z.to_nat i = Some root) /\
  (forall j, start <= j < start + Z.of_nat n -> h !! Z.to_nat j = Some root ->
     exists i, m !! root = Some i /\ j <= i).
Proof.
  intros Hs. induction n as [|n IH]; cbv zeta in *.
  - change (seqZ start (Z.of_nat 0)) with (@nil Z). cbn.
    split; [by intros i ?%lookup_empty_Some|lia].
  - rewrite Nat2Z.inj_succ, <-Z.add_1_r, seqZ_app by lia. rewrite foldl_app.
    destruct IH as [IH1 IH2]. revert IH1 IH2.
    generalize (foldl (fun m index => match h !! Z.to_nat index with
      | Some hash => <[hash := index]> m | None => m end) (∅ : gmap B256 Z)
      (seqZ start (Z.of_nat n))) as m0. intros m0 IH1 IH2.
    replace (seqZ (start + Z.of_nat n) 1) with [start + Z.of_nat n]
      by (unfold seqZ; cbn; f_equal; lia). cbn.
    destruct (h !! Z.to_nat (start + Z.of_nat n)) as [hash|] eqn:Hh.
    + split.
      * intros i. rewrite lookup_insert. case_decide; [subst; intros [= <-]; split; [lia|done]|].
        intros [? ?]%IH1. split; [lia|done].
      * intros j Hj Hr. rewrite lookup_insert. case_decide as Hd; [eexists; split; [done|lia]|].
        apply IH2; [|done]. assert (j <> start + Z.of_nat n) by (intros ->; simplify_eq). lia.
    + split; [intros i [? ?]%IH1; split; [lia|done]|].
      intros j Hj Hr. apply IH2; [|done].
      assert (j <> start + Z.of_nat n) by (intros ->; simplify_eq). lia.
Qed.

Lemma build_root_to_slot_spec s c root :
  0 <= fin_slot s <= U262144 -> fin_slot s <= c ->
  match build_root_to_slot s !! root with Some i => c <? i | None => false end
  = root_after (history s) c root.
Proof.
  intros Hf Hc. unfold build_root_to_slot, U262144 in *. u64_simpl.
  rewrite range_seqZ.
  pose proof (root_to_slot_fold (history s) (fin_slot s + 1)
    (Z.to_nat (Z.of_nat (length (history s)) - (fin_slot s + 1))) root ltac:(lia))
    as [H1 H2]. cbv zeta in H1, H2.
  destruct (foldl _ _ _ !! root) as [i|].
  - destruct (H1 i eq_refl) as [Hi Hl]. destruct (Z.ltb_spec c i); symmetry.
    + apply root_after_true; [lia|]. eauto.
    + apply not_true_iff_false. intros Hr. apply root_after_true in Hr as (j & Hj & Hlj); [|lia].
      pose proof (lookup_lt_Some _ _ _ Hlj).
      destruct (H2 j ltac:(lia) Hlj) as (i' & [= <-] & ?). lia.
  - symmetry. apply not_true_iff_false. intros Hr.
    apply root_after_true in Hr as (j & Hj & Hlj); [|lia].
    pose proof (lookup_lt_Some _ _ _ Hlj).
    destruct (H2 j ltac:(lia) Hlj) as (i' & [=] & _).
Qed.

Lemma wf_loop_pre s : wf s -> loop_pre (build_root_to_slot s) s.
Proof.
  intros W. pose proof (wf_fin_bound _ W). pose proof (wf_hist _ W). pose proof (wf_cap _ W).
  pose proof (wf_win _ W). split; [done|lia|unfold U262144 in *; lia|].
  intros. by apply build_root_to_slot_spec.
Qed.

(** ** The attestation loop *)

(** The fold of the abstract step over the attestations of a block. *)
Definition sf_attestations (chain : list B256) (n : nat) (A : SF)
    (attestations : list AggregatedAttestation) : SF :=
  foldl (fun A a => sf_step chain n A (aa_message a) (signers (bl_iter (aa_aggregation_bits a))))
    A attestations.

Lemma sf_attestations_wf chain n A atts :
  sf_wf chain n A -> sf_wf chain n (sf_attestations chain n A atts).
Proof.
  revert A. induction atts as [|a atts IH]; intros A W; [done|]. cbn. apply IH, sf_step_wf, W.
Qed.

Definition atts_u64 (atts : list AggregatedAttestation) : Prop :=
  Forall (fun a => att_u64 (aa_message a)) atts.

(** The loop keeps one bit of window per slot below the latest block, and every
    pending tally has one bit per validator. *)
Definition loop_shape (s : LeanState) (m : gmap B256 BitList) : Prop :=
  length (bl_iter (justified_slots s)) = Z.to_nat (header_slot s - 1 - fin_slot s) /\
  forall root b, m !! root = Some b -> length (bl_iter b) = validators_len s.

Lemma finalize_shape r s m c s' m' :
  Z.of_nat (length (bl_iter (justified_slots s))) <= U262144 ->
  0 <= fin_slot s < cp_slot c -> cp_slot c <= U262144 ->
  loop_shape s m -> finalize r s m c = Ok (s', m') -> loop_shape s' m'.
Proof.
  intros Hw Hc Hcu [Hwin Hm]. unfold finalize, U262144 in *. u64_simpl.
  rewrite (proj2 (Nat.ltb_lt 0 _)) by lia. intros H. res_inv H.
  apply rebase_justified_slots_spec in Hb0 as [Hd Hbits]; [|unfold U262144; lia..].
  split; cbn.
  - rewrite Hbits, length_drop. lia.
  - intros root b [Hb' _]%map_retain_Some. by eapply Hm.
Qed.

Lemma process_attestation_shape r s m a s' m' :
  loop_pre r s -> att_u64 (aa_message a) ->
  loop_shape s m -> process_attestation r (s, m) a = Ok (s', m') -> loop_shape s' m'.
Proof.
  intros P (Hus & Hut & Huh) Sh. pose proof (lp_fin _ _ P) as Hf. pose proof (lp_win _ _ P) as Hw.
  unfold process_attestation, aa_source, aa_target. set (d := aa_message a) in *. intros H.
  res_inv H. case_if; [by injection H as <- <-|]. case_if; [by injection H as <- <-|].
  res_inv H. case_if; [by injection H as <- <-|]. rewrite attestation_data_matches_chain_sim in H.
  case_if; [by injection H as <- <-|]. case_if; [by injection H as <- <-|].
  case_if; [by injection H as <- <-|]. res_inv H.
  apply bl_with_capacity_Some in Hb1 as [Hfresh _]. destruct Sh as [Hwin Hm].
  apply record_votes_spec in Hb2 as [Hlen _].
  assert (Sh1 : loop_shape s (<[cp_root (ad_target d) := v2]> m)).
  { split; [done|]. intros root b Hl. rewrite lookup_insert in Hl. case_decide; simplify_eq; [|by eapply Hm].
    rewrite Hlen. destruct (m !! cp_root (ad_target d)) eqn:Hmm; cbn; [by eapply Hm|].
    by rewrite Hfresh, length_replicate. }
  case_if; [|by injection H as <- <-]. unfold justify in H.
  set (s0 := if just_slot s <? cp_slot (ad_target d) then _ else s) in H.
  assert (Hs0 : latest_finalized s0 = latest_finalized s /\ justified_slots s0 = justified_slots s
    /\ header_slot s0 = header_slot s /\ validators_len s0 = validators_len s)
    by (unfold s0; by case_if).
  clearbody s0. destruct Hs0 as (E1 & E2 & E3 & E4). rewrite E1, E2 in H. res_inv H.
  assert (Hjs : length (bl_iter v3) = length (bl_iter (justified_slots s))).
  { destruct (justified_index_after _ _); [|by injection Hb1 as <-]. res_inv Hb1. apply bl_set_Some in Hb1 as [_ ->].
    apply length_insert. }
  assert (Sh2 : loop_shape (set_justified_slots v3 s0)
    (delete (cp_root (ad_target d)) (<[cp_root (ad_target d) := v2]> m))).
  { split; cbn; [by rewrite Hjs, E1, E3|].
    intros root b [_ Hl]%lookup_delete_Some. change (validators_len _) with (validators_len s0).
    rewrite E4. by eapply Sh1. }
  case_if; [|by injection H as <- <-].
  unfold is_target_next_valid_justifiable_slot in *. b2p. cbn in *. rewrite E1 in *.
  match goal with Hc : on_chain _ (ad_source d) = true |- _ =>
    apply on_chain_true in Hc as [_ Hc%lookup_lt_Some] end.
  pose proof (lp_hist _ _ P). unfold is_u64 in Hus.
  eapply finalize_shape; [..|exact Sh2|exact H]; cbn; rewrite ?Hjs, ?E1; [done|lia|].
  unfold U262144 in *. lia.
Qed.

(** The loop of [process_attestations] is the fold of the abstract step. *)
Lemma attestation_loop_sim r atts : forall s m s' m',
  loop_pre r s -> loop_shape s m -> atts_u64 atts ->
  foldM (process_attestation r) (s, m) atts = Ok (s', m') ->
  alpha s' m' = sf_attestations (history s) (validators_len s) (alpha s m) atts /\
  same_chain s s' /\ loop_shape s' m'.
Proof.
  induction atts as [|a atts IH]; intros s m s' m' P Sh Hu.
  - cbn. by intros [= <- <-].
  - apply Forall_cons in Hu as [Hua Hu]. cbn [foldM]. intros H.
    apply bind_Ok in H as ([s1 m1] & H1 & H).
    pose proof (process_attestation_shape _ _ _ _ _ _ P Hua Sh H1) as Sh1.
    apply process_attestation_sim in H1 as (Ha & Hc & P1); [|done..].
    apply IH in H as (-> & Hc2 & Sh2); [|done..].
    assert (Hh : history s1 = history s /\ validators_len s1 = validators_len s).
    { destruct Hc as (_ & _ & _ & Hx & Hy). unfold history, validators_len. by rewrite Hx, Hy. }
    destruct Hh as [-> ->]. rewrite Ha. split_and!; [done|by etrans|done].
Qed.

Lemma pending_bits_length s root bits :
  wf s -> pending_votes s !! root = Some bits -> length bits = validators_len s.
Proof.
  intros W H. apply pending_votes_Some in H as (i & Hi & ->);
    [|eapply StronglySorted_lt_NoDup, W].
  apply length_chunk. rewrite (wf_votes _ W). apply lookup_lt_Some in Hi. nia.
Qed.

Lemma decode_shape s m :
  wf s -> decode_justifications s = Ok m ->
  alpha s m = sf_of s /\ loop_shape s m.
Proof.
  intros W H. apply decode_justifications_spec in H; [|eapply StronglySorted_lt_NoDup, W].
  split; [by apply alpha_sf_of|]. split; [apply W|]. intros root b Hb.
  apply (pending_bits_length s root); [done|]. by rewrite <-H, lookup_fmap, Hb.
Qed.

(** What a successful [process_attestations] went through: the pending votes decoded,
    the loop, and the votes that are left encoded again. *)
Lemma process_attestations_loop s atts s' :
  wf s -> process_attestations s atts = Ok s' ->
  exists m s1 m1, alpha s m = sf_of s /\ loop_shape s m /\
    foldM (process_attestation (build_root_to_slot s)) (s, m) atts = Ok (s1, m1) /\
    encode_justifications s1 m1 = Ok s' /\ sf_of s' = alpha s1 m1.
Proof.
  intros W. unfold process_attestations. intros H. res_inv H.
  apply decode_shape in Hb3 as [Ha Sh]; [|done]. destruct v4 as [s1 m1].
  exists v3, s1, m1. split_and!; [done..|].
  pose proof (pending_votes_encode _ _ _ H) as Hp.
  apply encode_justifications_spec in H as (Hs & _).
  symmetry. rewrite Hs in Hp |- *. unfold alpha, sf_of. cbn. f_equal.
  rewrite Hp. unfold tally. by rewrite <-map_fmap_compose.
Qed.

(** [process_attestations] computes the abstract step over the block's attestations
    on the state it stands for. *)
Lemma process_attestations_sim s atts s' :
  wf s -> atts_u64 atts -> process_attestations s atts = Ok s' ->
  sf_of s' = sf_attestations (history s) (validators_len s) (sf_of s) atts /\
  same_chain s s' /\
  length (bl_iter (justified_slots s')) = Z.to_nat (header_slot s' - 1 - fin_slot s') /\
  length (bl_iter (justifications_validators s'))
    = (length (vl_iter (justifications_roots s')) * validators_len s')%nat /\
  StronglySorted Z.lt (vl_iter (justifications_roots s')).
Proof.
  intros W Hu (m & s1 & m1 & Ha & Sh & Hl & He & ->)%process_attestations_loop; [|done].
  apply attestation_loop_sim in Hl as (Ha1 & Hc & Sh1); [|by apply wf_loop_pre|done..].
  apply encode_justifications_spec in He as (Hs & Hr & Hv & Hf).
  rewrite Ha1, Ha. split_and!; [done|..].
  - rewrite Hs. done.
  - destruct Sh1 as [Hwin _]. rewrite Hs. done.
  - rewrite Hv, Hr, (length_concat_uniform (validators_len s1)), length_fmap; [by rewrite Hs|].
    by apply Forall_fmap.
  - rewrite Hr. apply sorted_keys_sorted.
Qed.

(** ** The invariant through a block *)

Lemma process_attestations_wf s atts s' :
  wf s -> 0 < header_slot s -> atts_u64 atts ->
  process_attestations s atts = Ok s' -> wf s'.
Proof.
  intros W Hh Hu H. pose proof (wf_sf _ W Hh) as F.
  apply process_attestations_sim in H as (Hsf & Hc & Hwin & Hv & Hs); [|done..].
  pose proof (sf_attestations_wf _ _ _ atts F) as F'. rewrite <-Hsf in F'.
  destruct Hc as (Hc1 & Hc2 & Hc3 & Hc4 & Hc5).
  assert (Hhist : history s' = history s) by (unfold history; by rewrite Hc4).
  assert (Hn : validators_len s' = validators_len s) by (unfold validators_len; by rewrite Hc5).
  split; rewrite ?Hc2, ?Hhist, ?Hn, ?Hc3; try apply W; try done.
  - by rewrite Hc3 in Hwin.
  - exact (sfw_order _ _ _ F').
  - by rewrite Hn in Hv.
  - lia.
Qed.

(** The 64-bit fields of a block. *)
Definition block_u64 (b : Block) : Prop :=
  is_u64 (blk_slot b) /\ atts_u64 (vl_iter (body_attestations (blk_body b))).

Lemma process_block_wf s b s' :
  wf s -> block_u64 b -> process_block s b = Ok s' -> wf s'.
Proof.
  intros W [_ Hu]. unfold process_block. intros H. res_inv H.
  pose proof (process_block_header_wf _ _ _ W Hb) as W1.
  pose proof (process_block_header_spec _ _ _ W Hb) as P.
  eapply process_attestations_wf; [exact W1| |exact Hu|exact H].
  rewrite (hs_header _ _ _ P). cbn. pose proof (hs_newer _ _ _ P). pose proof (wf_slot _ W). lia.
Qed.

Lemma state_transition_wf s b sigs s' :
  wf s -> block_u64 b -> state_transition s b sigs = Ok s' -> wf s'.
Proof.
  intros W Hb. unfold state_transition. intros H. res_inv H.
  eapply process_block_wf; [|done|done]. eapply process_slots_wf; [done| |done]. apply Hb.
Qed.

(** ** Returning *)

Lemma slot_is_justified_returns s sl : returns (slot_is_justified s sl).
Proof. unfold slot_is_justified. case_match; [auto with res|done]. Qed.

Lemma process_attestation_returns r st a : returns (process_attestation r st a).
Proof.
  destruct st as [s m]. unfold process_attestation.
  apply returns_bind; [apply slot_is_justified_returns|]. intros v _.
  do 2 (case_if; [done|]). apply returns_bind; [apply slot_is_justified_returns|]. intros v' _.
  do 4 (case_if; [done|]). do 2 returns_step. case_if; [|done]. unfold justify.
  apply returns_bind; [case_match; [auto with res|done]|]. intros js _. case_if; [|done].
  unfold finalize. apply returns_bind; [|by intros [] _]. case_if; [|done].
  returns_step. done.
Qed.

Lemma process_attestations_returns s atts : returns (process_attestations s atts).
Proof.
  unfold process_attestations. repeat returns_step.
  apply returns_bind; [|intros [] _; auto with res].
  apply (foldM_returns (fun _ => True)); [done| |done].
  intros. apply process_attestation_returns.
Qed.

Lemma state_transition_total s b sigs :
  0 <= slot s -> is_u64 (blk_slot b) -> (0 < validators_len s)%nat ->
  returns (state_transition s b sigs).
Proof.
  intros Hs Hb Hn. unfold state_transition. returns_step.
  apply returns_bind; [apply process_slots_returns; [done|apply Hb]|]. intros s1 H1.
  apply process_slots_Ok in H1 as (_ & _ & h & -> & _); [|done|apply Hb].
  apply returns_bind; [|intros; by repeat returns_step].
  unfold process_block. apply returns_bind; [by apply process_block_header_returns|].
  intros. apply process_attestations_returns.
Qed.
End transition.
