(* ===== verification/ProofSelection.v ===== *)
(** * Choosing aggregate proofs greedily

    [LeanState::extend_proofs_greedily]: repeatedly take the proof that adds most
    validators.  The iteration order of the hash set of proofs is an argument; the
    theorems hold for every order. *)

From S2P Require Import Prelude Ssz LeanTypes LeanRefinement.

(** ** [Iterator::max_by_key] and [Vec::swap_remove] *)

(** The last of the elements with the largest key. *)
Definition max_by_key {A} (key : A -> nat) (l : list A) : option A :=
  max_by (fun a b => (key a <=? key b)%nat) l.

(** The element at the index, and the vector with the last element in its place; [None]
    is the panic for an index out of range. *)
Definition swap_remove {A} (l : list A) (i : nat) : option (A * list A) :=
  x ← l !! i;
  lst ← last l;
  Some (x, take (length l - 1) (<[i := lst]> l)).

Lemma max_by_key_Some {A} (key : A -> nat) l m :
  max_by_key key l = Some m -> m ∈ l /\ forall a, a ∈ l -> (key a <= key m)%nat.
Proof.
  intros H. apply max_by_Some in H as [H1 H2]; [|intros; rewrite ?Nat.leb_le in *; b2p; lia..].
  split; [done|]. intros a Ha. by apply Nat.leb_le, H2.
Qed.

Lemma swap_remove_perm {A} (l : list A) i x l' :
  swap_remove l i = Some (x, l') -> l !! i = Some x /\ l ≡ₚ x :: l'.
Proof.
  unfold swap_remove. intros (y & Hy & H)%bind_Some. apply bind_Some in H as (z & Hz & [= -> <-]).
  split; [done|]. apply last_Some in Hz as [l0 ->].
  rewrite length_app, Nat.add_sub. cbn.
  destruct (decide (i < length l0)%nat).
  - rewrite insert_app_l by done. rewrite take_app_le by (by rewrite length_insert).
    rewrite take_ge by (by rewrite length_insert). rewrite lookup_app_l in Hy by done.
    apply take_drop_middle in Hy as Heq. rewrite <-Heq at 1.
    rewrite insert_take_drop by done.
    solve_Permutation.
  - assert (i = length l0) as ->.
    { apply lookup_lt_Some in Hy. rewrite length_app in Hy. cbn in Hy. lia. }
    rewrite list_lookup_middle in Hy by done. injection Hy as ->.
    rewrite insert_app_r_alt by done. rewrite Nat.sub_diag. cbn.
    rewrite take_app_length. by rewrite Permutation_app_comm.
Qed.

Lemma swap_remove_is_Some {A} (l : list A) i :
  (i < length l)%nat -> exists x l', swap_remove l i = Some (x, l').
Proof.
  intros Hi. unfold swap_remove. destruct (lookup_lt_is_Some_2 _ _ Hi) as [x ->]. cbn.
  destruct (last l) eqn:Hl; cbn; [eauto|]. apply last_None in Hl. subst. cbn in Hi. lia.
Qed.

(** ** The greedy loop *)

Section greedy.
Context {SS : SszTypes}.

(** How many validators a proof adds. *)
Definition fresh_participants (covered_validators : gset Z) (proof : SingleMessageAggregate) : nat :=
  length (filter (fun '(validator_id, signed) =>
      (signed : bool) = true /\ Z.of_nat validator_id ∉ covered_validators)
    (enumerate (bl_iter (sma_participants proof)))).

Definition cover (covered_validators : gset Z) (proof : SingleMessageAggregate) : gset Z :=
  foldl (fun c '(validator_id, signed) => if (signed : bool) then {[Z.of_nat validator_id]} ∪ c else c)
    covered_validators (enumerate (bl_iter (sma_participants proof))).

(** The [while] loop; [fuel] is the number of proofs that remain. *)
Fixpoint extend_loop {E} (fuel : nat) (remaining : list SingleMessageAggregate)
    (selected_proofs : list SingleMessageAggregate) (covered_validators : gset Z)
  : res E (list SingleMessageAggregate * gset Z) :=
  if bool_decide (remaining = []) then Ok (selected_proofs, covered_validators) else
  match fuel with
  | O => NoFuel
  | S fuel =>
      let best_selection :=
        max_by_key snd ((fun '(index, proof) => (index, fresh_participants covered_validators proof))
          <$> enumerate remaining) in
      match best_selection with
      | None => Ok (selected_proofs, covered_validators)
      | Some (best_index, count) =>
          if (count =? 0)%nat then Ok (selected_proofs, covered_validators) else
          match swap_remove remaining best_index with
          | None => Panic
          | Some (best, remaining) =>
              extend_loop fuel remaining (selected_proofs ++ [best]) (cover covered_validators best)
          end
      end
  end.

Definition extend_proofs_greedily {E} (proofs : option (list SingleMessageAggregate))
    (selected_proofs : list SingleMessageAggregate) (covered_validators : gset Z)
  : res E (list SingleMessageAggregate * gset Z) :=
  match proofs with
  | None => Ok (selected_proofs, covered_validators)
  | Some proofs => extend_loop (length proofs) proofs selected_proofs covered_validators
  end.

(** ** What the loop computes *)

Definition participants (p : SingleMessageAggregate) : gset Z := signers (bl_iter (sma_participants p)).

Definition union_participants (ps : list SingleMessageAggregate) : gset Z := ⋃ (participants <$> ps).

Lemma cover_spec c p : cover c p = c ∪ participants p.
Proof.
  apply set_eq. intros v. unfold cover, participants. rewrite elem_of_union, elem_of_signers.
  assert (H : forall l k (c : gset Z), v ∈ foldl (fun c '(i, signed) => if (signed : bool) then {[Z.of_nat i]} ∪ c else c)
      c (enumerate_from k l) <-> v ∈ c \/ exists i, v = Z.of_nat (k + i) /\ l !! i = Some true).
  { clear. induction l as [|b l IH]; intros k c.
    - cbn. naive_solver.
    - rewrite enumerate_from_cons. cbn [foldl]. rewrite IH. split.
      + intros [Hc|(i & -> & Hi)].
        * destruct b; [|by left]. apply elem_of_union in Hc as [Hc%elem_of_singleton|?]; [|by left].
          right. exists 0%nat. split; [lia|done].
        * right. exists (S i). split; [lia|done].
      + intros [Hc|([|i] & -> & Hi)].
        * left. case_if; [set_solver|done].
        * cbn in Hi. injection Hi as ->. left. rewrite Nat.add_0_r. set_solver.
        * right. exists i. split; [lia|done]. }
  change (enumerate (bl_iter (sma_participants p)))
    with (enumerate_from 0 (bl_iter (sma_participants p))). rewrite H. cbn. split.
  - intros [?|(i & -> & Hi)]; [by left|right]. split; [lia|]. by rewrite Nat2Z.id.
  - intros [?|[Hv Hi]]; [by left|right]. exists (Z.to_nat v). split; [lia|done].
Qed.

Lemma fresh_participants_0 c p : fresh_participants c p = 0%nat <-> participants p ⊆ c.
Proof.
  unfold fresh_participants, participants. rewrite length_zero_iff_nil. split.
  - intros Hf v Hv. apply elem_of_signers in Hv as [Hv Hb].
    destruct (decide (v ∈ c)) as [|Hn]; [done|exfalso].
    assert (Hin : (Z.to_nat v, true) ∈ filter (fun '(validator_id, signed) =>
      (signed : bool) = true /\ Z.of_nat validator_id ∉ c)
      (enumerate (bl_iter (sma_participants p)))).
    { apply list_elem_of_filter. rewrite Z2Nat.id by done. split; [done|].
      by apply elem_of_enumerate. }
    rewrite Hf in Hin. by apply elem_of_nil in Hin.
  - intros Hs. apply list_nil_subseteq. intros [i b] [[-> Hn] Hi%elem_of_enumerate]%list_elem_of_filter. exfalso.
    apply Hn, Hs, elem_of_signers. rewrite Nat2Z.id. split; [lia|done].
Qed.

(** Each proof of the list brings in a validator the ones before it did not. *)
Fixpoint all_useful (c : gset Z) (ps : list SingleMessageAggregate) : Prop :=
  match ps with
  | [] => True
  | p :: ps' => ~ participants p ⊆ c /\ all_useful (c ∪ participants p) ps'
  end.

Lemma extend_loop_spec {E} n : forall remaining selected c,
  length remaining = n ->
  exists chosen rest,
    extend_loop (E := E) n remaining selected c
      = Ok (selected ++ chosen, c ∪ union_participants chosen) /\
    remaining ≡ₚ chosen ++ rest /\ all_useful c chosen /\
    union_participants rest ⊆ c ∪ union_participants chosen.
Proof.
  induction n as [|n IH]; intros remaining selected c Hn.
  - apply nil_length_inv in Hn. subst. exists [], []. cbn.
    rewrite app_nil_r, union_empty_r_L. set_solver.
  - destruct remaining as [|p0 ps] eqn:Hr; [done|]. rewrite <-Hr in *. cbn [extend_loop].
    rewrite bool_decide_eq_false_2 by (by subst).
    destruct (max_by_key _ _) as [[i k]|] eqn:Hm.
    2: { exfalso. by subst. }
    apply max_by_key_Some in Hm as [Hin Hmax].
    apply list_elem_of_fmap in Hin as ([i' p] & [= -> ->] & Hi%elem_of_enumerate).
    destruct (Nat.eqb_spec (fresh_participants c p) 0) as [Hz|Hz].
    + exists [], remaining. cbn. rewrite app_nil_r, union_empty_r_L.
      split_and!; [done..|]. intros v Hv. apply elem_of_union_list in Hv as (X & HX & Hv).
      apply list_elem_of_fmap in HX as (q & -> & [j Hj]%list_elem_of_lookup).
      assert (Hq : (j, fresh_participants c q) ∈ (fun '(index, proof) =>
        (index, fresh_participants c proof)) <$> enumerate remaining).
      { apply list_elem_of_fmap. exists (j, q). split; [done|]. by apply elem_of_enumerate. }
      apply Hmax in Hq. cbn in Hq. rewrite Hz in Hq.
      by apply (proj1 (fresh_participants_0 c q) ltac:(lia)).
    + destruct (swap_remove_is_Some remaining i') as (x & l' & Hs); [by eapply lookup_lt_Some|].
      rewrite Hs. apply swap_remove_perm in Hs as [Hx Hp]. rewrite Hi in Hx. injection Hx as ->.
      rewrite cover_spec.
      destruct (IH l' (selected ++ [x]) (c ∪ participants x)) as (chosen & rest & H1 & H2 & H3 & H4).
      { apply Permutation_length in Hp. cbn in Hp. lia. }
      exists (x :: chosen), rest. rewrite H1. unfold union_participants in *. cbn.
      rewrite union_assoc_L, <-app_assoc in *. split_and!; [done| | |done|done].
      * by rewrite Hp, H2.
      * by rewrite <-fresh_participants_0.
Qed.
End greedy.
