(* ===== verification/LeanAcceptance.v ===== *)
(** * When the transition accepts a block

    The state transition does not only keep the invariant when it succeeds: on a
    well-formed state a block whose header and attestations are in range is
    accepted. *)

From S2P Require Import Prelude Ssz Slot LeanTypes LeanState LeanStateFacts.
From S2P Require Import ThreeSF LeanRefinement LeanEncoding LeanInvariant LeanTransition.

Section acceptance.
Context {SS : SszTypes} {SL : SszLaws SS}.
Context {HS : TreeHash LeanState} {HH : TreeHash BlockHeader} {HB : TreeHash BlockBody}
        {HA : TreeHash AttestationData}.

Abbreviation header_slot s := (hdr_slot (latest_block_header s)).
Abbreviation fin_slot s := (cp_slot (latest_finalized s)).

(** An attestation whose checkpoints are before the block that carries it and whose
    bits fit the registry. *)
Record att_in_range (s : LeanState) (a : AggregatedAttestation) : Prop := {
  ar_u64 : att_u64 (aa_message a);
  ar_source : cp_slot (aa_source a) < header_slot s;
  ar_target : cp_slot (aa_target a) < header_slot s;
  ar_bits : (length (bl_iter (aa_aggregation_bits a)) <= validators_len s)%nat;
}.

Lemma slot_is_justified_Ok s sl :
  is_u64 sl -> sl < header_slot s -> 0 <= fin_slot s <= U262144 ->
  length (bl_iter (justified_slots s)) = Z.to_nat (header_slot s - 1 - fin_slot s) ->
  exists b, slot_is_justified s sl = Ok b.
Proof.
  intros Hu Hlt Hf Hw. unfold slot_is_justified.
  destruct (justified_index_after _ _) eqn:Hj; [|by eexists].
  apply justified_index_after_Some in Hj as [? ->]; [|done|unfold U262144 in *; u64_solve].
  rewrite bl_get_spec.
  destruct (lookup_lt_is_Some_2 (bl_iter (justified_slots s)) (Z.to_nat (sl - fin_slot s - 1)))
    as [b ->]; [|by eexists].
  rewrite Hw. unfold is_u64 in Hu. lia.
Qed.

Lemma finalize_Ok r s m c :
  0 <= fin_slot s < cp_slot c -> cp_slot c < header_slot s -> header_slot s <= U262144 ->
  length (bl_iter (justified_slots s)) = Z.to_nat (header_slot s - 1 - fin_slot s) ->
  exists x, finalize r s m c = Ok x.
Proof.
  intros Hf Hc Hh Hw. unfold finalize, U262144 in *. u64_simpl.
  rewrite (proj2 (Nat.ltb_lt 0 _)) by lia.
  destruct (rebase_justified_slots_Ok (justified_slots s) (Z.to_nat (cp_slot c - fin_slot s)))
    as [js ->]; [unfold U262144; lia|lia|]. by eexists.
Qed.

Lemma justify_Ok r s m source target :
  fin_slot s < cp_slot target < header_slot s -> is_u64 (cp_slot source) ->
  cp_slot source < header_slot s -> 0 <= fin_slot s -> header_slot s <= U262144 ->
  length (bl_iter (justified_slots s)) = Z.to_nat (header_slot s - 1 - fin_slot s) ->
  exists x, justify r s m source target = Ok x.
Proof.
  intros Ht Hu Hs Hf Hh Hw. unfold justify.
  set (s0 := if _ <? _ then _ else s).
  assert (E : latest_finalized s0 = latest_finalized s /\ justified_slots s0 = justified_slots s
    /\ latest_block_header s0 = latest_block_header s) by (unfold s0; by case_if).
  clearbody s0. destruct E as (E1 & E2 & E3). rewrite E1, E2.
  destruct (justified_index_after _ _) eqn:Hj.
  2: { apply justified_index_after_None in Hj. lia. }
  apply justified_index_after_Some in Hj as [_ ->]; [|unfold U262144 in *; u64_solve..].
  destruct (bl_set_is_Some (justified_slots s) (Z.to_nat (cp_slot target - fin_slot s - 1)) true)
    as (js & -> & Hjs); [rewrite Hw; lia|]. cbn [mbind res_bind ok_or].
  case_if; [|by eexists]. unfold is_target_next_valid_justifiable_slot in *. b2p. cbn in *.
  rewrite E1 in *. apply finalize_Ok; cbn; rewrite ?E1, ?E3, ?Hjs, ?length_insert; lia.
Qed.

Lemma process_attestation_Ok r s m a :
  loop_pre r s -> loop_shape s m -> att_in_range s a ->
  header_slot s <= U262144 -> Z.of_nat (validators_len s) <= U4096 ->
  exists x, process_attestation r (s, m) a = Ok x.
Proof.
  intros P [Hw Hm] [(Hus & Hut & _) Hs Ht Hb] Hh Hn. pose proof (lp_fin _ _ P) as Hf.
  unfold process_attestation.
  destruct (slot_is_justified_Ok s (cp_slot (aa_source a))) as [b1 ->]; [done..|].
  cbn [mbind res_bind]. do 2 (case_if; [by eexists|]).
  destruct (slot_is_justified_Ok s (cp_slot (aa_target a))) as [b2 Hb2]; [done..|].
  rewrite Hb2. cbn [mbind res_bind]. do 4 (case_if; [by eexists|]).
  destruct (bl_with_capacity_is_Some U1073741824 (validators_len s)) as (fresh & -> & Hfr);
    [unfold U1073741824, U4096 in *; lia|]. cbn [mbind res_bind ok_or].
  destruct (record_votes_Ok (default fresh (m !! cp_root (aa_target a))) (aa_aggregation_bits a))
    as [j ->].
  { destruct (m !! cp_root (aa_target a)) eqn:Hmm; cbn; [by rewrite (Hm _ _ Hmm)|].
    by rewrite Hfr, length_replicate. }
  cbn [mbind res_bind]. case_if; [|by eexists]. b2p. apply justify_Ok; try done; [|lia].
  split; [|done]. apply (slot_is_justified_sim s m) in Hb2; [|done..].
  symmetry in Hb2. unfold sf_is_justified in Hb2. b2p. done.
Qed.

(** The pending roots are blocks of the chain, so there are no more of them. *)
Lemma pending_size s m :
  sf_wf (history s) (validators_len s) (alpha s m) -> (size m <= length (history s))%nat.
Proof.
  intros F. rewrite <-size_dom. transitivity (size (list_to_set (history s) : gset B256)).
  - apply subseteq_size. intros root [b Hb]%elem_of_dom. apply elem_of_list_to_set.
    destruct (sfw_votes _ _ _ F root (tally b)) as (_ & _ & i & _ & Hi);
      [cbn; by rewrite lookup_fmap, Hb|]. by eapply list_elem_of_lookup_2.
  - clear. induction (history s) as [|x l IH]; [done|]. cbn.
    pose proof (size_union_alt ({[x]} : gset B256) (list_to_set l)) as Hu.
    rewrite Hu, size_singleton.
    pose proof (subseteq_size (list_to_set l ∖ {[x]} : gset B256) (list_to_set l) ltac:(set_solver)).
    lia.
Qed.

Lemma process_attestations_Ok s atts :
  wf s -> 0 < header_slot s -> (0 < validators_len s)%nat ->
  Z.of_nat (validators_len s) <= U4096 ->
  Z.of_nat (size (distinct_data_roots atts)) <= MAX_ATTESTATIONS_DATA ->
  Forall (att_in_range s) atts ->
  exists s', process_attestations s atts = Ok s'.
Proof.
  intros W Hh Hn0 Hn Hd Ha. unfold process_attestations.
  rewrite (proj2 (Z.leb_le _ _) Hd), (proj2 (Nat.ltb_lt _ _) Hn0). cbn [ensure mbind res_bind].
  rewrite bl_len_spec, (wf_votes _ W), Nat.eqb_refl. cbn [ensure mbind res_bind].
  pose proof (wf_sf _ W Hh) as F.
  destruct (decode_justifications_Ok s) as [m Hm]; [apply W|unfold U1073741824, U4096 in *; lia|].
  rewrite bool_decide_eq_true_2; cycle 1.
  { intros [i Hi]%list_elem_of_lookup.
    destruct (sfw_votes _ _ _ F B256_ZERO (signers (chunk (validators_len s)
      (bl_iter (justifications_validators s)) i))) as [? _]; [|done].
    cbn. rewrite lookup_fmap, fmap_Some. eexists. split; [|done].
    apply pending_votes_Some; [eapply StronglySorted_lt_NoDup, W|eauto]. }
  cbn [ensure mbind res_bind]. rewrite Hm. cbn [mbind res_bind].
  apply decode_shape in Hm as [Hal Sh]; [|done].
  set (r := build_root_to_slot s).
  destruct (foldM_Ok (fun st => loop_pre r st.1 /\ loop_shape st.1 st.2 /\ same_chain s st.1 /\
    sf_wf (history s) (validators_len s) (alpha st.1 st.2))
    (process_attestation r) atts (s, m)) as ([s1 m1] & -> & _ & [_ Hm1] & Hc & F1).
  - split_and!; [by apply wf_loop_pre|done|done|by cbn [fst snd]; rewrite Hal].
  - intros [s1 m1] a Hin (P1 & Sh1 & Hc1 & F1). cbn in *.
    pose proof (proj1 (Forall_forall _ _) Ha a Hin) as [Hu Hs Ht Hb].
    pose proof Hc1 as (_ & _ & Hx & Hy & Hz).
    assert (Hv : validators_len s1 = validators_len s) by (unfold validators_len; by rewrite Hz).
    assert (Hhi : history s1 = history s) by (unfold history; by rewrite Hy).
    destruct (process_attestation_Ok r s1 m1 a) as [[s2 m2] H2]; [done..| | |by rewrite Hv|].
    { split; rewrite ?Hx, ?Hv; done. }
    { rewrite Hx. apply W. }
    exists (s2, m2). split; [done|]. cbn.
    pose proof (process_attestation_shape _ _ _ _ _ _ P1 Hu Sh1 H2) as Sh2.
    apply process_attestation_sim in H2 as (Ha2 & Hc2 & P2); [|done..].
    rewrite Ha2, Hhi, Hv. split_and!; [done..|by etrans|by apply sf_step_wf].
  - cbn [mbind res_bind fst snd] in *. destruct Hc as (_ & _ & _ & Hy & Hz).
    assert (Hv : validators_len s1 = validators_len s) by (unfold validators_len; by rewrite Hz).
    assert (Hhi : history s1 = history s) by (unfold history; by rewrite Hy).
    apply encode_justifications_Ok; [done| |by rewrite Hv].
    rewrite <-Hhi, <-Hv in F1. apply pending_size in F1. rewrite Hhi in F1.
    pose proof (wf_hist _ W). pose proof (wf_cap _ W). lia.
Qed.

(** ** Headers *)

Lemma extend_justified_slots_Ok s block_slot :
  is_u64 (block_slot - 1) -> block_slot <= U262144 -> 0 <= fin_slot s <= U262144 ->
  exists js, extend_justified_slots s block_slot = Ok js.
Proof.
  intros Hu Hb Hf. unfold extend_justified_slots, U262144 in *. rewrite u64_sub_id by done.
  destruct (justified_index_after (block_slot - 1) _) as [ti|] eqn:Hi; [|by eexists].
  apply justified_index_after_Some in Hi as [Hlt ->]; [|done|u64_solve].
  rewrite u64_add_id by u64_solve.
  assert (Hjs : exists js, (if (bl_len (justified_slots s) <?
      Z.to_nat (block_slot - 1 - fin_slot s - 1 + 1))%nat then
      new_bitlist ← ok_or (bl_with_capacity 262144
        (Z.to_nat (block_slot - 1 - fin_slot s - 1 + 1))) ExtendBitListFailed;
      Ok (bl_union new_bitlist (justified_slots s)) else Ok (justified_slots s)) = Ok js).
  { case_if; [|by eexists].
    destruct (bl_with_capacity_is_Some 262144 (Z.to_nat (block_slot - 1 - fin_slot s - 1 + 1)))
      as (b & -> & _); [lia|]. by eexists. }
  destruct Hjs as [js ->]. cbn [mbind res_bind]. case_if; [|by eexists]. b2p.
  destruct (justified_index_after (header_slot s) (fin_slot s)) eqn:Hj; [|by eexists].
  apply justified_index_after_Some in Hj as [? _]; unfold is_u64; lia.
Qed.

(** The conditions of the header checks, with room left in the history. *)
Record header_valid (s : LeanState) (b : Block) : Prop := {
  hv_slot : blk_slot b = slot s;
  hv_newer : header_slot s < blk_slot b;
  hv_capacity : blk_slot b <= U262144;
  hv_proposer : (0 < validators_len s)%nat /\
    slot s mod Z.of_nat (validators_len s) = blk_proposer_index b;
  hv_parent : blk_parent_root b = tree_hash_root (latest_block_header s);
}.

Lemma process_block_header_Ok s b :
  wf s -> header_valid s b -> exists s', process_block_header s b = Ok s'.
Proof.
  intros W [H1 H2 H3 [H4 H5] H6]. unfold process_block_header.
  pose proof (wf_slot _ W). pose proof (wf_fin_bound _ W) as Hf. pose proof (wf_hist _ W) as Hh.
  rewrite (proj2 (Z.eqb_eq _ _) H1), (proj2 (Z.ltb_lt _ _) H2). cbn [ensure mbind res_bind].
  unfold state_is_proposer, is_proposer. rewrite (proj2 (Z.eqb_neq (Z.of_nat _) 0)) by lia.
  cbn [mbind res_bind].
  rewrite (proj2 (Z.eqb_eq _ _) H5), (proj2 (Z.eqb_eq _ _) H6). cbn [ensure mbind res_bind].
  set (s0 := if header_slot s =? 0 then _ else s).
  assert (E : latest_block_header s0 = latest_block_header s /\ fin_slot s0 = fin_slot s /\
    historical_block_hashes s0 = historical_block_hashes s)
    by (unfold s0; by case_if).
  clearbody s0. destruct E as (E1 & E2 & E3). rewrite E1, E3. unfold U262144 in *. u64_simpl.
  destruct (extend_history_Ok (historical_block_hashes s) (blk_parent_root b)
    (blk_slot b - header_slot s - 1)) as [h ->].
  { lia. }
  { unfold history in Hh. rewrite Hh. unfold U262144. lia. }
  cbn [mbind res_bind].
  destruct (extend_justified_slots_Ok (set_historical_block_hashes h s0) (blk_slot b)) as [js ->];
    [u64_solve|unfold U262144; lia|cbn; by rewrite E2|]. by eexists.
Qed.

(** The conditions on the attestations of a block. *)
Record body_valid (n : nat) (b : Block) : Prop := {
  bv_distinct : Z.of_nat (size (distinct_data_roots (vl_iter (body_attestations (blk_body b)))))
                <= MAX_ATTESTATIONS_DATA;
  bv_atts : Forall (fun a => att_u64 (aa_message a) /\ cp_slot (aa_source a) < blk_slot b /\
      cp_slot (aa_target a) < blk_slot b /\ (length (bl_iter (aa_aggregation_bits a)) <= n)%nat)
    (vl_iter (body_attestations (blk_body b)));
}.

Lemma process_block_Ok s b :
  wf s -> header_valid s b -> Z.of_nat (validators_len s) <= U4096 ->
  body_valid (validators_len s) b -> exists s', process_block s b = Ok s'.
Proof.
  intros W V Hn [Hd Ha]. unfold process_block.
  destruct (process_block_header_Ok _ _ W V) as [s1 H1]. rewrite H1. cbn [mbind res_bind].
  pose proof (process_block_header_wf _ _ _ W H1) as W1.
  pose proof (process_block_header_spec _ _ _ W H1) as St.
  destruct (hs_frame _ _ _ St) as (_ & _ & Hv & _).
  assert (Hvl : validators_len s1 = validators_len s) by (unfold validators_len; by rewrite Hv).
  pose proof (hv_newer _ _ V). pose proof (wf_slot _ W). destruct (hv_proposer _ _ V) as [? _].
  apply process_attestations_Ok; rewrite ?Hvl, ?(hs_header _ _ _ St); cbn; try done; [lia|].
  eapply Forall_impl; [exact Ha|]. cbn. intros a (? & ? & ? & ?).
  split; rewrite ?Hvl, ?(hs_header _ _ _ St); done.
Qed.

Lemma state_transition_Ok_intro s b :
  wf s -> slot s < blk_slot b <= U262144 -> Z.of_nat (validators_len s) <= U4096 ->
  body_valid (validators_len s) b ->
  (forall s1, process_slots s (blk_slot b) = Ok s1 -> header_valid s1 b) ->
  (forall s1 s2, process_slots s (blk_slot b) = Ok s1 -> process_block s1 b = Ok s2 ->
     blk_state_root b = tree_hash_root s2) ->
  exists s', state_transition s b true = Ok s'.
Proof.
  intros W Hs Hn Hb Hv Hr. unfold state_transition. cbn [ensure mbind res_bind].
  pose proof (wf_slot _ W). unfold process_slots in *.
  destruct Hs as [Hs Hcap0]. rewrite (proj2 (Z.ltb_lt _ _) Hs) in *. cbn [ensure mbind res_bind] in *.
  assert (Hcap : blk_slot b < 2 ^ 64) by (unfold U262144 in *; lia).
  destruct (process_slots_loop_spec _ (blk_slot b) s ltac:(lia) Hcap eq_refl) as (s1 & H1 & _).
  assert (Hp : process_slots s (blk_slot b) = Ok s1).
  { unfold process_slots. by rewrite (proj2 (Z.ltb_lt _ _) Hs). }
  rewrite H1. cbn [mbind res_bind].
  pose proof (process_slots_wf _ _ _ W Hcap Hp) as W1.
  apply process_slots_Ok in Hp as (_ & _ & h & E & _); [|lia|done].
  assert (Hvl : validators_len s1 = validators_len s) by (by rewrite E).
  destruct (process_block_Ok s1 b W1 (Hv _ H1)) as [s2 H2]; rewrite ?Hvl; try done.
  rewrite H2. cbn [mbind res_bind]. rewrite (proj2 (Z.eqb_eq _ _) (Hr _ _ H1 H2)). by eexists.
Qed.
End acceptance.
