(* ===== verification/LeanSafety.v ===== *)
(** * Reachable states: safety, accountability, acceptance

    The states reached from a genesis state by applying blocks, and what holds of
    all of them. *)

From S2P Require Import Prelude Ssz Slot LeanTypes LeanState LeanStateFacts.
From S2P Require Import ThreeSF LeanRefinement LeanEncoding LeanInvariant LeanTransition.

(** ** Evidence for justified checkpoints, abstractly *)

Section evidence.
(** [voted c v]: validator [v] signed an attestation with target [c]. *)
Context (n : nat) (voted : Checkpoint -> Z -> Prop).

Definition in_registry (v : Z) : Prop := 0 <= v < Z.of_nat n.

(** A validator of the registry voted for a block of the chain with this root. *)
Definition voter (chain : list B256) (root : B256) (v : Z) : Prop :=
  in_registry v /\ exists c, cp_root c = root /\ on_chain chain c = true /\ is_u64 (cp_slot c) /\
    voted c v.

(** Two thirds of the registry did. *)
Definition supported (chain : list B256) (root : B256) : Prop :=
  exists V : gset Z, sf_quorum n V = true /\ forall v, v ∈ V -> voter chain root v.

Record evidence (chain : list B256) (A : SF) : Prop := {
  ev_votes : forall root V v, sf_votes A !! root = Some V -> v ∈ V -> voter chain root v;
  ev_slots : forall sl, sl ∈ sf_slots A ->
    exists root, chain !! Z.to_nat sl = Some root /\ supported chain root;
  ev_justified : cp_slot (sf_justified A) = 0 \/ supported chain (cp_root (sf_justified A));
  ev_finalized : cp_slot (sf_finalized A) = 0 \/ supported chain (cp_root (sf_finalized A));
}.

Lemma voters_voted chain A d signers :
  evidence chain A ->
  (forall v, v ∈ signers -> voter chain (cp_root (ad_target d)) v) ->
  forall v, v ∈ sf_voters A d signers -> voter chain (cp_root (ad_target d)) v.
Proof.
  intros E Hs v. unfold sf_voters. rewrite elem_of_union. intros [Hv|Hv]; [|auto].
  destruct (sf_votes A !! cp_root (ad_target d)) eqn:HV; [|set_solver].
  by eapply (ev_votes _ _ E).
Qed.

Lemma sf_step_evidence chain A d signers :
  sf_wf chain n A -> evidence chain A ->
  (sf_accepts chain A d = true ->
   forall v, v ∈ signers -> voter chain (cp_root (ad_target d)) v) ->
  evidence chain (sf_step chain n A d signers).
Proof.
  intros W E Hsig. destruct (sf_accepts chain A d) eqn:Ha.
  2: { unfold sf_step. by rewrite Ha. }
  specialize (Hsig eq_refl). pose proof (voters_voted chain A d signers E Hsig) as Hv.
  pose proof Ha as Ha'. apply sf_accepts_true in Ha' as (Hsj & _ & Hcs & Hct & _ & Hlt & _).
  apply on_chain_true in Hcs as [_ Hcs]. apply on_chain_true in Hct as [_ Hct].
  split.
  - intros root V v HV Hin. pose proof (sf_step_votes _ _ _ _ _ _ _ _ HV Hin) as [Hd|[-> Hd]]; [|auto].
    destruct (sf_votes A !! root) eqn:HA; [|set_solver]. by eapply (ev_votes _ _ E).
  - intros sl Hsl. destruct (decide (sl ∈ sf_slots A)) as [|Hn]; [by eapply (ev_slots _ _ E)|].
    pose proof (sf_step_quorum _ _ _ _ _ _ Hsl Hn) as (-> & _ & Hq).
    eexists. split; [exact Hct|]. by exists (sf_voters A d signers).
  - destruct (sf_step_justified chain n A d signers) as [->|(-> & _ & Hq)]; [apply E|].
    right. by exists (sf_voters A d signers).
  - destruct (decide (sf_finalized (sf_step chain n A d signers) = sf_finalized A)) as [->|Hf];
      [apply E|].
    pose proof (sf_step_finalizes _ _ _ _ _ Hf) as (-> & _ & Hlt' & _ & _).
    right. apply sf_is_justified_true in Hsj as [?|Hin]; [lia|].
    destruct (ev_slots _ _ E _ Hin) as (root & Hr & Hs). by simplify_eq.
Qed.
End evidence.

(** Evidence is kept when the chain and the set of votes grow. *)
Lemma evidence_mono n (P Q : Checkpoint -> Z -> Prop) chain chain' A :
  (forall c v, P c v -> Q c v) -> evidence n P chain A -> evidence n Q (chain ++ chain') A.
Proof.
  intros Hm [E1 E2 E3 E4].
  assert (Hv : forall root v, voter n P chain root v -> voter n Q (chain ++ chain') root v).
  { intros root v (Hr & c & Hc & [Hz Ho]%on_chain_true & Hu & Hp). split; [done|].
    exists c. split_and!; [done| |done|auto]. apply on_chain_true. split; [done|].
    by apply lookup_app_l_Some. }
  assert (Hs : forall root, supported n P chain root -> supported n Q (chain ++ chain') root).
  { intros root (V & Hq & HV). exists V. auto. }
  split.
  - intros root V v HV Hin. eauto.
  - intros sl Hsl. destruct (E2 sl Hsl) as (r & ? & ?). exists r.
    split; [by apply lookup_app_l_Some|auto].
  - destruct E3; auto.
  - destruct E4; auto.
Qed.

Section safety.
Context {SS : SszTypes} {SL : SszLaws SS}.
Context {HS : TreeHash LeanState} {HH : TreeHash BlockHeader} {HB : TreeHash BlockBody}
        {HA : TreeHash AttestationData}.

Abbreviation header_slot s := (hdr_slot (latest_block_header s)).
Abbreviation fin_slot s := (cp_slot (latest_finalized s)).
Abbreviation just_slot s := (cp_slot (latest_justified s)).

(** The states a chain of accepted blocks leads to. *)
Inductive reachable (g : LeanState) : list Block -> LeanState -> Prop :=
| reach_genesis : reachable g [] g
| reach_block bs s b s' :
    reachable g bs s -> block_u64 b -> state_transition s b true = Ok s' ->
    reachable g (bs ++ [b]) s'.

Definition block_attestations (b : Block) : list AggregatedAttestation :=
  vl_iter (body_attestations (blk_body b)).

(** A validator's bit is set in an attestation of the blocks with this target. *)
Definition voted_in (bs : list Block) (c : Checkpoint) (v : Z) : Prop :=
  exists b a, b ∈ bs /\ a ∈ block_attestations b /\
    aa_target a = c /\ v ∈ signers (bl_iter (aa_aggregation_bits a)).

Lemma voted_in_app bs bs' c v : voted_in bs c v -> voted_in (bs ++ bs') c v.
Proof. intros (b & a & ? & ?). exists b, a. split; [set_solver|done]. Qed.

(** An attestation that counts has only signers of the registry. *)
Lemma accepted_signers r s m a s' m' :
  loop_pre r s -> loop_shape s m -> att_u64 (aa_message a) ->
  process_attestation r (s, m) a = Ok (s', m') ->
  sf_accepts (history s) (alpha s m) (aa_message a) = true ->
  forall v, v ∈ signers (bl_iter (aa_aggregation_bits a)) -> in_registry (validators_len s) v.
Proof.
  intros P [_ Hm] (Hus & Hut & _) H Hacc v Hv. pose proof (lp_fin _ _ P) as Hf.
  apply sf_accepts_true in Hacc as (Hsj & Htj & Hcs & Hct & Hch & Hlt & Hja).
  unfold process_attestation, aa_source, aa_target in H. set (d := aa_message a) in *.
  res_inv H. apply (slot_is_justified_sim s m) in Hb as ->; [|done..].
  rewrite attestation_data_matches_chain_sim, Hcs, Hct, Hch, Hsj in H.
  apply on_chain_true in Hcs as [Hz1 _]. apply on_chain_true in Hct as [Hz2 _].
  rewrite (proj2 (Z.eqb_neq _ _) Hz1), (proj2 (Z.eqb_neq _ _) Hz2) in H. cbn [negb orb andb] in H.
  res_inv H. apply (slot_is_justified_sim s m) in Hb as ->; [|done..]. rewrite Htj in H.
  cbn in Hja. rewrite (proj2 (Z.leb_gt _ _) Hlt), Hja in H. cbn [negb] in H. res_inv H.
  apply bl_with_capacity_Some in Hb as [Hfresh _].
  apply record_votes_spec in Hb0 as [Hlen Hbits].
  apply elem_of_signers in Hv as [Hv0 Hv].
  assert (Hin : bl_iter v1 !! Z.to_nat v = Some true) by (apply Hbits; by right).
  apply lookup_lt_Some in Hin. rewrite Hlen in Hin.
  assert (length (bl_iter (default v0 (m !! cp_root (ad_target d)))) = validators_len s) as Hd.
  { destruct (m !! cp_root (ad_target d)) eqn:Hmm; cbn; [by eapply Hm|].
    by rewrite Hfresh, length_replicate. }
  unfold in_registry. lia.
Qed.

Lemma attestation_loop_evidence (voted : Checkpoint -> Z -> Prop) r atts : forall s m s' m',
  loop_pre r s -> loop_shape s m -> atts_u64 atts ->
  sf_wf (history s) (validators_len s) (alpha s m) ->
  (forall a v, a ∈ atts -> v ∈ signers (bl_iter (aa_aggregation_bits a)) ->
     voted (aa_target a) v) ->
  evidence (validators_len s) voted (history s) (alpha s m) ->
  foldM (process_attestation r) (s, m) atts = Ok (s', m') ->
  evidence (validators_len s) voted (history s) (alpha s' m').
Proof.
  induction atts as [|a atts IH]; intros s m s' m' P Sh Hu W Hv E.
  - cbn. by intros [= <- <-].
  - apply Forall_cons in Hu as [Hua Hu]. cbn [foldM]. intros H.
    apply bind_Ok in H as ([s1 m1] & H1 & H).
    pose proof (accepted_signers _ _ _ _ _ _ P Sh Hua H1) as Hr.
    pose proof (process_attestation_shape _ _ _ _ _ _ P Hua Sh H1) as Sh1.
    apply process_attestation_sim in H1 as (Ha & Hc & P1); [|done..].
    assert (Hh : history s1 = history s /\ validators_len s1 = validators_len s).
    { destruct Hc as (_ & _ & _ & Hx & Hy). unfold history, validators_len. by rewrite Hx, Hy. }
    destruct Hh as [Hh Hn]. rewrite <-Hh, <-Hn.
    eapply IH; [exact P1|exact Sh1|exact Hu| | | |exact H].
    + rewrite Hh, Hn, Ha. by apply sf_step_wf.
    + intros; apply Hv; [set_solver|done].
    + rewrite Hh, Hn, Ha. apply sf_step_evidence; [done..|]. intros Hacc v Hin.
      split; [by apply Hr|]. apply sf_accepts_true in Hacc as (_ & _ & _ & Hct & _).
      exists (aa_target a). split_and!; [done|done|apply Hua|]. apply (Hv a v); [set_solver|done].
Qed.

(** ** What holds of every reachable state *)

(** The history holds, per slot, the root of a header with that slot or zero. *)
Definition history_headers (h : list B256) : Prop :=
  forall i root, h !! i = Some root -> root <> B256_ZERO ->
    exists hd : BlockHeader, root = tree_hash_root hd /\ hdr_slot hd = Z.of_nat i.

Record chain_inv (g : LeanState) (bs : list Block) (s : LeanState) : Prop := {
  ci_wf : wf s;
  ci_validators : validators s = validators g;
  ci_headers : history_headers (history s);
  ci_evidence : evidence (validators_len g) (voted_in bs) (history s) (sf_of s);
}.

Lemma genesis_evidence t vs g P :
  generate_genesis t vs = Ok g -> evidence (validators_len g) P (history g) (sf_of g).
Proof.
  intros H. unfold generate_genesis in H. repeat case_match; try done. injection H as <-.
  match goal with H : bl_with_capacity U262144 0 = Some _ |- _ =>
    apply bl_with_capacity_Some in H as [Hj _] end.
  split; cbn; [|intros sl [_ Hx]%elem_of_window_slots; by rewrite Hj in Hx|by left..].
  intros root V w. unfold pending_votes. cbn. by rewrite vl_iter_empty.
Qed.

Lemma process_block_evidence P s b s' :
  wf s -> block_u64 b -> process_block s b = Ok s' ->
  (forall a v, a ∈ block_attestations b -> v ∈ signers (bl_iter (aa_aggregation_bits a)) ->
     P (aa_target a) v) ->
  evidence (validators_len s) P (history s) (sf_of s) ->
  evidence (validators_len s) P (history s') (sf_of s') /\ validators s' = validators s.
Proof.
  intros W [_ Hu] H Hv E. unfold process_block in H. res_inv H. rename v into s1.
  pose proof (process_block_header_wf _ _ _ W Hb) as W1.
  pose proof (process_block_header_spec _ _ _ W Hb) as St.
  pose proof (hs_newer _ _ _ St). pose proof (wf_slot _ W).
  destruct (hs_frame _ _ _ St) as (_ & _ & Hval & Hjr & Hjv).
  assert (Hn : validators_len s1 = validators_len s) by (unfold validators_len; by rewrite Hval).
  assert (Hh1 : 0 < header_slot s1) by (rewrite (hs_header _ _ _ St); cbn; lia).
  assert (E1 : evidence (validators_len s) P (history s1) (sf_of s1)).
  { destruct (decide (header_slot s = 0)) as [Hz|Hz].
    - destruct (wf_genesis _ W Hz) as (Hf0 & Hj0 & Hr0).
      pose proof (hs_checkpoints _ _ _ St) as Hcp. rewrite Hz in Hcp. cbn in Hcp.
      injection Hcp as Hj Hf.
      split; cbn; rewrite ?Hj, ?Hf, ?Hj0, ?Hf0; cbn; [| |by left..].
      + intros root V v. rewrite (pending_votes_frame s s1) by done.
        unfold pending_votes. by rewrite Hr0.
      + intros sl [_ Hx]%elem_of_window_slots. rewrite (hs_window _ _ _ St) in Hx.
        replace (bl_iter (justified_slots s)) with (@nil bool) in Hx.
        * cbn in Hx. rewrite lookup_replicate in Hx. naive_solver.
        * symmetry. apply nil_length_inv. rewrite (wf_win _ W). lia.
    - rewrite (header_step_sf_of s b s1), (hs_history _ _ _ St) by done.
      apply (evidence_mono _ P P); auto. }
  rewrite <-Hn, <-Hval in *. clear E St Hb.
  pose proof H as H'. apply process_attestations_sim in H' as (_ & Hc & _); [|done..].
  destruct Hc as (_ & _ & _ & Hhist & Hval').
  split; [|done]. replace (history s') with (history s1) by (unfold history; by rewrite Hhist).
  apply process_attestations_loop in H as (m & s2 & m2 & Ha & Sh & Hl & _ & ->); [|done].
  eapply attestation_loop_evidence; [by apply wf_loop_pre|exact Sh|exact Hu| |exact Hv| |exact Hl];
    rewrite Ha; [by apply W1|done].
Qed.

Lemma header_step_headers s b s' :
  wf s -> header_step s b s' -> history_headers (history s) -> history_headers (history s').
Proof.
  intros W St Hh i root. rewrite (hs_history _ _ _ St). pose proof (wf_hist _ W) as Hl.
  rewrite lookup_app. destruct (history s !! i) eqn:Hi; [intros [= <-]; by apply Hh|].
  apply lookup_ge_None in Hi. destruct (i - length (history s))%nat eqn:Hd; cbn.
  - intros [= <-] _. exists (latest_block_header s). split; [apply St|lia].
  - intros [-> _]%lookup_replicate. done.
Qed.

Lemma process_block_headers s b s' :
  wf s -> block_u64 b -> process_block s b = Ok s' ->
  history_headers (history s) -> history_headers (history s').
Proof.
  intros W [_ Hu] H Hh. unfold process_block in H. res_inv H.
  pose proof (process_block_header_wf _ _ _ W Hb) as W1.
  apply process_block_header_spec in Hb; [|done].
  apply process_attestations_sim in H as (_ & (_ & _ & _ & Hx & _) & _); [|done..].
  unfold history. rewrite Hx. eapply (header_step_headers s b); done.
Qed.

Lemma state_transition_Ok s b sigs s' :
  wf s -> block_u64 b -> state_transition s b sigs = Ok s' ->
  sigs = true /\ slot s < blk_slot b /\ tree_hash_root s' = blk_state_root b /\
  exists s1, wf s1 /\ process_block s1 b = Ok s' /\
    validators s1 = validators s /\ history s1 = history s /\ sf_of s1 = sf_of s.
Proof.
  intros W Hu H. unfold state_transition in H. res_inv H. b2p.
  pose proof (wf_slot _ W). pose proof Hb0 as Hs.
  apply process_slots_Ok in Hs as (Hlt & _ & h & -> & _); [|lia|apply Hu].
  split_and!; [done..|]. eexists. split_and!; [|exact Hb1|done..].
  eapply process_slots_wf; [exact W| |exact Hb0]. apply Hu.
Qed.

Lemma reachable_inv t vs g bs s :
  generate_genesis t vs = Ok g -> reachable g bs s -> chain_inv g bs s.
Proof.
  intros Hg. induction 1 as [|bs s b s' _ IH Hu H].
  - split; [by eapply generate_genesis_wf|done| |by eapply genesis_evidence].
    intros i root. apply generate_genesis_wf in Hg as W.
    assert (history g = []) as ->; [|done]. unfold generate_genesis in Hg.
    repeat case_match; try done. injection Hg as <-. apply vl_iter_empty.
  - destruct IH as [W Hv Hh E]. pose proof (state_transition_wf _ _ _ _ W Hu H) as W'.
    apply state_transition_Ok in H as (_ & _ & _ & s1 & W1 & Hp & Hv1 & Hh1 & Hs1); [|done..].
    rewrite <-Hh1 in Hh. rewrite <-Hh1, <-Hs1 in E.
    assert (Hn : validators_len s1 = validators_len g) by (unfold validators_len; congruence).
    assert (E1 : evidence (validators_len g) (voted_in (bs ++ [b])) (history s1 ++ []) (sf_of s1)).
    { eapply evidence_mono, E. intros; by apply voted_in_app. }
    rewrite app_nil_r, <-Hn in E1.
    pose proof (process_block_headers _ _ _ W1 Hu Hp Hh) as Hh'.
    eapply process_block_evidence in Hp as [E2 Hv2]; [|done..| |exact E1].
    + split; [done|congruence|done|]. by rewrite <-Hn.
    + intros a v Ha Hin. exists b, a. split_and!; [set_solver|done..].
Qed.

(** The checkpoints a state holds as justified: the latest two, and the blocks at the
    slots marked in the window. *)
Definition is_justified_checkpoint (s : LeanState) (c : Checkpoint) : Prop :=
  c = latest_justified s \/ c = latest_finalized s \/
  cp_slot c ∈ window_slots (fin_slot s) (bl_iter (justified_slots s)) /\
  history s !! Z.to_nat (cp_slot c) = Some (cp_root c).

Lemma justified_supported g bs s c :
  chain_inv g bs s -> 0 < header_slot s -> is_justified_checkpoint s c -> 0 < cp_slot c ->
  history s !! Z.to_nat (cp_slot c) = Some (cp_root c) /\
  supported (validators_len g) (voted_in bs) (history s) (cp_root c).
Proof.
  intros [W _ _ E] Hh [->|[->|[Hin Hc]]] H0.
  - split; [apply (sfw_jroot _ _ _ (wf_sf _ W Hh))|]. destruct (ev_justified _ _ _ _ E); [cbn in *; lia|done].
  - split; [apply (sfw_froot _ _ _ (wf_sf _ W Hh))|]. destruct (ev_finalized _ _ _ _ E); [cbn in *; lia|done].
  - split; [done|]. destruct (ev_slots _ _ _ _ E _ Hin) as (r & Hr & ?). by simplify_eq.
Qed.

Lemma justified_genesis s c :
  wf s -> header_slot s = 0 -> is_justified_checkpoint s c -> cp_slot c = 0.
Proof.
  intros W Hz [->|[->|[[_ Hin]%elem_of_window_slots _]]]; [by apply (wf_genesis _ W)..|].
  apply lookup_lt_Some in Hin. rewrite (wf_win _ W), Hz in Hin.
  pose proof (wf_order _ W). lia.
Qed.

(** The checkpoint a voter of a root voted for, when headers have distinct roots. *)
Lemma voter_checkpoint g bs s c v :
  Inj (=) (=) (tree_hash_root : BlockHeader -> B256) ->
  chain_inv g bs s -> 0 < cp_slot c -> history s !! Z.to_nat (cp_slot c) = Some (cp_root c) ->
  voter (validators_len g) (voted_in bs) (history s) (cp_root c) v -> voted_in bs c v.
Proof.
  intros Hinj [_ _ Hh _] H0 Hc (_ & c' & Hr & [Hz Ho]%on_chain_true & Hu & Hv).
  rewrite Hr in Hz, Ho. destruct (Hh _ _ Hc Hz) as (h1 & E1 & Hs1).
  destruct (Hh _ _ Ho Hz) as (h2 & E2 & Hs2). rewrite E1 in E2. apply Hinj in E2. subst h2.
  assert (c' = c) as <-; [|done]. destruct c, c'; cbn in *. unfold is_u64 in Hu. f_equal; [done|lia].
Qed.

(** ** Progress along a chain *)

(** The chain only grows, the checkpoints only advance and a justified slot stays so. *)
Record progress (s s' : LeanState) : Prop := {
  pr_history : history s `prefix_of` history s';
  pr_finalized : fin_slot s <= fin_slot s';
  pr_justified : just_slot s <= just_slot s';
  pr_slots : forall sl, sf_is_justified (sf_of s) sl = true -> sf_is_justified (sf_of s') sl = true;
}.

#[global] Instance progress_preorder : PreOrder progress.
Proof.
  split; [by split|]. intros s1 s2 s3 [? ? ? H1] [? ? ? H2].
  split; [by etrans|lia|lia|]. intros sl Hsl. by apply H2, H1.
Qed.

Lemma sf_attestations_progress chain n atts : forall A,
  let A' := sf_attestations chain n A atts in
  cp_slot (sf_finalized A) <= cp_slot (sf_finalized A') /\
  cp_slot (sf_justified A) <= cp_slot (sf_justified A') /\
  forall sl, sf_is_justified A sl = true -> sf_is_justified A' sl = true.
Proof.
  induction atts as [|a atts IH]; intros A; cbv zeta in *; [done|].
  set (sg := signers (bl_iter (aa_aggregation_bits a))).
  change (sf_attestations chain n A (a :: atts))
    with (sf_attestations chain n (sf_step chain n A (aa_message a) sg) atts).
  destruct (IH (sf_step chain n A (aa_message a) sg)) as (H1 & H2 & H3).
  destruct (sf_step_monotone chain n A (aa_message a) sg) as [H4 H5].
  split_and!; [lia|lia|]. intros sl Hsl. by apply H3, sf_step_keeps_justified.
Qed.

Lemma header_step_progress s b s' : wf s -> header_step s b s' -> progress s s'.
Proof.
  intros W St. pose proof (hs_checkpoints _ _ _ St) as Hc.
  assert (Hs : fin_slot s' = fin_slot s /\ just_slot s' = just_slot s).
  { destruct (header_slot s =? 0); injection Hc as -> ->; done. }
  destruct Hs as [Hf Hj]. split; [|by rewrite Hf|by rewrite Hj|].
  - rewrite (hs_history _ _ _ St). by apply prefix_app_r.
  - intros sl. rewrite !sf_is_justified_true. cbn.
    rewrite (hs_window _ _ _ St), window_slots_falses. by rewrite Hf.
Qed.

Lemma state_transition_progress s b sigs s' :
  wf s -> block_u64 b -> state_transition s b sigs = Ok s' -> progress s s'.
Proof.
  intros W Hu H. apply state_transition_Ok in H as (_ & _ & _ & s1 & W1 & Hp & _ & Hh1 & Hs1);
    [|done..].
  assert (Hp1 : progress s s1).
  { split; rewrite ?Hh1, ?Hs1; try done; injection Hs1 as Hj Hf _ _; by rewrite ?Hj, ?Hf. }
  rewrite Hp1. unfold process_block in Hp. res_inv Hp.
  pose proof (process_block_header_wf _ _ _ W1 Hb) as W2.
  apply process_block_header_spec in Hb; [|done]. apply header_step_progress in Hb; [|done].
  rewrite Hb. apply process_attestations_sim in Hp as (Hsf & Hc & _); [|done|apply Hu].
  destruct (sf_attestations_progress (history v) (validators_len v)
    (vl_iter (body_attestations (blk_body b))) (sf_of v)) as (H1 & H2 & H3).
  rewrite <-Hsf in H1, H2, H3. split; [|done..].
  destruct Hc as (_ & _ & _ & Hx & _). unfold history. by rewrite Hx.
Qed.

(** What a block does to slot, header and history. *)
Lemma state_transition_chain s b sigs s' :
  wf s -> block_u64 b -> state_transition s b sigs = Ok s' ->
  slot s' = blk_slot b /\ hdr_slot (latest_block_header s') = blk_slot b /\
  history s' = history s ++ blk_parent_root b ::
    replicate (Z.to_nat (blk_slot b - header_slot s - 1)) B256_ZERO.
Proof.
  intros W Hu H.
  assert (Hhd : forall s1, process_slots s (blk_slot b) = Ok s1 ->
    hdr_slot (latest_block_header s1) = header_slot s).
  { intros s1 H1. pose proof (wf_slot _ W).
    by apply process_slots_Ok in H1 as (_ & _ & h & -> & Hh); [|lia|apply Hu]. }
  unfold state_transition in H. res_inv H. rename v0 into s1. specialize (Hhd _ Hb0).
  pose proof (process_slots_wf _ _ _ W ltac:(apply Hu) Hb0) as W1. pose proof (wf_slot _ W).
  apply process_slots_Ok in Hb0 as (_ & Hsl & h & E & _); [|lia|apply Hu].
  assert (Hh1 : history s1 = history s) by (by rewrite E).
  unfold process_block in Hb1. res_inv Hb1. pose proof (process_block_header_wf _ _ _ W1 Hb) as W2.
  apply process_block_header_spec in Hb; [|done].
  apply process_attestations_sim in Hb1 as (_ & (_ & Hs & Hx & Hy & _) & _); [|done|apply Hu].
  destruct (hs_frame _ _ _ Hb) as (_ & Hsl2 & _). split_and!.
  - by rewrite Hs, Hsl2.
  - by rewrite Hx, (hs_header _ _ _ Hb).
  - unfold history in *. rewrite Hy. pose proof (hs_history _ _ _ Hb) as Hh. unfold history in Hh.
    by rewrite Hh, Hh1, Hhd.
Qed.

Lemma state_transition_header s b sigs s' :
  wf s -> block_u64 b -> state_transition s b sigs = Ok s' ->
  hdr_slot (latest_block_header s') = blk_slot b.
Proof. intros W Hu H. by apply state_transition_chain in H as (_ & ? & _). Qed.

Lemma reachable_header t vs g bs s :
  generate_genesis t vs = Ok g -> reachable g bs s -> bs <> [] -> 0 < header_slot s.
Proof.
  intros Hg R Hne. destruct R as [|bs s b s' R Hu H]; [done|].
  pose proof (ci_wf _ _ _ (reachable_inv _ _ _ _ _ Hg R)) as W.
  rewrite (state_transition_header _ _ _ _ W Hu H).
  apply state_transition_Ok in H as (_ & ? & _); [|done..]. pose proof (wf_slot _ W). lia.
Qed.

Lemma reachable_progress s bs s' : wf s -> reachable s bs s' -> wf s' /\ progress s s'.
Proof.
  intros W. induction 1 as [|bs s1 b s2 _ [W1 IH] Hu H]; [done|].
  split; [by eapply state_transition_wf|]. rewrite IH. by eapply state_transition_progress.
Qed.

Lemma reachable_trans g bs s bs' s' :
  reachable g bs s -> reachable s bs' s' -> reachable g (bs ++ bs') s'.
Proof.
  intros H. induction 1 as [|bs' s1 b s2 _ IH Hu Hs]; [by rewrite app_nil_r|].
  rewrite app_assoc. by eapply reach_block.
Qed.
End safety.
