(* ===== verification/Redb.v ===== *)
(** * The key-value store

    The [redb] crate is not part of the repository.  Its table operations are the
    fields of the class [Redb] and their documented behaviour is the class
    [RedbLaws], stated on the finite map a table holds ([rd_view]).  [gmap_redb]
    shows that the laws can hold.  A transaction that does not commit because of an
    I/O error is not modelled: every operation succeeds. *)

From S2P Require Import Prelude.

Class Redb : Type := {
  Table : forall (K : Type) {E : EqDecision K} {C : Countable K}, Type -> Type;
  rd_empty : forall {K : Type} {E : EqDecision K} {C : Countable K} {V : Type}, Table K V;
  rd_get : forall {K : Type} {E : EqDecision K} {C : Countable K} {V : Type},
    Table K V -> K -> option V;
  rd_insert : forall {K : Type} {E : EqDecision K} {C : Countable K} {V : Type},
    K -> V -> Table K V -> Table K V;
  rd_remove : forall {K : Type} {E : EqDecision K} {C : Countable K} {V : Type},
    K -> Table K V -> Table K V;
  rd_iter : forall {K : Type} {E : EqDecision K} {C : Countable K} {V : Type},
    Table K V -> list (K * V);
  rd_retain : forall {K : Type} {E : EqDecision K} {C : Countable K} {V : Type},
    (K -> V -> bool) -> Table K V -> Table K V;
  (** The entry with the least and with the greatest integer key. *)
  rd_first : forall {V : Type}, Table Z V -> option (Z * V);
  rd_last : forall {V : Type}, Table Z V -> option (Z * V);
}.

(** The map a table holds. *)
Definition rd_view `{Redb, Countable K} {V} (t : Table K V) : gmap K V := list_to_map (rd_iter t).

Class RedbLaws (R : Redb) : Prop := {
  rd_iter_nodup : forall {K : Type} {E : EqDecision K} {C : Countable K} {V : Type} (t : Table K V),
    NoDup (rd_iter t).*1;
  rd_view_empty : forall {K : Type} {E : EqDecision K} {C : Countable K} {V : Type},
    rd_view (rd_empty : Table K V) = ∅;
  rd_get_view : forall {K : Type} {E : EqDecision K} {C : Countable K} {V : Type} (t : Table K V) k,
    rd_get t k = rd_view t !! k;
  rd_view_insert : forall {K : Type} {E : EqDecision K} {C : Countable K} {V : Type} (t : Table K V) k v,
    rd_view (rd_insert k v t) = <[k := v]> (rd_view t);
  rd_view_remove : forall {K : Type} {E : EqDecision K} {C : Countable K} {V : Type} (t : Table K V) k,
    rd_view (rd_remove k t) = delete k (rd_view t);
  rd_view_retain : forall {K : Type} {E : EqDecision K} {C : Countable K} {V : Type} (t : Table K V) f,
    rd_view (rd_retain f t) = map_retain f (rd_view t);
  rd_first_view : forall {V : Type} (t : Table Z V),
    match rd_first t with
    | Some (k, v) => rd_view t !! k = Some v /\ forall k', is_Some (rd_view t !! k') -> k <= k'
    | None => rd_view t = ∅
    end;
  rd_last_view : forall {V : Type} (t : Table Z V),
    match rd_last t with
    | Some (k, v) => rd_view t !! k = Some v /\ forall k', is_Some (rd_view t !! k') -> k' <= k
    | None => rd_view t = ∅
    end;
}.

#[global] Arguments rd_view : simpl never.

Lemma elem_of_rd_iter {R : Redb} {RL : RedbLaws R} `{Countable K} {V} (t : Table K V) k v :
  (k, v) ∈ rd_iter t <-> rd_view t !! k = Some v.
Proof. unfold rd_view. apply elem_of_list_to_map, rd_iter_nodup. Qed.

Lemma rd_iter_perm {R : Redb} {RL : RedbLaws R} `{Countable K} {V} (t : Table K V) :
  rd_iter t ≡ₚ map_to_list (rd_view t).
Proof. unfold rd_view. symmetry. apply map_to_list_to_map, rd_iter_nodup. Qed.

(** Rewriting with the laws. *)
#[global] Hint Rewrite @rd_get_view @rd_view_insert @rd_view_remove @rd_view_retain @rd_view_empty
  using solve [eauto with typeclass_instances] : redb.
Ltac redb := autorewrite with redb in *.

(** ** Tables as finite maps *)

(** The entry of a map whose key is extreme for [lt]. *)
Definition extreme_entry {V} (lt : Z -> Z -> bool) (m : gmap Z V) : option (Z * V) :=
  foldr (fun e acc =>
    match acc with Some a => if lt e.1 a.1 then Some e else Some a | None => Some e end)
    None (map_to_list m).

Definition gmap_redb : Redb := {|
  Table := fun K _ _ V => gmap K V;
  rd_empty := fun K _ _ V => ∅;
  rd_get := fun K _ _ V t k => t !! k;
  rd_insert := fun K _ _ V k v t => <[k := v]> t;
  rd_remove := fun K _ _ V k t => delete k t;
  rd_iter := fun K _ _ V t => map_to_list t;
  rd_retain := fun K _ _ V f t => map_retain f t;
  rd_first := fun V t => extreme_entry Z.ltb t;
  rd_last := fun V t => extreme_entry (fun a b => b <? a) t;
|}.

Lemma gmap_view `{Countable K} {V} (t : gmap K V) : @rd_view gmap_redb K _ _ V t = t.
Proof. apply list_to_map_to_list. Qed.

Lemma extreme_entry_spec {V} (lt : Z -> Z -> bool) (le : Z -> Z -> Prop) (m : gmap Z V) :
  PreOrder le -> (forall a b, lt a b = true -> le a b) -> (forall a b, lt a b = false -> le b a) ->
  match extreme_entry lt m with
  | Some (k, v) => m !! k = Some v /\ forall k', is_Some (m !! k') -> le k k'
  | None => m = ∅
  end.
Proof.
  intros Hpo Ht Hf. unfold extreme_entry.
  assert (Hl : forall l : list (Z * V),
    match foldr (fun e acc => match acc with Some a => if lt e.1 a.1 then Some e else Some a
      | None => Some e end) None l with
    | Some e => e ∈ l /\ forall e', e' ∈ l -> le e.1 e'.1
    | None => l = []
    end).
  { induction l as [|e l IH]; [done|]. cbn. destruct (foldr _ None l) as [a|].
    - destruct IH as [Ha IH]. destruct (lt e.1 a.1) eqn:Hlt.
      + split; [set_solver|]. intros e' [->|He']%elem_of_cons; [done|].
        etrans; [by apply Ht|]. by apply IH.
      + split; [set_solver|]. intros e' [->|He']%elem_of_cons; [by apply Hf|]. by apply IH.
    - subst l. split; [set_solver|]. intros e' ->%list_elem_of_singleton. done. }
  specialize (Hl (map_to_list m)). destruct (foldr _ None _) as [[k v]|].
  - destruct Hl as [Hin Hl]. split; [by apply elem_of_map_to_list|].
    intros k' [v' Hk']. apply (Hl (k', v')). by apply elem_of_map_to_list.
  - by apply map_to_list_empty_iff.
Qed.

Lemma gmap_redb_laws : RedbLaws gmap_redb.
Proof.
  split; intros; rewrite ?gmap_view; try done.
  - apply NoDup_fst_map_to_list.
  - apply (extreme_entry_spec _ Z.le); [apply _|intros; b2p; lia..].
  - apply (extreme_entry_spec _ (fun a b => b <= a)); [split; [intros ?; lia|intros ????; lia]|intros; b2p; lia..].
Qed.
