(* ===== verification/StateMonad.v ===== *)
(** * State and errors

    Operations of the client that write to its store before they fail: a state is
    threaded through, and an [Err] leaves with the state reached so far. *)

From S2P Require Import Prelude.

Definition M (S E A : Type) : Type := S -> S * res E A.

#[global] Instance M_ret S E : MRet (M S E) := fun A a s => (s, Ok a).
#[global] Instance M_bind S E : MBind (M S E) := fun A B k m s =>
  match m s with
  | (s', Ok a) => k a s'
  | (s', Err e) => (s', Err e)
  | (s', Panic) => (s', Panic)
  | (s', NoFuel) => (s', NoFuel)
  end.

(** Reading, writing, and computations that do not touch the state. *)
Definition reads {S E A} (f : S -> res E A) : M S E A := fun s => (s, f s).
Definition modify {S E} (f : S -> S) : M S E unit := fun s => (f s, Ok tt).
Definition lift {S E A} (r : res E A) : M S E A := fun s => (s, r).

(** A [for] loop. *)
Fixpoint forM {S E A} (l : list A) (f : A -> M S E unit) : M S E unit :=
  match l with
  | [] => mret tt
  | a :: l' => f a;; forM l' f
  end.

Section lemmas.
Context {S E : Type}.

Lemma bindM_Ok {A B} (m : M S E A) (k : A -> M S E B) s s' b :
  (m ≫= k) s = (s', Ok b) <-> exists s1 a, m s = (s1, Ok a) /\ k a s1 = (s', Ok b).
Proof.
  unfold mbind, M_bind. destruct (m s) as [s1 [a|e| |]]; split; try (intros; simplify_eq; eauto; fail).
  - intros (? & ? & [= -> ->] & H). done.
  - intros (? & ? & [=] & H).
  - intros (? & ? & [=] & H).
  - intros (? & ? & [=] & H).
Qed.

Lemma bindM_reads {A B} (f : S -> res E A) (k : A -> M S E B) s :
  (reads f ≫= k) s =
  match f s with Ok a => k a s | Err e => (s, Err e) | Panic => (s, Panic) | NoFuel => (s, NoFuel) end.
Proof. unfold mbind, M_bind, reads. by destruct (f s). Qed.

Lemma bindM_lift {A B} (r : res E A) (k : A -> M S E B) s :
  (lift r ≫= k) s =
  match r with Ok a => k a s | Err e => (s, Err e) | Panic => (s, Panic) | NoFuel => (s, NoFuel) end.
Proof. unfold mbind, M_bind, lift. by destruct r. Qed.

Lemma bindM_run {A B} (m : M S E A) (k : A -> M S E B) s s1 a :
  m s = (s1, Ok a) -> (m ≫= k) s = k a s1.
Proof. unfold mbind, M_bind. by intros ->. Qed.

Lemma bindM_assoc {A B C} (m : M S E A) (k : A -> M S E B) (l : B -> M S E C) s :
  ((m ≫= k) ≫= l) s = (m ≫= fun a => k a ≫= l) s.
Proof. unfold mbind, M_bind. by destruct (m s) as [s1 [a|e| |]]. Qed.

Lemma bindM_modify {B} (f : S -> S) (k : unit -> M S E B) s :
  (modify f ≫= k) s = k tt (f s).
Proof. done. Qed.

(** ** Invariants that hold however the computation ends *)

Definition preserves (P : S -> Prop) {A} (m : M S E A) : Prop := forall s, P s -> P (m s).1.

Lemma preserves_bind P {A B} (m : M S E A) (k : A -> M S E B) :
  preserves P m -> (forall a, preserves P (k a)) -> preserves P (m ≫= k).
Proof.
  intros Hm Hk s Hs. unfold mbind, M_bind. specialize (Hm s Hs).
  destruct (m s) as [s1 [a|e| |]]; cbn in *; try done. by apply Hk.
Qed.

Lemma preserves_reads P {A} (f : S -> res E A) : preserves P (reads f).
Proof. by intros s Hs. Qed.

Lemma preserves_lift P {A} (r : res E A) : preserves P (lift (S := S) r).
Proof. by intros s Hs. Qed.

Lemma preserves_ret P {A} (a : A) : preserves P (mret a : M S E A).
Proof. by intros s Hs. Qed.

Lemma preserves_modify P (f : S -> S) : (forall s, P s -> P (f s)) -> preserves P (modify (E := E) f).
Proof. intros Hf s Hs. by apply Hf. Qed.

Lemma preserves_forM P {A} (l : list A) (f : A -> M S E unit) :
  (forall a, a ∈ l -> preserves P (f a)) -> preserves P (forM l f).
Proof.
  induction l as [|a l IH]; intros Hf; cbn; [apply preserves_ret|].
  apply preserves_bind; [apply Hf; set_solver|]. intros _. apply IH. set_solver.
Qed.

(** ** Loops whose body always succeeds *)

Lemma forM_modify {A} (l : list A) (f : A -> S -> S) s :
  forM l (fun a => modify (E := E) (f a)) s = (foldl (fun s a => f a s) s l, Ok tt).
Proof.
  revert s. induction l as [|a l IH]; intros s; cbn [forM foldl]; [done|].
  by rewrite bindM_modify, IH.
Qed.
End lemmas.

#[export] Hint Resolve preserves_reads preserves_lift preserves_ret : res.
