(* ===== verification/LeanDB.v ===== *)
(** * The Lean database

    [crates/storage/src/db/lean.rs] and [crates/storage/src/tables/lean]: the tables
    and single-value fields the fork choice reads and writes.  [LeanDB] holds one
    [redb] table per table of the source and an option per field, empty until it is
    first written.  The in-memory cache in front of the block and state tables is
    written through and is not a component of the state. *)

From S2P Require Import Prelude Redb Ssz LeanTypes LeanState.

(** What the operations of the client's store fail with. *)
Inductive StoreErr : Type :=
| FieldNotInitilized
| NoBlocksFound
| BlockNotFound
| HeadStateNotFound
| StateNotFound
| ParentStateNotFound
| AnchorStateRootMismatch
| TooFarBeyondParent
| TooFarInFuture
| NotProposer
| DuplicateAttestationData
| UnknownSource
| UnknownTarget
| UnknownHead
| SourceExceedsTarget
| HeadOlderThanTarget
| SourceSlotMismatch
| TargetSlotMismatch
| HeadSlotMismatch
| SourceNotAncestor
| TargetNotAncestor
| HeadNotFinalizedDescendant
| AttestationPrecedesHead
| AttestationTooFarInFuture
| NoParticipants
| TargetStateNotFound
| ValidatorNotFound
| SignatureInvalid
| ProofInvalid
| ListFull
| BitError
| MissingDataRoot
| Transition (e : StateError).

(** An error of the state transition, as [?] passes it on. *)
Definition transition {A} (r : res StateError A) : res StoreErr A :=
  match r with Ok a => Ok a | Err e => Err (Transition e) | Panic => Panic | NoFuel => NoFuel end.

(** [REDBField::get]. *)
Definition field_get {A} (o : option A) : res StoreErr A := ok_or o FieldNotInitilized.

Record ChildIndexEntry : Type := mkChildIndexEntry {
  cie_slot : Z;
  cie_parent_root : B256;
}.

Section db.
Context {SS : SszTypes} {RD : Redb}.

Record LeanDB : Type := mkLeanDB {
  t_block : Table B256 SignedBlock;
  t_children : Table B256 ChildIndexEntry;
  t_slot_index : Table Z B256;
  t_state_root_index : Table B256 B256;
  t_state : Table B256 LeanState;
  t_pending : Table B256 SignedBlock;
  t_known_attestation : Table Z SignedAttestation;
  t_new_payloads : Table SignatureKey (list SingleMessageAggregate);
  t_known_payloads : Table SignatureKey (list SingleMessageAggregate);
  t_data : Table B256 AttestationData;
  t_signatures : Table SignatureKey Signature;
  f_head : option B256;
  f_safe_target : option B256;
  f_justified : option Checkpoint;
  f_finalized : option Checkpoint;
  f_time : option Z;
  f_validator_id : option (option Z);
}.

(** Field assignments. *)
Definition set_t_block (v : Table B256 SignedBlock) (d : LeanDB) : LeanDB :=
  mkLeanDB v (t_children d) (t_slot_index d) (t_state_root_index d) (t_state d) (t_pending d)
    (t_known_attestation d) (t_new_payloads d) (t_known_payloads d) (t_data d)
    (t_signatures d) (f_head d) (f_safe_target d) (f_justified d) (f_finalized d) (f_time d)
    (f_validator_id d).
Definition set_t_children (v : Table B256 ChildIndexEntry) (d : LeanDB) : LeanDB :=
  mkLeanDB (t_block d) v (t_slot_index d) (t_state_root_index d) (t_state d) (t_pending d)
    (t_known_attestation d) (t_new_payloads d) (t_known_payloads d) (t_data d)
    (t_signatures d) (f_head d) (f_safe_target d) (f_justified d) (f_finalized d) (f_time d)
    (f_validator_id d).
Definition set_t_slot_index (v : Table Z B256) (d : LeanDB) : LeanDB :=
  mkLeanDB (t_block d) (t_children d) v (t_state_root_index d) (t_state d) (t_pending d)
    (t_known_attestation d) (t_new_payloads d) (t_known_payloads d) (t_data d)
    (t_signatures d) (f_head d) (f_safe_target d) (f_justified d) (f_finalized d) (f_time d)
    (f_validator_id d).
Definition set_t_state_root_index (v : Table B256 B256) (d : LeanDB) : LeanDB :=
  mkLeanDB (t_block d) (t_children d) (t_slot_index d) v (t_state d) (t_pending d)
    (t_known_attestation d) (t_new_payloads d) (t_known_payloads d) (t_data d)
    (t_signatures d) (f_head d) (f_safe_target d) (f_justified d) (f_finalized d) (f_time d)
    (f_validator_id d).
Definition set_t_state (v : Table B256 LeanState) (d : LeanDB) : LeanDB :=
  mkLeanDB (t_block d) (t_children d) (t_slot_index d) (t_state_root_index d) v (t_pending d)
    (t_known_attestation d) (t_new_payloads d) (t_known_payloads d) (t_data d)
    (t_signatures d) (f_head d) (f_safe_target d) (f_justified d) (f_finalized d) (f_time d)
    (f_validator_id d).
Definition set_t_pending (v : Table B256 SignedBlock) (d : LeanDB) : LeanDB :=
  mkLeanDB (t_block d) (t_children d) (t_slot_index d) (t_state_root_index d) (t_state d) v
    (t_known_attestation d) (t_new_payloads d) (t_known_payloads d) (t_data d)
    (t_signatures d) (f_head d) (f_safe_target d) (f_justified d) (f_finalized d) (f_time d)
    (f_validator_id d).
Definition set_t_known_attestation (v : Table Z SignedAttestation) (d : LeanDB) : LeanDB :=
  mkLeanDB (t_block d) (t_children d) (t_slot_index d) (t_state_root_index d) (t_state d)
    (t_pending d) v (t_new_payloads d) (t_known_payloads d) (t_data d) (t_signatures d)
    (f_head d) (f_safe_target d) (f_justified d) (f_finalized d) (f_time d)
    (f_validator_id d).
Definition set_t_new_payloads (v : Table SignatureKey (list SingleMessageAggregate)) (d : LeanDB) : LeanDB :=
  mkLeanDB (t_block d) (t_children d) (t_slot_index d) (t_state_root_index d) (t_state d)
    (t_pending d) (t_known_attestation d) v (t_known_payloads d) (t_data d) (t_signatures d)
    (f_head d) (f_safe_target d) (f_justified d) (f_finalized d) (f_time d)
    (f_validator_id d).
Definition set_t_known_payloads (v : Table SignatureKey (list SingleMessageAggregate)) (d : LeanDB) : LeanDB :=
  mkLeanDB (t_block d) (t_children d) (t_slot_index d) (t_state_root_index d) (t_state d)
    (t_pending d) (t_known_attestation d) (t_new_payloads d) v (t_data d) (t_signatures d)
    (f_head d) (f_safe_target d) (f_justified d) (f_finalized d) (f_time d)
    (f_validator_id d).
Definition set_t_data (v : Table B256 AttestationData) (d : LeanDB) : LeanDB :=
  mkLeanDB (t_block d) (t_children d) (t_slot_index d) (t_state_root_index d) (t_state d)
    (t_pending d) (t_known_attestation d) (t_new_payloads d) (t_known_payloads d) v
    (t_signatures d) (f_head d) (f_safe_target d) (f_justified d) (f_finalized d) (f_time d)
    (f_validator_id d).
Definition set_t_signatures (v : Table SignatureKey Signature) (d : LeanDB) : LeanDB :=
  mkLeanDB (t_block d) (t_children d) (t_slot_index d) (t_state_root_index d) (t_state d)
    (t_pending d) (t_known_attestation d) (t_new_payloads d) (t_known_payloads d) (t_data d)
    v (f_head d) (f_safe_target d) (f_justified d) (f_finalized d) (f_time d)
    (f_validator_id d).
Definition set_f_head (v : option B256) (d : LeanDB) : LeanDB :=
  mkLeanDB (t_block d) (t_children d) (t_slot_index d) (t_state_root_index d) (t_state d)
    (t_pending d) (t_known_attestation d) (t_new_payloads d) (t_known_payloads d) (t_data d)
    (t_signatures d) v (f_safe_target d) (f_justified d) (f_finalized d) (f_time d)
    (f_validator_id d).
Definition set_f_safe_target (v : option B256) (d : LeanDB) : LeanDB :=
  mkLeanDB (t_block d) (t_children d) (t_slot_index d) (t_state_root_index d) (t_state d)
    (t_pending d) (t_known_attestation d) (t_new_payloads d) (t_known_payloads d) (t_data d)
    (t_signatures d) (f_head d) v (f_justified d) (f_finalized d) (f_time d)
    (f_validator_id d).
Definition set_f_justified (v : option Checkpoint) (d : LeanDB) : LeanDB :=
  mkLeanDB (t_block d) (t_children d) (t_slot_index d) (t_state_root_index d) (t_state d)
    (t_pending d) (t_known_attestation d) (t_new_payloads d) (t_known_payloads d) (t_data d)
    (t_signatures d) (f_head d) (f_safe_target d) v (f_finalized d) (f_time d)
    (f_validator_id d).
Definition set_f_finalized (v : option Checkpoint) (d : LeanDB) : LeanDB :=
  mkLeanDB (t_block d) (t_children d) (t_slot_index d) (t_state_root_index d) (t_state d)
    (t_pending d) (t_known_attestation d) (t_new_payloads d) (t_known_payloads d) (t_data d)
    (t_signatures d) (f_head d) (f_safe_target d) (f_justified d) v (f_time d)
    (f_validator_id d).
Definition set_f_time (v : option Z) (d : LeanDB) : LeanDB :=
  mkLeanDB (t_block d) (t_children d) (t_slot_index d) (t_state_root_index d) (t_state d)
    (t_pending d) (t_known_attestation d) (t_new_payloads d) (t_known_payloads d) (t_data d)
    (t_signatures d) (f_head d) (f_safe_target d) (f_justified d) (f_finalized d) v
    (f_validator_id d).
Definition set_f_validator_id (v : option (option Z)) (d : LeanDB) : LeanDB :=
  mkLeanDB (t_block d) (t_children d) (t_slot_index d) (t_state_root_index d) (t_state d)
    (t_pending d) (t_known_attestation d) (t_new_payloads d) (t_known_payloads d) (t_data d)
    (t_signatures d) (f_head d) (f_safe_target d) (f_justified d) (f_finalized d) (f_time d)
    v.

(** ** Blocks *)

Context {HBl : TreeHash Block}.

Definition block_get (d : LeanDB) (key : B256) : option SignedBlock := rd_get (t_block d) key.

Definition block_contains_key (d : LeanDB) (key : B256) : bool :=
  match block_get d key with Some _ => true | None => false end.

(** [insert_ref]: the block, and its entries of the slot, state-root and children
    indices, which are keyed by the root of the block whatever [key] is. *)
Definition block_insert_ref (key : B256) (value : SignedBlock) (d : LeanDB) : LeanDB :=
  let block := sb_block value in
  let block_root := tree_hash_root block in
  let d := set_t_slot_index (rd_insert (blk_slot block) block_root (t_slot_index d)) d in
  let d := set_t_state_root_index (rd_insert (blk_state_root block) block_root (t_state_root_index d)) d in
  let d := set_t_children (rd_insert block_root
             (mkChildIndexEntry (blk_slot block) (blk_parent_root block)) (t_children d)) d in
  set_t_block (rd_insert key value (t_block d)) d.

Definition get_all_blocks (d : LeanDB) (min_slot : Z) : list SignedBlock :=
  filter (fun b => min_slot <= blk_slot (sb_block b)) (rd_iter (t_block d)).*2.

(** ** The children index *)

Definition get_index_map (d : LeanDB) : gmap B256 (B256 * Z) :=
  foldl (fun m '(root, e) => <[root := (cie_parent_root e, cie_slot e)]> m) ∅ (rd_iter (t_children d)).

(** [map.entry(k).or_default().push(x)]. *)
Definition push_child (m : gmap B256 (list B256)) (parent root : B256) : gmap B256 (list B256) :=
  <[parent := default [] (m !! parent) ++ [root]]> m.

Definition get_children_map (d : LeanDB) (min_score : Z) (attestation_weights : gmap B256 Z)
  : gmap B256 (list B256) :=
  foldl (fun m '(root, e) =>
      if cie_parent_root e =? B256_ZERO then m
      else if (0 <? min_score) && (default 0 (attestation_weights !! root) <? min_score) then m
      else push_child m (cie_parent_root e) root)
    ∅ (rd_iter (t_children d)).

(** [prune_finalized], with the number of entries it removes. *)
Definition prune_finalized (finalized_slot : Z) (d : LeanDB) : LeanDB * nat :=
  let stale_roots :=
    (filter (fun e => cie_slot e.2 < finalized_slot) (rd_iter (t_children d))).*1 in
  if bool_decide (stale_roots = []) then (d, 0%nat)
  else (set_t_children (foldl (fun t root => rd_remove root t) (t_children d) stale_roots) d,
        length stale_roots).

(** ** The slot index *)

Definition get_oldest_slot (d : LeanDB) : option Z := fst <$> rd_first (t_slot_index d).
Definition get_oldest_root (d : LeanDB) : option B256 := snd <$> rd_first (t_slot_index d).
Definition get_highest_slot (d : LeanDB) : option Z := fst <$> rd_last (t_slot_index d).
Definition get_highest_root (d : LeanDB) : option B256 := snd <$> rd_last (t_slot_index d).

(** ** States *)

Definition state_get (d : LeanDB) (key : B256) : option LeanState := rd_get (t_state d) key.
Definition state_insert (key : B256) (value : LeanState) (d : LeanDB) : LeanDB :=
  set_t_state (rd_insert key value (t_state d)) d.

(** ** Attestation data and payloads *)

Definition data_get (d : LeanDB) (key : B256) : option AttestationData := rd_get (t_data d) key.
Definition data_insert (key : B256) (value : AttestationData) (d : LeanDB) : LeanDB :=
  set_t_data (rd_insert key value (t_data d)) d.
Definition data_retain (f : B256 -> AttestationData -> bool) (d : LeanDB) : LeanDB :=
  set_t_data (rd_retain f (t_data d)) d.

Definition new_insert (key : SignatureKey) (v : list SingleMessageAggregate) (d : LeanDB) : LeanDB :=
  set_t_new_payloads (rd_insert key v (t_new_payloads d)) d.
Definition new_retain (f : SignatureKey -> bool) (d : LeanDB) : LeanDB :=
  set_t_new_payloads (rd_retain (fun k _ => f k) (t_new_payloads d)) d.

(** [drain]: every entry popped off the table. *)
Definition new_drain (d : LeanDB) : gmap SignatureKey (list SingleMessageAggregate) * LeanDB :=
  (foldl (fun m '(k, v) => <[k := v]> m) ∅ (rd_iter (t_new_payloads d)), set_t_new_payloads rd_empty d).

Definition known_insert (key : SignatureKey) (v : list SingleMessageAggregate) (d : LeanDB) : LeanDB :=
  set_t_known_payloads (rd_insert key v (t_known_payloads d)) d.
Definition known_retain (f : SignatureKey -> bool) (d : LeanDB) : LeanDB :=
  set_t_known_payloads (rd_retain (fun k _ => f k) (t_known_payloads d)) d.
Definition known_iter_keys (d : LeanDB) : list SignatureKey := (rd_iter (t_known_payloads d)).*1.

(** ** Gossip signatures and known attestations *)

Definition signature_get_keys (d : LeanDB) : list SignatureKey := (rd_iter (t_signatures d)).*1.
Definition signature_insert (key : SignatureKey) (v : Signature) (d : LeanDB) : LeanDB :=
  set_t_signatures (rd_insert key v (t_signatures d)) d.
Definition signature_retain (f : SignatureKey -> bool) (d : LeanDB) : LeanDB :=
  set_t_signatures (rd_retain (fun k _ => f k) (t_signatures d)) d.

Definition known_attestation_batch_insert (values : list (Z * SignedAttestation)) (d : LeanDB) : LeanDB :=
  set_t_known_attestation (foldl (fun t '(k, v) => rd_insert k v t) (t_known_attestation d) values) d.
Definition get_all_attestations (d : LeanDB) : gmap Z SignedAttestation :=
  foldl (fun m '(k, v) => <[k := v]> m) ∅ (rd_iter (t_known_attestation d)).

End db.

(** ** What the scans over a table compute *)

Section db_laws.
Context {SS : SszTypes} {RD : Redb} {RL : RedbLaws RD}.

Lemma foldl_insert_spec `{Countable K} {V W} (g : V -> W) (l : list (K * V)) : forall m : gmap K W,
  NoDup l.*1 -> (forall k, k ∈ l.*1 -> m !! k = None) ->
  foldl (fun m '(k, v) => <[k := g v]> m) m l = (g <$> list_to_map l) ∪ m.
Proof.
  induction l as [|[k v] l IH]; intros m Hnd Hm; cbn.
  - by rewrite fmap_empty, map_empty_union.
  - apply NoDup_cons in Hnd as [Hk Hnd]. rewrite IH; [|done|].
    + rewrite fmap_insert, <-insert_union_l.
      rewrite insert_union_r; [done|]. rewrite lookup_fmap, (not_elem_of_list_to_map_1 l k Hk). done.
    + intros k' Hk'. rewrite lookup_insert_ne; [|set_solver]. apply Hm. set_solver.
Qed.

Lemma get_index_map_view d :
  get_index_map d = (fun e => (cie_parent_root e, cie_slot e)) <$> rd_view (t_children d).
Proof.
  unfold get_index_map, rd_view.
  rewrite (foldl_insert_spec (fun e => (cie_parent_root e, cie_slot e))); [|apply rd_iter_nodup|done].
  by rewrite map_union_empty.
Qed.

Lemma new_drain_view d :
  (new_drain d).1 = rd_view (t_new_payloads d) /\ (new_drain d).2 = set_t_new_payloads rd_empty d.
Proof.
  split; [|done]. unfold new_drain, rd_view. cbn.
  rewrite (foldl_insert_spec id); [|apply rd_iter_nodup|done].
  by rewrite map_union_empty, map_fmap_id.
Qed.

Lemma get_all_attestations_view d : get_all_attestations d = rd_view (t_known_attestation d).
Proof.
  unfold get_all_attestations, rd_view.
  rewrite (foldl_insert_spec id); [|apply rd_iter_nodup|done].
  by rewrite map_union_empty, map_fmap_id.
Qed.

Lemma elem_of_known_iter_keys d k : k ∈ known_iter_keys d <-> is_Some (rd_view (t_known_payloads d) !! k).
Proof.
  unfold known_iter_keys. rewrite list_elem_of_fmap. split.
  - intros ([k' v] & -> & Hk%elem_of_rd_iter). eauto.
  - intros [v Hv]. exists (k, v). split; [done|]. by apply elem_of_rd_iter.
Qed.

Lemma block_contains_key_true d k : block_contains_key d k = true <-> is_Some (rd_view (t_block d) !! k).
Proof.
  unfold block_contains_key, block_get. rewrite rd_get_view.
  destruct (rd_view (t_block d) !! k); split; try done; by intros [].
Qed.

(** [prune_finalized] keeps exactly the entries at or above the finalized slot. *)
Lemma prune_finalized_view d f :
  rd_view (t_children (prune_finalized f d).1)
  = map_retain (fun _ e => f <=? cie_slot e) (rd_view (t_children d)).
Proof.
  unfold prune_finalized. set (stale := (filter _ _).*1).
  assert (Hst : forall k, k ∈ stale <-> exists e, rd_view (t_children d) !! k = Some e /\ cie_slot e < f).
  { intros k. unfold stale. rewrite list_elem_of_fmap. split.
    - intros ([k' e] & -> & [Hlt He%elem_of_rd_iter]%list_elem_of_filter). eauto.
    - intros (e & He & Hlt). exists (k, e). split; [done|]. apply list_elem_of_filter.
      split; [done|]. by apply elem_of_rd_iter. }
  assert (Hfold : forall ks (t : Table B256 ChildIndexEntry) k, rd_view (foldl (fun t root => rd_remove root t) t ks) !! k
    = if bool_decide (k ∈ ks) then None else rd_view t !! k).
  { induction ks as [|x ks IH]; intros t k; cbn [foldl]; [by rewrite bool_decide_eq_false_2 by set_solver|].
    rewrite IH, rd_view_remove. case_bool_decide.
    - by rewrite bool_decide_eq_true_2 by set_solver.
    - destruct (decide (k = x)) as [->|].
      + by rewrite lookup_delete_eq, bool_decide_eq_true_2 by set_solver.
      + rewrite lookup_delete_ne by done. by rewrite bool_decide_eq_false_2 by set_solver. }
  assert (Hv : forall t', (forall k, rd_view t' !! k = if bool_decide (k ∈ stale) then None
      else rd_view (t_children d) !! k) ->
    rd_view t' = map_retain (fun _ e => f <=? cie_slot e) (rd_view (t_children d))).
  { intros t' Ht. apply map_eq. intros k. apply option_eq. intros e.
    rewrite Ht, map_retain_Some. case_bool_decide as Hk.
    - split; [done|]. apply Hst in Hk as (e' & He' & ?). intros [? ?]. simplify_eq. b2p. lia.
    - split; [|by intros [? _]]. intros He. split; [done|]. apply Z.leb_le.
      destruct (decide (f <= cie_slot e)); [done|]. exfalso. apply Hk, Hst. exists e. split; [done|lia]. }
  case_if; cbn; apply Hv; intros k; [|apply Hfold].
  b2p. match goal with H : stale = [] |- _ => rewrite H end.
  by rewrite bool_decide_eq_false_2 by set_solver.
Qed.
End db_laws.
