(* ===== verification/Ghost.v ===== *)
(** * LMD GHOST

    [Store::compute_lmd_ghost_head] of [crates/common/fork_choice/lean/src/store.rs]:
    vote weights over the index of blocks, the map of children, and the walk from a
    root to the heaviest leaf.  The specification is the walk as a relation on the
    block tree; the implementation is shown to compute it for every iteration order
    of the hash maps and every order of the votes. *)

From S2P Require Import Prelude Redb Ssz LeanTypes LeanState LeanDB.

Section ghost.
Context {SS : SszTypes} {RD : Redb} {HO : HashOrder}.

(** [root -> (parent_root, slot)]. *)
Abbreviation index_map := (gmap B256 (B256 * Z)).

(** The [while let] loop over the ancestors of a vote's head. *)
Fixpoint add_vote (fuel : nat) (index : index_map) (start_slot : Z) (weights : gmap B256 Z)
    (current_root : B256) : res StoreErr (gmap B256 Z) :=
  match index !! current_root with
  | None => Ok weights
  | Some (parent_root, slot) =>
      if slot <=? start_slot then Ok weights else
      match fuel with
      | O => NoFuel
      | S fuel =>
          add_vote fuel index start_slot
            (<[current_root := (default 0 (weights !! current_root) + 1)%u64]> weights) parent_root
      end
  end.

(** One vote for every ancestor of every head. *)
Definition vote_weights (index : index_map) (start_slot : Z) (heads : list B256)
  : res StoreErr (gmap B256 Z) :=
  foldM (fun weights head => add_vote (size index) index start_slot weights head) ∅ heads.

(** The children of each block, those below the minimal score left out. *)
Definition build_children_map (index : index_map) (min_score : Z) (weights : gmap B256 Z)
  : gmap B256 (list B256) :=
  foldl (fun m '(block_root, (parent_root, _)) =>
      if parent_root =? B256_ZERO then m
      else if (0 <? min_score) && (default 0 (weights !! block_root) <? min_score) then m
      else push_child m parent_root block_root)
    ∅ (hm_iter index).

(** The order of [max_by_key] on [(vote_weight, child_hash)]. *)
Definition key_leb (a b : B256 * Z * (Z * B256)) : bool :=
  let '(wa, ha) := a.2 in let '(wb, hb) := b.2 in
  (wa <? wb) || ((wa =? wb) && (ha <=? hb)).

(** A child with its slot and its key. *)
Definition child_key (index : index_map) (weights : gmap B256 Z) (child_hash : B256)
  : B256 * Z * (Z * B256) :=
  (child_hash, default 0 (snd <$> index !! child_hash),
   (default 0 (weights !! child_hash), child_hash)).

(** The walk to the head. *)
Fixpoint walk (fuel : nat) (index : index_map) (weights : gmap B256 Z)
    (children_map : gmap B256 (list B256)) (head : B256) (head_slot : Z)
  : res StoreErr (B256 * Z) :=
  match children_map !! head with
  | None => Ok (head, head_slot)
  | Some children =>
      match fuel with
      | O => NoFuel
      | S fuel =>
          best ← ok_or (max_by key_leb (child_key index weights <$> children)) NoBlocksFound;
          walk fuel index weights children_map best.1.1 best.1.2
      end
  end.

(** Where the walk starts: the given root if it is indexed, else the oldest block. *)
Definition ghost_start (d : LeanDB) (provided_root : B256) : res StoreErr (B256 * Z) :=
  let index := get_index_map d in
  root ←
    (if (provided_root =? B256_ZERO) || bool_decide (index !! provided_root = None)
     then ok_or (get_oldest_root d) NoBlocksFound
     else Ok provided_root);
  start_slot ←
    match index !! root with
    | Some (_, slot) => Ok slot
    | None => b ← ok_or (block_get d root) BlockNotFound; Ok (blk_slot (sb_block b))
    end;
  Ok (root, start_slot).

Definition compute_lmd_ghost_head (d : LeanDB) (attestations : list SignedAttestation)
    (provided_root : B256) (min_score : Z) : res StoreErr (B256 * Z) :=
  let index := get_index_map d in
  '(root, start_slot) ← ghost_start d provided_root;
  weights ← vote_weights index start_slot
              ((fun a => cp_root (ad_head (sa_message a))) <$> attestations);
  let children_map := build_children_map index min_score weights in
  walk (S (size index)) index weights children_map root start_slot.

(** ** Specification *)

(** Slots grow from parent to child. *)
Definition wf_index (index : index_map) : Prop :=
  forall c p sl p' slp, index !! c = Some (p, sl) -> index !! p = Some (p', slp) -> slp < sl.

(** [b] is on the way from [h] to the start slot: [h] is [b] or descends from it. *)
Inductive votes_for (index : index_map) (start : Z) : B256 -> B256 -> Prop :=
| vf_here h p sl : index !! h = Some (p, sl) -> start < sl -> votes_for index start h h
| vf_up h p sl b :
    index !! h = Some (p, sl) -> start < sl -> votes_for index start p b -> votes_for index start h b.

(** The blocks a vote counts for, as a list. *)
Fixpoint voted_blocks (fuel : nat) (index : index_map) (start : Z) (h : B256) : list B256 :=
  match fuel with
  | O => []
  | S fuel =>
      match index !! h with
      | Some (p, sl) => if sl <=? start then [] else h :: voted_blocks fuel index start p
      | None => []
      end
  end.

(** How many of the heads descend from [b] (or are [b]). *)
Definition weight (index : index_map) (start : Z) (heads : list B256) (b : B256) : Z :=
  Z.of_nat (length (filter (fun h => b ∈ voted_blocks (size index) index start h) heads)).

(** The children the walk may choose from. *)
Definition eligible (index : index_map) (min_score : Z) (w : B256 -> Z) (p c : B256) : Prop :=
  exists sl, index !! c = Some (p, sl) /\ p <> B256_ZERO /\ (min_score <= 0 \/ min_score <= w c).

(** The child with the most votes, the greater root among equals. *)
Definition best_child (index : index_map) (min_score : Z) (w : B256 -> Z) (p c : B256) : Prop :=
  eligible index min_score w p c /\
  forall c', eligible index min_score w p c' -> w c' < w c \/ w c' = w c /\ c' <= c.

(** [h] is where the walk from [r] ends. *)
Definition ghost_head (index : index_map) (min_score : Z) (w : B256 -> Z) (r h : B256) : Prop :=
  rtc (best_child index min_score w) r h /\ forall c, ~ eligible index min_score w h c.

Lemma best_child_unique index ms w p c c' :
  best_child index ms w p c -> best_child index ms w p c' -> c = c'.
Proof. intros [H1 H2] [H3 H4]. specialize (H2 _ H3). specialize (H4 _ H1). lia. Qed.

(** There is only one head. *)
Lemma ghost_head_unique index ms w r h h' :
  ghost_head index ms w r h -> ghost_head index ms w r h' -> h = h'.
Proof.
  intros [H1 L1] [H2 L2]. revert h' H2 L2. induction H1 as [r|r c h Hc _ IH]; intros h' H2 L2.
  - inversion H2 as [|? c ? [Hc _]]; [done|]. by destruct (L1 c).
  - inversion H2 as [|? c' ? Hc' H2']; subst; [destruct Hc as [Hc _]; by destruct (L2 c)|].
    rewrite (best_child_unique _ _ _ _ _ _ Hc Hc') in *. by apply IH.
Qed.
End ghost.

(** ** The weights *)

Section weights.
Context (index : gmap B256 (B256 * Z)) (W : wf_index index).

(** How many blocks are not above a block. *)
Definition depth (r : B256) : nat :=
  match index !! r with
  | None => 0%nat
  | Some (_, sl) => size (filter (fun e : B256 * (B256 * Z) => e.2.2 <= sl) index)
  end.

Lemma filter_size_lt (P Q : B256 * (B256 * Z) -> Prop) `{!forall x, Decision (P x), !forall x, Decision (Q x)} k e :
  (forall x, P x -> Q x) -> index !! k = Some e -> Q (k, e) -> ~ P (k, e) ->
  (size (filter P index) < size (filter Q index))%nat.
Proof using.
  intros HPQ Hk HQ HP. rewrite <-!size_dom. apply subset_size. split.
  - intros x [v [Hv Hx]%map_lookup_filter_Some]%elem_of_dom.
    apply elem_of_dom. exists v. apply map_lookup_filter_Some. auto.
  - intros Hsub. assert (Hin : k ∈ dom (filter P index)).
    { apply Hsub, elem_of_dom. exists e. by apply map_lookup_filter_Some. }
    apply elem_of_dom in Hin as [v [Hv Hx]%map_lookup_filter_Some]. by simplify_eq.
Qed.

Lemma filter_size_le (P : B256 * (B256 * Z) -> Prop) `{!forall x, Decision (P x)} :
  (size (filter P index) <= size index)%nat.
Proof using. rewrite <-!size_dom. apply subseteq_size, dom_filter_subseteq. Qed.

Lemma depth_parent r p sl : index !! r = Some (p, sl) -> (depth p < depth r)%nat.
Proof using W.
  intros Hr. unfold depth. rewrite Hr. destruct (index !! p) as [[p' slp]|] eqn:Hp.
  - pose proof (W _ _ _ _ _ Hr Hp). eapply (filter_size_lt _ _ r); [|exact Hr|cbn; lia..].
    cbn. lia.
  - destruct (size _) eqn:Hs; [|lia]. exfalso.
    apply map_size_empty_iff in Hs.
    assert (Hl : (filter (fun e : B256 * (B256 * Z) => e.2.2 <= sl) index) !! r = Some (p, sl))
      by (apply map_lookup_filter_Some; split; [done|cbn; lia]).
    by rewrite Hs in Hl.
Qed.

Lemma depth_size r : (depth r <= size index)%nat.
Proof using. unfold depth. destruct (index !! r) as [[p sl]|]; [apply filter_size_le|lia]. Qed.

(** The blocks a vote counts for are above the start and not above the head. *)
Lemma voted_blocks_slot start fuel : forall r b,
  b ∈ voted_blocks fuel index start r ->
  exists pr slr pb slb, index !! r = Some (pr, slr) /\ index !! b = Some (pb, slb) /\ start < slb <= slr.
Proof using W.
  induction fuel as [|fuel IH]; intros r b; cbn; [by intros ?%elem_of_nil|].
  destruct (index !! r) as [[p sl]|] eqn:Hr; [|by intros ?%elem_of_nil].
  case_if; [by intros ?%elem_of_nil|]. b2p. intros [->|Hb]%elem_of_cons.
  - exists p, sl, p, sl. split_and!; [done..|lia|lia].
  - apply IH in Hb as (pp & slp & pb & slb & Hp & Hb & ? & ?). pose proof (W _ _ _ _ _ Hr Hp).
    exists p, sl, pb, slb. split_and!; [done..|lia|lia].
Qed.

(** With enough fuel the list of voted blocks is the relation. *)
Lemma elem_of_voted_blocks start fuel : forall r b,
  (depth r <= fuel)%nat -> b ∈ voted_blocks fuel index start r <-> votes_for index start r b.
Proof using W.
  induction fuel as [|fuel IH]; intros r b Hf; cbn.
  - split; [by intros ?%elem_of_nil|]. intros Hv. exfalso.
    assert (Hr : exists p sl, index !! r = Some (p, sl)) by (destruct Hv; eauto).
    destruct Hr as (p & sl & Hr). pose proof (depth_parent _ _ _ Hr). lia.
  - destruct (index !! r) as [[p sl]|] eqn:Hr.
    2: { split; [by intros ?%elem_of_nil|]. intros Hv. destruct Hv; congruence. }
    pose proof (depth_parent _ _ _ Hr). case_if; b2p.
    + split; [by intros ?%elem_of_nil|]. intros Hv.
      destruct Hv as [? ? ? Hx|? ? ? ? Hx]; rewrite Hr in Hx; injection Hx as <- <-; lia.
    + rewrite elem_of_cons, IH by lia. split.
      * intros [->|Hv]; [by eapply vf_here|by eapply vf_up].
      * intros Hv. destruct Hv as [? ? ? Hx|? ? ? ? Hx]; rewrite Hr in Hx; injection Hx as <- <-; auto.
Qed.

Lemma add_vote_spec start fuel : forall ws r,
  (depth r <= fuel)%nat ->
  (forall b, b ∈ voted_blocks fuel index start r -> 0 <= default 0 (ws !! b) < 2 ^ 64 - 1) ->
  exists ws', add_vote fuel index start ws r = Ok ws' /\
    forall b, default 0 (ws' !! b) =
      default 0 (ws !! b) + if bool_decide (b ∈ voted_blocks fuel index start r) then 1 else 0.
Proof using W.
  induction fuel as [|fuel IH]; intros ws r Hf Hb; cbn [add_vote voted_blocks].
  - destruct (index !! r) as [[p sl]|] eqn:Hr.
    + pose proof (depth_parent _ _ _ Hr). lia.
    + exists ws. split; [done|]. intros b. rewrite bool_decide_eq_false_2 by set_solver. lia.
  - destruct (index !! r) as [[p sl]|] eqn:Hr.
    2: { exists ws. split; [done|]. intros b. rewrite bool_decide_eq_false_2 by set_solver. lia. }
    pose proof (depth_parent _ _ _ Hr).
    cbn [voted_blocks] in Hb. rewrite Hr in Hb. destruct (sl <=? start) eqn:Hsl.
    { exists ws. split; [done|]. intros b. rewrite bool_decide_eq_false_2 by set_solver. lia. }
    assert (Hne : forall b, b ∈ voted_blocks fuel index start p -> b <> r).
    { intros b (pp & slp & pb & slb & Hp & Hb' & ? & ?)%voted_blocks_slot ->.
      pose proof (W _ _ _ _ _ Hr Hp). simplify_eq. lia. }
    destruct (IH (<[r := (default 0 (ws !! r) + 1)%u64]> ws) p) as (ws' & -> & Hw); [lia| |].
    { intros b Hin. rewrite lookup_insert_ne by (by apply not_eq_sym, Hne). apply Hb. by right. }
    exists ws'. split; [done|]. intros b. rewrite Hw.
    destruct (decide (b = r)) as [->|Hbr].
    + rewrite lookup_insert_eq. cbn. pose proof (Hb r ltac:(left)) as Hr0.
      rewrite u64_add_id by u64_solve.
      rewrite bool_decide_eq_false_2 by (intros Hx; by apply (Hne r)).
      rewrite bool_decide_eq_true_2 by set_solver. lia.
    + rewrite lookup_insert_ne by done.
      by rewrite (bool_decide_ext (b ∈ r :: voted_blocks fuel index start p)
        (b ∈ voted_blocks fuel index start p)) by set_solver.
Qed.

(** Without a bound on the number of votes the loop still stops. *)
Lemma add_vote_total start fuel : forall ws r,
  (depth r <= fuel)%nat -> exists ws', add_vote fuel index start ws r = Ok ws'.
Proof using W.
  induction fuel as [|fuel IH]; intros ws r Hf; cbn [add_vote];
    destruct (index !! r) as [[p sl]|] eqn:Hr; try (by eexists);
    pose proof (depth_parent _ _ _ Hr); case_if; try (by eexists); [lia|].
  apply IH. lia.
Qed.

Lemma vote_weights_total start heads : exists ws, vote_weights index start heads = Ok ws.
Proof using W.
  unfold vote_weights. destruct (foldM_Ok (fun _ => True)
    (fun weights head => add_vote (size index) index start weights head) heads ∅)
    as (ws & H & _); [done| |eauto].
  intros ws h _ _. destruct (add_vote_total start (size index) ws h (depth_size h)). eauto.
Qed.

Lemma weight_app start hs hs' b :
  weight index start (hs ++ hs') b = weight index start hs b + weight index start hs' b.
Proof using. unfold weight. rewrite filter_app, length_app. lia. Qed.

Lemma weight_perm start hs hs' b : hs ≡ₚ hs' -> weight index start hs b = weight index start hs' b.
Proof using. intros H. unfold weight. by rewrite H. Qed.

Lemma weight_bound start hs b : 0 <= weight index start hs b <= Z.of_nat (length hs).
Proof using.
  unfold weight. pose proof (length_filter (fun h => b ∈ voted_blocks (size index) index start h) hs).
  lia.
Qed.

Lemma weight_singleton start h b :
  weight index start [h] b = if bool_decide (b ∈ voted_blocks (size index) index start h) then 1 else 0.
Proof using.
  unfold weight. rewrite filter_cons. case_bool_decide; case_decide; done.
Qed.

(** The weights are the numbers of heads that descend from each block. *)
Lemma vote_weights_spec start heads : Z.of_nat (length heads) < 2 ^ 64 ->
  exists ws, vote_weights index start heads = Ok ws /\
    forall b, default 0 (ws !! b) = weight index start heads b.
Proof using W.
  unfold vote_weights.
  assert (H : forall heads pre ws, Z.of_nat (length (pre ++ heads)) < 2 ^ 64 ->
    (forall b, default 0 (ws !! b) = weight index start pre b) ->
    exists ws', foldM (fun weights head => add_vote (size index) index start weights head) ws heads
      = Ok ws' /\ forall b, default 0 (ws' !! b) = weight index start (pre ++ heads) b).
  { clear heads. induction heads as [|h heads IH]; intros pre ws Hl Hw.
    - exists ws. rewrite app_nil_r. done.
    - cbn [foldM]. destruct (add_vote_spec start (size index) ws h) as (ws1 & -> & H1).
      + apply depth_size.
      + intros b _. rewrite Hw. pose proof (weight_bound start pre b).
        rewrite length_app in Hl. cbn in Hl. lia.
      + cbn [mbind res_bind]. rewrite (cons_middle h pre heads). rewrite (app_assoc pre).
        apply IH; [by rewrite <-app_assoc|]. intros b. by rewrite H1, Hw, weight_app, weight_singleton. }
  intros Hl. destruct (H heads [] ∅) as (ws & H1 & H2); [done|done|]. eauto.
Qed.
End weights.

(** ** The children map and the walk *)

Section walk.
Context {SS : SszTypes} {HO : HashOrder} {HL : HashOrderLaws HO}.
Context (index : gmap B256 (B256 * Z)) (W : wf_index index).
Context (min_score : Z) (ws : gmap B256 Z).
Abbreviation w := (fun b => default 0 (ws !! b)).

Lemma build_children_map_spec :
  let m := build_children_map index min_score ws in
  (forall p l, m !! p = Some l -> l <> []) /\
  forall p c, c ∈ default [] (m !! p) <-> eligible index min_score w p c.
Proof using W HL.
  set (f := fun (m : gmap B256 (list B256)) (e : B256 * (B256 * Z)) =>
    let '(block_root, (parent_root, _)) := e in
    if parent_root =? B256_ZERO then m
    else if (0 <? min_score) && (default 0 (ws !! block_root) <? min_score) then m
    else push_child m parent_root block_root).
  change (build_children_map index min_score ws) with (foldl f ∅ (hm_iter index)). cbv zeta.
  assert (H : forall l m, (forall p l', m !! p = Some l' -> l' <> []) ->
    (forall p l', foldl f m l !! p = Some l' -> l' <> []) /\
    forall p c, c ∈ default [] (foldl f m l !! p) <->
      c ∈ default [] (m !! p) \/
      exists sl, (c, (p, sl)) ∈ l /\ p <> B256_ZERO /\ (min_score <= 0 \/ min_score <= w c)).
  { induction l as [|[c0 [p0 sl0]] l IH]; intros m Hm; cbn [foldl].
    - split; [done|]. intros p c. set_solver.
    - assert (Hm' : forall p l', f m (c0, (p0, sl0)) !! p = Some l' -> l' <> []).
      { intros p l'. unfold f, push_child. do 2 (case_if; [by apply Hm|]).
        rewrite lookup_insert. case_decide; [|by apply Hm]. intros [= <-]. by destruct (default [] _). }
      destruct (IH _ Hm') as [H1 H2]. split; [done|]. intros p c. rewrite H2.
      assert (Hf : c ∈ default [] (f m (c0, (p0, sl0)) !! p) <->
        c ∈ default [] (m !! p) \/ c = c0 /\ p = p0 /\ p0 <> B256_ZERO /\
        (min_score <= 0 \/ min_score <= w c0)).
      { unfold f, push_child. case_if; b2p; [naive_solver|].
        destruct ((0 <? min_score) && (default 0 (ws !! c0) <? min_score)) eqn:Hc.
        - b2p. split; [by left|]. intros [?|(? & ? & ? & ?)]; [done|lia].
        - rewrite lookup_insert. apply andb_false_iff in Hc.
          assert (min_score <= 0 \/ min_score <= w c0) by (destruct Hc; b2p; lia).
          case_decide; subst; cbn; [|set_solver]. rewrite elem_of_app, list_elem_of_singleton. intuition. }
      rewrite Hf. setoid_rewrite elem_of_cons. split.
      + intros [[?|(-> & -> & ? & ?)]|(sl & ? & ?)]; [by left|right; exists sl0; auto|right; eauto].
      + intros [?|(sl & [Heq|?] & ?)]; [by left; left| |right; eauto].
        injection Heq as -> -> ->. left. right. tauto. }
  destruct (H (hm_iter index) ∅) as [H1 H2]; [by intros ? ? ?%lookup_empty_Some|].
  split; [done|]. intros p c. rewrite H2. unfold eligible. setoid_rewrite elem_of_hm_iter.
  rewrite lookup_empty. cbn. set_solver.
Qed.

Lemma key_leb_refl a : key_leb a a = true.
Proof using. unfold key_leb. destruct (a.2). rewrite Z.eqb_refl, Z.leb_refl. apply orb_true_r. Qed.

Lemma key_leb_true a b : key_leb a b = true <-> a.2.1 < b.2.1 \/ a.2.1 = b.2.1 /\ a.2.2 <= b.2.2.
Proof using.
  unfold key_leb. destruct (a.2), (b.2). cbn.
  rewrite orb_true_iff, andb_true_iff, Z.ltb_lt, Z.eqb_eq, Z.leb_le. done.
Qed.

Lemma best_child_step h children :
  build_children_map index min_score ws !! h = Some children ->
  exists c, max_by key_leb (child_key index ws <$> children) = Some (child_key index ws c) /\
    best_child index min_score w h c.
Proof using W HL.
  intros Hc. destruct build_children_map_spec as [Hne Hin]. set (f := child_key index ws).
  destruct (max_by_is_Some key_leb (f <$> children)) as [b Hb].
  { specialize (Hne _ _ Hc). by destruct children. }
  pose proof Hb as Hb'. apply max_by_Some in Hb' as [Hel Hmax].
  2: apply key_leb_refl.
  2,3: intros; rewrite ?key_leb_true in *;
       try match goal with H : key_leb _ _ = false |- _ =>
         rewrite <-not_true_iff_false, key_leb_true in H end; lia.
  apply list_elem_of_fmap in Hel as (c & -> & Hel). exists c. split; [done|].
  assert (He : forall c', eligible index min_score w h c' <-> c' ∈ children)
    by (intros c'; rewrite <-Hin, Hc; done).
  split; [by apply He|]. intros c' Hc'. apply He in Hc'.
  assert (Hk : key_leb (f c') (f c) = true) by (apply Hmax, list_elem_of_fmap; eauto).
  apply key_leb_true in Hk. exact Hk.
Qed.

(** How many blocks are above a slot. *)
Definition above (sl : Z) : nat := size (filter (fun e : B256 * (B256 * Z) => sl < e.2.2) index).

Lemma walk_spec fuel : forall h p hs,
  index !! h = Some (p, hs) -> (above hs <= fuel)%nat ->
  exists h' p' hs',
    walk fuel index ws (build_children_map index min_score ws) h hs = Ok (h', hs') /\
    index !! h' = Some (p', hs') /\ ghost_head index min_score w h h'.
Proof using W HL.
  destruct build_children_map_spec as [_ Hin].
  induction fuel as [|fuel IH]; intros h p hs Hh Hf; cbn [walk];
    destruct (build_children_map index min_score ws !! h) as [children|] eqn:Hc.
  - destruct (best_child_step _ _ Hc) as (c & _ & [(sl & Hc' & _) _]).
    pose proof (W _ _ _ _ _ Hc' Hh). exfalso.
    pose proof (filter_size_lt index (fun _ => False) (fun e => hs < e.2.2) c (h, sl)
      ltac:(done) Hc' ltac:(cbn; lia) ltac:(tauto)). unfold above in Hf. lia.
  - exists h, p, hs. split_and!; [done..|]. split; [done|]. intros c Hel. apply Hin in Hel.
    rewrite Hc in Hel. by apply elem_of_nil in Hel.
  - destruct (best_child_step _ _ Hc) as (c & Hm & Hb). rewrite Hm.
    unfold child_key. cbn [ok_or mbind res_bind fst snd].
    pose proof Hb as [(sl & Hc' & _) _]. rewrite Hc'. cbn [fmap option_fmap option_map snd default].
    pose proof (W _ _ _ _ _ Hc' Hh).
    destruct (IH c h sl Hc') as (h' & p' & hs' & Hw & Hh' & [Hr Hl]).
    { pose proof (filter_size_lt index (fun e => sl < e.2.2) (fun e => hs < e.2.2) c (h, sl)
        ltac:(cbn; lia) Hc' ltac:(cbn; lia) ltac:(cbn; lia)). unfold above in *. lia. }
    exists h', p', hs'. split_and!; [done..|]. split; [by eapply rtc_l|done].
  - exists h, p, hs. split_and!; [done..|]. split; [done|]. intros c Hel. apply Hin in Hel.
    rewrite Hc in Hel. by apply elem_of_nil in Hel.
Qed.

(** The same from a root outside the index, one step earlier. *)
Lemma walk_root r rs :
  exists h' hs',
    walk (S (size index)) index ws (build_children_map index min_score ws) r rs = Ok (h', hs') /\
    ghost_head index min_score w r h' /\
    (h' = r /\ hs' = rs \/ exists p', index !! h' = Some (p', hs')).
Proof using W HL.
  destruct build_children_map_spec as [_ Hin]. cbn [walk].
  destruct (build_children_map index min_score ws !! r) as [children|] eqn:Hc.
  - destruct (best_child_step _ _ Hc) as (c & Hm & Hb). rewrite Hm.
    unfold child_key. cbn [ok_or mbind res_bind fst snd].
    pose proof Hb as [(sl & Hc' & _) _]. rewrite Hc'. cbn [fmap option_fmap option_map snd default].
    destruct (walk_spec (size index) c r sl Hc') as (h' & p' & hs' & Hw & Hh' & [Hr Hl]);
      [apply filter_size_le|].
    exists h', hs'. split_and!; [done|split; [by eapply rtc_l|done]|eauto].
  - exists r, rs. split_and!; [done| |by left]. split; [done|]. intros c Hel. apply Hin in Hel.
    rewrite Hc in Hel. by apply elem_of_nil in Hel.
Qed.
End walk.

(** ** The whole computation *)

Section head.
Context {SS : SszTypes} {RD : Redb}.

Lemma eligible_ext index ms w w' p c :
  (forall b, w b = w' b) -> eligible index ms w p c -> eligible index ms w' p c.
Proof. intros He (sl & ? & ? & ?). exists sl. by rewrite <-He. Qed.

Lemma ghost_head_ext index ms w w' r h :
  (forall b, w b = w' b) -> ghost_head index ms w r h -> ghost_head index ms w' r h.
Proof.
  intros He [Hr Hl]. assert (He' : forall b, w' b = w b) by done. split.
  - clear Hl. induction Hr as [|r c h [Hc Hm] _ IH]; [done|]. eapply rtc_l; [|done].
    split; [by eapply eligible_ext|]. intros c' Hc'. rewrite <-!He. apply Hm. by eapply eligible_ext.
  - intros c Hc. apply (Hl c). by eapply eligible_ext.
Qed.

Definition head_roots (atts : list SignedAttestation) : list B256 :=
  (fun a => cp_root (ad_head (sa_message a))) <$> atts.

Lemma ghost_start_slot d provided root start p sl :
  ghost_start d provided = Ok (root, start) -> get_index_map d !! root = Some (p, sl) -> sl = start.
Proof.
  unfold ghost_start. intros H Hi. apply bind_Ok in H as (r & _ & H).
  apply bind_Ok in H as (st & Hs & [= -> ->]). rewrite Hi in Hs. by injection Hs.
Qed.

Lemma compute_lmd_ghost_head_spec {HO : HashOrder} {HL : HashOrderLaws HO} d atts provided ms root start :
  wf_index (get_index_map d) -> Z.of_nat (length atts) < 2 ^ 64 ->
  ghost_start d provided = Ok (root, start) ->
  exists h hs, compute_lmd_ghost_head d atts provided ms = Ok (h, hs) /\
    ghost_head (get_index_map d) ms (weight (get_index_map d) start (head_roots atts)) root h /\
    (h = root /\ hs = start \/ exists p, get_index_map d !! h = Some (p, hs)).
Proof.
  intros W Hl Hs. unfold compute_lmd_ghost_head. rewrite Hs. cbn [mbind res_bind].
  destruct (vote_weights_spec _ W start (head_roots atts)) as (ws & Hw & Hws).
  { unfold head_roots. by rewrite length_fmap. }
  unfold head_roots in Hw. rewrite Hw. cbn [mbind res_bind].
  destruct (walk_root (get_index_map d) W ms ws root start) as (h & hs & -> & Hg & Hi).
  exists h, hs. split_and!; [done| |done]. eapply ghost_head_ext; [|exact Hg]. exact Hws.
Qed.

(** The computation returns a block on the tree under its start, whatever the votes. *)
Lemma compute_lmd_ghost_head_total {HO : HashOrder} {HL : HashOrderLaws HO} d atts provided ms root start :
  wf_index (get_index_map d) -> ghost_start d provided = Ok (root, start) ->
  exists h hs, compute_lmd_ghost_head d atts provided ms = Ok (h, hs) /\
    rtc (fun p c => exists sl, get_index_map d !! c = Some (p, sl)) root h /\
    (h = root /\ hs = start \/ exists p, get_index_map d !! h = Some (p, hs)).
Proof.
  intros W Hs. unfold compute_lmd_ghost_head. rewrite Hs. cbn [mbind res_bind].
  destruct (vote_weights_total _ W start ((fun a => cp_root (ad_head (sa_message a))) <$> atts)) as [ws ->].
  cbn [mbind res_bind].
  destruct (walk_root (get_index_map d) W ms ws root start) as (h & hs & -> & [Hg _] & Hi).
  exists h, hs. split_and!; [done| |done]. eapply rtc_subrel; [|exact Hg].
  intros x y [(sl & Hsl & _) _]. eauto.
Qed.

Lemma ghost_head_perm index start atts atts' ms r h :
  atts ≡ₚ atts' -> ghost_head index ms (weight index start (head_roots atts)) r h ->
  ghost_head index ms (weight index start (head_roots atts')) r h.
Proof.
  intros Hp. apply ghost_head_ext. intros b. apply weight_perm. unfold head_roots. by rewrite Hp.
Qed.

Lemma ghost_order_irrelevant {HO1 HO2 : HashOrder} {HL1 : HashOrderLaws HO1} {HL2 : HashOrderLaws HO2}
    d atts atts' provided ms root start :
  wf_index (get_index_map d) -> Z.of_nat (length atts) < 2 ^ 64 ->
  ghost_start d provided = Ok (root, start) -> atts ≡ₚ atts' ->
  compute_lmd_ghost_head (HO := HO1) d atts provided ms =
  compute_lmd_ghost_head (HO := HO2) d atts' provided ms.
Proof.
  intros W Hl Hs Hp.
  destruct (compute_lmd_ghost_head_spec (HO := HO1) d atts provided ms root start W Hl Hs)
    as (h1 & s1 & -> & G1 & I1).
  destruct (compute_lmd_ghost_head_spec (HO := HO2) d atts' provided ms root start W
    ltac:(by rewrite <-Hp) Hs) as (h2 & s2 & -> & G2 & I2).
  apply (ghost_head_perm _ _ _ _ _ _ _ Hp) in G1.
  pose proof (ghost_head_unique _ _ _ _ _ _ G1 G2) as ->. do 2 f_equal.
  pose proof (fun p sl => ghost_start_slot d provided root start p sl Hs) as Hst.
  destruct I1 as [[-> ->]|[p1 I1]], I2 as [[E ->]|[p2 I2]]; [done|..].
  - symmetry. by eapply Hst.
  - rewrite E in I1. by eapply Hst.
  - congruence.
Qed.
End head.
