(* ===== verification/ForkChoice.v ===== *)
(** * The fork-choice store

    [Store] of [crates/common/fork_choice/lean/src/store.rs]: ticking, choosing the
    head and the safe target, accepting attestations and blocks, validating gossip,
    pruning.  An operation that only reads is a function of the database; one that
    writes runs in the state monad, so that what was written before an error stays
    written.  Metrics and timers are left out. *)

From S2P Require Import Prelude StateMonad Redb Ssz Slot LeanTypes.
From S2P Require Import LeanState LeanDB Ghost.

(** ** Parameters *)

(** The network configuration ([lean_network_spec], [attestation_committee_count]). *)
Record NetworkSpec : Type := mkNetworkSpec {
  spec_genesis_time : Z;
  spec_seconds_per_slot : Z;
  spec_committee_count : Z;
}.

(** The signature scheme and the aggregate proofs of [ream_post_quantum_crypto], which
    wrap external libraries. *)
Class PqCrypto : Type := {
  TypeOne : Type;
  sig_verify : Signature -> PublicKey -> Z -> B256 -> option bool;
  type_1_from_wire : list Z -> list PublicKey -> option TypeOne;
  type_1_to_wire : TypeOne -> list Z;
  type_1_verify : TypeOne -> bool;
  type_1_aggregate : list TypeOne -> list (PublicKey * Signature) -> B256 -> Z -> option TypeOne;
  type_2_verify_block : list Z -> list (list PublicKey) -> list (B256 * Z) -> bool;
}.

Definition JUSTIFICATION_LOOKBACK_SLOTS : nat := 3.
Definition ATTESTATION_RETENTION_SLOTS : Z := 1024.

Inductive BlockProductionStrategy : Type := RoundBased | Tiered.

(** [as u32]. *)
Definition as_u32 (z : Z) : Z := z mod 2 ^ 32.

(** [SIGNATURE_SIZE] bytes, zero but for the three offsets. *)
Definition SIGNATURE_SIZE : nat := 2536.
Definition copy_le (at_ : nat) (v : Z) (l : list Z) : list Z :=
  <[at_ := v mod 256]> (<[S at_ := v / 256 mod 256]>
    (<[S (S at_) := v / 65536 mod 256]> (<[S (S (S at_)) := v / 16777216 mod 256]> l))).
Definition blank : Signature :=
  mkSignature (copy_le 36 4 (copy_le 32 1064 (copy_le 0 36 (replicate SIGNATURE_SIZE 0)))).

Section store.
Context {SS : SszTypes} {RD : Redb} {HO : HashOrder} {PQ : PqCrypto}.
Context {HS : TreeHash LeanState} {HH : TreeHash BlockHeader} {HB : TreeHash BlockBody}
        {HA : TreeHash AttestationData} {HBl : TreeHash Block}.
Context (spec : NetworkSpec).

Record Store : Type := mkStore {
  store : LeanDB;
  head_checkpoint : Checkpoint;
  finalized_checkpoint : Checkpoint;
  block_production_strategy : BlockProductionStrategy;
}.

Definition on_db (f : LeanDB -> LeanDB) (s : Store) : Store :=
  mkStore (f (store s)) (head_checkpoint s) (finalized_checkpoint s) (block_production_strategy s).

(** [self.network_state.*.write() = ...]. *)
Definition set_network_state (head finalized : Checkpoint) (s : Store) : Store :=
  mkStore (store s) head finalized (block_production_strategy s).

Abbreviation SM := (M Store StoreErr).

(** A read of the database, and a write to it. *)
Definition db_read {A} (f : LeanDB -> res StoreErr A) : SM A := reads (fun s => f (store s)).
Definition db_write (f : LeanDB -> LeanDB) : SM unit := modify (on_db f).

Definition block_or (d : LeanDB) (root : B256) : res StoreErr SignedBlock :=
  ok_or (block_get d root) BlockNotFound.
Definition block_slot_or (d : LeanDB) (root : B256) : res StoreErr Z :=
  b ← block_or d root; Ok (blk_slot (sb_block b)).

(** ** Initialization *)

Definition anchor_root (anchor_state : LeanState) : B256 := tree_hash_root (cache_state_root anchor_state).

Definition get_forkchoice_store (anchor_block : SignedBlock) (anchor_state : LeanState) (db : LeanDB)
    (time : option Z) (validator_id : option Z) : res StoreErr Store :=
  ensure (blk_state_root (sb_block anchor_block) =? tree_hash_root anchor_state)
    AnchorStateRootMismatch;;
  let anchor_root := anchor_root anchor_state in
  let anchor_slot := blk_slot (sb_block anchor_block) in
  let anchor_checkpoint := mkCheckpoint anchor_root anchor_slot in
  let db := set_f_time (Some (default (anchor_slot * spec_seconds_per_slot spec)%u64 time)) db in
  let db := block_insert_ref anchor_root anchor_block db in
  let db := set_t_slot_index (rd_insert anchor_slot anchor_root (t_slot_index db)) db in
  let db := set_t_state_root_index
              (rd_insert (tree_hash_root anchor_state) anchor_root (t_state_root_index db)) db in
  let db := set_f_finalized (Some anchor_checkpoint) db in
  let db := set_f_justified (Some anchor_checkpoint) db in
  let db := state_insert anchor_root anchor_state db in
  let db := set_f_head (Some anchor_root) db in
  let db := set_f_safe_target (Some anchor_root) db in
  let db := set_f_validator_id (Some validator_id) db in
  Ok (mkStore db anchor_checkpoint anchor_checkpoint RoundBased).

Definition with_block_production_strategy (strategy : BlockProductionStrategy) (s : Store) : Store :=
  mkStore (store s) (head_checkpoint s) (finalized_checkpoint s) strategy.

Definition get_block_id_by_slot (d : LeanDB) (slot : Z) : res StoreErr B256 :=
  ok_or (rd_get (t_slot_index d) slot) BlockNotFound.

Definition store_genesis_time (d : LeanDB) : res StoreErr Z :=
  head_root ← field_get (f_head d);
  head_state ← ok_or (state_get d head_root) HeadStateNotFound;
  Ok (genesis_time (config head_state)).

(** ** The latest vote of each validator *)

(** [Reverse((data.slot, data_root))] as an order. *)
Definition later_first (a b : Z * B256 * AttestationData) : bool :=
  (ad_slot b.2 <? ad_slot a.2) || ((ad_slot b.2 =? ad_slot a.2) && (b.1.2 <=? a.1.2)).

Definition extract_attestations_from_aggregated_payloads (d : LeanDB) (signature_keys : list SignatureKey)
  : gmap Z AttestationData :=
  let resolved := omap (fun k =>
      data ← data_get d (sk_data_root k); Some (sk_validator_id k, sk_data_root k, data))
    signature_keys in
  foldl (fun m '(validator_id, _, data) =>
      match m !! validator_id with Some _ => m | None => <[validator_id := data]> m end)
    ∅ (sort_by later_first resolved).

(** The votes handed to GHOST. *)
Definition as_signed_attestations (m : gmap Z AttestationData) : list SignedAttestation :=
  (fun '(validator, data) => mkSignedAttestation validator data blank) <$> hm_iter m.

(** ** Safe target *)

Definition update_safe_target : SM unit :=
  safe ← db_read (fun d =>
    head_root ← field_get (f_head d);
    head_state ← ok_or (state_get d head_root) HeadStateNotFound;
    let min_target_score := u64_div_ceil (Z.of_nat (validators_len head_state) * 2)%u64 3 in
    justified ← field_get (f_justified d);
    let new_payload_keys := (rd_iter (t_new_payloads d)).*1 in
    let attestations := extract_attestations_from_aggregated_payloads d new_payload_keys in
    compute_lmd_ghost_head d (as_signed_attestations attestations) (cp_root justified) min_target_score);
  db_write (set_f_safe_target (Some safe.1)).

(** ** Head *)

(** [lookup_slot]: parent and slot from the index, or from the block itself. *)
Definition lookup_slot (d : LeanDB) (index : gmap B256 (B256 * Z)) (root : B256) : option (B256 * Z) :=
  match index !! root with
  | Some e => Some e
  | None => (fun b => (blk_parent_root (sb_block b), blk_slot (sb_block b))) <$> block_get d root
  end.

(** Down from the head to the finalized slot. *)
Fixpoint find_finalized (fuel : nat) (d : LeanDB) (index : gmap B256 (B256 * Z)) (target_slot : Z)
    (finalized_root : B256) : res StoreErr B256 :=
  match lookup_slot d index finalized_root with
  | None => Ok finalized_root
  | Some (parent_root, slot) =>
      if slot <=? target_slot then Ok finalized_root else
      match fuel with
      | O => NoFuel
      | S fuel => find_finalized fuel d index target_slot parent_root
      end
  end.

(** The number of blocks a walk over parents can visit. *)
Definition walk_fuel (d : LeanDB) : nat := (size (get_index_map d) + length (rd_iter (t_block d)))%nat.

(** The known votes for blocks above the finalized slot. *)
Definition relevant_keys (d : LeanDB) (finalized_slot : Z) : list SignatureKey :=
  filter (fun key =>
    match data_get d (sk_data_root key) with
    | Some data => finalized_slot <? cp_slot (ad_head data)
    | None => false
    end = true) (known_iter_keys d).

(** What [update_head] computes before it writes: the new head with its slot and the
    finalized checkpoint seen from it. *)
Definition compute_head (d : LeanDB) : res StoreErr (B256 * Z * Checkpoint) :=
  latest_finalized_checkpoint ← field_get (f_finalized d);
  let keys := relevant_keys d (cp_slot latest_finalized_checkpoint) in
  let attestations := extract_attestations_from_aggregated_payloads d keys in
  justified ← field_get (f_justified d);
  '(new_head, new_head_slot) ←
    compute_lmd_ghost_head d (as_signed_attestations attestations) (cp_root justified) 0;
  head_state ← ok_or (state_get d new_head) StateNotFound;
  let target_finalized_slot := cp_slot (latest_finalized head_state) in
  let index := get_index_map d in
  finalized_root ← find_finalized (walk_fuel d) d index target_finalized_slot new_head;
  let final_finalized_checkpoint :=
    if bool_decide (snd <$> lookup_slot d index finalized_root = Some target_finalized_slot)
    then mkCheckpoint finalized_root target_finalized_slot
    else latest_finalized_checkpoint in
  Ok (new_head, new_head_slot, final_finalized_checkpoint).

Definition update_head : SM unit :=
  '(new_head, new_head_slot, finalized) ← db_read compute_head;
  modify (set_network_state (mkCheckpoint new_head new_head_slot) finalized);;
  db_write (set_f_head (Some new_head));;
  db_write (set_f_finalized (Some finalized)).

(** ** Accepting attestations *)

(** [drain] the new payloads and append them to the known ones. *)
Definition merge_payloads (d : LeanDB) : LeanDB :=
  let '(payloads, d) := new_drain d in
  foldl (fun d '(key, new_proofs) =>
      known_insert key (default [] (rd_get (t_known_payloads d) key) ++ new_proofs) d)
    d (hm_iter payloads).

(** The slot of the data a key stands for; zero when the data is gone. *)
Definition key_slot (d : LeanDB) (key : SignatureKey) : Z :=
  default 0 (ad_slot <$> data_get d (sk_data_root key)).

(** The [and_modify] / [or_insert] of [max_slot]. *)
Definition raise_max (d : LeanDB) (m : gmap Z Z) (key : SignatureKey) : gmap Z Z :=
  let slot := key_slot d key in
  <[sk_validator_id key :=
      match m !! sk_validator_id key with Some max => Z.max max slot | None => slot end]> m.

Definition validator_max_slot (d : LeanDB) (keys : list SignatureKey) : gmap Z Z :=
  foldl (raise_max d) ∅ keys.

(** The keys of a validator with a later vote. *)
Definition superseded_keys (d : LeanDB) : gset SignatureKey :=
  let keys := known_iter_keys d in
  let max := validator_max_slot d keys in
  list_to_set (filter (fun key => key_slot d key < default 0 (max !! sk_validator_id key)) keys).

Definition drop_superseded (d : LeanDB) : LeanDB :=
  let superseded := superseded_keys d in
  if bool_decide (superseded = ∅) then d
  else known_retain (fun key => negb (bool_decide (key ∈ superseded))) d.

Definition accept_new_attestations : SM unit :=
  db_write merge_payloads;;
  db_write drop_superseded;;
  update_head.

(** ** Ticks *)

Definition tick_interval (has_proposal is_aggregator : bool) : SM unit :=
  t ← db_read (fun d => field_get (f_time d));
  let time := (t + 1)%u64 in
  db_write (set_f_time (Some time));;
  let current_interval := time mod INTERVALS_PER_SLOT in
  if current_interval =? 0 then
    if (has_proposal : bool) then accept_new_attestations else mret tt
  else if current_interval =? 2 then mret tt
  else if current_interval =? 3 then update_safe_target
  else if current_interval =? 4 then accept_new_attestations
  else mret tt.

(** The [while time < target] loop. *)
Fixpoint tick_loop (fuel : nat) (tick_interval_time : Z) (has_proposal is_aggregator : bool) : SM unit :=
  t ← db_read (fun d => field_get (f_time d));
  if t <? tick_interval_time then
    match fuel with
    | O => lift NoFuel
    | S fuel =>
        let should_signal_proposal := (has_proposal : bool) && ((t + 1)%u64 =? tick_interval_time) in
        tick_interval should_signal_proposal is_aggregator;;
        tick_loop fuel tick_interval_time has_proposal is_aggregator
    end
  else mret tt.

(** The interval a wall-clock time falls into; division by a zero slot duration panics. *)
Definition tick_target (seconds_since_genesis : Z) : res StoreErr Z :=
  let time_delta_ms := (seconds_since_genesis * 1000)%u64 in
  let slot_ms := (spec_seconds_per_slot spec * 1000)%u64 in
  if slot_ms =? 0 then Panic
  else Ok ((time_delta_ms * INTERVALS_PER_SLOT)%u64 / slot_ms).

Definition on_tick (time : Z) (has_proposal is_aggregator : bool) : SM unit :=
  g ← db_read store_genesis_time;
  match u64_checked_sub time g with
  | None => mret tt
  | Some seconds_since_genesis =>
      tick_interval_time ← lift (tick_target seconds_since_genesis);
      t ← db_read (fun d => field_get (f_time d));
      tick_loop (Z.to_nat (tick_interval_time - t)) tick_interval_time has_proposal is_aggregator
  end.

Definition get_proposal_head (slot : Z) : SM B256 :=
  let slot_duration_seconds := (slot * spec_seconds_per_slot spec)%u64 in
  let slot_time := (spec_genesis_time spec + slot_duration_seconds)%u64 in
  on_tick slot_time true false;;
  accept_new_attestations;;
  db_read (fun d => field_get (f_head d)).

(** ** Attestation target *)

(** Up to three blocks back while above the safe target. *)
Fixpoint lookback (n : nat) (d : LeanDB) (target_block_root : B256) : res StoreErr B256 :=
  match n with
  | O => Ok target_block_root
  | S n =>
      target_block ← block_or d target_block_root;
      safe_target ← field_get (f_safe_target d);
      safe_slot ← block_slot_or d safe_target;
      if safe_slot <? blk_slot (sb_block target_block)
      then lookback n d (blk_parent_root (sb_block target_block))
      else Ok target_block_root
  end.

(** Back to a slot that can be justified. *)
Fixpoint to_justifiable (fuel : nat) (d : LeanDB) (finalized_slot : Z) (target_block_root : B256)
  : res StoreErr B256 :=
  target_block ← block_or d target_block_root;
  if is_justifiable_after (blk_slot (sb_block target_block)) finalized_slot then Ok target_block_root
  else match fuel with
       | O => NoFuel
       | S fuel => to_justifiable fuel d finalized_slot (blk_parent_root (sb_block target_block))
       end.

Definition get_attestation_target (d : LeanDB) : res StoreErr Checkpoint :=
  head_root ← field_get (f_head d);
  head_state ← ok_or (state_get d head_root) HeadStateNotFound;
  target_block_root ← lookback JUSTIFICATION_LOOKBACK_SLOTS d head_root;
  target_block_root ← to_justifiable (walk_fuel d) d (cp_slot (latest_finalized head_state)) target_block_root;
  target_slot ← block_slot_or d target_block_root;
  if target_slot <? cp_slot (latest_justified head_state) then Ok (latest_justified head_state)
  else Ok (mkCheckpoint target_block_root target_slot).

Definition produce_attestation_data (d : LeanDB) (slot : Z) : res StoreErr AttestationData :=
  head_root ← field_get (f_head d);
  head_state ← ok_or (state_get d head_root) HeadStateNotFound;
  let source :=
    if hdr_slot (latest_block_header head_state) =? 0
    then mkCheckpoint head_root (cp_slot (latest_justified head_state))
    else latest_justified head_state in
  target ← get_attestation_target d;
  ensure (cp_slot source <=? cp_slot target) SourceExceedsTarget;;
  head_slot ← block_slot_or d head_root;
  Ok (mkAttestationData slot (mkCheckpoint head_root head_slot) target source).

(** ** Blocks *)

(** [SignedBlock::verify_signatures]. *)
Definition verify_signatures (sb : SignedBlock) (parent_state : LeanState) (verify : bool)
  : res StoreErr bool :=
  let block := sb_block sb in
  let vals := vl_iter (validators parent_state) in
  components ← mapR (fun a =>
      public_keys ← mapR (fun validator_id =>
          v ← ok_or (vals !! validator_id) ValidatorNotFound; Ok (attestation_public_key v))
        (true_indices (bl_iter (aa_aggregation_bits a)));
      Ok (public_keys, (tree_hash_root (aa_message a), as_u32 (ad_slot (aa_message a)))))
    (vl_iter (body_attestations (blk_body block)));
  ensure (blk_proposer_index block <? Z.of_nat (length vals)) ValidatorNotFound;;
  proposer ← ok_or (vals !! Z.to_nat (blk_proposer_index block)) ValidatorNotFound;
  let public_keys_per_component := components.*1 ++ [[proposal_public_key proposer]] in
  let expected_bindings := components.*2 ++ [(tree_hash_root block, as_u32 (blk_slot block))] in
  (if verify then
     ensure (type_2_verify_block (vl_iter (mma_proof (sb_proof sb))) public_keys_per_component
               expected_bindings) ProofInvalid
   else Ok tt);;
  Ok true.

(** The check that no attestation data appears twice. *)
Definition check_distinct (attestations : list AggregatedAttestation) : res StoreErr (gset B256) :=
  foldM (fun seen a =>
      let data_root := tree_hash_root (aa_message a) in
      ensure (bool_decide (data_root ∉ seen)) DuplicateAttestationData;;
      Ok ({[data_root]} ∪ seen))
    ∅ attestations.

(** The votes of a block's attestation become known payloads without proof. *)
Definition register_attestation (d : LeanDB) (attestation : AggregatedAttestation) : LeanDB :=
  let data_root := tree_hash_root (aa_message attestation) in
  let d := data_insert data_root (aa_message attestation) d in
  let payload := mkSingleMessageAggregate (aa_aggregation_bits attestation) vl_empty in
  foldl (fun d '(validator_id, participated) =>
      if (participated : bool) then
        let key := SignatureKey_from_parts (Z.of_nat validator_id) data_root in
        known_insert key (default [] (rd_get (t_known_payloads d) key) ++ [payload]) d
      else d)
    d (enumerate (bl_iter (aa_aggregation_bits attestation))).

Definition on_block (signed_block : SignedBlock) (verify : bool) : SM unit :=
  let block := sb_block signed_block in
  let block_root := tree_hash_root block in
  known ← db_read (fun d => Ok (block_contains_key d block_root));
  if (known : bool) then mret tt else
  parent_state ← db_read (fun d => ok_or (state_get d (blk_parent_root block)) ParentStateNotFound);
  lift (ensure (u64_saturating_sub (blk_slot block) (slot parent_state) <=? MAX_HISTORICAL_BLOCK_HASHES)
          TooFarBeyondParent);;
  time ← db_read (fun d => field_get (f_time d));
  let current_slot := time / INTERVALS_PER_SLOT in
  lift (ensure (blk_slot block <=? (current_slot + 1)%u64) TooFarInFuture);;
  lift (verify_signatures signed_block parent_state verify);;
  post_state ← lift (transition (state_transition parent_state block true));
  latest_justified ← db_read (fun d =>
    justified ← field_get (f_justified d);
    Ok (if (cp_slot justified <? cp_slot (latest_justified post_state))
           && block_contains_key d (cp_root (latest_justified post_state))
        then latest_justified post_state else justified));
  db_write (block_insert_ref block_root signed_block);;
  db_write (state_insert block_root post_state);;
  db_write (set_f_justified (Some latest_justified));;
  let attestations := vl_iter (body_attestations (blk_body block)) in
  lift (check_distinct attestations);;
  db_write (fun d => foldl register_attestation d attestations);;
  update_head.

(** ** Validating gossip *)

Fixpoint ancestor_walk (fuel : nat) (d : LeanDB) (ancestor : Checkpoint) (current_root : B256)
  : res StoreErr bool :=
  match block_get d current_root with
  | None => Ok false
  | Some b =>
      let block := sb_block b in
      if blk_slot block =? cp_slot ancestor then Ok (current_root =? cp_root ancestor)
      else if blk_slot block <? cp_slot ancestor then Ok false
      else match fuel with
           | O => NoFuel
           | S fuel => ancestor_walk fuel d ancestor (blk_parent_root block)
           end
  end.

Definition checkpoint_is_ancestor (d : LeanDB) (ancestor descendant : Checkpoint) : res StoreErr bool :=
  if cp_slot descendant <? cp_slot ancestor then Ok false
  else ancestor_walk (walk_fuel d) d ancestor (cp_root descendant).

Definition validate_attestation (d : LeanDB) (signed_attestation : SignedAttestation) : res StoreErr unit :=
  let data := sa_message signed_attestation in
  let source := ad_source data in
  let target := ad_target data in
  let head := ad_head data in
  ensure (block_contains_key d (cp_root source)) UnknownSource;;
  ensure (block_contains_key d (cp_root target)) UnknownTarget;;
  ensure (block_contains_key d (cp_root head)) UnknownHead;;
  ensure (cp_slot source <=? cp_slot target) SourceExceedsTarget;;
  ensure (cp_slot target <=? cp_slot head) HeadOlderThanTarget;;
  source_slot ← block_slot_or d (cp_root source);
  target_slot ← block_slot_or d (cp_root target);
  head_slot ← block_slot_or d (cp_root head);
  ensure (source_slot =? cp_slot source) SourceSlotMismatch;;
  ensure (target_slot =? cp_slot target) TargetSlotMismatch;;
  ensure (head_slot =? cp_slot head) HeadSlotMismatch;;
  (if block_contains_key d (cp_root source) && block_contains_key d (cp_root target) then
     a ← checkpoint_is_ancestor d source target; ensure a SourceNotAncestor
   else Ok tt);;
  (if block_contains_key d (cp_root target) && block_contains_key d (cp_root head) then
     a ← checkpoint_is_ancestor d target head; ensure a TargetNotAncestor
   else Ok tt);;
  finalized ← field_get (f_finalized d);
  a ← checkpoint_is_ancestor d finalized head;
  ensure a HeadNotFinalizedDescendant;;
  ensure (head_slot <=? ad_slot data) AttestationPrecedesHead;;
  current_time ← field_get (f_time d);
  let attestation_start_interval := (ad_slot data * INTERVALS_PER_SLOT)%u64 in
  ensure (attestation_start_interval <=? (current_time + GOSSIP_DISPARITY_INTERVALS)%u64)
    AttestationTooFarInFuture.

(** ** Gossip *)

(** A vote of the validator for other data of the same slot is pending or known. *)
Definition already_voted (d : LeanDB) (validator : Z) (data_root : B256) (slot : Z) : bool :=
  existsb (fun key =>
      (sk_validator_id key =? validator) && negb (sk_data_root key =? data_root)
      && match data_get d (sk_data_root key) with Some e => ad_slot e =? slot | None => false end)
    ((rd_iter (t_new_payloads d)).*1 ++ (rd_iter (t_known_payloads d)).*1).

Definition add_payload (data : AttestationData) (proof : SingleMessageAggregate) (d : LeanDB)
    (validator : Z) : LeanDB :=
  let data_root := tree_hash_root data in
  if already_voted d validator data_root (ad_slot data) then d
  else
    let key := SignatureKey_from_parts validator data_root in
    new_insert key (default [] (rd_get (t_new_payloads d) key) ++ [proof]) d.

Definition on_gossip_aggregated_attestation_core (signed_attestation : SignedAggregatedAttestation)
    (verify : bool) : SM unit :=
  let data := saa_data signed_attestation in
  let proof := saa_proof signed_attestation in
  db_read (fun d => validate_attestation d (mkSignedAttestation 0 data blank));;
  let data_root := tree_hash_root data in
  let validator_ids := to_validator_indices proof in
  lift (ensure (bool_decide (validator_ids <> [])) NoParticipants);;
  state ← db_read (fun d => ok_or (state_get d (cp_root (ad_target data))) TargetStateNotFound);
  public_keys ← lift (mapR (fun validator =>
      v ← ok_or (vl_iter (validators state) !! Z.to_nat validator) ValidatorNotFound;
      Ok (attestation_public_key v)) validator_ids);
  lift (if verify then
          type_one ← ok_or (type_1_from_wire (vl_iter (sma_proof proof)) public_keys) ProofInvalid;
          ensure (type_1_verify type_one) ProofInvalid
        else Ok tt);;
  db_write (data_insert data_root data);;
  db_write (fun d => foldl (add_payload data proof) d validator_ids).

Definition on_gossip_aggregated_attestation (a : SignedAggregatedAttestation) : SM unit :=
  on_gossip_aggregated_attestation_core a true.
Definition on_gossip_aggregated_attestation_without_verification (a : SignedAggregatedAttestation) : SM unit :=
  on_gossip_aggregated_attestation_core a false.

(** [validator_id % num_committees]. *)
Definition compute_subnet_id (validator_id num_committees : Z) : res StoreErr Z :=
  if num_committees =? 0 then Panic else Ok (validator_id mod num_committees).

Definition on_gossip_attestation (signed_attestation : SignedAttestation) (is_aggregator : bool) : SM unit :=
  let validator_id := sa_validator_id signed_attestation in
  let attestation_data := sa_message signed_attestation in
  db_read (fun d => validate_attestation d signed_attestation);;
  key_state ← db_read (fun d => ok_or (state_get d (cp_root (ad_target attestation_data))) TargetStateNotFound);
  lift (ensure (validator_id <? Z.of_nat (validators_len key_state)) ValidatorNotFound);;
  attestation_key ← lift (match vl_iter (validators key_state) !! Z.to_nat validator_id with
                          | Some v => Ok (attestation_public_key v) | None => Panic end);
  signature_valid ← lift (ok_or (sig_verify (sa_signature signed_attestation) attestation_key
      (as_u32 (ad_slot attestation_data)) (tree_hash_root attestation_data)) SignatureInvalid);
  lift (ensure signature_valid SignatureInvalid);;
  let data_root := tree_hash_root attestation_data in
  own_id ← db_read (fun d => Ok (f_validator_id d));
  match is_aggregator, own_id with
  | true, Some (Some current_id) =>
      current_validator_subnet ← lift (compute_subnet_id current_id (spec_committee_count spec));
      attester_subnet ← lift (compute_subnet_id validator_id (spec_committee_count spec));
      if current_validator_subnet =? attester_subnet then
        db_write (signature_insert (SignatureKey_new validator_id attestation_data)
                    (sa_signature signed_attestation))
      else mret tt
  | _, _ => mret tt
  end;;
  db_write (data_insert data_root attestation_data).

(** ** Pruning *)

Definition protected_roots (d : LeanDB) : gset B256 :=
  list_to_set ((sk_data_root <$> known_iter_keys d)
               ++ ((fun e => sk_data_root e.1) <$> rd_iter (t_new_payloads d))).

Definition stale_roots (d : LeanDB) (finalized_slot cutoff_slot : Z) : gset B256 :=
  list_to_set (filter (fun e =>
      (cp_slot (ad_target e.2) <= finalized_slot \/ ad_slot e.2 < cutoff_slot)
      /\ e.1 ∉ protected_roots d)
    (rd_iter (t_data d))).*1.

Definition prune_stale_attestation_data : SM unit :=
  finalized ← db_read (fun d => field_get (f_finalized d));
  let finalized_slot := cp_slot finalized in
  db_write (fun d => (prune_finalized finalized_slot d).1);;
  head_slot ← reads (fun s => Ok (cp_slot (head_checkpoint s)));
  let cutoff_slot := Z.max finalized_slot (u64_saturating_sub head_slot ATTESTATION_RETENTION_SLOTS) in
  stale ← db_read (fun d => Ok (stale_roots d finalized_slot cutoff_slot));
  if bool_decide (stale = ∅) then mret tt else
  db_write (data_retain (fun root _ => negb (bool_decide (root ∈ stale))));;
  db_write (new_retain (fun key => negb (bool_decide (sk_data_root key ∈ stale))));;
  db_write (known_retain (fun key => negb (bool_decide (sk_data_root key ∈ stale))));;
  db_write (signature_retain (fun key => negb (bool_decide (sk_data_root key ∈ stale)))).

(** ** Block weights *)

(** The [while let] loop of [compute_block_weights], over the blocks themselves. *)
Fixpoint add_block_vote (fuel : nat) (d : LeanDB) (start_slot : Z) (weights : gmap B256 Z)
    (current_root : B256) : res StoreErr (gmap B256 Z) :=
  match block_get d current_root with
  | None => Ok weights
  | Some b =>
      if blk_slot (sb_block b) <=? start_slot then Ok weights else
      match fuel with
      | O => NoFuel
      | S fuel =>
          add_block_vote fuel d start_slot
            (<[current_root := (default 0 (weights !! current_root) + 1)%u64]> weights)
            (blk_parent_root (sb_block b))
      end
  end.

Definition compute_block_weights (d : LeanDB) : res StoreErr (gmap B256 Z) :=
  let attestations := extract_attestations_from_aggregated_payloads d (known_iter_keys d) in
  finalized ← field_get (f_finalized d);
  foldM (fun weights '(_, data) =>
      add_block_vote (walk_fuel d) d (cp_slot finalized) weights (cp_root (ad_head data)))
    ∅ (hm_iter attestations).
End store.
