(* ===== verification/ForkChoiceFacts.v ===== *)
(** * Facts about the Lean fork choice

    Ancestry on an index of blocks ([root -> (parent, slot)]), and the loops of the
    store that follow parent roots: the ancestor check, the search for the finalized
    block and for a justifiable target.  On an index whose slots grow from parent to
    child each of them stops and finds what it looks for.

    Specifications of the store's operations on the maps its tables hold. *)

From S2P Require Import Prelude Redb Ssz Slot LeanTypes LeanState LeanDB Ghost ForkChoice StateMonad.

Section ancestry.
Context (index : gmap B256 (B256 * Z)) (W : wf_index index).

Definition parent_link (c p : B256) : Prop := exists sl, index !! c = Some (p, sl).

(** [a] is [r] or an ancestor of it. *)
Definition ancestor (r a : B256) : Prop := rtc parent_link r a.

Lemma ancestor_slot r a : ancestor r a -> forall pr sr pa sa,
  index !! r = Some (pr, sr) -> index !! a = Some (pa, sa) -> r = a \/ sa < sr.
Proof using W.
  induction 1 as [r|r p a [sl Hr] Hp IH]; intros pr sr pa sa Hr' Ha; [by left|right].
  rewrite Hr in Hr'. injection Hr' as <- <-.
  destruct (index !! p) as [[pp sp]|] eqn:Hpi.
  - pose proof (W _ _ _ _ _ Hr Hpi). destruct (IH _ _ _ _ eq_refl Ha) as [->|?]; [|lia].
    simplify_eq. lia.
  - inversion Hp as [|? ? ? [sl' Hl]]; subst; congruence.
Qed.

(** The ancestors of a block are a chain. *)
Lemma ancestor_linear r a a' :
  ancestor r a -> ancestor r a' -> ancestor a a' \/ ancestor a' a.
Proof using.
  intros Ha. revert a'. induction Ha as [|r p a [sl Hr] Hpa IH]; intros a' Ha'; [by left|].
  inversion Ha' as [|? p' ? [sl' Hr'] Hp']; subst.
  - right. eapply rtc_l; [by exists sl|done].
  - simplify_eq. by apply IH.
Qed.

(** The two blocks of one slot on a chain are one block. *)
Lemma ancestor_slot_unique r a a' pa pa' s :
  ancestor r a -> ancestor r a' -> index !! a = Some (pa, s) -> index !! a' = Some (pa', s) -> a = a'.
Proof using W.
  intros Ha Ha' Hi Hi'. destruct (ancestor_linear _ _ _ Ha Ha') as [Hx|Hx].
  - destruct (ancestor_slot _ _ Hx _ _ _ _ Hi Hi'); [done|lia].
  - destruct (ancestor_slot _ _ Hx _ _ _ _ Hi' Hi); [done|lia].
Qed.

Lemma ancestor_step r p sl a :
  index !! r = Some (p, sl) -> r <> a -> ancestor r a <-> ancestor p a.
Proof using.
  intros Hr Hne. split.
  - intros Ha. inversion Ha as [|? p' ? [sl' Hr']]; [done|]. simplify_eq. done.
  - intros Ha. eapply rtc_l; [by exists sl|done].
Qed.

Lemma ancestor_outside r a : index !! r = None -> ancestor r a -> r = a.
Proof using. intros Hr Ha. inversion Ha as [|? p ? [sl Hx]]; [done|congruence]. Qed.
End ancestry.

Section walks.
Context {SS : SszTypes} {RD : Redb} {RL : RedbLaws RD}.

(** The index the blocks themselves make. *)
Definition block_index (d : LeanDB) : gmap B256 (B256 * Z) :=
  (fun b => (blk_parent_root (sb_block b), blk_slot (sb_block b))) <$> rd_view (t_block d).

Lemma block_index_get d r :
  block_index d !! r = (fun b => (blk_parent_root (sb_block b), blk_slot (sb_block b))) <$> block_get d r.
Proof. unfold block_index, block_get. by rewrite lookup_fmap, rd_get_view. Qed.

Lemma size_block_index d : size (block_index d) = length (rd_iter (t_block d)).
Proof.
  unfold block_index. rewrite map_size_fmap, rd_iter_perm. by rewrite length_map_to_list.
Qed.

(** The ancestor check decides ancestry. *)
Lemma ancestor_walk_spec d (W : wf_index (block_index d)) c fuel : forall r,
  (depth (block_index d) r <= fuel)%nat ->
  exists b, ancestor_walk fuel d c r = Ok b /\
    (b = true <-> ancestor (block_index d) r (cp_root c) /\
       exists p, block_index d !! cp_root c = Some (p, cp_slot c)).
Proof.
  assert (Hstep : forall r b, block_get d r = Some b ->
    block_index d !! r = Some (blk_parent_root (sb_block b), blk_slot (sb_block b))).
  { intros r b Hb. by rewrite block_index_get, Hb. }
  assert (Hnone : forall r, block_get d r = None -> block_index d !! r = None).
  { intros r Hb. by rewrite block_index_get, Hb. }
  assert (Hcase : forall r b, block_get d r = Some b -> blk_slot (sb_block b) <= cp_slot c ->
    (r = cp_root c /\ blk_slot (sb_block b) = cp_slot c <->
     ancestor (block_index d) r (cp_root c) /\
       exists p, block_index d !! cp_root c = Some (p, cp_slot c))).
  { intros r b Hb Hle. apply Hstep in Hb. split.
    - intros [<- Hs]. split; [apply rtc_refl|]. rewrite Hb, Hs. eauto.
    - intros [Ha [p Hp]]. destruct (ancestor_slot _ W _ _ Ha _ _ _ _ Hb Hp) as [E|?]; [|lia].
      rewrite <-E in Hp. rewrite Hb in Hp. injection Hp as _ Hs. done. }
  induction fuel as [|fuel IH]; intros r Hd; cbn [ancestor_walk];
    destruct (block_get d r) as [b|] eqn:Hb.
  1: { pose proof (depth_parent _ W _ _ _ (Hstep _ _ Hb)). lia. }
  1,3: exists false; split; [done|]; split; [done|]; intros [Ha [p Hp]];
       apply (ancestor_outside _ _ _ (Hnone _ Hb)) in Ha; subst r; rewrite (Hnone _ Hb) in Hp; done.
  destruct (Z.eqb_spec (blk_slot (sb_block b)) (cp_slot c)) as [E|E].
  { eexists. split; [done|]. rewrite Z.eqb_eq, <-(Hcase r b Hb) by lia. tauto. }
  destruct (Z.ltb_spec (blk_slot (sb_block b)) (cp_slot c)) as [L|L].
  { exists false. split; [done|]. rewrite <-(Hcase r b Hb) by lia. split; [done|]. intros [_ ?]. lia. }
  pose proof (depth_parent _ W _ _ _ (Hstep _ _ Hb)).
  destruct (IH (blk_parent_root (sb_block b)) ltac:(lia)) as (x & -> & Hx).
  exists x. split; [done|]. rewrite Hx.
  destruct (decide (r = cp_root c)) as [->|Hne].
  - split; intros [Ha [p Hp]]; exfalso; rewrite (Hstep _ _ Hb) in Hp; injection Hp; lia.
  - by rewrite (ancestor_step _ _ _ _ _ (Hstep _ _ Hb) Hne).
Qed.

Lemma checkpoint_is_ancestor_spec d a c :
  wf_index (block_index d) ->
  (forall pc, block_index d !! cp_root c = Some pc -> pc.2 = cp_slot c) ->
  exists b, checkpoint_is_ancestor d a c = Ok b /\
    (b = true <-> ancestor (block_index d) (cp_root c) (cp_root a) /\
       exists p, block_index d !! cp_root a = Some (p, cp_slot a)).
Proof.
  intros W Hc. unfold checkpoint_is_ancestor. case_if; b2p.
  - exists false. split; [done|]. split; [done|]. intros [Ha [p Hp]]. exfalso.
    destruct (block_index d !! cp_root c) as [[pc sc]|] eqn:Hi.
    + specialize (Hc _ eq_refl). cbn in Hc. subst sc.
      destruct (ancestor_slot _ W _ _ Ha _ _ _ _ Hi Hp) as [E|?]; [|lia].
      rewrite E in Hi. rewrite Hp in Hi. injection Hi. lia.
    + apply (ancestor_outside _ _ _ Hi) in Ha. rewrite Ha in Hi. congruence.
  - apply ancestor_walk_spec; [done|]. pose proof (depth_size (block_index d) (cp_root c)).
    rewrite size_block_index in *. unfold walk_fuel. lia.
Qed.
End walks.

Section facts.
Context {SS : SszTypes} {RD : Redb} {RL : RedbLaws RD} {HO : HashOrder} {HL : HashOrderLaws HO}.
Context {PQ : PqCrypto}.
Context {HS : TreeHash LeanState} {HH : TreeHash BlockHeader} {HB : TreeHash BlockBody}
        {HA : TreeHash AttestationData} {HBl : TreeHash Block}.
Context (spec : NetworkSpec).

(** ** The latest vote of each validator *)

Definition not_later (d' : AttestationData) (r' : B256) (d : AttestationData) (r : B256) : Prop :=
  ad_slot d' < ad_slot d \/ ad_slot d' = ad_slot d /\ r' <= r.

Lemma later_first_true a b : later_first a b = true <-> not_later b.2 b.1.2 a.2 a.1.2.
Proof.
  unfold later_first, not_later. rewrite orb_true_iff, andb_true_iff, Z.ltb_lt, Z.eqb_eq, Z.leb_le.
  done.
Qed.

Lemma or_insert_first (l : list (Z * B256 * AttestationData)) : forall (m : gmap Z AttestationData) v,
  foldl (fun m '(validator_id, _, data) =>
      match m !! validator_id with Some _ => m | None => <[validator_id := data]> m end) m l !! v
  = match m !! v with
    | Some x => Some x
    | None => snd <$> head (filter (fun e => e.1.1 = v) l)
    end.
Proof.
  induction l as [|[[v0 r0] d0] l IH]; intros m v; cbn [foldl].
  - by destruct (m !! v).
  - rewrite IH, filter_cons. cbn. destruct (m !! v0) eqn:H0; case_decide; subst; rewrite ?H0; try done.
    + by rewrite lookup_insert_eq.
    + by rewrite lookup_insert_ne.
Qed.

Lemma elem_of_resolved d (keys : list SignatureKey) v r data :
  (v, r, data) ∈ omap (fun k =>
      data ← data_get d (sk_data_root k); Some (sk_validator_id k, sk_data_root k, data)) keys
  <-> mkSignatureKey v r ∈ keys /\ data_get d r = Some data.
Proof.
  rewrite list_elem_of_omap. split.
  - intros ([v' r'] & Hk & (x & Hx & [= <- <- <-])%bind_Some). done.
  - intros [Hk Hd]. exists (mkSignatureKey v r). split; [done|]. cbn. by rewrite Hd.
Qed.

(** The vote kept for a validator is the one with the greatest slot, and among those the
    greatest root; the order of the keys does not matter. *)
Lemma extract_spec d keys v data :
  extract_attestations_from_aggregated_payloads d keys !! v = Some data <->
  exists r, mkSignatureKey v r ∈ keys /\ data_get d r = Some data /\
    forall r' data', mkSignatureKey v r' ∈ keys -> data_get d r' = Some data' -> not_later data' r' data r.
Proof.
  unfold extract_attestations_from_aggregated_payloads. set (R := omap _ keys).
  assert (HR : forall v r data, (v, r, data) ∈ R <-> mkSignatureKey v r ∈ keys /\ data_get d r = Some data)
    by (intros; apply elem_of_resolved).
  rewrite or_insert_first, lookup_empty.
  assert (Hs : StronglySorted (fun x y => later_first x y = true) (sort_by later_first R)).
  { apply sort_by_sorted.
    - intros a b c. rewrite !later_first_true. unfold not_later. lia.
    - intros a b. rewrite <-not_true_iff_false, !later_first_true. unfold not_later. lia. }
  assert (Hp : forall e, e ∈ sort_by later_first R <-> e ∈ R) by (intros; by rewrite sort_by_perm).
  revert Hs Hp. generalize (sort_by later_first R) as l. intros l Hs Hp.
  assert (Hfirst : forall e, head (filter (fun e => e.1.1 = v) l) = Some e ->
    e ∈ R /\ e.1.1 = v /\ forall e', e' ∈ R -> e'.1.1 = v -> later_first e e' = true).
  { intros e He. setoid_rewrite <-Hp. clear Hp. induction Hs as [|x l Hs IH Hx]; [done|].
    rewrite filter_cons in He. case_decide as Hv.
    - cbn in He. injection He as ->. split_and!; [set_solver|done|].
      intros e' [->|He']%elem_of_cons Hv'; [rewrite later_first_true; unfold not_later; lia|].
      by apply (proj1 (Forall_forall _ _) Hx).
    - destruct (IH He) as (? & ? & Hr). split_and!; [set_solver|done|].
      intros e' [->|He']%elem_of_cons Hv'; [done|]. by apply Hr. }
  split.
  - intros ([[v' r] x] & He & ->)%fmap_Some. apply Hfirst in He as (Hin & Hv & Hmax). cbn in *. subst v'.
    apply HR in Hin as [Hk Hd]. exists r. split_and!; [done..|]. intros r' data' Hk' Hd'.
    specialize (Hmax (v, r', data') ltac:(by apply HR) eq_refl). by apply later_first_true in Hmax.
  - intros (r & Hk & Hd & Hmax).
    assert (Hin : (v, r, data) ∈ filter (fun e => e.1.1 = v) l).
    { apply list_elem_of_filter. split; [done|]. apply Hp, HR. done. }
    destruct (head (filter (fun e => e.1.1 = v) l)) as [[[v' r'] x]|] eqn:He.
    2: { destruct (filter _ l); [set_solver|done]. }
    cbn. pose proof (Hfirst _ eq_refl) as (Hin' & Hv & Hmax'). cbn in Hv. subst v'.
    apply HR in Hin' as [Hk' Hd'].
    specialize (Hmax _ _ Hk' Hd'). specialize (Hmax' (v, r, data) ltac:(by apply HR) eq_refl).
    apply later_first_true in Hmax'. unfold not_later in *. cbn in *.
    assert (r' = r) as -> by lia. congruence.
Qed.

(** ** Validation of attestations *)

(** A checkpoint that names a stored block with its slot. *)
Definition names_block (d : LeanDB) (c : Checkpoint) : Prop :=
  exists p, block_index d !! cp_root c = Some (p, cp_slot c).

Record attestation_valid (d : LeanDB) (data : AttestationData) : Prop := {
  av_source : names_block d (ad_source data);
  av_target : names_block d (ad_target data);
  av_head : names_block d (ad_head data);
  av_order : cp_slot (ad_source data) <= cp_slot (ad_target data) <= cp_slot (ad_head data);
  av_source_anc : ancestor (block_index d) (cp_root (ad_target data)) (cp_root (ad_source data));
  av_target_anc : ancestor (block_index d) (cp_root (ad_head data)) (cp_root (ad_target data));
  av_finalized : exists f, f_finalized d = Some f /\ names_block d f /\
    ancestor (block_index d) (cp_root (ad_head data)) (cp_root f);
  av_slot : cp_slot (ad_head data) <= ad_slot data;
  av_time : exists t, f_time d = Some t /\
    (ad_slot data * INTERVALS_PER_SLOT)%u64 <= (t + GOSSIP_DISPARITY_INTERVALS)%u64;
}.

Lemma block_slot_or_Ok d r sl : block_slot_or d r = Ok sl <-> exists p, block_index d !! r = Some (p, sl).
Proof.
  unfold block_slot_or, block_or. rewrite block_index_get. destruct (block_get d r); cbn.
  - split; [intros [= <-]; eauto|]. by intros (p & [= _ ->]).
  - split; [done|]. by intros (p & [=]).
Qed.

Lemma block_contains_index d r : block_contains_key d r = true <-> exists e, block_index d !! r = Some e.
Proof.
  unfold block_contains_key. rewrite block_index_get. destruct (block_get d r); cbn.
  - split; eauto.
  - split; [done|]. by intros (e & [=]).
Qed.

Lemma names_block_slot d c :
  names_block d c -> forall pc, block_index d !! cp_root c = Some pc -> pc.2 = cp_slot c.
Proof. intros [p Hp] pc Hpc. simplify_eq. done. Qed.

Lemma checkpoint_is_ancestor_Ok d a c :
  wf_index (block_index d) -> names_block d c ->
  checkpoint_is_ancestor d a c = Ok true <->
  ancestor (block_index d) (cp_root c) (cp_root a) /\ names_block d a.
Proof.
  intros W Hc. destruct (checkpoint_is_ancestor_spec d a c W (names_block_slot _ _ Hc)) as (b & -> & Hb).
  rewrite <-Hb. destruct b; split; congruence.
Qed.

Lemma ensure_bind {E A} (b : bool) (e : E) (k : res E A) x :
  (ensure b e;; k) = Ok x <-> b = true /\ k = Ok x.
Proof. destruct b; cbn; naive_solver. Qed.

Lemma validate_attestation_Ok d sa :
  wf_index (block_index d) ->
  validate_attestation d sa = Ok tt <-> attestation_valid d (sa_message sa).
Proof.
  intros W. unfold validate_attestation. set (data := sa_message sa). split.
  - intros H. rewrite !ensure_bind in H.
    destruct H as (Ks & Kt & Kh & O1 & O2 & H).
    apply bind_Ok in H as (ss & Hss & H). apply bind_Ok in H as (ts & Hts & H).
    apply bind_Ok in H as (hs & Hhs & H). rewrite !ensure_bind in H.
    destruct H as (E1 & E2 & E3 & H). rewrite Ks, Kt, Kh in H. cbn [andb] in H. b2p. subst ss ts hs.
    apply block_slot_or_Ok in Hss, Hts, Hhs.
    apply bind_Ok in H as ([] & H1 & H). apply bind_Ok in H as ([] & H2 & H).
    apply bind_Ok in H1 as (a1 & A1 & ->%ensure_Ok). apply bind_Ok in H2 as (a2 & A2 & ->%ensure_Ok).
    apply bind_Ok in H as (f & Hf%ok_or_Ok & H). apply bind_Ok in H as (a3 & A3 & H).
    rewrite !ensure_bind in H. destruct H as (-> & E4 & H). apply bind_Ok in H as (t & Ht%ok_or_Ok & H).
    apply ensure_Ok in H. b2p.
    apply checkpoint_is_ancestor_Ok in A1 as [A1 _]; [|done..].
    apply checkpoint_is_ancestor_Ok in A2 as [A2 _]; [|done..].
    apply checkpoint_is_ancestor_Ok in A3 as [A3 ?]; [|done..].
    split; try done; [eauto..].
  - intros [Hs Ht Hh [O1 O2] A1 A2 (f & Hf & Nf & Af) Sl (t & Hti & Htm)].
    assert (K : forall c, names_block d c -> block_contains_key d (cp_root c) = true)
      by (intros c [p Hp]; apply block_contains_index; eauto).
    assert (S : forall c, names_block d c -> block_slot_or d (cp_root c) = Ok (cp_slot c))
      by (intros c Hc; by apply block_slot_or_Ok).
    rewrite (K _ Hs), (K _ Ht), (K _ Hh), (S _ Hs), (S _ Ht), (S _ Hh), Hf, Hti.
    rewrite (proj2 (Z.leb_le _ _) O1), (proj2 (Z.leb_le _ _) O2). cbn [ensure mbind res_bind].
    rewrite !Z.eqb_refl. cbn [ensure mbind res_bind andb field_get ok_or].
    rewrite (proj2 (checkpoint_is_ancestor_Ok d _ _ W Ht)) by done.
    rewrite (proj2 (checkpoint_is_ancestor_Ok d (ad_target data) _ W Hh)) by done.
    rewrite (proj2 (checkpoint_is_ancestor_Ok d f _ W Hh)) by done.
    cbn [ensure mbind res_bind andb field_get ok_or].
    rewrite (proj2 (Z.leb_le _ _) Sl), (proj2 (Z.leb_le _ _) Htm). done.
Qed.
End facts.
