(* ===== verification/StoreInvariant.v ===== *)
(** * The invariant of the store

    What holds of the database between the store's operations: every stored block
    has a well-formed post-state of its slot whose history lists the block's stored
    ancestors, slots grow along parent links, and the indices and single-value fields
    point to stored blocks.  Every operation keeps it, also when it fails, and it is
    what makes choosing a head total. *)

From S2P Require Import Prelude StateMonad Redb Ssz Slot LeanTypes.
From S2P Require Import LeanState LeanInvariant LeanTransition LeanSafety LeanDB Ghost.
From S2P Require Import ForkChoice ForkChoiceFacts ThreeSF.

Section invariant.
Context {SS : SszTypes} {SL : SszLaws SS}.
Context {RD : Redb} {RL : RedbLaws RD} {HO : HashOrder} {HL : HashOrderLaws HO} {PQ : PqCrypto}.
Context {HS : TreeHash LeanState} {HH : TreeHash BlockHeader} {HB : TreeHash BlockBody}
        {HA : TreeHash AttestationData} {HBl : TreeHash Block}.
Context (spec : NetworkSpec).

(** [dangling] is the parent root of the anchor block, the only one that is not stored. *)
Context (dangling : B256).

Abbreviation states d := (rd_view (t_state d)).

Record db_inv (d : LeanDB) : Prop := {
  di_order : wf_index (block_index d);
  di_parent : forall k p sl, block_index d !! k = Some (p, sl) ->
    p = dangling \/ is_Some (block_index d !! p);
  di_dangling : block_index d !! dangling = None;
  di_state : forall k, is_Some (block_index d !! k) <-> is_Some (states d !! k);
  di_wf : forall k p sl st, block_index d !! k = Some (p, sl) -> states d !! k = Some st ->
    wf st /\ slot st = sl /\ hdr_slot (latest_block_header st) = sl;
  di_history : forall k st a pa sa, states d !! k = Some st -> ancestor (block_index d) k a ->
    block_index d !! a = Some (pa, sa) -> a <> k -> history st !! Z.to_nat sa = Some a;
  di_children : forall k e, rd_view (t_children d) !! k = Some e ->
    block_index d !! k = Some (cie_parent_root e, cie_slot e);
  di_slots : forall sl r, rd_view (t_slot_index d) !! sl = Some r -> is_Some (block_index d !! r);
  di_nonempty : rd_view (t_slot_index d) <> ∅;
  di_head : exists h, f_head d = Some h /\ is_Some (block_index d !! h);
  di_safe : exists h, f_safe_target d = Some h /\ is_Some (block_index d !! h);
  di_justified : exists c, f_justified d = Some c /\ is_Some (block_index d !! cp_root c);
  di_finalized : exists c, f_finalized d = Some c;
  di_time : exists t, f_time d = Some t /\ is_u64 t;
}.

(** ** Choosing the head *)

Lemma index_map_block d k e :
  db_inv d -> get_index_map d !! k = Some e -> block_index d !! k = Some e.
Proof.
  intros I H. rewrite get_index_map_view, lookup_fmap in H.
  apply fmap_Some in H as (c & Hc & ->). by apply di_children.
Qed.

Lemma index_map_wf d : db_inv d -> wf_index (get_index_map d).
Proof.
  intros I c p sl p' slp Hc Hp. eapply (di_order _ I); by apply index_map_block.
Qed.

Lemma lookup_slot_block d r : db_inv d -> lookup_slot d (get_index_map d) r = block_index d !! r.
Proof.
  intros I. unfold lookup_slot. destruct (get_index_map d !! r) as [e|] eqn:He.
  - symmetry. by apply index_map_block.
  - by rewrite block_index_get.
Qed.

Lemma ghost_start_Ok d root :
  db_inv d -> exists r p sl, ghost_start d root = Ok (r, sl) /\ block_index d !! r = Some (p, sl).
Proof.
  intros I. unfold ghost_start.
  assert (Hr : exists r, (if (root =? B256_ZERO) || bool_decide (get_index_map d !! root = None)
      then ok_or (get_oldest_root d) NoBlocksFound else Ok root) = Ok r /\ is_Some (block_index d !! r)).
  { destruct ((root =? B256_ZERO) || _) eqn:Hc; b2p.
    - unfold get_oldest_root. pose proof (rd_first_view (t_slot_index d)) as Hf.
      destruct (rd_first (t_slot_index d)) as [[k r]|]; [|by destruct (di_nonempty _ I)].
      exists r. split; [done|]. eapply di_slots; [done|apply Hf].
    - exists root. split; [done|]. destruct (get_index_map d !! root) as [e|] eqn:He; [|done].
      exists e. by apply index_map_block. }
  destruct Hr as (r & -> & [[p sl] Hi]). exists r, p, sl. split; [|done]. cbn [mbind res_bind].
  destruct (get_index_map d !! r) as [[p' sl']|] eqn:He.
  - apply index_map_block in He; [|done]. by simplify_eq.
  - rewrite block_index_get in Hi. destruct (block_get d r) as [b|]; [|done].
    cbn in *. by injection Hi as _ ->.
Qed.

(** Where the walk down to the finalized slot ends. *)
Lemma find_finalized_spec d target fuel : forall r,
  db_inv d -> (depth (block_index d) r <= fuel)%nat ->
  exists a, find_finalized fuel d (get_index_map d) target r = Ok a /\
    ancestor (block_index d) r a /\
    forall x p, ancestor (block_index d) r x -> block_index d !! x = Some (p, target) -> a = x.
Proof.
  induction fuel as [|fuel IH]; intros r I Hd; cbn [find_finalized]; rewrite lookup_slot_block by done;
    destruct (block_index d !! r) as [[p sl]|] eqn:Hr.
  - pose proof (depth_parent _ (di_order _ I) _ _ _ Hr). lia.
  - exists r. split_and!; [done|apply rtc_refl|]. intros x px Hx _. by apply (ancestor_outside _ _ _ Hr).
  - destruct (Z.leb_spec sl target) as [Hle|Hlt].
    + exists r. split_and!; [done|apply rtc_refl|]. intros x px Hx Hxi.
      destruct (ancestor_slot _ (di_order _ I) _ _ Hx _ _ _ _ Hr Hxi); [done|lia].
    + pose proof (depth_parent _ (di_order _ I) _ _ _ Hr).
      destruct (IH p I ltac:(lia)) as (a & Ha & Hanc & Huniq).
      exists a. split_and!; [done|eapply rtc_l; [by exists sl|done]|].
      intros x px Hx Hxi. apply (Huniq x px); [|done].
      apply (ancestor_step _ _ _ _ _ Hr) in Hx; [done|]. intros ->. simplify_eq. lia.
  - exists r. split_and!; [done|apply rtc_refl|]. intros x px Hx _. by apply (ancestor_outside _ _ _ Hr).
Qed.

(** The votes [update_head] weighs: the latest known vote of each validator among those
    for a head above the finalized slot. *)
Definition head_votes (d : LeanDB) (finalized_slot : Z) : list SignedAttestation :=
  as_signed_attestations
    (extract_attestations_from_aggregated_payloads d (relevant_keys d finalized_slot)).

(** What [compute_head] returns: a stored block with its slot, the GHOST head from the
    justified block on, and a finalized checkpoint that is the previous one or the head
    state's, found among the head's ancestors. *)
Record head_choice (d : LeanDB) (h : B256) (hs : Z) (c : Checkpoint) : Prop := {
  hc_block : exists p, block_index d !! h = Some (p, hs);
  hc_justified : exists j r, f_justified d = Some j /\ ghost_start d (cp_root j) = Ok r /\
    ancestor (get_index_map d) h r.1;
  hc_ghost : forall f j r sr, f_finalized d = Some f -> f_justified d = Some j ->
    ghost_start d (cp_root j) = Ok (r, sr) -> Z.of_nat (length (head_votes d (cp_slot f))) < 2 ^ 64 ->
    ghost_head (get_index_map d) 0
      (weight (get_index_map d) sr (head_roots (head_votes d (cp_slot f)))) r h;
  hc_finalized : f_finalized d = Some c \/
    exists st, states d !! h = Some st /\ ancestor (block_index d) h (cp_root c) /\
      names_block d c /\ cp_slot c = cp_slot (latest_finalized st) /\
      (0 < hs -> c = latest_finalized st);
}.

Lemma compute_head_spec d :
  db_inv d -> exists h hs c, compute_head d = Ok (h, hs, c) /\ head_choice d h hs c.
Proof.
  intros I. destruct (di_finalized _ I) as [fc Hf]. destruct (di_justified _ I) as (j & Hj & _).
  unfold compute_head. rewrite Hf, Hj. cbn [field_get ok_or mbind res_bind].
  destruct (ghost_start_Ok d (cp_root j) I) as (r & pr & sr & Hs & Hri).
  fold (head_votes d (cp_slot fc)). set (atts := head_votes d (cp_slot fc)).
  destruct (compute_lmd_ghost_head_total d atts (cp_root j) 0 r sr (index_map_wf _ I) Hs)
    as (h & hs & Hcomp & Hrtc & Hh). rewrite Hcomp. cbn [mbind res_bind].
  assert (Hhi : exists p, block_index d !! h = Some (p, hs)).
  { destruct Hh as [[-> ->]|[p Hp]]; [eauto|]. exists p. by apply index_map_block. }
  destruct Hhi as [p Hhi]. destruct (proj1 (di_state _ I h)) as [st Hst]; [eauto|].
  unfold state_get. rewrite rd_get_view, Hst. cbn [ok_or mbind res_bind].
  destruct (find_finalized_spec d (cp_slot (latest_finalized st)) (walk_fuel d) h I) as (a & -> & Ha & Hu).
  { pose proof (depth_size (block_index d) h). rewrite size_block_index in *. unfold walk_fuel. lia. }
  cbn [mbind res_bind]. do 3 eexists. split; [done|]. split; [eauto| | |].
  - exists j, (r, sr). split_and!; [done..|]. clear -Hrtc. cbn.
    induction Hrtc as [|x y z [sl Hsl] _ IH]; [apply rtc_refl|].
    eapply rtc_r; [exact IH|]. by exists sl.
  - intros f' j' r' sr' Hf' Hj' Hs' Hl. rewrite Hf in Hf'. rewrite Hj in Hj'. injection Hf' as <-.
    injection Hj' as <-. rewrite Hs in Hs'. injection Hs' as <- <-.
    destruct (compute_lmd_ghost_head_spec d atts (cp_root j) 0 r sr (index_map_wf _ I) Hl Hs)
      as (h' & hs' & Hcomp' & Hg & _). rewrite Hcomp in Hcomp'. by injection Hcomp' as -> _.
  - rewrite lookup_slot_block by done. case_if; [|by left]. b2p. right. exists st. cbn.
    match goal with H : snd <$> _ = Some _ |- _ => apply fmap_Some in H as ([pa sa] & Hai & Hsa) end.
    cbn in Hsa. subst sa. split_and!; [done..|eexists; exact Hai|done|].
    intros Hpos. destruct (di_wf _ I _ _ _ _ Hhi Hst) as (Wst & _ & Hhd).
    pose proof (wf_sf _ Wst ltac:(lia)) as F. pose proof (sfw_froot _ _ _ F) as Hfr. cbn in Hfr.
    assert (Hne : a <> h).
    { intros ->. rewrite Hhi in Hai. injection Hai as _ Hsl. apply lookup_lt_Some in Hfr.
      pose proof (wf_hist _ Wst). lia. }
    pose proof (di_history _ I _ _ _ _ _ Hst Ha Hai Hne) as Hha.
    destruct (latest_finalized st). cbn in *. by simplify_eq.
Qed.

(** ** Writes that keep the invariant *)

(** The part of the database the invariant is about. *)
Record same_core (d d' : LeanDB) : Prop := {
  sc_block : t_block d' = t_block d;
  sc_state : t_state d' = t_state d;
  sc_children : forall k e, rd_view (t_children d') !! k = Some e -> rd_view (t_children d) !! k = Some e;
  sc_slots : t_slot_index d' = t_slot_index d;
  sc_head : f_head d' = f_head d;
  sc_safe : f_safe_target d' = f_safe_target d;
  sc_justified : f_justified d' = f_justified d;
  sc_finalized : f_finalized d' = f_finalized d;
  sc_time : f_time d' = f_time d;
}.

#[export] Instance same_core_preorder : PreOrder same_core.
Proof.
  split; [by split|]. intros d1 d2 d3 [] []. split; try congruence. auto.
Qed.

Lemma db_inv_frame d d' : same_core d d' -> db_inv d -> db_inv d'.
Proof.
  intros [Cb Cs Cc Csl Ch Csf Cj Cf Ct] [].
  assert (Hbi : block_index d' = block_index d) by (unfold block_index; by rewrite Cb).
  split; rewrite ?Hbi, ?Cs, ?Csl, ?Ch, ?Csf, ?Cj, ?Cf, ?Ct; try done.
  intros k e He. auto.
Qed.

Lemma same_core_fold {A} (f : LeanDB -> A -> LeanDB) l d :
  (forall d a, same_core d (f d a)) -> same_core d (foldl f d l).
Proof.
  intros Hf. revert d. induction l as [|a l IH]; intros d; cbn; [done|]. etrans; [apply (Hf d a)|apply IH].
Qed.

Lemma register_attestation_core d a : same_core d (register_attestation d a).
Proof.
  unfold register_attestation. etrans; [|apply same_core_fold; intros d' [i []]; by split]. by split.
Qed.

Lemma merge_payloads_core d : same_core d (merge_payloads d).
Proof.
  unfold merge_payloads. destruct (new_drain d) as [m d'] eqn:E.
  assert (d' = set_t_new_payloads rd_empty d) as -> by (unfold new_drain in E; by injection E).
  etrans; [|apply same_core_fold; intros d' [k ps]; by split]. by split.
Qed.

Lemma drop_superseded_core d : same_core d (drop_superseded d).
Proof. unfold drop_superseded. case_if; by split. Qed.

Lemma add_payload_core data proof d v : same_core d (add_payload data proof d v).
Proof. unfold add_payload. case_if; by split. Qed.

Lemma prune_finalized_core f d : same_core d (prune_finalized f d).1.
Proof.
  split; try (unfold prune_finalized; case_if; done).
  intros k e. rewrite prune_finalized_view, map_retain_Some. tauto.
Qed.

(** ** Every operation keeps the invariant, however it ends *)

Abbreviation inv := (fun s : Store => db_inv (store s)).

Lemma preserves_db_write f :
  (forall d, db_inv d -> db_inv (f d)) -> preserves inv (db_write f).
Proof. intros Hf. apply preserves_modify. intros s Hs. by apply Hf. Qed.

Lemma preserves_db_read {A} (f : LeanDB -> res StoreErr A) : preserves inv (db_read f).
Proof. apply preserves_reads. Qed.

Lemma preserves_core f : (forall d, same_core d (f d)) -> preserves inv (db_write f).
Proof. intros Hf. apply preserves_db_write. intros d. by apply db_inv_frame. Qed.

Lemma set_head_inv d h : is_Some (block_index d !! h) -> db_inv d -> db_inv (set_f_head (Some h) d).
Proof. intros Hh []. split; try done. by exists h. Qed.
Lemma set_safe_inv d h : is_Some (block_index d !! h) -> db_inv d -> db_inv (set_f_safe_target (Some h) d).
Proof. intros Hh []. split; try done. by exists h. Qed.
Lemma set_finalized_inv d c : db_inv d -> db_inv (set_f_finalized (Some c) d).
Proof. intros []. split; try done. by exists c. Qed.
Lemma set_time_inv d t : is_u64 t -> db_inv d -> db_inv (set_f_time (Some t) d).
Proof. intros Ht []. split; try done. by exists t. Qed.

(** [update_head] succeeds on every store with the invariant. *)
Lemma update_head_run s :
  inv s -> exists h hs c, head_choice (store s) h hs c /\
    update_head s = (mkStore (set_f_finalized (Some c) (set_f_head (Some h) (store s)))
                       (mkCheckpoint h hs) c (block_production_strategy s), Ok tt).
Proof.
  intros I. destruct (compute_head_spec _ I) as (h & hs & c & Hc & Hh). exists h, hs, c. split; [done|].
  unfold update_head, db_read. rewrite bindM_reads, Hc. done.
Qed.

Lemma update_head_inv : preserves inv update_head.
Proof.
  intros s I. destruct (update_head_run s I) as (h & hs & c & [[p Hb] _ _ _] & ->). cbn.
  apply set_finalized_inv, set_head_inv; [eauto|done].
Qed.

Lemma update_safe_target_run s :
  inv s -> exists h, is_Some (block_index (store s) !! h) /\
    update_safe_target s = (on_db (set_f_safe_target (Some h)) s, Ok tt).
Proof.
  intros I. destruct (di_head _ I) as (hd & Hhd & Hhb). apply (di_state _ I) in Hhb as [st Hst].
  destruct (di_justified _ I) as (j & Hj & _). unfold update_safe_target, db_read. rewrite bindM_reads.
  rewrite Hhd, Hj. cbn [field_get ok_or mbind res_bind]. unfold state_get. rewrite rd_get_view, Hst.
  cbn [ok_or mbind res_bind].
  destruct (ghost_start_Ok _ (cp_root j) I) as (r & pr & sr & Hs & Hri).
  set (atts := as_signed_attestations _). set (ms := u64_div_ceil _ _).
  destruct (compute_lmd_ghost_head_total _ atts (cp_root j) ms r sr (index_map_wf _ I) Hs)
    as (h & hs & -> & _ & Hh). exists h. split; [|done].
  destruct Hh as [[-> _]|[p Hp]]; [eauto|]. eexists. by apply index_map_block.
Qed.

Lemma update_safe_target_inv : preserves inv update_safe_target.
Proof. intros s I. destruct (update_safe_target_run s I) as (h & Hh & ->). by apply set_safe_inv. Qed.

Lemma accept_new_attestations_inv : preserves inv accept_new_attestations.
Proof.
  unfold accept_new_attestations.
  apply preserves_bind; [apply preserves_core, merge_payloads_core|intros _].
  apply preserves_bind; [apply preserves_core, drop_superseded_core|intros _].
  apply update_head_inv.
Qed.

Lemma is_u64_wrap z : is_u64 (wrap64 z).
Proof. unfold is_u64, wrap64. pose proof (Z.mod_pos_bound z (2 ^ 64)). lia. Qed.

Lemma tick_interval_inv p a : preserves inv (tick_interval p a).
Proof.
  unfold tick_interval. apply preserves_bind; [apply preserves_db_read|intros t].
  apply preserves_bind; [apply preserves_db_write; intros d; apply set_time_inv, is_u64_wrap|intros _].
  repeat case_if; auto using accept_new_attestations_inv, update_safe_target_inv, preserves_ret.
Qed.

Lemma tick_loop_inv fuel target p a : preserves inv (tick_loop fuel target p a).
Proof.
  induction fuel as [|fuel IH]; cbn [tick_loop];
    (apply preserves_bind; [apply preserves_db_read|intros t]; case_if; [|apply preserves_ret]).
  - apply preserves_lift.
  - apply preserves_bind; [apply tick_interval_inv|intros _; apply IH].
Qed.

Lemma on_tick_inv time p a : preserves inv (on_tick spec time p a).
Proof.
  unfold on_tick. apply preserves_bind; [apply preserves_db_read|intros g].
  case_match; [|apply preserves_ret]. apply preserves_bind; [apply preserves_lift|intros tt].
  apply preserves_bind; [apply preserves_db_read|intros t]. apply tick_loop_inv.
Qed.

(** ** Adding a block *)

Lemma ancestor_insert (I : gmap B256 (B256 * Z)) k e :
  I !! k = None -> (forall c p sl, I !! c = Some (p, sl) -> p <> k) ->
  forall r a, r <> k -> ancestor (<[k := e]> I) r a <-> ancestor I r a /\ a <> k.
Proof.
  intros Hk Hp r a Hr. split.
  - intros Ha. revert Hr. induction Ha as [r|r p a [sl Hl] _ IH]; intros Hr.
    + split; [apply rtc_refl|done].
    + rewrite lookup_insert_ne in Hl by done. destruct (IH (Hp _ _ _ Hl)) as [IHa ?].
      split; [|done]. eapply rtc_l; [by exists sl|done].
  - intros [Ha _]. revert Hr. induction Ha as [r|r p a [sl Hl] _ IH]; intros Hr; [apply rtc_refl|].
    eapply rtc_l; [exists sl; by rewrite lookup_insert_ne|]. apply IH. by eapply Hp.
Qed.

(** What [on_block] writes for a new block. *)
Definition add_block (k : B256) (sb : SignedBlock) (st : LeanState) (c : Checkpoint) (d : LeanDB) : LeanDB :=
  set_f_justified (Some c) (state_insert k st (block_insert_ref k sb d)).

Lemma block_index_add k sb st c d :
  block_index (add_block k sb st c d) =
  <[k := (blk_parent_root (sb_block sb), blk_slot (sb_block sb))]> (block_index d).
Proof. unfold block_index. cbn. by rewrite rd_view_insert, fmap_insert. Qed.

Lemma add_block_inv d sb ps st c :
  let b := sb_block sb in let k := tree_hash_root b in
  db_inv d -> block_u64 b -> block_index d !! k = None -> k <> dangling ->
  states d !! blk_parent_root b = Some ps -> state_transition ps b true = Ok st ->
  is_Some (block_index d !! cp_root c) ->
  db_inv (add_block k sb st c d).
Proof.
  intros b k I Hu Hk Hdg Hps Hst Hc.
  destruct (proj2 (di_state _ I _) ltac:(eauto)) as [[pp sp] Hpi].
  destruct (di_wf _ I _ _ _ _ Hpi Hps) as (Wps & Hsp & Hhp).
  pose proof (state_transition_wf _ _ _ _ Wps Hu Hst) as Wst.
  pose proof (state_transition_chain _ _ _ _ Wps Hu Hst) as (Hsl & Hhd & Hhist).
  pose proof Hst as Hst'. apply state_transition_Ok in Hst' as (_ & Hlt & _); [|done..].
  assert (Hpk : blk_parent_root b <> k) by congruence.
  assert (Hnp : forall c p sl, block_index d !! c = Some (p, sl) -> p <> k).
  { intros c' p sl Hc' ->. destruct (di_parent _ I _ _ _ Hc') as [?|[e He]]; [done|congruence]. }
  assert (Hsome : forall r, is_Some (block_index d !! r) ->
    is_Some (<[k := (blk_parent_root b, blk_slot b)]> (block_index d) !! r)).
  { intros r Hr. rewrite lookup_insert. case_decide; [done|]. exact Hr. }
  split; rewrite ?block_index_add; fold b.
  - intros x p sl p' slp Hx Hp. rewrite lookup_insert in Hx. case_decide; simplify_eq.
    + rewrite lookup_insert_ne in Hp by done. simplify_eq. lia.
    + rewrite lookup_insert_ne in Hp by (intros <-; by eapply Hnp). by eapply (di_order _ I).
  - intros x p sl Hx. rewrite lookup_insert in Hx. case_decide; simplify_eq.
    + right. eauto.
    + destruct (di_parent _ I _ _ _ Hx); [by left|right; by apply Hsome].
  - rewrite lookup_insert_ne by done. apply I.
  - intros x. cbn. rewrite rd_view_insert, !lookup_insert. case_decide; [done|]. apply I.
  - intros x p sl s'. cbn. rewrite rd_view_insert, !lookup_insert. case_decide.
    + intros [= <- <-] [= <-]. done.
    + apply I.
  - intros x s' a pa sa. cbn. rewrite rd_view_insert, (lookup_insert _ k x). case_decide as Hd.
    + intros [= <-] Ha Hai Hne. subst x. rewrite lookup_insert_ne in Hai by done.
      apply (ancestor_step _ _ (blk_parent_root b) (blk_slot b)) in Ha;
        [|by rewrite lookup_insert_eq|done].
      apply (ancestor_insert _ k _ Hk Hnp) in Ha as [Ha _]; [|done]. rewrite Hhist.
      pose proof (wf_hist _ Wps) as Hl. pose proof (wf_slot _ Wps).
      destruct (decide (a = blk_parent_root b)) as [->|Hap].
      * rewrite Hpi in Hai. injection Hai as <- <-. rewrite lookup_app_r by lia.
        replace (Z.to_nat sp - length (history ps))%nat with 0%nat by lia. done.
      * apply lookup_app_l_Some. by eapply (di_history _ I).
    + intros Hs Ha Hai Hne. apply (ancestor_insert _ k _ Hk Hnp) in Ha as [Ha Hak]; [|done].
      rewrite lookup_insert_ne in Hai by done. by eapply (di_history _ I).
  - intros x e. cbn. fold b. rewrite rd_view_insert. fold k. rewrite !lookup_insert. case_decide; [by intros [= <-]|].
    apply I.
  - intros sl r. cbn. rewrite rd_view_insert, lookup_insert. case_decide; [intros [= <-]|].
    + by rewrite lookup_insert_eq.
    + intros Hr. apply Hsome. by eapply di_slots.
  - cbn. rewrite rd_view_insert. apply insert_non_empty.
  - destruct (di_head _ I) as (h & ? & ?). exists h. split; [done|]. by apply Hsome.
  - destruct (di_safe _ I) as (h & ? & ?). exists h. split; [done|]. by apply Hsome.
  - exists c. split; [done|]. by apply Hsome.
  - apply I.
  - apply I.
Qed.

(** ** [on_block] *)

(** The checks of [on_block] before its first write, and what it is about to write. *)
Definition check_block (d : LeanDB) (sb : SignedBlock) (verify : bool)
  : res StoreErr (LeanState * Checkpoint) :=
  let block := sb_block sb in
  parent_state ← ok_or (state_get d (blk_parent_root block)) ParentStateNotFound;
  ensure (u64_saturating_sub (blk_slot block) (slot parent_state) <=? MAX_HISTORICAL_BLOCK_HASHES)
    TooFarBeyondParent;;
  time ← field_get (f_time d);
  ensure (blk_slot block <=? (time / INTERVALS_PER_SLOT + 1)%u64) TooFarInFuture;;
  verify_signatures sb parent_state verify;;
  post_state ← transition (state_transition parent_state block true);
  justified ← field_get (f_justified d);
  Ok (post_state,
      if (cp_slot justified <? cp_slot (latest_justified post_state))
         && block_contains_key d (cp_root (latest_justified post_state))
      then latest_justified post_state else justified).

Definition block_attestations (sb : SignedBlock) : list AggregatedAttestation :=
  vl_iter (body_attestations (blk_body (sb_block sb))).

(** All the ways [on_block] ends.  The last error comes after the block is stored. *)
Lemma on_block_run sb verify s :
  let k := tree_hash_root (sb_block sb) in
  on_block sb verify s =
  if block_contains_key (store s) k then (s, Ok tt) else
  match check_block (store s) sb verify with
  | Ok (st, c) =>
      let s' := on_db (add_block k sb st c) s in
      match check_distinct (block_attestations sb) with
      | Ok _ => update_head (on_db (fun d => foldl register_attestation d (block_attestations sb)) s')
      | Err e => (s', Err e) | Panic => (s', Panic) | NoFuel => (s', NoFuel)
      end
  | Err e => (s, Err e) | Panic => (s, Panic) | NoFuel => (s, NoFuel)
  end.
Proof.
  cbv zeta. unfold on_block, check_block, db_read. rewrite bindM_reads.
  destruct (block_contains_key (store s) (tree_hash_root (sb_block sb))); [done|].
  rewrite bindM_reads. destruct (ok_or (state_get _ _) _) as [ps|e| |]; cbn [mbind res_bind]; try done.
  rewrite bindM_lift. destruct (ensure _ _) as [[]|e| |]; cbn [mbind res_bind]; try done.
  rewrite bindM_reads. destruct (field_get _) as [t|e| |]; cbn [mbind res_bind]; try done.
  rewrite bindM_lift. destruct (ensure _ _) as [[]|e| |]; cbn [mbind res_bind]; try done.
  rewrite bindM_lift. destruct (verify_signatures _ _ _) as [?|e| |]; cbn [mbind res_bind]; try done.
  rewrite bindM_lift. destruct (transition _) as [st|e| |]; cbn [mbind res_bind]; try done.
  rewrite bindM_reads. destruct (field_get (f_justified _)) as [j|e| |]; cbn [mbind res_bind]; try done.
Qed.

Lemma check_block_Ok d sb verify st c :
  db_inv d -> check_block d sb verify = Ok (st, c) ->
  exists ps, states d !! blk_parent_root (sb_block sb) = Some ps /\
    state_transition ps (sb_block sb) true = Ok st /\
    (f_justified d = Some c \/ c = latest_justified st) /\ is_Some (block_index d !! cp_root c).
Proof.
  intros I H. unfold check_block in H. apply bind_Ok in H as (ps & Hps%ok_or_Ok & H).
  unfold state_get in Hps. rewrite rd_get_view in Hps. exists ps. split; [done|].
  rewrite ensure_bind in H. destruct H as [_ H]. apply bind_Ok in H as (t & _ & H).
  rewrite ensure_bind in H. destruct H as [_ H]. apply bind_Ok in H as (v & _ & H).
  apply bind_Ok in H as (st0 & Hst & H). apply bind_Ok in H as (j & Hj%ok_or_Ok & [= -> <-]).
  unfold transition in Hst. destruct (state_transition ps _ true) as [x|e| |]; try done.
  injection Hst as ->. split; [done|]. destruct (di_justified _ I) as (j' & Hj' & Hb).
  rewrite Hj in Hj'. injection Hj' as <-. case_if; b2p; [|auto].
  split; [by right|]. by apply block_contains_index.
Qed.

Lemma on_block_inv sb verify :
  block_u64 (sb_block sb) -> tree_hash_root (sb_block sb) <> dangling ->
  preserves inv (on_block sb verify).
Proof.
  intros Hu Hdg s I. rewrite on_block_run. cbv zeta.
  destruct (block_contains_key (store s) (tree_hash_root (sb_block sb))) eqn:Hk; [done|].
  destruct (check_block (store s) sb verify) as [[st c]|e| |] eqn:Hc; try done.
  apply check_block_Ok in Hc as (ps & Hps & Hst & _ & Hj); [|done].
  assert (Hnone : block_index (store s) !! tree_hash_root (sb_block sb) = None).
  { destruct (block_index (store s) !! tree_hash_root (sb_block sb)) as [e|] eqn:He; [|done].
    by rewrite (proj2 (block_contains_index (store s) _) (ex_intro _ e He)) in Hk. }
  pose proof (add_block_inv (store s) sb ps st c I Hu Hnone Hdg Hps Hst Hj) as I'.
  destruct (check_distinct _) as [?|e| |]; try done.
  apply update_head_inv. cbn. eapply db_inv_frame; [|exact I'].
  apply same_core_fold, register_attestation_core.
Qed.

(** ** Gossip and pruning *)

Lemma on_gossip_aggregated_inv a verify : preserves inv (on_gossip_aggregated_attestation_core a verify).
Proof.
  unfold on_gossip_aggregated_attestation_core.
  apply preserves_bind; [apply preserves_db_read|intros _].
  apply preserves_bind; [apply preserves_lift|intros _].
  apply preserves_bind; [apply preserves_db_read|intros st].
  apply preserves_bind; [apply preserves_lift|intros pks].
  apply preserves_bind; [apply preserves_lift|intros _].
  apply preserves_bind; [apply preserves_core; by split|intros _].
  apply preserves_core. intros d. apply same_core_fold, add_payload_core.
Qed.

Lemma on_gossip_attestation_inv sa agg : preserves inv (on_gossip_attestation spec sa agg).
Proof.
  unfold on_gossip_attestation.
  apply preserves_bind; [apply preserves_db_read|intros _].
  apply preserves_bind; [apply preserves_db_read|intros st].
  do 4 (apply preserves_bind; [apply preserves_lift|intros ?]).
  apply preserves_bind; [apply preserves_db_read|intros id].
  apply preserves_bind; [|intros _; apply preserves_core; by split].
  destruct agg, id as [[id|]|]; try apply preserves_ret.
  do 2 (apply preserves_bind; [apply preserves_lift|intros ?]).
  case_if; [apply preserves_core; by split|apply preserves_ret].
Qed.

Lemma prune_inv : preserves inv prune_stale_attestation_data.
Proof.
  unfold prune_stale_attestation_data.
  apply preserves_bind; [apply preserves_db_read|intros f].
  apply preserves_bind; [apply preserves_core; intros d; apply prune_finalized_core|intros _].
  apply preserves_bind; [apply preserves_reads|intros hs].
  apply preserves_bind; [apply preserves_db_read|intros stale].
  case_if; [apply preserves_ret|].
  do 3 (apply preserves_bind; [apply preserves_core; by split|intros _]).
  apply preserves_core; by split.
Qed.
End invariant.
