(* ===== verification/StoreRuns.v ===== *)
(** * Runs of the store

    The initial store, events handled one after the other, ticks, the effect of
    accepting attestations and of pruning. *)

From S2P Require Import Prelude StateMonad Redb Ssz Slot LeanTypes.
From S2P Require Import LeanState LeanInvariant LeanTransition LeanSafety LeanDB Ghost.
From S2P Require Import ForkChoice ForkChoiceFacts ThreeSF StoreInvariant.

Section runs.
Context {SS : SszTypes} {SL : SszLaws SS}.
Context {RD : Redb} {RL : RedbLaws RD} {HO : HashOrder} {HL : HashOrderLaws HO} {PQ : PqCrypto}.
Context {HS : TreeHash LeanState} {HH : TreeHash BlockHeader} {HB : TreeHash BlockBody}
        {HA : TreeHash AttestationData} {HBl : TreeHash Block}.
Context (spec : NetworkSpec).

(** ** The initial store *)

(** A database with no entry and no field set. *)
Definition empty_db : LeanDB :=
  mkLeanDB rd_empty rd_empty rd_empty rd_empty rd_empty rd_empty rd_empty rd_empty rd_empty rd_empty
    rd_empty None None None None None None.

(** An anchor block that belongs to its state. *)
Record anchor_ok (sb : SignedBlock) (st : LeanState) : Prop := {
  ao_wf : wf st;
  ao_slot : slot st = blk_slot (sb_block sb);
  ao_header : hdr_slot (latest_block_header st) = blk_slot (sb_block sb);
  ao_root : tree_hash_root (sb_block sb) = anchor_root st;
  ao_parent : blk_parent_root (sb_block sb) <> anchor_root st;
}.

Lemma get_forkchoice_store_inv sb st time vid s :
  anchor_ok sb st -> match time with Some t => is_u64 t | None => True end ->
  get_forkchoice_store spec sb st empty_db time vid = Ok s ->
  db_inv (blk_parent_root (sb_block sb)) (store s).
Proof.
  intros [W Hs Hh Hr Hp] Ht H. unfold get_forkchoice_store in H. rewrite ensure_bind in H.
  destruct H as [_ [= <-]]. set (k := anchor_root st) in *. cbn [store].
  match goal with |- db_inv _ ?x => set (d := x) end.
  set (b := sb_block sb) in *.
  assert (Hbi : block_index d = {[k := (blk_parent_root b, blk_slot b)]}).
  { unfold block_index, d. cbn. by rewrite rd_view_insert, rd_view_empty, fmap_insert, fmap_empty. }
  assert (Hst : rd_view (t_state d) = {[k := st]}).
  { unfold d. cbn. by rewrite rd_view_insert, rd_view_empty. }
  assert (Hch : rd_view (t_children d) = {[k := mkChildIndexEntry (blk_slot b) (blk_parent_root b)]}).
  { unfold d. cbn. rewrite rd_view_insert, rd_view_empty. fold b. by rewrite Hr. }
  assert (Hsi : rd_view (t_slot_index d) = {[blk_slot b := k]}).
  { unfold d. cbn. rewrite !rd_view_insert, rd_view_empty. fold b. by rewrite insert_insert_eq. }
  assert (Hone : forall r, is_Some (block_index d !! r) <-> r = k).
  { intros r. rewrite Hbi. destruct (decide (r = k)) as [->|].
    - rewrite lookup_singleton_eq. done.
    - rewrite lookup_singleton_ne by done. split; [by intros []|done]. }
  assert (Hanc : forall r a, ancestor (block_index d) r a -> is_Some (block_index d !! a) -> r = k /\ a = k \/ r = a).
  { intros r a Ha Hs'. apply Hone in Hs'. subst a. destruct (decide (r = k)); [auto|].
    inversion Ha as [|? p ? [sl Hl]]; [auto|]. left. split; [|done]. apply Hone. eauto. }
  split.
  - intros c p sl p' slp Hc Hpp. exfalso. rewrite Hbi in Hc, Hpp.
    apply lookup_singleton_Some in Hc as [_ Hx]; injection Hx as <- _. apply lookup_singleton_Some in Hpp as [E _]. by apply Hp.
  - intros c p sl Hc. rewrite Hbi in Hc. apply lookup_singleton_Some in Hc as [_ Hx]; injection Hx as <- _. by left.
  - destruct (block_index d !! blk_parent_root b) eqn:E; [|done]. exfalso. apply Hp, Hone. eauto.
  - intros r. rewrite Hone, Hst. destruct (decide (r = k)) as [->|].
    + rewrite lookup_singleton_eq. done.
    + rewrite lookup_singleton_ne by done. split; [done|by intros []].
  - intros r p sl st' Hb' Hs'. rewrite Hbi in Hb'. rewrite Hst in Hs'.
    apply lookup_singleton_Some in Hb' as [_ Hx]; injection Hx as <- <-. apply lookup_singleton_Some in Hs' as [_ <-]. done.
  - intros r st' a pa sa Hs' Ha Hai Hne. exfalso. destruct (Hanc _ _ Ha) as [[-> ->]| ->]; [eauto|done..].
  - intros r e He. rewrite Hch in He. apply lookup_singleton_Some in He as [<- <-].
    rewrite Hbi. by rewrite lookup_singleton_eq.
  - intros sl r Hsl. rewrite Hsi in Hsl. apply lookup_singleton_Some in Hsl as [_ <-]. by apply Hone.
  - rewrite Hsi. apply insert_non_empty.
  - exists k. split; [done|]. by apply Hone.
  - exists k. split; [done|]. by apply Hone.
  - eexists. split; [done|]. by apply Hone.
  - by eexists.
  - eexists. split; [done|]. destruct time; [done|]. apply is_u64_wrap.
Qed.

(** ** Events *)

(** What the node hands to its store. *)
Inductive event : Type :=
| EvBlock (sb : SignedBlock) (verify : bool)
| EvTick (time : Z) (has_proposal is_aggregator : bool)
| EvAggregate (a : SignedAggregatedAttestation) (verify : bool)
| EvAttestation (sa : SignedAttestation) (is_aggregator : bool)
| EvAccept
| EvPrune.

Definition handle (e : event) : M Store StoreErr unit :=
  match e with
  | EvBlock sb v => on_block sb v
  | EvTick t p a => on_tick spec t p a
  | EvAggregate a v => on_gossip_aggregated_attestation_core a v
  | EvAttestation sa a => on_gossip_attestation spec sa a
  | EvAccept => accept_new_attestations
  | EvPrune => prune_stale_attestation_data
  end.

(** Blocks have 64-bit fields, and none has the root the anchor names as its parent. *)
Definition event_ok (dangling : B256) (e : event) : Prop :=
  match e with
  | EvBlock sb _ => block_u64 (sb_block sb) /\ tree_hash_root (sb_block sb) <> dangling
  | _ => True
  end.

(** The stores reached by handling events, whatever their outcome. *)
Inductive store_reachable (dangling : B256) (s0 : Store) : Store -> Prop :=
| sr_init : store_reachable dangling s0 s0
| sr_step s e : store_reachable dangling s0 s -> event_ok dangling e ->
    store_reachable dangling s0 (handle e s).1.

Lemma handle_inv dangling e :
  event_ok dangling e -> preserves (fun s => db_inv dangling (store s)) (handle e).
Proof.
  destruct e; cbn; intros Hok.
  - apply on_block_inv; tauto.
  - apply on_tick_inv.
  - apply on_gossip_aggregated_inv.
  - apply on_gossip_attestation_inv.
  - apply accept_new_attestations_inv.
  - apply prune_inv.
Qed.

Lemma store_reachable_inv dangling s0 s :
  db_inv dangling (store s0) -> store_reachable dangling s0 s -> db_inv dangling (store s).
Proof. intros I. induction 1 as [|s e _ IH Hok]; [done|]. by apply handle_inv. Qed.

(** ** Ticks *)

Section ticks.
Context (dangling : B256).
Abbreviation inv := (fun s : Store => db_inv dangling (store s)).

Lemma accept_new_attestations_run s :
  inv s -> exists s', accept_new_attestations s = (s', Ok tt) /\
    f_time (store s') = f_time (store s).
Proof.
  intros I. unfold accept_new_attestations, db_write. rewrite !bindM_modify.
  set (s1 := on_db drop_superseded (on_db merge_payloads s)).
  assert (C : same_core (store s) (store s1)).
  { etrans; [apply merge_payloads_core|apply drop_superseded_core]. }
  assert (I1 : inv s1) by (by eapply db_inv_frame).
  destruct (update_head_run _ s1 I1) as (h & hs & c & _ & ->). eexists. split; [done|].
  cbn. apply C.
Qed.

Lemma tick_interval_run p a s t :
  inv s -> f_time (store s) = Some t ->
  exists s', tick_interval p a s = (s', Ok tt) /\ inv s' /\ f_time (store s') = Some (t + 1)%u64.
Proof.
  intros I Ht.
  assert (Hrun : exists s', tick_interval p a s = (s', Ok tt) /\ f_time (store s') = Some (t + 1)%u64).
  { unfold tick_interval, db_read, db_write. rewrite bindM_reads, Ht. cbn [field_get ok_or].
    rewrite bindM_modify. set (s1 := on_db _ s).
    assert (I1 : inv s1) by (apply set_time_inv; [apply is_u64_wrap|done]).
    assert (Ht1 : f_time (store s1) = Some (t + 1)%u64) by done. clearbody s1.
    destruct (accept_new_attestations_run s1 I1) as (s2 & Ha & Ht2).
    destruct (update_safe_target_run _ s1 I1) as (h & _ & Hsafe).
    repeat case_if; rewrite ?Ha, ?Hsafe; eexists; (split; [done|]); rewrite ?Ht2; done. }
  destruct Hrun as (s' & Hr & Ht'). exists s'. split_and!; [done| |done].
  pose proof (tick_interval_inv dangling p a s I) as I'. by rewrite Hr in I'.
Qed.

Lemma tick_loop_run p a fuel : forall s t target,
  inv s -> f_time (store s) = Some t -> is_u64 t -> target < 2 ^ 64 ->
  Z.to_nat (target - t) = fuel ->
  exists s', tick_loop fuel target p a s = (s', Ok tt) /\ inv s' /\
    f_time (store s') = Some (Z.max t target).
Proof.
  induction fuel as [|fuel IH]; intros s t target I Ht Htu Htg Hf; cbn [tick_loop];
    unfold db_read; rewrite bindM_reads, Ht; cbn [field_get ok_or].
  - rewrite (proj2 (Z.ltb_ge _ _)) by lia. exists s. split_and!; [done..|]. rewrite Ht. f_equal. lia.
  - rewrite (proj2 (Z.ltb_lt _ _)) by lia.
    set (sp := p && _). destruct (tick_interval_run sp a s t I Ht) as (s1 & H1 & I1 & Ht1).
    unfold mbind, M_bind. rewrite H1. rewrite u64_add_id in Ht1 by u64_solve.
    destruct (IH s1 (t + 1) target I1 Ht1) as (s2 & -> & I2 & Ht2); [u64_solve|done|lia|].
    exists s2. split_and!; [done..|]. rewrite Ht2. f_equal. lia.
Qed.

Lemma tick_target_u64 x t : tick_target spec x = Ok t -> t < 2 ^ 64.
Proof.
  unfold tick_target. case_if; [done|]. intros [= <-]. b2p.
  pose proof (is_u64_wrap (spec_seconds_per_slot spec * 1000)) as [H0 _].
  pose proof (is_u64_wrap ((x * 1000)%u64 * INTERVALS_PER_SLOT)) as [H1 H2].
  unfold u64_mul in *. apply Z.div_lt_upper_bound; [lia|]. nia.
Qed.

(** A clock tick brings the store to the interval of the wall clock, one interval at a
    time, and never fails. *)
Lemma on_tick_run time p a s g t :
  inv s -> store_genesis_time (store s) = Ok g -> f_time (store s) = Some t ->
  g <= time -> (spec_seconds_per_slot spec * 1000)%u64 <> 0 ->
  exists s' target, tick_target spec (time - g) = Ok target /\
    on_tick spec time p a s = (s', Ok tt) /\ inv s' /\ f_time (store s') = Some (Z.max t target).
Proof.
  intros I Hg Ht Hle Hsp. unfold on_tick, db_read. rewrite bindM_reads, Hg. unfold u64_checked_sub.
  rewrite (proj2 (Z.ltb_ge _ _)) by lia.
  assert (Htt : exists target, tick_target spec (time - g) = Ok target).
  { unfold tick_target. rewrite (proj2 (Z.eqb_neq _ _) Hsp). eauto. }
  destruct Htt as [target Htt]. rewrite Htt.
  rewrite bindM_lift, bindM_reads, Ht. cbn [field_get ok_or].
  destruct (di_time _ _ I) as (t' & Ht' & Htu). rewrite Ht in Ht'. injection Ht' as <-.
  destruct (tick_loop_run p a _ s t target I Ht Htu (tick_target_u64 _ _ Htt) eq_refl)
    as (s' & Hr & I' & Hs'). eauto 10.
Qed.
End ticks.

(** ** Accepting attestations *)

Lemma merge_payloads_view d k :
  rd_view (t_known_payloads (merge_payloads d)) !! k =
    match rd_view (t_new_payloads d) !! k with
    | Some new => Some (default [] (rd_view (t_known_payloads d) !! k) ++ new)
    | None => rd_view (t_known_payloads d) !! k
    end /\
  rd_view (t_new_payloads (merge_payloads d)) = ∅ /\ t_data (merge_payloads d) = t_data d.
Proof.
  unfold merge_payloads. destruct (new_drain_view d) as [E1 E2].
  destruct (new_drain d) as [m d1]. cbn in E1, E2. subst m d1.
  set (d1 := set_t_new_payloads rd_empty d).
  assert (H : forall l d0, NoDup l.*1 ->
    let d' := foldl (fun d '(key, new_proofs) =>
      known_insert key (default [] (rd_get (t_known_payloads d) key) ++ new_proofs) d) d0 l in
    rd_view (t_known_payloads d') !! k =
      match (list_to_map l : gmap SignatureKey _) !! k with
      | Some new => Some (default [] (rd_view (t_known_payloads d0) !! k) ++ new)
      | None => rd_view (t_known_payloads d0) !! k
      end /\ t_new_payloads d' = t_new_payloads d0 /\ t_data d' = t_data d0).
  { induction l as [|[k0 ps] l IH]; intros d0 Hnd; cbn [foldl]; [done|].
    apply NoDup_cons in Hnd as [Hn Hnd]. destruct (IH (known_insert k0
      (default [] (rd_get (t_known_payloads d0) k0) ++ ps) d0) Hnd) as (H1 & H2 & H3).
    cbv zeta. rewrite H1, H2, H3. split; [|done]. cbn. rewrite rd_view_insert, rd_get_view.
    destruct (decide (k = k0)) as [->|].
    - rewrite (not_elem_of_list_to_map_1 l k0 Hn), !lookup_insert_eq. done.
    - by rewrite !lookup_insert_ne. }
  destruct (H (hm_iter (rd_view (t_new_payloads d))) d1 (NoDup_hm_iter _)) as (H1 & H2 & H3).
  split_and!.
  - rewrite H1. replace (list_to_map (hm_iter (rd_view (t_new_payloads d))) : gmap SignatureKey _)
      with (rd_view (t_new_payloads d)); [done|].
    symmetry. rewrite (list_to_map_proper _ (map_to_list (rd_view (t_new_payloads d))));
      [apply list_to_map_to_list|apply NoDup_hm_iter|apply hm_iter_perm].
  - rewrite H2. unfold d1. cbn. apply rd_view_empty.
  - by rewrite H3.
Qed.

Lemma validator_max_slot_spec d keys : forall m0 v,
  match foldl (raise_max d) m0 keys !! v with
  | Some x => (m0 !! v = Some x \/ exists k, k ∈ keys /\ sk_validator_id k = v /\ key_slot d k = x) /\
      (forall y, m0 !! v = Some y -> y <= x) /\
      forall k, k ∈ keys -> sk_validator_id k = v -> key_slot d k <= x
  | None => m0 !! v = None /\ forall k, k ∈ keys -> sk_validator_id k <> v
  end.
Proof.
  induction keys as [|k0 keys IH]; intros m0 v; cbn [foldl].
  - destruct (m0 !! v) eqn:E; [|set_solver]. split_and!; [by left|intros y [= <-]; lia|set_solver].
  - specialize (IH (raise_max d m0 k0) v). destruct (foldl (raise_max d) (raise_max d m0 k0) keys !! v) as [x|].
    + destruct IH as (H1 & H2 & H3). unfold raise_max in H1, H2.
      destruct (decide (v = sk_validator_id k0)) as [->|Hv].
      * rewrite lookup_insert_eq in H1, H2. destruct (m0 !! sk_validator_id k0) as [y|] eqn:E.
        -- specialize (H2 _ eq_refl). split_and!.
           ++ destruct H1 as [[= H1]|(k & ? & ? & ?)]; [|right; exists k; set_solver].
              destruct (Z.max_spec y (key_slot d k0)) as [[? Em]|[? Em]]; rewrite Em in H1.
              ** right. exists k0. set_solver.
              ** left. by f_equal.
           ++ intros ? [= <-]. lia.
           ++ intros k [->|Hk]%elem_of_cons Hkv; [lia|auto].
        -- specialize (H2 _ eq_refl). split_and!; [|done|].
           ++ destruct H1 as [[= H1]|(k & ? & ? & ?)]; right; [exists k0|exists k]; set_solver.
           ++ intros k [->|Hk]%elem_of_cons Hkv; [lia|auto].
      * rewrite lookup_insert_ne in H1, H2 by done. split_and!; [|done|].
        -- destruct H1 as [?|(k & ? & ? & ?)]; [by left|right; exists k; set_solver].
        -- intros k [->|Hk]%elem_of_cons Hkv; [done|auto].
    + destruct IH as [H1 H2]. unfold raise_max in H1. rewrite lookup_insert in H1.
      case_decide; [done|]. split; [done|]. intros k [->|Hk]%elem_of_cons; [done|auto].
Qed.

(** A key stays known exactly if no known vote of its validator is for a later slot. *)
Lemma drop_superseded_view d k ps :
  rd_view (t_known_payloads (drop_superseded d)) !! k = Some ps <->
  rd_view (t_known_payloads d) !! k = Some ps /\
  forall k', is_Some (rd_view (t_known_payloads d) !! k') -> sk_validator_id k' = sk_validator_id k ->
    key_slot d k' <= key_slot d k.
Proof.
  assert (Hsup : forall k, is_Some (rd_view (t_known_payloads d) !! k) ->
    (k ∉ superseded_keys d <-> forall k', is_Some (rd_view (t_known_payloads d) !! k') ->
      sk_validator_id k' = sk_validator_id k -> key_slot d k' <= key_slot d k)).
  { intros k0 Hk0. apply elem_of_known_iter_keys in Hk0. unfold superseded_keys.
    rewrite elem_of_list_to_set, list_elem_of_filter.
    pose proof (validator_max_slot_spec d (known_iter_keys d) ∅ (sk_validator_id k0)) as Hm.
    fold (validator_max_slot d (known_iter_keys d)) in Hm.
    destruct (validator_max_slot d (known_iter_keys d) !! sk_validator_id k0) as [x|].
    2: { destruct Hm as [_ Hm]. by destruct (Hm k0 Hk0). }
    destruct Hm as (H1 & _ & H3). cbn. setoid_rewrite <-elem_of_known_iter_keys. split.
    - intros Hns k' Hk' Hv. specialize (H3 k' Hk' Hv).
      destruct (decide (key_slot d k0 < x)) as [Hlt|]; [|lia]. by destruct Hns.
    - intros Hall [Hlt _]. destruct H1 as [?|(k' & Hk' & Hv & <-)]; [done|].
      specialize (Hall k' Hk' Hv). lia. }
  unfold drop_superseded. destruct (bool_decide (superseded_keys d = ∅)) eqn:E; b2p.
  - split; [|tauto]. intros Hk. split; [done|]. apply Hsup; [eauto|]. rewrite E. set_solver.
  - cbn. rewrite rd_view_retain, map_retain_Some, negb_true_iff, bool_decide_eq_false.
    split; intros [Hk Hs]; (split; [done|]); apply Hsup; eauto.
Qed.

(** ** Pruning *)

(** The stale roots are never roots a payload is stored under. *)
Lemma stale_not_protected d f c k r :
  r ∈ stale_roots d f c ->
  sk_data_root k = r -> rd_view (t_known_payloads d) !! k = None /\ rd_view (t_new_payloads d) !! k = None.
Proof.
  unfold stale_roots. rewrite elem_of_list_to_set, list_elem_of_fmap.
  intros ([r' data] & -> & [[_ Hp] _]%list_elem_of_filter) Hk. cbn in *.
  unfold protected_roots in Hp. rewrite elem_of_list_to_set, elem_of_app in Hp. split.
  - destruct (rd_view (t_known_payloads d) !! k) eqn:E; [|done]. exfalso. apply Hp. left.
    apply list_elem_of_fmap. exists k. split; [done|]. apply elem_of_known_iter_keys. eauto.
  - destruct (rd_view (t_new_payloads d) !! k) eqn:E; [|done]. exfalso. apply Hp. right.
    apply list_elem_of_fmap. eexists (k, _). split; [done|]. by apply elem_of_rd_iter.
Qed.

(** The known payloads of a key after the new ones are merged in. *)
Definition merged (d : LeanDB) (k : SignatureKey) : option (list SingleMessageAggregate) :=
  match rd_view (t_new_payloads d) !! k with
  | Some new => Some (default [] (rd_view (t_known_payloads d) !! k) ++ new)
  | None => rd_view (t_known_payloads d) !! k
  end.

(** [accept_new_attestations]: nothing is left pending, and what is known is what was known
    or pending, but for votes superseded by a later vote of their validator. *)
Lemma accept_new_attestations_effect dangling s :
  db_inv dangling (store s) ->
  exists s', accept_new_attestations s = (s', Ok tt) /\
    rd_view (t_new_payloads (store s')) = ∅ /\
    forall k ps, rd_view (t_known_payloads (store s')) !! k = Some ps <->
      merged (store s) k = Some ps /\
      forall k', is_Some (merged (store s) k') -> sk_validator_id k' = sk_validator_id k ->
        key_slot (store s) k' <= key_slot (store s) k.
Proof.
  intros I. unfold accept_new_attestations, db_write. rewrite !bindM_modify.
  set (s1 := on_db drop_superseded (on_db merge_payloads s)).
  assert (C : same_core (store s) (store s1)).
  { etrans; [apply merge_payloads_core|apply drop_superseded_core]. }
  assert (I1 : db_inv dangling (store s1)) by (by eapply db_inv_frame).
  destruct (update_head_run _ s1 I1) as (h & hs & c & _ & ->). eexists. split; [done|].
  cbn [store set_f_finalized set_f_head t_new_payloads t_known_payloads].
  set (d1 := merge_payloads (store s)). change (store s1) with (drop_superseded d1).
  assert (Hm : forall k, rd_view (t_known_payloads d1) !! k = merged (store s) k).
  { intros k. apply (merge_payloads_view (store s) k). }
  destruct (merge_payloads_view (store s) (mkSignatureKey 0 0)) as (_ & Hn & Hd). fold d1 in Hn, Hd.
  assert (Hks : forall k, key_slot d1 k = key_slot (store s) k).
  { intros k. unfold key_slot, data_get. by rewrite Hd. }
  split.
  - unfold drop_superseded. case_if; done.
  - intros k ps. rewrite drop_superseded_view. setoid_rewrite Hm. setoid_rewrite Hks. done.
Qed.

(** [prune_stale_attestation_data]: the stale data and its signatures go, every payload
    stays, and the children index loses the blocks below the finalized slot. *)
Lemma prune_run s f :
  f_finalized (store s) = Some f ->
  let stale := stale_roots (store s) (cp_slot f)
    (Z.max (cp_slot f) (u64_saturating_sub (cp_slot (head_checkpoint s)) ATTESTATION_RETENTION_SLOTS)) in
  exists s', prune_stale_attestation_data s = (s', Ok tt) /\
    rd_view (t_known_payloads (store s')) = rd_view (t_known_payloads (store s)) /\
    rd_view (t_new_payloads (store s')) = rd_view (t_new_payloads (store s)) /\
    (forall r, rd_view (t_data (store s')) !! r =
       if decide (r ∈ stale) then None else rd_view (t_data (store s)) !! r) /\
    (forall k, rd_view (t_signatures (store s')) !! k =
       if decide (sk_data_root k ∈ stale) then None else rd_view (t_signatures (store s)) !! k) /\
    rd_view (t_children (store s')) =
      map_retain (fun _ e => cp_slot f <=? cie_slot e) (rd_view (t_children (store s))).
Proof.
  intros Hf stale. unfold prune_stale_attestation_data, db_read, db_write. rewrite bindM_reads, Hf.
  cbn [field_get ok_or]. rewrite bindM_modify, !bindM_reads.
  set (s1 := on_db (fun d => (prune_finalized (cp_slot f) d).1) s).
  assert (Hd1 : t_known_payloads (store s1) = t_known_payloads (store s) /\
    t_new_payloads (store s1) = t_new_payloads (store s) /\ t_data (store s1) = t_data (store s) /\
    t_signatures (store s1) = t_signatures (store s)).
  { unfold s1. cbn. unfold prune_finalized. by case_if. }
  destruct Hd1 as (H1 & H2 & H3 & H4).
  assert (Hst : stale_roots (store s1) (cp_slot f) (Z.max (cp_slot f)
    (u64_saturating_sub (cp_slot (head_checkpoint s1)) ATTESTATION_RETENTION_SLOTS)) = stale).
  { unfold stale, stale_roots, protected_roots, known_iter_keys. by rewrite H1, H2, H3. }
  rewrite Hst. pose proof (prune_finalized_view (store s) (cp_slot f)) as Hch.
  assert (Hkeep : forall (T : gmap SignatureKey (list SingleMessageAggregate)),
    (T = rd_view (t_known_payloads (store s)) \/ T = rd_view (t_new_payloads (store s))) ->
    map_retain (fun k _ => negb (bool_decide (sk_data_root k ∈ stale))) T = T).
  { intros T HT. apply map_eq. intros k. apply option_eq. intros ps.
    rewrite map_retain_Some, negb_true_iff, bool_decide_eq_false. split; [tauto|]. intros Hk.
    split; [done|]. intros Hin. destruct (stale_not_protected _ _ _ k _ Hin eq_refl) as [Hx Hy].
    destruct HT; subst T; congruence. }
  destruct (bool_decide (stale = ∅)) eqn:E; b2p.
  - exists s1. split; [done|]. rewrite H1, H2, H3, H4, E. split_and!; done.
  - rewrite !bindM_modify. eexists. split; [done|]. cbn [store on_db]. cbn.
    change (prune_finalized (cp_slot f) (store s)).1 with (store s1).
    rewrite !rd_view_retain, H1, H2, H3, H4. split_and!; [by apply Hkeep; auto..| | |done].
    + intros r. apply option_eq. intros x. rewrite map_retain_Some, negb_true_iff, bool_decide_eq_false.
      case_decide; naive_solver.
    + intros k. apply option_eq. intros x. rewrite map_retain_Some, negb_true_iff, bool_decide_eq_false.
      case_decide; naive_solver.
Qed.

(** ** Blocks *)

Definition data_roots (sb : SignedBlock) : list B256 :=
  (fun a => tree_hash_root (aa_message a)) <$> block_attestations sb.

Lemma check_distinct_spec l :
  let roots := (fun a => tree_hash_root (aa_message a)) <$> l in
  (NoDup roots -> exists seen, check_distinct l = Ok seen) /\
  (~ NoDup roots -> check_distinct l = Err DuplicateAttestationData).
Proof.
  cbv zeta. unfold check_distinct. match goal with |- context [foldM ?f _ _] => set (step := f) end.
  assert (H : forall seen : gset B256,
    let ok := NoDup ((fun a => tree_hash_root (aa_message a)) <$> l) /\
      forall a, a ∈ l -> tree_hash_root (aa_message a) ∉ seen in
    (ok -> exists seen', foldM step seen l = Ok seen') /\
    (~ ok -> foldM step seen l = Err DuplicateAttestationData)).
  { induction l as [|a l IH]; intros seen ok; unfold ok; clear ok; cbn [foldM].
    { split; [eauto|]. intros Hn. destruct Hn. split; [constructor|set_solver]. }
    unfold step at 2 4. rewrite fmap_cons, NoDup_cons.
    set (r := tree_hash_root (aa_message a)) in *.
    destruct (bool_decide (r ∉ seen)) eqn:Hr; cbn [ensure mbind res_bind]; b2p.
    2: { split; [|done]. intros [_ Hall]. destruct Hr. apply Hall. set_solver. }
    destruct (IH ({[r]} ∪ seen)) as [Hok Hdup].
    assert (E : NoDup ((fun a => tree_hash_root (aa_message a)) <$> l) /\
        (forall a, a ∈ l -> tree_hash_root (aa_message a) ∉ {[r]} ∪ seen) <->
      (r ∉ (fun a => tree_hash_root (aa_message a)) <$> l /\
       NoDup ((fun a => tree_hash_root (aa_message a)) <$> l)) /\
      forall a0, a0 ∈ a :: l -> tree_hash_root (aa_message a0) ∉ seen).
    { rewrite list_elem_of_fmap. setoid_rewrite not_elem_of_union. setoid_rewrite not_elem_of_singleton.
      setoid_rewrite elem_of_cons. split.
      - intros [Hn Hall]. split_and!; [|done|].
        + intros (x & Hx & Hin). by destruct (Hall x Hin).
        + intros x [->|Hin]; [done|]. by apply Hall.
      - intros [[Hn Hnd] Hall]. split; [done|]. intros x Hin. split; [|auto]. intros Hx. apply Hn. eauto. }
    split; intros Hx; [apply Hok|apply Hdup]; by rewrite E. }
  specialize (H ∅). cbv zeta in H. destruct H as [H1 H2]. split; intros Hn.
  - apply H1. split; [done|set_solver].
  - apply H2. tauto.
Qed.

Section blocks.
Context (dangling : B256).

(** A new valid block is stored with the state it leads to, and the head is chosen again. *)
Lemma on_block_accepted sb verify s st c :
  db_inv dangling (store s) -> block_u64 (sb_block sb) -> tree_hash_root (sb_block sb) <> dangling ->
  block_contains_key (store s) (tree_hash_root (sb_block sb)) = false ->
  check_block (store s) sb verify = Ok (st, c) -> NoDup (data_roots sb) ->
  exists s', on_block sb verify s = (s', Ok tt) /\ db_inv dangling (store s') /\
    block_get (store s') (tree_hash_root (sb_block sb)) = Some sb /\
    state_get (store s') (tree_hash_root (sb_block sb)) = Some st /\
    f_justified (store s') = Some c.
Proof.
  intros I Hu Hd Hk Hc Hn. pose proof (on_block_inv dangling sb verify Hu Hd s I) as I'.
  rewrite on_block_run in *. cbv zeta in *. rewrite Hk, Hc in *.
  destruct (proj1 (check_distinct_spec _) Hn) as [seen E]. rewrite E in *.
  set (s1 := on_db (fun d => foldl register_attestation d (block_attestations sb)) _) in *.
  apply (check_block_Ok dangling) in Hc as (ps & Hps & Hst & _ & Hj); [|done].
  assert (Hnone : block_index (store s) !! tree_hash_root (sb_block sb) = None).
  { destruct (block_index (store s) !! tree_hash_root (sb_block sb)) as [e|] eqn:He; [|done].
    by rewrite (proj2 (block_contains_index (store s) _) (ex_intro _ e He)) in Hk. }
  pose proof (add_block_inv dangling (store s) sb ps st c I Hu Hnone Hd Hps Hst Hj) as I0.
  set (d0 := add_block (tree_hash_root (sb_block sb)) sb st c (store s)) in *.
  assert (C : same_core d0 (store s1)) by (apply same_core_fold, register_attestation_core).
  assert (I1 : db_inv dangling (store s1)) by (by eapply db_inv_frame).
  destruct (update_head_run _ s1 I1) as (h & hs & fc & _ & E'). rewrite E' in *. eexists.
  split; [done|]. split; [exact I'|]. unfold block_get, state_get.
  cbn [store set_f_finalized set_f_head t_block t_state f_justified].
  assert (Hb : t_block (store s1) = t_block d0 /\ t_state (store s1) = t_state d0 /\
    f_justified (store s1) = f_justified d0) by (split_and!; apply C).
  destruct Hb as (-> & -> & ->). unfold d0. cbn. rewrite !rd_get_view, !rd_view_insert.
  by rewrite !lookup_insert_eq.
Qed.

(** A block that names an attestation data twice is refused after it has been stored. *)
Lemma on_block_duplicate sb verify s st c :
  block_contains_key (store s) (tree_hash_root (sb_block sb)) = false ->
  check_block (store s) sb verify = Ok (st, c) -> ~ NoDup (data_roots sb) ->
  exists s', on_block sb verify s = (s', Err DuplicateAttestationData) /\
    block_get (store s') (tree_hash_root (sb_block sb)) = Some sb /\
    state_get (store s') (tree_hash_root (sb_block sb)) = Some st /\
    on_block sb verify s' = (s', Ok tt).
Proof.
  intros Hk Hc Hn. rewrite on_block_run. cbv zeta. rewrite Hk, Hc.
  rewrite (proj2 (check_distinct_spec _) Hn). eexists. split; [done|].
  set (s1 := on_db _ s).
  assert (Hb : block_get (store s1) (tree_hash_root (sb_block sb)) = Some sb).
  { unfold block_get, s1. cbn. by rewrite rd_get_view, rd_view_insert, lookup_insert_eq. }
  split_and!; [done| |].
  - unfold state_get, s1. cbn. by rewrite rd_get_view, rd_view_insert, lookup_insert_eq.
  - rewrite on_block_run. cbv zeta. unfold block_contains_key. by rewrite Hb.
Qed.
End blocks.

(** ** What ticking leaves alone *)

Section states.
Context (T : Table B256 LeanState).
Abbreviation same_states := (fun s : Store => t_state (store s) = T).

Lemma same_states_write f : (forall d, t_state (f d) = t_state d) -> preserves same_states (db_write f).
Proof. intros Hf. apply preserves_modify. intros s <-. apply Hf. Qed.

Lemma update_head_states : preserves same_states update_head.
Proof.
  unfold update_head. apply preserves_bind; [apply preserves_reads|intros [[h hs] c]].
  apply preserves_bind; [by apply preserves_modify|intros _].
  apply preserves_bind; [by apply same_states_write|intros _]. by apply same_states_write.
Qed.

Lemma accept_states : preserves same_states accept_new_attestations.
Proof.
  unfold accept_new_attestations.
  apply preserves_bind; [apply same_states_write; intros d; apply (merge_payloads_core d)|intros _].
  apply preserves_bind; [apply same_states_write; intros d; apply (drop_superseded_core d)|intros _].
  apply update_head_states.
Qed.

Lemma on_tick_states time p a : preserves same_states (on_tick spec time p a).
Proof.
  unfold on_tick. apply preserves_bind; [apply preserves_reads|intros g].
  case_match; [|apply preserves_ret]. apply preserves_bind; [apply preserves_lift|intros tgt].
  apply preserves_bind; [apply preserves_reads|intros t].
  induction (Z.to_nat (tgt - t)) as [|n IH]; cbn [tick_loop];
    (apply preserves_bind; [apply preserves_reads|intros t']; case_if; [|apply preserves_ret]);
    [apply preserves_lift|].
  apply preserves_bind; [|done]. unfold tick_interval.
  apply preserves_bind; [apply preserves_reads|intros t2].
  apply preserves_bind; [by apply same_states_write|intros _].
  assert (preserves same_states update_safe_target).
  { unfold update_safe_target. apply preserves_bind; [apply preserves_reads|intros h].
    by apply same_states_write. }
  repeat case_if; auto using accept_states, preserves_ret.
Qed.
End states.

(** The proposal head is found in every store that satisfies the invariant. *)
Lemma get_proposal_head_run dangling slot s :
  db_inv dangling (store s) -> (spec_seconds_per_slot spec * 1000)%u64 <> 0 ->
  exists s' h, get_proposal_head spec slot s = (s', Ok h) /\ db_inv dangling (store s') /\
    f_head (store s') = Some h /\ t_state (store s') = t_state (store s).
Proof.
  intros I Hsp. unfold get_proposal_head. set (time := (_ + _)%u64).
  assert (Ht : exists s1, on_tick spec time true false s = (s1, Ok tt) /\ db_inv dangling (store s1)).
  { destruct (di_head _ _ I) as (h & Hh & Hb). apply (di_state _ _ I) in Hb as [st Hst].
    assert (Hg : store_genesis_time (store s) = Ok (genesis_time (config st))).
    { unfold store_genesis_time, state_get. rewrite Hh. cbn. by rewrite rd_get_view, Hst. }
    destruct (di_time _ _ I) as (t & Htm & _).
    destruct (Z.ltb_spec time (genesis_time (config st))) as [Hlt|Hle].
    - exists s. split; [|done]. unfold on_tick, db_read. rewrite bindM_reads, Hg.
      unfold u64_checked_sub. by rewrite (proj2 (Z.ltb_lt _ _) Hlt).
    - destruct (on_tick_run dangling time true false s _ t I Hg Htm Hle Hsp) as (s1 & tgt & _ & ? & ? & _).
      eauto. }
  destruct Ht as (s1 & Ht & I1). rewrite (bindM_run _ _ _ _ _ Ht).
  destruct (accept_new_attestations_run dangling s1 I1) as (s2 & Ha & _). rewrite (bindM_run _ _ _ _ _ Ha).
  assert (I2 : db_inv dangling (store s2)).
  { pose proof (accept_new_attestations_inv dangling s1 I1) as H. by rewrite Ha in H. }
  destruct (di_head _ _ I2) as (h & Hh & _). exists s2, h. unfold db_read, reads. rewrite Hh.
  split_and!; [done..|].
  pose proof (on_tick_states (t_state (store s)) time true false s eq_refl) as E1. rewrite Ht in E1.
  pose proof (accept_states (t_state (store s)) s1 E1) as E2. by rewrite Ha in E2.
Qed.
End runs.
