(* ===== verification/Attesting.v ===== *)
(** * What a validator attests to

    [get_attestation_target] and [produce_attestation_data] of
    [crates/common/fork_choice/lean/src/store.rs]: the walk from the head back to a
    slot that can be justified ends, at an ancestor of the head, and the attestation
    a validator builds passes the store's own validation. *)

From S2P Require Import Prelude StateMonad Redb Ssz Slot LeanTypes.
From S2P Require Import LeanState LeanInvariant LeanTransition LeanSafety LeanDB Ghost.
From S2P Require Import ForkChoice ForkChoiceFacts ThreeSF StoreInvariant.

Section attesting.
Context {SS : SszTypes} {SL : SszLaws SS}.
Context {RD : Redb} {RL : RedbLaws RD} {HO : HashOrder} {HL : HashOrderLaws HO} {PQ : PqCrypto}.
Context {HS : TreeHash LeanState} {HH : TreeHash BlockHeader} {HB : TreeHash BlockBody}
        {HA : TreeHash AttestationData} {HBl : TreeHash Block}.
Context (dangling : B256).

Abbreviation header_slot s := (hdr_slot (latest_block_header s)).
Abbreviation fin_slot s := (cp_slot (latest_finalized s)).
Abbreviation just_slot s := (cp_slot (latest_justified s)).

(** The part of the store a validator reads: the head, its state, the checkpoints the
    state and the store hold, on the chain of the head, and the safe target's slot. *)
Record head_view (d : LeanDB) (h : B256) (st : LeanState) (safe_slot : Z) : Prop := {
  hv_head : f_head d = Some h;
  hv_state : rd_view (t_state d) !! h = Some st;
  hv_justified : 0 < header_slot st ->
    names_block d (latest_justified st) /\ ancestor (block_index d) h (cp_root (latest_justified st));
  hv_finalized : 0 < header_slot st ->
    names_block d (latest_finalized st) /\ ancestor (block_index d) h (cp_root (latest_finalized st));
  hv_store : exists f, f_finalized d = Some f /\ names_block d f /\ ancestor (block_index d) h (cp_root f);
  hv_safe : exists t pt, f_safe_target d = Some t /\ block_index d !! t = Some (pt, safe_slot);
}.

Lemma block_or_Ok d r p sl :
  block_index d !! r = Some (p, sl) ->
  exists b, block_or d r = Ok b /\ blk_slot (sb_block b) = sl /\ blk_parent_root (sb_block b) = p.
Proof.
  intros H. rewrite block_index_get in H. apply fmap_Some in H as (b & Hb & [= -> ->]).
  exists b. unfold block_or. by rewrite Hb.
Qed.

(** One step back from a block above an ancestor [f] of it stays above [f]. *)
Lemma step_back d r p sl f pf sf :
  wf_index (block_index d) -> block_index d !! r = Some (p, sl) -> block_index d !! f = Some (pf, sf) ->
  ancestor (block_index d) r f -> sf < sl ->
  ancestor (block_index d) p f /\ is_Some (block_index d !! p).
Proof.
  intros W Hr Hf Ha Hlt. assert (Hne : r <> f) by (intros ->; simplify_eq; lia).
  apply (ancestor_step _ _ _ _ _ Hr Hne) in Ha. split; [done|].
  inversion Ha as [|? q ? [sl' Hq]]; subst; eauto.
Qed.

Lemma lookback_spec d f pf sf t pt safe_slot n :
  wf_index (block_index d) -> block_index d !! f = Some (pf, sf) ->
  f_safe_target d = Some t -> block_index d !! t = Some (pt, safe_slot) -> sf <= safe_slot ->
  forall r, is_Some (block_index d !! r) -> ancestor (block_index d) r f ->
  exists a, lookback n d r = Ok a /\ is_Some (block_index d !! a) /\
    ancestor (block_index d) r a /\ ancestor (block_index d) a f.
Proof.
  intros W Hf Ht Hti Hle. induction n as [|n IH]; intros r [[p sl] Hr] Ha; cbn [lookback].
  - exists r. split_and!; [done|eauto|apply rtc_refl|done].
  - destruct (block_or_Ok _ _ _ _ Hr) as (b & -> & Hs & Hp). cbn [mbind res_bind].
    rewrite Ht. cbn [field_get ok_or mbind res_bind].
    rewrite (proj2 (block_slot_or_Ok d t safe_slot)) by eauto. cbn [mbind res_bind]. rewrite Hs, Hp.
    destruct (Z.ltb_spec safe_slot sl) as [Hlt|Hge].
    + destruct (step_back _ _ _ _ _ _ _ W Hr Hf Ha ltac:(lia)) as [Ha' Hp'].
      destruct (IH p Hp' Ha') as (a & -> & Hai & H1 & H2). exists a. split_and!; [done..| |done].
      eapply rtc_l; [by exists sl|done].
    + exists r. split_and!; [done|eauto|apply rtc_refl|done].
Qed.

Lemma is_justifiable_after_self s : is_justifiable_after s s = true.
Proof.
  unfold is_justifiable_after, u64_sub. by rewrite Z.ltb_irrefl, Z.sub_diag.
Qed.

Lemma to_justifiable_spec d f pf sf fuel :
  wf_index (block_index d) -> block_index d !! f = Some (pf, sf) ->
  forall r, is_Some (block_index d !! r) -> ancestor (block_index d) r f ->
  (depth (block_index d) r <= fuel)%nat ->
  exists a pa sa, to_justifiable fuel d sf r = Ok a /\ block_index d !! a = Some (pa, sa) /\
    ancestor (block_index d) r a /\ ancestor (block_index d) a f /\ is_justifiable_after sa sf = true.
Proof.
  intros W Hf. induction fuel as [|fuel IH]; intros r [[p sl] Hr] Ha Hd;
    pose proof (depth_parent _ W _ _ _ Hr); [lia|]. cbn [to_justifiable].
  destruct (block_or_Ok _ _ _ _ Hr) as (b & -> & Hs & Hp). cbn [mbind res_bind]. rewrite Hs, Hp.
  destruct (is_justifiable_after sl sf) eqn:Hj.
  - exists r, p, sl. split_and!; [done..|apply rtc_refl|done|done].
  - assert (Hlt : sf < sl).
    { destruct (ancestor_slot _ W _ _ Ha _ _ _ _ Hr Hf) as [->|?]; [|done]. simplify_eq.
      by rewrite is_justifiable_after_self in Hj. }
    destruct (step_back _ _ _ _ _ _ _ W Hr Hf Ha Hlt) as [Ha' Hp'].
    destruct (IH p Hp' Ha' ltac:(lia)) as (a & pa & sa & -> & Hai & H1 & H2 & H3).
    exists a, pa, sa. split_and!; [done..| |done|done]. eapply rtc_l; [by exists sl|done].
Qed.

(** The head's state: its header's slot is the block's. *)
Lemma head_view_slot d h st safe : db_inv dangling d -> head_view d h st safe ->
  wf st /\ exists p, block_index d !! h = Some (p, header_slot st).
Proof.
  intros I V. pose proof (hv_state _ _ _ _ V) as Hst.
  destruct (proj2 (di_state _ _ I h)) as [[p sl] Hh]; [eauto|].
  destruct (di_wf _ _ I _ _ _ _ Hh Hst) as (W & _ & <-). eauto.
Qed.

(** A block on the head's chain at the slot the state has finalized. *)
Lemma head_view_finalized d h st safe : db_inv dangling d -> head_view d h st safe ->
  exists f pf, block_index d !! f = Some (pf, fin_slot st) /\ ancestor (block_index d) h f.
Proof.
  intros I V. destruct (head_view_slot _ _ _ _ I V) as (W & p & Hh). pose proof (wf_slot _ W).
  destruct (decide (header_slot st = 0)) as [E|E].
  - destruct (wf_genesis _ W E) as (E' & _ & _). exists h, p.
    split; [|apply rtc_refl]. by rewrite E', <-E.
  - destruct (hv_finalized _ _ _ _ V) as [[pf Hf] Ha]; [lia|]. eauto.
Qed.

Lemma get_attestation_target_spec d h st safe :
  db_inv dangling d -> head_view d h st safe -> fin_slot st <= safe ->
  exists c, get_attestation_target d = Ok c /\ just_slot st <= cp_slot c /\
    (c = latest_justified st /\ fin_slot st < just_slot st \/
     names_block d c /\ ancestor (block_index d) h (cp_root c) /\
     is_justifiable_after (cp_slot c) (fin_slot st) = true).
Proof.
  intros I V Hsafe. destruct (head_view_slot _ _ _ _ I V) as (_ & p & Hh).
  destruct (head_view_finalized _ _ _ _ I V) as (f & pf & Hf & Haf).
  destruct (hv_safe _ _ _ _ V) as (t & pt & Ht & Hti). pose proof (di_order _ _ I) as W.
  unfold get_attestation_target. rewrite (hv_head _ _ _ _ V). cbn [field_get ok_or mbind res_bind].
  unfold state_get. rewrite rd_get_view, (hv_state _ _ _ _ V). cbn [ok_or mbind res_bind].
  destruct (lookback_spec d f pf (fin_slot st) t pt safe JUSTIFICATION_LOOKBACK_SLOTS W Hf Ht Hti Hsafe h
              ltac:(eauto) Haf) as (a & -> & Hai & Hha & Haf'). cbn [mbind res_bind].
  destruct (to_justifiable_spec d f pf (fin_slot st) (walk_fuel d) W Hf a Hai Haf')
    as (b & pb & sb & -> & Hbi & Hab & Hbf & Hj).
  { pose proof (depth_size (block_index d) a). rewrite size_block_index in *. unfold walk_fuel. lia. }
  cbn [mbind res_bind]. rewrite (proj2 (block_slot_or_Ok d b sb)) by eauto. cbn [mbind res_bind].
  destruct (Z.ltb_spec sb (just_slot st)).
  - exists (latest_justified st). split_and!; [done|done|]. left. split; [done|].
    destruct (ancestor_slot _ W _ _ Hbf _ _ _ _ Hbi Hf) as [->|?]; [|lia]. simplify_eq. lia.
  - exists (mkCheckpoint b sb). split_and!; [done|done|]. right. split_and!; [by exists pb| |done].
    cbn. unfold ancestor in *. by etrans.
Qed.

Lemma ancestor_of_ancestor d h a b pa sa pb sb :
  wf_index (block_index d) -> ancestor (block_index d) h a -> ancestor (block_index d) h b ->
  block_index d !! a = Some (pa, sa) -> block_index d !! b = Some (pb, sb) -> sb <= sa ->
  ancestor (block_index d) a b.
Proof.
  intros W Ha Hb Hai Hbi Hle. destruct (ancestor_linear _ _ _ _ Ha Hb) as [Hx|Hx]; [done|].
  destruct (ancestor_slot _ W _ _ Hx _ _ _ _ Hbi Hai) as [->|?]; [apply rtc_refl|lia].
Qed.

Lemma produce_attestation_data_valid d h st safe sl t :
  db_inv dangling d -> head_view d h st safe -> fin_slot st <= safe ->
  f_time d = Some t -> header_slot st <= sl ->
  (sl * INTERVALS_PER_SLOT)%u64 <= (t + GOSSIP_DISPARITY_INTERVALS)%u64 ->
  exists data, produce_attestation_data d sl = Ok data /\ ad_slot data = sl /\
    cp_root (ad_head data) = h /\ attestation_valid d data.
Proof.
  intros I V Hsafe Ht Hsl Htime. destruct (head_view_slot _ _ _ _ I V) as (W & p & Hh).
  pose proof (di_order _ _ I) as WI.
  destruct (get_attestation_target_spec _ _ _ _ I V Hsafe) as (c & Hc & Hcj & Hcase).
  unfold produce_attestation_data. rewrite (hv_head _ _ _ _ V). cbn [field_get ok_or mbind res_bind].
  unfold state_get. rewrite rd_get_view, (hv_state _ _ _ _ V). cbn [ok_or mbind res_bind].
  rewrite Hc. cbn [mbind res_bind]. 
  set (source := if header_slot st =? 0 then _ else _).
  assert (Hsrc : cp_slot source = just_slot st) by (unfold source; case_if; done).
  rewrite Hsrc, (proj2 (Z.leb_le _ _) Hcj). cbn [ensure mbind res_bind].
  rewrite (proj2 (block_slot_or_Ok d h (header_slot st))) by eauto. cbn [mbind res_bind].
  eexists. split; [done|]. split_and!; [done..|].
  assert (Hsn : names_block d source /\ ancestor (block_index d) h (cp_root source)).
  { unfold source. destruct (Z.eqb_spec (header_slot st) 0) as [E|E].
    - destruct (wf_genesis _ W E) as (_ & -> & _). split; [|apply rtc_refl]. exists p. cbn. by rewrite Hh, E.
    - pose proof (wf_slot _ W). apply (hv_justified _ _ _ _ V). lia. }
  assert (Hcn : names_block d c /\ ancestor (block_index d) h (cp_root c)).
  { destruct Hcase as [[-> Hlt]|(? & ? & _)]; [|done]. destruct (decide (header_slot st = 0)) as [E|E].
    - destruct (wf_genesis _ W E) as (? & ? & _). lia.
    - pose proof (wf_slot _ W). apply (hv_justified _ _ _ _ V). lia. }
  destruct Hsn as [[ps Hs] Has], Hcn as [[pc Hcn] Hac].
  split; cbn [ad_source ad_target ad_head ad_slot cp_slot cp_root].
  - by exists ps.
  - by exists pc.
  - by exists p.
  - rewrite Hsrc. split; [done|]. destruct (ancestor_slot _ WI _ _ Hac _ _ _ _ Hh Hcn) as [E|?]; [|lia].
    rewrite <-E, Hh in Hcn. injection Hcn as _ ->. lia.
  - eapply (ancestor_of_ancestor d h); [done..|]. by rewrite Hsrc.
  - done.
  - destruct (hv_store _ _ _ _ V) as (f & Hf & Hn & Ha). eauto.
  - done.
  - eauto.
Qed.
End attesting.
