(* ===== verification/Production.v ===== *)
(** * Building blocks

    The block production of [crates/common/fork_choice/lean/src/store.rs]: the two
    strategies that select votes ([select_round_based], [select_tiered]) with the
    projected justification window of the latter, the choice of proofs that cover the
    selected votes, sealing the block with the post state's root, and
    [produce_block_with_signatures]. *)

From S2P Require Import Prelude StateMonad Redb Ssz Slot LeanTypes.
From S2P Require Import LeanState LeanDB Ghost ForkChoice.

(** ** Scores of the tiered strategy *)

Inductive AttestationScoreTier : Type := Finalize | Justify | Build.

Definition tier_rank (t : AttestationScoreTier) : Z :=
  match t with Finalize => 1 | Justify => 2 | Build => 3 end.

Record AttestationEntryScore : Type := mkScore {
  sc_tier : AttestationScoreTier;
  sc_new_voter_count : nat;
  sc_target_slot : Z;
  sc_attestation_slot : Z;
}.

(** The fields of [AttestationEntryOrderingKey] in the order the derived comparison
    reads them; [Reverse] negates. *)
Definition ordering_key (self : AttestationEntryScore) (data_root : B256) : list Z :=
  [tier_rank (sc_tier self); - Z.of_nat (sc_new_voter_count self); sc_target_slot self;
   sc_attestation_slot self; data_root].

(** The derived lexicographic [<]. *)
Fixpoint key_ltb (a b : list Z) : bool :=
  match a, b with
  | x :: a', y :: b' => (x <? y) || ((x =? y) && key_ltb a' b')
  | _, _ => false
  end.

Section production.
Context {SS : SszTypes} {RD : Redb} {HO : HashOrder} {PQ : PqCrypto}.
Context {HS : TreeHash LeanState} {HH : TreeHash BlockHeader} {HB : TreeHash BlockBody}
        {HA : TreeHash AttestationData} {HBl : TreeHash Block}.
Context (spec : NetworkSpec).

Abbreviation SM := (M Store StoreErr).

(** ** The projected justification window *)

Definition build_running_votes_by_target_root (head_state : LeanState)
  : res StoreErr (gmap B256 (gset Z)) :=
  let validator_count := validators_len head_state in
  foldM (fun votes '(root_index, target_root) =>
      voters ← foldM (fun voters validator_index =>
          bit ← ok_or (bl_get (justifications_validators head_state)
                         (root_index * validator_count + validator_index)%nat) BitError;
          Ok (if bit : bool then {[Z.of_nat validator_index]} ∪ voters else voters))
        ∅ (seq 0 validator_count);
      Ok (<[target_root := voters]> votes))
    ∅ (enumerate (vl_iter (justifications_roots head_state))).

Definition is_projected_slot_justified (justified_slots : BitList) (finalized_slot candidate_slot : Z)
  : bool :=
  match justified_index_after candidate_slot finalized_slot with
  | None => candidate_slot <=? finalized_slot
  | Some index =>
      (index <? Z.of_nat (bl_len justified_slots))
      && default false (bl_get justified_slots (Z.to_nat index))
  end.

Definition extend_projected_justified_slots (justified_slots : BitList) (finalized_slot target_slot : Z)
  : res StoreErr BitList :=
  match justified_index_after target_slot finalized_slot with
  | None => Ok justified_slots
  | Some target_index =>
      let length := Z.to_nat (target_index + 1)%u64 in
      if (bl_len justified_slots <? length)%nat then
        new_bitlist ← ok_or (bl_with_capacity U262144 length) BitError;
        Ok (bl_union new_bitlist justified_slots)
      else Ok justified_slots
  end.

Definition set_projected_justified_slot (justified_slots : BitList) (finalized_slot target_slot : Z)
  : res StoreErr BitList :=
  justified_slots ← extend_projected_justified_slots justified_slots finalized_slot target_slot;
  match justified_index_after target_slot finalized_slot with
  | Some index => ok_or (bl_set justified_slots (Z.to_nat index) true) BitError
  | None => Ok justified_slots
  end.

Definition shift_projected_finalized_slot (justified_slots : BitList)
    (finalized_slot new_finalized_slot : Z) : res StoreErr BitList :=
  let delta := Z.to_nat (u64_saturating_sub new_finalized_slot finalized_slot) in
  if (delta =? 0)%nat then Ok justified_slots else
  shifted ← ok_or (bl_with_capacity U262144 (bl_len justified_slots - delta)%nat) BitError;
  foldM (fun shifted index =>
      if default false (bl_get justified_slots index)
      then ok_or (bl_set shifted (index - delta)%nat true) BitError
      else Ok shifted)
    shifted (seq delta (bl_len justified_slots - delta)).

(** ** Proofs for the selected votes *)

(** [groups]: the validators that vote for each data. *)
Definition group_by_data (attestations : list AggregatedAttestations) : gmap AttestationData (list Z) :=
  foldl (fun groups a =>
      <[aas_data a := default [] (groups !! aas_data a) ++ [aas_validator_id a]]> groups)
    ∅ attestations.

(** The first candidate that covers most of the uncovered validators. *)
Definition best_proof (uncovered_indices : gset Z) (candidates : list SingleMessageAggregate)
  : option SingleMessageAggregate * gset Z :=
  foldl (fun '(best_proof, max_intersection) proof =>
      let intersection : gset Z := list_to_set (to_validator_indices proof) ∩ uncovered_indices in
      if (size max_intersection <? size intersection)%nat
      then (Some proof, intersection) else (best_proof, max_intersection))
    (None, ∅) candidates.

(** The [while] loop of [select_aggregated_proofs]. *)
Fixpoint cover_loop (fuel : nat) (d : LeanDB) (data : AttestationData) (data_root : B256)
    (uncovered_indices : gset Z) (results : list (AggregatedAttestation * SingleMessageAggregate))
  : res StoreErr (list (AggregatedAttestation * SingleMessageAggregate)) :=
  match hs_iter uncovered_indices with
  | [] => Ok results
  | target_id :: _ =>
      match fuel with
      | O => NoFuel
      | S fuel =>
          match rd_get (t_known_payloads d) (SignatureKey_from_parts target_id data_root) with
          | None => cover_loop fuel d data data_root (uncovered_indices ∖ {[target_id]}) results
          | Some candidates =>
              match best_proof uncovered_indices candidates with
              | (Some proof, max_intersection) =>
                  cover_loop fuel d data data_root (uncovered_indices ∖ max_intersection)
                    (results ++ [(mkAggregatedAttestation (sma_participants proof) data, proof)])
              | (None, _) =>
                  cover_loop fuel d data data_root (uncovered_indices ∖ {[target_id]}) results
              end
          end
      end
  end.

Definition select_aggregated_proofs (d : LeanDB) (attestations : list AggregatedAttestations)
  : res StoreErr (list AggregatedAttestation * list SingleMessageAggregate) :=
  results ← foldM (fun results '(data, validator_ids) =>
      let uncovered_indices := list_to_set validator_ids : gset Z in
      cover_loop (size uncovered_indices) d data (tree_hash_root (data : AttestationData))
        uncovered_indices results)
    [] (hm_iter (group_by_data attestations));
  Ok (results.*1, results.*2).

(** ** Context *)

(** The tables are read through the database. *)
Record BuildContext : Type := mkBuildContext {
  bc_head_state : LeanState;
  bc_available_signed_attestations : gmap Z SignedAttestation;
  bc_db : LeanDB;
}.

Definition load_build_context (d : LeanDB) (parent_root : B256) : res StoreErr BuildContext :=
  head_state ← ok_or (state_get d parent_root) StateNotFound;
  Ok (mkBuildContext head_state (get_all_attestations d) d).

Definition extended_historical_block_hashes (head_state : LeanState) (parent_root : B256) (slot : Z)
  : list B256 :=
  let num_empty_slots :=
    u64_saturating_sub (u64_saturating_sub slot (hdr_slot (latest_block_header head_state))) 1 in
  history head_state ++ [parent_root] ++ replicate (Z.to_nat num_empty_slots) B256_ZERO.

(** ** Round-based selection *)

(** [current_justified] at the start: at genesis it names the parent block. *)
Definition initial_justified (head_state : LeanState) (parent_root : B256) : Checkpoint :=
  if hdr_slot (latest_block_header head_state) =? 0
  then mkCheckpoint parent_root (cp_slot (latest_justified head_state))
  else latest_justified head_state.

(** [id < slots.len() && slots.get(id).unwrap_or(false)]. *)
Definition bit_at (slots : BitList) (id : nat) : bool :=
  (id <? bl_len slots)%nat && default false (bl_get slots id).

(** What the rounds carry: [current_justified], [current_finalized_slot] and
    [current_justified_slots]. *)
Record round_view : Type := mkRound {
  rv_justified : Checkpoint;
  rv_finalized_slot : Z;
  rv_justified_slots : BitList;
}.

(** [source_is_justified] and [target_is_justified]. *)
Definition round_justified (head_state : LeanState) (v : round_view) (c : Checkpoint) : bool :=
  let id := Z.to_nat (cp_slot c) in
  (cp_slot c <=? rv_finalized_slot v)
  || bit_at (rv_justified_slots v) id
  || bit_at (justified_slots head_state) id
  || bool_decide (c = rv_justified v).

(** The filters between the limit on attestation data and the proof lookup. *)
Definition round_eligible (ctx : BuildContext) (hashes : list B256) (v : round_view)
    (data : AttestationData) : bool :=
  let head_state := bc_head_state ctx in
  block_contains_key (bc_db ctx) (cp_root (ad_head data))
  && attestation_data_matches_chain hashes data
  && round_justified head_state v (ad_source data)
  && (let is_genesis_self_vote := (cp_slot (ad_source data) =? 0) && (cp_slot (ad_target data) =? 0) in
      is_genesis_self_vote
      || (negb (round_justified head_state v (ad_target data))
          && is_justifiable_after (cp_slot (ad_target data)) (rv_finalized_slot v))).

(** The [for] loop over the candidates: the new attestations, the data processed so
    far and the number of payloads consumed. *)
Fixpoint round_scan (ctx : BuildContext) (hashes : list B256) (v : round_view)
    (attestations : VariableList AggregatedAttestations) (candidates : list SignedAttestation)
    (new_attestations : VariableList AggregatedAttestations) (processed : gset AttestationData)
    (consumed : Z)
  : res StoreErr (VariableList AggregatedAttestations * gset AttestationData * Z) :=
  match candidates with
  | [] => Ok (new_attestations, processed, consumed)
  | signed_attestation :: rest =>
      let data := sa_message signed_attestation in
      if (MAX_ATTESTATIONS_DATA <=? Z.of_nat (size processed)) && negb (bool_decide (data ∈ processed))
      then Ok (new_attestations, processed, consumed)
      else
      let skip := round_scan ctx hashes v attestations rest new_attestations processed consumed in
      if negb (round_eligible ctx hashes v data) then skip else
      let attestation := mkAggregatedAttestations (sa_validator_id signed_attestation) data in
      if bool_decide (attestation ∈ vl_iter attestations) then skip else
      let signature_key :=
        SignatureKey_from_parts (sa_validator_id signed_attestation) (tree_hash_root data) in
      match rd_get (t_known_payloads (bc_db ctx)) signature_key with
      | None => skip
      | Some _ =>
          new_attestations ← ok_or (vl_push U4096 new_attestations attestation) ListFull;
          round_scan ctx hashes v attestations rest new_attestations ({[data]} ∪ processed)
            (consumed + 1)%u64
      end
  end.

(** The bits of one group of the compacted attestations. *)
Definition group_bits (ids : list Z) : res StoreErr BitList :=
  let len := match max_by Z.leb ids with Some id => Z.to_nat (id + 1)%u64 | None => O end in
  bits ← ok_or (bl_with_capacity U4096 len) BitError;
  foldM (fun bits id => ok_or (bl_set bits (Z.to_nat id) true) BitError) bits ids.

Definition compact (attestations : list AggregatedAttestations)
  : res StoreErr (VariableList AggregatedAttestation) :=
  l ← mapR (fun '(message, ids) => bits ← group_bits ids; Ok (mkAggregatedAttestation bits message))
        (hm_iter (group_by_data attestations));
  ok_or (vl_new U4096 l) ListFull.

(** The state after a block with these attestations. *)
Definition simulate (head_state : LeanState) (slot proposer_index : Z) (parent_root : B256)
    (attestations_list : VariableList AggregatedAttestation) : res StoreErr (Block * LeanState) :=
  let candidate_block :=
    mkBlock slot proposer_index parent_root B256_ZERO (mkBlockBody attestations_list) in
  advanced_state ← transition (process_slots head_state slot);
  advanced_state ← transition (process_block advanced_state candidate_block);
  Ok (candidate_block, advanced_state).

Fixpoint round_loop (fuel : nat) (ctx : BuildContext) (hashes : list B256) (slot proposer_index : Z)
    (parent_root : B256) (sorted_candidates : list SignedAttestation) (v : round_view)
    (attestations : VariableList AggregatedAttestations) (processed : gset AttestationData)
    (consumed : Z) : res StoreErr (list AggregatedAttestations * Z) :=
  '(new_attestations, processed, consumed) ←
    round_scan ctx hashes v attestations sorted_candidates vl_empty processed consumed;
  match vl_iter new_attestations with
  | [] => Ok (vl_iter attestations, consumed)
  | _ =>
      attestations ← foldM (fun l a => ok_or (vl_push U4096 l a) ListFull)
        attestations (vl_iter new_attestations);
      attestations_list ← compact (vl_iter attestations);
      '(_, advanced_state) ←
        simulate (bc_head_state ctx) slot proposer_index parent_root attestations_list;
      if negb (bool_decide (latest_justified advanced_state = rv_justified v))
         || negb (cp_slot (latest_finalized advanced_state) =? rv_finalized_slot v)
      then
        match fuel with
        | O => NoFuel
        | S fuel =>
            round_loop fuel ctx hashes slot proposer_index parent_root sorted_candidates
              (mkRound (latest_justified advanced_state) (cp_slot (latest_finalized advanced_state))
                 (justified_slots advanced_state)) attestations processed consumed
        end
      else Ok (vl_iter attestations, consumed)
  end.

(** The candidates, by target slot and then by data root. *)
Definition candidate_leb (a b : SignedAttestation) : bool :=
  let s x := cp_slot (ad_target (sa_message x)) in
  let r x := tree_hash_root (sa_message x) in
  (s a <? s b) || ((s a =? s b) && (r a <=? r b)).

Definition select_round_based (ctx : BuildContext) (hashes : list B256)
    (attestations : option (VariableList AggregatedAttestations)) (slot proposer_index : Z)
    (parent_root : B256) : res StoreErr (list AggregatedAttestations * Z) :=
  let head_state := bc_head_state ctx in
  let sorted_candidates :=
    sort_by candidate_leb (hm_iter (bc_available_signed_attestations ctx)).*2 in
  round_loop (length sorted_candidates) ctx hashes slot proposer_index parent_root sorted_candidates
    (mkRound (initial_justified head_state parent_root) (cp_slot (latest_finalized head_state))
       (justified_slots head_state)) (default vl_empty attestations) ∅ 0.

(** ** Tiered selection *)

(** [candidates_by_data]: who votes for each data. *)
Definition insert_candidate (m : gmap AttestationData (gset Z)) (data : AttestationData) (validator_id : Z)
  : gmap AttestationData (gset Z) :=
  <[data := {[validator_id]} ∪ default ∅ (m !! data)]> m.

Definition candidates_by_data (ctx : BuildContext)
    (attestations : option (VariableList AggregatedAttestations)) : gmap AttestationData (gset Z) :=
  let m := foldl (fun m sa => insert_candidate m (sa_message sa) (sa_validator_id sa))
             ∅ (hm_iter (bc_available_signed_attestations ctx)).*2 in
  match attestations with
  | Some attestations =>
      foldl (fun m a => insert_candidate m (aas_data a) (aas_validator_id a)) m (vl_iter attestations)
  | None => m
  end.

(** The pool of proofs of each data. *)
Definition aggregated_payloads (ctx : BuildContext) (m : gmap AttestationData (gset Z))
  : gmap B256 (AttestationData * list SingleMessageAggregate) :=
  foldl (fun pool '(data, validator_ids) =>
      if negb (block_contains_key (bc_db ctx) (cp_root (ad_head data))) then pool else
      let data_root := tree_hash_root data in
      let proofs := hl_iter (mjoin ((fun validator_id =>
          default [] (rd_get (t_known_payloads (bc_db ctx))
                        (SignatureKey_from_parts validator_id data_root)))
        <$> hs_iter validator_ids)) in
      match proofs with
      | [] => pool
      | _ => <[data_root := (data, proofs)]> pool
      end)
    ∅ (hm_iter m).

(** The projected state the rounds work on. *)
Record projection : Type := mkProjection {
  pr_finalized_slot : Z;
  pr_justified_slots : BitList;
  pr_votes : gmap B256 (gset Z);
}.

Definition finalizes (source_slot target_slot finalized_slot : Z) : bool :=
  (finalized_slot <? source_slot)
  && forallb (fun slot => negb (is_justifiable_after slot finalized_slot))
       (range (source_slot + 1)%u64 target_slot).

(** The score of a candidate and its new voters, or nothing for a candidate that is
    passed over. *)
Definition score_candidate (ctx : BuildContext) (hashes : list B256) (validator_count : nat)
    (p : projection) (candidate_data : AttestationData) (proofs : list SingleMessageAggregate)
  : option (AttestationEntryScore * gset Z) :=
  let source_slot := cp_slot (ad_source candidate_data) in
  let target_slot := cp_slot (ad_target candidate_data) in
  if negb (block_contains_key (bc_db ctx) (cp_root (ad_head candidate_data))) then None else
  if negb (attestation_data_matches_chain hashes candidate_data) then None else
  if negb (is_projected_slot_justified (pr_justified_slots p) (pr_finalized_slot p) source_slot)
  then None else
  let is_genesis_self_vote := (source_slot =? 0) && (target_slot =? 0) in
  if negb is_genesis_self_vote
     && ((target_slot <=? source_slot) || negb (is_justifiable_after target_slot (pr_finalized_slot p)))
  then None else
  let prior_voters := default ∅ (pr_votes p !! cp_root (ad_target candidate_data)) in
  let new_voters := list_to_set (proofs ≫= to_validator_indices) ∖ prior_voters : gset Z in
  if bool_decide (new_voters = ∅) then None else
  let total_voters := (size prior_voters + size new_voters)%nat in
  let crosses_two_thirds := (2 * validator_count <=? 3 * total_voters)%nat in
  let finalizes_source :=
    crosses_two_thirds && finalizes source_slot target_slot (pr_finalized_slot p) in
  let tier :=
    if is_genesis_self_vote || negb crosses_two_thirds then Build
    else if finalizes_source then Finalize else Justify in
  Some (mkScore tier (size new_voters) target_slot (ad_slot candidate_data), new_voters).

(** The best candidate of a round. *)
Definition best_candidate (ctx : BuildContext) (hashes : list B256) (validator_count : nat)
    (p : projection) (processed_data_roots : gset B256)
    (pool : gmap B256 (AttestationData * list SingleMessageAggregate))
  : option (B256 * AttestationEntryScore * gset Z) :=
  foldl (fun best '(data_root, (candidate_data, proofs)) =>
      if bool_decide (data_root ∈ processed_data_roots) then best else
      match score_candidate ctx hashes validator_count p candidate_data proofs with
      | None => best
      | Some (score, new_voters) =>
          match best with
          | Some (best_root, best_score, _) =>
              if key_ltb (ordering_key score data_root) (ordering_key best_score best_root)
              then Some (data_root, score, new_voters) else best
          | None => Some (data_root, score, new_voters)
          end
      end)
    None (hm_iter pool).

(** What selecting an entry does to the projection. *)
Definition project (p : projection) (data : AttestationData) (tier : AttestationScoreTier)
    (new_voters : gset Z) : res StoreErr projection :=
  let target_root := cp_root (ad_target data) in
  p ←
    (if tier_rank tier <=? tier_rank Justify then
       js ← set_projected_justified_slot (pr_justified_slots p) (pr_finalized_slot p)
              (cp_slot (ad_target data));
       Ok (mkProjection (pr_finalized_slot p) js (delete target_root (pr_votes p)))
     else
       Ok (mkProjection (pr_finalized_slot p) (pr_justified_slots p)
             (<[target_root := default ∅ (pr_votes p !! target_root) ∪ new_voters]> (pr_votes p))));
  match tier with
  | Finalize =>
      js ← shift_projected_finalized_slot (pr_justified_slots p) (pr_finalized_slot p)
             (cp_slot (ad_source data));
      Ok (mkProjection (cp_slot (ad_source data)) js (pr_votes p))
  | _ => Ok p
  end.

Fixpoint tiered_loop (n : nat) (ctx : BuildContext) (hashes : list B256) (validator_count : nat)
    (pool : gmap B256 (AttestationData * list SingleMessageAggregate)) (p : projection)
    (processed_data_roots : gset B256) (selected_attestations : list AggregatedAttestations)
  : res StoreErr (list AggregatedAttestations) :=
  match n with
  | O => Ok selected_attestations
  | S n =>
      match best_candidate ctx hashes validator_count p processed_data_roots pool with
      | None => Ok selected_attestations
      | Some (data_root, score, selected_new_voters) =>
          '(attestation_data, proofs) ← ok_or (pool !! data_root) MissingDataRoot;
          let selected_participants : gset Z := list_to_set (proofs ≫= to_validator_indices) in
          let selected_attestations := selected_attestations ++
            ((fun validator_id => mkAggregatedAttestations validator_id attestation_data)
               <$> hs_iter selected_participants) in
          p ← project p attestation_data (sc_tier score) selected_new_voters;
          tiered_loop n ctx hashes validator_count pool p ({[data_root]} ∪ processed_data_roots)
            selected_attestations
      end
  end.

Definition select_tiered (ctx : BuildContext) (hashes : list B256)
    (attestations : option (VariableList AggregatedAttestations)) (slot : Z)
  : res StoreErr (list AggregatedAttestations) :=
  let head_state := bc_head_state ctx in
  let pool := aggregated_payloads ctx (candidates_by_data ctx attestations) in
  let finalized_slot := cp_slot (latest_finalized head_state) in
  js ← extend_projected_justified_slots (justified_slots head_state) finalized_slot
         (u64_saturating_sub slot 1);
  votes ← build_running_votes_by_target_root head_state;
  tiered_loop (Z.to_nat MAX_ATTESTATIONS_DATA) ctx hashes (validators_len head_state) pool
    (mkProjection finalized_slot js votes) ∅ [].

(** ** Sealing *)

Definition block_set_state_root (state_root : B256) (b : Block) : Block :=
  mkBlock (blk_slot b) (blk_proposer_index b) (blk_parent_root b) state_root (blk_body b).

Definition seal_block (d : LeanDB) (head_state : LeanState) (attestations : list AggregatedAttestations)
    (slot proposer_index : Z) (parent_root : B256)
  : res StoreErr (Block * list SingleMessageAggregate * LeanState) :=
  '(aggregated_attestations, aggregated_proofs) ← select_aggregated_proofs d attestations;
  attestations_list ← ok_or (vl_new U4096 aggregated_attestations) ListFull;
  '(candidate_final_block, post_state) ←
    simulate head_state slot proposer_index parent_root attestations_list;
  Ok (block_set_state_root (tree_hash_root post_state) candidate_final_block, aggregated_proofs,
      post_state).

Definition build_block (d : LeanDB) (strategy : BlockProductionStrategy) (slot proposer_index : Z)
    (parent_root : B256) (attestations : option (VariableList AggregatedAttestations))
  : res StoreErr (Block * list SingleMessageAggregate * LeanState) :=
  ctx ← load_build_context d parent_root;
  let hashes := extended_historical_block_hashes (bc_head_state ctx) parent_root slot in
  selected_attestations ←
    match strategy with
    | RoundBased =>
        r ← select_round_based ctx hashes attestations slot proposer_index parent_root; Ok r.1
    | Tiered => select_tiered ctx hashes attestations slot
    end;
  seal_block d (bc_head_state ctx) selected_attestations slot proposer_index parent_root.

(** The part of [produce_block_with_signatures] after the proposal head is known. *)
Definition produce_on_head (d : LeanDB) (strategy : BlockProductionStrategy) (slot validator_index : Z)
    (head_root : B256) : res StoreErr BlockWithSignatures :=
  head_state ← ok_or (state_get d head_root) StateNotFound;
  ok ← is_proposer validator_index slot (Z.of_nat (validators_len head_state));
  ensure ok NotProposer;;
  let attestation_data_map := extract_attestations_from_aggregated_payloads d (known_iter_keys d) in
  let attestation_vector :=
    (fun '(validator, data) => mkAggregatedAttestations validator data) <$> hm_iter attestation_data_map in
  attestation_list ← ok_or (vl_new U4096 attestation_vector) ListFull;
  '(candidate_block, proofs, post_state) ←
    build_block d strategy slot validator_index head_root (Some attestation_list);
  let candidate_block := block_set_state_root (tree_hash_root post_state) candidate_block in
  attestation_public_keys ← mapR (fun proof =>
      mapR (fun validator_id =>
          v ← ok_or (vl_iter (validators head_state) !! Z.to_nat validator_id) ValidatorNotFound;
          Ok (attestation_public_key v))
        (to_validator_indices proof))
    proofs;
  signatures_list ← ok_or (vl_new U4096 proofs) ListFull;
  Ok (mkBlockWithSignatures candidate_block signatures_list attestation_public_keys).

Definition produce_block_with_signatures (slot validator_index : Z) : SM BlockWithSignatures :=
  head_root ← get_proposal_head spec slot;
  strategy ← reads (fun s => Ok (block_production_strategy s));
  db_read (fun d => produce_on_head d strategy slot validator_index head_root).
End production.
