(* ===== verification/ProductionFacts.v ===== *)
(** * What block production guarantees

    The proofs chosen cover the selected votes, a sealed block is accepted by the
    state transition of its parent state, and the projected justification state of the
    tiered strategy follows 3SF-mini. *)

From S2P Require Import Prelude StateMonad Redb Ssz Slot LeanTypes.
From S2P Require Import LeanState LeanStateFacts ThreeSF LeanRefinement LeanEncoding LeanInvariant.
From S2P Require Import LeanTransition LeanSafety ProofSelection LeanDB Ghost ForkChoice.
From S2P Require Import StoreInvariant StoreRuns Production.

Section facts.
Context {SS : SszTypes} {SL : SszLaws SS}.
Context {RD : Redb} {RL : RedbLaws RD} {HO : HashOrder} {HL : HashOrderLaws HO} {PQ : PqCrypto}.
Context {HS : TreeHash LeanState} {HH : TreeHash BlockHeader} {HB : TreeHash BlockBody}
        {HA : TreeHash AttestationData} {HBl : TreeHash Block}.

(** ** Covering the selected votes *)

Lemma best_proof_spec U cs :
  match best_proof U cs with
  | (Some p, m) => p ∈ cs /\ m = participants p ∩ U /\ m <> ∅ /\
      forall p', p' ∈ cs -> (size (participants p' ∩ U) <= size m)%nat
  | (None, m) => m = ∅ /\ forall p', p' ∈ cs -> participants p' ∩ U = ∅
  end.
Proof.
  unfold best_proof.
  match goal with |- context [foldl ?f _ cs] => set (step := f) end.
  assert (H : forall l b m, (match b with
      | Some p => m = participants p ∩ U /\ m <> ∅ | None => m = ∅ end) ->
    match foldl step (b, m) l with
    | (Some p, m') => (b = Some p \/ p ∈ l) /\ m' = participants p ∩ U /\ m' <> ∅ /\
        (size m <= size m')%nat /\ forall p', p' ∈ l -> (size (participants p' ∩ U) <= size m')%nat
    | (None, m') => b = None /\ m' = ∅ /\ forall p', p' ∈ l -> participants p' ∩ U = ∅
    end).
  { induction l as [|p l IH]; intros b m Hb; cbn [foldl].
    - destruct b as [p|]; [|set_solver]. destruct Hb. split_and!; [by left|done..|set_solver].
    - unfold step at 2. change (list_to_set (to_validator_indices p)) with (participants p).
      destruct (Nat.ltb_spec (size m) (size (participants p ∩ U))) as [Hlt|Hge].
      + specialize (IH (Some p) (participants p ∩ U)).
        destruct (foldl step (Some p, participants p ∩ U) l) as [[p'|] m'].
        * destruct IH as (H1 & H2 & H3 & H4 & H5).
          { split; [done|]. intros E. rewrite E, size_empty in Hlt. lia. }
          split_and!; [|done|done|lia|].
          -- destruct H1 as [[= ->]|?]; [right; set_solver|right; set_solver].
          -- intros q [->|Hq]%elem_of_cons; [done|auto].
        * destruct IH as [[=] _]. split; [done|]. intros E. rewrite E, size_empty in Hlt. lia.
      + specialize (IH b m Hb). destruct (foldl step (b, m) l) as [[p'|] m'].
        * destruct IH as (H1 & H2 & H3 & H4 & H5). split_and!; [|done..|].
          -- destruct H1; [by left|right; set_solver].
          -- intros q [->|Hq]%elem_of_cons; [lia|auto].
        * destruct IH as (-> & -> & H3). subst m. split_and!; [done..|].
          intros q [->|Hq]%elem_of_cons; [|auto].
          apply leibniz_equiv, size_empty_inv. rewrite size_empty in Hge. lia. }
  specialize (H cs None ∅ eq_refl). destruct (foldl step (None, ∅) cs) as [[p|] m].
  - destruct H as ([[=]|?] & ? & ? & _ & ?). done.
  - destruct H as (_ & ? & ?). done.
Qed.

(** A chosen pair: the attestation is the proof's, for this data, and the proof is known
    for some validator it signs for. *)
Definition backed (d : LeanDB) (data : AttestationData) (r : AggregatedAttestation * SingleMessageAggregate)
  : Prop :=
  r.1 = mkAggregatedAttestation (sma_participants r.2) data /\
  exists v ps, rd_view (t_known_payloads d) !! mkSignatureKey v (tree_hash_root data) = Some ps /\ r.2 ∈ ps.

(** The validator is in one of its known proofs. *)
Definition has_own_proof (d : LeanDB) (data : AttestationData) (v : Z) : Prop :=
  exists ps, rd_view (t_known_payloads d) !! mkSignatureKey v (tree_hash_root data) = Some ps /\
    exists p, p ∈ ps /\ v ∈ participants p.

Lemma cover_loop_spec d data fuel : forall U results,
  (size U <= fuel)%nat ->
  exists new, cover_loop fuel d data (tree_hash_root data) U results = Ok (results ++ new) /\
    Forall (backed d data) new /\ (length new <= size U)%nat /\
    forall v, v ∈ U -> has_own_proof d data v -> exists r, r ∈ new /\ v ∈ participants r.2.
Proof.
  induction fuel as [|fuel IH]; intros U results Hf; cbn [cover_loop];
    pose proof (elem_of_hs_iter U) as HU; destruct (hs_iter U) as [|t rest].
  1,3: exists []; rewrite app_nil_r; split_and!; [done..|cbn; lia|];
       intros v Hv; apply HU in Hv; set_solver.
  { assert (Ht : t ∈ U) by (apply HU; set_solver).
    assert (size U <> 0%nat); [|lia]. intros E%size_empty_inv. set_solver. }
  assert (Ht : t ∈ U) by (apply HU; set_solver). clear HU rest.
  assert (Hdrop : forall X, X ∩ U <> ∅ -> (size (U ∖ X) < size U)%nat).
  { intros X HX. apply subset_size. apply set_choose_L in HX as [x Hx]. set_solver. }
  assert (Hskip : ~ has_own_proof d data t -> exists new,
    cover_loop fuel d data (tree_hash_root data) (U ∖ {[t]}) results = Ok (results ++ new) /\
    Forall (backed d data) new /\ (length new <= size U)%nat /\
    forall v, v ∈ U -> has_own_proof d data v -> exists r, r ∈ new /\ v ∈ participants r.2).
  { intros Hno. pose proof (Hdrop {[t]} ltac:(set_solver)).
    destruct (IH (U ∖ {[t]}) results ltac:(lia)) as (new & -> & H1 & H2 & H3).
    exists new. split_and!; [done..|lia|]. intros v Hv Hown. apply H3; [|done].
    destruct (decide (v = t)) as [->|]; [done|set_solver]. }
  rewrite rd_get_view. unfold SignatureKey_from_parts.
  destruct (rd_view (t_known_payloads d) !! _) as [cs|] eqn:Hcs.
  2: { apply Hskip. intros (ps & Hps & _). congruence. }
  pose proof (best_proof_spec U cs) as Hb. destruct (best_proof U cs) as [[p|] m].
  2: { apply Hskip. intros (ps & Hps & p & Hp & Hv). simplify_eq.
       destruct Hb as [_ Hb]. specialize (Hb p Hp). set_solver. }
  destruct Hb as (Hp & -> & Hne & _). pose proof (Hdrop (participants p ∩ U) ltac:(set_solver)).
  destruct (IH (U ∖ (participants p ∩ U))
    (results ++ [(mkAggregatedAttestation (sma_participants p) data, p)]) ltac:(lia))
    as (new & -> & H1 & H2 & H3).
  eexists (_ :: new). rewrite <-app_assoc. split_and!; [done| |cbn; lia|].
  - constructor; [|done]. split; [done|]. cbn. eauto.
  - intros v Hv Hown. destruct (decide (v ∈ participants p)) as [Hin|Hin].
    + eexists. split; [by left|done].
    + destruct (H3 v ltac:(set_solver) Hown) as (r & Hr & ?). exists r. split; [by right|done].
Qed.

Lemma group_by_data_spec l data v :
  (exists ids, group_by_data l !! data = Some ids /\ v ∈ ids) <-> mkAggregatedAttestations v data ∈ l.
Proof.
  unfold group_by_data.
  assert (H : forall m : gmap AttestationData (list Z), (exists ids, foldl (fun groups a =>
      <[aas_data a := default [] (groups !! aas_data a) ++ [aas_validator_id a]]> groups) m l !! data
        = Some ids /\ v ∈ ids) <->
    (exists ids, m !! data = Some ids /\ v ∈ ids) \/ mkAggregatedAttestations v data ∈ l).
  { induction l as [|[v0 data0] l IH]; intros m; cbn [foldl]; [set_solver|].
    rewrite IH, elem_of_cons. cbn. rewrite lookup_insert. case_decide as E.
    - subst data0. split.
      + intros [(ids & [= <-] & [Hv| ->%list_elem_of_singleton]%elem_of_app)|?]; [|by auto..].
        destruct (m !! data) eqn:Em; [|set_solver]. left. eauto.
      + intros [(ids & Hm & Hv)|[[= ->]|?]]; [|left; eexists; split; [done|set_solver]|by right].
        left. rewrite Hm. eexists. split; [done|]. set_solver.
    - split; [tauto|]. intros [?|[[= -> ->]|?]]; tauto || done. }
  rewrite H. rewrite lookup_empty. set_solver.
Qed.

(** The proofs selected for a block: one for each attestation, each known and for data
    that was asked for, and every vote with a known proof is covered. *)
Lemma select_aggregated_proofs_spec d l :
  exists atts proofs, select_aggregated_proofs d l = Ok (atts, proofs) /\
    length atts = length proofs /\
    (forall i a p, atts !! i = Some a -> proofs !! i = Some p ->
       backed d (aa_message a) (a, p) /\ exists v, mkAggregatedAttestations v (aa_message a) ∈ l) /\
    (forall v data, mkAggregatedAttestations v data ∈ l -> has_own_proof d data v ->
       exists a, a ∈ atts /\ aa_message a = data /\ v ∈ signers (bl_iter (aa_aggregation_bits a))).
Proof.
  unfold select_aggregated_proofs.
  match goal with |- context [foldM ?f [] _] => set (step := f) end.
  assert (H : forall groups res0, exists res, foldM step res0 groups = Ok (res0 ++ res) /\
    (forall r, r ∈ res -> exists data ids v, (data, ids) ∈ groups /\ v ∈ ids /\ backed d data r) /\
    (forall data ids v, (data, ids) ∈ groups -> v ∈ ids -> has_own_proof d data v ->
       exists r, r ∈ res /\ aa_message r.1 = data /\ v ∈ participants r.2 /\ backed d data r)).
  { induction groups as [|[data ids] groups IH]; intros res0; cbn [foldM].
    - exists []. rewrite app_nil_r. set_solver.
    - unfold step at 2. destruct (cover_loop_spec d data (size (list_to_set ids : gset Z))
        (list_to_set ids) res0 ltac:(lia)) as (new & -> & Hn & Hlen & Hc). cbn [mbind res_bind].
      destruct (IH (res0 ++ new)) as (res & -> & H1 & H2). exists (new ++ res).
      rewrite app_assoc. split_and!; [done| |].
      + intros r [Hr|Hr]%elem_of_app.
        * destruct ids as [|v ids]; [cbn [list_to_set] in Hlen; rewrite size_empty in Hlen; destruct new; [set_solver|cbn in Hlen; lia]|].
          exists data, (v :: ids), v. split_and!; [set_solver..|]. by apply (proj1 (Forall_forall _ _) Hn).
        * destruct (H1 r Hr) as (data' & ids' & v & ? & ? & ?). exists data', ids', v. set_solver.
      + intros data' ids' v [[= -> ->]|Hin]%elem_of_cons Hv Hown.
        * destruct (Hc v ltac:(by apply elem_of_list_to_set) Hown) as (r & Hr & Hp).
          pose proof (proj1 (Forall_forall _ _) Hn r Hr) as Hb. exists r.
          split_and!; [set_solver| |done|done]. destruct Hb as [-> _]. done.
        * destruct (H2 _ _ _ Hin Hv Hown) as (r & ? & ?). exists r. set_solver. }
  destruct (H (hm_iter (group_by_data l)) []) as (res & -> & H1 & H2). cbn [mbind res_bind app].
  eexists _, _. split; [done|]. split_and!.
  - by rewrite !length_fmap.
  - intros i a p Ha Hp. rewrite list_lookup_fmap in Ha. rewrite list_lookup_fmap in Hp.
    destruct (res !! i) as [r|] eqn:Hr; [|done]. cbn in Ha, Hp. simplify_eq.
    destruct (H1 r ltac:(by eapply list_elem_of_lookup_2)) as (data & ids & v & Hin & Hv & Hb).
    apply elem_of_hm_iter in Hin. destruct Hb as [E Hb]. rewrite E. split; [by split|].
    exists v. apply group_by_data_spec. cbn. eauto.
  - intros v data Hin Hown. apply group_by_data_spec in Hin as (ids & Hg & Hv).
    apply elem_of_hm_iter in Hg. destruct (H2 _ _ _ Hg Hv Hown) as (r & Hr & Hm & Hp & Hb & _).
    exists r.1. split_and!; [apply list_elem_of_fmap; eauto|done|]. by rewrite Hb.
Qed.

(** ** Simulation and sealing *)

Lemma transition_Ok {A} (r : res StateError A) a : transition r = Ok a <-> r = Ok a.
Proof. destruct r; cbn; naive_solver. Qed.

Lemma transition_returns {A} (r : res StateError A) : returns r -> returns (transition r).
Proof. by destruct r. Qed.

Lemma simulate_returns st slot v parent l :
  0 <= LeanState.slot st -> is_u64 slot -> (0 < validators_len st)%nat ->
  returns (simulate st slot v parent l).
Proof.
  intros H0 Hs Hn. unfold simulate.
  apply returns_bind; [apply transition_returns, process_slots_returns; [done|apply Hs]|].
  intros s1 H1%transition_Ok. apply process_slots_Ok in H1 as (_ & _ & h & -> & _); [|done|apply Hs].
  apply returns_bind; [|done]. apply transition_returns. unfold process_block.
  apply returns_bind; [by apply process_block_header_returns|]. intros. apply process_attestations_returns.
Qed.

(** The state root of a block plays no part in processing it. *)
Lemma simulate_accepted st slot v parent l b post :
  simulate st slot v parent l = Ok (b, post) ->
  b = mkBlock slot v parent B256_ZERO (mkBlockBody l) /\
  state_transition st (block_set_state_root (tree_hash_root post) b) true = Ok post.
Proof.
  unfold simulate. intros H. apply bind_Ok in H as (s1 & H1%transition_Ok & H).
  apply bind_Ok in H as (s2 & H2%transition_Ok & [= <- <-]). split; [done|].
  unfold state_transition. cbn [ensure mbind res_bind blk_slot block_set_state_root].
  rewrite H1. cbn [mbind res_bind].
  replace (process_block s1 _) with
    (process_block s1 (mkBlock slot v parent B256_ZERO (mkBlockBody l))) by done.
  rewrite H2. cbn [mbind res_bind blk_state_root]. by rewrite Z.eqb_refl.
Qed.

(** What a sealed block is: the chosen attestations on the parent, with the root of the
    state it leads to. *)
Lemma seal_block_spec d st l slot v parent b proofs post :
  seal_block d st l slot v parent = Ok (b, proofs, post) ->
  blk_slot b = slot /\ blk_proposer_index b = v /\ blk_parent_root b = parent /\
  blk_state_root b = tree_hash_root post /\
  select_aggregated_proofs d l = Ok (vl_iter (body_attestations (blk_body b)), proofs) /\
  state_transition st b true = Ok post.
Proof.
  unfold seal_block. intros H. apply bind_Ok in H as ([atts ps] & Hsel & H).
  apply bind_Ok in H as (al & Hal%ok_or_Ok%vl_new_Some & H). destruct Hal as [Hal _].
  apply bind_Ok in H as ([b0 post0] & Hsim & [= <- <- <-]).
  apply simulate_accepted in Hsim as [-> Hst]. cbn. rewrite Hal. done.
Qed.

(** ** Round-based selection ends *)

(** The candidates not selected yet. *)
Definition remaining (candidates : list SignedAttestation) (l : list AggregatedAttestations) : nat :=
  length (filter (fun sa => mkAggregatedAttestations (sa_validator_id sa) (sa_message sa) ∉ l) candidates).

Lemma round_scan_spec ctx hashes v atts cs : forall new pr co,
  returns (round_scan ctx hashes v atts cs new pr co) /\
  forall new' pr' co', round_scan ctx hashes v atts cs new pr co = Ok (new', pr', co') ->
    exists l, vl_iter new' = vl_iter new ++ l /\
      Forall (fun a => a ∉ vl_iter atts /\
        exists sa, sa ∈ cs /\ a = mkAggregatedAttestations (sa_validator_id sa) (sa_message sa)) l.
Proof.
  induction cs as [|sa cs IH]; intros new pr co; cbn [round_scan].
  { split; [done|]. intros ??? [= <- _ _]. exists []. rewrite app_nil_r. split; [done|constructor]. }
  destruct ((MAX_ATTESTATIONS_DATA <=? Z.of_nat (size pr)) && _).
  { split; [done|]. intros ??? [= <- _ _]. exists []. rewrite app_nil_r. split; [done|constructor]. }
  assert (Hskip : returns (round_scan ctx hashes v atts cs new pr co) /\
    forall new' pr' co', round_scan ctx hashes v atts cs new pr co = Ok (new', pr', co') ->
    exists l, vl_iter new' = vl_iter new ++ l /\
      Forall (fun a => a ∉ vl_iter atts /\
        exists x, x ∈ sa :: cs /\ a = mkAggregatedAttestations (sa_validator_id x) (sa_message x)) l).
  { destruct (IH new pr co) as [Hr Hl]. split; [done|]. intros new' pr' co' (l & ? & Hf)%Hl.
    exists l. split; [done|]. eapply Forall_impl; [exact Hf|]. set_solver. }
  destruct (negb _); [done|]. case_bool_decide as Hin; [done|].
  destruct (rd_get _ _) as [ps|]; [|done]. destruct (vl_push _ _ _) as [new1|] eqn:Hp; cbn [ok_or mbind res_bind].
  2: { split; [done|]. intros ??? [=]. }
  apply vl_push_Some in Hp as [Hp _]. destruct (IH new1 ({[sa_message sa]} ∪ pr) (co + 1)%u64) as [Hr Hl].
  split; [done|]. intros new' pr' co' (l & Hn & Hf)%Hl. 
  exists (mkAggregatedAttestations (sa_validator_id sa) (sa_message sa) :: l). rewrite Hn, Hp, <-app_assoc.
  split; [done|]. constructor; [split; [done|]; exists sa; set_solver|].
  eapply Forall_impl; [exact Hf|]. set_solver.
Qed.

Lemma push_all_spec (new : list AggregatedAttestations) : forall atts : VariableList AggregatedAttestations,
  returns (foldM (fun l a => ok_or (vl_push U4096 l a) ListFull) atts new) /\
  forall atts', foldM (fun l a => ok_or (vl_push U4096 l a) ListFull) atts new = Ok atts' ->
    vl_iter atts' = vl_iter atts ++ new.
Proof.
  induction new as [|a new IH]; intros atts; cbn [foldM].
  - split; [done|]. intros ? [= <-]. by rewrite app_nil_r.
  - destruct (vl_push _ _ _) as [l|] eqn:Hp; cbn [ok_or mbind res_bind]; [|split; [done|intros ? [=]]].
    apply vl_push_Some in Hp as [Hp _]. destruct (IH l) as [Hr Hl]. split; [done|].
    intros ? ->%Hl. by rewrite Hp, <-app_assoc.
Qed.

Lemma remaining_lt cs l new a :
  a ∈ new -> a ∉ l -> (exists sa, sa ∈ cs /\ a = mkAggregatedAttestations (sa_validator_id sa) (sa_message sa)) ->
  (remaining cs (l ++ new) < remaining cs l)%nat.
Proof.
  intros Ha Hl (sa & Hsa & ->). unfold remaining. induction cs as [|x cs IH]; [set_solver|].
  rewrite !filter_cons.
  assert (Hle : (length (filter (fun sa => mkAggregatedAttestations (sa_validator_id sa) (sa_message sa) ∉ l ++ new) cs)
    <= length (filter (fun sa => mkAggregatedAttestations (sa_validator_id sa) (sa_message sa) ∉ l) cs))%nat).
  { clear. induction cs as [|y cs IH]; [done|]. rewrite !filter_cons.
    repeat case_decide; cbn; try lia. set_solver. }
  apply elem_of_cons in Hsa as [->|Hsa].
  - rewrite decide_False by set_solver. rewrite decide_True by done. cbn. lia.
  - specialize (IH Hsa). repeat case_decide; cbn; try lia. set_solver.
Qed.

Lemma compact_returns l : returns (compact l).
Proof.
  unfold compact. apply returns_bind; [|auto with res]. apply mapR_returns. intros [m ids] _.
  apply returns_bind; [|done]. unfold group_bits. apply returns_bind; [auto with res|]. intros b _.
  apply (foldM_returns (fun _ => True)); [done|auto with res|done].
Qed.

(** Every round selects a candidate that was not selected before. *)
Lemma round_loop_returns ctx hashes slot v parent cs fuel : forall view atts pr co,
  0 <= LeanState.slot (bc_head_state ctx) -> is_u64 slot -> (0 < validators_len (bc_head_state ctx))%nat ->
  (remaining cs (vl_iter atts) <= fuel)%nat ->
  returns (round_loop fuel ctx hashes slot v parent cs view atts pr co).
Proof.
  induction fuel as [|fuel IH]; intros view atts pr co H0 Hs Hn Hf; cbn [round_loop];
    destruct (round_scan_spec ctx hashes view atts cs vl_empty pr co) as [Hr Hspec];
    (apply returns_bind; [done|]); intros [[new pr'] co'] Hsc;
    specialize (Hspec _ _ _ Hsc) as (l & Hl & Hfa); rewrite vl_iter_empty in Hl; cbn in Hl; rewrite Hl;
    (destruct l as [|a l]; [done|]); destruct (push_all_spec (a :: l) atts) as [Hpr Hps];
    (apply returns_bind; [done|]); intros atts' Hatts%Hps;
    (apply returns_bind; [apply compact_returns|]); intros al _;
    (apply returns_bind; [by apply simulate_returns|]); intros [b adv] _;
    (case_if; [|done]); apply Forall_cons in Hfa as [[Hna Hca] _];
    pose proof (remaining_lt cs (vl_iter atts) (a :: l) a ltac:(set_solver) Hna Hca); [lia|].
  apply IH; [done..|]. rewrite Hatts. lia.
Qed.

Lemma select_round_based_returns ctx hashes atts slot v parent :
  0 <= LeanState.slot (bc_head_state ctx) -> is_u64 slot -> (0 < validators_len (bc_head_state ctx))%nat ->
  returns (select_round_based ctx hashes atts slot v parent).
Proof.
  intros H0 Hs Hn. unfold select_round_based. apply round_loop_returns; [done..|].
  unfold remaining. apply length_filter.
Qed.

(** Without signed attestations the round-based strategy selects what it was given. *)
Lemma select_round_based_nothing ctx hashes atts slot v parent :
  bc_available_signed_attestations ctx = ∅ ->
  select_round_based ctx hashes atts slot v parent = Ok (vl_iter (default vl_empty atts), 0).
Proof.
  intros He. unfold select_round_based. rewrite He.
  assert (hm_iter (∅ : gmap Z SignedAttestation) = []) as ->.
  { apply Permutation_nil. by rewrite hm_iter_perm, map_to_list_empty. }
  cbn. by rewrite vl_iter_empty.
Qed.

(** ** Tiered selection *)

Lemma key_ltb_irrefl a : key_ltb a a = false.
Proof. induction a as [|x a IH]; cbn; [done|]. by rewrite Z.ltb_irrefl, Z.eqb_refl, IH. Qed.

Lemma key_ltb_trans a : forall b c, length a = length b -> length b = length c ->
  key_ltb b a = false -> key_ltb c b = false -> key_ltb c a = false.
Proof.
  induction a as [|x a IH]; intros [|y b] [|z c] Hl1 Hl2; try done. cbn in *.
  rewrite !orb_false_iff, !Z.ltb_ge, !andb_false_iff, !Z.eqb_neq. intros [H1 H2] [H3 H4].
  split; [lia|]. destruct (decide (z = x)) as [->|]; [|by left]. right.
  assert (y = x) as -> by lia. apply (IH b c); [lia..| |]; naive_solver.
Qed.

Lemma key_ltb_asym a : forall b, key_ltb a b = true -> key_ltb b a = false.
Proof.
  induction a as [|x a IH]; intros [|y b]; try done. cbn.
  rewrite orb_true_iff, orb_false_iff, andb_true_iff, andb_false_iff, Z.ltb_lt, Z.ltb_ge, Z.eqb_eq, Z.eqb_neq.
  intros [?|[-> H]]; (split; [lia|]); [left; lia|right; auto].
Qed.

(** The entry a round picks is eligible, and no eligible entry has a smaller key. *)
Lemma best_candidate_spec ctx hashes n p done_ pool :
  match best_candidate ctx hashes n p done_ pool with
  | Some (r, score, nv) =>
      (exists data proofs, pool !! r = Some (data, proofs) /\ r ∉ done_ /\
         score_candidate ctx hashes n p data proofs = Some (score, nv)) /\
      (forall r' data' proofs' score' nv', pool !! r' = Some (data', proofs') -> r' ∉ done_ ->
         score_candidate ctx hashes n p data' proofs' = Some (score', nv') ->
         key_ltb (ordering_key score' r') (ordering_key score r) = false)
  | None =>
      forall r data proofs, pool !! r = Some (data, proofs) -> r ∉ done_ ->
        score_candidate ctx hashes n p data proofs = None
  end.
Proof.
  unfold best_candidate. match goal with |- context [foldl ?f _ _] => set (step := f) end.
  assert (H : forall l, match foldl step None l with
  | Some (r, score, nv) =>
      (exists data proofs, (r, (data, proofs)) ∈ l /\ r ∉ done_ /\
         score_candidate ctx hashes n p data proofs = Some (score, nv)) /\
      (forall r' data' proofs' score' nv', (r', (data', proofs')) ∈ l -> r' ∉ done_ ->
         score_candidate ctx hashes n p data' proofs' = Some (score', nv') ->
         key_ltb (ordering_key score' r') (ordering_key score r) = false)
  | None =>
      forall r data proofs, (r, (data, proofs)) ∈ l -> r ∉ done_ ->
        score_candidate ctx hashes n p data proofs = None
  end).
  2: { specialize (H (hm_iter pool)). destruct (foldl step None (hm_iter pool)) as [[[r sc] nv]|].
       - destruct H as [(data & proofs & Hin & H) Hmin]. split.
         + exists data, proofs. by rewrite <-elem_of_hm_iter.
         + intros r' data' proofs' sc' nv' Hin'%elem_of_hm_iter. eauto.
       - intros r data proofs Hin%elem_of_hm_iter. eauto. }
  intros l. induction l as [|[r [data proofs]] l IH] using rev_ind; [set_solver|].
  rewrite foldl_app. cbn [foldl]. revert IH. generalize (foldl step None l) as b. intros b IH.
  unfold step. case_bool_decide as Hd.
  { destruct b as [[[r0 s0] nv0]|]; [destruct IH as [(d0 & ps0 & ?) Hmin]; split|]; [exists d0, ps0; set_solver|..].
    - intros r' data' proofs' score' nv' [?|Hx]%elem_of_app; [eauto|]. set_solver.
    - intros r' data' proofs' [?|Hx]%elem_of_app; [eauto|]. set_solver. }
  assert (Hlast : forall r' data' proofs', (r', (data', proofs')) ∈ [(r, (data, proofs))] ->
    r' = r /\ data' = data /\ proofs' = proofs) by (intros ??? [= -> -> ->]%list_elem_of_singleton; done).
  destruct (score_candidate ctx hashes n p data proofs) as [[score nv]|] eqn:Hsc.
  2: { destruct b as [[[r0 s0] nv0]|]; [destruct IH as [(d0 & ps0 & ?) Hmin]; split|]; [exists d0, ps0; set_solver|..].
    - intros r' data' proofs' score' nv' [?|(-> & -> & ->)%Hlast]%elem_of_app; [eauto|congruence].
    - intros r' data' proofs' [?|(-> & -> & ->)%Hlast]%elem_of_app; [eauto|congruence]. }
  destruct b as [[[r0 s0] nv0]|].
  - destruct IH as [(d0 & ps0 & H1 & H2 & H3) Hmin].
    destruct (key_ltb (ordering_key score r) (ordering_key s0 r0)) eqn:Hk.
    + split; [exists data, proofs; set_solver|].
      intros r' data' proofs' score' nv' [Hin|(-> & -> & ->)%Hlast]%elem_of_app Hn Hs'.
      * eapply (key_ltb_trans _ (ordering_key s0 r0)); [done..|by apply key_ltb_asym|eauto].
      * rewrite Hsc in Hs'. injection Hs' as <- <-. apply key_ltb_irrefl.
    + split; [exists d0, ps0; set_solver|].
      intros r' data' proofs' score' nv' [Hin|(-> & -> & ->)%Hlast]%elem_of_app Hn Hs'; [eauto|].
      rewrite Hsc in Hs'. by injection Hs' as <- <-.
  - split; [exists data, proofs; set_solver|].
    intros r' data' proofs' score' nv' [Hin|(-> & -> & ->)%Hlast]%elem_of_app Hn Hs'.
    + by rewrite (IH _ _ _ Hin Hn) in Hs'.
    + rewrite Hsc in Hs'. injection Hs' as <- <-. apply key_ltb_irrefl.
Qed.

Lemma extend_projected_returns js f t : returns (extend_projected_justified_slots js f t).
Proof.
  unfold extend_projected_justified_slots. case_match; [|done]. case_if; [|done].
  apply returns_bind; [auto with res|done].
Qed.

Lemma project_returns p data tier nv : returns (project p data tier nv).
Proof.
  unfold project. apply returns_bind.
  - case_if; [|done]. apply returns_bind; [|done]. unfold set_projected_justified_slot.
    apply returns_bind; [apply extend_projected_returns|]. intros. case_match; [auto with res|done].
  - intros p1 _. destruct tier; try done. apply returns_bind; [|done].
    unfold shift_projected_finalized_slot. case_if; [done|]. apply returns_bind; [auto with res|].
    intros b _. apply (foldM_returns (fun _ => True)); [done| |done].
    intros. case_if; [auto with res|done].
Qed.

Lemma select_tiered_returns ctx hashes atts slot : returns (select_tiered ctx hashes atts slot).
Proof.
  unfold select_tiered. apply returns_bind; [apply extend_projected_returns|]. intros js _.
  apply returns_bind.
  { unfold build_running_votes_by_target_root. apply (foldM_returns (fun _ => True)); [done| |done].
    intros m [i r] _ _. apply returns_bind; [|done]. apply (foldM_returns (fun _ => True)); [done| |done].
    intros vs v _ _. apply returns_bind; [auto with res|done]. }
  intros votes _. generalize (mkProjection (cp_slot (latest_finalized (bc_head_state ctx))) js votes).
  generalize (∅ : gset B256). generalize (@nil AggregatedAttestations).
  induction (Z.to_nat MAX_ATTESTATIONS_DATA) as [|n IH]; intros sel pr p; cbn [tiered_loop]; [done|].
  destruct (best_candidate _ _ _ _ _ _) as [[[r sc] nv]|]; [|done].
  apply returns_bind; [auto with res|]. intros [data proofs] _.
  apply returns_bind; [apply project_returns|]. intros p' _. apply IH.
Qed.

(** ** Producing a block *)

Lemma seal_block_returns d st l slot v parent :
  0 <= LeanState.slot st -> is_u64 slot -> (0 < validators_len st)%nat ->
  returns (seal_block d st l slot v parent).
Proof.
  intros H0 Hs Hn. unfold seal_block.
  destruct (select_aggregated_proofs_spec d l) as (atts & proofs & -> & _). cbn [mbind res_bind].
  apply returns_bind; [auto with res|]. intros al _.
  apply returns_bind; [by apply simulate_returns|]. by intros [].
Qed.

Lemma build_block_returns d strategy slot v parent atts :
  (forall st, state_get d parent = Some st -> 0 <= LeanState.slot st /\ (0 < validators_len st)%nat) ->
  is_u64 slot -> returns (build_block d strategy slot v parent atts).
Proof.
  intros Hst Hs. unfold build_block, load_build_context.
  destruct (state_get d parent) as [st|] eqn:E; [|done]. cbn [ok_or mbind res_bind bc_head_state].
  destruct (Hst st eq_refl) as [H0 Hn]. apply returns_bind.
  - destruct strategy; [|apply select_tiered_returns].
    apply returns_bind; [by apply select_round_based_returns|done].
  - intros l _. by apply seal_block_returns.
Qed.

Lemma produce_on_head_returns d strategy slot v h :
  (forall st, state_get d h = Some st -> 0 <= LeanState.slot st /\ (0 < validators_len st)%nat) ->
  is_u64 slot -> returns (produce_on_head d strategy slot v h).
Proof.
  intros Hst Hs. unfold produce_on_head. apply returns_bind; [auto with res|]. intros st E%ok_or_Ok.
  destruct (Hst st E) as [H0 Hn]. apply returns_bind.
  { unfold is_proposer. case_if; b2p; [lia|done]. }
  intros ok _. apply returns_bind; [auto with res|]. intros _ _.
  apply returns_bind; [auto with res|]. intros al _.
  apply returns_bind; [by apply build_block_returns|]. intros [[b proofs] post] _.
  apply returns_bind; [|intros; by repeat returns_step].
  apply mapR_returns. intros proof _. apply mapR_returns. intros i _.
  apply returns_bind; [auto with res|done].
Qed.

(** What a produced block is. *)
Record produced (d : LeanDB) (slot v : Z) (h : B256) (bws : BlockWithSignatures) : Prop := {
  pd_slot : blk_slot (bws_block bws) = slot;
  pd_parent : blk_parent_root (bws_block bws) = h;
  pd_proposer : blk_proposer_index (bws_block bws) = v;
  pd_accepted : exists st post, state_get d h = Some st /\
    slot mod Z.of_nat (validators_len st) = v /\
    state_transition st (bws_block bws) true = Ok post;
  pd_attestations : forall i a p,
    vl_iter (body_attestations (blk_body (bws_block bws))) !! i = Some a ->
    vl_iter (bws_signatures bws) !! i = Some p -> backed d (aa_message a) (a, p);
  pd_lengths :
    length (vl_iter (bws_signatures bws)) = length (vl_iter (body_attestations (blk_body (bws_block bws)))) /\
    length (bws_attestation_public_keys bws) = length (vl_iter (bws_signatures bws));
}.

Lemma produce_on_head_spec d strategy slot v h bws :
  produce_on_head d strategy slot v h = Ok bws -> produced d slot v h bws.
Proof.
  unfold produce_on_head. intros H. apply bind_Ok in H as (st & Hst%ok_or_Ok & H).
  apply bind_Ok in H as (ok & Hok & H). apply bind_Ok in H as ([] & ->%ensure_Ok & H).
  apply bind_Ok in H as (al & _ & H). apply bind_Ok in H as ([[b proofs] post] & Hb & H).
  apply bind_Ok in H as (pks & Hpks%mapR_length & H).
  apply bind_Ok in H as (sl & Hsl%ok_or_Ok%vl_new_Some & [= <-]). destruct Hsl as [Hsl _].
  unfold build_block, load_build_context in Hb. rewrite Hst in Hb. cbn [ok_or mbind res_bind] in Hb.
  apply bind_Ok in Hb as (sel & _ & Hseal). cbn [bc_head_state] in Hseal.
  apply seal_block_spec in Hseal as (Hbs & Hbv & Hbp & Hbr & Hsel & Htr).
  assert (Hbb : block_set_state_root (tree_hash_root post) b = b).
  { destruct b. cbn in *. by subst. }
  destruct (select_aggregated_proofs_spec d sel) as (atts & ps & Hsel' & Hlen & Hback & _).
  rewrite Hsel in Hsel'. injection Hsel' as <- <-.
  cbn [bws_block bws_signatures bws_attestation_public_keys] in *. rewrite Hbb.
  split; cbn [bws_block bws_signatures bws_attestation_public_keys]; rewrite ?Hsl; try done.
  - exists st, post. split_and!; [done| |done]. unfold is_proposer in Hok.
    case_if; [done|]. injection Hok as Hok. b2p. done.
  - intros i a p Ha Hp. by apply (Hback i a p).
Qed.

(** The chain the selection matches votes against is the history of the state after the
    block. *)
Lemma extended_hashes_history st b sigs post :
  wf st -> block_u64 b -> state_transition st b sigs = Ok post ->
  history post = extended_historical_block_hashes st (blk_parent_root b) (blk_slot b).
Proof.
  intros W Hu H. pose proof (wf_slot _ W). pose proof H as Hok.
  apply state_transition_Ok in Hok as (_ & Hlt & _); [|done..].
  apply state_transition_chain in H as (_ & _ & ->); [|done..].
  unfold extended_historical_block_hashes, u64_saturating_sub. cbn. do 3 f_equal. lia.
Qed.

(** ** The whole operation *)

Lemma produce_block_spec spec slot v s s' bws :
  produce_block_with_signatures spec slot v s = (s', Ok bws) ->
  exists h, f_head (store s') = Some h /\ produced (store s') slot v h bws.
Proof.
  unfold produce_block_with_signatures, get_proposal_head, db_read. rewrite bindM_assoc.
  intros H. apply bindM_Ok in H as (s1 & [] & H1 & H). rewrite bindM_assoc in H.
  apply bindM_Ok in H as (s2 & [] & H2 & H). rewrite bindM_reads in H.
  destruct (f_head (store s2)) as [h|] eqn:Hh; cbn [field_get ok_or] in H; [|done].
  rewrite bindM_reads in H. unfold reads in H. injection H as <- H. exists h. split; [done|].
  by eapply produce_on_head_spec.
Qed.

Lemma produce_block_returns dangling spec slot v s :
  db_inv dangling (store s) -> is_u64 slot -> (spec_seconds_per_slot spec * 1000)%u64 <> 0 ->
  (forall h st, rd_view (t_state (store s)) !! h = Some st -> (0 < validators_len st)%nat) ->
  returns (produce_block_with_signatures spec slot v s).2.
Proof.
  intros I Hs Hsp Hv. destruct (get_proposal_head_run spec dangling slot s I Hsp) as (s' & h & E & I' & _ & Ht).
  unfold produce_block_with_signatures, db_read. rewrite (bindM_run _ _ _ _ _ E), bindM_reads. cbn [snd reads]. apply produce_on_head_returns; [|done].
  intros st Hst. unfold state_get in Hst. rewrite rd_get_view in Hst.
  destruct (proj2 (di_state _ _ I' h)) as [[p sl] Hh]; [eauto|].
  destruct (di_wf _ _ I' _ _ _ _ Hh Hst) as (W & _ & _). pose proof (wf_slot _ W).
  split; [lia|]. rewrite Ht in Hst. by eapply Hv.
Qed.
End facts.
