(* ===== verification/ProjectionFacts.v ===== *)
(** * The projected justification state follows 3SF-mini

    While it selects entries, [select_tiered] keeps a projection of the finalized slot,
    the justified window and the running votes.  An entry whose target is not yet
    justified moves the projection exactly as processing its votes moves the abstract
    state of [ThreeSF.v]. *)

From S2P Require Import Prelude StateMonad Redb Ssz Slot LeanTypes.
From S2P Require Import LeanState LeanStateFacts ThreeSF LeanRefinement LeanEncoding LeanInvariant.
From S2P Require Import LeanTransition ProofSelection LeanDB Ghost ForkChoice Production.

Section projection.
Context {SS : SszTypes} {SL : SszLaws SS}.
Context {RD : Redb} {RL : RedbLaws RD} {HO : HashOrder} {HL : HashOrderLaws HO} {PQ : PqCrypto}.
Context {HS : TreeHash LeanState} {HH : TreeHash BlockHeader} {HB : TreeHash BlockBody}
        {HA : TreeHash AttestationData} {HBl : TreeHash Block}.

(** ** The window *)

Lemma is_projected_slot_justified_spec js f s :
  is_u64 s -> is_u64 f ->
  is_projected_slot_justified js f s = true <-> s <= f \/ s ∈ window_slots f (bl_iter js).
Proof.
  intros Hs Hf. unfold is_projected_slot_justified. rewrite elem_of_window_slots.
  destruct (justified_index_after s f) as [i|] eqn:Hi.
  - apply justified_index_after_Some in Hi as [Hlt ->]; [|done..].
    rewrite andb_true_iff, Z.ltb_lt, bl_len_spec, bl_get_spec. split.
    + intros [Hl Hb]. right. split; [done|]. destruct (bl_iter js !! _) as [[]|]; done.
    + intros [?|[_ Hb]]; [lia|]. rewrite Hb. split; [|done]. apply lookup_lt_Some in Hb. lia.
  - apply justified_index_after_None in Hi. rewrite Z.leb_le. split; [by left|]. intros [?|[? _]]; lia.
Qed.

Lemma extend_projected_spec js f t js' :
  is_u64 t -> is_u64 f -> extend_projected_justified_slots js f t = Ok js' ->
  exists n, bl_iter js' = bl_iter js ++ replicate n false /\
    (f < t -> (Z.to_nat (t - f) <= length (bl_iter js'))%nat).
Proof.
  intros Ht Hf. unfold extend_projected_justified_slots.
  destruct (justified_index_after t f) as [i|] eqn:Hi.
  - apply justified_index_after_Some in Hi as [Hlt ->]; [|done..]. u64_simpl. rewrite bl_len_spec.
    replace (t - f - 1 + 1) with (t - f) by lia.
    destruct (Nat.ltb_spec (length (bl_iter js)) (Z.to_nat (t - f))).
    + intros H'. res_inv H'. apply bl_with_capacity_Some in Hb as [Hv _].
      rewrite bl_union_spec, Hv, bits_or_falses by lia. eexists. split; [done|].
      rewrite length_app, length_replicate. lia.
    + intros [= <-]. exists 0%nat. rewrite app_nil_r. split; [done|]. lia.
  - apply justified_index_after_None in Hi. intros [= <-]. exists 0%nat. rewrite app_nil_r. split; [done|lia].
Qed.

Lemma window_slots_pad f bits n : window_slots f (bits ++ replicate n false) = window_slots f bits.
Proof.
  apply set_eq. intros s. rewrite !elem_of_window_slots. split; intros [? Hl]; (split; [done|]).
  - apply lookup_app_Some in Hl as [?|[_ Hl]]; [done|]. apply lookup_replicate in Hl as [? _]. done.
  - by apply lookup_app_l_Some.
Qed.

Lemma set_projected_spec js f t js' :
  is_u64 t -> is_u64 f -> set_projected_justified_slot js f t = Ok js' -> f < t ->
  window_slots f (bl_iter js') = {[t]} ∪ window_slots f (bl_iter js).
Proof.
  intros Ht Hf H Hlt. unfold set_projected_justified_slot in H. res_inv H.
  apply extend_projected_spec in Hb as (n & Hv & Hlen); [|done..]. specialize (Hlen Hlt).
  destruct (justified_index_after t f) as [i|] eqn:Hi.
  2: { apply justified_index_after_None in Hi. lia. }
  apply justified_index_after_Some in Hi as [_ ->]; [|done..].
  apply ok_or_Ok in H. apply bl_set_Some in H as [_ H].
  rewrite <-(window_slots_pad f (bl_iter js) n), <-Hv. apply set_eq. intros s.
  rewrite elem_of_union, elem_of_singleton, !elem_of_window_slots, H, list_lookup_insert_Some. split.
  - intros [? [(E & _ & _)|(E & ?)]]; [left; lia|right; done].
  - intros [->|[? Hl]]; [split; [done|]; left; split_and!; [done..|lia]|].
    split; [done|]. destruct (decide (s = t)) as [->|]; [left; split_and!; [done..|lia]|].
    right. split; [lia|done].
Qed.

Lemma shift_projected_spec js f g js' :
  f <= g -> shift_projected_finalized_slot js f g = Ok js' ->
  bl_iter js' = drop (Z.to_nat (g - f)) (bl_iter js).
Proof.
  intros Hle H. unfold shift_projected_finalized_slot, u64_saturating_sub in H.
  rewrite Z.max_r in H by lia. set (delta := Z.to_nat (g - f)) in *.
  destruct (Nat.eqb_spec delta 0) as [E|Hd]; [injection H as <-; by rewrite E|].
  res_inv H. apply bl_with_capacity_Some in Hb as [Hv _]. rewrite bl_len_spec in *.
  destruct (decide (delta <= length (bl_iter js))%nat) as [Hl|Hl].
  - replace (seq delta) with (seq (delta + 0)) in H by (f_equal; lia).
    apply rebase_loop in H; [by rewrite Nat.add_0_r in H|lia| |].
    + rewrite Hv, length_replicate. lia.
    + by rewrite Hv.
  - replace (length (bl_iter js) - delta)%nat with 0%nat in * by lia. injection H as <-.
    rewrite Hv, drop_ge by lia. done.
Qed.

Lemma window_slots_drop f g bits :
  f <= g -> window_slots g (drop (Z.to_nat (g - f)) bits) = filter (fun s => g < s) (window_slots f bits).
Proof.
  intros Hle. apply set_eq. intros s. rewrite elem_of_filter, !elem_of_window_slots, lookup_drop. split.
  - intros [? Hl]. split_and!; [lia..|]. rewrite <-Hl. f_equal. lia.
  - intros (? & ? & Hl). split; [lia|]. rewrite <-Hl. f_equal. lia.
Qed.

(** ** The votes *)

Lemma running_voters_spec n bits i voters :
  foldM (E := StoreErr) (fun voters v =>
      bit ← ok_or (bl_get bits (i * n + v)%nat) BitError;
      Ok (if bit : bool then {[Z.of_nat v]} ∪ voters else voters)) ∅ (seq 0 n) = Ok voters ->
  voters = signers (chunk n (bl_iter bits) i).
Proof.
  assert (H : forall k m acc, foldM (E := StoreErr) (fun voters v =>
      bit ← ok_or (bl_get bits (i * n + v)%nat) BitError;
      Ok (if bit : bool then {[Z.of_nat v]} ∪ voters else voters)) acc (seq k m) = Ok voters ->
    forall v, v ∈ voters <-> v ∈ acc \/ exists j, (k <= j < k + m)%nat /\ v = Z.of_nat j /\
      bl_iter bits !! (i * n + j)%nat = Some true).
  { intros k m. revert k. induction m as [|m IH]; intros k acc; cbn [seq foldM].
    - intros [= ->] v. split; [by left|]. intros [?|(j & ? & _)]; [done|lia].
    - rewrite bind_Ok. intros (a1 & H1 & H2) v. apply bind_Ok in H1 as (bit & Hbit%ok_or_Ok & [= <-]).
      rewrite bl_get_spec in Hbit. rewrite (IH _ _ H2 v). clear IH H2. split.
      + intros [Hin|(j & ? & ? & ?)]; [|right; exists j; split_and!; [lia..|done]].
        destruct bit; [|by left]. apply elem_of_union in Hin as [->%elem_of_singleton|?]; [|by left].
        right. exists k. split_and!; [lia..|done].
      + intros [Hin|(j & ? & -> & Hj)]; [left; destruct bit; set_solver|].
        destruct (decide (j = k)) as [->|]; [|right; exists j; split_and!; [lia..|done]].
        left. rewrite Hbit in Hj. injection Hj as ->. set_solver. }
  intros Hf. apply set_eq. intros v. rewrite (H _ _ _ Hf v), elem_of_signers. unfold chunk.
  split.
  - intros [?|(j & ? & -> & Hj)]; [set_solver|]. rewrite Nat2Z.id. split; [lia|].
    rewrite lookup_take_lt by lia. by rewrite lookup_drop.
  - intros [Hv Hl]. apply lookup_take_Some in Hl as [Hl Hlt]. rewrite lookup_drop in Hl.
    right. exists (Z.to_nat v). split_and!; [lia..|done].
Qed.

Lemma build_running_votes_spec s m :
  NoDup (vl_iter (justifications_roots s)) ->
  build_running_votes_by_target_root s = Ok m -> m = signers <$> pending_votes s.
Proof.
  intros Hnd H. unfold build_running_votes_by_target_root in H.
  revert H. match goal with |- foldM ?f _ _ = _ -> _ => set (step := f) end. intros H.
  assert (Hstep : forall a i r m', step a (i, r) = Ok m' ->
    m' = <[r := signers (chunk (validators_len s) (bl_iter (justifications_validators s)) i)]> a).
  { intros a i r m' Hs. unfold step in Hs. apply bind_Ok in Hs as (vs & Hv & [= <-]).
    by apply running_voters_spec in Hv as ->. }
  assert (Hfold : forall l k acc, foldM step acc (enumerate_from k l) = Ok m ->
    forall root V, NoDup l -> m !! root = Some V <->
      (exists i, l !! i = Some root /\
         V = signers (chunk (validators_len s) (bl_iter (justifications_validators s)) (k + i)%nat)) \/
      (root ∉ l /\ acc !! root = Some V)).
  { induction l as [|r l IH]; intros k acc; [intros [= ->] root V _; set_solver|].
    rewrite enumerate_from_cons. cbn [foldM]. rewrite bind_Ok. intros (a1 & H1%Hstep & H2) root V Hn.
    apply NoDup_cons in Hn as [Hr Hn]. rewrite (IH _ _ H2 root V Hn). subst a1. split.
    - intros [(i & Hi & ->)|(Hni & Ha)].
      + left. exists (S i). split; [done|]. by rewrite Nat.add_succ_r.
      + rewrite lookup_insert in Ha. case_decide as E.
        * subst. injection Ha as <-. left. exists 0%nat. by rewrite Nat.add_0_r.
        * right. set_solver.
    - intros [([|i] & Hi & ->)|(Hni & Ha)].
      + cbn in Hi. injection Hi as ->. right. rewrite lookup_insert_eq, Nat.add_0_r. done.
      + left. exists i. split; [done|]. by rewrite Nat.add_succ_r.
      + right. rewrite lookup_insert_ne by set_solver. set_solver. }
  apply map_eq. intros root. apply option_eq. intros V.
  rewrite (Hfold _ 0%nat ∅ H root V Hnd), lookup_fmap, fmap_Some.
  setoid_rewrite pending_votes_Some; [|done]. rewrite lookup_empty. naive_solver.
Qed.

(** ** One selected entry *)

(** The projection stands for an abstract state: same finalized slot, same justified
    slots, and the same votes for every block after the finalized slot. *)
Record proj_rel (chain : list B256) (p : projection) (A : SF) : Prop := {
  pj_finalized : pr_finalized_slot p = cp_slot (sf_finalized A);
  pj_slots : window_slots (pr_finalized_slot p) (bl_iter (pr_justified_slots p)) = sf_slots A;
  pj_votes : forall s root, cp_slot (sf_finalized A) < s -> root <> B256_ZERO ->
    chain !! Z.to_nat s = Some root ->
    default ∅ (pr_votes p !! root) = default ∅ (sf_votes A !! root);
}.

(** A block root names one slot. *)
Definition roots_distinct (chain : list B256) : Prop :=
  forall i j root, root <> B256_ZERO -> chain !! i = Some root -> chain !! j = Some root -> i = j.

(** The voters of a pool entry. *)
Definition pool_voters (proofs : list SingleMessageAggregate) : gset Z :=
  list_to_set (proofs ≫= to_validator_indices).

Definition genesis_self_vote (data : AttestationData) : Prop :=
  cp_slot (ad_source data) = 0 /\ cp_slot (ad_target data) = 0.

(** What the scoring of an entry establishes. *)
Lemma score_candidate_Some ctx chain n p A data proofs score new :
  proj_rel chain p A -> is_u64 (pr_finalized_slot p) -> att_u64 data ->
  score_candidate ctx chain n p data proofs = Some (score, new) ->
  sf_is_justified A (cp_slot (ad_source data)) = true /\
  on_chain chain (ad_source data) = true /\ on_chain chain (ad_target data) = true /\
  on_chain chain (ad_head data) = true /\
  let prior := default ∅ (pr_votes p !! cp_root (ad_target data)) in
  new = pool_voters proofs ∖ prior /\ new <> ∅ /\
  (genesis_self_vote data /\ sc_tier score = Build \/
   cp_slot (ad_source data) < cp_slot (ad_target data) /\
   is_justifiable_after (cp_slot (ad_target data)) (pr_finalized_slot p) = true /\
   sc_tier score =
     if sf_quorum n (prior ∪ pool_voters proofs)
     then if finalizes (cp_slot (ad_source data)) (cp_slot (ad_target data)) (pr_finalized_slot p)
          then Finalize else Justify
     else Build).
Proof.
  intros [Pf Ps Pv] Hf (Hsu & Htu & _) H. unfold score_candidate in H.
  destruct (block_contains_key _ _); [|done]. cbn [negb] in H.
  destruct (attestation_data_matches_chain _ _) eqn:Hm; [|done]. cbn [negb] in H.
  rewrite attestation_data_matches_chain_sim in Hm.
  destruct (is_projected_slot_justified _ _ _) eqn:Hj; [|done]. cbn [negb] in H.
  apply is_projected_slot_justified_spec in Hj; [|done..]. b2p.
  set (gen := (cp_slot (ad_source data) =? 0) && (cp_slot (ad_target data) =? 0)) in *.
  destruct (negb gen && _) eqn:Hg; [done|].
  set (prior := default ∅ (pr_votes p !! _)) in *.
  change (list_to_set (proofs ≫= to_validator_indices)) with (pool_voters proofs) in H.
  case_bool_decide as Hne; [done|]. apply (inj Some), pair_eq in H as [<- <-]. cbn [sc_tier].
  split_and!; [|done..|].
  { apply sf_is_justified_true. rewrite <-Ps, <-Pf. done. }
  assert (Hsz : (size prior + size (pool_voters proofs ∖ prior) = size (prior ∪ pool_voters proofs))%nat).
  { rewrite <-size_union by (clear; set_solver). by rewrite union_comm_L, difference_union_L, union_comm_L. }
  rewrite Hsz. fold (sf_quorum n (prior ∪ pool_voters proofs)).
  destruct gen eqn:Hgen.
  - left. unfold gen in Hgen. b2p. done.
  - right. cbn [negb andb orb] in *. b2p. split_and!; [done..|].
    by destruct (sf_quorum _ _).
Qed.

Lemma finalizes_sf A data :
  is_u64 (cp_slot (ad_source data) + 1) ->
  finalizes (cp_slot (ad_source data)) (cp_slot (ad_target data)) (cp_slot (sf_finalized A))
  = sf_finalizes A data.
Proof.
  intros Hu. unfold finalizes, sf_finalizes. u64_simpl. f_equal.
  induction (range _ _) as [|x l IH]; cbn; [done|]. by rewrite IH, negb_orb.
Qed.

(** Selecting an entry whose target is not justified yet does to the projection what its
    votes do to the justification state. *)
Lemma project_refines ctx chain n p A data proofs score new p' :
  proj_rel chain p A -> roots_distinct chain ->
  is_u64 (pr_finalized_slot p) -> att_u64 data -> is_u64 (cp_slot (ad_source data) + 1) ->
  score_candidate ctx chain n p data proofs = Some (score, new) ->
  genesis_self_vote data \/ sf_is_justified A (cp_slot (ad_target data)) = false ->
  project p data (sc_tier score) new = Ok p' ->
  proj_rel chain p' (sf_step chain n A data (pool_voters proofs)).
Proof.
  intros R Hd Hf Hu Hsu Hsc Hcase Hp.
  pose proof (score_candidate_Some _ _ _ _ _ _ _ _ _ R Hf Hu Hsc)
    as (Hj & Hos & Hot & Hoh & -> & Hne & Htier).
  set (prior := default ∅ (pr_votes p !! cp_root (ad_target data))) in *.
  apply on_chain_true in Hot as Hot'. destruct Hot' as [Htz Htc].
  destruct Htier as [[[Hg0 Hg1] Et]|(Hlt & Hjust & Htier)].
  { assert (Hstep : sf_step chain n A data (pool_voters proofs) = A).
    { unfold sf_step. destruct (sf_accepts chain A data) eqn:Ha; [|done].
      apply sf_accepts_true in Ha as (_ & _ & _ & _ & _ & ? & _). lia. }
    rewrite Hstep. rewrite Et in Hp. cbn in Hp. injection Hp as <-. destruct R as [Pf Ps Pv]. split; [done..|].
    intros s root Hs Hz Hr. cbn. rewrite lookup_insert_ne; [by eapply Pv|].
    intros <-. rewrite Hg1 in Htc. pose proof (Hd _ _ _ Hz Hr Htc). unfold is_u64 in Hf. lia. }
  destruct Hcase as [[? ?]|Htj]; [lia|]. destruct R as [Pf Ps Pv].
  assert (Hacc : sf_accepts chain A data = true).
  { apply sf_accepts_true. split_and!; [done..|]. by rewrite <-Pf. }
  assert (Hft : pr_finalized_slot p < cp_slot (ad_target data)).
  { unfold sf_is_justified in Htj. rewrite orb_false_iff, Z.leb_gt in Htj. lia. }
  assert (Hvot : sf_voters A data (pool_voters proofs) = prior ∪ pool_voters proofs).
  { unfold sf_voters, prior. by rewrite (Pv (cp_slot (ad_target data)) (cp_root (ad_target data))) by (done || lia). }
  unfold sf_step. rewrite Hacc, Hvot. cbn [negb]. revert Hp. rewrite Htier.
  destruct (sf_quorum n (prior ∪ pool_voters proofs)) eqn:Hq.
  2: { cbn. intros [= <-]. split; [done..|]. cbn. intros s root Hs Hz Hr.
       rewrite !lookup_insert. case_decide; [|by eapply Pv]. cbn. fold prior. by rewrite union_comm_L, difference_union_L, union_comm_L. }
  set (A1 := sf_justify (sf_record A data (prior ∪ pool_voters proofs)) (ad_target data)).
  assert (HF : cp_slot (sf_finalized A1) = pr_finalized_slot p) by (by rewrite Pf).
  rewrite <-(finalizes_sf A1) by done. rewrite HF.
  assert (R1 : forall js, set_projected_justified_slot (pr_justified_slots p) (pr_finalized_slot p)
      (cp_slot (ad_target data)) = Ok js ->
    proj_rel chain (mkProjection (pr_finalized_slot p) js
      (delete (cp_root (ad_target data)) (pr_votes p))) A1).
  { intros js Hjs. apply set_projected_spec in Hjs; [|apply Hu|done|done]. split; [done|cbn..].
    - by rewrite Hjs, Ps.
    - intros s root Hs Hz Hr. rewrite !lookup_delete. case_decide; [done|].
      rewrite lookup_insert_ne by done. by eapply Pv. }
  destruct (finalizes _ _ _) eqn:Hfin; cbn [project tier_rank Z.leb Z.compare Pos.compare]; intros Hp.
  - apply bind_Ok in Hp as (p1 & Hp1 & Hp). cbn in Hp1. apply bind_Ok in Hp1 as (js & Hjs & [= <-]).
    destruct (R1 js Hjs) as [Qf Qs Qv]. cbn [pr_finalized_slot pr_justified_slots pr_votes] in *.
    apply bind_Ok in Hp as (js2 & Hjs2 & [= <-]).
    assert (Hle : pr_finalized_slot p <= cp_slot (ad_source data)).
    { unfold finalizes in Hfin. b2p. lia. }
    apply shift_projected_spec in Hjs2; [|done]. split; [done|cbn..].
    + rewrite Hjs2, window_slots_drop by done. by rewrite Qs.
    + intros s root Hs Hz Hr. destruct (Hu) as (Hsu' & _). rewrite (Qv s root) by (done || cbn; lia).
      cbn. f_equal. apply option_eq. intros V. rewrite map_retain_Some. split; [|tauto].
      intros HV. split; [done|]. apply root_after_true; [unfold is_u64 in Hsu'; lia|eauto].
  - apply bind_Ok in Hp as (p1 & Hp1 & [= <-]). apply bind_Ok in Hp1 as (js & Hjs & [= <-]). by apply R1.
Qed.

(** The projection [select_tiered] starts from stands for the state's justification
    state. *)
Lemma initial_projection st slot js votes chain :
  wf st -> is_u64 slot ->
  extend_projected_justified_slots (justified_slots st) (cp_slot (latest_finalized st))
    (u64_saturating_sub slot 1) = Ok js ->
  build_running_votes_by_target_root st = Ok votes ->
  proj_rel chain (mkProjection (cp_slot (latest_finalized st)) js votes) (sf_of st).
Proof.
  intros W Hs Hjs Hv. pose proof (wf_fin_bound _ W) as Hf. unfold U262144 in Hf.
  apply extend_projected_spec in Hjs as (n & Hjs & _);
    [|unfold u64_saturating_sub, is_u64 in *; lia|unfold is_u64; lia].
  apply build_running_votes_spec in Hv as ->; [|eapply StronglySorted_lt_NoDup, W].
  split; [done| |done]. cbn. by rewrite Hjs, window_slots_pad.
Qed.
End projection.
