(* ===== verification/Aggregation.v ===== *)
(** * Aggregating gossip signatures

    The aggregator of [crates/common/fork_choice/lean/src/store.rs]: [aggregate] with
    [state_aggregate], and the split version the service runs, [aggregate_prepare],
    [prove_aggregation_jobs] and [aggregate_apply]. *)

From S2P Require Import Prelude StateMonad Redb Ssz Slot LeanTypes.
From S2P Require Import LeanState LeanRefinement ProofSelection LeanDB Ghost ForkChoice Production.

Definition U524288 : Z := 524288.
Definition AGG_RECENT_SLOTS : Z := 16.

(** [(validator_id, public_key, signature)]. *)
Definition raw_entry : Type := Z * PublicKey * Signature.

Section aggregation.
Context {SS : SszTypes} {RD : Redb} {HO : HashOrder} {PQ : PqCrypto}.
Context {HS : TreeHash LeanState} {HH : TreeHash BlockHeader} {HB : TreeHash BlockBody}
        {HA : TreeHash AttestationData} {HBl : TreeHash Block}.

Abbreviation SM := (M Store StoreErr).

Record AggregationJob : Type := mkAggregationJob {
  job_data : AttestationData;
  job_data_root : B256;
  job_child_wires : list (list Z * list PublicKey);
  job_raw_xmss : list (PublicKey * Signature);
  job_bits : BitList;
  job_raw_count : Z;
}.

(** ** Reading the tables *)

(** The gossip signatures whose data is known. *)
Definition gossip_votes (d : LeanDB) : list AggregatedAttestations :=
  omap (fun key =>
      (fun data => mkAggregatedAttestations (sk_validator_id key) data) <$> data_get d (sk_data_root key))
    (signature_get_keys d).

(** The proofs of a payload table by data. *)
Definition payloads_by_data (d : LeanDB) (entries : list (SignatureKey * list SingleMessageAggregate))
  : gmap AttestationData (list SingleMessageAggregate) :=
  hl_iter <$> foldl (fun m '(key, proofs) =>
      match data_get d (sk_data_root key) with
      | Some data => <[data := default [] (m !! data) ++ proofs]> m
      | None => m
      end)
    ∅ entries.

Definition new_payloads (d : LeanDB) := payloads_by_data d (rd_iter (t_new_payloads d)).
Definition known_payloads (d : LeanDB) := payloads_by_data d (rd_iter (t_known_payloads d)).

(** ** One entry *)

(** The raw signatures of the validators that are not covered yet, in order. *)
Definition gather_raw (d : LeanDB) (head_state : LeanState) (recursive : bool) (data_root : B256)
    (validator_ids : list Z) (covered_validators : gset Z) : list raw_entry * gset Z :=
  foldl (fun '(raw_entries, covered_validators) validator_id =>
      if recursive && bool_decide (validator_id ∈ covered_validators)
      then (raw_entries, covered_validators) else
      match rd_get (t_signatures d) (SignatureKey_from_parts validator_id data_root),
            vl_iter (validators head_state) !! Z.to_nat validator_id with
      | Some signature, Some validator =>
          (raw_entries ++ [(validator_id, attestation_public_key validator, signature)],
           if recursive then {[validator_id]} ∪ covered_validators else covered_validators)
      | _, _ => (raw_entries, covered_validators)
      end)
    ([], covered_validators) (sort_by Z.leb validator_ids).

(** The children of a recursive aggregation and the validators they cover: the new
    payloads first, then the known ones. *)
Definition gather_children (data : AttestationData)
    (new known : option (gmap AttestationData (list SingleMessageAggregate)))
  : res StoreErr (list SingleMessageAggregate * gset Z) :=
  '(child_proofs, covered_validators) ←
    match new with
    | Some payloads => extend_proofs_greedily (payloads !! data) [] ∅
    | None => Ok ([], ∅)
    end;
  match known with
  | Some payloads => extend_proofs_greedily (payloads !! data) child_proofs covered_validators
  | None => Ok (child_proofs, covered_validators)
  end.

Definition set_bits (n : nat) (ids : list Z) : res StoreErr BitList :=
  bits ← ok_or (bl_with_capacity U4096 n) BitError;
  foldM (fun bits id => ok_or (bl_set bits (Z.to_nat id) true) BitError) bits ids.

(** The public keys of a proof's participants. *)
Definition child_public_keys (head_state : LeanState) (child : SingleMessageAggregate)
  : res StoreErr (list PublicKey) :=
  mapR (fun validator_id =>
      v ← ok_or (vl_iter (validators head_state) !! Z.to_nat validator_id) ValidatorNotFound;
      Ok (attestation_public_key v))
    (to_validator_indices child).

Definition raw_by_id (a b : raw_entry) : bool := a.1.1 <=? b.1.1.

(** [type_1_aggregate] and its wire form in a payload proof. *)
Definition build_proof (children : list TypeOne) (raw_xmss : list (PublicKey * Signature))
    (data_root : B256) (slot : Z) (bits : BitList) : res StoreErr SingleMessageAggregate :=
  type_one ← ok_or (type_1_aggregate children raw_xmss data_root (as_u32 slot)) ProofInvalid;
  proof ← ok_or (vl_new U524288 (type_1_to_wire type_one)) ListFull;
  Ok (mkSingleMessageAggregate bits proof).

(** ** [state_aggregate] *)

(** One pass of the loop over the attestation data. *)
Definition aggregate_entry (d : LeanDB) (head_state : LeanState) (groups : gmap AttestationData (list Z))
    (new known : option (gmap AttestationData (list SingleMessageAggregate))) (recursive : bool)
    (data : AttestationData) : res StoreErr (option SignedAggregatedAttestation) :=
  let data_root := tree_hash_root data in
  '(child_proofs, covered_validators) ←
    (if recursive then gather_children data new known else Ok ([], ∅));
  let '(raw_entries, covered_validators) :=
    match groups !! data with
    | Some validator_ids => gather_raw d head_state recursive data_root validator_ids covered_validators
    | None => ([], covered_validators)
    end in
  if (if recursive
      then (bool_decide (raw_entries = []) && (length child_proofs <? 2)%nat)
           || (bool_decide (child_proofs = []) && (length raw_entries <=? 1)%nat)
      else bool_decide (raw_entries = []))
  then Ok None else
  let raw_entries := sort_by raw_by_id raw_entries in
  bits ← set_bits (validators_len head_state)
           (if recursive then hs_iter covered_validators else (fun e : raw_entry => e.1.1) <$> raw_entries);
  children ← mapR (fun child =>
      public_keys ← child_public_keys head_state child;
      ok_or (type_1_from_wire (vl_iter (sma_proof child)) public_keys) ProofInvalid)
    child_proofs;
  proof ← build_proof children ((fun e : raw_entry => (e.1.2, e.2)) <$> raw_entries) data_root
            (ad_slot data) bits;
  Ok (Some (mkSignedAggregatedAttestation data proof)).

Definition state_aggregate (d : LeanDB) (head_state : LeanState)
    (attestations : list AggregatedAttestations)
    (new known : option (gmap AttestationData (list SingleMessageAggregate))) (recursive : bool)
  : res StoreErr (list SignedAggregatedAttestation) :=
  let groups := group_by_data attestations in
  let attestation_keys : gset AttestationData :=
    if recursive then dom groups ∪ match new with Some payloads => dom payloads | None => ∅ end
    else dom groups in
  foldM (fun results data =>
      r ← aggregate_entry d head_state groups new known recursive data;
      Ok match r with Some a => results ++ [a] | None => results end)
    [] (hs_iter attestation_keys).

(** ** [aggregate] *)

(** The data roots of the aggregates, and their proofs under every participant's key. *)
Definition aggregated_data_roots (l : list SignedAggregatedAttestation) : gset B256 :=
  list_to_set ((fun a => tree_hash_root (saa_data a)) <$> l).

Definition next_new_payloads (l : list SignedAggregatedAttestation)
  : gmap SignatureKey (list SingleMessageAggregate) :=
  foldl (fun m a =>
      let data_root := tree_hash_root (saa_data a) in
      foldl (fun m validator_id =>
          let key := SignatureKey_from_parts validator_id data_root in
          <[key := default [] (m !! key) ++ [saa_proof a]]> m)
        m (to_validator_indices (saa_proof a)))
    ∅ l.

Definition drop_signatures (l : list SignedAggregatedAttestation) : LeanDB -> LeanDB :=
  signature_retain (fun key => negb (bool_decide (sk_data_root key ∈ aggregated_data_roots l))).

Definition aggregate : SM (list SignedAggregatedAttestation) :=
  signed_attestations ← db_read (fun d =>
    head_root ← field_get (f_head d);
    head_state ← ok_or (state_get d head_root) HeadStateNotFound;
    state_aggregate d head_state (gossip_votes d) (Some (new_payloads d)) (Some (known_payloads d)) true);
  db_write (fun d => (new_drain d).2);;
  db_write (fun d => foldl (fun d '(key, proofs) => new_insert key proofs d) d
                       (hm_iter (next_new_payloads signed_attestations)));;
  db_write (drop_signatures signed_attestations);;
  mret signed_attestations.

(** ** [aggregate_prepare], [prove_aggregation_jobs], [aggregate_apply] *)

Definition prepare_job (d : LeanDB) (head_state : LeanState) (groups : gmap AttestationData (list Z))
    (new known : gmap AttestationData (list SingleMessageAggregate)) (data : AttestationData)
  : res StoreErr (option AggregationJob) :=
  let data_root := tree_hash_root data in
  '(child_proofs, covered_validators) ← gather_children data (Some new) (Some known);
  let '(raw_entries, covered_validators) :=
    match groups !! data with
    | Some validator_ids => gather_raw d head_state true data_root validator_ids covered_validators
    | None => ([], covered_validators)
    end in
  if bool_decide (raw_entries = []) && (length child_proofs <? 2)%nat then Ok None else
  let raw_entries := sort_by raw_by_id raw_entries in
  bits ← set_bits (validators_len head_state) (hs_iter covered_validators);
  child_wires ← mapR (fun child =>
      public_keys ← child_public_keys head_state child;
      Ok (vl_iter (sma_proof child), public_keys))
    child_proofs;
  Ok (Some (mkAggregationJob data data_root child_wires
              ((fun e : raw_entry => (e.1.2, e.2)) <$> raw_entries) bits
              (Z.of_nat (length raw_entries)))).

(** [jobs.sort_by_key(|job| Reverse(job.data.slot))]. *)
Definition newest_first (a b : AggregationJob) : bool := ad_slot (job_data b) <=? ad_slot (job_data a).

Definition aggregate_prepare (d : LeanDB) : res StoreErr (list AggregationJob) :=
  head_root ← field_get (f_head d);
  head_state ← ok_or (state_get d head_root) HeadStateNotFound;
  let groups := group_by_data (gossip_votes d) in
  let new := new_payloads d in
  let known := known_payloads d in
  let keys : gset AttestationData :=
    filter (fun data => slot head_state <= (ad_slot data + AGG_RECENT_SLOTS)%u64) (dom groups ∪ dom new) in
  jobs ← foldM (fun jobs data =>
      j ← prepare_job d head_state groups new known data;
      Ok match j with Some j => jobs ++ [j] | None => jobs end)
    [] (hs_iter keys);
  Ok (sort_by newest_first jobs).

Definition prove_job (job : AggregationJob) : res StoreErr SignedAggregatedAttestation :=
  children ← mapR (fun '(wire, public_keys) => ok_or (type_1_from_wire wire public_keys) ProofInvalid)
               (job_child_wires job);
  proof ← build_proof children (job_raw_xmss job) (job_data_root job) (ad_slot (job_data job)) (job_bits job);
  Ok (mkSignedAggregatedAttestation (job_data job) proof).

Definition prove_aggregation_jobs (jobs : list AggregationJob)
  : res StoreErr (list SignedAggregatedAttestation) := mapR prove_job jobs.

Definition push_missing (existing proofs : list SingleMessageAggregate) : list SingleMessageAggregate :=
  foldl (fun existing proof =>
      if bool_decide (proof ∈ existing) then existing else existing ++ [proof])
    existing proofs.

Definition aggregate_apply (signed_attestations : list SignedAggregatedAttestation) : SM unit :=
  db_write (fun d => foldl (fun d '(key, proofs) =>
      new_insert key (push_missing (default [] (rd_get (t_new_payloads d) key)) proofs) d)
    d (hm_iter (next_new_payloads signed_attestations)));;
  db_write (drop_signatures signed_attestations).
End aggregation.
