(* ===== verification/AggregationFacts.v ===== *)
(** * What aggregation guarantees

    An aggregate claims exactly the validators whose child proofs or signatures went
    into it, every gossip signature is covered, and applying the aggregates loses no
    payload. *)

From S2P Require Import Prelude StateMonad Redb Ssz Slot LeanTypes.
From S2P Require Import LeanState LeanStateFacts LeanRefinement ProofSelection LeanDB Ghost ForkChoice.
From S2P Require Import Production ProductionFacts Aggregation.

Section facts.
Context {SS : SszTypes} {SL : SszLaws SS}.
Context {RD : Redb} {RL : RedbLaws RD} {HO : HashOrder} {HL : HashOrderLaws HO} {PQ : PqCrypto}.
Context {HS : TreeHash LeanState} {HH : TreeHash BlockHeader} {HB : TreeHash BlockBody}
        {HA : TreeHash AttestationData} {HBl : TreeHash Block}.

(** ** Children and raw signatures *)

Lemma gather_children_spec data new known :
  exists children c,
    gather_children data (Some new) (Some known) = Ok (children, c) /\
    c = union_participants children /\
    Forall (fun p => (exists ps, new !! data = Some ps /\ p ∈ ps) \/
                     (exists ps, known !! data = Some ps /\ p ∈ ps)) children /\
    (forall ps p, new !! data = Some ps \/ known !! data = Some ps -> p ∈ ps -> participants p ⊆ c).
Proof.
  assert (Hex : forall (o : option (list SingleMessageAggregate)) sel c, exists chosen,
    extend_proofs_greedily (E := StoreErr) o sel c = Ok (sel ++ chosen, c ∪ union_participants chosen) /\
    Forall (fun p => exists ps, o = Some ps /\ p ∈ ps) chosen /\
    (forall ps p, o = Some ps -> p ∈ ps -> participants p ⊆ c ∪ union_participants chosen)).
  { intros [ps|] sel c; cbn.
    - destruct (extend_loop_spec (E := StoreErr) (length ps) ps sel c eq_refl)
        as (chosen & rest & -> & Hp & _ & Hr). exists chosen. split_and!; [done| |].
      + apply Forall_forall. intros p Hin. exists ps. split; [done|]. rewrite Hp. set_solver.
      + intros ? p [= <-] Hin. rewrite Hp, elem_of_app in Hin. unfold union_participants in *.
        assert (Hu : forall l, p ∈ l -> participants p ⊆ ⋃ (participants <$> l)).
        { intros l Hl v Hv. apply elem_of_union_list. exists (participants p). split; [|done].
          apply list_elem_of_fmap. eauto. }
        destruct Hin as [Hin|Hin]; specialize (Hu _ Hin); set_solver.
    - exists []. change (union_participants []) with (∅ : gset Z).
      rewrite app_nil_r, union_empty_r_L. split_and!; [done|constructor|done]. }
  unfold gather_children. destruct (Hex (new !! data) [] ∅) as (c1 & -> & F1 & U1). cbn [mbind res_bind app].
  destruct (Hex (known !! data) c1 (∅ ∪ union_participants c1)) as (c2 & -> & F2 & U2).
  assert (Hc : (∅ ∪ union_participants c1) ∪ union_participants c2 = union_participants (c1 ++ c2)).
  { unfold union_participants. by rewrite fmap_app, union_list_app_L, union_empty_l_L. }
  rewrite Hc in *. exists (c1 ++ c2), (union_participants (c1 ++ c2)). split_and!; [done..| |].
  - apply Forall_app. split; [eapply Forall_impl; [exact F1|]|eapply Forall_impl; [exact F2|]]; auto.
  - intros ps p [Hn|Hk] Hin; [|by eapply U2]. specialize (U1 ps p Hn Hin).
    rewrite <-Hc. set_solver.
Qed.

(** A raw entry: the stored signature of a registered validator, with its key. *)
Definition raw_ok (d : LeanDB) (head_state : LeanState) (data_root : B256) (e : raw_entry) : Prop :=
  rd_view (t_signatures d) !! mkSignatureKey e.1.1 data_root = Some e.2 /\
  exists v, vl_iter (validators head_state) !! Z.to_nat e.1.1 = Some v /\ attestation_public_key v = e.1.2.

Lemma gather_raw_spec d st root ids c raws c' :
  gather_raw d st true root ids c = (raws, c') ->
  c' = c ∪ list_to_set ((fun e : raw_entry => e.1.1) <$> raws) /\
  Forall (raw_ok d st root) raws /\ Forall (fun e : raw_entry => e.1.1 ∉ c /\ e.1.1 ∈ ids) raws /\
  (forall v, v ∈ ids -> is_Some (rd_view (t_signatures d) !! mkSignatureKey v root) ->
     is_Some (vl_iter (validators st) !! Z.to_nat v) -> v ∈ c').
Proof.
  unfold gather_raw. match goal with |- foldl ?f _ _ = _ -> _ => set (step := f) end.
  assert (Hmem : forall v, v ∈ sort_by Z.leb ids <-> v ∈ ids) by (intros; by rewrite sort_by_perm).
  setoid_rewrite <-Hmem. clear Hmem. revert raws c'.
  induction (sort_by Z.leb ids) as [|v l IH] using rev_ind; intros raws c'.
  - cbn. intros [= <- <-]. split_and!; [cbn; by rewrite union_empty_r_L|constructor..|set_solver].
  - rewrite foldl_app. cbn [foldl]. destruct (foldl step ([], c) l) as [r1 c1].
    specialize (IH _ _ eq_refl) as (-> & H2 & H3 & H4). unfold step. cbn [andb].
    assert (Hskip : (r1, c ∪ list_to_set ((fun e : raw_entry => e.1.1) <$> r1)) = (raws, c') ->
      (is_Some (rd_view (t_signatures d) !! mkSignatureKey v root) ->
       is_Some (vl_iter (validators st) !! Z.to_nat v) ->
       v ∈ c ∪ list_to_set ((fun e : raw_entry => e.1.1) <$> r1)) ->
      c' = c ∪ list_to_set ((fun e : raw_entry => e.1.1) <$> raws) /\ Forall (raw_ok d st root) raws /\
      Forall (fun e : raw_entry => e.1.1 ∉ c /\ e.1.1 ∈ l ++ [v]) raws /\
      (forall x, x ∈ l ++ [v] -> is_Some (rd_view (t_signatures d) !! mkSignatureKey x root) ->
         is_Some (vl_iter (validators st) !! Z.to_nat x) -> x ∈ c')).
    { intros [= <- <-] Hv. split_and!; [done..| |].
      - eapply Forall_impl; [exact H3|]. set_solver.
      - intros x [Hx| ->%list_elem_of_singleton]%elem_of_app; auto. }
    case_bool_decide as Hin; [auto|]. rewrite rd_get_view. unfold SignatureKey_from_parts in *.
    destruct (rd_view (t_signatures d) !! mkSignatureKey v root) as [sig|] eqn:Hs.
    2: { intros E. apply Hskip; [done|]. by intros [? [=]]. }
    destruct (vl_iter (validators st) !! Z.to_nat v) as [val|] eqn:Hval.
    2: { intros E. apply Hskip; [done|]. by intros _ [? [=]]. }
    intros [= <- <-]. clear Hskip. rewrite fmap_app, list_to_set_app_L. cbn.
    split_and!.
    + set_solver.
    + apply Forall_app. split; [done|]. repeat constructor; [done|]. exists val. done.
    + apply Forall_app. split; [eapply Forall_impl; [exact H3|]; set_solver|].
      repeat constructor; cbn; set_solver.
    + intros x [Hx| ->%list_elem_of_singleton]%elem_of_app ? ?; [|set_solver].
      apply elem_of_union_r. auto.
Qed.

Lemma set_bits_spec n ids bits :
  (forall v, v ∈ ids -> 0 <= v) -> set_bits n ids = Ok bits ->
  length (bl_iter bits) = n /\ signers (bl_iter bits) = list_to_set ids.
Proof.
  intros Hpos H. unfold set_bits in H. apply bind_Ok in H as (b0 & Hb0%ok_or_Ok%bl_with_capacity_Some & H).
  destruct Hb0 as [Hb0 _].
  assert (Hfold : forall l b b', (forall v, v ∈ l -> 0 <= v) ->
    foldM (fun bits id => ok_or (bl_set bits (Z.to_nat id) true) BitError) b l = Ok b' ->
    length (bl_iter b') = length (bl_iter b) /\
    forall v, v ∈ signers (bl_iter b') <-> v ∈ signers (bl_iter b) \/ v ∈ l).
  { induction l as [|x l IH]; intros b b' Hp Hf; cbn in Hf; [injection Hf as <-; set_solver|].
    apply bind_Ok in Hf as (b1 & [Hlt Hb1]%ok_or_Ok%bl_set_Some & Hf).
    apply IH in Hf as [Hlen Hf]; [|set_solver]. split; [by rewrite Hlen, Hb1, length_insert|].
    intros v. rewrite Hf, !elem_of_signers, Hb1, list_lookup_insert_Some, elem_of_cons.
    specialize (Hp x ltac:(set_solver)). split.
    - intros [[? [(? & _ & _)|[? ?]]]|?]; [right; left; lia|left; done|auto].
    - intros [[? Hv]|[->|?]]; [|left; split; [done|left; split_and!; [done..|lia]]|auto].
      destruct (decide (Z.to_nat x = Z.to_nat v)) as [E|E].
      + left. split; [done|]. left. split_and!; [done..|]. by rewrite <-E.
      + left. split; [done|]. by right. }
  apply Hfold in H as [Hlen H]; [|done]. rewrite Hb0, length_replicate in Hlen. split; [done|].
  apply set_eq. intros v. rewrite H, elem_of_list_to_set, elem_of_signers, Hb0, lookup_replicate.
  naive_solver.
Qed.

(** ** Jobs *)

(** What a job asks to be proved: the child proofs and the raw signatures are stored ones
    for its data, with the keys of their validators, and its bits name exactly the
    validators of both. *)
Record job_sound (d : LeanDB) (st : LeanState) (new known : gmap AttestationData (list SingleMessageAggregate))
    (data : AttestationData) (ids : list Z) (j : AggregationJob)
    (children : list SingleMessageAggregate) (raws : list raw_entry) : Prop := {
  js_data : job_data j = data /\ job_data_root j = tree_hash_root data;
  js_children : Forall (fun p => (exists ps, new !! data = Some ps /\ p ∈ ps) \/
                                 (exists ps, known !! data = Some ps /\ p ∈ ps)) children;
  js_wires : Forall2 (fun w p => w.1 = vl_iter (sma_proof p) /\ child_public_keys st p = Ok w.2)
               (job_child_wires j) children;
  js_raws : Forall (raw_ok d st (tree_hash_root data)) raws;
  js_fresh : Forall (fun e : raw_entry => e.1.1 ∉ union_participants children /\ e.1.1 ∈ ids) raws;
  js_xmss : job_raw_xmss j ≡ₚ (fun e : raw_entry => (e.1.2, e.2)) <$> raws;
  js_bits : signers (bl_iter (job_bits j)) =
    union_participants children ∪ list_to_set ((fun e : raw_entry => e.1.1) <$> raws);
  js_length : length (bl_iter (job_bits j)) = validators_len st;
  js_covered : forall v, v ∈ ids ->
    is_Some (rd_view (t_signatures d) !! mkSignatureKey v (tree_hash_root data)) ->
    is_Some (vl_iter (validators st) !! Z.to_nat v) -> v ∈ signers (bl_iter (job_bits j));
}.

Lemma mapR_Forall2 {A B} (f : A -> res StoreErr B) l l' :
  mapR f l = Ok l' -> Forall2 (fun b a => f a = Ok b) l' l.
Proof.
  revert l'. induction l as [|a l IH]; intros l' H; cbn in H; [injection H as <-; constructor|].
  apply bind_Ok in H as (b & Hb & H). apply bind_Ok in H as (bs & Hbs & [= <-]). constructor; auto.
Qed.

Lemma union_participants_pos ps v : v ∈ union_participants ps -> 0 <= v.
Proof.
  unfold union_participants. intros (X & HX & Hv)%elem_of_union_list.
  apply list_elem_of_fmap in HX as (p & -> & _). by apply elem_of_signers in Hv as [? _].
Qed.

Lemma prepare_job_sound d st groups new known data j :
  (forall v, v ∈ default [] (groups !! data) -> 0 <= v) ->
  prepare_job d st groups new known data = Ok (Some j) ->
  exists children raws, job_sound d st new known data (default [] (groups !! data)) j children raws.
Proof.
  intros Hpos H. unfold prepare_job in H.
  destruct (gather_children_spec data new known) as (children & c & Hc & Ec & Hfc & Hcov).
  rewrite Hc in H. cbn [mbind res_bind] in H. clear Hc.
  assert (Hraw : exists raws c',
    match groups !! data with
    | Some ids => gather_raw d st true (tree_hash_root data) ids c
    | None => ([], c)
    end = (raws, c') /\ c' = c ∪ list_to_set ((fun e : raw_entry => e.1.1) <$> raws) /\
    Forall (raw_ok d st (tree_hash_root data)) raws /\
    Forall (fun e : raw_entry => e.1.1 ∉ c /\ e.1.1 ∈ default [] (groups !! data)) raws /\
    (forall v, v ∈ default [] (groups !! data) ->
       is_Some (rd_view (t_signatures d) !! mkSignatureKey v (tree_hash_root data)) ->
       is_Some (vl_iter (validators st) !! Z.to_nat v) -> v ∈ c')).
  { destruct (groups !! data) as [ids|]; cbn.
    - destruct (gather_raw d st true (tree_hash_root data) ids c) as [raws c'] eqn:E.
      exists raws, c'. split; [done|]. by apply gather_raw_spec in E.
    - exists [], c. split_and!; [done|cbn; by rewrite union_empty_r_L|constructor..|set_solver]. }
  destruct Hraw as (raws & c' & Er & Ec' & Hr1 & Hr2 & Hr3). rewrite Er in H.
  destruct (bool_decide (raws = []) && _); [done|].
  apply bind_Ok in H as (bits & Hbits & H). apply bind_Ok in H as (wires & Hw%mapR_Forall2 & [= <-]).
  assert (Hpos' : forall v, v ∈ c' -> 0 <= v).
  { intros v. rewrite Ec', Ec, elem_of_union, elem_of_list_to_set, list_elem_of_fmap.
    intros [?%union_participants_pos|(e & -> & He)]; [done|].
    apply Hpos. by apply (proj1 (Forall_forall _ _) Hr2 e He). }
  apply set_bits_spec in Hbits as [Hlen Hbits].
  2: { intros v Hv%elem_of_hs_iter. by apply Hpos'. }
  assert (Hset : list_to_set (hs_iter c') = c').
  { apply set_eq. intros v. by rewrite elem_of_list_to_set, elem_of_hs_iter. }
  exists children, raws. subst c. split; cbn; try done.
  - eapply Forall2_impl; [exact Hw|]. intros [w pk] p Hp. cbn.
    apply bind_Ok in Hp as (pks & Hp & [= -> ->]). done.
  - apply fmap_Permutation, sort_by_perm.
  - by rewrite Hbits, Hset.
  - by rewrite Hbits, Hset.
Qed.

(** A job with a child that does not decode makes the proving fail. *)
Lemma prove_aggregation_jobs_reject jobs j w pks :
  j ∈ jobs -> (w, pks) ∈ job_child_wires j -> type_1_from_wire w pks = None ->
  (forall l, prove_aggregation_jobs jobs <> Ok l).
Proof.
  intros Hj Hw Hn l H. unfold prove_aggregation_jobs in H. apply mapR_Forall2 in H.
  apply list_elem_of_lookup in Hj as [i Hi]. destruct (Forall2_lookup_r _ _ _ _ _ H Hi) as (a & _ & Ha).
  unfold prove_job in Ha. apply bind_Ok in Ha as (cs & Hcs%mapR_Forall2 & _).
  apply list_elem_of_lookup in Hw as [k Hk]. destruct (Forall2_lookup_r _ _ _ _ _ Hcs Hk) as (t & _ & Ht).
  cbn in Ht. by rewrite Hn in Ht.
Qed.

(** ** Applying the aggregates *)

(** The proofs a key gets from the aggregates, in order. *)
Definition proofs_for (l : list SignedAggregatedAttestation) (k : SignatureKey) : list SingleMessageAggregate :=
  saa_proof <$> filter (fun a => tree_hash_root (saa_data a) = sk_data_root k /\
                                  sk_validator_id k ∈ participants (saa_proof a)) l.

Lemma elem_of_to_validator_indices p v : v ∈ to_validator_indices p <-> v ∈ participants p.
Proof. unfold participants, signers. by rewrite elem_of_list_to_set. Qed.

Lemma NoDup_to_validator_indices p : NoDup (to_validator_indices p).
Proof. unfold to_validator_indices. apply NoDup_fmap; [apply _|apply NoDup_true_indices]. Qed.

Lemma next_new_payloads_spec l k : default [] (next_new_payloads l !! k) = proofs_for l k.
Proof.
  unfold next_new_payloads, proofs_for.
  induction l as [|a l IH] using rev_ind; [done|].
  rewrite foldl_app, filter_app, fmap_app. cbn [foldl]. rewrite <-IH. clear IH.
  generalize (foldl (fun m a => foldl (fun m v => <[SignatureKey_from_parts v (tree_hash_root (saa_data a)) :=
    default [] (m !! SignatureKey_from_parts v (tree_hash_root (saa_data a))) ++ [saa_proof a]]> m) m
      (to_validator_indices (saa_proof a))) ∅ l : gmap SignatureKey (list SingleMessageAggregate)) as m.
  intros m. set (root := tree_hash_root (saa_data a)).
  assert (H : forall vs (m : gmap SignatureKey (list SingleMessageAggregate)), NoDup vs ->
    default [] (foldl (fun m v => <[SignatureKey_from_parts v root :=
      default [] (m !! SignatureKey_from_parts v root) ++ [saa_proof a]]> m) m vs !! k) =
    default [] (m !! k) ++ if decide (root = sk_data_root k /\ sk_validator_id k ∈ vs) then [saa_proof a] else []).
  { induction vs as [|v vs IH]; intros m' Hnd; cbn [foldl].
    - rewrite decide_False by set_solver. by rewrite app_nil_r.
    - apply NoDup_cons in Hnd as [Hv Hnd]. rewrite IH by done. rewrite lookup_insert.
      destruct (decide (SignatureKey_from_parts v root = k)) as [E|E].
      + subst k. cbn. rewrite (decide_False (P := _ /\ _)) by tauto. rewrite decide_True by set_solver.
        by rewrite app_nil_r.
      + f_equal. apply decide_ext. rewrite elem_of_cons. split; [tauto|]. intros [Hr [Hx|Hx]]; [|done].
        destruct E. destruct k. cbn in *. by subst. }
  rewrite H by apply NoDup_to_validator_indices. f_equal. rewrite filter_cons, filter_nil.
  pose proof (elem_of_to_validator_indices (saa_proof a) (sk_validator_id k)). fold root.
  repeat case_decide; tauto || done.
Qed.

Lemma push_missing_spec ex ps p : p ∈ push_missing ex ps <-> p ∈ ex \/ p ∈ ps.
Proof.
  unfold push_missing. revert ex. induction ps as [|q ps IH]; intros ex; cbn [foldl]; [set_solver|].
  rewrite IH. case_bool_decide; set_solver.
Qed.

(** Updating the new payloads key by key. *)
Lemma new_update_view (g : option (list SingleMessageAggregate) -> list SingleMessageAggregate ->
    list SingleMessageAggregate) k l : forall d, NoDup l.*1 ->
  let d' := foldl (fun d '(key, v) => new_insert key (g (rd_get (t_new_payloads d) key) v) d) d l in
  rd_view (t_new_payloads d') !! k =
    match (list_to_map l : gmap SignatureKey _) !! k with
    | Some v => Some (g (rd_view (t_new_payloads d) !! k) v)
    | None => rd_view (t_new_payloads d) !! k
    end /\ t_signatures d' = t_signatures d.
Proof.
  induction l as [|[k0 v] l IH]; intros d Hnd; cbn [foldl]; [done|].
  apply NoDup_cons in Hnd as [Hn Hnd].
  destruct (IH (new_insert k0 (g (rd_get (t_new_payloads d) k0) v) d) Hnd) as [H1 H2].
  cbv zeta. rewrite H1, H2. split; [|done]. cbn. rewrite rd_view_insert, rd_get_view.
  destruct (decide (k = k0)) as [->|].
  - by rewrite (not_elem_of_list_to_map_1 l k0 Hn), !lookup_insert_eq.
  - by rewrite !lookup_insert_ne.
Qed.

Lemma list_to_map_hm_iter {V} (m : gmap SignatureKey V) : list_to_map (hm_iter m) = m.
Proof.
  rewrite (list_to_map_proper _ (map_to_list m));
    [apply list_to_map_to_list|apply NoDup_hm_iter|apply hm_iter_perm].
Qed.

Lemma drop_signatures_view l d k :
  rd_view (t_signatures (drop_signatures l d)) !! k =
    if decide (sk_data_root k ∈ aggregated_data_roots l) then None else rd_view (t_signatures d) !! k.
Proof.
  unfold drop_signatures, signature_retain. cbn. rewrite rd_view_retain. apply option_eq. intros x.
  rewrite map_retain_Some, negb_true_iff, bool_decide_eq_false. case_decide; naive_solver.
Qed.

(** After [aggregate_apply] a key has the payloads it had and those of the aggregates; the
    signatures of the aggregated data are gone, and no others. *)
Lemma aggregate_apply_view l s k p :
  let d' := store (aggregate_apply l s).1 in
  (p ∈ default [] (rd_view (t_new_payloads d') !! k) <->
   p ∈ default [] (rd_view (t_new_payloads (store s)) !! k) \/ p ∈ proofs_for l k) /\
  rd_view (t_signatures d') !! k =
    (if decide (sk_data_root k ∈ aggregated_data_roots l) then None
     else rd_view (t_signatures (store s)) !! k).
Proof.
  cbv zeta. unfold aggregate_apply, db_write. rewrite bindM_modify. cbn [store on_db modify fst].
  destruct (new_update_view (fun o v => push_missing (default [] o) v) k
    (hm_iter (next_new_payloads l)) (store s) (NoDup_hm_iter _)) as [H1 H2].
  rewrite drop_signatures_view, H2. split; [|done].
  change (t_new_payloads (drop_signatures l ?d)) with (t_new_payloads d). rewrite H1, list_to_map_hm_iter.
  rewrite <-next_new_payloads_spec. destruct (next_new_payloads l !! k); cbn; [|set_solver].
  by rewrite push_missing_spec.
Qed.

(** [aggregate] replaces the new payloads by those of its aggregates. *)
Lemma aggregate_view s s' l k :
  aggregate s = (s', Ok l) ->
  rd_view (t_new_payloads (store s')) !! k = next_new_payloads l !! k /\
  rd_view (t_signatures (store s')) !! k =
    (if decide (sk_data_root k ∈ aggregated_data_roots l) then None
     else rd_view (t_signatures (store s)) !! k).
Proof.
  unfold aggregate, db_read, db_write. rewrite bindM_reads.
  destruct (mbind (M := res StoreErr) _ _) as [l0|e| |]; try done.
  rewrite !bindM_modify. intros [= <- <-].
  destruct (new_update_view (fun _ v => v) k (hm_iter (next_new_payloads l0)) (new_drain (store s)).2
    (NoDup_hm_iter _)) as [H1 H2].
  set (d1 := foldl _ _ _) in H1, H2. match goal with |- context [store ?x] =>
    change (store x) with (drop_signatures l0 d1) end.
  rewrite drop_signatures_view, H2. split; [|done].
  change (t_new_payloads (drop_signatures l0 d1)) with (t_new_payloads d1).
  rewrite H1, list_to_map_hm_iter. destruct (next_new_payloads l0 !! k); [done|].
  cbn. by rewrite rd_view_empty, lookup_empty.
Qed.
End facts.
