(* ===== verification/Concrete.v ===== *)
(** * A concrete chain

    The parameters instantiated by concrete functions (lists for the SSZ types, an
    injective encoding for the hash of a header) and a small chain of three
    validators with two branches, on which the theorems' hypotheses are checked by
    evaluation. *)

From S2P Require Import Prelude Ssz LeanTypes LeanState LeanInvariant LeanTransition.
From S2P Require Import LeanSafety.

#[global] Instance BlockHeader_eq_dec : EqDecision BlockHeader.
Proof. solve_decision. Defined.
#[global] Instance BlockHeader_countable : Countable BlockHeader.
Proof.
  apply (inj_countable'
    (fun h => (hdr_parent_root h, (hdr_slot h, hdr_proposer_index h, hdr_state_root h, hdr_body_root h)))
    (fun p => mkBlockHeader p.2.1.1.1 p.2.1.1.2 p.1 p.2.1.2 p.2.2)).
  by intros [].
Defined.

Module Ex.
Definition ssz : SszTypes := list_ssz.
#[global] Existing Instance ssz.
#[global] Existing Instance list_ssz_laws.

Definition hash_state : TreeHash LeanState := fun _ => 7.
Definition hash_header : TreeHash BlockHeader := fun h => Z.pos (encode h).
Definition hash_body : TreeHash BlockBody :=
  fun b => 1 + Z.of_nat (length (vl_iter (body_attestations b))).
Definition hash_data : TreeHash AttestationData := fun d => Z.pos (encode d).
#[global] Existing Instances hash_state hash_header hash_body hash_data.

Lemma hash_header_inj : Inj (=) (=) (tree_hash_root : BlockHeader -> B256).
Proof. intros h1 h2 H. by injection H as ?%encode_inj. Qed.

Definition validator (i : Z) : Validator := mkValidator (mkPublicKey [i]) (mkPublicKey [i]) i.
Definition registry : list Validator := validator <$> [0; 1; 2].

Definition genesis : LeanState :=
  match generate_genesis 0 (Some registry) with Ok s => s | _ =>
    mkLeanState (mkConfig 0) 0 (mkBlockHeader 0 0 0 0 0) Checkpoint_default Checkpoint_default
      [] [] [] [] [] end.

(** A block for a slot on top of a state. *)
Definition block_on (s : LeanState) (sl : Z) (atts : list AggregatedAttestation) : Block :=
  match process_slots s sl with
  | Ok s1 => mkBlock sl (sl mod 3) (tree_hash_root (latest_block_header s1)) 7 (mkBlockBody atts)
  | _ => mkBlock sl 0 0 0 (mkBlockBody [])
  end.

Definition run_block (s : LeanState) (b : Block) : LeanState :=
  match state_transition s b true with Ok s' => s' | _ => s end.

Definition root_of (b : Block) : B256 :=
  tree_hash_root (mkBlockHeader (blk_slot b) (blk_proposer_index b) (blk_parent_root b) 7
    (tree_hash_root (blk_body b))).

Definition cp (b : Block) : Checkpoint := mkCheckpoint (root_of b) (blk_slot b).

Definition vote (source target head : Checkpoint) (bits : list bool) : AggregatedAttestation :=
  mkAggregatedAttestation bits (mkAttestationData (cp_slot head) head target source).

(** Branch A: blocks at slots 1, 2 and 4; validators 0 and 1 justify slot 1, then slot 2,
    which finalizes slot 1. *)
Definition g_cp : Checkpoint := mkCheckpoint (blk_parent_root (block_on genesis 1 [])) 0.
Definition a1 : Block := block_on genesis 1 [].
Definition sa1 : LeanState := Eval vm_compute in run_block genesis a1.
Definition a2 : Block := block_on sa1 2 [vote g_cp (cp a1) (cp a1) [true; true; false]].
Definition sa2 : LeanState := Eval vm_compute in run_block sa1 a2.
Definition a3 : Block := block_on sa2 4 [vote (cp a1) (cp a2) (cp a2) [true; true]].
Definition sa3 : LeanState := Eval vm_compute in run_block sa2 a3.

(** Branch B: another block at slot 1, which validators 1 and 2 justify in a block at
    slot 3, where validator 0 also votes for it. *)
Definition b1 : Block := block_on genesis 1 [vote g_cp g_cp g_cp [true]].
Definition sb1 : LeanState := Eval vm_compute in run_block genesis b1.
Definition b2 : Block := block_on sb1 3 [vote g_cp (cp b1) (cp b1) [false; true; true]].
Definition sb2 : LeanState := Eval vm_compute in run_block sb1 b2.

(** A block with one vote, which stays pending. *)
Definition c2 : Block := block_on sa1 3 [vote g_cp (cp a1) (cp a1) [false; true]].
Definition sc2 : LeanState := Eval vm_compute in run_block sa1 c2.

Lemma block_u64_dec (b : Block) :
  (is_u64_b (blk_slot b) &&
   forallb (fun a => is_u64_b (cp_slot (ad_source (aa_message a))) &&
     is_u64_b (cp_slot (ad_target (aa_message a))) && is_u64_b (cp_slot (ad_head (aa_message a))))
     (vl_iter (body_attestations (blk_body b)))) = true -> block_u64 b.
Proof.
  intros [H1 H2]%andb_true_iff. split; [by apply is_u64_b_true|].
  apply Forall_forall. intros a Ha. apply list_elem_of_In in Ha.
  rewrite forallb_forall in H2. specialize (H2 a Ha). b2p.
  split_and!; by apply is_u64_b_true.
Qed.

Lemma reach_a2 : reachable genesis [a1; a2] sa2.
Proof.
  apply (reach_block genesis [a1] sa1); [apply (reach_block genesis [] genesis)|..];
    [constructor|by apply block_u64_dec|by vm_compute|by apply block_u64_dec|by vm_compute].
Qed.
Lemma reach_a3 : reachable genesis [a1; a2; a3] sa3.
Proof.
  apply (reach_block genesis [a1; a2] sa2); [apply reach_a2|by apply block_u64_dec|by vm_compute].
Qed.
Lemma step_a3 : reachable sa2 [a3] sa3.
Proof. apply (reach_block sa2 [] sa2); [constructor|by apply block_u64_dec|by vm_compute]. Qed.
Lemma reach_b2 : reachable genesis [b1; b2] sb2.
Proof.
  apply (reach_block genesis [b1] sb1); [apply (reach_block genesis [] genesis)|..];
    [constructor|by apply block_u64_dec|by vm_compute|by apply block_u64_dec|by vm_compute].
Qed.
Lemma reach_c2 : reachable genesis [a1; c2] sc2.
Proof.
  apply (reach_block genesis [a1] sa1); [apply (reach_block genesis [] genesis)|..];
    [constructor|by apply block_u64_dec|by vm_compute|by apply block_u64_dec|by vm_compute].
Qed.
Lemma genesis_Ok : generate_genesis 0 (Some registry) = Ok genesis.
Proof. by vm_compute. Qed.

Lemma wf_a2 : wf sa2.
Proof. apply (reachable_inv 0 (Some registry) genesis [a1; a2]); [exact genesis_Ok|exact reach_a2]. Qed.

(** Between the steps of the block at slot 4: after its slots, and after its header. *)
Definition sa2s : LeanState :=
  Eval vm_compute in match process_slots sa2 4 with Ok s => s | _ => sa2 end.
Definition sa2h : LeanState :=
  Eval vm_compute in match process_block_header sa2s a3 with Ok s => s | _ => sa2 end.
Lemma wf_a2s : wf sa2s.
Proof. apply (process_slots_wf sa2 4); [exact wf_a2|done|by vm_compute]. Qed.
Lemma wf_a2h : wf sa2h.
Proof. apply (process_block_header_wf sa2s a3); [exact wf_a2s|by vm_compute]. Qed.

Definition empty_genesis : LeanState :=
  Eval vm_compute in match generate_genesis 0 None with Ok s => s | _ => genesis end.

Lemma wf_c2 : wf sc2.
Proof. apply (reachable_inv 0 (Some registry) genesis [a1; c2]); [exact genesis_Ok|exact reach_c2]. Qed.
End Ex.
