(* ===== verification/StoreConcrete.v ===== *)
(** * A concrete store

    The store's parameters instantiated (finite maps for the tables and the hash maps, a
    toy proof system whose wire form is a non-empty byte string) and the store of a
    small chain, on which the hypotheses of the store theorems are checked by
    evaluation and the scenarios of the findings are run. *)

From S2P Require Import Prelude StateMonad Redb Ssz Slot LeanTypes.
From S2P Require Import LeanState LeanInvariant LeanTransition LeanSafety LeanDB Ghost ForkChoice.
From S2P Require Import ForkChoiceFacts StoreInvariant StoreRuns Attesting Production Aggregation Concrete.

Module SEx.
Import Ex.

#[global] Existing Instances gmap_redb gmap_redb_laws gmap_order gmap_order_laws.

Definition hash_block : TreeHash Block := root_of.
#[global] Existing Instance hash_block.

(** A proof is any non-empty byte string. *)
Definition crypto : PqCrypto := {|
  TypeOne := list Z;
  sig_verify := fun _ _ _ _ => Some true;
  type_1_from_wire := fun wire _ => match wire with [] => None | _ => Some wire end;
  type_1_to_wire := fun t => t;
  type_1_verify := fun _ => true;
  type_1_aggregate := fun _ _ _ _ => Some [1];
  type_2_verify_block := fun _ _ _ => true;
|}.
#[global] Existing Instance crypto.

Definition spec : NetworkSpec := mkNetworkSpec 0 4 1.

Definition signed (b : Block) : SignedBlock := mkSignedBlock b (mkMultiMessageAggregate []).
Definition g_block : Block := mkBlock 0 0 0 7 (mkBlockBody []).

Definition blank_store : Store := mkStore empty_db Checkpoint_default Checkpoint_default RoundBased.
Definition start (time : Z) : Store :=
  match get_forkchoice_store spec (signed g_block) genesis empty_db (Some time) (Some 0) with
  | Ok s => s
  | _ => blank_store
  end.

Lemma wf_genesis_state : wf genesis.
Proof. apply (reachable_inv 0 (Some registry) genesis []); [exact genesis_Ok|constructor]. Qed.

Lemma anchor_genesis : anchor_ok (signed g_block) genesis.
Proof. split; [exact wf_genesis_state|by vm_compute..]. Qed.

Lemma start_Ok time :
  get_forkchoice_store spec (signed g_block) genesis empty_db (Some time) (Some 0) = Ok (start time).
Proof. reflexivity. Qed.

(** Handling events one after the other. *)
Definition run (s : Store) (es : list event) : Store := foldl (fun s e => (handle spec e s).1) s es.

Definition event_ok_b (e : event) : bool :=
  match e with
  | EvBlock sb _ => is_u64_b (blk_slot (sb_block sb)) &&
      forallb (fun a => is_u64_b (cp_slot (ad_source (aa_message a))) &&
        is_u64_b (cp_slot (ad_target (aa_message a))) && is_u64_b (cp_slot (ad_head (aa_message a))))
        (vl_iter (body_attestations (blk_body (sb_block sb))))
      && negb (tree_hash_root (sb_block sb) =? 0)
  | _ => true
  end.

Lemma run_reachable s0 es : forallb event_ok_b es = true -> store_reachable spec 0 s0 (run s0 es).
Proof.
  induction es as [|e es IH] using rev_ind; intros H; [constructor|].
  rewrite forallb_app, andb_true_iff in H. destruct H as [H1 H2]. unfold run. rewrite foldl_app. cbn [foldl].
  constructor; [by apply IH|]. cbn in H2. rewrite andb_true_r in H2. destruct e; try done. cbn in H2 |- *.
  b2p. split; [|done]. apply block_u64_dec. apply andb_true_iff. done.
Qed.

Lemma run_inv time es :
  is_u64 time -> forallb event_ok_b es = true -> db_inv 0 (store (run (start time) es)).
Proof.
  intros Ht He. eapply store_reachable_inv; [|by apply run_reachable].
  apply (get_forkchoice_store_inv spec (signed g_block) genesis (Some time) (Some 0));
    [exact anchor_genesis|exact Ht|apply start_Ok].
Qed.

(** Two blocks of a chain; the second carries the votes of validators 0 and 1. *)
Definition s2 : Store := run (start 10) [EvBlock (signed a1) false; EvBlock (signed a2) false].
Lemma s2_inv : db_inv 0 (store s2).
Proof. apply run_inv; [by vm_compute|by vm_compute]. Qed.

Definition vote1 : AttestationData := mkAttestationData 1 (cp a1) (cp a1) g_cp.
Definition vote2 : AttestationData := mkAttestationData 2 (cp a2) (cp a2) (cp a1).

Definition aggregated (bits : list bool) (data : AttestationData) : SignedAggregatedAttestation :=
  mkSignedAggregatedAttestation data (mkSingleMessageAggregate bits [1]).

(** What a validator sees in that store. *)
Lemma s2_view : head_view (store s2) (root_of a2) sa2 0.
Proof.
  assert (H2 : block_index (store s2) !! root_of a2 = Some (root_of a1, 2)) by (by vm_compute).
  assert (H1 : block_index (store s2) !! root_of a1 = Some (cp_root g_cp, 1)) by (by vm_compute).
  assert (A1 : ancestor (block_index (store s2)) (root_of a2) (root_of a1))
    by (eapply rtc_l; [by exists 2|apply rtc_refl]).
  assert (A0 : ancestor (block_index (store s2)) (root_of a2) (cp_root g_cp))
    by (eapply rtc_l; [by exists 2|]; eapply rtc_l; [by exists 1|apply rtc_refl]).
  split; [by vm_compute..| | | |].
  - intros _. split; [exists (cp_root g_cp); by vm_compute|exact A1].
  - intros _. split; [exists 0; by vm_compute|exact A0].
  - exists g_cp. split_and!; [by vm_compute|exists 0; by vm_compute|exact A0].
  - exists (cp_root g_cp), 0. split; by vm_compute.
Qed.

(** The store before the second block. *)
Definition s1 : Store := run (start 10) [EvBlock (signed a1) false].
Lemma s1_inv : db_inv 0 (store s1).
Proof. apply run_inv; by vm_compute. Qed.

(** ** Two proofs for one vote *)

(** Two aggregates for the same data, with different participants. *)
Definition s_two : Store := run (start 10)
  [EvBlock (signed a1) false; EvAggregate (aggregated [true] vote1) true;
   EvAggregate (aggregated [false; true] vote1) true].
Lemma s_two_inv : db_inv 0 (store s_two).
Proof. apply run_inv; by vm_compute. Qed.

(** The block validator 2 produces for slot 2, and the store after producing it. *)
Definition s_two_after : Store := (produce_block_with_signatures spec 2 2 s_two).1.
Definition two_block : BlockWithSignatures :=
  match (produce_block_with_signatures spec 2 2 s_two).2 with
  | Ok b => b
  | _ => mkBlockWithSignatures g_block [] []
  end.

Lemma two_produced : produce_block_with_signatures spec 2 2 s_two = (s_two_after, Ok two_block).
Proof.
  assert (E : (produce_block_with_signatures spec 2 2 s_two).2 = Ok two_block) by (by vm_compute).
  rewrite <-E. apply surjective_pairing.
Qed.

Definition two_signed : SignedBlock := signed (bws_block two_block).
Definition two_post : LeanState :=
  match check_block (store s_two_after) two_signed false with Ok (st, _) => st | _ => genesis end.
Definition two_justified : Checkpoint :=
  match check_block (store s_two_after) two_signed false with Ok (_, c) => c | _ => g_cp end.
Lemma two_check : check_block (store s_two_after) two_signed false = Ok (two_post, two_justified).
Proof. by vm_compute. Qed.
Lemma two_twice : ~ NoDup (data_roots two_signed).
Proof. apply (bool_decide_eq_false_1 _). by vm_compute. Qed.

(** ** One proof for a vote *)

Definition s_one : Store := run (start 10)
  [EvBlock (signed a1) false; EvAggregate (aggregated [true] vote1) true].
Lemma s_one_inv : db_inv 0 (store s_one).
Proof. apply run_inv; by vm_compute. Qed.

(** ** A signature for a vote that a block carried *)

Definition s_late : Store := run s2 [EvAttestation (mkSignedAttestation 2 vote1 blank) true].

Definition late_groups : gmap AttestationData (list Z) := group_by_data (gossip_votes (store s_late)).
Definition late_job : AggregationJob :=
  match prepare_job (store s_late) sa2 late_groups (new_payloads (store s_late))
          (known_payloads (store s_late)) vote1 with
  | Ok (Some j) => j
  | _ => mkAggregationJob vote1 0 [] [] [] 0
  end.

(** ** A projection *)

Definition chain3 : list B256 := extended_historical_block_hashes sa2 (root_of a2) 3.
Definition ctx2 : BuildContext := mkBuildContext sa2 ∅ (store s2).
Definition everyone : list SingleMessageAggregate := [mkSingleMessageAggregate [true; true; true] [1]].
Definition votes2 : gmap B256 (gset Z) :=
  match build_running_votes_by_target_root sa2 with Ok v => v | _ => ∅ end.
Definition js2 : BitList :=
  match extend_projected_justified_slots (justified_slots sa2) 0 2 with Ok js => js | _ => [] end.
Definition proj2' : projection := mkProjection 0 js2 votes2.
Definition score2 : AttestationEntryScore := mkScore Finalize 3 2 2.
Definition voters2 : gset Z := list_to_set [0; 1; 2].
Definition proj3 : projection :=
  match project proj2' vote2 Finalize voters2 with Ok p => p | _ => proj2' end.

(** ** A target justified twice *)

(** The block at slot 3 justifies slot 2 from the genesis block, which finalizes nothing. *)
Definition a3' : Block := block_on sa2 3 [vote g_cp (cp a2) (cp a2) [true; true; false]].
Definition sa3' : LeanState := Eval vm_compute in run_block sa2 a3'.
Definition s3' : Store :=
  run (start 16) [EvBlock (signed a1) false; EvBlock (signed a2) false; EvBlock (signed a3') false].
Lemma reach_a3' : reachable genesis [a1; a2; a3'] sa3'.
Proof.
  apply (reach_block genesis [a1; a2] sa2); [apply reach_a2|by apply block_u64_dec|by vm_compute].
Qed.

(** A vote for slot 2 from slot 1, by everyone. *)
Definition again : AttestationData := mkAttestationData 3 (cp a3') (cp a2) (cp a1).
Definition ctx3 : BuildContext := mkBuildContext sa3' ∅ (store s3').

(** ** A vote for a slot far in the future *)

Definition far_vote : AttestationData := mkAttestationData 3689348814741910324 (cp a2) (cp a2) (cp a1).
End SEx.
