(* ===== verification/Bytes.v ===== *)
(** * Byte strings, and the hash function

    The beacon chain reads the bytes of its roots, seeds and credentials, so here
    a [B256] is the list of its 32 bytes.  SHA-256 comes from the
    [ethereum_hashing] crate: it is an argument of the definitions that hash, with
    the length and range of its output as laws. *)

From S2P Require Import Prelude.

Definition byte (z : Z) : Prop := 0 <= z < 256.

(** [to_le_bytes], the first [n] bytes, and [from_le_bytes]. *)
Fixpoint le_bytes (n : nat) (z : Z) : list Z :=
  match n with
  | O => []
  | S n' => z mod 256 :: le_bytes n' (z / 256)
  end.

Fixpoint from_le_bytes (l : list Z) : Z :=
  match l with
  | [] => 0
  | b :: l' => b + 256 * from_le_bytes l'
  end.

(** A slice index [v[i]], which panics out of range. *)
Definition index {E A} (l : list A) (i : nat) : res E A :=
  match l !! i with Some a => Ok a | None => Panic end.

(** [v[i] = a], which panics out of range. *)
Definition set_index {E A} (l : list A) (i : nat) (a : A) : res E (list A) :=
  match l !! i with Some _ => Ok (<[i := a]> l) | None => Panic end.

(** [slice::swap]. *)
Definition swap {E A} (l : list A) (i j : nat) : res E (list A) :=
  x ← index l i; y ← index l j; Ok (<[i := y]> (<[j := x]> l)).

(** [a % b] and [a / b] panic when [b] is zero. *)
Definition u64_rem {E} (a b : Z) : res E Z := if b =? 0 then Panic else Ok (a mod b).
Definition u64_div {E} (a b : Z) : res E Z := if b =? 0 then Panic else Ok (a / b).

(** [iter().sum::<u64>()]. *)
Definition u64_sum (l : list Z) : Z := foldl u64_add 0 l.

Class Sha256 : Type := hash : list Z -> list Z.

Class Sha256Laws (H : Sha256) : Prop := {
  hash_length : forall m, length (hash m) = 32%nat;
  hash_bytes : forall m, Forall byte (hash m);
}.

Lemma le_bytes_length n z : length (le_bytes n z) = n.
Proof. revert z. induction n; intros z; cbn; auto. Qed.

Lemma le_bytes_byte n z : Forall byte (le_bytes n z).
Proof.
  revert z. induction n; intros z; cbn; constructor; [|done].
  unfold byte. apply Z.mod_pos_bound. lia.
Qed.

Lemma take_le_bytes n m z : (n <= m)%nat -> take n (le_bytes m z) = le_bytes n z.
Proof.
  revert n z. induction m as [|m IH]; intros [|n] z Hn; cbn; try done; [lia|].
  by rewrite IH by lia.
Qed.

Lemma from_le_bytes_range l : Forall byte l -> 0 <= from_le_bytes l < 256 ^ Z.of_nat (length l).
Proof.
  unfold byte. induction 1 as [|b l Hb Hl IH]; cbn -[Z.pow]; [lia|].
  rewrite Nat2Z.inj_succ, Z.pow_succ_r by lia. lia.
Qed.

Lemma from_le_bytes_le_bytes n z : from_le_bytes (le_bytes n z) = z mod 256 ^ Z.of_nat n.
Proof.
  revert z. induction n as [|n IH]; intros z; cbn -[Z.pow].
  - by rewrite Z.mod_1_r.
  - rewrite IH, Nat2Z.inj_succ, Z.pow_succ_r by lia.
    rewrite Z.rem_mul_r by lia. lia.
Qed.

Lemma index_Ok {E A} (l : list A) i (a : A) : index (E := E) l i = Ok a <-> l !! i = Some a.
Proof. unfold index. destruct (l !! i); split; congruence. Qed.

Lemma index_lookup {E A} (l : list A) i (a : A) : l !! i = Some a -> index (E := E) l i = Ok a.
Proof. apply index_Ok. Qed.

Lemma set_index_Ok {E A} (l l' : list A) i a :
  set_index (E := E) l i a = Ok l' <-> (i < length l)%nat /\ l' = <[i := a]> l.
Proof.
  unfold set_index. destruct (l !! i) eqn:H.
  - apply lookup_lt_Some in H. split; [by intros [= <-]|by intros [_ ->]].
  - apply lookup_ge_None in H. split; [done|lia].
Qed.

(** ** Sums

    Below [2 ^ 64] a sum of [u64]s is the sum of the integers. *)
Fixpoint sumZ (l : list Z) : Z := match l with [] => 0 | z :: l' => z + sumZ l' end.

Lemma sumZ_app l1 l2 : sumZ (l1 ++ l2) = sumZ l1 + sumZ l2.
Proof. induction l1; cbn in *; lia. Qed.

Lemma sumZ_nonneg l : Forall (fun z => 0 <= z) l -> 0 <= sumZ l.
Proof. induction 1; cbn in *; lia. Qed.

Lemma sumZ_perm l1 l2 : l1 ≡ₚ l2 -> sumZ l1 = sumZ l2.
Proof. induction 1; cbn in *; lia. Qed.

Lemma u64_sum_wrap l : u64_sum l = wrap64 (sumZ l).
Proof.
  unfold u64_sum. rewrite <-(Z.add_0_l (sumZ l)).
  change (foldl u64_add 0 l) with (foldl u64_add (wrap64 0) l). generalize 0 as a.
  induction l as [|b l IH]; intros a; cbn.
  - f_equal. lia.
  - rewrite Z.add_assoc, <-IH. f_equal. unfold u64_add, wrap64. by rewrite Zplus_mod_idemp_l.
Qed.

Lemma u64_sum_id l : is_u64 (sumZ l) -> u64_sum l = sumZ l.
Proof. intros. by rewrite u64_sum_wrap, wrap64_id. Qed.

Lemma u64_sum_perm l1 l2 : l1 ≡ₚ l2 -> u64_sum l1 = u64_sum l2.
Proof. intros H. by rewrite !u64_sum_wrap, (sumZ_perm _ _ H). Qed.
