(* ===== verification/Shuffling.v ===== *)
(** * Shuffling and committees

    [compute_shuffled_index], [compute_shuffled_list] and [compute_committee] of
    [crates/common/consensus/misc/src/misc.rs], and [committee_in_shuffling] and
    [committee_count_per_slot] of [beacon/src/electra/beacon_state.rs].

    The per-index function is the reference: a round sends an index to itself or to
    its mirror image about the round's pivot.  The whole-list function makes the
    same exchanges in place, in the reverse order of rounds, with the source bytes
    kept from one position to the next.  An [anyhow] error is its message. *)

From stdpp Require Import strings.
From S2P Require Import Prelude Bytes.

Definition B256 : Type := list Z.
Definition anyhow : Type := string.

Definition SHUFFLE_ROUND_COUNT : Z := 90.
Definition SLOTS_PER_EPOCH : Z := 32.
Definition TARGET_COMMITTEE_SIZE : Z := 128.
Definition MAX_COMMITTEES_PER_SLOT : Z := 64.

Definition bytes_to_int64 (slice : list Z) : Z :=
  let len := Nat.min (length slice) 8 in
  from_le_bytes (take len slice ++ replicate (8 - len) 0).

Section shuffling.
Context {H : Sha256}.

(** Split the boolean connectives of the hypotheses into their cases. *)
Ltac bool_cases :=
  repeat (b2p; match goal with
               | H : _ && _ = false |- _ => apply andb_false_iff in H
               | H : _ \/ _ |- _ => destruct H
               end); b2p.

(** ** One index *)

Definition shuffle_round (index_count : Z) (seed : B256) (index : Z) (round : Z) : res anyhow Z :=
  let seed_with_round := seed ++ le_bytes 1 round in
  pivot ← u64_rem (bytes_to_int64 (hash seed_with_round)) index_count;
  flip ← u64_rem (pivot + (index_count - index))%u64 index_count;
  let position := Z.max index flip in
  let seed_with_position := seed_with_round ++ take 4 (le_bytes 8 (position / 256)) in
  let source := hash seed_with_position in
  byte ← Bytes.index source (Z.to_nat (position mod 256 / 8));
  let bit := Z.shiftr byte (position mod 8) mod 2 in
  Ok (if bit =? 1 then flip else index).

Definition compute_shuffled_index (index index_count : Z) (seed : B256) : res anyhow Z :=
  ensure (index <? index_count) "Index must be less than index_count"%string;;
  foldM (shuffle_round index_count seed) index (range 0 SHUFFLE_ROUND_COUNT).

(** ** A whole list *)

(** [source_for], on a buffer that holds the seed and the round. *)
Definition source_for (seed : B256) (round position : Z) : list Z :=
  hash (seed ++ le_bytes 1 round ++ le_bytes 4 (Z.shiftr position 8)).

(** The list, and the source and byte of the last position. *)
Definition pass_state : Type := list Z * list Z * Z.

Definition mirror_step (seed : B256) (round : Z) (st : pass_state) (ij : Z * Z) :
    res anyhow pass_state :=
  let '(l, source, byte) := st in
  let '(i, j) := ij in
  let source := if Z.land j 255 =? 255 then source_for seed round j else source in
  byte ← (if Z.land j 7 =? 7 then Bytes.index source (Z.to_nat (Z.shiftr (Z.land j 255) 3)) else Ok byte);
  l ← (if Z.land (Z.shiftr byte (Z.land j 7)) 1 =? 1 then swap l (Z.to_nat i) (Z.to_nat j) else Ok l);
  Ok (l, source, byte).

(** One of the two inner loops: the pairs [(first + o, last - o)] for [o < count]. *)
Definition mirror_pass (seed : B256) (round first last count : Z) (l : list Z) : res anyhow (list Z) :=
  let source := source_for seed round last in
  byte ← Bytes.index source (Z.to_nat (Z.shiftr (Z.land last 255) 3));
  st ← foldM (mirror_step seed round) (l, source, byte)
         ((fun o => (first + o, last - o)) <$> range 0 count);
  Ok st.1.1.

Definition list_round (seed : B256) (list_size : Z) (l : list Z) (round : Z) : res anyhow (list Z) :=
  pivot ← u64_rem (bytes_to_int64 (hash (seed ++ le_bytes 1 round))) list_size;
  let mirror := Z.shiftr (pivot + 1)%u64 1 in
  l ← mirror_pass seed round 0 pivot mirror l;
  let mirror := Z.shiftr (pivot + list_size + 1)%u64 1 in
  let end_ := (list_size - 1)%u64 in
  mirror_pass seed round (pivot + 1) end_ (mirror - (pivot + 1)) l.

Definition compute_shuffled_list (indices : list Z) (seed : B256) : res anyhow (list Z) :=
  let list_size := Z.of_nat (length indices) in
  if list_size <=? 1 then Ok indices
  else foldM (list_round seed list_size) indices (reverse (range 0 SHUFFLE_ROUND_COUNT)).

(** ** Committees *)

Definition compute_committee (indices : list Z) (seed : B256) (index count : Z) :
    res anyhow (list Z) :=
  let len := Z.of_nat (length indices) in
  start ← u64_div (len * index)%u64 count;
  end_ ← u64_div (len * (index + 1))%u64 count;
  mapR (fun i =>
    shuffled_index ← compute_shuffled_index i len seed;
    ok_or (indices !! Z.to_nat shuffled_index) "Index out of bounds"%string)
    (range start end_).

Definition committee_count_per_slot (active_validator_count : Z) : Z :=
  Z.min MAX_COMMITTEES_PER_SLOT
    (Z.max 1 (active_validator_count / SLOTS_PER_EPOCH / TARGET_COMMITTEE_SIZE)).

(** [shuffled[start..end]] panics unless [start <= end <= len]. *)
Definition slice {A} (l : list A) (start end_ : Z) : res anyhow (list A) :=
  if (start <=? end_) && (end_ <=? Z.of_nat (length l))
  then Ok (take (Z.to_nat (end_ - start)) (drop (Z.to_nat start) l)) else Panic.

Definition committee_in_shuffling (shuffled : list Z) (slot index : Z) : res anyhow (list Z) :=
  let committees_per_slot := committee_count_per_slot (Z.of_nat (length shuffled)) in
  let count := (committees_per_slot * SLOTS_PER_EPOCH)%u64 in
  let committee := ((slot mod SLOTS_PER_EPOCH) * committees_per_slot + index)%u64 in
  ensure (committee <? count) "Committee index is out of range"%string;;
  let length_ := Z.of_nat (length shuffled) in
  let start := (length_ * committee)%u64 / count in
  let end_ := (length_ * (committee + 1))%u64 / count in
  slice shuffled start end_.

(** ** The permutation of a round *)

(** The pivot of a round, the mirror image of an index, and the bit of a position. *)
Definition pivot_of (n : Z) (seed : B256) (round : Z) : Z :=
  bytes_to_int64 (hash (seed ++ le_bytes 1 round)) mod n.
Definition flip_of (n : Z) (seed : B256) (round i : Z) : Z :=
  if i <=? pivot_of n seed round then pivot_of n seed round - i else pivot_of n seed round + n - i.
Definition byte_of (seed : B256) (round position : Z) : Z :=
  default 0 (source_for seed round position !! Z.to_nat (position mod 256 / 8)).
Definition bit_of (seed : B256) (round position : Z) : bool :=
  Z.testbit (byte_of seed round position) (position mod 8).
Definition sigma (n : Z) (seed : B256) (round i : Z) : Z :=
  let j := flip_of n seed round i in
  if bit_of seed round (Z.max i j) then j else i.

(** All the rounds. *)
Definition shuffled (n : Z) (seed : B256) (i : Z) : Z :=
  foldl (fun i round => sigma n seed round i) i (range 0 SHUFFLE_ROUND_COUNT).

Context {HL : Sha256Laws H}.

Lemma bytes_to_int64_range l : Forall byte l -> is_u64 (bytes_to_int64 l).
Proof.
  intros Hl. unfold bytes_to_int64. set (l' := take _ _ ++ _).
  assert (length l' = 8%nat) as Hlen.
  { unfold l'. rewrite length_app, length_take, length_replicate. lia. }
  assert (Forall byte l') as Hb.
  { apply Forall_app. split; [by apply Forall_take|]. apply Forall_replicate. unfold byte. lia. }
  pose proof (from_le_bytes_range l' Hb) as Hr. rewrite Hlen in Hr.
  unfold is_u64. change (256 ^ Z.of_nat 8) with (2 ^ 64) in Hr. done.
Qed.

Lemma pivot_range n seed round : 0 < n -> 0 <= pivot_of n seed round < n.
Proof. intros. by apply Z.mod_pos_bound. Qed.

Lemma flip_range n seed round i : 0 <= i < n -> 0 <= flip_of n seed round i < n.
Proof.
  intros Hi. pose proof (pivot_range n seed round). unfold flip_of. case_if; b2p; lia.
Qed.

Lemma flip_flip n seed round i : 0 <= i < n -> flip_of n seed round (flip_of n seed round i) = i.
Proof.
  intros Hi. pose proof (pivot_range n seed round). unfold flip_of.
  repeat case_if; b2p; lia.
Qed.

Lemma sigma_range n seed round i : 0 <= i < n -> 0 <= sigma n seed round i < n.
Proof. intros Hi. unfold sigma. case_if; [by apply flip_range|done]. Qed.

Lemma sigma_sigma n seed round i : 0 <= i < n -> sigma n seed round (sigma n seed round i) = i.
Proof.
  intros Hi. unfold sigma. set (j := flip_of n seed round i).
  assert (flip_of n seed round j = i) as Hj by (by apply flip_flip).
  destruct (bit_of seed round (Z.max i j)) eqn:E.
  - rewrite Hj, Z.max_comm, E. done.
  - fold j. by rewrite E.
Qed.

Lemma source_byte seed round position : 0 <= position ->
  source_for seed round position !! Z.to_nat (position mod 256 / 8) =
  Some (byte_of seed round position).
Proof using HL.
  intros. unfold byte_of.
  assert (Z.to_nat (position mod 256 / 8) < length (source_for seed round position))%nat as Hlt.
  { unfold source_for. rewrite hash_length. pose proof (Z.mod_pos_bound position 256).
    assert (position mod 256 / 8 < 32) by (apply Z.div_lt_upper_bound; lia). lia. }
  apply lookup_lt_is_Some in Hlt as [b ->]. done.
Qed.

Lemma testbit_shiftr b k : 0 <= k -> (Z.shiftr b k mod 2 =? 1) = Z.testbit b k.
Proof.
  intros. rewrite Z.shiftr_div_pow2, <-Z.testbit_spec' by lia. by destruct (Z.testbit b k).
Qed.

(** The reference function computes the rounds' permutation. *)
Lemma shuffle_round_sigma n seed i round :
  0 < n < 2 ^ 63 -> 0 <= i < n ->
  shuffle_round n seed i round = Ok (sigma n seed round i).
Proof using HL.
  intros Hn Hi. unfold shuffle_round, u64_rem.
  replace (n =? 0) with false by (symmetry; apply Z.eqb_neq; lia). cbn -[take le_bytes].
  pose proof (pivot_range n seed round ltac:(lia)) as Hp. fold (pivot_of n seed round).
  set (p := pivot_of n seed round) in *. u64_simpl.
  assert ((p + (n - i)) mod n = flip_of n seed round i) as ->.
  { unfold flip_of. fold p. case_if; b2p.
    - replace (p + (n - i)) with (p - i + 1 * n) by lia. rewrite Z.mod_add by lia.
      apply Z.mod_small. lia.
    - rewrite Z.mod_small by lia. lia. }
  unfold sigma. set (j := flip_of n seed round i).
  pose proof (flip_range n seed round i Hi) as Hj. fold j in Hj.
  rewrite (index_lookup _ _ (byte_of seed round (Z.max i j))).
  - cbn. rewrite testbit_shiftr; [done|]. apply Z.mod_pos_bound. lia.
  - rewrite take_le_bytes by lia. rewrite <-source_byte by lia. unfold source_for.
    rewrite <-app_assoc. by rewrite Z.shiftr_div_pow2 by lia.
Qed.

Lemma rounds_shuffled n seed i rounds :
  0 < n < 2 ^ 63 -> 0 <= i < n ->
  foldM (shuffle_round n seed) i rounds = Ok (foldl (fun i r => sigma n seed r i) i rounds) /\
  0 <= foldl (fun i r => sigma n seed r i) i rounds < n.
Proof using HL.
  intros Hn Hi. revert i Hi. induction rounds as [|r rounds IH]; intros i Hi; cbn; [done|].
  rewrite shuffle_round_sigma by done. cbn. apply IH. by apply sigma_range.
Qed.

Lemma compute_shuffled_index_spec n seed i :
  0 < n < 2 ^ 63 -> 0 <= i < n ->
  compute_shuffled_index i n seed = Ok (shuffled n seed i) /\ 0 <= shuffled n seed i < n.
Proof using HL.
  intros Hn Hi. unfold compute_shuffled_index, ensure.
  replace (i <? n) with true by (symmetry; apply Z.ltb_lt; lia). cbn -[range].
  by apply rounds_shuffled.
Qed.

(** ** The exchanges of a pass *)

(** Where the exchanges of the pairs [(first + o, last - o)], [o < count], take the
    element at [x] from. *)
Definition mirror_of (seed : B256) (round first last count x : Z) : Z :=
  let y := first + last - x in
  if ((first <=? x) && (x <? first + count) || (last - count <? x) && (x <=? last))
     && bit_of seed round (Z.max x y)
  then y else x.

Lemma land_255 j : Z.land j 255 = j mod 256.
Proof. change 255 with (Z.ones 8). by rewrite Z.land_ones by lia. Qed.
Lemma land_7 j : Z.land j 7 = j mod 8.
Proof. change 7 with (Z.ones 3). by rewrite Z.land_ones by lia. Qed.

(** The source and the byte kept from position [k] are those of [j] once refreshed,
    when [j] is [k] or the position before it. *)
Lemma refresh_source seed round j k :
  0 <= j -> k = j \/ k = j + 1 ->
  (if Z.land j 255 =? 255 then source_for seed round j else source_for seed round k) =
  source_for seed round j.
Proof.
  intros Hj Hk. rewrite land_255. case_if; [done|]. b2p. unfold source_for.
  rewrite !Z.shiftr_div_pow2 by lia. change (2 ^ 8) with 256.
  destruct Hk as [->| ->]; [done|]. do 4 f_equal.
  symmetry. apply (Z.div_unique _ _ _ (j mod 256 + 1)).
  - pose proof (Z.mod_pos_bound j 256). lia.
  - pose proof (Z.div_mod j 256). lia.
Qed.

Lemma refresh_byte seed round j k :
  0 <= j -> k = j \/ k = j + 1 ->
  (if Z.land j 7 =? 7
   then index (E := anyhow) (source_for seed round j) (Z.to_nat (Z.shiftr (Z.land j 255) 3))
   else Ok (byte_of seed round k)) = Ok (byte_of seed round j).
Proof using HL.
  intros Hj Hk. rewrite land_255, land_7, Z.shiftr_div_pow2 by lia. change (2 ^ 3) with 8.
  case_if; [by apply index_lookup, source_byte|]. b2p. f_equal.
  destruct Hk as [->| ->]; [done|].
  pose proof (Z.mod_pos_bound j 256 ltac:(lia)). pose proof (Z.mod_pos_bound j 8 ltac:(lia)).
  pose proof (Z.div_mod j 256 ltac:(lia)) as D.
  pose proof (Z.div_mod (j mod 256) 8 ltac:(lia)) as D8.
  pose proof (Z.mod_pos_bound (j mod 256) 8 ltac:(lia)).
  assert (j mod 8 = (j mod 256) mod 8) as H8.
  { symmetry. apply (Z.mod_unique _ _ (32 * (j / 256) + j mod 256 / 8)); lia. }
  assert (j mod 256 <> 255) as Hne by (intros E; rewrite E in H8; change (255 mod 8) with 7 in H8; lia).
  assert ((j + 1) mod 256 = j mod 256 + 1) as E.
  { symmetry. apply (Z.mod_unique _ _ (j / 256)); lia. }
  assert ((j + 1) / 256 = j / 256) as E'.
  { symmetry. apply (Z.div_unique _ _ _ (j mod 256 + 1)); lia. }
  unfold byte_of, source_for. rewrite !Z.shiftr_div_pow2 by lia. change (2 ^ 8) with 256.
  rewrite E, E'. do 3 f_equal. symmetry.
  apply (Z.div_unique _ _ _ ((j mod 256) mod 8 + 1)); lia.
Qed.

Lemma range_snoc m : range 0 (Z.of_nat (S m)) = range 0 (Z.of_nat m) ++ [Z.of_nat m].
Proof.
  unfold range. by rewrite !Z.sub_0_r, seqZ_S.
Qed.

Lemma mirror_step_Ok seed round l i j k :
  0 <= i -> i < j -> j < Z.of_nat (length l) -> k = j \/ k = j + 1 ->
  mirror_step seed round (l, source_for seed round k, byte_of seed round k) (i, j) =
  Ok (if bit_of seed round j
      then <[Z.to_nat i := default 0 (l !! Z.to_nat j)]> (<[Z.to_nat j := default 0 (l !! Z.to_nat i)]> l)
      else l, source_for seed round j, byte_of seed round j).
Proof using HL.
  intros Hi Hij Hj Hk. unfold mirror_step. rewrite refresh_source by lia. cbn zeta.
  rewrite refresh_byte by lia. cbn -[Z.land Z.shiftr].
  assert ((Z.land (Z.shiftr (byte_of seed round j) (Z.land j 7)) 1 =? 1) = bit_of seed round j) as ->.
  { unfold bit_of. rewrite land_7, <-testbit_shiftr by (apply Z.mod_pos_bound; lia).
    change 1 with (Z.ones 1) at 1. by rewrite Z.land_ones by lia. }
  destruct (bit_of seed round j); [|done]. unfold swap.
  destruct (lookup_lt_is_Some_2 l (Z.to_nat i) ltac:(lia)) as [a Ha].
  destruct (lookup_lt_is_Some_2 l (Z.to_nat j) ltac:(lia)) as [b Hb].
  rewrite (index_lookup _ _ _ Ha). cbn. rewrite (index_lookup _ _ _ Hb). cbn.
  by rewrite Ha, Hb.
Qed.

Lemma pass_prefix seed round first last l m :
  0 <= first -> first + 2 * Z.of_nat m <= last + 1 -> 0 <= last < Z.of_nat (length l) ->
  exists l' k,
    foldM (mirror_step seed round) (l, source_for seed round last, byte_of seed round last)
      ((fun o => (first + o, last - o)) <$> range 0 (Z.of_nat m)) =
      Ok (l', source_for seed round k, byte_of seed round k) /\
    (k = last - Z.of_nat m \/ k = last - Z.of_nat m + 1) /\
    length l' = length l /\
    forall x, 0 <= x -> l' !! Z.to_nat x = l !! Z.to_nat (mirror_of seed round first last (Z.of_nat m) x).
Proof using HL.
  intros Hf. induction m as [|m IH]; intros Hm Hl.
  - exists l, last. split; [done|]. split; [lia|]. split; [done|]. intros x Hx.
    unfold mirror_of. case_if; [|done]. bool_cases; lia.
  - destruct IH as (l' & k & Hrun & Hk & Hlen & Hx); [lia|done|].
    rewrite range_snoc, fmap_app, foldM_app, Hrun. cbn -[mirror_step].
    set (i := first + Z.of_nat m). set (j := last - Z.of_nat m).
    rewrite mirror_step_Ok by lia. cbn. eexists _, j. split; [done|]. split; [lia|].
    split; [case_match; rewrite ?length_insert; done|].
    intros x Hx0.
    assert (forall y, 0 <= y -> l' !! Z.to_nat y = l !! Z.to_nat (mirror_of seed round first last (Z.of_nat m) y))
      as Hy by auto. clear Hx.
    assert (l' !! Z.to_nat i = l !! Z.to_nat i /\ l' !! Z.to_nat j = l !! Z.to_nat j) as [Hi Hj].
    { rewrite !Hy by lia. unfold mirror_of. split; case_if; bool_cases; (done || lia). }
    destruct (lookup_lt_is_Some_2 l (Z.to_nat i) ltac:(lia)) as [a Ha].
    destruct (lookup_lt_is_Some_2 l (Z.to_nat j) ltac:(lia)) as [b Hb].
    destruct (decide (x = i)) as [->|Hxi]; [|destruct (decide (x = j)) as [->|Hxj]].
    + unfold mirror_of. replace (first + last - i) with j by lia. rewrite Z.max_r by lia.
      replace ((first <=? i) && (i <? first + Z.of_nat (S m))) with true by
        (symmetry; apply andb_true_iff; rewrite Z.leb_le, Z.ltb_lt; lia). cbn.
      case_match; [|done]. rewrite list_lookup_insert_eq by (rewrite length_insert; lia).
      by rewrite Hj, Hb.
    + unfold mirror_of. replace (first + last - j) with i by lia. rewrite Z.max_l by lia.
      replace ((last - Z.of_nat (S m) <? j) && (j <=? last)) with true by
        (symmetry; apply andb_true_iff; rewrite Z.leb_le, Z.ltb_lt; lia).
      rewrite orb_true_r. cbn.
      case_match; [|done]. rewrite list_lookup_insert_ne by lia.
      rewrite list_lookup_insert_eq by lia. by rewrite Hi, Ha.
    + transitivity (l' !! Z.to_nat x).
      { case_match; [|done]. by rewrite !list_lookup_insert_ne by lia. }
      rewrite Hy by done. do 2 f_equal. unfold mirror_of.
      match goal with |- (if ?a && _ then _ else _) = (if ?b && _ then _ else _) =>
        replace a with b; [done|] end.
      apply eq_true_iff_eq. rewrite !orb_true_iff, !andb_true_iff, !Z.leb_le, !Z.ltb_lt. lia.
Qed.

Lemma mirror_pass_Ok seed round first last count l :
  0 <= first -> 0 <= count -> first + 2 * count <= last + 1 -> 0 <= last < Z.of_nat (length l) ->
  exists l', mirror_pass seed round first last count l = Ok l' /\ length l' = length l /\
    forall x, 0 <= x -> l' !! Z.to_nat x = l !! Z.to_nat (mirror_of seed round first last count x).
Proof using HL.
  intros Hf Hc Hm Hl. unfold mirror_pass.
  rewrite land_255, Z.shiftr_div_pow2 by lia. change (2 ^ 3) with 8.
  rewrite (index_lookup _ _ _ (source_byte seed round last ltac:(lia))). cbn -[mirror_step range].
  rewrite <-(Z2Nat.id count) in * by done.
  destruct (pass_prefix seed round first last l (Z.to_nat count)) as (l' & k & -> & _ & ? & ?); [done..|].
  cbn. by exists l'.
Qed.

(** Half of a number, for [lia]. *)
Lemma half_bounds a : 2 * (a / 2) <= a < 2 * (a / 2) + 2.
Proof. pose proof (Z.div_mod a 2). pose proof (Z.mod_pos_bound a 2). lia. Qed.

Lemma mirrors_sigma seed round n x :
  0 <= x < n ->
  let p := pivot_of n seed round in
  mirror_of seed round 0 p ((p + 1) / 2)
    (mirror_of seed round (p + 1) (n - 1) ((p + n + 1) / 2 - (p + 1)) x) = sigma n seed round x /\
  0 <= mirror_of seed round (p + 1) (n - 1) ((p + n + 1) / 2 - (p + 1)) x.
Proof.
  intros Hx p. pose proof (pivot_range n seed round ltac:(lia)) as Hp. fold p in Hp.
  pose proof (half_bounds (p + 1)) as Hh1. pose proof (half_bounds (p + n + 1)) as Hh2.
  unfold sigma, flip_of. fold p. destruct (x <=? p) eqn:E; b2p.
  - assert (mirror_of seed round (p + 1) (n - 1) ((p + n + 1) / 2 - (p + 1)) x = x) as ->.
    { unfold mirror_of. case_if; [|done]. bool_cases; lia. }
    split; [|lia]. unfold mirror_of. rewrite !Z.add_0_l.
    destruct (bit_of seed round (Z.max x (p - x))); [|by rewrite andb_false_r].
    rewrite andb_true_r. case_if; [done|]. bool_cases; lia.
  - set (y := mirror_of seed round (p + 1) (n - 1) _ x).
    assert (y = if bit_of seed round (Z.max x (p + n - x)) then p + n - x else x) as Hy.
    { unfold y, mirror_of. replace (p + 1 + (n - 1) - x) with (p + n - x) by lia.
      destruct (bit_of seed round (Z.max x (p + n - x))); [|by rewrite andb_false_r].
      rewrite andb_true_r. case_if; [done|]. bool_cases; lia. }
    assert (p < y) by (rewrite Hy; case_if; lia). split; [|lia]. rewrite <-Hy.
    unfold mirror_of. case_if; [|done]. bool_cases; lia.
Qed.

(** One round of the whole-list function. *)
Lemma list_round_Ok seed n l round :
  Z.of_nat (length l) = n -> 0 < n < 2 ^ 62 ->
  exists l', list_round seed n l round = Ok l' /\ length l' = length l /\
    forall x, 0 <= x < n -> l' !! Z.to_nat x = l !! Z.to_nat (sigma n seed round x).
Proof using HL.
  intros Hl Hn. unfold list_round, u64_rem.
  replace (n =? 0) with false by (symmetry; apply Z.eqb_neq; lia).
  fold (pivot_of n seed round). pose proof (pivot_range n seed round ltac:(lia)) as Hp.
  pose proof (mirrors_sigma seed round n) as Hs. cbn zeta in Hs.
  set (p := pivot_of n seed round) in *. cbn -[mirror_pass].
  u64_simpl. rewrite !Z.shiftr_div_pow2 by lia. change (2 ^ 1) with 2.
  pose proof (half_bounds (p + 1)) as Hh1. pose proof (half_bounds (p + n + 1)) as Hh2.
  destruct (mirror_pass_Ok seed round 0 p ((p + 1) / 2) l) as (l1 & -> & Hl1 & H1); [lia..|]. cbn -[mirror_pass].
  destruct (mirror_pass_Ok seed round (p + 1) (n - 1) ((p + n + 1) / 2 - (p + 1)) l1) as (l2 & -> & Hl2 & H2);
    [lia..|].
  exists l2. split; [done|]. split; [congruence|]. intros x Hx. destruct (Hs x Hx) as [<- ?].
  by rewrite H2, H1 by lia.
Qed.

Lemma list_rounds_Ok seed n rounds l :
  Z.of_nat (length l) = n -> 0 < n < 2 ^ 62 ->
  exists l', foldM (list_round seed n) l (reverse rounds) = Ok l' /\ length l' = length l /\
    forall x, 0 <= x < n ->
      l' !! Z.to_nat x = l !! Z.to_nat (foldl (fun i r => sigma n seed r i) x rounds).
Proof using HL.
  intros Hl Hn. induction rounds as [|r rounds IH].
  - exists l. done.
  - destruct IH as (l1 & Hrun & Hl1 & H1). rewrite reverse_cons, foldM_app, Hrun. cbn -[list_round].
    destruct (list_round_Ok seed n l1 r) as (l2 & -> & Hl2 & H2); [lia|done|]. cbn.
    exists l2. split; [done|]. split; [congruence|]. intros x Hx.
    rewrite H2, H1; [done|by apply sigma_range|done].
Qed.

Lemma compute_shuffled_list_spec seed l :
  Z.of_nat (length l) < 2 ^ 62 ->
  exists l', compute_shuffled_list l seed = Ok l' /\ length l' = length l /\
    forall i, (i < length l)%nat ->
      l' !! i = l !! Z.to_nat (shuffled (Z.of_nat (length l)) seed (Z.of_nat i)).
Proof using HL.
  intros Hl. unfold compute_shuffled_list. case_if; b2p.
  - exists l. split; [done|]. split; [done|]. intros i Hi.
    destruct (compute_shuffled_index_spec (Z.of_nat (length l)) seed (Z.of_nat i)) as [_ ?]; [lia..|].
    f_equal. lia.
  - destruct (list_rounds_Ok seed (Z.of_nat (length l)) (range 0 SHUFFLE_ROUND_COUNT) l)
      as (l' & Hrun & Hlen & Hx); [done|lia|].
    exists l'. split; [exact Hrun|]. split; [done|]. intros i Hi.
    rewrite <-(Nat2Z.id i) at 1. apply Hx. lia.
Qed.

(** ** The list is a permutation *)

Lemma shuffled_inj n seed i j :
  0 <= i < n -> 0 <= j < n -> shuffled n seed i = shuffled n seed j -> i = j.
Proof.
  unfold shuffled. generalize (range 0 SHUFFLE_ROUND_COUNT) as rounds. intros rounds.
  revert i j. induction rounds as [|r rounds IH]; intros i j Hi Hj; cbn; [done|].
  intros E. apply IH in E; [|by apply sigma_range..].
  rewrite <-(sigma_sigma n seed r i), <-(sigma_sigma n seed r j) by done. by rewrite E.
Qed.

Lemma shuffled_index_perm n seed :
  Z.of_nat n < 2 ^ 63 ->
  (fun i => Z.to_nat (shuffled (Z.of_nat n) seed (Z.of_nat i))) <$> seq 0 n ≡ₚ seq 0 n.
Proof using HL.
  intros Hn. apply submseteq_length_Permutation.
  - apply NoDup_submseteq.
    + apply NoDup_fmap_2_strong; [|apply NoDup_ListNoDup, seq_NoDup].
      intros i j Hi%elem_of_seq Hj%elem_of_seq E.
      destruct (compute_shuffled_index_spec (Z.of_nat n) seed (Z.of_nat i)) as [_ ?]; [lia..|].
      destruct (compute_shuffled_index_spec (Z.of_nat n) seed (Z.of_nat j)) as [_ ?]; [lia..|].
      apply Z2Nat.inj in E; [|lia..]. apply shuffled_inj in E; lia.
    + intros x (i & -> & Hi%elem_of_seq)%list_elem_of_fmap.
      destruct (compute_shuffled_index_spec (Z.of_nat n) seed (Z.of_nat i)) as [_ ?]; [lia..|].
      apply elem_of_seq. lia.
  - by rewrite length_fmap.
Qed.

(** A list read at a permutation of its positions is a permutation of it. *)
Lemma omap_lookup_seq {A} (l : list A) : omap (fun i => l !! i) (seq 0 (length l)) = l.
Proof.
  rewrite <-(reverse_involutive l). induction (reverse l) as [|a k IH]; [done|].
  rewrite reverse_cons, length_app. cbn. rewrite Nat.add_1_r, seq_S, omap_app. cbn.
  rewrite lookup_app_r, Nat.sub_diag by lia. cbn. f_equal.
  etrans; [|exact IH]. apply list_omap_ext, Forall_Forall2_diag, Forall_forall.
  intros i Hi%elem_of_seq. by rewrite lookup_app_l by lia.
Qed.

Lemma lookup_perm {A} (l l' : list A) (f : nat -> nat) :
  length l' = length l -> f <$> seq 0 (length l) ≡ₚ seq 0 (length l) ->
  (forall i, (i < length l)%nat -> l' !! i = l !! f i) -> l' ≡ₚ l.
Proof.
  intros Hlen Hf Hi. transitivity (omap (fun i => l !! i) (f <$> seq 0 (length l))).
  - replace (omap _ (f <$> _)) with (omap (fun i => l !! f i) (seq 0 (length l))).
    + rewrite <-(omap_lookup_seq l'), Hlen at 1.
      erewrite list_omap_ext; [done|]. apply Forall_Forall2_diag, Forall_forall.
      intros i Hs%elem_of_seq. apply Hi. lia.
    + clear. generalize (seq 0 (length l)) as k. induction k as [|i k IH]; cbn; [done|].
      destruct (l !! f i); [f_equal|]; exact IH.
  - by rewrite Hf, omap_lookup_seq.
Qed.

Lemma compute_shuffled_list_perm seed l l' :
  Z.of_nat (length l) < 2 ^ 62 -> compute_shuffled_list l seed = Ok l' -> l' ≡ₚ l.
Proof using HL.
  intros Hl Hrun. destruct (compute_shuffled_list_spec seed l Hl) as (k & Hk & Hlen & Hi).
  assert (k = l') as -> by congruence.
  eapply (lookup_perm l l'); [done|apply (shuffled_index_perm _ seed); lia|done].
Qed.

(** ** Committees are slices of the shuffled list *)

Definition sub_list {A} (l : list A) (a b : Z) : list A := take (Z.to_nat (b - a)) (drop (Z.to_nat a) l).

Lemma sub_list_app {A} (l : list A) a b c :
  0 <= a <= b -> b <= c -> sub_list l a b ++ sub_list l b c = sub_list l a c.
Proof.
  intros Hab Hbc. unfold sub_list.
  replace (Z.to_nat (c - a)) with (Z.to_nat (b - a) + Z.to_nat (c - b))%nat by lia.
  replace (Z.to_nat b) with (Z.to_nat a + Z.to_nat (b - a))%nat by lia.
  by rewrite <-drop_drop, take_take_drop.
Qed.

Lemma bound_le n k c : 0 <= n -> 0 < c -> 0 <= k <= c -> 0 <= n * k / c <= n.
Proof.
  intros. split; [apply Z.div_pos; nia|]. apply Z.div_le_upper_bound; nia.
Qed.

Lemma bound_mono n k k' c : 0 <= n -> 0 < c -> 0 <= k <= k' -> n * k / c <= n * k' / c.
Proof. intros. apply Z.div_le_mono; nia. Qed.

Lemma mapR_range_lookup {A} (f : Z -> res anyhow A) (l : list A) a b :
  0 <= a <= b -> b <= Z.of_nat (length l) ->
  (forall i, a <= i < b -> exists x, f i = Ok x /\ l !! Z.to_nat i = Some x) ->
  mapR f (range a b) = Ok (sub_list l a b).
Proof.
  intros Hab Hb Hf. apply mapR_Ok, Forall2_same_length_lookup_2.
  { unfold sub_list, range. rewrite length_take, length_drop, length_seqZ. lia. }
  intros i x y Hx Hy. unfold range in Hx. apply lookup_seqZ in Hx as [-> Hi].
  unfold sub_list in Hy. rewrite lookup_take_lt, lookup_drop in Hy by lia.
  destruct (Hf (a + Z.of_nat i)) as (z & -> & Hz); [lia|].
  replace (Z.to_nat (a + Z.of_nat i)) with (Z.to_nat a + i)%nat in Hz by lia. congruence.
Qed.

Lemma compute_committee_slice seed l l' idx count :
  Z.of_nat (length l) <= 2 ^ 40 -> 0 <= idx < count -> count < 2 ^ 20 ->
  compute_shuffled_list l seed = Ok l' ->
  compute_committee l seed idx count =
  Ok (sub_list l' (Z.of_nat (length l) * idx / count) (Z.of_nat (length l) * (idx + 1) / count)).
Proof using HL.
  intros Hl Hidx Hc Hrun. set (n := Z.of_nat (length l)) in *.
  destruct (compute_shuffled_list_spec seed l ltac:(lia)) as (k & Hk & Hlen & Hi).
  assert (k = l') as -> by congruence.
  unfold compute_committee, u64_div. fold n.
  replace (count =? 0) with false by (symmetry; apply Z.eqb_neq; lia). cbn -[range].
  assert (n * (idx + 1) < 2 ^ 60) by nia. assert (0 <= n * idx) by nia. u64_simpl.
  pose proof (bound_le n idx count). pose proof (bound_le n (idx + 1) count).
  pose proof (bound_mono n idx (idx + 1) count).
  apply mapR_range_lookup; [lia|lia|]. intros i Hir.
  destruct (compute_shuffled_index_spec n seed i) as [-> Hs]; [lia..|]. cbn.
  destruct (lookup_lt_is_Some_2 l (Z.to_nat (shuffled n seed i)) ltac:(lia)) as [x Hx].
  exists x. rewrite Hx, Hi, Z2Nat.id by lia. done.
Qed.

Lemma committee_count_bounds n : 1 <= committee_count_per_slot n <= 64.
Proof. unfold committee_count_per_slot, MAX_COMMITTEES_PER_SLOT. lia. Qed.

Lemma committee_in_shuffling_slice l slot idx :
  let n := Z.of_nat (length l) in
  let cps := committee_count_per_slot n in
  let k := slot mod SLOTS_PER_EPOCH * cps + idx in
  n <= 2 ^ 40 -> 0 <= idx < cps ->
  committee_in_shuffling l slot idx =
  Ok (sub_list l (n * k / (cps * SLOTS_PER_EPOCH)) (n * (k + 1) / (cps * SLOTS_PER_EPOCH))).
Proof.
  intros n cps k Hn Hidx. unfold committee_in_shuffling. fold n. fold cps.
  pose proof (committee_count_bounds n) as Hc. fold cps in Hc.
  pose proof (Z.mod_pos_bound slot SLOTS_PER_EPOCH eq_refl) as Hm.
  set (m := slot mod SLOTS_PER_EPOCH) in *. unfold SLOTS_PER_EPOCH in *.
  assert (0 <= m * cps <= 31 * cps) by nia. u64_simpl. fold k.
  assert (0 <= k < cps * 32) by lia. assert (0 <= n * k <= n * (k + 1)) by nia.
  assert (n * (k + 1) < 2 ^ 60) by nia. u64_simpl.
  unfold ensure. replace (k <? cps * 32) with true by (symmetry; apply Z.ltb_lt; lia). cbn -[slice].
  unfold slice. pose proof (bound_le n (k + 1) (cps * 32)).
  pose proof (bound_mono n k (k + 1) (cps * 32)).
  replace (_ && _) with true; [done|]. symmetry. apply andb_true_iff. rewrite !Z.leb_le. lia.
Qed.

(** Whatever the slot and the index, the slice is in range. *)
Lemma committee_in_shuffling_returns l slot idx :
  Z.of_nat (length l) <= 2 ^ 40 ->
  returns (committee_in_shuffling l slot idx) /\
  forall c, committee_in_shuffling l slot idx = Ok c -> c ⊆ l.
Proof.
  intros Hn. unfold committee_in_shuffling. set (n := Z.of_nat (length l)) in *.
  pose proof (committee_count_bounds n) as Hc. set (cps := committee_count_per_slot n) in *.
  unfold SLOTS_PER_EPOCH. rewrite (u64_mul_id cps 32) by u64_solve.
  set (k := u64_add _ _). assert (0 <= k) by (apply Z.mod_pos_bound; lia).
  unfold ensure. destruct (k <? cps * 32) eqn:E; cbn [mbind res_bind]; [|done]. b2p.
  assert (0 <= n * k <= n * (k + 1)) by nia. assert (n * (k + 1) < 2 ^ 60) by nia. u64_simpl.
  unfold slice. pose proof (bound_le n (k + 1) (cps * 32)). pose proof (bound_mono n k (k + 1) (cps * 32)).
  replace (_ && _) with true by (symmetry; apply andb_true_iff; rewrite !Z.leb_le; lia).
  split; [done|]. intros c [= <-] x Hx. apply list_elem_of_lookup in Hx as [i Hi].
  apply lookup_take_Some in Hi as [Hi _]. rewrite lookup_drop in Hi. by eapply list_elem_of_lookup_2.
Qed.

(** The slots and committee indices of the epoch that starts at [start_slot]. *)
Definition epoch_committees (cps start_slot : Z) : list (Z * Z) :=
  slot ← range start_slot (start_slot + SLOTS_PER_EPOCH);
  pair slot <$> range 0 cps.

(** The committees of slot [m] of the epoch, up to [j] of them. *)
Lemma slot_committees l start_slot m j :
  let n := Z.of_nat (length l) in
  let cps := committee_count_per_slot n in
  let c := cps * SLOTS_PER_EPOCH in
  n <= 2 ^ 40 -> start_slot mod SLOTS_PER_EPOCH = 0 -> 0 <= m < SLOTS_PER_EPOCH -> Z.of_nat j <= cps ->
  exists cs,
    mapR (fun d => committee_in_shuffling l d.1 d.2) (pair (start_slot + m) <$> range 0 (Z.of_nat j)) = Ok cs /\
    concat cs = sub_list l (n * (m * cps) / c) (n * (m * cps + Z.of_nat j) / c).
Proof.
  intros n cps c Hn Hs Hm Hj. pose proof (committee_count_bounds n) as Hc. fold cps in Hc.
  assert (0 < c) by (unfold c, SLOTS_PER_EPOCH; lia).
  induction j as [|j IH].
  - exists []. split; [done|]. unfold sub_list. by rewrite Z.add_0_r, Z.sub_diag.
  - destruct IH as (cs & Hrun & Hcs); [lia|]. rewrite range_snoc, fmap_app.
    pose proof (committee_in_shuffling_slice l (start_slot + m) (Z.of_nat j) Hn) as Hone.
    fold n in Hone. fold cps in Hone.
    replace ((start_slot + m) mod SLOTS_PER_EPOCH) with m in Hone.
    2:{ rewrite Z.add_mod, Hs, Z.add_0_l, Z.mod_mod by done. symmetry. by apply Z.mod_small. }
    eexists (cs ++ [_]). split.
    { rewrite mapR_app, Hrun. cbn -[committee_in_shuffling]. rewrite Hone by lia. done. }
    rewrite concat_app, Hcs. cbn. rewrite app_nil_r. fold c.
    replace (m * cps + Z.of_nat (S j)) with (m * cps + Z.of_nat j + 1) by lia.
    assert (0 <= n) by lia. assert (0 <= m * cps) by nia.
    apply sub_list_app; [split; [apply Z.div_pos; nia|]|]; apply bound_mono; lia.
Qed.

Lemma epoch_committees_concat l start_slot :
  let n := Z.of_nat (length l) in
  let cps := committee_count_per_slot n in
  n <= 2 ^ 40 -> start_slot mod SLOTS_PER_EPOCH = 0 ->
  exists cs,
    mapR (fun d => committee_in_shuffling l d.1 d.2) (epoch_committees cps start_slot) = Ok cs /\
    concat cs = l.
Proof.
  intros n cps Hn Hs. pose proof (committee_count_bounds n) as Hc. fold cps in Hc.
  set (c := cps * SLOTS_PER_EPOCH). assert (0 < c) by (unfold c, SLOTS_PER_EPOCH; lia).
  assert (0 <= n) by lia.
  assert (forall m : nat, Z.of_nat m <= SLOTS_PER_EPOCH -> exists cs,
    mapR (fun d => committee_in_shuffling l d.1 d.2)
      (range start_slot (start_slot + Z.of_nat m) ≫= fun slot => pair slot <$> range 0 cps) = Ok cs /\
    concat cs = sub_list l 0 (n * (Z.of_nat m * cps) / c)) as Hall.
  { induction m as [|m IH]; intros Hm.
    - exists []. unfold range. rewrite Z.add_0_r, Z.sub_diag. split; [done|].
      rewrite Z.mul_0_l, Z.mul_0_r, Zdiv_0_l. done.
    - destruct IH as (cs & Hrun & Hcs); [lia|].
      destruct (slot_committees l start_slot (Z.of_nat m) (Z.to_nat cps)) as (cs' & Hrun' & Hcs');
        [done|done|lia|fold n cps; lia|]. rewrite Z2Nat.id in Hrun', Hcs' by lia.
      exists (cs ++ cs'). split.
      + replace (range start_slot (start_slot + Z.of_nat (S m)))
          with (range start_slot (start_slot + Z.of_nat m) ++ [start_slot + Z.of_nat m]).
        2:{ unfold range. rewrite !Z.add_simpl_l. by rewrite seqZ_S. }
        rewrite bind_app. cbn -[range]. rewrite app_nil_r, mapR_app. by rewrite Hrun, Hrun'.
      + rewrite concat_app, Hcs, Hcs'. fold n cps c.
        replace (Z.of_nat (S m) * cps) with (Z.of_nat m * cps + cps) by lia.
        assert (0 <= Z.of_nat m * cps) by nia.
        apply sub_list_app; [split; [lia|apply Z.div_pos; nia]|apply bound_mono; lia]. }
  destruct (Hall (Z.to_nat SLOTS_PER_EPOCH)) as (cs & Hrun & Hcs); [done|].
  exists cs. split; [exact Hrun|]. rewrite Hcs. change (Z.of_nat (Z.to_nat SLOTS_PER_EPOCH)) with SLOTS_PER_EPOCH.
  replace (n * (SLOTS_PER_EPOCH * cps)) with (n * c) by (unfold c; lia).
  rewrite Z.div_mul by lia. unfold sub_list. cbn. rewrite Z.sub_0_r. unfold n.
  by rewrite Nat2Z.id, firstn_all.
Qed.
End shuffling.
