(* ===== verification/Merkle.v ===== *)
(** * Merkle trees and branches

    [crates/crypto/merkle/src]: a tree is stored by generalized index, node [g] above
    nodes [2 * g] and [2 * g + 1], the root at 1 and the leaves from [2 ^ depth] on. *)

From stdpp Require Import strings.
From S2P Require Import Prelude Bytes Shuffling.

Definition ZERO : B256 := replicate 32 0.

(** [1 << n] on a 64-bit integer: the shift amount wraps. *)
Definition one_shl (n : Z) : Z := wrap64 (Z.shiftl 1 (n mod 64)).

Definition get_generalized_index_bit (index position : Z) : bool := 0 <? Z.land index (one_shl position).
Definition generalized_index_sibling (g : Z) : Z := Z.lxor g 1.
Definition generalized_index_child (g : Z) (right_side : bool) : Z :=
  (g * 2 + (if right_side then 1 else 0))%u64.
Definition generalized_index_parent (g : Z) : Z := g / 2.
Definition generalized_index_from_leaf_index (leaf_index depth : Z) : Z := (leaf_index + one_shl depth)%u64.

Section merkle.
Context {H : Sha256}.

(** [hash32_concat]: the hash of two strings one after the other. *)
Definition hash_concat (h1 h2 : B256) : B256 := hash (h1 ++ h2).

Definition hash_node (tree : list B256) (i : nat) : res anyhow (list B256) :=
  left ← index tree (i * 2);
  right ← index tree (i * 2 + 1);
  set_index tree i (hash_concat left right).

Definition merkle_tree (leaves : list B256) (depth : Z) : res anyhow (list B256) :=
  let num_of_leaves := length leaves in
  let bottom_length := Z.to_nat (one_shl depth) in
  ensure (num_of_leaves <=? bottom_length)%nat
    "Number of leaves is greater than the bottom length (depth too small)"%string;;
  let tree := replicate bottom_length ZERO ++ leaves ++ replicate (bottom_length - num_of_leaves) ZERO in
  foldM hash_node tree (reverse (seq 1 (bottom_length - 1))).

(** The loop runs [current_depth] down to 0 from the root. *)
Fixpoint proof_loop (tree : list B256) (i : Z) (current_depth : nat) (current_index : Z)
    (proof : list B256) : res anyhow (list B256) :=
  match current_depth with
  | O => Ok proof
  | S d =>
      let left_child_index := generalized_index_child current_index false in
      let right_child_index := generalized_index_child current_index true in
      if get_generalized_index_bit i (Z.of_nat d) then
        node ← index tree (Z.to_nat left_child_index);
        proof_loop tree i d right_child_index (proof ++ [node])
      else
        node ← index tree (Z.to_nat right_child_index);
        proof_loop tree i d left_child_index (proof ++ [node])
  end.

Definition generate_proof (tree : list B256) (i depth : Z) : res anyhow (list B256) :=
  let bottom_length := one_shl depth in
  ensure (i <? bottom_length) "Index out of bounds"%string;;
  proof ← proof_loop tree i (Z.to_nat depth) 1 [];
  Ok (reverse proof).

Definition get_root_from_merkle_branch (leaf : B256) (branch : list B256) (depth i : Z) : res anyhow B256 :=
  foldM (fun value k =>
    node ← index branch (Z.to_nat k);
    Ok (if get_generalized_index_bit i k then hash_concat node value else hash_concat value node))
    leaf (range 0 depth).

Definition is_valid_merkle_branch (leaf : B256) (branch : list B256) (depth i : Z) (root : B256) :
    res anyhow bool :=
  if negb (Z.of_nat (length branch) =? depth) then Ok false
  else r ← get_root_from_merkle_branch leaf branch depth i; Ok (bool_decide (root = r)).

(** ** The tree *)

(** Every inner node is the hash of its children. *)
Definition tree_ok (tree : list B256) (depth : nat) : Prop :=
  length tree = (2 * 2 ^ depth)%nat /\
  forall g, (1 <= g < 2 ^ depth)%nat ->
    exists l r : B256, tree !! (g * 2)%nat = Some l /\ tree !! (g * 2 + 1)%nat = Some r /\
                tree !! g = Some (hash_concat l r).

Lemma one_shl_pow d : (d < 64)%nat -> one_shl (Z.of_nat d) = 2 ^ Z.of_nat d.
Proof.
  intros Hd. unfold one_shl. rewrite Z.mod_small, Z.shiftl_1_l by lia. apply wrap64_id.
  split; [apply Z.pow_nonneg; lia|]. apply Z.pow_lt_mono_r; lia.
Qed.

Lemma pow_nat d : Z.to_nat (2 ^ Z.of_nat d) = (2 ^ d)%nat.
Proof. rewrite <-(Nat2Z.id (2 ^ d)). f_equal. by rewrite Nat2Z.inj_pow. Qed.

(** After the inner nodes down to [k] are hashed. *)
Lemma hash_nodes tree n k :
  length tree = (2 * n)%nat -> (1 <= k <= n)%nat ->
  exists tree', foldM hash_node tree (reverse (seq k (n - k))) = Ok tree' /\
    length tree' = length tree /\
    (forall g, (g < k \/ n <= g)%nat -> tree' !! g = tree !! g) /\
    (forall g, (k <= g < n)%nat ->
      exists l r : B256, tree' !! (g * 2)%nat = Some l /\ tree' !! (g * 2 + 1)%nat = Some r /\
                  tree' !! g = Some (hash_concat l r)).
Proof.
  intros Hlen Hk. remember (n - k)%nat as m eqn:Hm. revert k Hk Hm.
  induction m as [|m IH]; intros k Hk Hm.
  - exists tree. split; [done|]. split; [done|]. split; [done|]. lia.
  - destruct (IH (S k)) as (t & Hrun & Hl & Hout & Hin); [lia..|].
    cbn [seq]. rewrite reverse_cons, foldM_app, Hrun. cbn [mbind res_bind foldM].
    destruct (lookup_lt_is_Some_2 t (k * 2) ltac:(lia)) as [l Hl2].
    destruct (lookup_lt_is_Some_2 t (k * 2 + 1) ltac:(lia)) as [r Hr2].
    unfold hash_node. rewrite (index_lookup _ _ _ Hl2). cbn [mbind res_bind].
    rewrite (index_lookup _ _ _ Hr2). cbn [mbind res_bind].
    assert (set_index (E := anyhow) t k (hash_concat l r) = Ok (<[k := hash_concat l r]> t)) as ->
      by (apply set_index_Ok; split; [lia|done]).
    eexists. split; [done|]. split; [by rewrite length_insert|]. split.
    + intros g Hg. rewrite list_lookup_insert_ne by lia. apply Hout. lia.
    + intros g Hg. destruct (decide (g = k)) as [->|Hgk].
      * exists l, r. rewrite !list_lookup_insert_ne by lia. split; [done|]. split; [done|].
        apply list_lookup_insert_eq. lia.
      * destruct (Hin g) as (l' & r' & ? & ? & ?); [lia|]. exists l', r'.
        by rewrite !list_lookup_insert_ne by lia.
Qed.

Lemma merkle_tree_Ok leaves (d : nat) :
  (d < 63)%nat -> (length leaves <= 2 ^ d)%nat ->
  exists tree, merkle_tree leaves (Z.of_nat d) = Ok tree /\ tree_ok tree d /\
    forall i, (i < 2 ^ d)%nat -> tree !! (2 ^ d + i)%nat = Some (default ZERO (leaves !! i)).
Proof.
  intros Hd Hn. unfold merkle_tree. rewrite one_shl_pow, pow_nat by lia.
  unfold ensure. replace (length leaves <=? 2 ^ d)%nat with true by (symmetry; by apply Nat.leb_le).
  cbn [mbind res_bind]. set (n := (2 ^ d)%nat) in *.
  set (tree := replicate n ZERO ++ leaves ++ replicate (n - length leaves) ZERO).
  assert (length tree = (2 * n)%nat) as Hlen.
  { unfold tree. rewrite !length_app, !length_replicate. lia. }
  assert (1 <= n)%nat by (pose proof (Nat.pow_nonzero 2 d); lia).
  destruct (hash_nodes tree n 1 Hlen) as (t & Hrun & Hl & Hout & Hin); [lia|].
  exists t. split; [exact Hrun|]. split; [split; [lia|exact Hin]|].
  intros i Hi. rewrite Hout by lia. unfold tree.
  rewrite lookup_app_r by (rewrite length_replicate; lia). rewrite length_replicate.
  replace (n + i - n)%nat with i by lia.
  destruct (decide (i < length leaves)%nat) as [Hil|Hil].
  - rewrite lookup_app_l by done. apply lookup_lt_is_Some_2 in Hil as [x ->]. done.
  - rewrite lookup_app_r, lookup_replicate_2 by lia. by rewrite (lookup_ge_None_2 leaves) by lia.
Qed.

(** ** Branches *)

Lemma index_bit i k : (k < 64)%nat -> get_generalized_index_bit i (Z.of_nat k) = Z.testbit i (Z.of_nat k).
Proof.
  intros Hk. unfold get_generalized_index_bit. rewrite one_shl_pow by done.
  destruct (Z.testbit i (Z.of_nat k)) eqn:E.
  - apply Z.ltb_lt. assert (0 <= Z.land i (2 ^ Z.of_nat k)) by (apply Z.land_nonneg; right; lia).
    destruct (decide (Z.land i (2 ^ Z.of_nat k) = 0)) as [E0|]; [|lia].
    assert (Z.testbit (Z.land i (2 ^ Z.of_nat k)) (Z.of_nat k) = false) as Hb by (by rewrite E0, Z.bits_0).
    rewrite Z.land_spec, E, Z.pow2_bits_true in Hb by lia. done.
  - apply Z.ltb_ge. rewrite Z.eq_le_incl; [done|]. apply Z.bits_inj'. intros n Hn.
    rewrite Z.land_spec, Z.bits_0. destruct (decide (n = Z.of_nat k)) as [->|Hne]; [by rewrite E|].
    rewrite Z.pow2_bits_false by lia. apply andb_false_r.
Qed.

(** The ancestor of leaf [i] that is [k] levels above the leaves. *)
Definition anc (d : nat) (i : Z) (k : nat) : Z := Z.shiftr (2 ^ Z.of_nat d + i) (Z.of_nat k).

Lemma anc_step d i k : 0 <= i < 2 ^ Z.of_nat d -> (k < d)%nat ->
  anc d i k = 2 * anc d i (S k) + Z.b2z (Z.testbit i (Z.of_nat k)).
Proof.
  intros Hi Hk. unfold anc. set (x := 2 ^ Z.of_nat d + i).
  assert (Z.testbit i (Z.of_nat k) = Z.testbit x (Z.of_nat k)) as ->.
  { unfold x. rewrite <-(Z.mod_pow2_bits_low (2 ^ Z.of_nat d + i) (Z.of_nat d)) by lia.
    rewrite <-(Z.mod_pow2_bits_low i (Z.of_nat d)) by lia. f_equal.
    rewrite <-Z.add_mod_idemp_l by (apply Z.pow_nonzero; lia). by rewrite Z_mod_same_full, Z.add_0_l. }
  rewrite Nat2Z.inj_succ, <-Z.add_1_r, <-Z.shiftr_shiftr by lia.
  rewrite <-(Z.div2_spec (Z.shiftr x (Z.of_nat k))).
  rewrite (Z.div2_odd (Z.shiftr x (Z.of_nat k))) at 1. do 2 f_equal.
  rewrite <-Z.bit0_odd, Z.shiftr_spec by lia. done.
Qed.

Lemma anc_bounds d i k : 0 <= i < 2 ^ Z.of_nat d -> (k <= d)%nat ->
  2 ^ Z.of_nat (d - k) <= anc d i k < 2 * 2 ^ Z.of_nat (d - k).
Proof.
  intros Hi Hk. unfold anc. rewrite Z.shiftr_div_pow2 by lia.
  assert (2 ^ Z.of_nat d = 2 ^ Z.of_nat (d - k) * 2 ^ Z.of_nat k) as E.
  { rewrite <-Z.pow_add_r by lia. f_equal. lia. }
  assert (0 < 2 ^ Z.of_nat k) by (apply Z.pow_pos_nonneg; lia).
  split; [apply Z.div_le_lower_bound; nia|apply Z.div_lt_upper_bound; nia].
Qed.

Lemma anc_bit d i k : 0 <= i < 2 ^ Z.of_nat d -> (k < d)%nat ->
  1 <= anc d i (S k) < 2 ^ Z.of_nat d.
Proof.
  intros Hi Hk. pose proof (anc_bounds d i (S k) Hi ltac:(lia)) as Hb.
  assert (0 < 2 ^ Z.of_nat (d - S k)) by (apply Z.pow_pos_nonneg; lia).
  assert (2 * 2 ^ Z.of_nat (d - S k) <= 2 ^ Z.of_nat d).
  { rewrite <-Z.pow_succ_r by lia. apply Z.pow_le_mono_r; lia. }
  lia.
Qed.

Lemma anc_root d i : 0 <= i < 2 ^ Z.of_nat d -> anc d i d = 1.
Proof. intros Hi. pose proof (anc_bounds d i d Hi ltac:(lia)) as Hb. rewrite Nat.sub_diag in Hb. lia. Qed.

Lemma anc_leaf d i : anc d i 0 = 2 ^ Z.of_nat d + i.
Proof. apply Z.shiftr_0_r. Qed.

(** The sibling of the ancestor at level [k], and what hashing the two gives. *)
Definition sibling_at (tree : list B256) (d : nat) (i : Z) (k : nat) : B256 :=
  default ZERO (tree !! Z.to_nat (2 * anc d i (S k) + 1 - Z.b2z (Z.testbit i (Z.of_nat k)))).
Definition node_at (tree : list B256) (d : nat) (i : Z) (k : nat) : B256 :=
  default ZERO (tree !! Z.to_nat (anc d i k)).

Lemma node_hash tree d i k : tree_ok tree d -> 0 <= i < 2 ^ Z.of_nat d -> (k < d)%nat ->
  node_at tree d i (S k) =
    (if Z.testbit i (Z.of_nat k) then hash_concat (sibling_at tree d i k) (node_at tree d i k)
     else hash_concat (node_at tree d i k) (sibling_at tree d i k)) /\
  tree !! Z.to_nat (2 * anc d i (S k) + 1 - Z.b2z (Z.testbit i (Z.of_nat k))) = Some (sibling_at tree d i k).
Proof.
  intros [_ Ht] Hi Hk. pose proof (anc_bit d i k Hi Hk) as Hb.
  destruct (Ht (Z.to_nat (anc d i (S k)))) as (l & r & Hl & Hr & Hg).
  { rewrite <-pow_nat. lia. }
  unfold node_at, sibling_at. rewrite (anc_step d i k) by done. rewrite Hg.
  replace (Z.to_nat (anc d i (S k)) * 2)%nat with (Z.to_nat (2 * anc d i (S k))) in Hl by lia.
  replace (Z.to_nat (anc d i (S k)) * 2 + 1)%nat with (Z.to_nat (2 * anc d i (S k) + 1)) in Hr by lia.
  destruct (Z.testbit i (Z.of_nat k)); cbn [Z.b2z]; rewrite ?Z.add_simpl_r, ?Z.add_0_r, ?Z.sub_0_r;
    rewrite Hl, Hr; done.
Qed.

Lemma proof_loop_Ok tree d i k acc :
  tree_ok tree d -> (d < 62)%nat -> 0 <= i < 2 ^ Z.of_nat d -> (k <= d)%nat ->
  proof_loop tree i k (anc d i k) acc = Ok (acc ++ (sibling_at tree d i <$> reverse (seq 0 k))).
Proof.
  intros Ht Hd Hi. revert acc. induction k as [|k IH]; intros acc Hk.
  - cbn. by rewrite app_nil_r.
  - cbn [proof_loop]. rewrite index_bit by lia.
    pose proof (anc_bit d i k Hi ltac:(lia)) as Hb.
    assert (2 ^ Z.of_nat d < 2 ^ 62) by (apply Z.pow_lt_mono_r; lia).
    unfold generalized_index_child. u64_simpl.
    pose proof (anc_step d i k Hi ltac:(lia)) as Hstep.
    destruct (node_hash tree d i k Ht Hi ltac:(lia)) as [_ Hs].
    rewrite seq_S, reverse_app, fmap_app. cbn [reverse rev_append fmap list_fmap app].
    destruct (Z.testbit i (Z.of_nat k)); cbn [Z.b2z] in *.
    + replace (anc d i (S k) * 2 + 0) with (2 * anc d i (S k) + 1 - 1) by lia.
      rewrite (index_lookup _ _ _ Hs). cbn [mbind res_bind].
      replace (anc d i (S k) * 2 + 1) with (anc d i k) by lia.
      rewrite IH by lia. by rewrite <-app_assoc.
    + replace (anc d i (S k) * 2 + 1) with (2 * anc d i (S k) + 1 - 0) by lia.
      rewrite (index_lookup _ _ _ Hs). cbn [mbind res_bind].
      replace (anc d i (S k) * 2 + 0) with (anc d i k) by lia.
      rewrite IH by lia. by rewrite <-app_assoc.
Qed.

Lemma generate_proof_Ok tree d i :
  tree_ok tree d -> (d < 62)%nat -> 0 <= i < 2 ^ Z.of_nat d ->
  generate_proof tree i (Z.of_nat d) = Ok (sibling_at tree d i <$> seq 0 d).
Proof.
  intros Ht Hd Hi. unfold generate_proof, ensure. rewrite one_shl_pow by lia.
  replace (i <? 2 ^ Z.of_nat d) with true by (symmetry; apply Z.ltb_lt; lia).
  cbn [mbind res_bind]. rewrite Nat2Z.id, <-(anc_root d i Hi), proof_loop_Ok by done.
  cbn [mbind res_bind app]. by rewrite <-fmap_reverse, reverse_involutive.
Qed.

Lemma branch_prefix tree d i k :
  tree_ok tree d -> (d < 62)%nat -> 0 <= i < 2 ^ Z.of_nat d -> (k <= d)%nat ->
  get_root_from_merkle_branch (node_at tree d i 0) (sibling_at tree d i <$> seq 0 d) (Z.of_nat k) i =
  Ok (node_at tree d i k).
Proof.
  intros Ht Hd Hi. unfold get_root_from_merkle_branch.
  induction k as [|k IH]; intros Hk; [done|].
  rewrite range_snoc, foldM_app, IH by lia. cbn [mbind res_bind foldM].
  rewrite Nat2Z.id, index_bit by lia.
  rewrite (index_lookup _ _ (sibling_at tree d i k)).
  2:{ rewrite list_lookup_fmap, lookup_seq_lt by lia. done. }
  cbn [mbind res_bind]. destruct (node_hash tree d i k Ht Hi ltac:(lia)) as [-> _].
  by destruct (Z.testbit i (Z.of_nat k)).
Qed.

(** The branch of a leaf verifies against the root. *)
Lemma branch_valid tree d i :
  tree_ok tree d -> (d < 62)%nat -> 0 <= i < 2 ^ Z.of_nat d ->
  is_valid_merkle_branch (node_at tree d i 0) (sibling_at tree d i <$> seq 0 d) (Z.of_nat d) i
    (node_at tree d i d) = Ok true.
Proof.
  intros Ht Hd Hi. unfold is_valid_merkle_branch. rewrite length_fmap, length_seq, Z.eqb_refl.
  cbn [negb]. rewrite branch_prefix by done. cbn. by rewrite bool_decide_eq_true_2.
Qed.

(** The string hashed at level [k] of a branch. *)
Definition hashed_at (leaf : B256) (branch : list B256) (i : Z) (k : nat) : option (list Z) :=
  match get_root_from_merkle_branch leaf branch (Z.of_nat k) i, branch !! k with
  | Ok value, Some node => Some (if get_generalized_index_bit i (Z.of_nat k) then node ++ value else value ++ node)
  | _, _ => None
  end.

Lemma hashed_at_Some leaf branch i k value node :
  get_root_from_merkle_branch leaf branch (Z.of_nat k) i = Ok value -> branch !! k = Some node ->
  hashed_at leaf branch i k = Some (if get_generalized_index_bit i (Z.of_nat k) then node ++ value else value ++ node).
Proof. intros E1 E2. unfold hashed_at. by rewrite E1, E2. Qed.

(** The two branches themselves show a collision: at some level they hash different
    strings to the same node. *)
Definition branches_collide (leaf1 : B256) (branch1 : list B256) (leaf2 : B256) (branch2 : list B256) (i : Z) : Prop :=
  exists k m1 m2, hashed_at leaf1 branch1 i k = Some m1 /\ hashed_at leaf2 branch2 i k = Some m2 /\
    m1 <> m2 /\ hash m1 = hash m2.

Definition word32 (w : B256) : Prop := length w = 32%nat.

Lemma branch_word leaf branch (k : nat) i root : (forall m, word32 (hash m)) -> word32 leaf ->
  get_root_from_merkle_branch leaf branch (Z.of_nat k) i = Ok root -> word32 root.
Proof.
  intros Hh Hl. unfold get_root_from_merkle_branch. destruct k as [|k]; [by intros [= <-]|].
  rewrite range_snoc, foldM_app. cbn [foldM]. intros (v & _ & E)%bind_Ok. apply bind_Ok in E as (r & (n & _ & [= <-])%bind_Ok & [= <-]).
  destruct (get_generalized_index_bit _ _); apply Hh.
Qed.

(** Branches to the same root at the same index start from the same leaf, or exhibit a
    collision. *)
Lemma branch_binding leaf1 leaf2 branch1 branch2 (k : nat) i root :
  (forall m, word32 (hash m)) -> word32 leaf1 -> word32 leaf2 -> Forall word32 branch1 -> Forall word32 branch2 ->
  get_root_from_merkle_branch leaf1 branch1 (Z.of_nat k) i = Ok root ->
  get_root_from_merkle_branch leaf2 branch2 (Z.of_nat k) i = Ok root ->
  leaf1 = leaf2 \/ branches_collide leaf1 branch1 leaf2 branch2 i.
Proof.
  intros Hh L1 L2 Hb1 Hb2. revert root. induction k as [|k IH]; intros root.
  - intros [= <-] [= <-]. by left.
  - unfold get_root_from_merkle_branch. rewrite range_snoc, !foldM_app.
    intros (v1 & Hv1 & E1)%bind_Ok (v2 & Hv2 & E2)%bind_Ok.
    cbn [foldM] in E1, E2. apply bind_Ok in E1 as (r1 & (n1 & N1%index_Ok & R1)%bind_Ok & [= ->]).
    apply bind_Ok in E2 as (r2 & (n2 & N2%index_Ok & R2)%bind_Ok & [= ->]). rewrite Nat2Z.id in N1, N2.
    destruct (decide (v1 = v2)) as [->|Hne]; [by eapply IH|]. right. exists k.
    pose proof (branch_word _ _ _ _ _ Hh L1 Hv1) as W1. pose proof (branch_word _ _ _ _ _ Hh L2 Hv2) as W2.
    rewrite Forall_forall in Hb1, Hb2. pose proof (Hb1 _ (list_elem_of_lookup_2 _ _ _ N1)) as W3.
    pose proof (Hb2 _ (list_elem_of_lookup_2 _ _ _ N2)) as W4. unfold word32 in *.
    eexists _, _. split; [exact (hashed_at_Some _ _ _ _ _ _ Hv1 N1)|]. split; [exact (hashed_at_Some _ _ _ _ _ _ Hv2 N2)|].
    destruct (get_generalized_index_bit i (Z.of_nat k)); split; try (unfold hash_concat in *; congruence).
    + intros [_ ?]%app_inj_1; [done|congruence].
    + intros [? _]%app_inj_1; [done|congruence].
Qed.

(** The nodes of a tree over words are words. *)
Lemma siblings_word leaves tree d i :
  (forall m, word32 (hash m)) -> Forall word32 leaves -> (d < 63)%nat -> (length leaves <= 2 ^ d)%nat ->
  0 <= i < 2 ^ Z.of_nat d -> merkle_tree leaves (Z.of_nat d) = Ok tree ->
  Forall word32 (sibling_at tree d i <$> seq 0 d).
Proof.
  intros Hh Hl Hd Hlen Hi E. destruct (merkle_tree_Ok leaves d Hd Hlen) as (tree' & E' & [Htl Ht] & Hleaf).
  rewrite E in E'. injection E' as <-. apply Forall_fmap, Forall_forall. intros k [_ Hk]%elem_of_seq. cbn.
  unfold sibling_at. pose proof (anc_bounds d i (S k) Hi ltac:(lia)) as Ha.
  pose proof (anc_bit d i k Hi ltac:(lia)) as Hb.
  set (g := Z.to_nat (2 * anc d i (S k) + 1 - Z.b2z (Z.testbit i (Z.of_nat k)))).
  assert (1 <= g)%nat as Hg by (unfold g; destruct (Z.testbit i (Z.of_nat k)); cbn [Z.b2z] in *; lia).
  destruct (decide (g < 2 ^ d)%nat) as [Hlt|Hge].
  - destruct (Ht g ltac:(lia)) as (l & r & _ & _ & ->). apply Hh.
  - destruct (tree !! g) as [w|] eqn:Ew; [|by apply length_replicate].
    pose proof (lookup_lt_Some _ _ _ Ew) as Hw. rewrite Htl in Hw.
    replace g with (2 ^ d + (g - 2 ^ d))%nat in Ew by lia. rewrite Hleaf in Ew by lia. injection Ew as <-.
    destruct (leaves !! (g - 2 ^ d)%nat) as [w|] eqn:El; [|by apply length_replicate].
    rewrite Forall_forall in Hl. eapply Hl, list_elem_of_lookup_2, El.
Qed.
End merkle.
