(* ===== verification/BeaconTypes.v ===== *)
(** * Data of the beacon chain

    The types of [crates/common/consensus/misc/src] and
    [crates/common/consensus/beacon/src] the state transition works on, with the
    source's fields.  The fields of [BeaconState] and [Validator] keep their names;
    those of the other records carry a prefix.  A [VariableList], [FixedVector],
    [ChunkedList], [BitVector] or [BitList] is the list of its elements; what the
    [ssz_types] crate refuses is in the class [SszVec].  The caches of a state are
    not part of its consensus fields. *)

From stdpp Require Import strings.
From S2P Require Import Prelude Bytes Shuffling.

Definition B32 : Type := list Z.
Definition Address : Type := list Z.
Definition B256_ZERO : B256 := replicate 32 0.

Record PublicKey : Type := mkPublicKey { pk_inner : list Z }.
Record BLSSignature : Type := mkBLSSignature { sig_inner : list Z }.

#[global] Instance PublicKey_eq_dec : EqDecision PublicKey.
Proof. solve_decision. Defined.
#[global] Instance BLSSignature_eq_dec : EqDecision BLSSignature.
Proof. solve_decision. Defined.
#[global] Instance PublicKey_countable : Countable PublicKey.
Proof. apply (inj_countable' pk_inner mkPublicKey). by intros []. Defined.

(** [BLSSignature::infinity]. *)
Definition infinity : BLSSignature := mkBLSSignature (192 :: replicate 95 0).

Record Checkpoint : Type := mkCheckpoint { cp_epoch : Z; cp_root : B256 }.
#[global] Instance Checkpoint_eq_dec : EqDecision Checkpoint.
Proof. solve_decision. Defined.

Record Fork : Type := mkFork { previous_version : B32; current_version : B32; fork_epoch : Z }.

Record BeaconBlockHeader : Type := mkBeaconBlockHeader {
  bh_slot : Z;
  bh_proposer_index : Z;
  bh_parent_root : B256;
  bh_state_root : B256;
  bh_body_root : B256;
}.
#[global] Instance BeaconBlockHeader_eq_dec : EqDecision BeaconBlockHeader.
Proof. solve_decision. Defined.
Record SignedBeaconBlockHeader : Type := mkSignedBeaconBlockHeader {
  sbh_message : BeaconBlockHeader;
  sbh_signature : BLSSignature;
}.

Record Eth1Data : Type := mkEth1Data { deposit_root : B256; deposit_count : Z; e1_block_hash : B256 }.
#[global] Instance Eth1Data_eq_dec : EqDecision Eth1Data.
Proof. solve_decision. Defined.

Record Validator : Type := mkValidator {
  public_key : PublicKey;
  withdrawal_credentials : B256;
  effective_balance : Z;
  slashed : bool;
  activation_eligibility_epoch : Z;
  activation_epoch : Z;
  exit_epoch : Z;
  withdrawable_epoch : Z;
}.

Record SyncCommittee : Type := mkSyncCommittee {
  sc_public_keys : list PublicKey;
  sc_aggregate_public_key : PublicKey;
}.
Record SyncAggregate : Type := mkSyncAggregate {
  sync_committee_bits : list bool;
  sync_committee_signature : BLSSignature;
}.

Record HistoricalSummary : Type := mkHistoricalSummary {
  block_summary_root : B256;
  state_summary_root : B256;
}.

Record PendingDeposit : Type := mkPendingDeposit {
  pd_public_key : PublicKey;
  pd_withdrawal_credentials : B256;
  pd_amount : Z;
  pd_signature : BLSSignature;
  pd_slot : Z;
}.
Record PendingPartialWithdrawal : Type := mkPendingPartialWithdrawal {
  ppw_validator_index : Z;
  ppw_amount : Z;
  ppw_withdrawable_epoch : Z;
}.
Record PendingConsolidation : Type := mkPendingConsolidation {
  pc_source_index : Z;
  pc_target_index : Z;
}.

Record Withdrawal : Type := mkWithdrawal {
  w_index : Z;
  w_validator_index : Z;
  w_address : Address;
  w_amount : Z;
}.
#[global] Instance Withdrawal_eq_dec : EqDecision Withdrawal.
Proof. solve_decision. Defined.

Record AttestationData : Type := mkAttestationData {
  ad_slot : Z;
  ad_index : Z;
  ad_beacon_block_root : B256;
  ad_source : Checkpoint;
  ad_target : Checkpoint;
}.
#[global] Instance AttestationData_eq_dec : EqDecision AttestationData.
Proof. solve_decision. Defined.
Record Attestation : Type := mkAttestation {
  aggregation_bits : list bool;
  att_data : AttestationData;
  att_signature : BLSSignature;
  committee_bits : list bool;
}.
Record IndexedAttestation : Type := mkIndexedAttestation {
  attesting_indices : list Z;
  ia_data : AttestationData;
  ia_signature : BLSSignature;
}.
Record ProposerSlashing : Type := mkProposerSlashing {
  signed_header_1 : SignedBeaconBlockHeader;
  signed_header_2 : SignedBeaconBlockHeader;
}.
Record AttesterSlashing : Type := mkAttesterSlashing {
  attestation_1 : IndexedAttestation;
  attestation_2 : IndexedAttestation;
}.

Record DepositData : Type := mkDepositData {
  dd_public_key : PublicKey;
  dd_withdrawal_credentials : B256;
  dd_amount : Z;
  dd_signature : BLSSignature;
}.
Record Deposit : Type := mkDeposit { dep_proof : list B256; dep_data : DepositData }.
Record DepositMessage : Type := mkDepositMessage {
  dm_public_key : PublicKey;
  dm_withdrawal_credentials : B256;
  dm_amount : Z;
}.
Record VoluntaryExit : Type := mkVoluntaryExit { ve_epoch : Z; ve_validator_index : Z }.
Record SignedVoluntaryExit : Type := mkSignedVoluntaryExit {
  sve_message : VoluntaryExit;
  sve_signature : BLSSignature;
}.
Record BLSToExecutionChange : Type := mkBLSToExecutionChange {
  bc_validator_index : Z;
  from_bls_public_key : PublicKey;
  to_execution_address : Address;
}.
Record SignedBLSToExecutionChange : Type := mkSignedBLSToExecutionChange {
  sbc_message : BLSToExecutionChange;
  sbc_signature : BLSSignature;
}.

Record DepositRequest : Type := mkDepositRequest {
  dr_public_key : PublicKey;
  dr_withdrawal_credentials : B256;
  dr_amount : Z;
  dr_signature : BLSSignature;
  dr_index : Z;
}.
Record WithdrawalRequest : Type := mkWithdrawalRequest {
  wr_source_address : Address;
  wr_validator_public_key : PublicKey;
  wr_amount : Z;
}.
Record ConsolidationRequest : Type := mkConsolidationRequest {
  cr_source_address : Address;
  cr_source_public_key : PublicKey;
  cr_target_public_key : PublicKey;
}.
Record ExecutionRequests : Type := mkExecutionRequests {
  er_deposits : list DepositRequest;
  er_withdrawals : list WithdrawalRequest;
  er_consolidations : list ConsolidationRequest;
}.

Record ExecutionPayload : Type := mkExecutionPayload {
  ep_parent_hash : B256;
  ep_fee_recipient : Address;
  ep_state_root : B256;
  ep_receipts_root : B256;
  ep_logs_bloom : list Z;
  ep_prev_randao : B256;
  ep_block_number : Z;
  ep_gas_limit : Z;
  ep_gas_used : Z;
  ep_timestamp : Z;
  ep_extra_data : list Z;
  ep_base_fee_per_gas : Z;
  ep_block_hash : B256;
  ep_transactions : list (list Z);
  ep_withdrawals : list Withdrawal;
  ep_blob_gas_used : Z;
  ep_excess_blob_gas : Z;
}.
Record ExecutionPayloadHeader : Type := mkExecutionPayloadHeader {
  eh_parent_hash : B256;
  eh_fee_recipient : Address;
  eh_state_root : B256;
  eh_receipts_root : B256;
  eh_logs_bloom : list Z;
  eh_prev_randao : B256;
  eh_block_number : Z;
  eh_gas_limit : Z;
  eh_gas_used : Z;
  eh_timestamp : Z;
  eh_extra_data : list Z;
  eh_base_fee_per_gas : Z;
  eh_block_hash : B256;
  eh_transactions_root : B256;
  eh_withdrawals_root : B256;
  eh_blob_gas_used : Z;
  eh_excess_blob_gas : Z;
}.

Record BeaconBlockBody : Type := mkBeaconBlockBody {
  randao_reveal : BLSSignature;
  bb_eth1_data : Eth1Data;
  graffiti : B256;
  proposer_slashings : list ProposerSlashing;
  attester_slashings : list AttesterSlashing;
  attestations : list Attestation;
  deposits : list Deposit;
  voluntary_exits : list SignedVoluntaryExit;
  sync_aggregate : SyncAggregate;
  execution_payload : ExecutionPayload;
  bls_to_execution_changes : list SignedBLSToExecutionChange;
  blob_kzg_commitments : list (list Z);
  execution_requests : ExecutionRequests;
}.
Record BeaconBlock : Type := mkBeaconBlock {
  b_slot : Z;
  b_proposer_index : Z;
  b_parent_root : B256;
  b_state_root : B256;
  b_body : BeaconBlockBody;
}.
Record SignedBeaconBlock : Type := mkSignedBeaconBlock {
  sb_message : BeaconBlock;
  sb_signature : BLSSignature;
}.

(** ** The state *)

Record BeaconState : Type := mkBeaconState {
  genesis_time : Z;
  genesis_validators_root : B256;
  slot : Z;
  fork : Fork;
  latest_block_header : BeaconBlockHeader;
  block_roots : list B256;
  state_roots : list B256;
  historical_roots : list B256;
  eth1_data : Eth1Data;
  eth1_data_votes : list Eth1Data;
  eth1_deposit_index : Z;
  validators : list Validator;
  balances : list Z;
  randao_mixes : list B256;
  slashings : list Z;
  previous_epoch_participation : list Z;
  current_epoch_participation : list Z;
  justification_bits : list bool;
  previous_justified_checkpoint : Checkpoint;
  current_justified_checkpoint : Checkpoint;
  finalized_checkpoint : Checkpoint;
  inactivity_scores : list Z;
  current_sync_committee : SyncCommittee;
  next_sync_committee : SyncCommittee;
  latest_execution_payload_header : ExecutionPayloadHeader;
  next_withdrawal_index : Z;
  next_withdrawal_validator_index : Z;
  historical_summaries : list HistoricalSummary;
  deposit_requests_start_index : Z;
  deposit_balance_to_consume : Z;
  exit_balance_to_consume : Z;
  earliest_exit_epoch : Z;
  consolidation_balance_to_consume : Z;
  earliest_consolidation_epoch : Z;
  pending_deposits : list PendingDeposit;
  pending_partial_withdrawals : list PendingPartialWithdrawal;
  pending_consolidations : list PendingConsolidation;
  proposer_lookahead : list Z;
}.

(** Assignments to one field. *)
Definition set_slot (v : Z) (s : BeaconState) : BeaconState :=
  mkBeaconState
    (genesis_time s) (genesis_validators_root s) v (fork s) (latest_block_header s) (block_roots s)
    (state_roots s) (historical_roots s) (eth1_data s) (eth1_data_votes s) (eth1_deposit_index s)
    (validators s) (balances s) (randao_mixes s) (slashings s) (previous_epoch_participation s)
    (current_epoch_participation s) (justification_bits s) (previous_justified_checkpoint s)
    (current_justified_checkpoint s) (finalized_checkpoint s) (inactivity_scores s)
    (current_sync_committee s) (next_sync_committee s) (latest_execution_payload_header s)
    (next_withdrawal_index s) (next_withdrawal_validator_index s) (historical_summaries s)
    (deposit_requests_start_index s) (deposit_balance_to_consume s) (exit_balance_to_consume s)
    (earliest_exit_epoch s) (consolidation_balance_to_consume s) (earliest_consolidation_epoch s)
    (pending_deposits s) (pending_partial_withdrawals s) (pending_consolidations s)
    (proposer_lookahead s).
Definition set_latest_block_header (v : BeaconBlockHeader) (s : BeaconState) : BeaconState :=
  mkBeaconState
    (genesis_time s) (genesis_validators_root s) (slot s) (fork s) v (block_roots s)
    (state_roots s) (historical_roots s) (eth1_data s) (eth1_data_votes s) (eth1_deposit_index s)
    (validators s) (balances s) (randao_mixes s) (slashings s) (previous_epoch_participation s)
    (current_epoch_participation s) (justification_bits s) (previous_justified_checkpoint s)
    (current_justified_checkpoint s) (finalized_checkpoint s) (inactivity_scores s)
    (current_sync_committee s) (next_sync_committee s) (latest_execution_payload_header s)
    (next_withdrawal_index s) (next_withdrawal_validator_index s) (historical_summaries s)
    (deposit_requests_start_index s) (deposit_balance_to_consume s) (exit_balance_to_consume s)
    (earliest_exit_epoch s) (consolidation_balance_to_consume s) (earliest_consolidation_epoch s)
    (pending_deposits s) (pending_partial_withdrawals s) (pending_consolidations s)
    (proposer_lookahead s).
Definition set_block_roots (v : list B256) (s : BeaconState) : BeaconState :=
  mkBeaconState
    (genesis_time s) (genesis_validators_root s) (slot s) (fork s) (latest_block_header s) v
    (state_roots s) (historical_roots s) (eth1_data s) (eth1_data_votes s) (eth1_deposit_index s)
    (validators s) (balances s) (randao_mixes s) (slashings s) (previous_epoch_participation s)
    (current_epoch_participation s) (justification_bits s) (previous_justified_checkpoint s)
    (current_justified_checkpoint s) (finalized_checkpoint s) (inactivity_scores s)
    (current_sync_committee s) (next_sync_committee s) (latest_execution_payload_header s)
    (next_withdrawal_index s) (next_withdrawal_validator_index s) (historical_summaries s)
    (deposit_requests_start_index s) (deposit_balance_to_consume s) (exit_balance_to_consume s)
    (earliest_exit_epoch s) (consolidation_balance_to_consume s) (earliest_consolidation_epoch s)
    (pending_deposits s) (pending_partial_withdrawals s) (pending_consolidations s)
    (proposer_lookahead s).
Definition set_state_roots (v : list B256) (s : BeaconState) : BeaconState :=
  mkBeaconState
    (genesis_time s) (genesis_validators_root s) (slot s) (fork s) (latest_block_header s)
    (block_roots s) v (historical_roots s) (eth1_data s) (eth1_data_votes s) (eth1_deposit_index s)
    (validators s) (balances s) (randao_mixes s) (slashings s) (previous_epoch_participation s)
    (current_epoch_participation s) (justification_bits s) (previous_justified_checkpoint s)
    (current_justified_checkpoint s) (finalized_checkpoint s) (inactivity_scores s)
    (current_sync_committee s) (next_sync_committee s) (latest_execution_payload_header s)
    (next_withdrawal_index s) (next_withdrawal_validator_index s) (historical_summaries s)
    (deposit_requests_start_index s) (deposit_balance_to_consume s) (exit_balance_to_consume s)
    (earliest_exit_epoch s) (consolidation_balance_to_consume s) (earliest_consolidation_epoch s)
    (pending_deposits s) (pending_partial_withdrawals s) (pending_consolidations s)
    (proposer_lookahead s).
Definition set_eth1_data (v : Eth1Data) (s : BeaconState) : BeaconState :=
  mkBeaconState
    (genesis_time s) (genesis_validators_root s) (slot s) (fork s) (latest_block_header s)
    (block_roots s) (state_roots s) (historical_roots s) v (eth1_data_votes s)
    (eth1_deposit_index s) (validators s) (balances s) (randao_mixes s) (slashings s)
    (previous_epoch_participation s) (current_epoch_participation s) (justification_bits s)
    (previous_justified_checkpoint s) (current_justified_checkpoint s) (finalized_checkpoint s)
    (inactivity_scores s) (current_sync_committee s) (next_sync_committee s)
    (latest_execution_payload_header s) (next_withdrawal_index s)
    (next_withdrawal_validator_index s) (historical_summaries s) (deposit_requests_start_index s)
    (deposit_balance_to_consume s) (exit_balance_to_consume s) (earliest_exit_epoch s)
    (consolidation_balance_to_consume s) (earliest_consolidation_epoch s) (pending_deposits s)
    (pending_partial_withdrawals s) (pending_consolidations s) (proposer_lookahead s).
Definition set_eth1_data_votes (v : list Eth1Data) (s : BeaconState) : BeaconState :=
  mkBeaconState
    (genesis_time s) (genesis_validators_root s) (slot s) (fork s) (latest_block_header s)
    (block_roots s) (state_roots s) (historical_roots s) (eth1_data s) v (eth1_deposit_index s)
    (validators s) (balances s) (randao_mixes s) (slashings s) (previous_epoch_participation s)
    (current_epoch_participation s) (justification_bits s) (previous_justified_checkpoint s)
    (current_justified_checkpoint s) (finalized_checkpoint s) (inactivity_scores s)
    (current_sync_committee s) (next_sync_committee s) (latest_execution_payload_header s)
    (next_withdrawal_index s) (next_withdrawal_validator_index s) (historical_summaries s)
    (deposit_requests_start_index s) (deposit_balance_to_consume s) (exit_balance_to_consume s)
    (earliest_exit_epoch s) (consolidation_balance_to_consume s) (earliest_consolidation_epoch s)
    (pending_deposits s) (pending_partial_withdrawals s) (pending_consolidations s)
    (proposer_lookahead s).
Definition set_eth1_deposit_index (v : Z) (s : BeaconState) : BeaconState :=
  mkBeaconState
    (genesis_time s) (genesis_validators_root s) (slot s) (fork s) (latest_block_header s)
    (block_roots s) (state_roots s) (historical_roots s) (eth1_data s) (eth1_data_votes s) v
    (validators s) (balances s) (randao_mixes s) (slashings s) (previous_epoch_participation s)
    (current_epoch_participation s) (justification_bits s) (previous_justified_checkpoint s)
    (current_justified_checkpoint s) (finalized_checkpoint s) (inactivity_scores s)
    (current_sync_committee s) (next_sync_committee s) (latest_execution_payload_header s)
    (next_withdrawal_index s) (next_withdrawal_validator_index s) (historical_summaries s)
    (deposit_requests_start_index s) (deposit_balance_to_consume s) (exit_balance_to_consume s)
    (earliest_exit_epoch s) (consolidation_balance_to_consume s) (earliest_consolidation_epoch s)
    (pending_deposits s) (pending_partial_withdrawals s) (pending_consolidations s)
    (proposer_lookahead s).
Definition set_validators (v : list Validator) (s : BeaconState) : BeaconState :=
  mkBeaconState
    (genesis_time s) (genesis_validators_root s) (slot s) (fork s) (latest_block_header s)
    (block_roots s) (state_roots s) (historical_roots s) (eth1_data s) (eth1_data_votes s)
    (eth1_deposit_index s) v (balances s) (randao_mixes s) (slashings s)
    (previous_epoch_participation s) (current_epoch_participation s) (justification_bits s)
    (previous_justified_checkpoint s) (current_justified_checkpoint s) (finalized_checkpoint s)
    (inactivity_scores s) (current_sync_committee s) (next_sync_committee s)
    (latest_execution_payload_header s) (next_withdrawal_index s)
    (next_withdrawal_validator_index s) (historical_summaries s) (deposit_requests_start_index s)
    (deposit_balance_to_consume s) (exit_balance_to_consume s) (earliest_exit_epoch s)
    (consolidation_balance_to_consume s) (earliest_consolidation_epoch s) (pending_deposits s)
    (pending_partial_withdrawals s) (pending_consolidations s) (proposer_lookahead s).
Definition set_balances (v : list Z) (s : BeaconState) : BeaconState :=
  mkBeaconState
    (genesis_time s) (genesis_validators_root s) (slot s) (fork s) (latest_block_header s)
    (block_roots s) (state_roots s) (historical_roots s) (eth1_data s) (eth1_data_votes s)
    (eth1_deposit_index s) (validators s) v (randao_mixes s) (slashings s)
    (previous_epoch_participation s) (current_epoch_participation s) (justification_bits s)
    (previous_justified_checkpoint s) (current_justified_checkpoint s) (finalized_checkpoint s)
    (inactivity_scores s) (current_sync_committee s) (next_sync_committee s)
    (latest_execution_payload_header s) (next_withdrawal_index s)
    (next_withdrawal_validator_index s) (historical_summaries s) (deposit_requests_start_index s)
    (deposit_balance_to_consume s) (exit_balance_to_consume s) (earliest_exit_epoch s)
    (consolidation_balance_to_consume s) (earliest_consolidation_epoch s) (pending_deposits s)
    (pending_partial_withdrawals s) (pending_consolidations s) (proposer_lookahead s).
Definition set_randao_mixes (v : list B256) (s : BeaconState) : BeaconState :=
  mkBeaconState
    (genesis_time s) (genesis_validators_root s) (slot s) (fork s) (latest_block_header s)
    (block_roots s) (state_roots s) (historical_roots s) (eth1_data s) (eth1_data_votes s)
    (eth1_deposit_index s) (validators s) (balances s) v (slashings s)
    (previous_epoch_participation s) (current_epoch_participation s) (justification_bits s)
    (previous_justified_checkpoint s) (current_justified_checkpoint s) (finalized_checkpoint s)
    (inactivity_scores s) (current_sync_committee s) (next_sync_committee s)
    (latest_execution_payload_header s) (next_withdrawal_index s)
    (next_withdrawal_validator_index s) (historical_summaries s) (deposit_requests_start_index s)
    (deposit_balance_to_consume s) (exit_balance_to_consume s) (earliest_exit_epoch s)
    (consolidation_balance_to_consume s) (earliest_consolidation_epoch s) (pending_deposits s)
    (pending_partial_withdrawals s) (pending_consolidations s) (proposer_lookahead s).
Definition set_slashings (v : list Z) (s : BeaconState) : BeaconState :=
  mkBeaconState
    (genesis_time s) (genesis_validators_root s) (slot s) (fork s) (latest_block_header s)
    (block_roots s) (state_roots s) (historical_roots s) (eth1_data s) (eth1_data_votes s)
    (eth1_deposit_index s) (validators s) (balances s) (randao_mixes s) v
    (previous_epoch_participation s) (current_epoch_participation s) (justification_bits s)
    (previous_justified_checkpoint s) (current_justified_checkpoint s) (finalized_checkpoint s)
    (inactivity_scores s) (current_sync_committee s) (next_sync_committee s)
    (latest_execution_payload_header s) (next_withdrawal_index s)
    (next_withdrawal_validator_index s) (historical_summaries s) (deposit_requests_start_index s)
    (deposit_balance_to_consume s) (exit_balance_to_consume s) (earliest_exit_epoch s)
    (consolidation_balance_to_consume s) (earliest_consolidation_epoch s) (pending_deposits s)
    (pending_partial_withdrawals s) (pending_consolidations s) (proposer_lookahead s).
Definition set_previous_epoch_participation (v : list Z) (s : BeaconState) : BeaconState :=
  mkBeaconState
    (genesis_time s) (genesis_validators_root s) (slot s) (fork s) (latest_block_header s)
    (block_roots s) (state_roots s) (historical_roots s) (eth1_data s) (eth1_data_votes s)
    (eth1_deposit_index s) (validators s) (balances s) (randao_mixes s) (slashings s) v
    (current_epoch_participation s) (justification_bits s) (previous_justified_checkpoint s)
    (current_justified_checkpoint s) (finalized_checkpoint s) (inactivity_scores s)
    (current_sync_committee s) (next_sync_committee s) (latest_execution_payload_header s)
    (next_withdrawal_index s) (next_withdrawal_validator_index s) (historical_summaries s)
    (deposit_requests_start_index s) (deposit_balance_to_consume s) (exit_balance_to_consume s)
    (earliest_exit_epoch s) (consolidation_balance_to_consume s) (earliest_consolidation_epoch s)
    (pending_deposits s) (pending_partial_withdrawals s) (pending_consolidations s)
    (proposer_lookahead s).
Definition set_current_epoch_participation (v : list Z) (s : BeaconState) : BeaconState :=
  mkBeaconState
    (genesis_time s) (genesis_validators_root s) (slot s) (fork s) (latest_block_header s)
    (block_roots s) (state_roots s) (historical_roots s) (eth1_data s) (eth1_data_votes s)
    (eth1_deposit_index s) (validators s) (balances s) (randao_mixes s) (slashings s)
    (previous_epoch_participation s) v (justification_bits s) (previous_justified_checkpoint s)
    (current_justified_checkpoint s) (finalized_checkpoint s) (inactivity_scores s)
    (current_sync_committee s) (next_sync_committee s) (latest_execution_payload_header s)
    (next_withdrawal_index s) (next_withdrawal_validator_index s) (historical_summaries s)
    (deposit_requests_start_index s) (deposit_balance_to_consume s) (exit_balance_to_consume s)
    (earliest_exit_epoch s) (consolidation_balance_to_consume s) (earliest_consolidation_epoch s)
    (pending_deposits s) (pending_partial_withdrawals s) (pending_consolidations s)
    (proposer_lookahead s).
Definition set_justification_bits (v : list bool) (s : BeaconState) : BeaconState :=
  mkBeaconState
    (genesis_time s) (genesis_validators_root s) (slot s) (fork s) (latest_block_header s)
    (block_roots s) (state_roots s) (historical_roots s) (eth1_data s) (eth1_data_votes s)
    (eth1_deposit_index s) (validators s) (balances s) (randao_mixes s) (slashings s)
    (previous_epoch_participation s) (current_epoch_participation s) v
    (previous_justified_checkpoint s) (current_justified_checkpoint s) (finalized_checkpoint s)
    (inactivity_scores s) (current_sync_committee s) (next_sync_committee s)
    (latest_execution_payload_header s) (next_withdrawal_index s)
    (next_withdrawal_validator_index s) (historical_summaries s) (deposit_requests_start_index s)
    (deposit_balance_to_consume s) (exit_balance_to_consume s) (earliest_exit_epoch s)
    (consolidation_balance_to_consume s) (earliest_consolidation_epoch s) (pending_deposits s)
    (pending_partial_withdrawals s) (pending_consolidations s) (proposer_lookahead s).
Definition set_previous_justified_checkpoint (v : Checkpoint) (s : BeaconState) : BeaconState :=
  mkBeaconState
    (genesis_time s) (genesis_validators_root s) (slot s) (fork s) (latest_block_header s)
    (block_roots s) (state_roots s) (historical_roots s) (eth1_data s) (eth1_data_votes s)
    (eth1_deposit_index s) (validators s) (balances s) (randao_mixes s) (slashings s)
    (previous_epoch_participation s) (current_epoch_participation s) (justification_bits s) v
    (current_justified_checkpoint s) (finalized_checkpoint s) (inactivity_scores s)
    (current_sync_committee s) (next_sync_committee s) (latest_execution_payload_header s)
    (next_withdrawal_index s) (next_withdrawal_validator_index s) (historical_summaries s)
    (deposit_requests_start_index s) (deposit_balance_to_consume s) (exit_balance_to_consume s)
    (earliest_exit_epoch s) (consolidation_balance_to_consume s) (earliest_consolidation_epoch s)
    (pending_deposits s) (pending_partial_withdrawals s) (pending_consolidations s)
    (proposer_lookahead s).
Definition set_current_justified_checkpoint (v : Checkpoint) (s : BeaconState) : BeaconState :=
  mkBeaconState
    (genesis_time s) (genesis_validators_root s) (slot s) (fork s) (latest_block_header s)
    (block_roots s) (state_roots s) (historical_roots s) (eth1_data s) (eth1_data_votes s)
    (eth1_deposit_index s) (validators s) (balances s) (randao_mixes s) (slashings s)
    (previous_epoch_participation s) (current_epoch_participation s) (justification_bits s)
    (previous_justified_checkpoint s) v (finalized_checkpoint s) (inactivity_scores s)
    (current_sync_committee s) (next_sync_committee s) (latest_execution_payload_header s)
    (next_withdrawal_index s) (next_withdrawal_validator_index s) (historical_summaries s)
    (deposit_requests_start_index s) (deposit_balance_to_consume s) (exit_balance_to_consume s)
    (earliest_exit_epoch s) (consolidation_balance_to_consume s) (earliest_consolidation_epoch s)
    (pending_deposits s) (pending_partial_withdrawals s) (pending_consolidations s)
    (proposer_lookahead s).
Definition set_finalized_checkpoint (v : Checkpoint) (s : BeaconState) : BeaconState :=
  mkBeaconState
    (genesis_time s) (genesis_validators_root s) (slot s) (fork s) (latest_block_header s)
    (block_roots s) (state_roots s) (historical_roots s) (eth1_data s) (eth1_data_votes s)
    (eth1_deposit_index s) (validators s) (balances s) (randao_mixes s) (slashings s)
    (previous_epoch_participation s) (current_epoch_participation s) (justification_bits s)
    (previous_justified_checkpoint s) (current_justified_checkpoint s) v (inactivity_scores s)
    (current_sync_committee s) (next_sync_committee s) (latest_execution_payload_header s)
    (next_withdrawal_index s) (next_withdrawal_validator_index s) (historical_summaries s)
    (deposit_requests_start_index s) (deposit_balance_to_consume s) (exit_balance_to_consume s)
    (earliest_exit_epoch s) (consolidation_balance_to_consume s) (earliest_consolidation_epoch s)
    (pending_deposits s) (pending_partial_withdrawals s) (pending_consolidations s)
    (proposer_lookahead s).
Definition set_inactivity_scores (v : list Z) (s : BeaconState) : BeaconState :=
  mkBeaconState
    (genesis_time s) (genesis_validators_root s) (slot s) (fork s) (latest_block_header s)
    (block_roots s) (state_roots s) (historical_roots s) (eth1_data s) (eth1_data_votes s)
    (eth1_deposit_index s) (validators s) (balances s) (randao_mixes s) (slashings s)
    (previous_epoch_participation s) (current_epoch_participation s) (justification_bits s)
    (previous_justified_checkpoint s) (current_justified_checkpoint s) (finalized_checkpoint s) v
    (current_sync_committee s) (next_sync_committee s) (latest_execution_payload_header s)
    (next_withdrawal_index s) (next_withdrawal_validator_index s) (historical_summaries s)
    (deposit_requests_start_index s) (deposit_balance_to_consume s) (exit_balance_to_consume s)
    (earliest_exit_epoch s) (consolidation_balance_to_consume s) (earliest_consolidation_epoch s)
    (pending_deposits s) (pending_partial_withdrawals s) (pending_consolidations s)
    (proposer_lookahead s).
Definition set_current_sync_committee (v : SyncCommittee) (s : BeaconState) : BeaconState :=
  mkBeaconState
    (genesis_time s) (genesis_validators_root s) (slot s) (fork s) (latest_block_header s)
    (block_roots s) (state_roots s) (historical_roots s) (eth1_data s) (eth1_data_votes s)
    (eth1_deposit_index s) (validators s) (balances s) (randao_mixes s) (slashings s)
    (previous_epoch_participation s) (current_epoch_participation s) (justification_bits s)
    (previous_justified_checkpoint s) (current_justified_checkpoint s) (finalized_checkpoint s)
    (inactivity_scores s) v (next_sync_committee s) (latest_execution_payload_header s)
    (next_withdrawal_index s) (next_withdrawal_validator_index s) (historical_summaries s)
    (deposit_requests_start_index s) (deposit_balance_to_consume s) (exit_balance_to_consume s)
    (earliest_exit_epoch s) (consolidation_balance_to_consume s) (earliest_consolidation_epoch s)
    (pending_deposits s) (pending_partial_withdrawals s) (pending_consolidations s)
    (proposer_lookahead s).
Definition set_next_sync_committee (v : SyncCommittee) (s : BeaconState) : BeaconState :=
  mkBeaconState
    (genesis_time s) (genesis_validators_root s) (slot s) (fork s) (latest_block_header s)
    (block_roots s) (state_roots s) (historical_roots s) (eth1_data s) (eth1_data_votes s)
    (eth1_deposit_index s) (validators s) (balances s) (randao_mixes s) (slashings s)
    (previous_epoch_participation s) (current_epoch_participation s) (justification_bits s)
    (previous_justified_checkpoint s) (current_justified_checkpoint s) (finalized_checkpoint s)
    (inactivity_scores s) (current_sync_committee s) v (latest_execution_payload_header s)
    (next_withdrawal_index s) (next_withdrawal_validator_index s) (historical_summaries s)
    (deposit_requests_start_index s) (deposit_balance_to_consume s) (exit_balance_to_consume s)
    (earliest_exit_epoch s) (consolidation_balance_to_consume s) (earliest_consolidation_epoch s)
    (pending_deposits s) (pending_partial_withdrawals s) (pending_consolidations s)
    (proposer_lookahead s).
Definition set_latest_execution_payload_header (v : ExecutionPayloadHeader) (s : BeaconState) : BeaconState :=
  mkBeaconState
    (genesis_time s) (genesis_validators_root s) (slot s) (fork s) (latest_block_header s)
    (block_roots s) (state_roots s) (historical_roots s) (eth1_data s) (eth1_data_votes s)
    (eth1_deposit_index s) (validators s) (balances s) (randao_mixes s) (slashings s)
    (previous_epoch_participation s) (current_epoch_participation s) (justification_bits s)
    (previous_justified_checkpoint s) (current_justified_checkpoint s) (finalized_checkpoint s)
    (inactivity_scores s) (current_sync_committee s) (next_sync_committee s) v
    (next_withdrawal_index s) (next_withdrawal_validator_index s) (historical_summaries s)
    (deposit_requests_start_index s) (deposit_balance_to_consume s) (exit_balance_to_consume s)
    (earliest_exit_epoch s) (consolidation_balance_to_consume s) (earliest_consolidation_epoch s)
    (pending_deposits s) (pending_partial_withdrawals s) (pending_consolidations s)
    (proposer_lookahead s).
Definition set_next_withdrawal_index (v : Z) (s : BeaconState) : BeaconState :=
  mkBeaconState
    (genesis_time s) (genesis_validators_root s) (slot s) (fork s) (latest_block_header s)
    (block_roots s) (state_roots s) (historical_roots s) (eth1_data s) (eth1_data_votes s)
    (eth1_deposit_index s) (validators s) (balances s) (randao_mixes s) (slashings s)
    (previous_epoch_participation s) (current_epoch_participation s) (justification_bits s)
    (previous_justified_checkpoint s) (current_justified_checkpoint s) (finalized_checkpoint s)
    (inactivity_scores s) (current_sync_committee s) (next_sync_committee s)
    (latest_execution_payload_header s) v (next_withdrawal_validator_index s)
    (historical_summaries s) (deposit_requests_start_index s) (deposit_balance_to_consume s)
    (exit_balance_to_consume s) (earliest_exit_epoch s) (consolidation_balance_to_consume s)
    (earliest_consolidation_epoch s) (pending_deposits s) (pending_partial_withdrawals s)
    (pending_consolidations s) (proposer_lookahead s).
Definition set_next_withdrawal_validator_index (v : Z) (s : BeaconState) : BeaconState :=
  mkBeaconState
    (genesis_time s) (genesis_validators_root s) (slot s) (fork s) (latest_block_header s)
    (block_roots s) (state_roots s) (historical_roots s) (eth1_data s) (eth1_data_votes s)
    (eth1_deposit_index s) (validators s) (balances s) (randao_mixes s) (slashings s)
    (previous_epoch_participation s) (current_epoch_participation s) (justification_bits s)
    (previous_justified_checkpoint s) (current_justified_checkpoint s) (finalized_checkpoint s)
    (inactivity_scores s) (current_sync_committee s) (next_sync_committee s)
    (latest_execution_payload_header s) (next_withdrawal_index s) v (historical_summaries s)
    (deposit_requests_start_index s) (deposit_balance_to_consume s) (exit_balance_to_consume s)
    (earliest_exit_epoch s) (consolidation_balance_to_consume s) (earliest_consolidation_epoch s)
    (pending_deposits s) (pending_partial_withdrawals s) (pending_consolidations s)
    (proposer_lookahead s).
Definition set_historical_summaries (v : list HistoricalSummary) (s : BeaconState) : BeaconState :=
  mkBeaconState
    (genesis_time s) (genesis_validators_root s) (slot s) (fork s) (latest_block_header s)
    (block_roots s) (state_roots s) (historical_roots s) (eth1_data s) (eth1_data_votes s)
    (eth1_deposit_index s) (validators s) (balances s) (randao_mixes s) (slashings s)
    (previous_epoch_participation s) (current_epoch_participation s) (justification_bits s)
    (previous_justified_checkpoint s) (current_justified_checkpoint s) (finalized_checkpoint s)
    (inactivity_scores s) (current_sync_committee s) (next_sync_committee s)
    (latest_execution_payload_header s) (next_withdrawal_index s)
    (next_withdrawal_validator_index s) v (deposit_requests_start_index s)
    (deposit_balance_to_consume s) (exit_balance_to_consume s) (earliest_exit_epoch s)
    (consolidation_balance_to_consume s) (earliest_consolidation_epoch s) (pending_deposits s)
    (pending_partial_withdrawals s) (pending_consolidations s) (proposer_lookahead s).
Definition set_deposit_requests_start_index (v : Z) (s : BeaconState) : BeaconState :=
  mkBeaconState
    (genesis_time s) (genesis_validators_root s) (slot s) (fork s) (latest_block_header s)
    (block_roots s) (state_roots s) (historical_roots s) (eth1_data s) (eth1_data_votes s)
    (eth1_deposit_index s) (validators s) (balances s) (randao_mixes s) (slashings s)
    (previous_epoch_participation s) (current_epoch_participation s) (justification_bits s)
    (previous_justified_checkpoint s) (current_justified_checkpoint s) (finalized_checkpoint s)
    (inactivity_scores s) (current_sync_committee s) (next_sync_committee s)
    (latest_execution_payload_header s) (next_withdrawal_index s)
    (next_withdrawal_validator_index s) (historical_summaries s) v (deposit_balance_to_consume s)
    (exit_balance_to_consume s) (earliest_exit_epoch s) (consolidation_balance_to_consume s)
    (earliest_consolidation_epoch s) (pending_deposits s) (pending_partial_withdrawals s)
    (pending_consolidations s) (proposer_lookahead s).
Definition set_deposit_balance_to_consume (v : Z) (s : BeaconState) : BeaconState :=
  mkBeaconState
    (genesis_time s) (genesis_validators_root s) (slot s) (fork s) (latest_block_header s)
    (block_roots s) (state_roots s) (historical_roots s) (eth1_data s) (eth1_data_votes s)
    (eth1_deposit_index s) (validators s) (balances s) (randao_mixes s) (slashings s)
    (previous_epoch_participation s) (current_epoch_participation s) (justification_bits s)
    (previous_justified_checkpoint s) (current_justified_checkpoint s) (finalized_checkpoint s)
    (inactivity_scores s) (current_sync_committee s) (next_sync_committee s)
    (latest_execution_payload_header s) (next_withdrawal_index s)
    (next_withdrawal_validator_index s) (historical_summaries s) (deposit_requests_start_index s) v
    (exit_balance_to_consume s) (earliest_exit_epoch s) (consolidation_balance_to_consume s)
    (earliest_consolidation_epoch s) (pending_deposits s) (pending_partial_withdrawals s)
    (pending_consolidations s) (proposer_lookahead s).
Definition set_exit_balance_to_consume (v : Z) (s : BeaconState) : BeaconState :=
  mkBeaconState
    (genesis_time s) (genesis_validators_root s) (slot s) (fork s) (latest_block_header s)
    (block_roots s) (state_roots s) (historical_roots s) (eth1_data s) (eth1_data_votes s)
    (eth1_deposit_index s) (validators s) (balances s) (randao_mixes s) (slashings s)
    (previous_epoch_participation s) (current_epoch_participation s) (justification_bits s)
    (previous_justified_checkpoint s) (current_justified_checkpoint s) (finalized_checkpoint s)
    (inactivity_scores s) (current_sync_committee s) (next_sync_committee s)
    (latest_execution_payload_header s) (next_withdrawal_index s)
    (next_withdrawal_validator_index s) (historical_summaries s) (deposit_requests_start_index s)
    (deposit_balance_to_consume s) v (earliest_exit_epoch s) (consolidation_balance_to_consume s)
    (earliest_consolidation_epoch s) (pending_deposits s) (pending_partial_withdrawals s)
    (pending_consolidations s) (proposer_lookahead s).
Definition set_earliest_exit_epoch (v : Z) (s : BeaconState) : BeaconState :=
  mkBeaconState
    (genesis_time s) (genesis_validators_root s) (slot s) (fork s) (latest_block_header s)
    (block_roots s) (state_roots s) (historical_roots s) (eth1_data s) (eth1_data_votes s)
    (eth1_deposit_index s) (validators s) (balances s) (randao_mixes s) (slashings s)
    (previous_epoch_participation s) (current_epoch_participation s) (justification_bits s)
    (previous_justified_checkpoint s) (current_justified_checkpoint s) (finalized_checkpoint s)
    (inactivity_scores s) (current_sync_committee s) (next_sync_committee s)
    (latest_execution_payload_header s) (next_withdrawal_index s)
    (next_withdrawal_validator_index s) (historical_summaries s) (deposit_requests_start_index s)
    (deposit_balance_to_consume s) (exit_balance_to_consume s) v
    (consolidation_balance_to_consume s) (earliest_consolidation_epoch s) (pending_deposits s)
    (pending_partial_withdrawals s) (pending_consolidations s) (proposer_lookahead s).
Definition set_consolidation_balance_to_consume (v : Z) (s : BeaconState) : BeaconState :=
  mkBeaconState
    (genesis_time s) (genesis_validators_root s) (slot s) (fork s) (latest_block_header s)
    (block_roots s) (state_roots s) (historical_roots s) (eth1_data s) (eth1_data_votes s)
    (eth1_deposit_index s) (validators s) (balances s) (randao_mixes s) (slashings s)
    (previous_epoch_participation s) (current_epoch_participation s) (justification_bits s)
    (previous_justified_checkpoint s) (current_justified_checkpoint s) (finalized_checkpoint s)
    (inactivity_scores s) (current_sync_committee s) (next_sync_committee s)
    (latest_execution_payload_header s) (next_withdrawal_index s)
    (next_withdrawal_validator_index s) (historical_summaries s) (deposit_requests_start_index s)
    (deposit_balance_to_consume s) (exit_balance_to_consume s) (earliest_exit_epoch s) v
    (earliest_consolidation_epoch s) (pending_deposits s) (pending_partial_withdrawals s)
    (pending_consolidations s) (proposer_lookahead s).
Definition set_earliest_consolidation_epoch (v : Z) (s : BeaconState) : BeaconState :=
  mkBeaconState
    (genesis_time s) (genesis_validators_root s) (slot s) (fork s) (latest_block_header s)
    (block_roots s) (state_roots s) (historical_roots s) (eth1_data s) (eth1_data_votes s)
    (eth1_deposit_index s) (validators s) (balances s) (randao_mixes s) (slashings s)
    (previous_epoch_participation s) (current_epoch_participation s) (justification_bits s)
    (previous_justified_checkpoint s) (current_justified_checkpoint s) (finalized_checkpoint s)
    (inactivity_scores s) (current_sync_committee s) (next_sync_committee s)
    (latest_execution_payload_header s) (next_withdrawal_index s)
    (next_withdrawal_validator_index s) (historical_summaries s) (deposit_requests_start_index s)
    (deposit_balance_to_consume s) (exit_balance_to_consume s) (earliest_exit_epoch s)
    (consolidation_balance_to_consume s) v (pending_deposits s) (pending_partial_withdrawals s)
    (pending_consolidations s) (proposer_lookahead s).
Definition set_pending_deposits (v : list PendingDeposit) (s : BeaconState) : BeaconState :=
  mkBeaconState
    (genesis_time s) (genesis_validators_root s) (slot s) (fork s) (latest_block_header s)
    (block_roots s) (state_roots s) (historical_roots s) (eth1_data s) (eth1_data_votes s)
    (eth1_deposit_index s) (validators s) (balances s) (randao_mixes s) (slashings s)
    (previous_epoch_participation s) (current_epoch_participation s) (justification_bits s)
    (previous_justified_checkpoint s) (current_justified_checkpoint s) (finalized_checkpoint s)
    (inactivity_scores s) (current_sync_committee s) (next_sync_committee s)
    (latest_execution_payload_header s) (next_withdrawal_index s)
    (next_withdrawal_validator_index s) (historical_summaries s) (deposit_requests_start_index s)
    (deposit_balance_to_consume s) (exit_balance_to_consume s) (earliest_exit_epoch s)
    (consolidation_balance_to_consume s) (earliest_consolidation_epoch s) v
    (pending_partial_withdrawals s) (pending_consolidations s) (proposer_lookahead s).
Definition set_pending_partial_withdrawals (v : list PendingPartialWithdrawal) (s : BeaconState) : BeaconState :=
  mkBeaconState
    (genesis_time s) (genesis_validators_root s) (slot s) (fork s) (latest_block_header s)
    (block_roots s) (state_roots s) (historical_roots s) (eth1_data s) (eth1_data_votes s)
    (eth1_deposit_index s) (validators s) (balances s) (randao_mixes s) (slashings s)
    (previous_epoch_participation s) (current_epoch_participation s) (justification_bits s)
    (previous_justified_checkpoint s) (current_justified_checkpoint s) (finalized_checkpoint s)
    (inactivity_scores s) (current_sync_committee s) (next_sync_committee s)
    (latest_execution_payload_header s) (next_withdrawal_index s)
    (next_withdrawal_validator_index s) (historical_summaries s) (deposit_requests_start_index s)
    (deposit_balance_to_consume s) (exit_balance_to_consume s) (earliest_exit_epoch s)
    (consolidation_balance_to_consume s) (earliest_consolidation_epoch s) (pending_deposits s) v
    (pending_consolidations s) (proposer_lookahead s).
Definition set_pending_consolidations (v : list PendingConsolidation) (s : BeaconState) : BeaconState :=
  mkBeaconState
    (genesis_time s) (genesis_validators_root s) (slot s) (fork s) (latest_block_header s)
    (block_roots s) (state_roots s) (historical_roots s) (eth1_data s) (eth1_data_votes s)
    (eth1_deposit_index s) (validators s) (balances s) (randao_mixes s) (slashings s)
    (previous_epoch_participation s) (current_epoch_participation s) (justification_bits s)
    (previous_justified_checkpoint s) (current_justified_checkpoint s) (finalized_checkpoint s)
    (inactivity_scores s) (current_sync_committee s) (next_sync_committee s)
    (latest_execution_payload_header s) (next_withdrawal_index s)
    (next_withdrawal_validator_index s) (historical_summaries s) (deposit_requests_start_index s)
    (deposit_balance_to_consume s) (exit_balance_to_consume s) (earliest_exit_epoch s)
    (consolidation_balance_to_consume s) (earliest_consolidation_epoch s) (pending_deposits s)
    (pending_partial_withdrawals s) v (proposer_lookahead s).
Definition set_proposer_lookahead (v : list Z) (s : BeaconState) : BeaconState :=
  mkBeaconState
    (genesis_time s) (genesis_validators_root s) (slot s) (fork s) (latest_block_header s)
    (block_roots s) (state_roots s) (historical_roots s) (eth1_data s) (eth1_data_votes s)
    (eth1_deposit_index s) (validators s) (balances s) (randao_mixes s) (slashings s)
    (previous_epoch_participation s) (current_epoch_participation s) (justification_bits s)
    (previous_justified_checkpoint s) (current_justified_checkpoint s) (finalized_checkpoint s)
    (inactivity_scores s) (current_sync_committee s) (next_sync_committee s)
    (latest_execution_payload_header s) (next_withdrawal_index s)
    (next_withdrawal_validator_index s) (historical_summaries s) (deposit_requests_start_index s)
    (deposit_balance_to_consume s) (exit_balance_to_consume s) (earliest_exit_epoch s)
    (consolidation_balance_to_consume s) (earliest_consolidation_epoch s) (pending_deposits s)
    (pending_partial_withdrawals s) (pending_consolidations s) v.

(** Assignments to one field of a validator. *)
Definition set_withdrawal_credentials (x : B256) (v : Validator) : Validator :=
  mkValidator
    (public_key v) x (effective_balance v) (slashed v) (activation_eligibility_epoch v)
    (activation_epoch v) (exit_epoch v) (withdrawable_epoch v).
Definition set_effective_balance (x : Z) (v : Validator) : Validator :=
  mkValidator
    (public_key v) (withdrawal_credentials v) x (slashed v) (activation_eligibility_epoch v)
    (activation_epoch v) (exit_epoch v) (withdrawable_epoch v).
Definition set_slashed (x : bool) (v : Validator) : Validator :=
  mkValidator
    (public_key v) (withdrawal_credentials v) (effective_balance v) x
    (activation_eligibility_epoch v) (activation_epoch v) (exit_epoch v) (withdrawable_epoch v).
Definition set_activation_eligibility_epoch (x : Z) (v : Validator) : Validator :=
  mkValidator
    (public_key v) (withdrawal_credentials v) (effective_balance v) (slashed v) x
    (activation_epoch v) (exit_epoch v) (withdrawable_epoch v).
Definition set_activation_epoch (x : Z) (v : Validator) : Validator :=
  mkValidator
    (public_key v) (withdrawal_credentials v) (effective_balance v) (slashed v)
    (activation_eligibility_epoch v) x (exit_epoch v) (withdrawable_epoch v).
Definition set_exit_epoch (x : Z) (v : Validator) : Validator :=
  mkValidator
    (public_key v) (withdrawal_credentials v) (effective_balance v) (slashed v)
    (activation_eligibility_epoch v) (activation_epoch v) x (withdrawable_epoch v).
Definition set_withdrawable_epoch (x : Z) (v : Validator) : Validator :=
  mkValidator
    (public_key v) (withdrawal_credentials v) (effective_balance v) (slashed v)
    (activation_eligibility_epoch v) (activation_epoch v) (exit_epoch v) x.

(** ** Code outside the repository

    [ssz_types]: [push] and [try_into] refuse to exceed the capacity, [FixedVector::new]
    refuses another length; [get] and [set] of a bit string refuse an index out of
    range. *)
Class SszVec : Type := {
  vl_push : forall {A}, Z -> list A -> A -> option (list A);
  vl_try_from : forall {A}, Z -> list A -> option (list A);
  fv_new : forall {A}, Z -> list A -> option (list A);
  bits_get : list bool -> nat -> option bool;
  bits_set : list bool -> nat -> bool -> option (list bool);
}.
Class SszVecLaws (S : SszVec) : Prop := {
  vl_push_spec : forall A max (l : list A) a,
    vl_push max l a = if Z.of_nat (length l) <? max then Some (l ++ [a]) else None;
  vl_try_from_spec : forall A max (l : list A),
    vl_try_from max l = if Z.of_nat (length l) <=? max then Some l else None;
  fv_new_spec : forall A n (l : list A),
    fv_new n l = if Z.of_nat (length l) =? n then Some l else None;
  bits_get_spec : forall l i, bits_get l i = l !! i;
  bits_set_spec : forall l i b,
    bits_set l i b = if (i <? length l)%nat then Some (<[i := b]> l) else None;
}.

(** [blst]: signature verification and aggregation. *)
Class Bls : Type := {
  bls_verify : BLSSignature -> PublicKey -> B256 -> res anyhow bool;
  fast_aggregate_verify : BLSSignature -> list PublicKey -> B256 -> res anyhow bool;
  aggregate : list PublicKey -> res anyhow PublicKey;
}.

(** [tree_hash]: the Merkle root the crate derives for a type, and [merkle_root] of a
    string of leaves.  The roots of a state's large fields come from caches that
    rehash what changed; here they are the derived roots. *)
Class TreeHash (T : Type) : Type := tree_hash_root : T -> B256.
Class Roots : Type := {
  #[global] header_root :: TreeHash BeaconBlockHeader;
  #[global] body_root :: TreeHash BeaconBlockBody;
  #[global] deposit_data_root :: TreeHash DepositData;
  #[global] deposit_message_root :: TreeHash DepositMessage;
  #[global] attestation_data_root :: TreeHash AttestationData;
  #[global] voluntary_exit_root :: TreeHash VoluntaryExit;
  #[global] bls_change_root :: TreeHash BLSToExecutionChange;
  #[global] transactions_root :: TreeHash (list (list Z));
  #[global] withdrawals_root :: TreeHash (list Withdrawal);
  #[global] u64_root :: TreeHash Z;
  #[global] fork_root :: TreeHash Fork;
  #[global] eth1_data_root :: TreeHash Eth1Data;
  #[global] eth1_data_votes_root :: TreeHash (list Eth1Data);
  #[global] validators_root :: TreeHash (list Validator);
  #[global] checkpoint_root :: TreeHash Checkpoint;
  #[global] justification_bits_root :: TreeHash (list bool);
  #[global] sync_committee_root :: TreeHash SyncCommittee;
  #[global] payload_header_root :: TreeHash ExecutionPayloadHeader;
  #[global] historical_summaries_root :: TreeHash (list HistoricalSummary);
  #[global] pending_deposits_root :: TreeHash (list PendingDeposit);
  #[global] pending_partial_withdrawals_root :: TreeHash (list PendingPartialWithdrawal);
  #[global] pending_consolidations_root :: TreeHash (list PendingConsolidation);
  b256_vector_root : list B256 -> B256;
  b256_list_root : list B256 -> B256;
  u64_vector_root : list Z -> B256;
  u64_list_root : list Z -> B256;
  u8_list_root : list Z -> B256;
  signing_data_root : B256 -> B256 -> B256;
  fork_data_root : B32 -> B256 -> B256;
  merkle_root : list Z -> nat -> B256;
}.

(** The network's configuration ([beacon_network_spec]). *)
Class BeaconNetworkSpec : Type := {
  seconds_per_slot : Z;
  genesis_fork_version : B32;
  capella_fork_version : B32;
  fulu_fork_epoch : Z;
  max_blobs_per_block : Z -> Z;
}.
