(* ===== verification/BeaconAccess.v ===== *)
(** * Reading the beacon state

    The accessors of [crates/common/consensus/beacon/src/electra/beacon_state.rs], the
    predicates of [misc/src/validator.rs], [misc/src/misc.rs] and
    [beacon/src/predicates.rs].  An accessor that indexes a list panics out of range,
    as the source's does.  The attester shuffling and the total active balance are
    what the state's caches compute on a miss. *)

From stdpp Require Import strings.
From S2P Require Import Prelude Bytes Shuffling BeaconTypes.

(** ** Constants *)

Definition BASE_REWARD_FACTOR : Z := 64.
Definition CHURN_LIMIT_QUOTIENT : Z := 65536.
Definition DEPOSIT_CONTRACT_TREE_DEPTH : Z := 32.
Definition DOMAIN_BEACON_PROPOSER : B32 := [0; 0; 0; 0].
Definition DOMAIN_BEACON_ATTESTER : B32 := [1; 0; 0; 0].
Definition DOMAIN_RANDAO : B32 := [2; 0; 0; 0].
Definition DOMAIN_DEPOSIT : B32 := [3; 0; 0; 0].
Definition DOMAIN_VOLUNTARY_EXIT : B32 := [4; 0; 0; 0].
Definition DOMAIN_SYNC_COMMITTEE : B32 := [7; 0; 0; 0].
Definition DOMAIN_BLS_TO_EXECUTION_CHANGE : B32 := [10; 0; 0; 0].
Definition GENESIS_FORK_VERSION : B32 := [0; 0; 0; 0].
Definition EFFECTIVE_BALANCE_INCREMENT : Z := 1000000000.
Definition EJECTION_BALANCE : Z := 16000000000.
Definition EPOCHS_PER_ETH1_VOTING_PERIOD : Z := 64.
Definition EPOCHS_PER_HISTORICAL_VECTOR : Z := 65536.
Definition EPOCHS_PER_SLASHINGS_VECTOR : Z := 8192.
Definition EPOCHS_PER_SYNC_COMMITTEE_PERIOD : Z := 256.
Definition FAR_FUTURE_EPOCH : Z := 18446744073709551615.
Definition FULL_EXIT_REQUEST_AMOUNT : Z := 0.
Definition GENESIS_SLOT : Z := 0.
Definition GENESIS_EPOCH : Z := 0.
Definition HYSTERESIS_DOWNWARD_MULTIPLIER : Z := 1.
Definition HYSTERESIS_UPWARD_MULTIPLIER : Z := 5.
Definition HYSTERESIS_QUOTIENT : Z := 4.
Definition INACTIVITY_PENALTY_QUOTIENT_BELLATRIX : Z := 16777216.
Definition INACTIVITY_SCORE_BIAS : Z := 4.
Definition INACTIVITY_SCORE_RECOVERY_RATE : Z := 16.
Definition JUSTIFICATION_BITS_LENGTH : nat := 4.
Definition MAX_DEPOSITS : Z := 16.
Definition MAX_EFFECTIVE_BALANCE_ELECTRA : Z := 2048000000000.
Definition MAX_PENDING_DEPOSITS_PER_EPOCH : Z := 16.
Definition MAX_PENDING_PARTIALS_PER_WITHDRAWALS_SWEEP : Z := 8.
Definition MAX_PER_EPOCH_ACTIVATION_CHURN_LIMIT : Z := 8.
Definition MAX_PER_EPOCH_ACTIVATION_EXIT_CHURN_LIMIT : Z := 256000000000.
Definition MAX_RANDOM_VALUE : Z := 65535.
Definition MAX_SEED_LOOKAHEAD : Z := 4.
Definition MAX_VALIDATORS_PER_WITHDRAWALS_SWEEP : nat := 16384.
Definition MAX_WITHDRAWALS_PER_PAYLOAD : nat := 16.
Definition MIN_ACTIVATION_BALANCE : Z := 32000000000.
Definition MIN_ATTESTATION_INCLUSION_DELAY : Z := 1.
Definition MIN_EPOCHS_TO_INACTIVITY_PENALTY : Z := 4.
Definition MIN_PER_EPOCH_CHURN_LIMIT : Z := 4.
Definition MIN_PER_EPOCH_CHURN_LIMIT_ELECTRA : Z := 128000000000.
Definition MIN_SEED_LOOKAHEAD : Z := 1.
Definition MIN_SLASHING_PENALTY_QUOTIENT_ELECTRA : Z := 4096.
Definition MIN_VALIDATOR_WITHDRAWABILITY_DELAY : Z := 256.
Definition PENDING_CONSOLIDATIONS_LIMIT : Z := 262144.
Definition PENDING_PARTIAL_WITHDRAWALS_LIMIT : Z := 134217728.
Definition PENDING_DEPOSITS_LIMIT : Z := 134217728.
Definition PROPORTIONAL_SLASHING_MULTIPLIER_BELLATRIX : Z := 3.
Definition PROPOSER_REWARD_QUOTIENT : Z := 8.
Definition PROPOSER_WEIGHT : Z := 8.
Definition SHARD_COMMITTEE_PERIOD : Z := 256.
Definition SLOTS_PER_HISTORICAL_ROOT : Z := 8192.
Definition SYNC_COMMITTEE_SIZE : Z := 512.
Definition SYNC_REWARD_WEIGHT : Z := 2.
Definition TIMELY_SOURCE_FLAG_INDEX : Z := 0.
Definition TIMELY_TARGET_FLAG_INDEX : Z := 1.
Definition TIMELY_HEAD_FLAG_INDEX : Z := 2.
Definition PARTICIPATION_FLAG_WEIGHTS : list Z := [14; 26; 14].
Definition UINT64_MAX : Z := 18446744073709551615.
Definition UINT64_MAX_SQRT : Z := 4294967295.
Definition UNSET_DEPOSIT_REQUESTS_START_INDEX : Z := 18446744073709551615.
Definition VALIDATOR_REGISTRY_LIMIT : Z := 1099511627776.
Definition WEIGHT_DENOMINATOR : Z := 64.
Definition WHISTLEBLOWER_REWARD_QUOTIENT_ELECTRA : Z := 4096.
Definition COMPOUNDING_WITHDRAWAL_PREFIX : list Z := [2].
Definition ETH1_ADDRESS_WITHDRAWAL_PREFIX : list Z := [1].
Definition BLS_WITHDRAWAL_PREFIX : list Z := [0].

(** ** Epochs and slots *)

Definition compute_epoch_at_slot (slot : Z) : Z := slot / SLOTS_PER_EPOCH.
Definition compute_start_slot_at_epoch (epoch : Z) : Z := (epoch * SLOTS_PER_EPOCH)%u64.
Definition compute_activation_exit_epoch (epoch : Z) : Z := (epoch + 1 + MAX_SEED_LOOKAHEAD)%u64.

(** [u64::is_multiple_of] of a nonzero number. *)
Definition is_multiple_of (a b : Z) : bool := a mod b =? 0.

(** Return the largest integer [x] such that [x * x <= n].  Each round of the loop
    halves the distance to the root at least, so 66 rounds are enough. *)
Fixpoint sqrt_loop (fuel : nat) (n x y : Z) : res anyhow Z :=
  if y <? x then
    match fuel with
    | O => NoFuel
    | S fuel' => q ← u64_div n y; sqrt_loop fuel' n y ((y + q)%u64 / 2)
    end
  else Ok x.
Definition integer_squareroot (n : Z) : res anyhow Z :=
  if n =? UINT64_MAX then Ok UINT64_MAX_SQRT
  else sqrt_loop 66 n n (u64_div_ceil n 2).

(** ** Predicates on a validator *)

Definition has_eth1_withdrawal_credential (self : Validator) : bool :=
  bool_decide (take 1 (withdrawal_credentials self) = ETH1_ADDRESS_WITHDRAWAL_PREFIX).
Definition is_compounding_withdrawal_credential (withdrawal_credentials : B256) : bool :=
  bool_decide (take 1 withdrawal_credentials = COMPOUNDING_WITHDRAWAL_PREFIX).
Definition has_compounding_withdrawal_credential (self : Validator) : bool :=
  is_compounding_withdrawal_credential (withdrawal_credentials self).
Definition has_execution_withdrawal_credential (self : Validator) : bool :=
  has_compounding_withdrawal_credential self || has_eth1_withdrawal_credential self.
Definition get_max_effective_balance (self : Validator) : Z :=
  if has_compounding_withdrawal_credential self then MAX_EFFECTIVE_BALANCE_ELECTRA
  else MIN_ACTIVATION_BALANCE.
Definition is_fully_withdrawable_validator (self : Validator) (balance epoch : Z) : bool :=
  has_execution_withdrawal_credential self && (withdrawable_epoch self <=? epoch) && (0 <? balance).
Definition is_partially_withdrawable_validator (self : Validator) (balance : Z) : bool :=
  let max_effective_balance := get_max_effective_balance self in
  has_execution_withdrawal_credential self && (effective_balance self =? max_effective_balance)
  && (max_effective_balance <? balance).
Definition is_slashable_validator (self : Validator) (epoch : Z) : bool :=
  negb (slashed self) && (activation_epoch self <=? epoch) && (epoch <? withdrawable_epoch self).
Definition is_active_validator (self : Validator) (epoch : Z) : bool :=
  (activation_epoch self <=? epoch) && (epoch <? exit_epoch self).
Definition is_eligible_for_activation_queue (self : Validator) : bool :=
  (activation_eligibility_epoch self =? FAR_FUTURE_EPOCH)
  && (MIN_ACTIVATION_BALANCE <=? effective_balance self).
Definition is_eligible_for_activation (finalized_checkpoint_epoch : Z) (validator : Validator) : bool :=
  (activation_eligibility_epoch validator <=? finalized_checkpoint_epoch)
  && (activation_epoch validator =? FAR_FUTURE_EPOCH).
Definition is_eligible_for_rewards (validator : Validator) (previous_epoch : Z) : bool :=
  is_active_validator validator previous_epoch
  || slashed validator && ((previous_epoch + 1)%u64 <? withdrawable_epoch validator).

Definition is_slashable_attestation_data (data_1 data_2 : AttestationData) : bool :=
  bool_decide (data_1 <> data_2) && (cp_epoch (ad_target data_1) =? cp_epoch (ad_target data_2))
  || (cp_epoch (ad_source data_1) <? cp_epoch (ad_source data_2))
     && (cp_epoch (ad_target data_2) <? cp_epoch (ad_target data_1)).

Fixpoint is_sorted_and_unique (indices : list Z) : bool :=
  match indices with
  | a :: ((b :: _) as rest) => (a <? b) && is_sorted_and_unique rest
  | _ => true
  end.

(** The positions of the bits that are set. *)
Definition get_committee_indices (committee_bits : list bool) : list Z :=
  omap (fun ib : nat * bool => if ib.2 then Some (Z.of_nat ib.1) else None) (enumerate committee_bits).

(** ** Participation flags *)

Definition add_flag (flags flag_index : Z) : Z := Z.lor flags (Z.shiftl 1 flag_index).
Definition has_flag (flags flag_index : Z) : bool :=
  Z.land flags (Z.shiftl 1 flag_index) =? Z.shiftl 1 flag_index.

(** ** Domains and signing roots *)

Section roots.
Context {R : Roots}.

Definition compute_signing_root `{TreeHash T} (ssz_object : T) (domain : B256) : B256 :=
  signing_data_root (tree_hash_root ssz_object) domain.

Definition compute_domain (domain_type : B32) (fork_version : option B32)
    (genesis_validators_root : option B256) : B256 :=
  let root := fork_data_root (default GENESIS_FORK_VERSION fork_version)
                (default B256_ZERO genesis_validators_root) in
  domain_type ++ take 28 root.

Definition get_domain (self : BeaconState) (domain_type : B32) (epoch : option Z) : B256 :=
  let epoch := default (compute_epoch_at_slot (slot self)) epoch in
  let fork_version := if epoch <? fork_epoch (fork self) then previous_version (fork self)
                      else current_version (fork self) in
  compute_domain domain_type (Some fork_version) (Some (genesis_validators_root self)).
End roots.

(** ** Accessors *)

(** The number of candidates tried before a proposer or a sync committee is given up
    on: the source tries without bound. *)
Class CandidateFuel : Type := candidate_fuel : nat.

Section access.
Context {H : Sha256} {F : CandidateFuel} {HO : HashOrder}.

Definition get_current_epoch (self : BeaconState) : Z := compute_epoch_at_slot (slot self).

Definition get_previous_epoch (self : BeaconState) : Z :=
  let current_epoch := get_current_epoch self in
  if current_epoch =? GENESIS_EPOCH then GENESIS_EPOCH else (current_epoch - 1)%u64.

Definition get_block_root_at_slot (self : BeaconState) (s : Z) : res anyhow B256 :=
  ensure ((s <? slot self) && (slot self <=? (s + SLOTS_PER_HISTORICAL_ROOT)%u64))
    "slot given was outside of block_roots range"%string;;
  index (block_roots self) (Z.to_nat (s mod SLOTS_PER_HISTORICAL_ROOT)).

Definition get_block_root (self : BeaconState) (epoch : Z) : res anyhow B256 :=
  get_block_root_at_slot self (compute_start_slot_at_epoch epoch).

Definition get_randao_mix (self : BeaconState) (epoch : Z) : res anyhow B256 :=
  index (randao_mixes self) (Z.to_nat (epoch mod EPOCHS_PER_HISTORICAL_VECTOR)).

Definition get_active_validator_indices (self : BeaconState) (epoch : Z) : list Z :=
  omap (fun iv : nat * Validator =>
    if is_active_validator iv.2 epoch then Some (Z.of_nat iv.1) else None)
    (enumerate (validators self)).

Definition get_validator_churn_limit (self : BeaconState) : Z :=
  let active := get_active_validator_indices self (get_current_epoch self) in
  Z.max MIN_PER_EPOCH_CHURN_LIMIT (Z.of_nat (length active) / CHURN_LIMIT_QUOTIENT).

Definition get_validator_activation_churn_limit (self : BeaconState) : Z :=
  Z.min MAX_PER_EPOCH_ACTIVATION_CHURN_LIMIT (get_validator_churn_limit self).

Definition get_seed (self : BeaconState) (epoch : Z) (domain_type : B32) : res anyhow B256 :=
  mix ← get_randao_mix self (epoch + EPOCHS_PER_HISTORICAL_VECTOR - MIN_SEED_LOOKAHEAD - 1)%u64;
  Ok (hash (domain_type ++ le_bytes 8 epoch ++ mix)).

Definition get_shuffled_active_validator_indices (self : BeaconState) (epoch : Z) :
    res anyhow (list Z) :=
  seed ← get_seed self epoch DOMAIN_BEACON_ATTESTER;
  compute_shuffled_list (get_active_validator_indices self epoch) seed.

Definition get_committee_count_per_slot (self : BeaconState) (epoch : Z) : res anyhow Z :=
  shuffled ← get_shuffled_active_validator_indices self epoch;
  Ok (committee_count_per_slot (Z.of_nat (length shuffled))).

(** Root of the block that decides the attester shuffling of an epoch. *)
Definition shuffling_decision_root (self : BeaconState) (epoch : Z) : option B256 :=
  if (get_current_epoch self + 1)%u64 <? epoch then None
  else if epoch <? 2 then Some B256_ZERO
  else match get_block_root_at_slot self (compute_start_slot_at_epoch (epoch - 1) - 1)%u64 with
       | Ok r => Some r
       | _ => None
       end.

(** Whether the candidate of try [i] is taken: its effective balance against a random
    16-bit value. *)
Definition candidate_accepted (self : BeaconState) (seed : B256) (i candidate_index : Z) :
    res anyhow bool :=
  let random_bytes := hash (seed ++ le_bytes 8 (i / 16)) in
  let offset := i mod 16 * 2 in
  bytes ← slice random_bytes offset (offset + 2);
  let random_value := bytes_to_int64 bytes in
  validator ← index (validators self) (Z.to_nat candidate_index);
  Ok ((MAX_EFFECTIVE_BALANCE_ELECTRA * random_value)%u64
      <=? (effective_balance validator * MAX_RANDOM_VALUE)%u64).

Fixpoint proposer_loop (fuel : nat) (self : BeaconState) (indices : list Z) (seed : B256) (i : Z) :
    res anyhow Z :=
  match fuel with
  | O => NoFuel
  | S fuel' =>
      let total := Z.of_nat (length indices) in
      r ← u64_rem i total;
      shuffled_index ← compute_shuffled_index r total seed;
      candidate_index ← index indices (Z.to_nat shuffled_index);
      accepted ← candidate_accepted self seed i candidate_index;
      if (accepted : bool) then Ok candidate_index
      else proposer_loop fuel' self indices seed (i + 1)%u64
  end.

Definition compute_proposer_index (self : BeaconState) (indices : list Z) (seed : B256) :
    res anyhow Z :=
  ensure (negb (bool_decide (indices = []))) "Index must be less than index_count"%string;;
  proposer_loop candidate_fuel self indices seed 0.

Definition get_beacon_proposer_index (self : BeaconState) (slot_opt : option Z) : res anyhow Z :=
  let '(epoch, s) := match slot_opt with
                     | Some s => (compute_epoch_at_slot s, s)
                     | None => (get_current_epoch self, slot self)
                     end in
  let start_slot := compute_start_slot_at_epoch (get_current_epoch self) in
  let lookahead := if start_slot <=? s then proposer_lookahead self !! Z.to_nat (s - start_slot)%u64
                   else None in
  match lookahead with
  | Some proposer_index => Ok proposer_index
  | None =>
      seed ← get_seed self epoch DOMAIN_BEACON_PROPOSER;
      let seed := hash (seed ++ le_bytes 8 s) in
      compute_proposer_index self (get_active_validator_indices self epoch) seed
  end.

Context {SV : SszVec}.

Definition compute_proposer_indices (self : BeaconState) (epoch : Z) (seed : B256) (indices : list Z) :
    res anyhow (list Z) :=
  let start_slot := compute_start_slot_at_epoch epoch in
  proposer_indices ← mapR (fun i =>
    compute_proposer_index self indices (hash (seed ++ le_bytes 8 (start_slot + i)%u64)))
    (range 0 SLOTS_PER_EPOCH);
  ok_or (fv_new SLOTS_PER_EPOCH proposer_indices) "Failed to create FixedVector"%string.

Definition get_beacon_proposer_indices (self : BeaconState) (epoch : Z) : res anyhow (list Z) :=
  let indices := get_active_validator_indices self epoch in
  seed ← get_seed self epoch DOMAIN_BEACON_PROPOSER;
  compute_proposer_indices self epoch seed indices.

(** ** Balances *)

Definition get_total_balance (self : BeaconState) (indices : gset Z) : res anyhow Z :=
  bs ← mapR (fun i => v ← index (validators self) (Z.to_nat i); Ok (effective_balance v))
         (hs_iter indices);
  Ok (Z.max EFFECTIVE_BALANCE_INCREMENT (u64_sum bs)).

Definition get_total_active_balance (self : BeaconState) : res anyhow Z :=
  get_total_balance self (list_to_set (get_active_validator_indices self (get_current_epoch self))).

Definition get_balance_churn_limit (self : BeaconState) : res anyhow Z :=
  total ← get_total_active_balance self;
  let churn := Z.max MIN_PER_EPOCH_CHURN_LIMIT_ELECTRA (total / CHURN_LIMIT_QUOTIENT) in
  Ok (churn - churn mod EFFECTIVE_BALANCE_INCREMENT)%u64.

Definition get_activation_exit_churn_limit (self : BeaconState) : res anyhow Z :=
  limit ← get_balance_churn_limit self;
  Ok (Z.min MAX_PER_EPOCH_ACTIVATION_EXIT_CHURN_LIMIT limit).

Definition get_consolidation_churn_limit (self : BeaconState) : res anyhow Z :=
  limit ← get_balance_churn_limit self;
  exits ← get_activation_exit_churn_limit self;
  Ok (limit - exits)%u64.

Definition get_pending_balance_to_withdraw (self : BeaconState) (validator_index : Z) : Z :=
  u64_sum (ppw_amount <$> filter (fun w => ppw_validator_index w = validator_index)
                            (pending_partial_withdrawals self)).

Definition get_base_reward_per_increment (self : BeaconState) : res anyhow Z :=
  total ← get_total_active_balance self;
  root ← integer_squareroot total;
  u64_div (EFFECTIVE_BALANCE_INCREMENT * BASE_REWARD_FACTOR)%u64 root.

Definition get_base_reward (self : BeaconState) (i base_reward_per_increment : Z) : res anyhow Z :=
  v ← index (validators self) (Z.to_nat i);
  Ok ((effective_balance v / EFFECTIVE_BALANCE_INCREMENT) * base_reward_per_increment)%u64.

Definition get_proposer_reward (self : BeaconState) (attesting_index : Z) : res anyhow Z :=
  per ← get_base_reward_per_increment self;
  base ← get_base_reward self attesting_index per;
  Ok (base / PROPOSER_REWARD_QUOTIENT).

Definition get_finality_delay (self : BeaconState) : Z :=
  (get_previous_epoch self - cp_epoch (finalized_checkpoint self))%u64.
Definition is_in_inactivity_leak (self : BeaconState) : bool :=
  MIN_EPOCHS_TO_INACTIVITY_PENALTY <? get_finality_delay self.

Definition get_eligible_validator_indices (self : BeaconState) : list Z :=
  let previous_epoch := get_previous_epoch self in
  omap (fun iv : nat * Validator =>
    if is_eligible_for_rewards iv.2 previous_epoch then Some (Z.of_nat iv.1) else None)
    (enumerate (validators self)).

(** ** Committees and attestations *)

Definition get_beacon_committee (self : BeaconState) (s i : Z) : res anyhow (list Z) :=
  shuffled ← get_shuffled_active_validator_indices self (compute_epoch_at_slot s);
  committee_in_shuffling shuffled s i.

(** The first slot and committee, in order, that holds the validator. *)
Fixpoint find_assignment (self : BeaconState) (validator_index : Z) (duties : list (Z * Z)) :
    res anyhow (option (list Z * Z * Z)) :=
  match duties with
  | [] => Ok None
  | (s, i) :: rest =>
      committee ← get_beacon_committee self s i;
      if bool_decide (validator_index ∈ committee) then Ok (Some (committee, i, s))
      else find_assignment self validator_index rest
  end.

Definition get_committee_assignment (self : BeaconState) (epoch validator_index : Z) :
    res anyhow (option (list Z * Z * Z)) :=
  let next_epoch := (get_current_epoch self + 1)%u64 in
  ensure (epoch <=? next_epoch) "Requested epoch is beyond the allowed maximum"%string;;
  let start_slot := compute_start_slot_at_epoch epoch in
  committee_count ← get_committee_count_per_slot self epoch;
  find_assignment self validator_index
    (s ← range start_slot (start_slot + SLOTS_PER_EPOCH)%u64; pair s <$> range 0 committee_count).

Definition get_attesting_indices (self : BeaconState) (attestation : Attestation) :
    res anyhow (gset Z) :=
  r ← foldM (fun (acc : gset Z * nat) committee_index =>
        committee ← get_beacon_committee self (ad_slot (att_data attestation)) committee_index;
        let '(output, committee_offset) := acc in
        output ← foldM (fun output (ia : nat * Z) =>
          bit ← ok_or (bits_get (aggregation_bits attestation) (committee_offset + ia.1)%nat)
                  "Failed to get aggregation_bit"%string;
          Ok (if (bit : bool) then {[ ia.2 ]} ∪ output else output)) output (enumerate committee);
        Ok (output, committee_offset + length committee)%nat)
      (∅, 0%nat) (get_committee_indices (committee_bits attestation));
  Ok r.1.

Definition get_indexed_attestation (self : BeaconState) (attestation : Attestation) :
    res anyhow IndexedAttestation :=
  indices ← get_attesting_indices self attestation;
  indices ← ok_or (vl_try_from 131072 (sort_by Z.leb (hs_iter indices)))
              "Failed to convert attesting_indices to VariableList"%string;
  Ok (mkIndexedAttestation indices (att_data attestation) (att_signature attestation)).

Context {R : Roots} {B : Bls}.

Definition is_valid_indexed_attestation (self : BeaconState) (indexed : IndexedAttestation) :
    res anyhow bool :=
  let indices := attesting_indices indexed in
  if bool_decide (indices = []) || negb (is_sorted_and_unique indices) then Ok false
  else
    let domain := get_domain self DOMAIN_BEACON_ATTESTER (Some (cp_epoch (ad_target (ia_data indexed)))) in
    let signing_root := compute_signing_root (ia_data indexed) domain in
    keys ← mapR (fun i => v ← ok_or (validators self !! Z.to_nat i) "Invalid index"%string;
                          Ok (public_key v)) indices;
    fast_aggregate_verify (ia_signature indexed) keys signing_root.

Definition get_attestation_participation_flag_indices (self : BeaconState) (data : AttestationData)
    (inclusion_delay : Z) : res anyhow (list Z) :=
  let justified_checkpoint :=
    if cp_epoch (ad_target data) =? get_current_epoch self then current_justified_checkpoint self
    else previous_justified_checkpoint self in
  let is_matching_source := bool_decide (ad_source data = justified_checkpoint) in
  is_matching_target ←
    (if (is_matching_source : bool)
     then r ← get_block_root self (cp_epoch (ad_target data)); Ok (bool_decide (cp_root (ad_target data) = r))
     else Ok false);
  is_matching_head ←
    (if (is_matching_target : bool)
     then r ← get_block_root_at_slot self (ad_slot data); Ok (bool_decide (ad_beacon_block_root data = r))
     else Ok false);
  ensure is_matching_source "is_matching_source"%string;;
  root ← integer_squareroot SLOTS_PER_EPOCH;
  Ok ((if is_matching_source && (inclusion_delay <=? root) then [TIMELY_SOURCE_FLAG_INDEX] else [])
      ++ (if (is_matching_target : bool) then [TIMELY_TARGET_FLAG_INDEX] else [])
      ++ (if (is_matching_head : bool) && (inclusion_delay =? MIN_ATTESTATION_INCLUSION_DELAY)
          then [TIMELY_HEAD_FLAG_INDEX] else [])).

(** ** Eth1 votes *)

Context {N : BeaconNetworkSpec}.

Definition compute_timestamp_at_slot (self : BeaconState) (s : Z) : Z :=
  let slots_since_genesis := (s - GENESIS_SLOT)%u64 in
  (genesis_time self + slots_since_genesis * seconds_per_slot)%u64.

Definition voting_period_start_time (self : BeaconState) : Z :=
  let eth1_voting_period_start_slot :=
    (slot self - slot self mod (EPOCHS_PER_ETH1_VOTING_PERIOD * SLOTS_PER_EPOCH))%u64 in
  compute_timestamp_at_slot self eth1_voting_period_start_slot.

Definition get_eth1_pending_deposit_count (self : BeaconState) : Z :=
  let eth1_deposit_index_limit :=
    Z.min (deposit_count (eth1_data self)) (deposit_requests_start_index self) in
  if eth1_deposit_index self <? eth1_deposit_index_limit
  then Z.min MAX_DEPOSITS (eth1_deposit_index_limit - eth1_deposit_index self)%u64 else 0.
End access.
