(* ===== verification/BeaconMutate.v ===== *)
(** * Changing balances and the registry

    The operations of [beacon_state.rs] that block and epoch processing share:
    balances, exits, slashing, the deposit queue and the registry.  A method that takes
    [&mut self] is a computation of [BM]: when it fails, the fields it had assigned
    stay assigned. *)

From stdpp Require Import strings.
From S2P Require Import Prelude StateMonad Bytes Shuffling BeaconTypes BeaconAccess.

Definition BM : Type -> Type := M BeaconState anyhow.

Lemma bindM_match {A B} (m : BM A) (k : A -> BM B) s :
  (m ≫= k) s =
  match m s with
  | (s', Ok a) => k a s' | (s', Err e) => (s', Err e) | (s', Panic) => (s', Panic) | (s', NoFuel) => (s', NoFuel)
  end.
Proof. unfold mbind, M_bind. by destruct (m s) as [s' []]. Qed.

(** [self.validators[i]] as a place: assignment panics out of range. *)
Definition update_validator (i : nat) (f : Validator -> Validator) : BM unit := fun s =>
  match validators s !! i with
  | Some v => (set_validators (<[i := f v]> (validators s)) s, Ok tt)
  | None => (s, Panic)
  end.

(** [push] on a field of the state, with the error of the call. *)
Definition push_to {A} (push : list A -> A -> option (list A)) (get : BeaconState -> list A)
    (set : list A -> BeaconState -> BeaconState) (a : A) (err : string) : BM unit := fun s =>
  match push (get s) a with
  | Some l => (set l s, Ok tt)
  | None => (s, Err err)
  end.

(** [ChunkedList::push]. *)
Definition cl_push {A} (max : Z) (l : list A) (a : A) : option (list A) :=
  if max <=? Z.of_nat (length l) then None else Some (l ++ [a]).

Section mutate.
Context {H : Sha256} {F : CandidateFuel} {HO : HashOrder} {SV : SszVec}.

Definition increase_balance (i delta : Z) : BM unit := fun s =>
  match balances s !! Z.to_nat i with
  | Some b => (set_balances (<[Z.to_nat i := (b + delta)%u64]> (balances s)) s, Ok tt)
  | None => (s, Err "failed to increase balance"%string)
  end.

Definition decrease_balance (i delta : Z) : BM unit := fun s =>
  match balances s !! Z.to_nat i with
  | Some b => (set_balances (<[Z.to_nat i := u64_saturating_sub b delta]> (balances s)) s, Ok tt)
  | None => (s, Err "failed to decrease balance"%string)
  end.

(** ** Exits *)

(** What the two churn computations do to the epoch and the balance left in it. *)
Definition consume_churn (earliest to_consume activation_exit_epoch per_epoch_churn balance : Z) :
    res anyhow (Z * Z) :=
  let earliest_epoch := Z.max earliest activation_exit_epoch in
  let balance_to_consume := if earliest <? earliest_epoch then per_epoch_churn else to_consume in
  if balance_to_consume <? balance then
    let balance_to_process := (balance - balance_to_consume)%u64 in
    q ← u64_div (balance_to_process - 1)%u64 per_epoch_churn;
    let additional_epochs := (q + 1)%u64 in
    Ok ((earliest_epoch + additional_epochs)%u64,
        ((balance_to_consume + additional_epochs * per_epoch_churn) - balance)%u64)
  else Ok (earliest_epoch, (balance_to_consume - balance)%u64).

Definition compute_exit_epoch_and_update_churn (exit_balance : Z) : BM Z :=
  per_epoch_churn ← reads get_activation_exit_churn_limit;
  r ← reads (fun s => consume_churn (earliest_exit_epoch s) (exit_balance_to_consume s)
                        (compute_activation_exit_epoch (get_current_epoch s)) per_epoch_churn exit_balance);
  modify (set_exit_balance_to_consume r.2);;
  modify (set_earliest_exit_epoch r.1);;
  mret r.1.

Definition compute_consolidation_epoch_and_update_churn (consolidation_balance : Z) : BM Z :=
  per_epoch_churn ← reads get_consolidation_churn_limit;
  r ← reads (fun s => consume_churn (earliest_consolidation_epoch s) (consolidation_balance_to_consume s)
                        (compute_activation_exit_epoch (get_current_epoch s)) per_epoch_churn
                        consolidation_balance);
  modify (set_consolidation_balance_to_consume r.2);;
  modify (set_earliest_consolidation_epoch r.1);;
  mret r.1.

(** [u64::checked_add]. *)
Definition u64_checked_add (a b : Z) : option Z := if a + b <? 2 ^ 64 then Some (a + b) else None.

Definition initiate_validator_exit (i : Z) : BM unit :=
  validator ← reads (fun s => ok_or (validators s !! Z.to_nat i) "could not get validator"%string);
  if negb (exit_epoch validator =? FAR_FUTURE_EPOCH) then mret tt
  else
    exit_queue_epoch ← compute_exit_epoch_and_update_churn (effective_balance validator);
    reads (fun s => ok_or (validators s !! Z.to_nat i) "could not get validator"%string);;
    update_validator (Z.to_nat i) (set_exit_epoch exit_queue_epoch);;
    w ← lift (ok_or (u64_checked_add exit_queue_epoch MIN_VALIDATOR_WITHDRAWABILITY_DELAY)
                "Failed to set withdrawable epoch"%string);
    update_validator (Z.to_nat i) (set_withdrawable_epoch w).

(** ** Slashing *)

Definition slash_validator (slashed_index : Z) (whistleblower_index : option Z) : BM unit :=
  epoch ← reads (fun s => Ok (get_current_epoch s));
  initiate_validator_exit slashed_index;;
  validator ← reads (fun s => ok_or (validators s !! Z.to_nat slashed_index) "Validator not found"%string);
  update_validator (Z.to_nat slashed_index) (fun v =>
    set_withdrawable_epoch (Z.max (withdrawable_epoch v) (epoch + EPOCHS_PER_SLASHINGS_VECTOR)%u64)
      (set_slashed true v));;
  let validator_effective_balance := effective_balance validator in
  let k := Z.to_nat (epoch mod EPOCHS_PER_SLASHINGS_VECTOR) in
  old ← reads (fun s => index (slashings s) k);
  modify (fun s => set_slashings (<[k := (old + validator_effective_balance)%u64]> (slashings s)) s);;
  decrease_balance slashed_index (validator_effective_balance / MIN_SLASHING_PENALTY_QUOTIENT_ELECTRA);;
  proposer_index ← reads (fun s => get_beacon_proposer_index s None);
  let whistleblower_index := default proposer_index whistleblower_index in
  let whistleblower_reward := validator_effective_balance / WHISTLEBLOWER_REWARD_QUOTIENT_ELECTRA in
  let proposer_reward := (whistleblower_reward * PROPOSER_WEIGHT)%u64 / WEIGHT_DENOMINATOR in
  increase_balance proposer_index proposer_reward;;
  increase_balance whistleblower_index (whistleblower_reward - proposer_reward)%u64.

(** ** The registry *)

Definition get_validator_from_deposit (pk : PublicKey) (credentials : B256) (amount : Z) : Validator :=
  let validator := mkValidator pk credentials 0 false FAR_FUTURE_EPOCH FAR_FUTURE_EPOCH
                     FAR_FUTURE_EPOCH FAR_FUTURE_EPOCH in
  let max_effective_balance := get_max_effective_balance validator in
  set_effective_balance
    (Z.min (amount - amount mod EFFECTIVE_BALANCE_INCREMENT)%u64 max_effective_balance) validator.

Definition add_validator_to_registry (pk : PublicKey) (credentials : B256) (amount : Z) : BM unit :=
  push_to (cl_push VALIDATOR_REGISTRY_LIMIT) validators set_validators
    (get_validator_from_deposit pk credentials amount) "Couldn't push to validators"%string;;
  push_to (vl_push VALIDATOR_REGISTRY_LIMIT) balances set_balances
    amount "Couldn't push to balances"%string;;
  push_to (vl_push VALIDATOR_REGISTRY_LIMIT) previous_epoch_participation set_previous_epoch_participation
    0 "Couldn't push to previous_epoch_participation"%string;;
  push_to (vl_push VALIDATOR_REGISTRY_LIMIT) current_epoch_participation set_current_epoch_participation
    0 "Couldn't push to current_epoch_participation"%string;;
  push_to (vl_push VALIDATOR_REGISTRY_LIMIT) inactivity_scores set_inactivity_scores
    0 "Couldn't push to inactivity_scores"%string.

(** The registry's chunks: [CHUNK_SIZE] validators each, the last one shorter. *)
Definition CHUNK_SIZE : nat := 1024.

(** The first 8 bytes of a key as an integer. *)
Definition public_key_prefix (pk : PublicKey) : Z := from_le_bytes (take 8 (pk_inner pk)).

(** The matches in one chunk, in ascending order of index. *)
Definition scan_chunk (prefixes : list Z) (public_keys : list PublicKey) (ic : nat * list Validator) :
    list (nat * PublicKey) :=
  omap (fun ov : nat * Validator =>
    if bool_decide (public_key_prefix (public_key ov.2) ∈ prefixes)
       && bool_decide (public_key ov.2 ∈ public_keys)
    then Some ((ic.1 * CHUNK_SIZE + ov.1)%nat, public_key ov.2) else None)
    (enumerate ic.2).

(** [entry(key).or_insert(index)]. *)
Definition or_insert `{Countable K} {V} (m : gmap K V) (k : K) (v : V) : gmap K V :=
  match m !! k with Some _ => m | None => <[k := v]> m end.

Definition find_validator_indices (self : BeaconState) (public_keys : list PublicKey) :
    gmap PublicKey nat :=
  match public_keys with
  | [] => ∅
  | _ =>
      let prefixes := public_key_prefix <$> public_keys in
      let matches := enumerate (chunks CHUNK_SIZE (validators self)) ≫= scan_chunk prefixes public_keys in
      foldl (fun m ik => or_insert m ik.2 ik.1) ∅ matches
  end.

Definition find_validator_index (self : BeaconState) (pk : PublicKey) : option nat :=
  find_validator_indices self [pk] !! pk.

(** ** Deposits *)

Context {R : Roots} {B : Bls} {N : BeaconNetworkSpec}.

Definition is_valid_deposit_signature (pk : PublicKey) (credentials : B256) (amount : Z)
    (signature : BLSSignature) : res anyhow bool :=
  let deposit_message := mkDepositMessage pk credentials amount in
  let domain := compute_domain DOMAIN_DEPOSIT (Some genesis_fork_version) None in
  bls_verify signature pk (compute_signing_root deposit_message domain).

(** The index of the validator it added, if any. *)
Definition apply_pending_deposit_to (deposit : PendingDeposit) (validator_index : option nat) :
    BM (option nat) :=
  match validator_index with
  | Some i => increase_balance (Z.of_nat i) (pd_amount deposit);; mret None
  | None =>
      valid ← lift match is_valid_deposit_signature (pd_public_key deposit)
                           (pd_withdrawal_credentials deposit) (pd_amount deposit) (pd_signature deposit) with
                   | Err _ => Ok false
                   | r => r
                   end;
      if negb valid then mret None
      else
        add_validator_to_registry (pd_public_key deposit) (pd_withdrawal_credentials deposit)
          (pd_amount deposit);;
        reads (fun s => Ok (Some (length (validators s) - 1)%nat))
  end.

Definition push_pending_deposit (deposit : PendingDeposit) (err : string) : BM unit :=
  push_to (vl_push PENDING_DEPOSITS_LIMIT) pending_deposits set_pending_deposits deposit err.

Definition queue_excess_active_balance (i : Z) : BM unit :=
  balance ← reads (fun s => ok_or (balances s !! Z.to_nat i) "Balance index out of bounds"%string);
  if MIN_ACTIVATION_BALANCE <? balance then
    let excess_balance := (balance - MIN_ACTIVATION_BALANCE)%u64 in
    modify (fun s => set_balances (<[Z.to_nat i := MIN_ACTIVATION_BALANCE]> (balances s)) s);;
    validator ← reads (fun s => ok_or (validators s !! Z.to_nat i) "Validator index out of bounds"%string);
    push_pending_deposit
      (mkPendingDeposit (public_key validator) (withdrawal_credentials validator) excess_balance
         infinity GENESIS_SLOT)
      "Failed to push excess active balance to pending deposits"%string
  else mret tt.

Definition switch_to_compounding_validator (i : Z) : BM unit :=
  validator ← reads (fun s => ok_or (validators s !! Z.to_nat i) "Validator index out of bounds"%string);
  update_validator (Z.to_nat i) (fun v =>
    set_withdrawal_credentials
      (COMPOUNDING_WITHDRAWAL_PREFIX ++ drop 1 (withdrawal_credentials validator)) v);;
  queue_excess_active_balance i.
End mutate.
