(* ===== verification/BeaconEpoch.v ===== *)
(** * Epoch processing

    The steps of [BeaconState::process_epoch] in
    [crates/common/consensus/beacon/src/electra/beacon_state.rs]: justification and
    finality, inactivity scores, rewards and penalties, the registry, slashings, the
    pending deposits and consolidations, effective balances, and the rotating vectors. *)

From stdpp Require Import strings.
From S2P Require Import Prelude StateMonad Bytes Shuffling BeaconTypes BeaconAccess BeaconMutate.

Record JustificationAndFinalization : Type := mkJustificationAndFinalization {
  jf_justification_bits : list bool;
  jf_previous_justified_checkpoint : Checkpoint;
  jf_current_justified_checkpoint : Checkpoint;
  jf_finalized_checkpoint : Checkpoint;
}.

(** What every validator's rewards and penalties for the previous epoch depend on. *)
Record EpochRewards : Type := mkEpochRewards {
  er_base_reward_per_increment : Z;
  er_active_increments : Z;
  er_is_in_inactivity_leak : bool;
  er_flags : list (list bool * Z);
}.

Section epoch.
Context {H : Sha256} {F : CandidateFuel} {HO : HashOrder} {SV : SszVec}.

(** ** Participation *)

Definition get_unslashed_participating_mask (self : BeaconState) (flag_index epoch : Z) :
    res anyhow (list bool * Z) :=
  ensure ((epoch =? get_previous_epoch self) || (epoch =? get_current_epoch self))
    "Epoch must be either the previous or current epoch"%string;;
  let epoch_participation := if epoch =? get_current_epoch self then current_epoch_participation self
                             else previous_epoch_participation self in
  let participating (vf : Validator * Z) :=
    is_active_validator vf.1 epoch && negb (slashed vf.1) && has_flag vf.2 flag_index in
  let pairs := zip (validators self) epoch_participation in
  let balance := foldl (fun b vf => if participating vf then (b + effective_balance vf.1)%u64 else b) 0 pairs in
  Ok (participating <$> pairs, Z.max EFFECTIVE_BALANCE_INCREMENT balance).

Definition get_unslashed_participating_indices (self : BeaconState) (flag_index epoch : Z) :
    res anyhow (gset Z) :=
  ensure ((epoch =? get_previous_epoch self) || (epoch =? get_current_epoch self))
    "Epoch must be either the previous or current epoch"%string;;
  let epoch_participation := if epoch =? get_current_epoch self then current_epoch_participation self
                             else previous_epoch_participation self in
  participating ← foldM (fun acc i =>
    flags ← index epoch_participation (Z.to_nat i);
    Ok (if has_flag flags flag_index then acc ++ [i] else acc))
    [] (get_active_validator_indices self epoch);
  unslashed ← foldM (fun acc i =>
    v ← index (validators self) (Z.to_nat i);
    Ok (if negb (slashed v) then acc ++ [i] else acc)) [] participating;
  Ok (list_to_set unslashed).

(** One chunk's sums for the previous and the current epoch. *)
Definition sum_chunk (previous_epoch current_epoch flag_index : Z)
    (vs : list Validator) (previous current : list Z) : Z * Z :=
  foldl (fun (acc : Z * Z) (vpc : Validator * Z * Z) =>
    let '(validator, previous_flags, current_flags) := vpc in
    if slashed validator then acc
    else
      (if is_active_validator validator previous_epoch && has_flag previous_flags flag_index
       then (acc.1 + effective_balance validator)%u64 else acc.1,
       if is_active_validator validator current_epoch && has_flag current_flags flag_index
       then (acc.2 + effective_balance validator)%u64 else acc.2))
    (0, 0) (zip (zip vs previous) current).

(** [&list[start.min(len)..end.min(len)]]. *)
Definition clamped {A} (l : list A) (start end_ : nat) : list A :=
  let a := Nat.min start (length l) in
  let b := Nat.min end_ (length l) in
  take (b - a) (drop a l).

Definition get_unslashed_participating_balances (self : BeaconState) (flag_index : Z) : Z * Z :=
  let previous_epoch := get_previous_epoch self in
  let current_epoch := get_current_epoch self in
  let parts := (fun ic : nat * list Validator =>
    let start := (ic.1 * CHUNK_SIZE)%nat in
    let end_ := (start + length ic.2)%nat in
    sum_chunk previous_epoch current_epoch flag_index ic.2
      (clamped (previous_epoch_participation self) start end_)
      (clamped (current_epoch_participation self) start end_))
    <$> enumerate (chunks CHUNK_SIZE (validators self)) in
  let total := foldl (fun (t p : Z * Z) => ((t.1 + p.1)%u64, (t.2 + p.2)%u64)) (0, 0) parts in
  (Z.max EFFECTIVE_BALANCE_INCREMENT total.1, Z.max EFFECTIVE_BALANCE_INCREMENT total.2).

(** ** Justification and finality *)

Definition current_justification (self : BeaconState) : JustificationAndFinalization :=
  mkJustificationAndFinalization (justification_bits self) (previous_justified_checkpoint self)
    (current_justified_checkpoint self) (finalized_checkpoint self).

Definition apply_justification_and_finalization (outcome : JustificationAndFinalization)
    (self : BeaconState) : BeaconState :=
  set_finalized_checkpoint (jf_finalized_checkpoint outcome)
    (set_current_justified_checkpoint (jf_current_justified_checkpoint outcome)
      (set_previous_justified_checkpoint (jf_previous_justified_checkpoint outcome)
        (set_justification_bits (jf_justification_bits outcome) self))).

Definition set_bit (bits : list bool) (i : nat) (b : bool) : res anyhow (list bool) :=
  ok_or (bits_set bits i b) "Failed to set justification bit"%string.

(** The bits move one position up, the newest becomes 0. *)
Definition shift_bits (bits : list bool) : res anyhow (list bool) :=
  bits ← foldM (fun bits i =>
    bit ← ok_or (bits_get bits (i - 1)) "Failed to get justification bit"%string;
    set_bit bits i bit) bits (reverse (seq 1 (JUSTIFICATION_BITS_LENGTH - 1)));
  set_bit bits 0 false.

Definition all_bits (bits : list bool) (start end_ : Z) : res anyhow bool :=
  l ← slice bits start end_; Ok (forallb id l).

Definition justification_outcome (self : BeaconState)
    (total_active_balance previous_epoch_target_balance current_epoch_target_balance : Z) :
    res anyhow JustificationAndFinalization :=
  let previous_epoch := get_previous_epoch self in
  let current_epoch := get_current_epoch self in
  let old_previous_justified_checkpoint := previous_justified_checkpoint self in
  let old_current_justified_checkpoint := current_justified_checkpoint self in
  bits ← shift_bits (justification_bits self);
  r ← (if (total_active_balance * 2)%u64 <=? (previous_epoch_target_balance * 3)%u64 then
         root ← get_block_root self previous_epoch;
         bits ← set_bit bits 1 true;
         Ok (bits, mkCheckpoint previous_epoch root)
       else Ok (bits, current_justified_checkpoint self));
  let '(bits, justified) := (r : list bool * Checkpoint) in
  r ← (if (total_active_balance * 2)%u64 <=? (current_epoch_target_balance * 3)%u64 then
         root ← get_block_root self current_epoch;
         bits ← set_bit bits 0 true;
         Ok (bits, mkCheckpoint current_epoch root)
       else Ok (bits, justified));
  let '(bits, justified) := (r : list bool * Checkpoint) in
  b14 ← all_bits bits 1 4;
  b13 ← all_bits bits 1 3;
  b03 ← all_bits bits 0 3;
  b02 ← all_bits bits 0 2;
  let finalized := finalized_checkpoint self in
  let finalized := if (b14 : bool) && ((cp_epoch old_previous_justified_checkpoint + 3)%u64 =? current_epoch)
                   then old_previous_justified_checkpoint else finalized in
  let finalized := if (b13 : bool) && ((cp_epoch old_previous_justified_checkpoint + 2)%u64 =? current_epoch)
                   then old_previous_justified_checkpoint else finalized in
  let finalized := if (b03 : bool) && ((cp_epoch old_current_justified_checkpoint + 2)%u64 =? current_epoch)
                   then old_current_justified_checkpoint else finalized in
  let finalized := if (b02 : bool) && ((cp_epoch old_current_justified_checkpoint + 1)%u64 =? current_epoch)
                   then old_current_justified_checkpoint else finalized in
  Ok (mkJustificationAndFinalization bits (current_justified_checkpoint self) justified finalized).

Definition weigh_justification_and_finalization
    (total_active_balance previous_epoch_target_balance current_epoch_target_balance : Z) : BM unit :=
  outcome ← reads (fun s => justification_outcome s total_active_balance
                              previous_epoch_target_balance current_epoch_target_balance);
  modify (apply_justification_and_finalization outcome).

Definition compute_justification_and_finalization (self : BeaconState) :
    res anyhow JustificationAndFinalization :=
  if get_current_epoch self <=? GENESIS_EPOCH + 1 then Ok (current_justification self)
  else
    total_active_balance ← get_total_active_balance self;
    let '(previous_target_balance, current_target_balance) :=
      get_unslashed_participating_balances self TIMELY_TARGET_FLAG_INDEX in
    justification_outcome self total_active_balance previous_target_balance current_target_balance.

Definition process_justification_and_finalization : BM unit :=
  outcome ← reads compute_justification_and_finalization;
  modify (apply_justification_and_finalization outcome).

(** ** Inactivity *)

Definition update_score (i : nat) (f : Z -> Z) : BM unit := fun s =>
  match inactivity_scores s !! i with
  | Some x => (set_inactivity_scores (<[i := f x]> (inactivity_scores s)) s, Ok tt)
  | None => (s, Panic)
  end.

Definition process_inactivity_updates : BM unit :=
  current_epoch ← reads (fun s => Ok (get_current_epoch s));
  if current_epoch =? GENESIS_EPOCH then mret tt
  else
    mask ← reads (fun s => get_unslashed_participating_mask s TIMELY_TARGET_FLAG_INDEX (get_previous_epoch s));
    leak ← reads (fun s => Ok (is_in_inactivity_leak s));
    eligible ← reads (fun s => Ok (get_eligible_validator_indices s));
    forM eligible (fun i =>
      participating ← lift (index (mask.1) (Z.to_nat i));
      update_score (Z.to_nat i) (fun x =>
        if (participating : bool) then (x - Z.min 1 x)%u64 else (x + INACTIVITY_SCORE_BIAS)%u64);;
      if negb leak then update_score (Z.to_nat i) (fun x => (x - Z.min INACTIVITY_SCORE_RECOVERY_RATE x)%u64)
      else mret tt).

(** ** Rewards and penalties *)

Definition epoch_rewards (self : BeaconState) : res anyhow EpochRewards :=
  let previous_epoch := get_previous_epoch self in
  flags ← mapR (fun flag_index =>
    m ← get_unslashed_participating_mask self flag_index previous_epoch;
    Ok (m.1, m.2 / EFFECTIVE_BALANCE_INCREMENT))
    (range 0 (Z.of_nat (length PARTICIPATION_FLAG_WEIGHTS)));
  per ← get_base_reward_per_increment self;
  total ← get_total_active_balance self;
  Ok (mkEpochRewards per (total / EFFECTIVE_BALANCE_INCREMENT) (is_in_inactivity_leak self) flags).

Definition flag_index_delta (self : BeaconState) (er : EpochRewards) (i flag_index : nat) :
    res anyhow (Z * Z) :=
  base_reward ← get_base_reward self (Z.of_nat i) (er_base_reward_per_increment er);
  weight ← index PARTICIPATION_FLAG_WEIGHTS flag_index;
  flag ← index (er_flags er) flag_index;
  let '(participating, participating_increments) := (flag : list bool * Z) in
  p ← index participating i;
  if (p : bool) then
    if er_is_in_inactivity_leak er then Ok (0, 0)
    else
      reward ← u64_div (base_reward * weight * participating_increments)%u64
                 (er_active_increments er * WEIGHT_DENOMINATOR)%u64;
      Ok (reward, 0)
  else if Z.of_nat flag_index =? TIMELY_HEAD_FLAG_INDEX then Ok (0, 0)
  else Ok (0, (base_reward * weight)%u64 / WEIGHT_DENOMINATOR).

Definition inactivity_penalty (self : BeaconState) (er : EpochRewards) (i : nat) : res anyhow Z :=
  flag ← index (er_flags er) (Z.to_nat TIMELY_TARGET_FLAG_INDEX);
  p ← index (fst (flag : list bool * Z)) i;
  if (p : bool) then Ok 0
  else
    v ← index (validators self) i;
    score ← index (inactivity_scores self) i;
    Ok ((effective_balance v * score)%u64
        / (INACTIVITY_SCORE_BIAS * INACTIVITY_PENALTY_QUOTIENT_BELLATRIX)%u64).

(** [rewards[index] += r], on a list of the registry's length. *)
Definition add_at (l : list Z) (i : nat) (d : Z) : res anyhow (list Z) :=
  x ← index l i; Ok (<[i := (x + d)%u64]> l).

Definition get_flag_index_deltas (self : BeaconState) (flag_index : Z) : res anyhow (list Z * list Z) :=
  let zeros := replicate (length (validators self)) 0 in
  er ← epoch_rewards self;
  foldM (fun (acc : list Z * list Z) i =>
    d ← flag_index_delta self er (Z.to_nat i) (Z.to_nat flag_index);
    rewards ← add_at acc.1 (Z.to_nat i) (fst (d : Z * Z));
    penalties ← add_at acc.2 (Z.to_nat i) (snd (d : Z * Z));
    Ok (rewards, penalties)) (zeros, zeros) (get_eligible_validator_indices self).

Definition get_inactivity_penalty_deltas (self : BeaconState) : res anyhow (list Z * list Z) :=
  let zeros := replicate (length (validators self)) 0 in
  er ← epoch_rewards self;
  penalties ← foldM (fun acc i =>
    d ← inactivity_penalty self er (Z.to_nat i);
    add_at acc (Z.to_nat i) d) zeros (get_eligible_validator_indices self);
  Ok (zeros, penalties).

(** [self.balances[index] = f(self.balances[index])]. *)
Definition update_balance (i : nat) (f : Z -> Z) : BM unit := fun s =>
  match balances s !! i with
  | Some x => (set_balances (<[i := f x]> (balances s)) s, Ok tt)
  | None => (s, Panic)
  end.

Definition reward_validator (er : EpochRewards) (previous_epoch : Z) (i : nat) : BM unit :=
  v ← reads (fun s => index (validators s) i);
  if negb (is_eligible_for_rewards v previous_epoch) then mret tt
  else
    forM (seq 0 (length PARTICIPATION_FLAG_WEIGHTS)) (fun flag_index =>
      d ← reads (fun s => flag_index_delta s er i flag_index);
      update_balance i (fun b => u64_saturating_sub (b + fst (d : Z * Z))%u64 (snd (d : Z * Z))));;
    penalty ← reads (fun s => inactivity_penalty s er i);
    update_balance i (fun b => u64_saturating_sub b penalty).

Definition process_rewards_and_penalties : BM unit :=
  current_epoch ← reads (fun s => Ok (get_current_epoch s));
  if current_epoch =? GENESIS_EPOCH then mret tt
  else
    reads (fun s => ensure (length (validators s) <=? length (balances s))%nat
                      "fewer balances than validators"%string);;
    er ← reads epoch_rewards;
    previous_epoch ← reads (fun s => Ok (get_previous_epoch s));
    n ← reads (fun s => Ok (length (validators s)));
    forM (seq 0 n) (reward_validator er previous_epoch).

(** ** Registry *)

(** What the scan of the registry decides about one validator. *)
Inductive RegistryAction : Type := Queue | Eject | Activate | Nothing.

Definition registry_action (current_epoch finalized_checkpoint_epoch : Z) (validator : Validator) :
    RegistryAction :=
  if is_eligible_for_activation_queue validator then Queue
  else if is_active_validator validator current_epoch && (effective_balance validator <=? EJECTION_BALANCE)
  then Eject
  else if is_eligible_for_activation finalized_checkpoint_epoch validator then Activate
  else Nothing.

Definition select_action (a : RegistryAction) (actions : list (nat * RegistryAction)) : list nat :=
  omap (fun ia : nat * RegistryAction =>
    match a, ia.2 with
    | Queue, Queue | Eject, Eject | Activate, Activate => Some ia.1
    | _, _ => None
    end) actions.

Definition process_registry_updates : BM unit :=
  current_epoch ← reads (fun s => Ok (get_current_epoch s));
  let activation_epoch := compute_activation_exit_epoch current_epoch in
  eligibility_epoch ← lift (ok_or (u64_checked_add current_epoch 1)
                              "Epoch overflow when setting activation eligibility epoch"%string);
  actions ← reads (fun s => Ok (enumerate
    (registry_action current_epoch (cp_epoch (finalized_checkpoint s)) <$> validators s)));
  forM (select_action Queue actions) (fun i =>
    update_validator i (set_activation_eligibility_epoch eligibility_epoch));;
  forM (select_action Activate actions) (fun i =>
    update_validator i (set_activation_epoch activation_epoch));;
  forM (select_action Eject actions) (fun i => initiate_validator_exit (Z.of_nat i)).

(** ** Slashings *)

Definition process_slashings : BM unit :=
  epoch ← reads (fun s => Ok (get_current_epoch s));
  total_balance ← reads get_total_active_balance;
  adjusted ← reads (fun s => Ok
    (Z.min (u64_sum (slashings s) * PROPORTIONAL_SLASHING_MULTIPLIER_BELLATRIX)%u64 total_balance));
  let increment := EFFECTIVE_BALANCE_INCREMENT in
  penalty_per_effective_balance_increment ← lift (u64_div adjusted (total_balance / increment));
  n ← reads (fun s => Ok (length (validators s)));
  forM (seq 0 n) (fun i =>
    validator ← reads (fun s => ok_or (validators s !! i) "Invalid validator index"%string);
    if slashed validator
       && ((epoch + EPOCHS_PER_SLASHINGS_VECTOR / 2)%u64 =? withdrawable_epoch validator)
    then
      let effective_balance_increments := effective_balance validator / increment in
      let penalty := (penalty_per_effective_balance_increment * effective_balance_increments)%u64 in
      decrease_balance (Z.of_nat i) penalty
    else mret tt).

Definition process_eth1_data_reset : BM unit :=
  modify (fun s =>
    if is_multiple_of (get_current_epoch s + 1)%u64 EPOCHS_PER_ETH1_VOTING_PERIOD
    then set_eth1_data_votes [] s else s).

(** ** Pending deposits *)

Context {R : Roots} {B : Bls} {N : BeaconNetworkSpec}.

(** The variables of the deposit loop. *)
Record DepositLoop : Type := mkDepositLoop {
  dl_validator_indices : gmap PublicKey nat;
  dl_processed_amount : Z;
  dl_next_deposit_index : Z;
  dl_deposits_to_postpone : list PendingDeposit;
  dl_is_churn_limit_reached : bool;
}.

Fixpoint deposit_loop (next_epoch available_for_processing : Z) (stops_at : PendingDeposit -> bool)
    (ds : list PendingDeposit) (l : DepositLoop) : BM DepositLoop :=
  match ds with
  | [] => mret l
  | deposit :: ds' =>
      if stops_at deposit then mret l
      else if MAX_PENDING_DEPOSITS_PER_EPOCH <=? dl_next_deposit_index l then mret l
      else
        let validator_index := dl_validator_indices l !! pd_public_key deposit in
        flags ← reads (fun s => Ok
          match validator_index ≫= fun i => validators s !! i with
          | Some validator => (exit_epoch validator <? FAR_FUTURE_EPOCH,
                               withdrawable_epoch validator <? next_epoch)
          | None => (false, false)
          end);
        let '(is_validator_exited, is_validator_withdrawn) := (flags : bool * bool) in
        let next := (dl_next_deposit_index l + 1)%u64 in
        if is_validator_withdrawn then
          apply_pending_deposit_to deposit validator_index;;
          deposit_loop next_epoch available_for_processing stops_at ds'
            (mkDepositLoop (dl_validator_indices l) (dl_processed_amount l) next
               (dl_deposits_to_postpone l) (dl_is_churn_limit_reached l))
        else if is_validator_exited then
          deposit_loop next_epoch available_for_processing stops_at ds'
            (mkDepositLoop (dl_validator_indices l) (dl_processed_amount l) next
               (dl_deposits_to_postpone l ++ [deposit]) (dl_is_churn_limit_reached l))
        else
          let processed := (dl_processed_amount l + pd_amount deposit)%u64 in
          if available_for_processing <? processed then
            mret (mkDepositLoop (dl_validator_indices l) (dl_processed_amount l)
                    (dl_next_deposit_index l) (dl_deposits_to_postpone l) true)
          else
            added ← apply_pending_deposit_to deposit validator_index;
            deposit_loop next_epoch available_for_processing stops_at ds'
              (mkDepositLoop
                 (match added with
                  | Some i => <[pd_public_key deposit := i]> (dl_validator_indices l)
                  | None => dl_validator_indices l
                  end)
                 processed next (dl_deposits_to_postpone l) false)
  end.

(** [Iterator::take_while]. *)
Fixpoint take_while {A} (f : A -> bool) (l : list A) : list A :=
  match l with
  | [] => []
  | a :: l' => if f a then a :: take_while f l' else []
  end.

Definition process_pending_deposits : BM unit :=
  next_epoch ← reads (fun s => Ok (get_current_epoch s + 1)%u64);
  churn ← reads get_activation_exit_churn_limit;
  available_for_processing ← reads (fun s => Ok (deposit_balance_to_consume s + churn)%u64);
  finalized_slot ← reads (fun s => Ok (compute_start_slot_at_epoch (cp_epoch (finalized_checkpoint s))));
  is_bridge_pending ← reads (fun s => Ok
    (negb (bool_decide (length (pending_deposits s) = 0%nat))
     && (eth1_deposit_index s <? deposit_requests_start_index s)
     && (get_current_epoch s <? fulu_fork_epoch)));
  let stops_at (deposit : PendingDeposit) :=
    is_bridge_pending && (GENESIS_SLOT <? pd_slot deposit) || (finalized_slot <? pd_slot deposit) in
  indices ← reads (fun s => Ok (find_validator_indices s
    (pd_public_key <$> take (Z.to_nat MAX_PENDING_DEPOSITS_PER_EPOCH)
                         (take_while (fun d => negb (stops_at d)) (pending_deposits s)))));
  queue ← reads (fun s => Ok (pending_deposits s));
  l ← deposit_loop next_epoch available_for_processing stops_at queue
        (mkDepositLoop indices 0 0 [] false);
  remaining ← reads (fun s => Ok (pending_deposits s));
  modify (set_pending_deposits []);;
  forM (drop (Z.to_nat (dl_next_deposit_index l)) remaining ++ dl_deposits_to_postpone l)
    (fun deposit => push_pending_deposit deposit "Failed to push deposit to pending deposits"%string);;
  modify (set_deposit_balance_to_consume
    (if dl_is_churn_limit_reached l then (available_for_processing - dl_processed_amount l)%u64 else 0)).

(** ** Pending consolidations *)

Fixpoint consolidation_loop (next_epoch : Z) (cs : list PendingConsolidation) (next : nat) : BM nat :=
  match cs with
  | [] => mret next
  | c :: cs' =>
      source_validator ← reads (fun s => ok_or (validators s !! Z.to_nat (pc_source_index c))
                                           "Validator not found"%string);
      if slashed source_validator then consolidation_loop next_epoch cs' (S next)
      else if next_epoch <? withdrawable_epoch source_validator then mret next
      else
        balance ← reads (fun s => ok_or (balances s !! Z.to_nat (pc_source_index c))
                                    "Failed to get balance"%string);
        let source_effective_balance := Z.min balance (effective_balance source_validator) in
        decrease_balance (pc_source_index c) source_effective_balance;;
        increase_balance (pc_target_index c) source_effective_balance;;
        consolidation_loop next_epoch cs' (S next)
  end.

Definition process_pending_consolidations : BM unit :=
  next_epoch ← reads (fun s => Ok (get_current_epoch s + 1)%u64);
  queue ← reads (fun s => Ok (pending_consolidations s));
  next ← consolidation_loop next_epoch queue 0;
  remaining ← reads (fun s => Ok (pending_consolidations s));
  modify (set_pending_consolidations []);;
  forM (drop next remaining) (fun c =>
    push_to (vl_push PENDING_CONSOLIDATIONS_LIMIT) pending_consolidations set_pending_consolidations c
      "Failed to push pending_consolidation"%string).

(** ** Effective balances *)

Definition effective_balance_update (validator : Validator) (balance : Z) : option Z :=
  let hysteresis_increment := EFFECTIVE_BALANCE_INCREMENT / HYSTERESIS_QUOTIENT in
  let downward_threshold := (hysteresis_increment * HYSTERESIS_DOWNWARD_MULTIPLIER)%u64 in
  let upward_threshold := (hysteresis_increment * HYSTERESIS_UPWARD_MULTIPLIER)%u64 in
  if ((balance + downward_threshold)%u64 <? effective_balance validator)
     || ((effective_balance validator + upward_threshold)%u64 <? balance)
  then Some (Z.min (balance - balance mod EFFECTIVE_BALANCE_INCREMENT)%u64
               (get_max_effective_balance validator))
  else None.

Definition process_effective_balance_updates : BM unit :=
  updates ← reads (fun s => Ok (omap (fun ivb : nat * (Validator * Z) =>
    pair ivb.1 <$> effective_balance_update ivb.2.1 ivb.2.2) (enumerate (zip (validators s) (balances s)))));
  forM updates (fun u => update_validator u.1 (set_effective_balance u.2)).

(** ** Rotating vectors *)

Definition process_slashings_reset : BM unit :=
  k ← reads (fun s => Ok (Z.to_nat ((get_current_epoch s + 1)%u64 mod EPOCHS_PER_SLASHINGS_VECTOR)));
  l ← reads (fun s => set_index (slashings s) k 0);
  modify (set_slashings l).

Definition process_randao_mixes_reset : BM unit :=
  current_epoch ← reads (fun s => Ok (get_current_epoch s));
  mix ← reads (fun s => get_randao_mix s current_epoch);
  l ← reads (fun s => set_index (randao_mixes s)
                        (Z.to_nat ((current_epoch + 1)%u64 mod EPOCHS_PER_HISTORICAL_VECTOR)) mix);
  modify (set_randao_mixes l).

Definition process_historical_summaries_update : BM unit :=
  next_epoch ← reads (fun s => Ok (get_current_epoch s + 1)%u64);
  if is_multiple_of next_epoch (SLOTS_PER_HISTORICAL_ROOT / SLOTS_PER_EPOCH) then
    summary ← reads (fun s => Ok (mkHistoricalSummary (b256_vector_root (block_roots s))
                                    (b256_vector_root (state_roots s))));
    push_to (vl_push 16777216) historical_summaries set_historical_summaries summary
      "Failed to push historical summary"%string
  else mret tt.

Definition process_participation_flag_updates : BM unit :=
  modify (fun s => set_previous_epoch_participation (current_epoch_participation s) s);;
  l ← reads (fun s => ok_or (vl_try_from VALIDATOR_REGISTRY_LIMIT (replicate (length (validators s)) 0))
                        "Failed to convert validators list to VariableList"%string);
  modify (set_current_epoch_participation l).

(** ** Sync committees and proposers *)

Fixpoint sync_committee_loop (fuel : nat) (self : BeaconState) (indices : list Z) (seed : B256) (i : Z)
    (acc : list Z) : res anyhow (list Z) :=
  if (length acc <? Z.to_nat SYNC_COMMITTEE_SIZE)%nat then
    match fuel with
    | O => NoFuel
    | S fuel' =>
        let count := Z.of_nat (length indices) in
        r ← u64_rem i count;
        shuffled_index ← compute_shuffled_index r count seed;
        candidate_index ← index indices (Z.to_nat shuffled_index);
        accepted ← candidate_accepted self seed i candidate_index;
        sync_committee_loop fuel' self indices seed (i + 1)%u64
          (if (accepted : bool) then acc ++ [candidate_index] else acc)
    end
  else Ok acc.

Definition get_next_sync_committee_indices (self : BeaconState) : res anyhow (list Z) :=
  let epoch := (get_current_epoch self + 1)%u64 in
  let active_validator_indices := get_active_validator_indices self epoch in
  seed ← get_seed self epoch DOMAIN_SYNC_COMMITTEE;
  sync_committee_loop candidate_fuel self active_validator_indices seed 0 [].

Definition eth_aggregate_public_keys (public_keys : list PublicKey) : res anyhow PublicKey :=
  ensure (negb (bool_decide (public_keys = []))) "Public keys list cannot be empty"%string;;
  aggregate public_keys.

Definition get_next_sync_committee (self : BeaconState) : res anyhow SyncCommittee :=
  indices ← get_next_sync_committee_indices self;
  public_keys ← mapR (fun i => v ← index (validators self) (Z.to_nat i); Ok (public_key v)) indices;
  aggregate_public_key ← eth_aggregate_public_keys public_keys;
  keys ← ok_or (fv_new SYNC_COMMITTEE_SIZE public_keys) "Failed to convert public_keys to FixedVector"%string;
  Ok (mkSyncCommittee keys aggregate_public_key).

Definition process_sync_committee_updates : BM unit :=
  next_epoch ← reads (fun s => Ok (get_current_epoch s + 1)%u64);
  if is_multiple_of next_epoch EPOCHS_PER_SYNC_COMMITTEE_PERIOD then
    modify (fun s => set_current_sync_committee (next_sync_committee s) s);;
    next ← reads get_next_sync_committee;
    modify (set_next_sync_committee next)
  else mret tt.

Definition process_proposer_lookahead : BM unit :=
  l ← reads (fun s =>
    new_vec ← slice (proposer_lookahead s) SLOTS_PER_EPOCH (Z.of_nat (length (proposer_lookahead s)));
    let next_epoch := (get_current_epoch s + MIN_SEED_LOOKAHEAD + 1)%u64 in
    new_indices ← get_beacon_proposer_indices s next_epoch;
    ok_or (fv_new 64 (new_vec ++ new_indices)) "Failed to update proposer_lookahead"%string);
  modify (set_proposer_lookahead l).

Definition process_epoch : BM unit :=
  process_justification_and_finalization;;
  process_inactivity_updates;;
  process_rewards_and_penalties;;
  process_registry_updates;;
  process_slashings;;
  process_eth1_data_reset;;
  process_pending_deposits;;
  process_pending_consolidations;;
  process_effective_balance_updates;;
  process_slashings_reset;;
  process_randao_mixes_reset;;
  process_historical_summaries_update;;
  process_participation_flag_updates;;
  process_sync_committee_updates;;
  process_proposer_lookahead.
End epoch.
