(* ===== verification/BeaconBlockOps.v ===== *)
(** * Block operations

    The operations a block carries, of
    [crates/common/consensus/beacon/src/electra/beacon_state.rs]: the header, the
    withdrawals, slashings, attestations, deposits, exits and execution requests, the
    randao reveal, the eth1 vote and the sync aggregate. *)

From stdpp Require Import strings.
From S2P Require Import Prelude StateMonad Bytes Shuffling Merkle BeaconTypes BeaconAccess BeaconMutate.

(** [if !cond { return Ok(()) }]. *)
Definition guard_return (b : bool) (k : BM unit) : BM unit := if b then k else mret tt.

(** [ensure!] inside a method that changes the state. *)
Definition ensureM (f : BeaconState -> bool) (err : string) : BM unit :=
  reads (fun s => ensure (f s) err).

Section block_ops.
Context {H : Sha256} {F : CandidateFuel} {HO : HashOrder} {SV : SszVec}.
Context {R : Roots} {B : Bls} {N : BeaconNetworkSpec}.

(** ** Header *)

Definition process_block_header (block : BeaconBlock) : BM unit :=
  ensureM (fun s => slot s =? b_slot block) "State slot must be equal to block slot";;
  ensureM (fun s => bh_slot (latest_block_header s) <? b_slot block)
    "Block slot must be greater than latest block header slot of state";;
  proposer_index ← reads (fun s => get_beacon_proposer_index s None);
  ensureM (fun _ => b_proposer_index block =? proposer_index)
    "Block proposer index must be equal to beacon proposer index";;
  ensureM (fun s => bool_decide (b_parent_root block = tree_hash_root (latest_block_header s)))
    "Block Parent Root must be equal root of latest block header";;
  modify (set_latest_block_header
    (mkBeaconBlockHeader (b_slot block) (b_proposer_index block) (b_parent_root block)
       B256_ZERO (tree_hash_root (b_body block))));;
  proposer ← reads (fun s => index (validators s) (Z.to_nat (b_proposer_index block)));
  ensureM (fun _ => negb (slashed proposer)) "Block proposer must not be slashed".

(** ** Withdrawals *)

Definition withdrawn_from (withdrawals : list Withdrawal) (validator_index : Z) : Z :=
  u64_sum (w_amount <$> filter (fun w => w_validator_index w = validator_index) withdrawals).

Definition withdrawal_address (validator : Validator) : Address := drop 12 (withdrawal_credentials validator).

(** Withdrawals so far, next withdrawal index, pending partial withdrawals consumed. *)
Fixpoint partials_loop (self : BeaconState) (epoch : Z) (pending : list PendingPartialWithdrawal)
    (withdrawals : list Withdrawal) (withdrawal_index processed : Z) :
    res anyhow (list Withdrawal * Z * Z) :=
  match pending with
  | [] => Ok (withdrawals, withdrawal_index, processed)
  | w :: pending' =>
      if (epoch <? ppw_withdrawable_epoch w)
         || (Z.of_nat (length withdrawals) =? MAX_PENDING_PARTIALS_PER_WITHDRAWALS_SWEEP)
      then Ok (withdrawals, withdrawal_index, processed)
      else
        validator ← ok_or (validators self !! Z.to_nat (ppw_validator_index w))
                      "Validator index out of bounds"%string;
        let total_withdrawn := withdrawn_from withdrawals (ppw_validator_index w) in
        b ← ok_or (balances self !! Z.to_nat (ppw_validator_index w)) "Balance index out of bounds"%string;
        let balance := (b - total_withdrawn)%u64 in
        if (exit_epoch validator =? FAR_FUTURE_EPOCH)
           && (MIN_ACTIVATION_BALANCE <=? effective_balance validator)
           && (MIN_ACTIVATION_BALANCE <? balance)
        then
          let withdrawable_balance := Z.min (balance - MIN_ACTIVATION_BALANCE)%u64 (ppw_amount w) in
          partials_loop self epoch pending'
            (withdrawals ++ [mkWithdrawal withdrawal_index (ppw_validator_index w)
                               (withdrawal_address validator) withdrawable_balance])
            (withdrawal_index + 1)%u64 (processed + 1)%u64
        else partials_loop self epoch pending' withdrawals withdrawal_index (processed + 1)%u64
  end.

Fixpoint sweep_loop (n : nat) (self : BeaconState) (epoch : Z) (withdrawals : list Withdrawal)
    (withdrawal_index validator_index : Z) : res anyhow (list Withdrawal) :=
  match n with
  | O => Ok withdrawals
  | S n' =>
      validator ← ok_or (validators self !! Z.to_nat validator_index) "Validator index out of bounds"%string;
      let partially_withdrawn_balance := withdrawn_from withdrawals validator_index in
      b ← ok_or (balances self !! Z.to_nat validator_index) "Balance index out of bounds"%string;
      let balance := (b - partially_withdrawn_balance)%u64 in
      let '(withdrawals, withdrawal_index) :=
        if is_fully_withdrawable_validator validator balance epoch then
          (withdrawals ++ [mkWithdrawal withdrawal_index validator_index
                             (withdrawal_address validator) balance], (withdrawal_index + 1)%u64)
        else if is_partially_withdrawable_validator validator balance then
          (withdrawals ++ [mkWithdrawal withdrawal_index validator_index
                             (withdrawal_address validator)
                             (balance - get_max_effective_balance validator)%u64],
           (withdrawal_index + 1)%u64)
        else (withdrawals, withdrawal_index) in
      if (length withdrawals =? MAX_WITHDRAWALS_PER_PAYLOAD)%nat then Ok withdrawals
      else
        next ← u64_rem (validator_index + 1)%u64 (Z.of_nat (length (validators self)));
        sweep_loop n' self epoch withdrawals withdrawal_index next
  end.

Definition get_expected_withdrawals (self : BeaconState) : res anyhow (list Withdrawal * Z) :=
  let epoch := get_current_epoch self in
  r ← partials_loop self epoch (pending_partial_withdrawals self) [] (next_withdrawal_index self) 0;
  let '(withdrawals, withdrawal_index, processed) := (r : list Withdrawal * Z * Z) in
  let bound := Nat.min (length (validators self)) MAX_VALIDATORS_PER_WITHDRAWALS_SWEEP in
  withdrawals ← sweep_loop bound self epoch withdrawals withdrawal_index
                  (next_withdrawal_validator_index self);
  Ok (withdrawals, processed).

Definition push_pending_partial_withdrawal (w : PendingPartialWithdrawal) (err : string) : BM unit :=
  push_to (vl_push PENDING_PARTIAL_WITHDRAWALS_LIMIT) pending_partial_withdrawals
    set_pending_partial_withdrawals w err.

Definition process_withdrawals (payload : ExecutionPayload) : BM unit :=
  r ← reads get_expected_withdrawals;
  let '(expected_withdrawals, processed) := (r : list Withdrawal * Z) in
  ensureM (fun _ => bool_decide (ep_withdrawals payload = expected_withdrawals))
    "Withdrawals do not match expected withdrawals";;
  forM expected_withdrawals (fun w => decrease_balance (w_validator_index w) (w_amount w));;
  remaining ← reads (fun s => Ok (pending_partial_withdrawals s));
  modify (set_pending_partial_withdrawals []);;
  forM (drop (Z.to_nat processed) remaining) (fun w =>
    push_pending_partial_withdrawal w
      "Failed to push partial_withdrawal to pending_partial_withdrawals"%string);;
  match last expected_withdrawals with
  | Some latest => modify (set_next_withdrawal_index (w_index latest + 1)%u64)
  | None => mret tt
  end;;
  next ← reads (fun s =>
    if (length expected_withdrawals =? MAX_WITHDRAWALS_PER_PAYLOAD)%nat then
      match last expected_withdrawals with
      | Some latest => u64_rem (w_validator_index latest + 1)%u64 (Z.of_nat (length (validators s)))
      | None => Panic
      end
    else
      u64_rem (next_withdrawal_validator_index s + Z.of_nat MAX_VALIDATORS_PER_WITHDRAWALS_SWEEP)%u64
        (Z.of_nat (length (validators s))));
  modify (set_next_withdrawal_validator_index next).

(** ** Deposits *)

Definition apply_deposit (pk : PublicKey) (credentials : B256) (amount : Z) (signature : BLSSignature) :
    BM unit :=
  known ← reads (fun s => Ok (find_validator_index s pk));
  let push := push_pending_deposit (mkPendingDeposit pk credentials amount signature GENESIS_SLOT)
                "Couldn't push to pending_deposits"%string in
  match known with
  | Some _ => push
  | None =>
      match is_valid_deposit_signature pk credentials amount signature with
      | Ok true => add_validator_to_registry pk credentials 0;; push
      | Ok false | Err _ => mret tt
      | Panic => lift Panic
      | NoFuel => lift NoFuel
      end
  end.

Definition process_deposit (deposit : Deposit) : BM unit :=
  valid ← reads (fun s =>
    is_valid_merkle_branch (tree_hash_root (dep_data deposit)) (dep_proof deposit)
      (DEPOSIT_CONTRACT_TREE_DEPTH + 1) (eth1_deposit_index s) (deposit_root (eth1_data s)));
  ensureM (fun _ => valid) "is_valid_merkle_branch";;
  modify (fun s => set_eth1_deposit_index (eth1_deposit_index s + 1)%u64 s);;
  let d := dep_data deposit in
  apply_deposit (dd_public_key d) (dd_withdrawal_credentials d) (dd_amount d) (dd_signature d).

(** ** Credential changes and exits *)

Definition validate_bls_to_execution_change (self : BeaconState) (signed : SignedBLSToExecutionChange) :
    res anyhow unit :=
  let message := sbc_message signed in
  ensure (bc_validator_index message <? Z.of_nat (length (validators self))) "validator_index"%string;;
  validator ← index (validators self) (Z.to_nat (bc_validator_index message));
  ensure (bool_decide (take 1 (withdrawal_credentials validator) = BLS_WITHDRAWAL_PREFIX))
    "BLS_WITHDRAWAL_PREFIX"%string;;
  ensure (bool_decide (drop 1 (withdrawal_credentials validator)
                       = drop 1 (hash (pk_inner (from_bls_public_key message)))))
    "withdrawal_credentials"%string;;
  let domain := compute_domain DOMAIN_BLS_TO_EXECUTION_CHANGE (Some genesis_fork_version)
                  (Some (genesis_validators_root self)) in
  let signing_root := compute_signing_root message domain in
  valid ← bls_verify (sbc_signature signed) (from_bls_public_key message) signing_root;
  ensure valid "BLS Signature verification failed!"%string.

Definition process_bls_to_execution_change (signed : SignedBLSToExecutionChange) : BM unit :=
  reads (fun s => validate_bls_to_execution_change s signed);;
  let message := sbc_message signed in
  update_validator (Z.to_nat (bc_validator_index message))
    (set_withdrawal_credentials
       (ETH1_ADDRESS_WITHDRAWAL_PREFIX ++ replicate 11 0 ++ to_execution_address message)).

Definition voluntary_exit_domain (genesis_validators_root : B256) : B256 :=
  compute_domain DOMAIN_VOLUNTARY_EXIT (Some capella_fork_version) (Some genesis_validators_root).

Definition validate_voluntary_exit (self : BeaconState) (signed : SignedVoluntaryExit) : res anyhow unit :=
  let voluntary_exit := sve_message signed in
  validator ← ok_or (validators self !! Z.to_nat (ve_validator_index voluntary_exit))
                "Invalid validator index"%string;
  ensure (is_active_validator validator (get_current_epoch self)) "Validator is not active"%string;;
  ensure (exit_epoch validator =? FAR_FUTURE_EPOCH) "Exit has already been initiated"%string;;
  ensure (ve_epoch voluntary_exit <=? get_current_epoch self) "Exit is not yet valid"%string;;
  ensure (get_pending_balance_to_withdraw self (ve_validator_index voluntary_exit) =? 0)
    "Validator has pending withdrawals"%string;;
  earliest_exit ← ok_or (u64_checked_add (activation_epoch validator) SHARD_COMMITTEE_PERIOD)
                    "Failed to calculate earliest exit epoch"%string;
  ensure (earliest_exit <=? get_current_epoch self) "Validator has not been active long enough"%string;;
  let domain := voluntary_exit_domain (genesis_validators_root self) in
  let signing_root := compute_signing_root voluntary_exit domain in
  valid ← bls_verify (sve_signature signed) (public_key validator) signing_root;
  ensure valid "BLS Signature verification failed!"%string.

Definition process_voluntary_exit (signed : SignedVoluntaryExit) : BM unit :=
  reads (fun s => validate_voluntary_exit s signed);;
  initiate_validator_exit (ve_validator_index (sve_message signed)).

(** ** Execution requests *)

Definition process_withdrawal_request (request : WithdrawalRequest) : BM unit :=
  let amount := wr_amount request in
  let is_full_exit_request := amount =? FULL_EXIT_REQUEST_AMOUNT in
  full ← reads (fun s => Ok
    (Z.of_nat (length (pending_partial_withdrawals s)) =? PENDING_PARTIAL_WITHDRAWALS_LIMIT));
  guard_return (negb (full && negb is_full_exit_request)) (
  found ← reads (fun s => Ok (find_validator_index s (wr_validator_public_key request)));
  match found with
  | None => mret tt
  | Some i =>
      validator ← reads (fun s => index (validators s) i);
      epoch ← reads (fun s => Ok (get_current_epoch s));
      guard_return (has_execution_withdrawal_credential validator
                    && bool_decide (withdrawal_address validator = wr_source_address request)) (
      guard_return (is_active_validator validator epoch) (
      guard_return (exit_epoch validator =? FAR_FUTURE_EPOCH) (
      guard_return (negb (epoch <? (activation_epoch validator + SHARD_COMMITTEE_PERIOD)%u64)) (
      pending_balance_to_withdraw ← reads (fun s => Ok (get_pending_balance_to_withdraw s (Z.of_nat i)));
      if is_full_exit_request then
        if pending_balance_to_withdraw =? 0 then initiate_validator_exit (Z.of_nat i) else mret tt
      else
        balance ← reads (fun s => ok_or (balances s !! i) "Failed to get balance"%string);
        let has_sufficient_effective_balance := MIN_ACTIVATION_BALANCE <=? effective_balance validator in
        let has_excess_balance := (MIN_ACTIVATION_BALANCE + pending_balance_to_withdraw)%u64 <? balance in
        guard_return (has_compounding_withdrawal_credential validator
                      && has_sufficient_effective_balance && has_excess_balance) (
        let to_withdraw := Z.min (balance - MIN_ACTIVATION_BALANCE - pending_balance_to_withdraw)%u64 amount in
        exit_queue_epoch ← compute_exit_epoch_and_update_churn to_withdraw;
        let withdrawable_epoch := (exit_queue_epoch + MIN_VALIDATOR_WITHDRAWABILITY_DELAY)%u64 in
        push_pending_partial_withdrawal
          (mkPendingPartialWithdrawal (Z.of_nat i) to_withdraw withdrawable_epoch)
          "Failed to push PendingPartialWithdrawal to pending_partial_withdrawals"%string)))))
  end).

Definition process_deposit_request (request : DepositRequest) : BM unit :=
  modify (fun s => if deposit_requests_start_index s =? UNSET_DEPOSIT_REQUESTS_START_INDEX
                   then set_deposit_requests_start_index (dr_index request) s else s);;
  s ← reads (fun s => Ok (slot s));
  push_pending_deposit
    (mkPendingDeposit (dr_public_key request) (dr_withdrawal_credentials request) (dr_amount request)
       (dr_signature request) s)
    "Failed to push PendingDeposit to pending_deposits"%string.

Definition is_valid_switch_with_source (self : BeaconState) (request : ConsolidationRequest)
    (source_index : option nat) : res anyhow bool :=
  if negb (bool_decide (cr_source_public_key request = cr_target_public_key request)) then Ok false
  else
    match source_index with
    | None => Ok false
    | Some i =>
        source_validator ← index (validators self) i;
        Ok (bool_decide (withdrawal_address source_validator = cr_source_address request)
            && has_eth1_withdrawal_credential source_validator
            && is_active_validator source_validator (get_current_epoch self)
            && (exit_epoch source_validator =? FAR_FUTURE_EPOCH))
    end.

Definition process_consolidation_request (request : ConsolidationRequest) : BM unit :=
  if bool_decide (cr_source_public_key request = cr_target_public_key request) then
    source_index ← reads (fun s => Ok (find_validator_index s (cr_source_public_key request)));
    valid ← reads (fun s => is_valid_switch_with_source s request source_index);
    guard_return valid
      match source_index with
      | None => lift (Err "Validator not found"%string)
      | Some i => switch_to_compounding_validator (Z.of_nat i)
      end
  else
    full ← reads (fun s => Ok
      (Z.of_nat (length (pending_consolidations s)) =? PENDING_CONSOLIDATIONS_LIMIT));
    guard_return (negb full) (
    limit ← reads get_consolidation_churn_limit;
    guard_return (MIN_ACTIVATION_BALANCE <? limit) (
    indices ← reads (fun s => Ok (find_validator_indices s
                [cr_source_public_key request; cr_target_public_key request]));
    match indices !! cr_source_public_key request, indices !! cr_target_public_key request with
    | Some source_index, Some target_index =>
        source_validator ← reads (fun s => index (validators s) source_index);
        target_validator ← reads (fun s => index (validators s) target_index);
        current_epoch ← reads (fun s => Ok (get_current_epoch s));
        guard_return (has_execution_withdrawal_credential source_validator
                      && bool_decide (withdrawal_address source_validator = cr_source_address request)) (
        guard_return (has_compounding_withdrawal_credential target_validator) (
        guard_return (is_active_validator source_validator current_epoch
                      && is_active_validator target_validator current_epoch) (
        guard_return ((exit_epoch source_validator =? FAR_FUTURE_EPOCH)
                      && (exit_epoch target_validator =? FAR_FUTURE_EPOCH)) (
        guard_return (negb (current_epoch <? (activation_epoch source_validator + SHARD_COMMITTEE_PERIOD)%u64)) (
        pending ← reads (fun s => Ok (get_pending_balance_to_withdraw s (Z.of_nat source_index)));
        guard_return (negb (0 <? pending)) (
        exit_epoch ← compute_consolidation_epoch_and_update_churn (effective_balance source_validator);
        reads (fun s => ok_or (validators s !! source_index) "Validator not found"%string);;
        update_validator source_index (fun v =>
          set_withdrawable_epoch (exit_epoch + MIN_VALIDATOR_WITHDRAWABILITY_DELAY)%u64
            (set_exit_epoch exit_epoch v));;
        push_to (vl_push PENDING_CONSOLIDATIONS_LIMIT) pending_consolidations set_pending_consolidations
          (mkPendingConsolidation (Z.of_nat source_index) (Z.of_nat target_index))
          "Failed to push PendingConsolidation to pending_consolidations"%string))))))
    | _, _ => mret tt
    end)).

(** ** Slashings *)

Definition validate_proposer_slashing (self : BeaconState) (slashing : ProposerSlashing) : res anyhow Z :=
  let header_1 := sbh_message (signed_header_1 slashing) in
  let header_2 := sbh_message (signed_header_2 slashing) in
  ensure (bh_slot header_1 =? bh_slot header_2) "Header slots must match"%string;;
  ensure (bh_proposer_index header_1 =? bh_proposer_index header_2) "Proposer indices must match"%string;;
  ensure (bool_decide (header_1 <> header_2)) "Headers must be different"%string;;
  let proposer_index := bh_proposer_index header_1 in
  proposer ← ok_or (validators self !! Z.to_nat proposer_index) "Invalid proposer index"%string;
  ensure (is_slashable_validator proposer (get_current_epoch self)) "Proposer is not slashable"%string;;
  mapR (fun signed_header =>
    let domain := get_domain self DOMAIN_BEACON_PROPOSER
                    (Some (compute_epoch_at_slot (bh_slot (sbh_message signed_header)))) in
    valid ← bls_verify (sbh_signature signed_header) (public_key proposer)
              (compute_signing_root (sbh_message signed_header) domain);
    ensure valid "BLS Signature verification failed!"%string)
    [signed_header_1 slashing; signed_header_2 slashing];;
  Ok proposer_index.

Definition process_proposer_slashing (slashing : ProposerSlashing) : BM unit :=
  proposer_index ← reads (fun s => validate_proposer_slashing s slashing);
  slash_validator proposer_index None.

Definition get_slashable_attester_indices (self : BeaconState) (slashing : AttesterSlashing) :
    res anyhow (gset Z * gset Z) :=
  let attestation_1 := attestation_1 slashing in
  let attestation_2 := attestation_2 slashing in
  ensure (is_slashable_attestation_data (ia_data attestation_1) (ia_data attestation_2))
    "Attestations are not slashable"%string;;
  valid_1 ← is_valid_indexed_attestation self attestation_1;
  ensure valid_1 "First attestation is invalid"%string;;
  valid_2 ← is_valid_indexed_attestation self attestation_2;
  ensure valid_2 "Second attestation is invalid"%string;;
  Ok (list_to_set (attesting_indices attestation_1), list_to_set (attesting_indices attestation_2)).

(** Slashes the slashable ones, and says whether there was one. *)
Fixpoint slash_all (current_epoch : Z) (indices : list Z) (slashed_any : bool) : BM bool :=
  match indices with
  | [] => mret slashed_any
  | i :: rest =>
      validator ← reads (fun s => index (validators s) (Z.to_nat i));
      if is_slashable_validator validator current_epoch
      then slash_validator i None;; slash_all current_epoch rest true
      else slash_all current_epoch rest slashed_any
  end.

Definition process_attester_slashing (slashing : AttesterSlashing) : BM unit :=
  r ← reads (fun s => get_slashable_attester_indices s slashing);
  current_epoch ← reads (fun s => Ok (get_current_epoch s));
  slashed_any ← slash_all current_epoch
                  (sort_by Z.leb (hs_iter ((r : gset Z * gset Z).1 ∩ (r : gset Z * gset Z).2))) false;
  ensureM (fun _ => slashed_any) "No validator was slashed".

(** ** Attestations *)

(** Sets the flags of the attesters in a participation list, which is the state of this
    computation, and returns the proposer reward for the flags that were not set. *)
Definition mark_flags (self : BeaconState) (base_reward_per_increment : Z) (flag_indices : list Z) (i : Z)
    (numerator : Z) : M (list Z) anyhow Z :=
  part ← reads (fun p => ok_or (p !! Z.to_nat i) "Validator index out of bounds in epoch_participation"%string);
  r ← lift (foldM (fun (acc : Z * Z) (fw : nat * Z) =>
        let '(part, numerator) := acc in
        let flag_index := Z.of_nat fw.1 in
        if bool_decide (flag_index ∈ flag_indices) && negb (has_flag part flag_index) then
          base ← get_base_reward self i base_reward_per_increment;
          Ok (add_flag part flag_index, (numerator + base * fw.2)%u64)
        else Ok (part, numerator)) (part, numerator) (enumerate PARTICIPATION_FLAG_WEIGHTS));
  modify (fun p => <[Z.to_nat i := (r : Z * Z).1]> p);;
  mret (r : Z * Z).2.

Fixpoint mark_all (self : BeaconState) (base_reward_per_increment : Z) (flag_indices : list Z)
    (attesting_indices : list Z) (numerator : Z) : M (list Z) anyhow Z :=
  match attesting_indices with
  | [] => mret numerator
  | i :: rest =>
      numerator ← mark_flags self base_reward_per_increment flag_indices i numerator;
      mark_all self base_reward_per_increment flag_indices rest numerator
  end.

Definition mark_participation (self : BeaconState) (attesting_indices flag_indices : list Z) :
    M (list Z) anyhow Z :=
  base_reward_per_increment ← lift (get_base_reward_per_increment self);
  numerator ← mark_all self base_reward_per_increment flag_indices attesting_indices 0;
  let denominator :=
    ((WEIGHT_DENOMINATOR - PROPOSER_WEIGHT) * WEIGHT_DENOMINATOR)%u64 / PROPOSER_WEIGHT in
  mret (numerator / denominator).

(** The committees named by an attestation each have an attester; returns how many
    members they have together. *)
Definition check_committees (self : BeaconState) (attestation : Attestation) : res anyhow nat :=
  let data := att_data attestation in
  foldM (fun committee_offset committee_index =>
    count ← get_committee_count_per_slot self (cp_epoch (ad_target data));
    ensure (committee_index <? count) "committee_index"%string;;
    committee ← get_beacon_committee self (ad_slot data) committee_index;
    has_attester ← foldM (fun has i =>
      bit ← ok_or (bits_get (aggregation_bits attestation) (committee_offset + i)%nat)
              "Failed to get aggregation bit"%string;
      Ok (has || bit)) false (seq 0 (length committee));
    ensure has_attester "Committee attesters must not be empty"%string;;
    Ok (committee_offset + length committee)%nat)
    0%nat (get_committee_indices (committee_bits attestation)).

Definition process_attestation_with (attestation : Attestation) (verify_signatures : bool) : BM unit :=
  let data := att_data attestation in
  ensureM (fun s => (cp_epoch (ad_target data) =? get_previous_epoch s)
                    || (cp_epoch (ad_target data) =? get_current_epoch s))
    "Target epoch must be the previous or current epoch";;
  ensureM (fun _ => cp_epoch (ad_target data) =? compute_epoch_at_slot (ad_slot data))
    "Target epoch must match the computed epoch at slot";;
  ensureM (fun s => (ad_slot data + MIN_ATTESTATION_INCLUSION_DELAY)%u64 <=? slot s)
    "Attestation must be included after the minimum delay";;
  count ← reads (fun s => get_committee_count_per_slot s (cp_epoch (ad_target data)));
  ensureM (fun _ => ad_index data <? count) "Committee index must be within bounds";;
  ensureM (fun _ => ad_index data =? 0) "data.index == 0";;
  committee_offset ← reads (fun s => check_committees s attestation);
  ensureM (fun _ => (length (aggregation_bits attestation) =? committee_offset)%nat)
    "Aggregation bits length must match committee size";;
  participation_flag_indices ← reads (fun s =>
    get_attestation_participation_flag_indices s data (slot s - ad_slot data)%u64);
  indexed_attestation ← reads (fun s => get_indexed_attestation s attestation);
  valid ← reads (fun s => if verify_signatures then is_valid_indexed_attestation s indexed_attestation
                          else Ok true);
  ensureM (fun _ => valid) "Attestation signature must be valid";;
  is_current ← reads (fun s => Ok (cp_epoch (ad_target data) =? get_current_epoch s));
  participation ← reads (fun s => Ok (if (is_current : bool) then current_epoch_participation s
                                      else previous_epoch_participation s));
  r ← reads (fun s => Ok (mark_participation s (attesting_indices indexed_attestation)
                            participation_flag_indices participation));
  let '(participation, proposer_reward) := (r : list Z * res anyhow Z) in
  modify (if (is_current : bool) then set_current_epoch_participation participation
          else set_previous_epoch_participation participation);;
  proposer_index ← reads (fun s => get_beacon_proposer_index s None);
  proposer_reward ← lift proposer_reward;
  increase_balance proposer_index proposer_reward.

Definition process_attestation (attestation : Attestation) : BM unit :=
  process_attestation_with attestation true.

(** ** Randao and eth1 data *)

Definition xor (bytes_1 bytes_2 : list Z) : res anyhow B256 :=
  mapR (fun i => a ← index bytes_1 i; b ← index bytes_2 i; Ok (Z.lxor a b)) (seq 0 32).

Definition process_randao_inner (body : BeaconBlockBody) (verify_signature : bool) : BM unit :=
  epoch ← reads (fun s => Ok (get_current_epoch s));
  proposer_index ← reads (fun s => get_beacon_proposer_index s None);
  proposer ← reads (fun s => Ok (validators s !! Z.to_nat proposer_index));
  match proposer with
  | None => mret tt
  | Some proposer =>
      reads (fun s =>
        if verify_signature then
          let signing_root := compute_signing_root epoch (get_domain s DOMAIN_RANDAO (Some epoch)) in
          valid ← bls_verify (randao_reveal body) (public_key proposer) signing_root;
          ensure valid "BLS Signature verification failed!"%string
        else Ok tt);;
      mix ← reads (fun s => m ← get_randao_mix s epoch; xor m (hash (sig_inner (randao_reveal body))));
      l ← reads (fun s => set_index (randao_mixes s)
                            (Z.to_nat (epoch mod EPOCHS_PER_HISTORICAL_VECTOR)) mix);
      modify (set_randao_mixes l)
  end.

Definition process_randao (body : BeaconBlockBody) : BM unit := process_randao_inner body true.

Definition process_eth1_data (body : BeaconBlockBody) : BM unit :=
  push_to (vl_push 2048) eth1_data_votes set_eth1_data_votes (bb_eth1_data body)
    "Can't push eth1_data"%string;;
  modify (fun s =>
    let count := Z.of_nat (length (filter (fun d => d = bb_eth1_data body) (eth1_data_votes s))) in
    if (EPOCHS_PER_ETH1_VOTING_PERIOD * SLOTS_PER_EPOCH)%u64 <? (count * 2)%u64
    then set_eth1_data (bb_eth1_data body) s else s).

(** ** The sync aggregate *)

(** The index of a committee member's key: the last validator with it, which a map
    collected from the registry keeps. *)
Definition compute_sync_committee_indices (self : BeaconState) (committee : SyncCommittee) :
    res anyhow (list nat) :=
  let pubkey_to_index : gmap PublicKey nat :=
    foldl (fun m (iv : nat * Validator) => <[public_key iv.2 := iv.1]> m) ∅ (enumerate (validators self)) in
  mapR (fun pk => ok_or (pubkey_to_index !! pk) "Pubkey not found in validator set."%string)
    (sc_public_keys committee).

Definition get_proposer_and_participant_rewards (self : BeaconState) : res anyhow (Z * Z) :=
  total_active_balance ← get_total_active_balance self;
  per ← get_base_reward_per_increment self;
  let total_active_increments := total_active_balance / EFFECTIVE_BALANCE_INCREMENT in
  let total_base_rewards := (per * total_active_increments)%u64 in
  let max_participant_rewards :=
    (total_base_rewards * SYNC_REWARD_WEIGHT)%u64 / WEIGHT_DENOMINATOR / SLOTS_PER_EPOCH in
  let participant_reward := max_participant_rewards / SYNC_COMMITTEE_SIZE in
  let proposer_reward :=
    (participant_reward * PROPOSER_WEIGHT)%u64 / (WEIGHT_DENOMINATOR - PROPOSER_WEIGHT)%u64 in
  Ok (participant_reward, proposer_reward).

(** [as i64], and negation and absolute value at that width. *)
Definition as_i64 (z : Z) : Z := if z <? 2 ^ 63 then z else z - 2 ^ 64.
Definition i64_neg (z : Z) : Z := if z =? - 2 ^ 63 then z else - z.

Definition calculate_sync_committee_balance_change (committee_indices : list nat) (bits : list bool)
    (participant_reward : Z) : list (Z * Z * bool) :=
  (fun ib : nat * bool =>
    if ib.2 then (Z.of_nat ib.1, as_i64 participant_reward, true)
    else (Z.of_nat ib.1, i64_neg (as_i64 participant_reward), false)) <$> zip committee_indices bits.

Definition eth_fast_aggregate_verify (public_keys : list PublicKey) (message : B256)
    (signature : BLSSignature) : res anyhow bool :=
  if bool_decide (public_keys = []) && bool_decide (signature = infinity) then Ok true
  else fast_aggregate_verify signature public_keys message.

Definition verify_sync_aggregate (self : BeaconState) (aggregate : SyncAggregate) : res anyhow unit :=
  let participant_public_keys :=
    omap (fun kb : PublicKey * bool => if kb.2 then Some kb.1 else None)
      (zip (sc_public_keys (current_sync_committee self)) (sync_committee_bits aggregate)) in
  let previous_slot := (Z.max (slot self) 1 - 1)%u64 in
  let domain := get_domain self DOMAIN_SYNC_COMMITTEE (Some (compute_epoch_at_slot previous_slot)) in
  root ← get_block_root_at_slot self previous_slot;
  valid ← eth_fast_aggregate_verify participant_public_keys (signing_data_root root domain)
            (sync_committee_signature aggregate);
  ensure valid "Sync aggregate signature verification failed."%string.

Definition process_sync_aggregate_with (aggregate : SyncAggregate) (verify_signatures : bool) : BM unit :=
  reads (fun s => if verify_signatures then verify_sync_aggregate s aggregate else Ok tt);;
  committee_indices ← reads (fun s => compute_sync_committee_indices s (current_sync_committee s));
  rewards ← reads get_proposer_and_participant_rewards;
  let '(participant_reward, proposer_reward) := (rewards : Z * Z) in
  proposer_index ← reads (fun s => get_beacon_proposer_index s None);
  forM (calculate_sync_committee_balance_change committee_indices (sync_committee_bits aggregate)
          participant_reward) (fun c : Z * Z * bool =>
    let '(validator_index, change, is_participant) := c in
    (if 0 <? change then increase_balance validator_index change
     else decrease_balance validator_index (Z.abs change));;
    if is_participant then increase_balance proposer_index proposer_reward else mret tt).

Definition process_sync_aggregate (aggregate : SyncAggregate) : BM unit :=
  process_sync_aggregate_with aggregate true.

(** ** All the operations of a block *)

Definition process_operations_with (body : BeaconBlockBody) (verify_signatures : bool) : BM unit :=
  reads (fun s =>
    let eth1_deposit_index_limit :=
      Z.min (deposit_count (eth1_data s)) (deposit_requests_start_index s) in
    if eth1_deposit_index s <? eth1_deposit_index_limit
    then ensure (Z.of_nat (length (deposits body)) =?
                 Z.min MAX_DEPOSITS (eth1_deposit_index_limit - eth1_deposit_index s)%u64)
           "deposits"%string
    else ensure (bool_decide (length (deposits body) = 0%nat)) "deposits"%string);;
  forM (proposer_slashings body) process_proposer_slashing;;
  forM (attester_slashings body) process_attester_slashing;;
  forM (attestations body) (fun a => process_attestation_with a verify_signatures);;
  forM (deposits body) process_deposit;;
  forM (voluntary_exits body) process_voluntary_exit;;
  forM (bls_to_execution_changes body) process_bls_to_execution_change;;
  forM (er_deposits (execution_requests body)) process_deposit_request;;
  forM (er_withdrawals (execution_requests body)) process_withdrawal_request;;
  forM (er_consolidations (execution_requests body)) process_consolidation_request.

Definition process_operations (body : BeaconBlockBody) : BM unit := process_operations_with body true.
End block_ops.
