(* ===== verification/BeaconTransition.v ===== *)
(** * The beacon state transition

    Slots, blocks and the transition functions of
    [crates/common/consensus/beacon/src/electra/beacon_state.rs], the state root and
    the inclusion proofs of the state's fields.  The execution engine is an argument:
    the answer of [notify_new_payload] for a block body and its parent root. *)

From stdpp Require Import strings.
From S2P Require Import Prelude StateMonad Bytes Shuffling Merkle BeaconTypes BeaconAccess BeaconMutate BeaconEpoch BeaconBlockOps.

Definition BEACON_STATE_MERKLE_DEPTH : Z := 6.
Definition FINALIZED_CHECKPOINT_INDEX : Z := 20.
Definition CURRENT_SYNC_COMMITTEE_INDEX : Z := 22.
Definition NEXT_SYNC_COMMITTEE_INDEX : Z := 23.

Section transition.
Context {H : Sha256} {F : CandidateFuel} {HO : HashOrder} {SV : SszVec}.
Context {R : Roots} {B : Bls} {N : BeaconNetworkSpec}.

(** ** The state root *)

Definition field_roots (self : BeaconState) : list B256 :=
  [ tree_hash_root (genesis_time self); genesis_validators_root self; tree_hash_root (slot self);
    tree_hash_root (fork self); tree_hash_root (latest_block_header self);
    b256_vector_root (block_roots self); b256_vector_root (state_roots self);
    b256_list_root (historical_roots self); tree_hash_root (eth1_data self);
    tree_hash_root (eth1_data_votes self); tree_hash_root (eth1_deposit_index self);
    tree_hash_root (validators self); u64_list_root (balances self);
    b256_vector_root (randao_mixes self); u64_vector_root (slashings self);
    u8_list_root (previous_epoch_participation self); u8_list_root (current_epoch_participation self);
    tree_hash_root (justification_bits self); tree_hash_root (previous_justified_checkpoint self);
    tree_hash_root (current_justified_checkpoint self); tree_hash_root (finalized_checkpoint self);
    u64_list_root (inactivity_scores self); tree_hash_root (current_sync_committee self);
    tree_hash_root (next_sync_committee self); tree_hash_root (latest_execution_payload_header self);
    tree_hash_root (next_withdrawal_index self); tree_hash_root (next_withdrawal_validator_index self);
    tree_hash_root (historical_summaries self); tree_hash_root (deposit_requests_start_index self);
    tree_hash_root (deposit_balance_to_consume self); tree_hash_root (exit_balance_to_consume self);
    tree_hash_root (earliest_exit_epoch self); tree_hash_root (consolidation_balance_to_consume self);
    tree_hash_root (earliest_consolidation_epoch self); tree_hash_root (pending_deposits self);
    tree_hash_root (pending_partial_withdrawals self); tree_hash_root (pending_consolidations self);
    u64_vector_root (proposer_lookahead self) ].

Definition state_root (self : BeaconState) : B256 :=
  merkle_root (concat (field_roots self)) (length (field_roots self)).

Definition data_inclusion_proof (self : BeaconState) (i : Z) : res anyhow (list B256) :=
  tree ← merkle_tree (field_roots self) BEACON_STATE_MERKLE_DEPTH;
  generate_proof tree i BEACON_STATE_MERKLE_DEPTH.

Definition current_sync_committee_inclusion_proof (self : BeaconState) : res anyhow (list B256) :=
  data_inclusion_proof self CURRENT_SYNC_COMMITTEE_INDEX.

Definition next_sync_committee_inclusion_proof (self : BeaconState) : res anyhow (list B256) :=
  data_inclusion_proof self NEXT_SYNC_COMMITTEE_INDEX.

Definition finalized_root_inclusion_proof (self : BeaconState) : res anyhow (list B256) :=
  let root_to_finalized_checkpoint_proof := [tree_hash_root (cp_epoch (finalized_checkpoint self))] in
  proof ← data_inclusion_proof self FINALIZED_CHECKPOINT_INDEX;
  Ok (root_to_finalized_checkpoint_proof ++ proof).

(** ** Slots *)

Definition process_slot_with_root (known_state_root : option B256) : BM unit :=
  previous_state_root ← reads (fun s => Ok (match known_state_root with
                                            | Some r => r | None => state_root s end));
  l ← reads (fun s => set_index (state_roots s) (Z.to_nat (slot s mod SLOTS_PER_HISTORICAL_ROOT))
                        previous_state_root);
  modify (set_state_roots l);;
  modify (fun s =>
    let h := latest_block_header s in
    if bool_decide (bh_state_root h = B256_ZERO)
    then set_latest_block_header (mkBeaconBlockHeader (bh_slot h) (bh_proposer_index h) (bh_parent_root h)
                                    previous_state_root (bh_body_root h)) s
    else s);;
  l ← reads (fun s => set_index (block_roots s) (Z.to_nat (slot s mod SLOTS_PER_HISTORICAL_ROOT))
                        (tree_hash_root (latest_block_header s)));
  modify (set_block_roots l).

Definition process_slot : BM unit := process_slot_with_root None.

(** [while self.slot < slot]: at most [slot - self.slot] rounds. *)
Fixpoint slots_loop (fuel : nat) (target : Z) (known_state_root : option B256) : BM unit := fun s =>
  if slot s <? target then
    match fuel with
    | O => (s, NoFuel)
    | S fuel' =>
        (process_slot_with_root known_state_root;;
         at_epoch_end ← reads (fun s => Ok (is_multiple_of (slot s + 1)%u64 SLOTS_PER_EPOCH));
         (if (at_epoch_end : bool) then process_epoch else mret tt);;
         modify (fun s => set_slot (slot s + 1)%u64 s);;
         slots_loop fuel' target None) s
    end
  else (s, Ok tt).

Definition process_slots_from_root (target : Z) (known_state_root : option B256) : BM unit :=
  ensureM (fun s => slot s <? target) "self.slot < slot";;
  fuel ← reads (fun s => Ok (Z.to_nat (target - slot s)));
  slots_loop fuel target known_state_root.

Definition process_slots (target : Z) : BM unit := process_slots_from_root target None.

(** ** Execution payload *)

Definition to_execution_payload_header (self : ExecutionPayload) : ExecutionPayloadHeader :=
  mkExecutionPayloadHeader (ep_parent_hash self) (ep_fee_recipient self) (ep_state_root self)
    (ep_receipts_root self) (ep_logs_bloom self) (ep_prev_randao self) (ep_block_number self)
    (ep_gas_limit self) (ep_gas_used self) (ep_timestamp self) (ep_extra_data self)
    (ep_base_fee_per_gas self) (ep_block_hash self) (tree_hash_root (ep_transactions self))
    (tree_hash_root (ep_withdrawals self)) (ep_blob_gas_used self) (ep_excess_blob_gas self).

Definition verify_execution_payload_consistency (self : BeaconState) (body : BeaconBlockBody) :
    res anyhow unit :=
  let payload := execution_payload body in
  ensure (bool_decide (ep_parent_hash payload = eh_block_hash (latest_execution_payload_header self)))
    "parent_hash"%string;;
  mix ← get_randao_mix self (get_current_epoch self);
  ensure (bool_decide (ep_prev_randao payload = mix)) "prev_randao"%string;;
  ensure (ep_timestamp payload =? compute_timestamp_at_slot self (slot self)) "timestamp"%string;;
  ensure (Z.of_nat (length (blob_kzg_commitments body)) <=? max_blobs_per_block (get_current_epoch self))
    "blob_kzg_commitments"%string.

Definition ExecutionEngine : Type := BeaconBlockBody -> B256 -> res anyhow bool.

Definition process_execution_payload (body : BeaconBlockBody) (execution_engine : option ExecutionEngine) :
    BM unit :=
  reads (fun s => verify_execution_payload_consistency s body);;
  reads (fun s => match execution_engine with
                  | Some engine =>
                      valid ← engine body (bh_parent_root (latest_block_header s));
                      ensure valid "notify_new_payload"%string
                  | None => Ok tt
                  end);;
  modify (set_latest_execution_payload_header (to_execution_payload_header (execution_payload body))).

(** ** Blocks *)

Definition process_block_after_execution_payload (body : BeaconBlockBody)
    (verify_randao verify_signatures : bool) : BM unit :=
  process_randao_inner body verify_randao;;
  process_eth1_data body;;
  process_operations_with body verify_signatures;;
  process_sync_aggregate_with (sync_aggregate body) verify_signatures.

Definition process_proposed_block (block : BeaconBlock) (execution_engine : option ExecutionEngine)
    (verify_randao : bool) : BM unit :=
  process_block_header block;;
  process_withdrawals (execution_payload (b_body block));;
  process_execution_payload (b_body block) execution_engine;;
  process_block_after_execution_payload (b_body block) verify_randao true.

Definition process_block (block : BeaconBlock) (execution_engine : option ExecutionEngine) : BM unit :=
  process_proposed_block block execution_engine true.

Definition signed_header (self : SignedBeaconBlock) : SignedBeaconBlockHeader :=
  mkSignedBeaconBlockHeader
    (mkBeaconBlockHeader (b_slot (sb_message self)) (b_proposer_index (sb_message self))
       (b_parent_root (sb_message self)) (b_state_root (sb_message self))
       (tree_hash_root (b_body (sb_message self))))
    (sb_signature self).

Definition verify_block_header_signature (self : BeaconState) (signed_block : SignedBeaconBlockHeader) :
    res anyhow bool :=
  proposer ← ok_or (validators self !! Z.to_nat (bh_proposer_index (sbh_message signed_block)))
               "Invalid block proposer index"%string;
  let signing_root := compute_signing_root (sbh_message signed_block)
    (get_domain self DOMAIN_BEACON_PROPOSER
       (Some (compute_epoch_at_slot (bh_slot (sbh_message signed_block))))) in
  bls_verify (sbh_signature signed_block) (public_key proposer) signing_root.

Definition process_signed_block (signed_block : SignedBeaconBlock) (validate_result : bool)
    (execution_engine : option ExecutionEngine) : BM unit :=
  let block := sb_message signed_block in
  reads (fun s => if validate_result then
                    valid ← verify_block_header_signature s (signed_header signed_block);
                    ensure valid "verify_block_header_signature"%string
                  else Ok tt);;
  process_block block execution_engine;;
  reads (fun s => if validate_result then
                    ensure (bool_decide (b_state_root block = state_root s)) "state_root"%string
                  else Ok tt).

(** ** Transitions *)

Definition state_transition_from_root (signed_block : SignedBeaconBlock) (validate_result : bool)
    (execution_engine : option ExecutionEngine) (pre_state_root : option B256) : BM unit :=
  process_slots_from_root (b_slot (sb_message signed_block)) pre_state_root;;
  process_signed_block signed_block validate_result execution_engine.

Definition state_transition (signed_block : SignedBeaconBlock) (validate_result : bool)
    (execution_engine : option ExecutionEngine) : BM unit :=
  state_transition_from_root signed_block validate_result execution_engine None.

Definition state_transition_from_epoch_start (signed_block : SignedBeaconBlock) (validate_result : bool)
    (execution_engine : option ExecutionEngine) : BM unit :=
  let block_slot := b_slot (sb_message signed_block) in
  ensureM (fun s => slot s =? compute_start_slot_at_epoch (compute_epoch_at_slot block_slot))
    "pre-state slot is not the first slot of the block's epoch";;
  before ← reads (fun s => Ok (slot s <? block_slot));
  (if (before : bool) then process_slots block_slot else mret tt);;
  process_signed_block signed_block validate_result execution_engine.

Definition state_transition_keeping_epoch_start (signed_block : SignedBeaconBlock) (validate_result : bool)
    (execution_engine : option ExecutionEngine) (pre_state_root : option B256) : BM (option BeaconState) :=
  let block_slot := b_slot (sb_message signed_block) in
  let block_epoch := compute_epoch_at_slot block_slot in
  current ← reads (fun s => Ok (get_current_epoch s));
  if block_epoch <=? current then
    state_transition_from_root signed_block validate_result execution_engine pre_state_root;;
    mret None
  else
    process_slots_from_root (compute_start_slot_at_epoch block_epoch) pre_state_root;;
    epoch_start_state ← reads (fun s => Ok s);
    state_transition_from_epoch_start signed_block validate_result execution_engine;;
    mret (Some epoch_start_state).

(** A block that was imported before, without its payload, signatures and state root. *)
Definition replay_block (signed_block : SignedBeaconBlock) (pre_state_root : option B256) : BM unit :=
  let block := sb_message signed_block in
  process_slots_from_root (b_slot block) pre_state_root;;
  process_block_header block;;
  process_withdrawals (execution_payload (b_body block));;
  reads (fun s => verify_execution_payload_consistency s (b_body block));;
  modify (set_latest_execution_payload_header
            (to_execution_payload_header (execution_payload (b_body block))));;
  process_block_after_execution_payload (b_body block) false false.
End transition.
