(* ===== verification/BeaconFacts.v ===== *)
(** * Facts about the accessors

    The integer square root, active indices, total balances and their churn limits, and
    the committees of an epoch. *)

From stdpp Require Import strings.
From S2P Require Import Prelude StateMonad Bytes Shuffling BeaconTypes BeaconAccess.

(** ** The integer square root *)

Lemma mean_ge_root s n y q :
  0 <= s -> s * s <= n -> n < y * q + y -> 0 < y -> 0 <= q -> y + q <= 2 * s - 1 -> False.
Proof.
  intros Hs Hn Hq Hy Hq0 Hlt.
  assert (0 <= (y - (q + 1)) * (y - (q + 1))) by apply Z.square_nonneg.
  assert ((y + (q + 1)) * (y + (q + 1)) <= (2 * s) * (2 * s)) by (apply Z.square_le_mono_nonneg; lia).
  lia.
Qed.

Lemma quotient_le_root s n y q :
  0 <= s -> n < (s + 1) * (s + 1) -> y * q <= n -> s < y -> 0 <= q -> q <= s.
Proof.
  intros Hs Hn Hq Hy Hq0. destruct (decide (q <= s)); [done|].
  assert ((s + 1) * (s + 1) <= y * q) by (apply Z.mul_le_mono_nonneg; lia). lia.
Qed.

(** The result is the floor of the root when the loop starts above it. *)
Lemma sqrt_loop_spec fuel n s x y :
  0 < n < 2 ^ 64 - 1 -> 0 <= s -> s * s <= n < (s + 1) * (s + 1) ->
  s <= x -> 0 < x <= 2 ^ 64 - 1 -> 0 < y < 2 ^ 63 + 1 -> s <= y ->
  (x <= y -> x = s) -> y - s < 2 ^ (Z.of_nat fuel) -> y - s < 2 ^ 63 ->
  sqrt_loop (S fuel) n x y = Ok s.
Proof.
  revert x y. induction fuel as [|fuel IH]; intros x y Hn Hs Hsn Hx Hx0 Hy0 Hy Hend Hf Hy63.
  - (* the distance is zero *)
    assert (s < 2 ^ 32) by nia.
    assert (y = s) as -> by (change (2 ^ Z.of_nat 0) with 1 in Hf; lia).
    cbn [sqrt_loop]. case_if; b2p; [|f_equal; apply Hend; lia].
    unfold u64_div. rewrite (proj2 (Z.eqb_neq s 0)) by lia. cbn [mbind res_bind].
    assert (s <= n / s) by (apply Z.div_le_lower_bound; nia).
    assert (n / s <= s + 2) by (apply Z.div_le_upper_bound; nia).
    u64_simpl. cbn [sqrt_loop]. replace (_ <? s) with false; [done|].
    symmetry. apply Z.ltb_ge. apply Z.div_le_lower_bound; lia.
  - cbn [sqrt_loop]. case_if; b2p; [|f_equal; apply Hend; lia].
    unfold u64_div. rewrite (proj2 (Z.eqb_neq y 0)) by lia. cbn [mbind res_bind].
    assert (0 <= n / y) by (apply Z.div_pos; lia).
    assert (y * (n / y) <= n < y * (n / y) + y) as Hdiv.
    { pose proof (Z.div_mod n y). pose proof (Z.mod_pos_bound n y). lia. }
    set (q := n / y) in *.
    assert (y + q < 2 ^ 64) as Hq.
    { destruct (decide (y <= 1)); [nia|]. assert (q <= n / 2) by (apply Z.div_le_compat_l; lia).
      pose proof (Z.div_mod n 2). pose proof (Z.mod_pos_bound n 2). lia. }
    u64_simpl. pose proof (half_bounds (y + q)) as Hh. set (z := (y + q) / 2) in *.
    (* the mean is not below the root *)
    assert (s <= z) as Hsz.
    { destruct (decide (s <= z)); [done|]. exfalso. apply (mean_ge_root s n y q); lia. }
    destruct (decide (y = s)) as [->|Hys].
    + assert (s <= q) by nia. assert (q <= s + 2) by nia.
      cbn [sqrt_loop]. replace (z <? s) with false; [done|]. symmetry. apply Z.ltb_ge. lia.
    + assert (0 < s) by (destruct (decide (s = 0)) as [->|]; lia).
      assert (q <= s) by (apply (quotient_le_root s n y q); lia). apply IH; try lia.
      rewrite Nat2Z.inj_succ, Z.pow_succ_r in Hf by lia. lia.
Qed.

Lemma integer_squareroot_sqrt n : is_u64 n -> integer_squareroot n = Ok (Z.sqrt n).
Proof.
  intros Hn. unfold integer_squareroot, UINT64_MAX, UINT64_MAX_SQRT. case_if; b2p; [by subst|].
  destruct (decide (n = 0)) as [->|Hn0]; [done|].
  destruct (Z.sqrt_spec n ltac:(u64_solve)) as [H1 H2]. pose proof (Z.sqrt_nonneg n).
  set (s := Z.sqrt n) in *. rewrite <-Z.add_1_r in H2. unfold is_u64 in Hn.
  assert (u64_div_ceil n 2 = (n + 1) / 2) as ->.
  { unfold u64_div_ceil. pose proof (Z.div_mod n 2 ltac:(lia)) as E. pose proof (Z.mod_pos_bound n 2).
    case_if; b2p; [apply (Z.div_unique _ _ _ 1)|apply (Z.div_unique _ _ _ 0)]; lia. }
  pose proof (half_bounds (n + 1)) as Hh. set (y := (n + 1) / 2) in *.
  apply (sqrt_loop_spec 65 n s n y); try lia; try nia.
Qed.

(** ** The indices a scan of the registry keeps *)

Lemma enumerate_cons {A} (a : A) l :
  enumerate (a :: l) = (0%nat, a) :: (prod_map S id <$> enumerate l).
Proof.
  unfold enumerate. cbn. f_equal. rewrite <-seq_shift. generalize (seq 0 (length l)) as k.
  induction l as [|b l IH]; intros [|i k]; cbn; try done. f_equal. apply IH.
Qed.

Section scan.
Context {A : Type} (f : A -> bool).

Definition kept (l : list A) : list Z :=
  omap (fun ia : nat * A => if f ia.2 then Some (Z.of_nat ia.1) else None) (enumerate l).

Lemma elem_of_kept l i :
  i ∈ kept l <-> 0 <= i /\ exists a, l !! Z.to_nat i = Some a /\ f a = true.
Proof.
  unfold kept. rewrite list_elem_of_omap. split.
  - intros ([k a] & Hk & E). cbn in E. destruct (f a) eqn:Ef; [|done]. injection E as <-.
    apply elem_of_enumerate in Hk. rewrite Nat2Z.id. split; [lia|]. by exists a.
  - intros [Hi (a & Ha & Ef)]. exists (Z.to_nat i, a). rewrite elem_of_enumerate. cbn.
    rewrite Ef. split; [done|]. f_equal. lia.
Qed.

Lemma kept_cons a l : kept (a :: l) = (if f a then [0] else []) ++ (Z.succ <$> kept l).
Proof.
  unfold kept. rewrite enumerate_cons.
  assert (forall k : list (nat * A),
    omap (fun ia : nat * A => if f ia.2 then Some (Z.of_nat ia.1) else None) (prod_map S id <$> k) =
    Z.succ <$> omap (fun ia : nat * A => if f ia.2 then Some (Z.of_nat ia.1) else None) k) as Hk.
  { induction k as [|[i b] k IH]; [done|]. cbn in *. change (id b) with b. destruct (f b); cbn; rewrite IH; [|done].
    f_equal. lia. }
  specialize (Hk (enumerate l)). destruct (f a) eqn:E; cbn; rewrite E; [f_equal|]; exact Hk.
Qed.

Lemma NoDup_kept l : NoDup (kept l).
Proof.
  induction l as [|a l IH]; [constructor|]. rewrite kept_cons.
  apply NoDup_app. split; [destruct (f a); repeat constructor; set_solver|]. split.
  - intros x Hx (y & -> & Hy%elem_of_kept)%list_elem_of_fmap. destruct (f a); [|set_solver].
    apply list_elem_of_singleton in Hx. lia.
  - apply NoDup_fmap_2; [|done]. intros x y. lia.
Qed.

Lemma kept_lookup {B} (g : A -> B) (d : B) l :
  (fun i => default d (g <$> l !! Z.to_nat i)) <$> kept l = g <$> filter (fun a => f a = true) l.
Proof.
  induction l as [|a l IH]; [done|]. rewrite kept_cons, fmap_app, filter_cons.
  assert ((fun i => default d (g <$> (a :: l) !! Z.to_nat i)) <$> (Z.succ <$> kept l) =
          g <$> filter (fun a => f a = true) l) as ->.
  { rewrite <-list_fmap_compose, <-IH. apply list_fmap_ext. intros k i Hi.
    apply list_elem_of_lookup_2, elem_of_kept in Hi as [Hi _]. unfold compose.
    rewrite Z2Nat.inj_succ by lia. done. }
  case_decide as E; [rewrite E|destruct (f a); [done|]]; done.
Qed.

Lemma length_kept l : length (kept l) = length (filter (fun a => f a = true) l).
Proof.
  rewrite <-(length_fmap (fun a : A => Some a) (filter _ l)), <-(kept_lookup (fun a : A => Some a) None).
  by rewrite length_fmap.
Qed.
End scan.

Section facts.
Context {H : Sha256} {F : CandidateFuel} {HO : HashOrder} {HL : HashOrderLaws HO}.

Lemma active_kept s e : get_active_validator_indices s e = kept (fun v => is_active_validator v e) (validators s).
Proof. done. Qed.

(** ** Total balances *)

(** The sum of the effective balances of the validators that satisfy [f]. *)
Definition balance_where (f : Validator -> bool) (s : BeaconState) : Z :=
  u64_sum (effective_balance <$> filter (fun v => f v = true) (validators s)).

Lemma get_total_balance_kept f s :
  get_total_balance s (list_to_set (kept f (validators s))) =
  Ok (Z.max EFFECTIVE_BALANCE_INCREMENT (balance_where f s)).
Proof using HL.
  unfold get_total_balance.
  set (g := fun i => default 0 (effective_balance <$> validators s !! Z.to_nat i)).
  assert (hs_iter (list_to_set (kept f (validators s)) : gset Z) ≡ₚ kept f (validators s)) as Hp.
  { rewrite hs_iter_perm. apply elements_list_to_set, NoDup_kept. }
  rewrite (mapR_fmap _ g).
  - cbn. f_equal. f_equal. unfold balance_where. rewrite <-(kept_lookup f effective_balance 0).
    apply u64_sum_perm. by rewrite Hp.
  - intros i Hi. rewrite Hp in Hi. apply elem_of_kept in Hi as [_ (v & Hv & _)].
    rewrite (index_lookup _ _ _ Hv). cbn. unfold g. by rewrite Hv.
Qed.

Definition total_active (s : BeaconState) : Z :=
  Z.max EFFECTIVE_BALANCE_INCREMENT
    (balance_where (fun v => is_active_validator v (get_current_epoch s)) s).

Lemma get_total_active_balance_Ok s : get_total_active_balance s = Ok (total_active s).
Proof using HL. exact (get_total_balance_kept (fun v => is_active_validator v (get_current_epoch s)) s). Qed.

Lemma u64_sum_u64 l : is_u64 (u64_sum l).
Proof. rewrite u64_sum_wrap. apply Z.mod_pos_bound. lia. Qed.

Lemma total_active_bounds s : EFFECTIVE_BALANCE_INCREMENT <= total_active s < 2 ^ 64.
Proof.
  unfold total_active, balance_where.
  pose proof (u64_sum_u64 (effective_balance <$> filter
    (fun v => is_active_validator v (get_current_epoch s) = true) (validators s))) as [? ?].
  unfold EFFECTIVE_BALANCE_INCREMENT. lia.
Qed.

(** ** Churn limits *)

Definition balance_churn (s : BeaconState) : Z :=
  let churn := Z.max MIN_PER_EPOCH_CHURN_LIMIT_ELECTRA (total_active s / CHURN_LIMIT_QUOTIENT) in
  churn - churn mod EFFECTIVE_BALANCE_INCREMENT.

Lemma get_balance_churn_limit_Ok s :
  get_balance_churn_limit s = Ok (balance_churn s) /\
  MIN_PER_EPOCH_CHURN_LIMIT_ELECTRA <= balance_churn s < 2 ^ 48.
Proof using HL.
  pose proof (total_active_bounds s) as Ht.
  unfold get_balance_churn_limit. rewrite get_total_active_balance_Ok. cbn [mbind res_bind].
  assert (total_active s / CHURN_LIMIT_QUOTIENT < 2 ^ 48) by (apply Z.div_lt_upper_bound; unfold CHURN_LIMIT_QUOTIENT; lia).
  assert (0 <= total_active s / CHURN_LIMIT_QUOTIENT) by (apply Z.div_pos; unfold CHURN_LIMIT_QUOTIENT, EFFECTIVE_BALANCE_INCREMENT in *; lia).
  unfold balance_churn. set (q := total_active s / CHURN_LIMIT_QUOTIENT) in *.
  set (c := Z.max MIN_PER_EPOCH_CHURN_LIMIT_ELECTRA q).
  assert (MIN_PER_EPOCH_CHURN_LIMIT_ELECTRA <= c < 2 ^ 48) by (unfold c, MIN_PER_EPOCH_CHURN_LIMIT_ELECTRA in *; lia).
  pose proof (Z.mod_pos_bound c EFFECTIVE_BALANCE_INCREMENT eq_refl).
  pose proof (Z.div_mod c EFFECTIVE_BALANCE_INCREMENT ltac:(done)) as E.
  set (m := c mod EFFECTIVE_BALANCE_INCREMENT) in *.
  unfold EFFECTIVE_BALANCE_INCREMENT, MIN_PER_EPOCH_CHURN_LIMIT_ELECTRA in *.
  assert (128 <= c / 1000000000) by (apply Z.div_le_lower_bound; lia).
  u64_simpl. split; [done|]. lia.
Qed.

Lemma get_activation_exit_churn_limit_Ok s :
  get_activation_exit_churn_limit s = Ok (Z.min MAX_PER_EPOCH_ACTIVATION_EXIT_CHURN_LIMIT (balance_churn s)) /\
  MIN_PER_EPOCH_CHURN_LIMIT_ELECTRA <= Z.min MAX_PER_EPOCH_ACTIVATION_EXIT_CHURN_LIMIT (balance_churn s).
Proof using HL.
  unfold get_activation_exit_churn_limit. destruct (get_balance_churn_limit_Ok s) as [-> ?]. cbn.
  split; [done|]. unfold MAX_PER_EPOCH_ACTIVATION_EXIT_CHURN_LIMIT, MIN_PER_EPOCH_CHURN_LIMIT_ELECTRA in *. lia.
Qed.

Lemma get_consolidation_churn_limit_Ok s :
  get_consolidation_churn_limit s =
  Ok (balance_churn s - Z.min MAX_PER_EPOCH_ACTIVATION_EXIT_CHURN_LIMIT (balance_churn s)).
Proof using HL.
  unfold get_consolidation_churn_limit. destruct (get_activation_exit_churn_limit_Ok s) as [-> ?].
  destruct (get_balance_churn_limit_Ok s) as [-> ?]. cbn.
  unfold MAX_PER_EPOCH_ACTIVATION_EXIT_CHURN_LIMIT, MIN_PER_EPOCH_CHURN_LIMIT_ELECTRA in *.
  by u64_simpl.
Qed.

Lemma get_base_reward_per_increment_Ok s :
  get_base_reward_per_increment s =
  Ok (EFFECTIVE_BALANCE_INCREMENT * BASE_REWARD_FACTOR / Z.sqrt (total_active s)).
Proof using HL.
  unfold get_base_reward_per_increment. rewrite get_total_active_balance_Ok. cbn [mbind res_bind].
  pose proof (total_active_bounds s) as Ht. unfold EFFECTIVE_BALANCE_INCREMENT in *.
  rewrite integer_squareroot_sqrt by u64_solve. cbn [mbind res_bind]. unfold u64_div.
  rewrite (proj2 (Z.eqb_neq _ _)); [done|].
  assert (0 < Z.sqrt (total_active s)) by (apply Z.sqrt_pos; lia). lia.
Qed.
End facts.

(** * The committees of an epoch

    Every validator active in an epoch sits on exactly one committee of it, and
    [get_committee_assignment] finds it. *)

Lemma concat_NoDup_unique {A} (cs : list (list A)) j k c c' x :
  NoDup (concat cs) -> cs !! j = Some c -> cs !! k = Some c' -> x ∈ c -> x ∈ c' -> j = k.
Proof.
  revert j k. induction cs as [|d cs IH]; intros j k Hn Hj Hk Hx Hx'; [done|].
  cbn in Hn. apply NoDup_app in Hn as (Hd & Hdis & Hcs).
  assert (forall m e, cs !! m = Some e -> x ∈ e -> x ∈ concat cs) as Hin.
  { intros m e Hm He. apply list_elem_of_In, in_concat. exists e.
    rewrite <-!list_elem_of_In. split; [by eapply list_elem_of_lookup_2|done]. }
  destruct j as [|j], k as [|k]; cbn in *; simplify_eq; auto.
  - exfalso. eapply Hdis; eauto.
  - exfalso. eapply (Hdis x); eauto.
Qed.

Section committees.
Context {H : Sha256} {HLaw : Sha256Laws H} {F : CandidateFuel} {HO : HashOrder} {SV : SszVec}.

Lemma find_assignment_spec s v duties cs :
  Forall2 (fun d c => get_beacon_committee s d.1 d.2 = Ok c) duties cs ->
  (find_assignment s v duties = Ok None /\ v ∉ concat cs) \/
  (exists k c i sl, find_assignment s v duties = Ok (Some (c, i, sl)) /\
     duties !! k = Some (sl, i) /\ cs !! k = Some c /\ v ∈ c).
Proof.
  induction 1 as [|[sl i] c duties cs Hc Hcs IH]; cbn [find_assignment].
  - left. split; [done|]. cbn. set_solver.
  - cbn in Hc. rewrite Hc. cbn [mbind res_bind]. case_bool_decide as Hv.
    + right. exists 0%nat, c, i, sl. done.
    + destruct IH as [[-> Hn]|(k & c' & i' & sl' & -> & Hd & Hk & Hin)].
      * left. split; [done|]. cbn. set_solver.
      * right. exists (S k), c', i', sl'. done.
Qed.

(** The shuffled active validators of an epoch. *)
Lemma shuffled_active_Ok s e :
  length (randao_mixes s) = Z.to_nat EPOCHS_PER_HISTORICAL_VECTOR ->
  Z.of_nat (length (validators s)) <= 2 ^ 40 ->
  exists l, get_shuffled_active_validator_indices s e = Ok l /\ l ≡ₚ get_active_validator_indices s e /\
    Z.of_nat (length l) <= 2 ^ 40.
Proof using HLaw.
  intros Hmix Hn. unfold get_shuffled_active_validator_indices, get_seed, get_randao_mix.
  set (e' := (_ - 1)%u64).
  assert (Z.to_nat (e' mod EPOCHS_PER_HISTORICAL_VECTOR) < length (randao_mixes s))%nat as Hlt.
  { rewrite Hmix. pose proof (Z.mod_pos_bound e' EPOCHS_PER_HISTORICAL_VECTOR eq_refl). lia. }
  apply lookup_lt_is_Some in Hlt as [mix Hm]. rewrite (index_lookup _ _ _ Hm). cbn [mbind res_bind].
  assert (Z.of_nat (length (get_active_validator_indices s e)) <= 2 ^ 40) as Ha.
  { rewrite active_kept, length_kept. pose proof (length_filter (fun v => is_active_validator v e = true) (validators s)). lia. }
  destruct (compute_shuffled_list_spec (hash (DOMAIN_BEACON_ATTESTER ++ le_bytes 8 e ++ mix))
              (get_active_validator_indices s e)) as (l & Hl & Hlen & _); [lia|].
  exists l. split; [exact Hl|]. split; [|by rewrite Hlen].
  eapply compute_shuffled_list_perm; [|exact Hl]. lia.
Qed.

Lemma slot_in_epoch e sl :
  0 <= e -> is_u64 (e * SLOTS_PER_EPOCH) ->
  compute_start_slot_at_epoch e <= sl < compute_start_slot_at_epoch e + SLOTS_PER_EPOCH ->
  compute_epoch_at_slot sl = e.
Proof.
  intros He Hu. unfold compute_start_slot_at_epoch, compute_epoch_at_slot, SLOTS_PER_EPOCH in *.
  rewrite u64_mul_id by done. intros Hs. symmetry. apply (Z.div_unique _ _ _ (sl - e * 32)); lia.
Qed.

Lemma elem_of_epoch_committees e cps sl i :
  0 <= e -> is_u64 (e * SLOTS_PER_EPOCH) ->
  (sl, i) ∈ epoch_committees cps (compute_start_slot_at_epoch e) <->
  compute_epoch_at_slot sl = e /\ 0 <= i < cps.
Proof.
  intros He Hu. unfold epoch_committees. rewrite list_elem_of_bind. split.
  - intros (y & (j & [= -> ->] & Hj)%list_elem_of_fmap & Hy).
    rewrite elem_of_range in Hj, Hy. split; [|done]. by apply slot_in_epoch.
  - intros [Hsl Hi]. exists sl. split; [apply list_elem_of_fmap; exists i; by rewrite elem_of_range|].
    rewrite elem_of_range. unfold compute_start_slot_at_epoch. rewrite u64_mul_id by done.
    unfold compute_epoch_at_slot in Hsl. pose proof (Z.div_mod sl SLOTS_PER_EPOCH ltac:(done)).
    pose proof (Z.mod_pos_bound sl SLOTS_PER_EPOCH eq_refl). lia.
Qed.

(** The committees of an epoch, and that they partition its active validators. *)
Lemma state_committees s e :
  length (randao_mixes s) = Z.to_nat EPOCHS_PER_HISTORICAL_VECTOR ->
  Z.of_nat (length (validators s)) <= 2 ^ 40 -> 0 <= e -> is_u64 (e * SLOTS_PER_EPOCH) ->
  exists cps cs, get_committee_count_per_slot s e = Ok cps /\
    Forall2 (fun d c => get_beacon_committee s d.1 d.2 = Ok c)
      (epoch_committees cps (compute_start_slot_at_epoch e)) cs /\
    concat cs ≡ₚ get_active_validator_indices s e.
Proof using HLaw.
  intros Hmix Hn He Hu. destruct (shuffled_active_Ok s e Hmix Hn) as (l & Hl & Hperm & Hlen).
  destruct (epoch_committees_concat l (compute_start_slot_at_epoch e)) as (cs & Hcs & Hcat); [done| |].
  { unfold compute_start_slot_at_epoch. rewrite u64_mul_id by done. by apply Z.mod_mul. }
  exists (committee_count_per_slot (Z.of_nat (length l))), cs.
  split; [unfold get_committee_count_per_slot; by rewrite Hl|]. split; [|by rewrite Hcat].
  apply mapR_Ok in Hcs. apply Forall2_same_length_lookup_2; [by eapply Forall2_length|].
  intros k [sl i] c Hd Hc. pose proof (Forall2_lookup_lr _ _ _ _ _ _ Hcs Hd Hc) as E. cbn in E.
  apply list_elem_of_lookup_2, elem_of_epoch_committees in Hd as [Hd _]; [|done..].
  unfold get_beacon_committee. cbn. by rewrite Hd, Hl.
Qed.

Lemma elem_of_concat_lookup {A} (cs : list (list A)) k c x : cs !! k = Some c -> x ∈ c -> x ∈ concat cs.
Proof.
  intros Hk Hx. apply list_elem_of_In, in_concat. exists c.
  rewrite <-!list_elem_of_In. split; [by eapply list_elem_of_lookup_2|done].
Qed.

Lemma committee_assignment_Ok s e v :
  length (randao_mixes s) = Z.to_nat EPOCHS_PER_HISTORICAL_VECTOR ->
  Z.of_nat (length (validators s)) <= 2 ^ 40 ->
  0 <= slot s < 2 ^ 63 -> 0 <= e <= get_current_epoch s + 1 ->
  exists r, get_committee_assignment s e v = Ok r /\
    (r = None <-> v ∉ get_active_validator_indices s e) /\
    forall c i sl, r = Some (c, i, sl) ->
      compute_epoch_at_slot sl = e /\ get_beacon_committee s sl i = Ok c /\ v ∈ c /\
      forall n sl' i' c', get_committee_count_per_slot s e = Ok n ->
        compute_epoch_at_slot sl' = e -> 0 <= i' < n ->
        get_beacon_committee s sl' i' = Ok c' -> v ∈ c' -> sl' = sl /\ i' = i.
Proof using HLaw.
  intros Hmix Hn Hs He.
  assert (0 <= get_current_epoch s < 2 ^ 58) as Hcur.
  { unfold get_current_epoch, compute_epoch_at_slot.
    split; [apply Z.div_pos|apply Z.div_lt_upper_bound]; unfold SLOTS_PER_EPOCH; lia. }
  assert (is_u64 (e * SLOTS_PER_EPOCH)) as Hu by (unfold SLOTS_PER_EPOCH in *; u64_solve).
  destruct (state_committees s e Hmix Hn) as (cps & cs & Hcps & Hall & Hperm); [lia|done|].
  assert (NoDup (concat cs)) as Hnd by (rewrite Hperm, active_kept; apply NoDup_kept).
  unfold get_committee_assignment. rewrite (u64_add_id (get_current_epoch s) 1) by u64_solve. unfold ensure.
  rewrite (proj2 (Z.leb_le e _)) by lia. rewrite Hcps. cbn [mbind res_bind].
  rewrite (u64_add_id (compute_start_slot_at_epoch e)).
  2:{ unfold compute_start_slot_at_epoch, SLOTS_PER_EPOCH in *. u64_simpl. u64_solve. }
  destruct (find_assignment_spec s v _ cs Hall) as [[Hf Hnone]|(k & c & i & sl & Hf & Hk & Hc & Hv)].
  - exists None. split; [exact Hf|]. split; [by rewrite <-Hperm|]. done.
  - exists (Some (c, i, sl)). split; [exact Hf|]. split.
    { split; [done|]. intros Hno. exfalso. apply Hno. rewrite <-Hperm. by eapply elem_of_concat_lookup. }
    intros ? ? ? [= <- <- <-]. split.
    { by apply list_elem_of_lookup_2, elem_of_epoch_committees in Hk as [? _]; [|lia|]. }
    split; [by destruct (Forall2_lookup_lr _ _ _ _ _ _ Hall Hk Hc)|].
    split; [done|]. intros n sl' i' c' [= <-] Hsl' Hi' Hc' Hv'.
    assert ((sl', i') ∈ epoch_committees cps (compute_start_slot_at_epoch e)) as Hd'
      by (apply elem_of_epoch_committees; [lia|done|done]).
    apply list_elem_of_lookup in Hd' as [k' Hk'].
    destruct (Forall2_lookup_l _ _ _ _ _ Hall Hk') as (c'' & Hcc & E). cbn in E.
    assert (c'' = c') as -> by congruence.
    assert (k = k') as <- by (by eapply (concat_NoDup_unique cs)). rewrite Hk in Hk'. by injection Hk' as -> ->.
Qed.
End committees.
