(* ===== verification/BeaconRegistry.v ===== *)
(** * The registry and the exit queue

    [find_validator_indices] scans the registry chunk by chunk and compares the first
    bytes of a key before the whole; it finds what a search from the start finds.

    Each epoch lets a limited balance leave.  However many validators exit in a row, the
    balance they take is exactly what the epochs up to the last one assigned offer, less
    what is left of it, and the epochs assigned never decrease. *)

From stdpp Require Import strings.
From S2P Require Import Prelude StateMonad Bytes Shuffling BeaconTypes BeaconAccess BeaconMutate BeaconFacts.

(** ** Chunks *)

Lemma enumerate_from_app {A} k (l1 l2 : list A) :
  enumerate_from k (l1 ++ l2) = enumerate_from k l1 ++ enumerate_from (k + length l1) l2.
Proof.
  unfold enumerate_from. rewrite length_app, seq_app, zip_with_app; [done|].
  by rewrite length_seq.
Qed.

Lemma enumerate_from_shift {A} a b (l : list A) :
  enumerate_from (a + b) l = prod_map (Nat.add a) id <$> enumerate_from b l.
Proof.
  revert b. induction l as [|x l IH]; intros b; [done|]. rewrite !enumerate_from_cons. cbn. f_equal.
  rewrite <-IH. by rewrite Nat.add_succ_r.
Qed.

(** A scan of the chunks with their offsets is a scan of the list. *)
Lemma chunks_scan {A B} (f : nat * A -> option B) size l fuel c :
  (0 < size)%nat -> (length l <= fuel)%nat ->
  (enumerate_from c (chunks_from fuel size l) ≫= fun ic : nat * list A =>
     omap (fun ov : nat * A => f ((ic.1 * size + ov.1)%nat, ov.2)) (enumerate ic.2)) =
  omap f (enumerate_from (c * size) l).
Proof.
  intros Hs. revert l c. induction fuel as [|fuel IH]; intros l c Hf.
  - assert (l = []) as -> by (by destruct l; cbn in *; [|lia]). done.
  - destruct l as [|x l]; [done|]. cbn [chunks_from]. rewrite enumerate_from_cons.
    set (l' := x :: l) in *. cbn [mbind list_bind fst snd].
    assert (forall chunk : list A,
      omap (fun ov : nat * A => f ((c * size + ov.1)%nat, ov.2)) (enumerate chunk) =
      omap f (enumerate_from (c * size) chunk)) as ->.
    { intros chunk. change (enumerate chunk) with (enumerate_from 0 chunk).
      replace (enumerate_from (c * size) chunk) with (enumerate_from (c * size + 0) chunk) by (f_equal; lia).
      rewrite enumerate_from_shift.
      generalize (enumerate_from 0 chunk) as k. induction k as [|[i v] k IHk]; [done|].
      cbn. unfold id. rewrite IHk. done. }
    etrans; [apply f_equal, IH; rewrite length_drop; unfold l' in *; cbn in *; lia|].
    rewrite <-(take_drop size l') at 3. rewrite enumerate_from_app, omap_app. f_equal. f_equal.
    destruct (decide (length l' <= size)%nat) as [Hle|Hgt].
    + rewrite (drop_ge l' size) by lia. done.
    + f_equal. rewrite length_take_le by lia. cbn. lia.
Qed.

(** ** Finding keys *)

(** The first validator with a key. *)
Definition first_index (vs : list Validator) (k : PublicKey) : option nat :=
  fst <$> list_find (fun v => public_key v = k) vs.

Definition select_key (keys : list PublicKey) (iv : nat * Validator) : option (nat * PublicKey) :=
  if bool_decide (public_key iv.2 ∈ keys) then Some (iv.1, public_key iv.2) else None.

Lemma or_insert_scan keys vs o (m : gmap PublicKey nat) k :
  foldl (fun m (ik : nat * PublicKey) => or_insert m ik.2 ik.1) m
    (omap (select_key keys) (enumerate_from o vs)) !! k =
  match m !! k with
  | Some i => Some i
  | None => if bool_decide (k ∈ keys) then Nat.add o <$> first_index vs k else None
  end.
Proof.
  revert o m. induction vs as [|v vs IH]; intros o m.
  - cbn. destruct (m !! k); [done|]. by case_bool_decide.
  - rewrite enumerate_from_cons. unfold first_index. cbn [list_find].
    assert (forall m', foldl (fun m (ik : nat * PublicKey) => or_insert m ik.2 ik.1) m'
      (omap (select_key keys) (enumerate_from (S o) vs)) !! k =
      match m' !! k with Some i => Some i
      | None => if bool_decide (k ∈ keys) then Nat.add o <$> (S <$> first_index vs k) else None end) as IH'.
    { intros m'. rewrite IH. destruct (m' !! k); [done|]. case_bool_decide; [|done].
      destruct (first_index vs k); cbn; [|done]. f_equal. lia. }
    assert ((fst <$> (prod_map S id <$> list_find (fun v => public_key v = k) vs)) = S <$> first_index vs k) as Hs.
    { unfold first_index. by destruct (list_find _ vs) as [[? ?]|]. }
    change (omap (select_key keys) ((o, v) :: enumerate_from (S o) vs)) with
      (match select_key keys (o, v) with
       | Some y => y :: omap (select_key keys) (enumerate_from (S o) vs)
       | None => omap (select_key keys) (enumerate_from (S o) vs)
       end).
    destruct (select_key keys (o, v)) as [y|] eqn:Ey; unfold select_key in Ey; cbn in Ey;
      case_bool_decide as Ev; try done.
    + injection Ey as <-. cbn [foldl fst snd]. rewrite IH'. unfold or_insert.
      destruct (decide (public_key v = k)) as [<-|Hne].
      * rewrite bool_decide_eq_true_2 by done. destruct (m !! public_key v) eqn:Em; [by rewrite Em|].
        rewrite lookup_insert_eq. cbn. f_equal. lia.
      * rewrite Hs. destruct (m !! public_key v) eqn:Em; [done|]. by rewrite lookup_insert_ne.
    + rewrite IH'. destruct (m !! k); [done|]. case_bool_decide as Hk; [|done].
      destruct (decide (public_key v = k)) as [<-|Hne]; [done|]. by rewrite Hs.
Qed.

(** The keys of the batch map to the first validator that has them. *)
Lemma find_validator_indices_spec s keys k :
  find_validator_indices s keys !! k =
  if bool_decide (k ∈ keys) then first_index (validators s) k else None.
Proof.
  unfold find_validator_indices. destruct keys as [|k0 keys'] eqn:Ek.
  { rewrite lookup_empty. symmetry. rewrite bool_decide_eq_false_2 by set_solver. done. }
  rewrite <-Ek. clear Ek k0 keys'.
  assert (forall ic, scan_chunk (public_key_prefix <$> keys) keys ic =
    omap (fun ov : nat * Validator => select_key keys ((ic.1 * CHUNK_SIZE + ov.1)%nat, ov.2)) (enumerate ic.2)) as Hscan.
  { intros [c chunk]. unfold scan_chunk. apply list_omap_ext, Forall_Forall2_diag, Forall_forall.
    intros [o v] _. unfold select_key. cbn. destruct (bool_decide (public_key v ∈ keys)) eqn:E; b2p.
    - rewrite bool_decide_eq_true_2; [done|]. apply list_elem_of_fmap. eauto.
    - by rewrite andb_false_r. }
  assert ((enumerate (chunks CHUNK_SIZE (validators s)) ≫= scan_chunk (public_key_prefix <$> keys) keys) =
    omap (select_key keys) (enumerate_from 0 (validators s))) as ->.
  { change (enumerate_from 0 (validators s)) with (enumerate_from (0 * CHUNK_SIZE) (validators s)).
    rewrite <-(chunks_scan (select_key keys) CHUNK_SIZE (validators s) (length (validators s)) 0);
      [|unfold CHUNK_SIZE; lia|done].
    apply list_bind_ext; [intros ic; apply Hscan|done]. }
  rewrite or_insert_scan, lookup_empty. case_bool_decide; [|done]. by destruct (first_index _ k).
Qed.

Lemma first_index_Some vs k i :
  first_index vs k = Some i <->
  (exists v, vs !! i = Some v /\ public_key v = k) /\
  forall j v, (j < i)%nat -> vs !! j = Some v -> public_key v <> k.
Proof.
  unfold first_index. split.
  - intros ([j v] & Hf & ->)%fmap_Some. cbn. apply list_find_Some in Hf as (Hv & E & Hmin).
    split; [by exists v|]. intros j' v' Hj Hv'. by apply (Hmin j').
  - intros [(v & Hv & E) Hmin]. apply fmap_Some. exists (i, v). split; [|done].
    apply list_find_Some. split; [done|]. split; [done|]. intros j v' Hv' Hj. by eapply Hmin.
Qed.

Lemma find_validator_index_spec s k : find_validator_index s k = first_index (validators s) k.
Proof.
  unfold find_validator_index. rewrite find_validator_indices_spec.
  by rewrite bool_decide_eq_true_2 by set_solver.
Qed.

Lemma first_index_lt vs k i : first_index vs k = Some i -> (i < length vs)%nat.
Proof. rewrite first_index_Some. intros [(v & Hv & _) _]. by eapply lookup_lt_Some. Qed.

(** ** One exit *)

(** The epoch and the balance an exit starts from. *)
Definition churn_epoch (earliest activation_exit_epoch : Z) : Z := Z.max earliest activation_exit_epoch.
Definition churn_left (earliest to_consume activation_exit_epoch per_epoch : Z) : Z :=
  if earliest <? activation_exit_epoch then per_epoch else to_consume.

Lemma ceil_div_bounds a p : 0 < a -> 0 < p -> let k := (a - 1) / p + 1 in 0 < k /\ a <= k * p < a + p.
Proof.
  intros Ha Hp k. pose proof (Z.div_mod (a - 1) p ltac:(lia)) as E. pose proof (Z.mod_pos_bound (a - 1) p Hp) as Hm.
  assert (0 <= (a - 1) / p) by (apply Z.div_pos; lia). unfold k. lia.
Qed.

Lemma consume_churn_Ok earliest to_consume act per bal :
  0 <= earliest < 2 ^ 62 -> 0 <= act < 2 ^ 62 -> 0 <= to_consume < 2 ^ 62 -> 0 < per < 2 ^ 62 -> 0 <= bal < 2 ^ 61 ->
  exists k left, consume_churn earliest to_consume act per bal = Ok (churn_epoch earliest act + k, left) /\
    0 <= k <= bal /\ 0 <= left /\
    left = churn_left earliest to_consume act per + k * per - bal /\ (0 < k -> left < per).
Proof.
  intros He Ha Ht Hp Hb. unfold consume_churn, churn_left, churn_epoch. set (e0 := Z.max earliest act).
  assert ((earliest <? e0) = (earliest <? act)) as ->.
  { destruct (earliest <? act) eqn:E; [apply Z.ltb_lt in E|apply Z.ltb_ge in E]; [apply Z.ltb_lt|apply Z.ltb_ge]; lia. }
  set (b0 := if earliest <? act then per else to_consume).
  assert (0 <= b0 < 2 ^ 62) as Hb0 by (unfold b0; case_if; lia).
  destruct (b0 <? bal) eqn:E; b2p.
  - rewrite (u64_sub_id bal b0) by u64_solve. rewrite (u64_sub_id (bal - b0) 1) by u64_solve.
    unfold u64_div. rewrite (proj2 (Z.eqb_neq _ _)) by lia. cbn [mbind res_bind].
    destruct (ceil_div_bounds (bal - b0) per) as [Hk Hkp]; [lia|lia|].
    set (k := (bal - b0 - 1) / per + 1) in *. assert (k <= bal - b0) by nia.
    rewrite (u64_add_id _ 1) by (fold k; u64_solve). fold k.
    rewrite (u64_add_id e0 k), u64_sub_id by u64_solve.
    exists k, (b0 + k * per - bal). split_and!; try done; lia.
  - rewrite u64_sub_id by u64_solve. exists 0, (b0 - bal). rewrite Z.add_0_r. split_and!; try done; lia.
Qed.

(** ** Many exits *)

Section churn.
Context {H : Sha256} {F : CandidateFuel} {HO : HashOrder} {HL : HashOrderLaws HO}.

(** Exits of the given balances, one after the other, and the epochs they are assigned. *)
Fixpoint exits (bals : list Z) : BM (list Z) :=
  match bals with
  | [] => mret []
  | b :: bals' => e ← compute_exit_epoch_and_update_churn b; es ← exits bals'; mret (e :: es)
  end.

Definition exit_churn (s : BeaconState) : Z := Z.min MAX_PER_EPOCH_ACTIVATION_EXIT_CHURN_LIMIT (balance_churn s).
Definition exit_start (s : BeaconState) : Z :=
  churn_epoch (earliest_exit_epoch s) (compute_activation_exit_epoch (get_current_epoch s)).
Definition exit_left (s : BeaconState) : Z :=
  churn_left (earliest_exit_epoch s) (exit_balance_to_consume s)
    (compute_activation_exit_epoch (get_current_epoch s)) (exit_churn s).

(** The exits so far leave room in a [u64] for [total] more. *)
Record churn_room (s : BeaconState) (total : Z) : Prop := mkChurnRoom {
  cr_slot : 0 <= slot s < 2 ^ 60;
  cr_epoch : 0 <= earliest_exit_epoch s < 2 ^ 61 - total;
  cr_left : 0 <= exit_balance_to_consume s < 2 ^ 61 - total;
  cr_total : total < 2 ^ 60;
}.

Lemma exit_churn_bounds s :
  get_activation_exit_churn_limit s = Ok (exit_churn s) /\
  MIN_PER_EPOCH_CHURN_LIMIT_ELECTRA <= exit_churn s <= MAX_PER_EPOCH_ACTIVATION_EXIT_CHURN_LIMIT.
Proof using HL.
  destruct (get_activation_exit_churn_limit_Ok s) as [E Hm]. split; [done|]. unfold exit_churn in *. lia.
Qed.

Lemma activation_exit_epoch_bounds s :
  0 <= slot s < 2 ^ 60 -> 0 <= compute_activation_exit_epoch (get_current_epoch s) < 2 ^ 59.
Proof.
  intros Hs. unfold compute_activation_exit_epoch, get_current_epoch, compute_epoch_at_slot, SLOTS_PER_EPOCH, MAX_SEED_LOOKAHEAD.
  assert (0 <= slot s / 32 < 2 ^ 55) by (split; [apply Z.div_pos; lia|apply Z.div_lt_upper_bound; lia]).
  rewrite !u64_add_id by u64_solve. lia.
Qed.

Lemma compute_exit_epoch_Ok s b total :
  churn_room s total -> 0 <= b <= total ->
  exists k left, compute_exit_epoch_and_update_churn b s =
      (set_earliest_exit_epoch (exit_start s + k) (set_exit_balance_to_consume left s), Ok (exit_start s + k)) /\
    0 <= k <= b /\ 0 <= left /\ left = exit_left s + k * exit_churn s - b /\ (0 < k -> left < exit_churn s).
Proof using HL.
  intros [H1 H2 H3 H4] Hb. destruct (exit_churn_bounds s) as [E Hc]. pose proof (activation_exit_epoch_bounds s H1).
  unfold MAX_PER_EPOCH_ACTIVATION_EXIT_CHURN_LIMIT, MIN_PER_EPOCH_CHURN_LIMIT_ELECTRA in Hc.
  destruct (consume_churn_Ok (earliest_exit_epoch s) (exit_balance_to_consume s)
    (compute_activation_exit_epoch (get_current_epoch s)) (exit_churn s) b) as (k & left & Ek & Hk & Hl & El & Hlt);
    [lia..|]. exists k, left. split_and!; try done; try lia.
  unfold compute_exit_epoch_and_update_churn. rewrite bindM_reads, E, bindM_reads, Ek. by rewrite !bindM_modify.
Qed.

Lemma exit_left_bound s total : churn_room s total -> 0 <= exit_left s < 2 ^ 61 - total.
Proof using HL.
  intros [_ _ H3 H4]. destruct (exit_churn_bounds s) as [_ Hc].
  unfold MAX_PER_EPOCH_ACTIVATION_EXIT_CHURN_LIMIT, MIN_PER_EPOCH_CHURN_LIMIT_ELECTRA in Hc.
  unfold exit_left, churn_left. case_if; lia.
Qed.

Lemma exits_Ok bals s :
  Forall (fun b => 0 <= b) bals -> churn_room s (sumZ bals) ->
  exists s' es, exits bals s = (s', Ok es) /\
    sumZ bals + exit_left s' = (exit_start s' - exit_start s) * exit_churn s + exit_left s /\
    exit_churn s' = exit_churn s /\ exit_start s <= exit_start s' /\
    0 <= exit_left s' /\
    StronglySorted Z.le es /\ Forall (fun e => exit_start s <= e <= exit_start s') es.
Proof using HL.
  revert s. induction bals as [|b bals IH]; intros s Hb Hr; cbn [exits sumZ] in *.
  { pose proof (exit_left_bound s 0 Hr). exists s, []. split_and!; try done; try lia; constructor. }
  apply Forall_cons in Hb as [Hb Hbs]. pose proof (sumZ_nonneg bals Hbs) as Hs0.
  destruct (compute_exit_epoch_Ok s b (b + sumZ bals) Hr ltac:(lia)) as (k & left & E & Hk & Hl & El & Hlt).
  set (s1 := set_earliest_exit_epoch _ _) in *. pose proof (exit_left_bound s _ Hr) as Hl0. destruct Hr as [R1 R2 R3 R4].
  pose proof (activation_exit_epoch_bounds s R1) as Ha. destruct (exit_churn_bounds s) as [_ Hc].
  unfold MAX_PER_EPOCH_ACTIVATION_EXIT_CHURN_LIMIT, MIN_PER_EPOCH_CHURN_LIMIT_ELECTRA in Hc.
  assert (exit_churn s1 = exit_churn s) as Hc1 by done.
  assert (exit_start s1 = exit_start s + k) as Hs1.
  { unfold exit_start at 1, churn_epoch. cbn. change (get_current_epoch s1) with (get_current_epoch s).
    unfold exit_start, churn_epoch. lia. }
  assert (exit_left s1 = left) as Hl1.
  { unfold exit_left, churn_left. cbn. change (get_current_epoch s1) with (get_current_epoch s).
    rewrite (proj2 (Z.ltb_ge _ _)); [done|]. unfold exit_start, churn_epoch. lia. }
  destruct (IH s1) as (s' & es & E1 & A1 & A2 & A3 & A4 & A5 & A6); [done| |].
  { assert (exit_start s < 2 ^ 61 - (b + sumZ bals)) by (unfold exit_start, churn_epoch; lia).
    assert (0 <= exit_start s) by (unfold exit_start, churn_epoch; lia).
    split; cbn; [done|unfold exit_start, churn_epoch in *; lia| |lia].
    destruct (decide (0 < k)); [specialize (Hlt ltac:(done))|assert (k = 0) as -> by lia]; lia. }
  exists s', (exit_start s + k :: es). split_and!.
  - apply bindM_Ok. exists s1, (exit_start s + k). split; [done|]. apply bindM_Ok. by exists s', es.
  - rewrite Hc1, Hl1, Hs1 in A1. rewrite El in A1. lia.
  - congruence.
  - lia.
  - done.
  - constructor; [done|]. eapply Forall_impl; [exact A6|]. cbn. lia.
  - constructor; [lia|]. eapply Forall_impl; [exact A6|]. cbn. lia.
Qed.
End churn.
