(* ===== verification/BeaconSafety.v ===== *)
(** * A block cannot make the state transition panic

    [shape] is the type invariant of a state: the lists sized by the registry have its
    length, the vectors theirs, and the proposers looked ahead are in the registry.
    Block processing keeps it however it ends, and never panics, whatever the block. *)

From stdpp Require Import strings.
From S2P Require Import Prelude StateMonad Bytes Shuffling Merkle BeaconTypes BeaconAccess BeaconMutate BeaconBlockOps BeaconTransition BeaconFacts BeaconRegistry.

(** ** Computations that do not panic *)

Definition sound {E A} (r : res E A) : Prop := match r with Panic => False | _ => True end.

Lemma sound_bind {E A B} (x : res E A) (k : A -> res E B) :
  sound x -> (forall a, x = Ok a -> sound (k a)) -> sound (x ≫= k).
Proof. destruct x; cbn; auto. Qed.

Lemma sound_ensure {E} b (e : E) : sound (ensure b e).
Proof. by destruct b. Qed.
Lemma sound_ok_or {E A} (o : option A) (e : E) : sound (ok_or o e).
Proof. by destruct o. Qed.
Lemma sound_Ok {E A} (a : A) : sound (Ok a : res E A).
Proof. done. Qed.
Lemma sound_Err {E A} (e : E) : sound (Err e : res E A).
Proof. done. Qed.
Lemma sound_eq {E A} (r : res E A) a : r = Ok a -> sound r.
Proof. by intros ->. Qed.
Lemma returns_sound {E A} (r : res E A) : returns r -> sound r.
Proof. by destruct r. Qed.
Lemma sound_index {E A} (l : list A) i : (i < length l)%nat -> sound (index (E := E) l i).
Proof. intros Hi. unfold index. by apply lookup_lt_is_Some in Hi as [? ->]. Qed.
Lemma sound_set_index {E A} (l : list A) i a : (i < length l)%nat -> sound (set_index (E := E) l i a).
Proof. intros Hi. unfold set_index. by apply lookup_lt_is_Some in Hi as [? ->]. Qed.
Lemma sound_u64_rem {E} a b : b <> 0 -> sound (u64_rem (E := E) a b).
Proof. intros Hb. unfold u64_rem. by rewrite (proj2 (Z.eqb_neq _ _)). Qed.
Lemma sound_u64_div {E} a b : b <> 0 -> sound (u64_div (E := E) a b).
Proof. intros Hb. unfold u64_div. by rewrite (proj2 (Z.eqb_neq _ _)). Qed.

Lemma sound_mapR {E A B} (f : A -> res E B) l : (forall a, a ∈ l -> sound (f a)) -> sound (mapR f l).
Proof.
  induction l as [|a l IH]; intros Hf; cbn; [done|].
  apply sound_bind; [apply Hf; set_solver|]. intros b _.
  apply sound_bind; [apply IH; set_solver|done].
Qed.

Lemma sound_foldM {E S A} (P : S -> Prop) (f : S -> A -> res E S) l s :
  P s -> (forall s1 a, a ∈ l -> P s1 -> sound (f s1 a)) ->
  (forall s1 a s2, a ∈ l -> P s1 -> f s1 a = Ok s2 -> P s2) -> sound (foldM f s l).
Proof.
  revert s. induction l as [|a l IH]; intros s Hs Hf Hp; cbn; [done|].
  apply sound_bind; [apply Hf; set_solver|]. intros s1 H1.
  apply IH; [eapply Hp; [|exact Hs|exact H1]; set_solver|intros; apply Hf; set_solver|].
  intros; eapply Hp; [|done|done]; set_solver.
Qed.

Lemma sound_foldM' {E S A} (f : S -> A -> res E S) l s :
  (forall s1 a, a ∈ l -> sound (f s1 a)) -> sound (foldM f s l).
Proof. intros Hf. by apply (sound_foldM (fun _ => True)); auto. Qed.

Create HintDb sound discriminated.
#[export] Hint Resolve sound_ensure sound_ok_or sound_Ok sound_Err sound_index sound_set_index : sound.

(** ** The shape of a state *)

Record shape (s : BeaconState) : Prop := mkShape {
  sh_nonempty : (0 < length (validators s))%nat;
  sh_limit : Z.of_nat (length (validators s)) <= VALIDATOR_REGISTRY_LIMIT;
  sh_balances : length (balances s) = length (validators s);
  sh_previous : length (previous_epoch_participation s) = length (validators s);
  sh_current : length (current_epoch_participation s) = length (validators s);
  sh_scores : length (inactivity_scores s) = length (validators s);
  sh_effective : Forall (fun v => 0 <= effective_balance v <= MAX_EFFECTIVE_BALANCE_ELECTRA) (validators s);
  sh_block_roots : Z.of_nat (length (block_roots s)) = SLOTS_PER_HISTORICAL_ROOT;
  sh_state_roots : Z.of_nat (length (state_roots s)) = SLOTS_PER_HISTORICAL_ROOT;
  sh_mixes : Z.of_nat (length (randao_mixes s)) = EPOCHS_PER_HISTORICAL_VECTOR;
  sh_mix : Forall (fun m => length m = 32%nat) (randao_mixes s);
  sh_slashings : Z.of_nat (length (slashings s)) = EPOCHS_PER_SLASHINGS_VECTOR;
  sh_bits : length (justification_bits s) = JUSTIFICATION_BITS_LENGTH;
  sh_lookahead : length (proposer_lookahead s) = 64%nat;
  sh_proposers : Forall (fun p => 0 <= p < Z.of_nat (length (validators s))) (proposer_lookahead s);
}.

(** The computation keeps the shape and the slot and does not panic; the registry does not
    shrink. *)
Record safe_at {A} (m : BM A) (s : BeaconState) : Prop := mkSafe {
  sa_shape : shape (m s).1;
  sa_slot : slot (m s).1 = slot s;
  sa_grows : (length (validators s) <= length (validators (m s).1))%nat;
  sa_sound : sound (m s).2;
}.

Definition safe {A} (m : BM A) : Prop := forall s, shape s -> safe_at m s.

Lemma safe_bind {A B} (m : BM A) (k : A -> BM B) s :
  safe_at m s ->
  (forall a s', m s = (s', Ok a) -> shape s' -> (length (validators s) <= length (validators s'))%nat ->
    safe_at (k a) s') ->
  safe_at (m ≫= k) s.
Proof.
  intros [Hs Ht Hg Hn] Hk. destruct (m s) as [s' r] eqn:E. cbn in *.
  destruct r as [a|e| |]; [destruct (Hk a s' eq_refl Hs Hg) as [H1 H2 H3 H4]|..];
    split; unfold mbind, M_bind; rewrite E; cbn; (done || congruence || lia).
Qed.

Lemma safe_seq {A B} (m : BM A) (k : A -> BM B) s :
  shape s -> safe m -> (forall a, safe (k a)) -> safe_at (m ≫= k) s.
Proof. intros Hs Hm Hk. apply safe_bind; [by apply Hm|]. intros. by apply Hk. Qed.

Lemma safe_ret {A} (a : A) s : shape s -> safe_at (mret a) s.
Proof. intros Hs. by split. Qed.

Lemma safe_reads {A B} (f : BeaconState -> res anyhow A) (k : A -> BM B) s :
  shape s -> sound (f s) -> (forall a, f s = Ok a -> safe_at (k a) s) -> safe_at (reads f ≫= k) s.
Proof.
  intros Hs Hf Hk. apply safe_bind; [by split|]. intros a s' E _ _. unfold reads in E.
  injection E as <- E. by apply Hk.
Qed.

Lemma safe_reads_last {A} (f : BeaconState -> res anyhow A) s : shape s -> sound (f s) -> safe_at (reads f) s.
Proof. intros Hs Hf. by split. Qed.

Lemma safe_lift {A B} (r : res anyhow A) (k : A -> BM B) s :
  shape s -> sound r -> (forall a, r = Ok a -> safe_at (k a) s) -> safe_at (lift r ≫= k) s.
Proof. intros Hs Hr Hk. by apply (safe_reads (fun _ => r)). Qed.

Lemma safe_modify {B} (f : BeaconState -> BeaconState) (k : unit -> BM B) s :
  shape (f s) -> slot (f s) = slot s /\ (length (validators s) <= length (validators (f s)))%nat ->
  (shape (f s) -> safe_at (k tt) (f s)) -> safe_at (modify f ≫= k) s.
Proof.
  intros Hf [Ht Hl] Hk. apply safe_bind; [by split|]. intros [] s' [= <-] _ _. auto.
Qed.

Lemma safe_modify_last (f : BeaconState -> BeaconState) s :
  shape (f s) -> slot (f s) = slot s /\ (length (validators s) <= length (validators (f s)))%nat ->
  safe_at (modify f) s.
Proof. intros Hf [Ht Hl]. by split. Qed.

Lemma safe_if {A} (b : bool) (m m' : BM A) s :
  (b = true -> safe_at m s) -> (b = false -> safe_at m' s) -> safe_at (if b then m else m') s.
Proof. destruct b; auto. Qed.

Lemma safe_guard b (k : BM unit) s : shape s -> (b = true -> safe_at k s) -> safe_at (guard_return b k) s.
Proof. intros Hs Hk. unfold guard_return. destruct b; [auto|by apply safe_ret]. Qed.

Lemma safe_ensureM {B} (f : BeaconState -> bool) err (k : unit -> BM B) s :
  shape s -> (f s = true -> safe_at (k tt) s) -> safe_at (ensureM f err ≫= k) s.
Proof.
  intros Hs Hk. apply safe_reads; [done|apply sound_ensure|]. intros [] E%ensure_Ok. auto.
Qed.

Lemma safe_forM {A} (l : list A) (f : A -> BM unit) s :
  shape s ->
  (forall a s', a ∈ l -> shape s' -> (length (validators s) <= length (validators s'))%nat -> safe_at (f a) s') ->
  safe_at (forM l f) s.
Proof.
  revert s. induction l as [|a l IH]; intros s Hs Hf; cbn; [by apply safe_ret|].
  apply safe_bind; [apply Hf; [set_solver|done|lia]|]. intros _ s1 _ Hs1 Hl.
  apply IH; [done|]. intros b s2 Hb Hs2 Hl2. apply Hf; [set_solver|done|lia].
Qed.

Lemma safe_forM' {A} (l : list A) (f : A -> BM unit) :
  (forall a, a ∈ l -> safe (f a)) -> safe (forM l f).
Proof. intros Hf s Hs. apply safe_forM; [done|]. intros a s' Ha Hs' _. by apply Hf. Qed.

(** An assignment that leaves the lists the shape speaks of alone. *)
Ltac shape_set := match goal with Hs : shape ?s |- shape _ => destruct Hs; by constructor end.

(** ** Balances and validators *)

Section prims.
Context {H : Sha256} {F : CandidateFuel} {HO : HashOrder} {SV : SszVec}.

Lemma shape_balances s l :
  shape s -> length l = length (balances s) -> shape (set_balances l s).
Proof. intros Hs Hl. destruct Hs. constructor; cbn; try done. congruence. Qed.

Lemma increase_balance_safe i d : safe (increase_balance i d).
Proof.
  intros s Hs. unfold increase_balance. split; destruct (balances s !! Z.to_nat i); cbn; try done.
  apply shape_balances; [done|apply length_insert].
Qed.

Lemma decrease_balance_safe i d : safe (decrease_balance i d).
Proof.
  intros s Hs. unfold decrease_balance. split; destruct (balances s !! Z.to_nat i); cbn; try done.
  apply shape_balances; [done|apply length_insert].
Qed.

Lemma shape_validator s i v :
  shape s -> 0 <= effective_balance v <= MAX_EFFECTIVE_BALANCE_ELECTRA ->
  shape (set_validators (<[i := v]> (validators s)) s).
Proof.
  intros Hs Hv. destruct Hs. constructor; cbn; rewrite ?length_insert; try done. by apply Forall_insert.
Qed.

Lemma update_validator_safe i f s :
  shape s -> (i < length (validators s))%nat ->
  (forall v, 0 <= effective_balance v <= MAX_EFFECTIVE_BALANCE_ELECTRA ->
     0 <= effective_balance (f v) <= MAX_EFFECTIVE_BALANCE_ELECTRA) ->
  safe_at (update_validator i f) s.
Proof.
  intros Hs Hi Hf. unfold update_validator. apply lookup_lt_is_Some in Hi as [v Hv].
  split; rewrite Hv; cbn; [|done|by rewrite length_insert|done].
  apply shape_validator; [done|]. apply Hf.
  apply (Forall_lookup_1 _ _ _ _ (sh_effective _ Hs) Hv).
Qed.
End prims.

Section readers.
Context {H : Sha256} {HLaw : Sha256Laws H} {F : CandidateFuel} {HO : HashOrder} {HOL : HashOrderLaws HO}.
Context {SV : SszVec} {SVL : SszVecLaws SV}.

(** ** Seeds and proposers *)

Lemma mod_lt_length {A} (l : list A) x n : Z.of_nat (length l) = n -> 0 < n -> (Z.to_nat (x mod n) < length l)%nat.
Proof. intros Hl Hn. pose proof (Z.mod_pos_bound x n Hn). lia. Qed.

Lemma get_randao_mix_sound s e : shape s -> sound (get_randao_mix s e).
Proof. intros Hs. apply sound_index, mod_lt_length; [apply Hs|done]. Qed.

Lemma get_seed_sound s e d : shape s -> sound (get_seed s e d).
Proof. intros Hs. apply sound_bind; [by apply get_randao_mix_sound|done]. Qed.

Definition in_registry (s : BeaconState) (i : Z) : Prop := 0 <= i < Z.of_nat (length (validators s)).

Lemma active_in_registry s e : Forall (in_registry s) (get_active_validator_indices s e).
Proof.
  apply Forall_forall. intros i. rewrite active_kept, elem_of_kept. intros [Hi (v & Hv & _)].
  apply lookup_lt_Some in Hv. unfold in_registry. lia.
Qed.

Lemma active_length s e : shape s -> Z.of_nat (length (get_active_validator_indices s e)) <= 2 ^ 40.
Proof.
  intros Hs. rewrite active_kept, length_kept. pose proof (sh_limit _ Hs) as Hl.
  pose proof (length_filter (fun v => is_active_validator v e = true) (validators s)).
  unfold VALIDATOR_REGISTRY_LIMIT in Hl. lia.
Qed.

Lemma candidate_accepted_sound s seed i c : in_registry s c -> sound (candidate_accepted s seed i c).
Proof.
  intros Hc. unfold candidate_accepted. apply sound_bind.
  - unfold slice. rewrite hash_length. pose proof (Z.mod_pos_bound i 16 eq_refl).
    replace (_ && _) with true; [done|]. symmetry. apply andb_true_iff. rewrite !Z.leb_le. lia.
  - intros b _. apply sound_bind; [|done]. apply sound_index. unfold in_registry in Hc. lia.
Qed.

(** The candidate of a try: it is one of the indices. *)
Lemma candidate_index_sound (indices : list Z) seed i :
  indices <> [] -> Z.of_nat (length indices) <= 2 ^ 40 ->
  exists r, u64_rem (E := anyhow) i (Z.of_nat (length indices)) = Ok r /\
  exists k c, compute_shuffled_index r (Z.of_nat (length indices)) seed = Ok k /\
    index (E := anyhow) indices (Z.to_nat k) = Ok c /\ c ∈ indices.
Proof.
  intros Hne Hn. assert (0 < length indices)%nat by (destruct indices; [done|cbn; lia]).
  unfold u64_rem. rewrite (proj2 (Z.eqb_neq _ _)) by lia.
  eexists. split; [done|]. pose proof (Z.mod_pos_bound i (Z.of_nat (length indices)) ltac:(lia)) as Hm.
  destruct (compute_shuffled_index_spec (Z.of_nat (length indices)) seed (i mod Z.of_nat (length indices)))
    as [E Hr]; [lia|done|].
  destruct (lookup_lt_is_Some_2 indices (Z.to_nat (shuffled (Z.of_nat (length indices)) seed (i mod Z.of_nat (length indices)))) ltac:(lia)) as [c Hc].
  eexists _, c. split; [exact E|]. split; [by apply index_lookup|]. by eapply list_elem_of_lookup_2.
Qed.

Lemma proposer_loop_sound s indices seed fuel i :
  indices <> [] -> Z.of_nat (length indices) <= 2 ^ 40 -> Forall (in_registry s) indices ->
  sound (proposer_loop fuel s indices seed i) /\
  forall p, proposer_loop fuel s indices seed i = Ok p -> p ∈ indices.
Proof.
  intros Hne Hn Hr. revert i. induction fuel as [|fuel IH]; intros i; cbn [proposer_loop]; [done|].
  destruct (candidate_index_sound indices seed i Hne Hn) as (r & -> & k & c & Hk & Hc & Hin).
  cbn [mbind res_bind]. rewrite Hk. cbn [mbind res_bind]. rewrite Hc. cbn [mbind res_bind].
  pose proof (candidate_accepted_sound s seed i c (proj1 (Forall_forall _ _) Hr c Hin)) as Hs.
  destruct (candidate_accepted s seed i c) as [[]| | |]; cbn; try done.
  split; [done|]. by intros p [= <-].
Qed.

Lemma compute_proposer_index_sound s indices seed :
  Z.of_nat (length indices) <= 2 ^ 40 -> Forall (in_registry s) indices ->
  sound (compute_proposer_index s indices seed) /\
  forall p, compute_proposer_index s indices seed = Ok p -> p ∈ indices.
Proof.
  intros Hn Hr. unfold compute_proposer_index. case_bool_decide as Hne; cbn; [done|].
  by apply proposer_loop_sound.
Qed.

Lemma get_beacon_proposer_index_sound s o :
  shape s -> sound (get_beacon_proposer_index s o) /\
  forall p, get_beacon_proposer_index s o = Ok p -> in_registry s p.
Proof.
  intros Hs. unfold get_beacon_proposer_index.
  destruct (match o with Some s0 => _ | None => _ end) as [e sl].
  destruct (if _ <=? sl then _ else _) as [p|] eqn:E.
  - split; [done|]. intros p' [= <-]. destruct (_ <=? sl); [|done].
    apply (Forall_lookup_1 _ _ _ _ (sh_proposers _ Hs) E).
  - pose proof (get_seed_sound s e DOMAIN_BEACON_PROPOSER Hs) as Hseed.
    destruct (get_seed s e DOMAIN_BEACON_PROPOSER) as [seed| | |]; cbn; try done.
    destruct (compute_proposer_index_sound s (get_active_validator_indices s e) (hash (seed ++ le_bytes 8 sl)))
      as [H1 H2]; [by apply active_length|apply active_in_registry|].
    split; [exact H1|]. intros p Hp%H2. by apply (proj1 (Forall_forall _ _) (active_in_registry s e)).
Qed.

(** ** Committees *)

Lemma shuffled_active_shape s e : shape s ->
  exists l, get_shuffled_active_validator_indices s e = Ok l /\ l ≡ₚ get_active_validator_indices s e /\
    Z.of_nat (length l) <= 2 ^ 40.
Proof.
  intros Hs. apply shuffled_active_Ok; [|apply Hs]. pose proof (sh_mixes _ Hs). lia.
Qed.

Lemma get_committee_count_sound s e : shape s -> sound (get_committee_count_per_slot s e).
Proof.
  intros Hs. unfold get_committee_count_per_slot. by destruct (shuffled_active_shape s e Hs) as (l & -> & _).
Qed.

Lemma get_beacon_committee_sound s sl i :
  shape s -> sound (get_beacon_committee s sl i) /\
  forall c, get_beacon_committee s sl i = Ok c -> Forall (in_registry s) c.
Proof.
  intros Hs. unfold get_beacon_committee.
  destruct (shuffled_active_shape s (compute_epoch_at_slot sl) Hs) as (l & -> & Hp & Hn). cbn [mbind res_bind].
  destruct (committee_in_shuffling_returns l sl i Hn) as [H1 H2].
  split; [by apply returns_sound|]. intros c Hc%H2. apply Forall_forall. intros x Hx%Hc.
  rewrite Hp in Hx. by apply (proj1 (Forall_forall _ _) (active_in_registry s (compute_epoch_at_slot sl))).
Qed.

Lemma get_block_root_at_slot_sound s sl : shape s -> sound (get_block_root_at_slot s sl).
Proof.
  intros Hs. apply sound_bind; [apply sound_ensure|]. intros _ _.
  apply sound_index, mod_lt_length; [apply Hs|done].
Qed.

(** The attesters are validators. *)
Lemma get_attesting_indices_sound s a :
  shape s -> sound (get_attesting_indices s a) /\
  forall o, get_attesting_indices s a = Ok o -> forall i, i ∈ o -> in_registry s i.
Proof.
  intros Hs. unfold get_attesting_indices.
  set (P := fun acc : gset Z * nat => forall i, i ∈ acc.1 -> in_registry s i).
  set (step := fun (acc : gset Z * nat) (ci : Z) => _).
  assert (forall acc ci acc', step acc ci = Ok acc' -> P acc -> P acc') as Hstep.
  { intros [o off] ci acc' E HP. unfold step in E. res_inv E. cbn in Hb0.
    apply get_beacon_committee_sound in Hb as Hc; [|done].
    intros i Hi. cbn in Hi. revert i Hi.
    eapply (foldM_inv (fun o : gset Z => forall i, i ∈ o -> in_registry s i)); [exact HP| |exact Hb0].
    intros o1 [k x] o2 Hk Ho1 E i Hi. res_inv E. destruct v1; [|by apply Ho1]. cbn in Hi.
    apply elem_of_enumerate in Hk. apply elem_of_union in Hi as [->%elem_of_singleton|Hi]; [|by apply Ho1].
    apply (Forall_lookup_1 _ _ _ _ Hc Hk). }
  assert (P (∅, 0%nat)) as H0 by (intros i Hi; set_solver).
  split.
  - apply sound_bind; [|done]. apply (sound_foldM P); [done| |].
    + intros [o off] ci _ _. unfold step. apply sound_bind; [by apply get_beacon_committee_sound|].
      intros c _. apply sound_bind; [|done]. apply sound_foldM'. intros o1 x _.
      apply sound_bind; [apply sound_ok_or|done].
    + intros acc ci acc' _ HP E. by eapply Hstep.
  - intros o E. res_inv E. eapply (foldM_inv P) in Hb; [exact Hb|done|].
    intros acc ci acc' _ HP E. by eapply Hstep.
Qed.

Lemma get_indexed_attestation_sound s a :
  shape s -> sound (get_indexed_attestation s a) /\
  forall ia, get_indexed_attestation s a = Ok ia -> Forall (in_registry s) (attesting_indices ia).
Proof.
  intros Hs. destruct (get_attesting_indices_sound s a Hs) as [H1 H2]. unfold get_indexed_attestation.
  split.
  - apply sound_bind; [done|]. intros o _. apply sound_bind; [apply sound_ok_or|done].
  - intros ia E. res_inv E. rewrite vl_try_from_spec in Hb0. case_if; [|done]. injection Hb0 as <-. cbn.
    apply Forall_forall. intros i Hi. rewrite sort_by_perm, elem_of_hs_iter in Hi. by eapply H2.
Qed.

Lemma flag_indices_sound s d delay : shape s -> sound (get_attestation_participation_flag_indices s d delay).
Proof.
  intros Hs. unfold get_attestation_participation_flag_indices.
  set (src := bool_decide (ad_source d = _)).
  apply sound_bind.
  { destruct src; [|done]. apply sound_bind; [by apply get_block_root_at_slot_sound|done]. }
  intros tgt _. apply sound_bind.
  { destruct tgt; [|done]. apply sound_bind; [by apply get_block_root_at_slot_sound|done]. }
  intros head _. apply sound_bind; [apply sound_ensure|]. intros _ _.
  rewrite integer_squareroot_sqrt by done. done.
Qed.
End readers.

(** ** The operations *)

(** Signature checks answer or report an error. *)
Class BlsTotal (B : Bls) : Prop := {
  bls_verify_returns : forall sig pk m, returns (bls_verify sig pk m);
  fast_aggregate_verify_returns : forall sig pks m, returns (fast_aggregate_verify sig pks m);
  aggregate_returns : forall pks, returns (aggregate pks);
}.

(** Resolve the steps of a computation that the lemmas above settle. *)
Create HintDb safe.

Ltac safe_step :=
  lazymatch goal with
  | |- safe_at (guard_return _ _) _ => apply safe_guard; [assumption|intros ?]
  | |- safe_at (ensureM _ _ ≫= _) _ => apply safe_ensureM; [assumption|intros ?]
  | |- safe_at (reads _ ≫= _) _ => apply safe_reads; [assumption|try (cbn beta; solve [eauto with sound])|intros ? ?]
  | |- safe_at (lift _ ≫= _) _ => apply safe_lift; [assumption|try solve [eauto with sound]|intros ? ?]
  | |- safe_at (mret _) _ => by apply safe_ret
  | |- safe_at (modify _ ≫= _) _ => apply safe_modify; [try shape_set|try done|intros ?]
  | |- safe_at (modify _) _ => apply safe_modify_last; [try shape_set|try done]
  | |- safe_at (ensureM _ _) _ => apply safe_reads_last; [assumption|apply sound_ensure]
  | |- safe_at (reads _) _ => apply safe_reads_last; [assumption|try solve [eauto with sound]]
  end.

Section ops.
Context {H : Sha256} {HLaw : Sha256Laws H} {F : CandidateFuel} {HO : HashOrder} {HOL : HashOrderLaws HO}.
Context {SV : SszVec} {SVL : SszVecLaws SV}.

Lemma consume_churn_sound e c a per b : per <> 0 -> sound (consume_churn e c a per b).
Proof. intros Hp. unfold consume_churn. case_if; [|done]. apply sound_bind; [by apply sound_u64_div|done]. Qed.

Lemma compute_exit_epoch_safe b : safe (compute_exit_epoch_and_update_churn b).
Proof.
  intros s Hs. unfold compute_exit_epoch_and_update_churn.
  destruct (get_activation_exit_churn_limit_Ok s) as [E Hm].
  safe_step; [by rewrite E|]. rewrite E in *. simplify_eq.
  safe_step; [apply consume_churn_sound; unfold MIN_PER_EPOCH_CHURN_LIMIT_ELECTRA in Hm; lia|].
  repeat safe_step.
Qed.

Lemma compute_consolidation_epoch_safe b s :
  shape s -> (forall l, get_consolidation_churn_limit s = Ok l -> l <> 0) ->
  safe_at (compute_consolidation_epoch_and_update_churn b) s.
Proof.
  intros Hs Hl. unfold compute_consolidation_epoch_and_update_churn.
  safe_step; [by rewrite get_consolidation_churn_limit_Ok|].
  safe_step; [apply consume_churn_sound; by apply Hl|]. repeat safe_step.
Qed.

Lemma initiate_validator_exit_safe i : safe (initiate_validator_exit i).
Proof.
  intros s Hs. unfold initiate_validator_exit. safe_step.
  apply ok_or_Ok, lookup_lt_Some in H0. case_if; [by safe_step|].
  apply safe_bind; [by apply compute_exit_epoch_safe|]. intros e s1 _ Hs1 Hl1.
  safe_step. apply safe_bind; [apply update_validator_safe; [done|lia|done]|]. intros [] s2 _ Hs2 Hl2.
  safe_step. apply update_validator_safe; [done|lia|done].
Qed.

Lemma slash_validator_safe i w : safe (slash_validator i w).
Proof.
  intros s Hs. unfold slash_validator. safe_step.
  apply safe_bind; [by apply initiate_validator_exit_safe|]. intros [] s1 _ Hs1 Hl1.
  safe_step. apply ok_or_Ok, lookup_lt_Some in H1.
  apply safe_bind; [apply update_validator_safe; [done|lia|done]|]. intros [] s2 _ Hs2 Hl2.
  assert (forall s k, shape s -> k = Z.to_nat (a mod EPOCHS_PER_SLASHINGS_VECTOR) ->
            (k < length (slashings s))%nat) as Hk.
  { intros s' k Hs' ->. apply mod_lt_length; [apply Hs'|done]. }
  safe_step. safe_step.
  { destruct Hs2. constructor; cbn; try done. by rewrite length_insert. }
  apply safe_seq; [done|apply decrease_balance_safe|]. intros [] s3 Hs3.
  safe_step; [by apply get_beacon_proposer_index_sound|].
  apply safe_seq; [done|apply increase_balance_safe|]. intros [] s4 Hs4.
  by apply increase_balance_safe.
Qed.

(** ** The registry *)

Lemma effective_from_deposit pk c amount :
  0 <= effective_balance (get_validator_from_deposit pk c amount) <= MAX_EFFECTIVE_BALANCE_ELECTRA.
Proof.
  unfold get_validator_from_deposit. cbn. set (m := get_max_effective_balance _).
  assert (0 <= m <= MAX_EFFECTIVE_BALANCE_ELECTRA) by (unfold m, get_max_effective_balance; case_if; done).
  assert (0 <= (amount - amount mod EFFECTIVE_BALANCE_INCREMENT)%u64) by (apply Z.mod_pos_bound; lia). lia.
Qed.

Lemma add_validator_safe pk c amount s : shape s ->
  safe_at (add_validator_to_registry pk c amount) s /\
  forall s' u, add_validator_to_registry pk c amount s = (s', Ok u) ->
    length (validators s') = S (length (validators s)).
Proof.
  intros Hs. unfold add_validator_to_registry, push_to, cl_push.
  destruct (VALIDATOR_REGISTRY_LIMIT <=? Z.of_nat (length (validators s))) eqn:E.
  - unfold mbind, M_bind. rewrite E. split; [split|]; unfold mbind, M_bind; rewrite ?E; done.
  - assert (Z.of_nat (length (validators s)) <? VALIDATOR_REGISTRY_LIMIT = true) as E' by (b2p; by apply Z.ltb_lt).
    pose proof (sh_balances _ Hs) as H1. pose proof (sh_previous _ Hs) as H2.
    pose proof (sh_current _ Hs) as H3. pose proof (sh_scores _ Hs) as H4.
    set (m := mbind _ _).
    assert (exists s', m s = (s', Ok tt) /\ shape s' /\ slot s' = slot s /\
      length (validators s') = S (length (validators s))) as (s' & Hm & Hs' & Ht' & Hl').
    { unfold m, mbind, M_bind. rewrite E. cbn. rewrite !vl_push_spec, H1, E'. cbn.
      rewrite !vl_push_spec, H2, E'. cbn. rewrite !vl_push_spec, H3, E'. cbn.
      rewrite !vl_push_spec, H4, E'. cbn. eexists. split; [done|]. cbn. rewrite length_app, Nat.add_1_r.
      split; [|done]. b2p. destruct Hs.
      constructor; cbn; rewrite ?length_app; cbn; try done; try lia.
      - apply Forall_app. split; [done|]. constructor; [apply effective_from_deposit|done].
      - eapply Forall_impl; [done|]. cbn. lia. }
    split; [split; rewrite Hm; cbn; (done || lia)|]. rewrite Hm. by intros ? ? [= <- <-].
Qed.

(** ** Queues *)

Lemma push_pending_deposit_safe d err : safe (push_pending_deposit d err).
Proof.
  intros s Hs. unfold push_pending_deposit, push_to.
  split; destruct (vl_push _ _ _); cbn; try done. shape_set.
Qed.

Lemma push_pending_partial_withdrawal_safe w err : safe (push_pending_partial_withdrawal w err).
Proof.
  intros s Hs. unfold push_pending_partial_withdrawal, push_to.
  split; destruct (vl_push _ _ _); cbn; try done. shape_set.
Qed.

(** ** Withdrawals *)

Lemma partials_loop_sound s e pending ws i n : sound (partials_loop s e pending ws i n).
Proof.
  revert ws i n. induction pending as [|w pending IH]; intros ws i n; cbn [partials_loop]; [done|].
  case_if; [done|]. apply sound_bind; [apply sound_ok_or|]. intros v _.
  apply sound_bind; [apply sound_ok_or|]. intros b _. case_if; apply IH.
Qed.

Lemma sweep_loop_sound n s e ws i j : shape s -> sound (sweep_loop n s e ws i j).
Proof.
  intros Hs. revert ws i j. induction n as [|n IH]; intros ws i j; cbn [sweep_loop]; [done|].
  apply sound_bind; [apply sound_ok_or|]. intros v _. apply sound_bind; [apply sound_ok_or|]. intros b _.
  destruct (if is_fully_withdrawable_validator v _ e then _ else _) as [ws' i'].
  case_if; [done|]. apply sound_bind; [|intros; apply IH]. apply sound_u64_rem.
  pose proof (sh_nonempty _ Hs). lia.
Qed.

Lemma get_expected_withdrawals_sound s : shape s -> sound (get_expected_withdrawals s).
Proof.
  intros Hs. unfold get_expected_withdrawals. apply sound_bind; [apply partials_loop_sound|].
  intros [[ws i] n] _. apply sound_bind; [by apply sweep_loop_sound|done].
Qed.

Lemma process_withdrawals_safe payload : safe (process_withdrawals payload).
Proof.
  intros s Hs. unfold process_withdrawals. safe_step; [by apply get_expected_withdrawals_sound|].
  destruct a as [ws n]. safe_step.
  apply safe_seq; [done|apply safe_forM'; intros; apply decrease_balance_safe|]. intros [] s1 Hs1.
  safe_step. safe_step.
  apply safe_seq; [done|apply safe_forM'; intros; apply push_pending_partial_withdrawal_safe|].
  intros [] s2 Hs2. apply safe_bind.
  { destruct (last ws); [safe_step|by apply safe_ret]. }
  intros [] s3 _ Hs3 _. safe_step; [|safe_step].
  pose proof (sh_nonempty _ Hs3). case_if; [|apply sound_u64_rem; lia].
  b2p. destruct ws as [|w ws] using rev_ind; [done|].
  rewrite last_snoc. apply sound_u64_rem. lia.
Qed.

Context {R : Roots} {B : Bls} {BT : BlsTotal B} {N : BeaconNetworkSpec}.

Lemma process_block_header_safe block : safe (process_block_header block).
Proof.
  intros s Hs. unfold process_block_header. do 2 safe_step.
  safe_step; [by apply get_beacon_proposer_index_sound|].
  apply get_beacon_proposer_index_sound in H2 as Hp; [|done]. do 3 safe_step.
  safe_step; [apply sound_index; b2p; subst; unfold in_registry in Hp; cbn; lia|].
  safe_step.
Qed.

(** ** Deposits, exits and requests *)

Lemma is_valid_deposit_signature_sound pk c amount sig : sound (is_valid_deposit_signature pk c amount sig).
Proof. apply returns_sound, bls_verify_returns. Qed.

Lemma apply_deposit_safe pk c amount sig : safe (apply_deposit pk c amount sig).
Proof.
  intros s Hs. unfold apply_deposit. safe_step. destruct a; [by apply push_pending_deposit_safe|].
  pose proof (bls_verify_returns sig pk
    (compute_signing_root (mkDepositMessage pk c amount)
       (compute_domain DOMAIN_DEPOSIT (Some genesis_fork_version) None))) as Hr.
  unfold is_valid_deposit_signature. destruct (bls_verify _ _ _) as [[]| | |]; cbn in Hr; try done.
  - apply safe_seq; [done|by intros s' Hs'; apply add_validator_safe|].
    intros [] s' Hs'. by apply push_pending_deposit_safe.
Qed.

Lemma is_valid_merkle_branch_sound leaf branch depth i root :
  sound (is_valid_merkle_branch leaf branch depth i root).
Proof.
  unfold is_valid_merkle_branch. case_if; [done|]. b2p. apply sound_bind; [|done].
  apply sound_foldM'. intros v k Hk%elem_of_range. apply sound_bind; [|done]. apply sound_index. lia.
Qed.

Lemma process_deposit_safe d : safe (process_deposit d).
Proof.
  intros s Hs. unfold process_deposit. safe_step; [apply is_valid_merkle_branch_sound|].
  do 2 safe_step. by apply apply_deposit_safe.
Qed.

Lemma process_bls_to_execution_change_safe c : safe (process_bls_to_execution_change c).
Proof.
  intros s Hs. unfold process_bls_to_execution_change. safe_step.
  - unfold validate_bls_to_execution_change. apply sound_bind; [apply sound_ensure|]. intros [] E%ensure_Ok. b2p.
    apply sound_bind; [apply sound_index; pose proof (sh_nonempty _ Hs); lia|]. intros v _.
    do 2 (apply sound_bind; [apply sound_ensure|intros [] _]).
    apply sound_bind; [apply returns_sound, bls_verify_returns|]. intros; apply sound_ensure.
  - unfold validate_bls_to_execution_change in H0. apply bind_Ok in H0 as ([] & E%ensure_Ok & _). b2p.
    apply update_validator_safe; [done|pose proof (sh_nonempty _ Hs); lia|done].
Qed.

Lemma process_voluntary_exit_safe e : safe (process_voluntary_exit e).
Proof.
  intros s Hs. unfold process_voluntary_exit. safe_step; [|by apply initiate_validator_exit_safe].
  unfold validate_voluntary_exit. apply sound_bind; [apply sound_ok_or|]. intros v _.
  do 4 (apply sound_bind; [apply sound_ensure|intros [] _]).
  apply sound_bind; [apply sound_ok_or|]. intros x _. apply sound_bind; [apply sound_ensure|]. intros [] _.
  apply sound_bind; [apply returns_sound, bls_verify_returns|]. intros; apply sound_ensure.
Qed.

Lemma found_index_lt s k i : find_validator_index s k = Some i -> (i < length (validators s))%nat.
Proof. rewrite find_validator_index_spec. apply first_index_lt. Qed.

Lemma process_withdrawal_request_safe r : safe (process_withdrawal_request r).
Proof.
  intros s Hs. unfold process_withdrawal_request. do 3 safe_step.
  destruct a0 as [i|] eqn:Ei; [|safe_step]. injection H2 as Hf. apply found_index_lt in Hf.
  safe_step. do 6 safe_step. case_if.
  - case_if; [by apply initiate_validator_exit_safe|safe_step].
  - do 2 safe_step. apply safe_bind; [by apply compute_exit_epoch_safe|]. intros x s1 _ Hs1 _.
    by apply push_pending_partial_withdrawal_safe.
Qed.

Lemma process_deposit_request_safe r : safe (process_deposit_request r).
Proof.
  intros s Hs. unfold process_deposit_request. safe_step.
  - case_if; [shape_set|done].
  - by case_if.
  - safe_step. by apply push_pending_deposit_safe.
Qed.

Lemma queue_excess_active_balance_safe i : safe (queue_excess_active_balance i).
Proof.
  intros s Hs. unfold queue_excess_active_balance. safe_step. case_if; [|safe_step].
  safe_step; [apply shape_balances; [done|apply length_insert]|].
  safe_step. by apply push_pending_deposit_safe.
Qed.

Lemma switch_to_compounding_safe i : safe (switch_to_compounding_validator i).
Proof.
  intros s Hs. unfold switch_to_compounding_validator. safe_step.
  apply ok_or_Ok, lookup_lt_Some in H0.
  apply safe_bind; [apply update_validator_safe; [done|lia|done]|]. intros [] s1 _ Hs1 _.
  by apply queue_excess_active_balance_safe.
Qed.

Lemma process_consolidation_request_safe r : safe (process_consolidation_request r).
Proof.
  intros s Hs. unfold process_consolidation_request. case_bool_decide as Ek.
  - safe_step. injection H0 as Hf. safe_step.
    { unfold is_valid_switch_with_source. case_if; [done|]. destruct a as [i|]; [|done].
      apply found_index_lt in Hf. apply sound_bind; [by apply sound_index|done]. }
    safe_step. destruct a; [by apply switch_to_compounding_safe|].
    unfold is_valid_switch_with_source in H0. case_if; simplify_eq.
  - do 2 safe_step. safe_step; [by rewrite get_consolidation_churn_limit_Ok|]. do 2 safe_step.
    assert (find_validator_indices s [cr_source_public_key r; cr_target_public_key r] = a1) as Hf by congruence.
    destruct (a1 !! cr_source_public_key r) as [i|] eqn:Ei; [|by safe_step].
    destruct (a1 !! cr_target_public_key r) as [j|] eqn:Ej; [|by safe_step].
    rewrite <-Hf, find_validator_indices_spec in Ei. rewrite <-Hf, find_validator_indices_spec in Ej.
    case_bool_decide; [|done]. case_bool_decide; [|done]. apply first_index_lt in Ei, Ej.
    do 10 safe_step. apply safe_bind.
    { apply compute_consolidation_epoch_safe; [done|]. intros l El.
      unfold MIN_ACTIVATION_BALANCE in *. b2p. congruence || (assert (l = a0) by congruence; lia). }
    intros x s1 _ Hs1 Hl1. safe_step.
    apply safe_bind; [apply update_validator_safe; [done|lia|done]|]. intros [] s2 _ Hs2 _.
    unfold push_to. split; destruct (vl_push _ _ _); cbn; try done. shape_set.
Qed.

(** ** Slashings *)

Lemma process_proposer_slashing_safe sl : safe (process_proposer_slashing sl).
Proof.
  intros s Hs. unfold process_proposer_slashing. safe_step; [|by apply slash_validator_safe].
  unfold validate_proposer_slashing. do 3 (apply sound_bind; [apply sound_ensure|intros [] _]).
  apply sound_bind; [apply sound_ok_or|]. intros v _. apply sound_bind; [apply sound_ensure|]. intros [] _.
  apply sound_bind; [|done]. apply sound_mapR. intros h _.
  apply sound_bind; [apply returns_sound, bls_verify_returns|]. intros; apply sound_ensure.
Qed.

Lemma is_valid_indexed_attestation_sound s a :
  sound (is_valid_indexed_attestation s a) /\
  (is_valid_indexed_attestation s a = Ok true ->
   forall i, i ∈ attesting_indices a -> (Z.to_nat i < length (validators s))%nat).
Proof.
  unfold is_valid_indexed_attestation. case_if; [done|]. split.
  - apply sound_bind; [|intros; apply returns_sound, fast_aggregate_verify_returns].
    apply sound_mapR. intros i _. apply sound_bind; [apply sound_ok_or|done].
  - intros (ks & Hk & _)%bind_Ok i Hi. apply mapR_Ok in Hk.
    apply list_elem_of_lookup in Hi as [j Hj]. destruct (Forall2_lookup_l _ _ _ _ _ Hk Hj) as (k & _ & E).
    apply bind_Ok in E as (v & Hv%ok_or_Ok & _). by eapply lookup_lt_Some.
Qed.

Lemma slash_all_safe e l any s :
  shape s -> (forall i, i ∈ l -> (Z.to_nat i < length (validators s))%nat) -> safe_at (slash_all e l any) s.
Proof.
  revert any s. induction l as [|i l IH]; intros any s Hs Hl; cbn [slash_all]; [safe_step|].
  assert (Z.to_nat i < length (validators s))%nat by (apply Hl; set_solver).
  safe_step. case_if.
  - apply safe_bind; [by apply slash_validator_safe|]. intros [] s1 _ Hs1 Hg. apply IH; [done|].
    intros j Hj. assert (Z.to_nat j < length (validators s))%nat by (apply Hl; set_solver). lia.
  - apply IH; [done|]. intros j Hj. apply Hl. set_solver.
Qed.

Lemma process_attester_slashing_safe sl : safe (process_attester_slashing sl).
Proof.
  intros s Hs. unfold process_attester_slashing.
  assert (sound (get_slashable_attester_indices s sl) /\
    forall r, get_slashable_attester_indices s sl = Ok r ->
      forall i, i ∈ r.1 ∩ r.2 -> (Z.to_nat i < length (validators s))%nat) as [H1 H2].
  { unfold get_slashable_attester_indices. split.
    - apply sound_bind; [apply sound_ensure|]. intros [] _.
      do 2 (apply sound_bind; [apply is_valid_indexed_attestation_sound|intros ? _];
            apply sound_bind; [apply sound_ensure|intros [] _]). done.
    - intros r Hr i Hi. res_inv Hr. cbn in Hi. rewrite elem_of_intersection, !elem_of_list_to_set in Hi.
      eapply is_valid_indexed_attestation_sound; [exact Hb0|apply Hi]. }
  safe_step. specialize (H2 _ H0). safe_step.
  apply safe_bind.
  { apply slash_all_safe; [done|]. intros i Hi. apply H2. by rewrite sort_by_perm, elem_of_hs_iter in Hi. }
  intros any s1 _ Hs1 _. safe_step.
Qed.

(** ** Attestations *)

Lemma mark_flags_sound s per flags i num p :
  shape s -> in_registry s i ->
  sound (mark_flags s per flags i num p).2 /\ length (mark_flags s per flags i num p).1 = length p.
Proof.
  intros Hs Hi. unfold mark_flags. rewrite bindM_reads.
  destruct (ok_or (p !! Z.to_nat i) _) as [part| | |] eqn:E; [|done|by destruct (p !! Z.to_nat i)|done].
  rewrite bindM_lift. set (r := foldM _ _ _).
  assert (sound r) as Hr.
  { apply sound_foldM'. intros [pt nm] fw _. case_if; [|done]. apply sound_bind; [|done].
    unfold get_base_reward. apply sound_bind; [|done]. apply sound_index. unfold in_registry in Hi. lia. }
  destruct r as [[pt nm]| | |]; try done. rewrite bindM_modify. cbn. by rewrite length_insert.
Qed.

Lemma mark_all_sound s per flags l num p :
  shape s -> Forall (in_registry s) l ->
  sound (mark_all s per flags l num p).2 /\ length (mark_all s per flags l num p).1 = length p.
Proof.
  intros Hs Hl. revert num p. induction Hl as [|i l Hi _ IH]; intros num p; cbn [mark_all]; [done|].
  destruct (mark_flags_sound s per flags i num p Hs Hi) as [H1 H2]. unfold mbind, M_bind.
  destruct (mark_flags s per flags i num p) as [p' [n| | |]]; cbn in *; try done.
  destruct (IH n p') as [H3 H4]. by rewrite <-H2.
Qed.

Lemma mark_participation_sound s l flags p :
  shape s -> Forall (in_registry s) l ->
  sound (mark_participation s l flags p).2 /\ length (mark_participation s l flags p).1 = length p.
Proof.
  intros Hs Hl. unfold mark_participation. rewrite get_base_reward_per_increment_Ok, bindM_lift.
  destruct (mark_all_sound s (EFFECTIVE_BALANCE_INCREMENT * BASE_REWARD_FACTOR / Z.sqrt (total_active s)) flags l 0 p Hs Hl)
    as [H1 H2]. unfold mbind, M_bind.
  by destruct (mark_all _ _ _ _ _ _) as [p' [n| | |]].
Qed.

Lemma check_committees_sound s a : shape s -> sound (check_committees s a).
Proof.
  intros Hs. apply sound_foldM'. intros off ci _.
  apply sound_bind; [by apply get_committee_count_sound|]. intros c _.
  apply sound_bind; [apply sound_ensure|]. intros [] _.
  apply sound_bind; [by apply get_beacon_committee_sound|]. intros com _.
  apply sound_bind.
  { apply sound_foldM'. intros b i _. apply sound_bind; [apply sound_ok_or|done]. }
  intros b _. apply sound_bind; [apply sound_ensure|done].
Qed.

Lemma process_attestation_safe a v : safe (process_attestation_with a v).
Proof.
  intros s Hs. unfold process_attestation_with. do 3 safe_step.
  safe_step; [by apply get_committee_count_sound|]. do 2 safe_step.
  safe_step; [by apply check_committees_sound|]. safe_step.
  safe_step; [by apply flag_indices_sound|].
  safe_step; [by apply get_indexed_attestation_sound|].
  match goal with E : get_indexed_attestation s a = Ok ?x |- _ =>
    apply get_indexed_attestation_sound in E as Hin; [|done] end.
  safe_step; [destruct v; [apply is_valid_indexed_attestation_sound|done]|]. do 4 safe_step.
  destruct (mark_participation_sound s _ a2 a6 Hs Hin) as [Hm1 Hm2].
  assert (a7 = mark_participation s (attesting_indices a3) a2 a6) as Ex by congruence.
  rewrite <-Ex in Hm1, Hm2. destruct a7 as [p' rw]. cbn in Hm1, Hm2. safe_step.
  { destruct Hs; destruct a5; simplify_eq; constructor; cbn; try done; by rewrite Hm2. }
  { by destruct a5. }
  safe_step; [by apply get_beacon_proposer_index_sound|]. safe_step.
  by apply increase_balance_safe.
Qed.

(** ** Randao, eth1 data and the sync aggregate *)

Lemma xor_sound a b :
  length a = 32%nat -> length b = 32%nat ->
  sound (xor a b) /\ forall m, xor a b = Ok m -> length m = 32%nat.
Proof.
  intros Ha Hb. split.
  - apply sound_mapR. intros i Hi%elem_of_seq.
    repeat (apply sound_bind; [apply sound_index; lia|intros ? _]). done.
  - intros m E%mapR_Ok%Forall2_length. by rewrite <-E.
Qed.

Lemma process_randao_safe body v : safe (process_randao_inner body v).
Proof.
  intros s Hs. unfold process_randao_inner. safe_step. safe_step; [by apply get_beacon_proposer_index_sound|].
  safe_step. destruct a1 as [v1|]; [|safe_step]. safe_step.
  { destruct v; [|done]. apply sound_bind; [apply returns_sound, bls_verify_returns|]. intros; apply sound_ensure. }
  assert (forall m, get_randao_mix s a = Ok m -> length m = 32%nat) as Hx.
  { intros m Hm%index_Ok. by apply (proj1 (Forall_lookup _ _) (sh_mix s Hs) _ _ Hm). }
  safe_step.
  { apply sound_bind; [by apply get_randao_mix_sound|]. intros m Hm. apply xor_sound; [by apply Hx|apply hash_length]. }
  assert (length a2 = 32%nat) as Hl.
  { apply bind_Ok in H4 as (m & Hm & E). eapply xor_sound; [by apply Hx|apply hash_length|exact E]. }
  pose proof (sh_mixes s Hs) as Hmix.
  assert (Z.to_nat (a mod EPOCHS_PER_HISTORICAL_VECTOR) < length (randao_mixes s))%nat as Hi
    by by apply mod_lt_length.
  safe_step. apply set_index_Ok in H5 as [_ ->].
  safe_step. destruct Hs; constructor; cbn; try done; [by rewrite length_insert|by apply Forall_insert].
Qed.

Lemma process_eth1_data_safe body : safe (process_eth1_data body).
Proof.
  intros s Hs. unfold process_eth1_data. apply safe_bind.
  - unfold push_to. split; destruct (vl_push _ _ _); cbn; try done. shape_set.
  - intros _ s1 _ Hs1 _. split; cbn; [case_if; [shape_set|done]|by case_if|by case_if|done].
Qed.

Lemma verify_sync_aggregate_sound s a : shape s -> sound (verify_sync_aggregate s a).
Proof.
  intros Hs. unfold verify_sync_aggregate. apply sound_bind; [by apply get_block_root_at_slot_sound|].
  intros r _. apply sound_bind; [|intros; apply sound_ensure]. unfold eth_fast_aggregate_verify.
  case_if; [done|]. apply returns_sound, fast_aggregate_verify_returns.
Qed.

Lemma process_sync_aggregate_safe a v : safe (process_sync_aggregate_with a v).
Proof.
  intros s Hs. unfold process_sync_aggregate_with.
  safe_step; [destruct v; [by apply verify_sync_aggregate_sound|done]|].
  safe_step; [apply sound_mapR; intros; apply sound_ok_or|].
  safe_step.
  { unfold get_proposer_and_participant_rewards.
    by rewrite get_total_active_balance_Ok, get_base_reward_per_increment_Ok. }
  destruct a2 as [pr rw]. safe_step; [by apply get_beacon_proposer_index_sound|].
  apply safe_forM'; [|done]. intros [[i c] b] _ s1 Hs1. apply safe_seq; [done| |].
  - case_if; [apply increase_balance_safe|apply decrease_balance_safe].
  - intros _ s2 Hs2. case_if; [by apply increase_balance_safe|safe_step].
Qed.

(** ** The whole block *)

#[local] Hint Resolve process_proposer_slashing_safe process_attester_slashing_safe process_attestation_safe
  process_deposit_safe process_voluntary_exit_safe process_bls_to_execution_change_safe
  process_deposit_request_safe process_withdrawal_request_safe process_consolidation_request_safe : safe.

Lemma process_operations_safe body v : safe (process_operations_with body v).
Proof.
  intros s Hs. unfold process_operations_with. safe_step; [case_if; apply sound_ensure|]. clear H0.
  do 8 (apply safe_seq; [done|apply safe_forM'; auto with safe|clear s Hs; intros _ s Hs]).
  apply safe_forM'; auto with safe.
Qed.

Lemma process_block_after_execution_payload_safe body r v : safe (process_block_after_execution_payload body r v).
Proof.
  intros s Hs. unfold process_block_after_execution_payload.
  apply safe_seq; [done|apply process_randao_safe|]. intros _ s1 Hs1.
  apply safe_seq; [done|apply process_eth1_data_safe|]. intros _ s2 Hs2.
  apply safe_seq; [done|apply process_operations_safe|]. intros _ s3 Hs3.
  by apply process_sync_aggregate_safe.
Qed.

Lemma verify_execution_payload_consistency_sound s body :
  shape s -> sound (verify_execution_payload_consistency s body).
Proof.
  intros Hs. unfold verify_execution_payload_consistency. apply sound_bind; [apply sound_ensure|]. intros _ _.
  apply sound_bind; [by apply get_randao_mix_sound|]. intros m _.
  apply sound_bind; [apply sound_ensure|]. intros _ _. apply sound_bind; [apply sound_ensure|]. intros _ _.
  apply sound_ensure.
Qed.

(** An engine that answers or reports an error. *)
Definition engine_sound (e : option ExecutionEngine) : Prop :=
  forall engine body root, e = Some engine -> sound (engine body root).

Lemma process_execution_payload_safe body e : engine_sound e -> safe (process_execution_payload body e).
Proof.
  intros He s Hs. unfold process_execution_payload.
  safe_step; [by apply verify_execution_payload_consistency_sound|]. safe_step; [|safe_step].
  destruct e as [engine|]; [|done]. apply sound_bind; [by apply He|]. intros; apply sound_ensure.
Qed.

Lemma process_proposed_block_safe block e r : engine_sound e -> safe (process_proposed_block block e r).
Proof.
  intros He s Hs. unfold process_proposed_block.
  apply safe_seq; [done|apply process_block_header_safe|]. intros _ s1 Hs1.
  apply safe_seq; [done|apply process_withdrawals_safe|]. intros _ s2 Hs2.
  apply safe_seq; [done|by apply process_execution_payload_safe|]. intros _ s3 Hs3.
  by apply process_block_after_execution_payload_safe.
Qed.

Lemma process_signed_block_safe block v e : engine_sound e -> safe (process_signed_block block v e).
Proof.
  intros He s Hs. unfold process_signed_block. safe_step.
  { destruct v; [|done]. apply sound_bind; [|intros; apply sound_ensure]. unfold verify_block_header_signature.
    apply sound_bind; [apply sound_ok_or|]. intros; apply returns_sound, bls_verify_returns. }
  apply safe_bind; [by apply process_proposed_block_safe|]. intros _ s1 _ Hs1 _. safe_step.
  destruct v; [apply sound_ensure|done].
Qed.
End ops.
