(* ===== verification/BeaconParticipation.v ===== *)
(** * Who took part in an epoch, counted in three ways

    [get_unslashed_participating_mask], [get_unslashed_participating_indices] and the
    chunked [get_unslashed_participating_balances] agree: one mask, one set of indices,
    one balance. *)

From stdpp Require Import strings.
From S2P Require Import Prelude StateMonad Bytes Shuffling BeaconTypes BeaconAccess BeaconMutate BeaconEpoch BeaconFacts BeaconRegistry.

(** ** Sums of a zipped registry *)

Lemma foldl_u64_where {A} (p : A -> bool) (f : A -> Z) l a :
  foldl (fun b x => if p x then (b + f x)%u64 else b) (wrap64 a) l =
  wrap64 (a + sumZ (f <$> filter (fun x => p x = true) l)).
Proof.
  revert a. induction l as [|x l IH]; intros a; [cbn; f_equal; lia|]. cbn [foldl]. rewrite filter_cons.
  case_decide as E; [rewrite E|destruct (p x); [done|]]; [|apply IH].
  replace ((wrap64 a + f x)%u64) with (wrap64 (a + f x)); [rewrite IH; cbn; f_equal; lia|].
  unfold u64_add, wrap64. by rewrite Zplus_mod_idemp_l.
Qed.

Lemma foldl_u64_where_0 {A} (p : A -> bool) (f : A -> Z) l :
  foldl (fun b x => if p x then (b + f x)%u64 else b) 0 l =
  u64_sum (f <$> filter (fun x => p x = true) l).
Proof. rewrite u64_sum_wrap. apply (foldl_u64_where p f l 0). Qed.

Lemma foldl_pair {A} (f g : Z -> A -> Z) l a b :
  foldl (fun (acc : Z * Z) x => (f acc.1 x, g acc.2 x)) (a, b) l = (foldl f a l, foldl g b l).
Proof. revert a b. induction l as [|x l IH]; intros a b; cbn; [done|]. apply IH. Qed.

Lemma foldl_ext_fun {A B} (f g : A -> B -> A) l a : (forall a b, f a b = g a b) -> foldl f a l = foldl g a l.
Proof. intros Hf. revert a. induction l as [|x l IH]; intros a; cbn; [done|]. by rewrite Hf. Qed.

Lemma filter_concat {A} (P : A -> Prop) `{forall x, Decision (P x)} (ls : list (list A)) :
  filter P (concat ls) = concat (filter P <$> ls).
Proof. induction ls as [|l ls IH]; cbn; [done|]. rewrite filter_app. by f_equal. Qed.

(** Adding up sums that each wrapped is wrapping the sum of everything. *)
Lemma u64_sum_parts {A} (f : A -> Z) (ls : list (list A)) :
  u64_sum ((fun l => u64_sum (f <$> l)) <$> ls) = u64_sum (f <$> concat ls).
Proof.
  rewrite !u64_sum_wrap. induction ls as [|l ls IH]; cbn; [done|].
  rewrite fmap_app, sumZ_app, u64_sum_wrap. unfold wrap64 in *.
  rewrite Zplus_mod_idemp_l, <-Zplus_mod_idemp_r, IH. apply Zplus_mod_idemp_r.
Qed.

(** ** Chunks of a zipped list *)

Lemma clamped_take_drop {A} (l : list A) a n :
  (a + n <= length l)%nat -> clamped l a (a + n) = take n (drop a l).
Proof. intros Hn. unfold clamped. rewrite !Nat.min_l by lia. f_equal. lia. Qed.

Lemma drop_zip {A B} n (l : list A) (k : list B) : drop n (zip l k) = zip (drop n l) (drop n k).
Proof. apply zip_with_drop. Qed.

Lemma chunks_zip {A B C} size (vs : list A) (ps : list B) (qs : list C) fuel c :
  (0 < size)%nat -> length ps = length vs -> length qs = length vs ->
  (fun ic : nat * list A =>
     zip (zip ic.2 (clamped ps (ic.1 * size) (ic.1 * size + length ic.2)))
         (clamped qs (ic.1 * size) (ic.1 * size + length ic.2)))
    <$> enumerate_from c (chunks_from fuel size (drop (c * size) vs)) =
  chunks_from fuel size (drop (c * size) (zip (zip vs ps) qs)).
Proof.
  intros Hs Hp Hq. revert c. induction fuel as [|fuel IH]; intros c; [done|].
  assert (length (drop (c * size) (zip (zip vs ps) qs)) = length (drop (c * size) vs)) as Hl.
  { rewrite !length_drop, !length_zip_with. lia. }
  cbn [chunks_from]. destruct (drop (c * size) vs) as [|v l'] eqn:Ev.
  { by apply nil_length_inv in Hl as ->. }
  destruct (drop (c * size) (zip (zip vs ps) qs)) as [|z k'] eqn:Ez; [done|].
  rewrite <-Ev, <-Ez, !drop_drop in *. rewrite enumerate_from_cons. cbn [fmap list_fmap fst snd].
  assert (length (take size (drop (c * size) vs)) <= length vs - c * size)%nat as Ht
    by (rewrite length_take, length_drop; lia).
  assert (length (drop (c * size) vs) <> 0%nat) as Hn by (rewrite Ev; done). rewrite length_drop in Hn.
  rewrite !clamped_take_drop by lia. f_equal.
  - rewrite length_take, <-!take_take, !drop_zip, !zip_with_take.
    by rewrite (take_ge (drop _ ps)), (take_ge (drop _ qs)) by (rewrite !length_drop; lia).
  - replace (c * size + size)%nat with (S c * size)%nat by lia. apply IH.
Qed.

(** ** The three counts *)

Section participation.
Context {H : Sha256} {F : CandidateFuel} {HO : HashOrder} {HL : HashOrderLaws HO}.

Definition participation_of (s : BeaconState) (epoch : Z) : list Z :=
  if epoch =? get_current_epoch s then current_epoch_participation s else previous_epoch_participation s.

Definition participates (epoch flag_index : Z) (vf : Validator * Z) : bool :=
  is_active_validator vf.1 epoch && negb (slashed vf.1) && has_flag vf.2 flag_index.

(** The balance of the unslashed validators of an epoch whose flag is set. *)
Definition attesting_balance (s : BeaconState) (flag_index epoch : Z) : Z :=
  Z.max EFFECTIVE_BALANCE_INCREMENT
    (u64_sum (effective_balance ∘ fst <$> filter (fun vf => participates epoch flag_index vf = true)
                                     (zip (validators s) (participation_of s epoch)))).

Definition recent_epoch (s : BeaconState) (epoch : Z) : Prop :=
  epoch = get_previous_epoch s \/ epoch = get_current_epoch s.

Lemma recent_ensure s epoch :
  recent_epoch s epoch -> (epoch =? get_previous_epoch s) || (epoch =? get_current_epoch s) = true.
Proof. intros [->| ->]; rewrite Z.eqb_refl; [done|apply orb_true_r]. Qed.

Lemma mask_Ok s flag epoch :
  recent_epoch s epoch ->
  get_unslashed_participating_mask s flag epoch =
  Ok (participates epoch flag <$> zip (validators s) (participation_of s epoch), attesting_balance s flag epoch).
Proof.
  intros Hr. unfold get_unslashed_participating_mask. rewrite recent_ensure by done. cbn [ensure mbind res_bind].
  unfold attesting_balance. by rewrite <-foldl_u64_where_0.
Qed.

Lemma foldM_select {E X} (f : Z -> res E X) (h : X -> bool) (g : Z -> bool) l acc :
  (forall i, i ∈ l -> exists x, f i = Ok x /\ h x = g i) ->
  foldM (fun acc i => x ← f i; Ok (if h x then acc ++ [i] else acc)) acc l =
  Ok (acc ++ filter (fun i => g i = true) l).
Proof.
  revert acc. induction l as [|i l IH]; intros acc Hf; [by rewrite app_nil_r|].
  destruct (Hf i ltac:(set_solver)) as (x & Hx & Hh).
  cbn [foldM]. rewrite Hx. cbn [mbind res_bind]. rewrite IH by (intros; apply Hf; set_solver).
  rewrite filter_cons, Hh. case_decide as E1; [rewrite E1, <-app_assoc; done|by destruct (g i)].
Qed.

Lemma indices_Ok s flag epoch :
  recent_epoch s epoch -> length (participation_of s epoch) = length (validators s) ->
  get_unslashed_participating_indices s flag epoch =
  Ok (list_to_set (kept (participates epoch flag) (zip (validators s) (participation_of s epoch)))).
Proof.
  intros Hr Hl. unfold get_unslashed_participating_indices. rewrite recent_ensure by done.
  cbn [ensure mbind res_bind]. change (if epoch =? _ then _ else _) with (participation_of s epoch).
  set (ps := participation_of s epoch) in *.
  rewrite active_kept. set (l := kept _ _).
  assert (forall i, i ∈ l -> exists v p,
    0 <= i /\ validators s !! Z.to_nat i = Some v /\ ps !! Z.to_nat i = Some p) as Hin.
  { intros i (Hi & v & Hv & _)%elem_of_kept. apply lookup_lt_Some in Hv as Hlt.
    destruct (lookup_lt_is_Some_2 ps (Z.to_nat i)) as [p Hp]; [lia|]. by exists v, p. }
  set (g1 := fun i => default false ((fun p => has_flag p flag) <$> ps !! Z.to_nat i)).
  set (g2 := fun i => default false ((fun v => negb (slashed v)) <$> validators s !! Z.to_nat i)).
  rewrite (foldM_select _ (fun p => has_flag p flag) g1).
  2: { intros i (v & p & _ & _ & Hp)%Hin. exists p. unfold g1. by rewrite (index_lookup _ _ _ Hp), Hp. }
  cbn [mbind res_bind app]. rewrite (foldM_select _ (fun v => negb (slashed v)) g2).
  2: { intros i [_ (v & p & _ & Hv & _)%Hin]%list_elem_of_filter. exists v. unfold g2.
       by rewrite (index_lookup _ _ _ Hv), Hv. }
  cbn [mbind res_bind app]. f_equal. apply leibniz_equiv. intros i.
  rewrite !elem_of_list_to_set, !list_elem_of_filter. unfold l. rewrite !elem_of_kept.
  setoid_rewrite lookup_zip_with. unfold g1, g2, participates. split.
  - intros (H2 & H1 & Hi & v & Hv & Ha). rewrite Hv in *. destruct (ps !! Z.to_nat i) as [p|] eqn:Hp; [|done].
    cbn in *. split; [done|]. eexists. split; [done|]. cbn. by rewrite Ha, H1, H2.
  - intros (Hi & [v p] & Hz & Hb). destruct (validators s !! Z.to_nat i) as [v'|] eqn:Hv; [|done].
    destruct (ps !! Z.to_nat i) as [p'|] eqn:Hp; [|done]. cbn in Hz. simplify_eq. cbn in *.
    apply andb_prop in Hb as [[Ha Hs]%andb_prop Hf]. rewrite Hs, Hf. eauto 10.
Qed.

Lemma participating_total s flag epoch :
  length (participation_of s epoch) = length (validators s) ->
  get_total_balance s (list_to_set (kept (participates epoch flag) (zip (validators s) (participation_of s epoch)))) =
  Ok (attesting_balance s flag epoch).
Proof using HL.
  intros Hl. unfold get_total_balance, attesting_balance. set (zs := zip _ _). set (f := participates epoch flag).
  set (g := fun i => default 0 (effective_balance ∘ fst <$> zs !! Z.to_nat i)).
  assert (hs_iter (list_to_set (kept f zs) : gset Z) ≡ₚ kept f zs) as Hp.
  { rewrite hs_iter_perm. apply elements_list_to_set, NoDup_kept. }
  rewrite (mapR_fmap _ g).
  - cbn. f_equal. f_equal. rewrite <-(kept_lookup f (effective_balance ∘ fst) 0). apply u64_sum_perm. by rewrite Hp.
  - intros i Hi. rewrite Hp in Hi. apply elem_of_kept in Hi as [_ ([v p] & Hv & _)].
    unfold g. rewrite Hv. unfold zs in Hv. rewrite lookup_zip_with in Hv.
    destruct (validators s !! Z.to_nat i) as [v'|] eqn:E; [|done].
    destruct (participation_of s epoch !! Z.to_nat i); cbn in Hv; [|done]. simplify_eq.
    by rewrite (index_lookup _ _ _ E).
Qed.

Lemma sum_chunk_Ok pe ce flag vs ps qs :
  sum_chunk pe ce flag vs ps qs =
  let zs := zip (zip vs ps) qs in
  (u64_sum (effective_balance ∘ fst ∘ fst <$> filter (fun z => participates pe flag z.1 = true) zs),
   u64_sum (effective_balance ∘ fst ∘ fst <$> filter (fun z => participates ce flag (z.1.1, z.2) = true) zs)).
Proof.
  unfold sum_chunk. cbn zeta. rewrite <-!foldl_u64_where_0, <-foldl_pair. apply foldl_ext_fun.
  intros [a b] [[v p] q]. unfold participates. cbn. destruct (slashed v), (is_active_validator v pe),
    (is_active_validator v ce); cbn; done.
Qed.
(** The chunks' sums add up to the sums over the registry. *)
Lemma chunk_sums pe ce flag (vs : list Validator) (ps qs : list Z) size :
  (0 < size)%nat -> length ps = length vs -> length qs = length vs ->
  foldl (fun (t p : Z * Z) => ((t.1 + p.1)%u64, (t.2 + p.2)%u64)) (0, 0)
    ((fun ic : nat * list Validator =>
      sum_chunk pe ce flag ic.2 (clamped ps (ic.1 * size) (ic.1 * size + length ic.2))
        (clamped qs (ic.1 * size) (ic.1 * size + length ic.2))) <$> enumerate (chunks size vs)) =
  sum_chunk pe ce flag vs ps qs.
Proof.
  intros Hs Hp Hq. rewrite sum_chunk_Ok. set (zs := zip (zip vs ps) qs). cbn zeta.
  set (f1 := fun z : Validator * Z * Z => participates pe flag z.1 = true).
  set (f2 := fun z : Validator * Z * Z => participates ce flag (z.1.1, z.2) = true).
  set (w := effective_balance ∘ fst ∘ fst : Validator * Z * Z -> Z).
  set (sums := fun l : list (Validator * Z * Z) => (u64_sum (w <$> filter f1 l), u64_sum (w <$> filter f2 l))).
  assert (length zs = length vs) as Hz by (unfold zs; rewrite !length_zip_with; lia).
  assert ((fun ic : nat * list Validator =>
      sum_chunk pe ce flag ic.2 (clamped ps (ic.1 * size) (ic.1 * size + length ic.2))
        (clamped qs (ic.1 * size) (ic.1 * size + length ic.2))) <$> enumerate (chunks size vs) =
    sums <$> chunks size zs) as ->.
  { unfold chunks. rewrite Hz. pose proof (chunks_zip size vs ps qs (length vs) 0 Hs Hp Hq) as E.
    cbn [Nat.mul] in E. rewrite !drop_0 in E. fold zs in E. rewrite <-E, <-list_fmap_compose.
    apply list_fmap_ext. intros k ic _. unfold compose. apply sum_chunk_Ok. }
  assert (zs = concat (chunks size zs)) as Hc by (symmetry; by apply chunks_concat_from).
  rewrite (foldl_pair (fun t (p : Z * Z) => (t + p.1)%u64) (fun t (p : Z * Z) => (t + p.2)%u64)).
  assert (forall (h : Z * Z -> Z) l, foldl (fun t p => (t + h p)%u64) 0 l = u64_sum (h <$> l)) as Hf.
  { intros h l. unfold u64_sum. generalize 0 as a. induction l as [|x l IH]; intros a; cbn; [done|]. apply IH. }
  rewrite !Hf, <-!list_fmap_compose. rewrite Hc at 3 4. rewrite !filter_concat.
  rewrite <-!(u64_sum_parts w), <-!list_fmap_compose. done.
Qed.

Lemma filter_fmap_bool {A B} (f : A -> B) (p : B -> bool) (l : list A) :
  filter (fun b => p b = true) (f <$> l) = f <$> filter (fun a => p (f a) = true) l.
Proof.
  induction l as [|a l IH]; [done|]. cbn [fmap list_fmap]. rewrite !filter_cons.
  case_decide; [cbn; by f_equal|done].
Qed.

Lemma balances_Ok s flag :
  length (previous_epoch_participation s) = length (validators s) ->
  length (current_epoch_participation s) = length (validators s) ->
  get_previous_epoch s <> get_current_epoch s ->
  get_unslashed_participating_balances s flag =
  (attesting_balance s flag (get_previous_epoch s), attesting_balance s flag (get_current_epoch s)).
Proof.
  intros Hp Hc Hne. unfold get_unslashed_participating_balances.
  rewrite chunk_sums, sum_chunk_Ok by (done || unfold CHUNK_SIZE; lia). cbn zeta. cbn [fst snd].
  unfold attesting_balance, participation_of. rewrite Z.eqb_refl, (proj2 (Z.eqb_neq _ _) Hne).
  set (vs := validators s). set (ps := previous_epoch_participation s). set (qs := current_epoch_participation s).
  assert (zip vs ps = fst <$> zip (zip vs ps) qs) as H1.
  { symmetry. apply fst_zip. rewrite length_zip_with. unfold vs, ps, qs. lia. }
  assert (zip vs qs = (fun z => (z.1.1, z.2)) <$> zip (zip vs ps) qs) as H2.
  { apply list_eq. intros i. rewrite list_lookup_fmap, !lookup_zip_with.
    destruct (vs !! i) eqn:Ev; [|done]. apply lookup_lt_Some in Ev.
    destruct (lookup_lt_is_Some_2 ps i) as [p ->]; [unfold vs, ps in *; lia|]. cbn. by destruct (qs !! i). }
  f_equal.
  - set (zs := zip (zip vs ps) qs) in *. rewrite H1.
    by rewrite (filter_fmap_bool fst (participates (get_previous_epoch s) flag)), <-list_fmap_compose.
  - by rewrite H2, (filter_fmap_bool _ (participates (get_current_epoch s) flag)), <-list_fmap_compose.
Qed.
End participation.
