(* ===== verification/BeaconJustification.v ===== *)
(** * Justification and finality

    What [process_justification_and_finalization] does to the bits and checkpoints, that
    their epochs stay ordered, and that finality never goes back. *)

From stdpp Require Import strings.
From S2P Require Import Prelude StateMonad Bytes Shuffling BeaconTypes BeaconAccess BeaconMutate BeaconEpoch BeaconBlockOps BeaconFacts BeaconRegistry BeaconSafety BeaconParticipation.

(** ** The rule *)

(** Two thirds of the active balance attested to a target. *)
Definition supermajority (total attesting : Z) : bool := 2 * total <=? 3 * attesting.

(** The newest bit first: this epoch, the last one, the two before. *)
Definition ffg_bits (bits : list bool) (previous_justified current_justified : bool) : list bool :=
  match bits with
  | b0 :: b1 :: b2 :: _ => [current_justified; b0 || previous_justified; b1; b2]
  | _ => bits
  end.

(** A justified checkpoint becomes final when every epoch after it up to the source of a
    supermajority link is justified: links over one epoch, or two. *)
Definition ffg_finalized (epoch : Z) (bits : list bool) (previous current finalized : Checkpoint) : Checkpoint :=
  match bits with
  | b0 :: b1 :: b2 :: b3 :: _ =>
      if b0 && b1 && (cp_epoch current + 1 =? epoch) then current
      else if b0 && b1 && b2 && (cp_epoch current + 2 =? epoch) then current
      else if b1 && b2 && (cp_epoch previous + 2 =? epoch) then previous
      else if b1 && b2 && b3 && (cp_epoch previous + 3 =? epoch) then previous
      else finalized
  | _ => finalized
  end.

Record ffg_ordered (s : BeaconState) : Prop := mkFfgOrdered {
  fo_finalized : 0 <= cp_epoch (finalized_checkpoint s);
  fo_previous : cp_epoch (finalized_checkpoint s) <= cp_epoch (previous_justified_checkpoint s);
  fo_current : cp_epoch (previous_justified_checkpoint s) <= cp_epoch (current_justified_checkpoint s);
  fo_epoch : cp_epoch (current_justified_checkpoint s) <= get_previous_epoch s;
}.

Section justification.
Context {H : Sha256} {F : CandidateFuel} {HO : HashOrder} {HL : HashOrderLaws HO}.
Context {SV : SszVec} {SVL : SszVecLaws SV}.

Lemma set_bit_Ok bits i b : (i < length bits)%nat -> set_bit bits i b = Ok (<[i := b]> bits).
Proof. intros Hi. unfold set_bit. rewrite bits_set_spec. by rewrite (proj2 (Nat.ltb_lt _ _) Hi). Qed.

Lemma shift_bits_Ok b0 b1 b2 b3 : shift_bits [b0; b1; b2; b3] = Ok [false; b0; b1; b2].
Proof.
  unfold shift_bits, JUSTIFICATION_BITS_LENGTH. change (reverse (seq 1 (4 - 1))) with [3; 2; 1]%nat.
  cbn [foldM]. repeat (rewrite bits_get_spec; cbn [lookup list_lookup Nat.sub ok_or mbind res_bind];
    rewrite set_bit_Ok by (cbn; lia); cbn [mbind res_bind insert list_insert]).
  by rewrite set_bit_Ok by (cbn; lia).
Qed.

Lemma previous_epoch_pred s : 2 <= get_current_epoch s < 2 ^ 64 -> get_previous_epoch s = get_current_epoch s - 1.
Proof.
  intros He. unfold get_previous_epoch. case_if; b2p; [unfold GENESIS_EPOCH in *; lia|]. by u64_simpl.
Qed.

Lemma justification_outcome_Ok s t p c b0 b1 b2 b3 pr cr :
  justification_bits s = [b0; b1; b2; b3] ->
  get_block_root s (get_previous_epoch s) = Ok pr -> get_block_root s (get_current_epoch s) = Ok cr ->
  0 <= t -> 0 <= p -> 0 <= c -> t < 2 ^ 62 -> p < 2 ^ 62 -> c < 2 ^ 62 ->
  ffg_ordered s -> 2 <= get_current_epoch s < 2 ^ 60 ->
  let bits := ffg_bits (justification_bits s) (supermajority t p) (supermajority t c) in
  justification_outcome s t p c = Ok (mkJustificationAndFinalization bits
    (current_justified_checkpoint s)
    (if supermajority t c then mkCheckpoint (get_current_epoch s) cr
     else if supermajority t p then mkCheckpoint (get_previous_epoch s) pr
     else current_justified_checkpoint s)
    (ffg_finalized (get_current_epoch s) bits (previous_justified_checkpoint s)
       (current_justified_checkpoint s) (finalized_checkpoint s))).
Proof.
  intros Hb Hpr Hcr Ht0 Hp0 Hc0 Ht Hp Hc [H1 H2 H3 H4] He bits. unfold justification_outcome, bits. rewrite Hb.
  rewrite shift_bits_Ok. cbn [mbind res_bind].
  assert (get_previous_epoch s < 2 ^ 60) as Hpe by (rewrite previous_epoch_pred; lia).
  rewrite (u64_mul_id t 2), (u64_mul_id p 3), (u64_mul_id c 3) by u64_solve.
  fold (supermajority t p) (supermajority t c). unfold supermajority.
  replace (t * 2) with (2 * t) by lia. replace (p * 3) with (3 * p) by lia. replace (c * 3) with (3 * c) by lia.
  fold (supermajority t p) (supermajority t c). rewrite Hpr, Hcr.
  rewrite (u64_add_id _ 3), (u64_add_id _ 1), !(u64_add_id _ 2) by u64_solve.
  destruct (supermajority t p), (supermajority t c); cbn [mbind res_bind];
    rewrite ?set_bit_Ok by (cbn; lia); cbn [mbind res_bind insert list_insert];
    rewrite ?set_bit_Ok by (cbn; lia); cbn [mbind res_bind insert list_insert].
  all: by destruct b0, b1, b2.
Qed.

Lemma get_block_root_Ok s e :
  Z.of_nat (length (block_roots s)) = SLOTS_PER_HISTORICAL_ROOT ->
  0 <= e -> e * SLOTS_PER_EPOCH < slot s <= e * SLOTS_PER_EPOCH + SLOTS_PER_HISTORICAL_ROOT -> slot s < 2 ^ 63 ->
  exists r, get_block_root s e = Ok r.
Proof.
  intros Hl He Hs Hb. unfold get_block_root, get_block_root_at_slot, compute_start_slot_at_epoch.
  unfold SLOTS_PER_EPOCH, SLOTS_PER_HISTORICAL_ROOT in *. rewrite (u64_mul_id e 32), (u64_add_id (e * 32)) by u64_solve.
  replace ((e * 32 <? slot s) && (slot s <=? e * 32 + 8192)) with true
    by (symmetry; apply andb_true_intro; split; [apply Z.ltb_lt|apply Z.leb_le]; lia).
  cbn [ensure mbind res_bind]. destruct (lookup_lt_is_Some_2 (block_roots s) (Z.to_nat ((e * 32) mod 8192))) as [r Hr].
  - by apply mod_lt_length.
  - exists r. by apply index_Ok.
Qed.

(** ** Balances do not wrap when the supply is below [2 ^ 62]. *)

Definition supply (s : BeaconState) : Z := sumZ (effective_balance <$> validators s).

Lemma sumZ_filter_le {A} (P : A -> Prop) `{forall x, Decision (P x)} (f : A -> Z) l :
  Forall (fun a => 0 <= f a) l -> 0 <= sumZ (f <$> filter P l) <= sumZ (f <$> l).
Proof.
  induction 1 as [|a l Ha _ IH]; [done|]. rewrite filter_cons. case_decide; cbn in *; lia.
Qed.

Lemma attesting_balance_bound s flag e :
  shape s -> supply s < 2 ^ 62 -> length (participation_of s e) = length (validators s) ->
  0 <= attesting_balance s flag e < 2 ^ 62.
Proof.
  intros Hs Hb Hl. unfold attesting_balance. set (zs := zip _ _).
  assert (effective_balance ∘ fst <$> zs = effective_balance <$> validators s) as Hz.
  { rewrite list_fmap_compose. f_equal. apply fst_zip. lia. }
  pose proof (sumZ_filter_le (fun vf => participates e flag vf = true) (effective_balance ∘ fst) zs) as Hle.
  rewrite Hz in Hle. fold (supply s) in Hle.
  destruct Hle as [H0 H1].
  { apply Forall_lookup. intros i [v p] Hi. unfold zs in Hi. rewrite lookup_zip_with in Hi.
    destruct (validators s !! i) eqn:E; [|done]. destruct (participation_of s e !! i); cbn in Hi; [|done].
    simplify_eq. by apply (proj1 (Forall_lookup _ _) (sh_effective s Hs) _ _ E). }
  rewrite u64_sum_id by u64_solve. unfold EFFECTIVE_BALANCE_INCREMENT. lia.
Qed.

Lemma total_active_bound s : shape s -> supply s < 2 ^ 62 -> 0 <= total_active s < 2 ^ 62.
Proof.
  intros Hs Hb. unfold total_active, balance_where.
  pose proof (sumZ_filter_le (fun v => is_active_validator v (get_current_epoch s) = true) effective_balance
    (validators s)) as Hle. fold (supply s) in Hle. destruct Hle as [H0 H1].
  { eapply Forall_impl; [apply Hs|]. cbn. lia. }
  rewrite u64_sum_id by u64_solve. unfold EFFECTIVE_BALANCE_INCREMENT. lia.
Qed.

(** ** The step *)

(** The checkpoints after the epoch's balances were weighed. *)
Definition ffg_step (s : BeaconState) (previous_root current_root : B256) : JustificationAndFinalization :=
  let justified epoch := supermajority (total_active s) (attesting_balance s TIMELY_TARGET_FLAG_INDEX epoch) in
  let bits := ffg_bits (justification_bits s) (justified (get_previous_epoch s)) (justified (get_current_epoch s)) in
  mkJustificationAndFinalization bits (current_justified_checkpoint s)
    (if justified (get_current_epoch s) then mkCheckpoint (get_current_epoch s) current_root
     else if justified (get_previous_epoch s) then mkCheckpoint (get_previous_epoch s) previous_root
     else current_justified_checkpoint s)
    (ffg_finalized (get_current_epoch s) bits (previous_justified_checkpoint s)
       (current_justified_checkpoint s) (finalized_checkpoint s)).

(** The state at the end of an epoch after the second, with a supply that fits. *)
Record epoch_end (s : BeaconState) : Prop := mkEpochEnd {
  ee_shape : shape s;
  ee_epoch : 2 <= get_current_epoch s < 2 ^ 58;
  ee_slot : slot s = get_current_epoch s * SLOTS_PER_EPOCH + (SLOTS_PER_EPOCH - 1);
  ee_supply : supply s < 2 ^ 62;
}.

Lemma compute_justification_Ok s :
  epoch_end s -> ffg_ordered s ->
  exists pr cr, get_block_root s (get_previous_epoch s) = Ok pr /\ get_block_root s (get_current_epoch s) = Ok cr /\
    compute_justification_and_finalization s = Ok (ffg_step s pr cr).
Proof.
  intros [Hs He Hslot Hsup] Ho. pose proof (previous_epoch_pred s ltac:(lia)) as Hp.
  pose proof (sh_block_roots s Hs) as Hr. unfold SLOTS_PER_EPOCH in *.
  destruct (get_block_root_Ok s (get_previous_epoch s)) as [pr Hpr];
    [done|lia|unfold SLOTS_PER_HISTORICAL_ROOT, SLOTS_PER_EPOCH in *; lia|lia|].
  destruct (get_block_root_Ok s (get_current_epoch s)) as [cr Hcr];
    [done|lia|unfold SLOTS_PER_HISTORICAL_ROOT, SLOTS_PER_EPOCH in *; lia|lia|].
  exists pr, cr. split_and!; [done..|]. unfold compute_justification_and_finalization.
  rewrite (proj2 (Z.leb_gt _ _)) by (unfold GENESIS_EPOCH; lia).
  rewrite get_total_active_balance_Ok. cbn [mbind res_bind].
  rewrite balances_Ok by (apply Hs || lia). cbn [fst snd].
  pose proof (sh_bits s Hs) as Hb. unfold JUSTIFICATION_BITS_LENGTH in Hb.
  destruct (justification_bits s) as [|b0 [|b1 [|b2 [|b3 [|]]]]] eqn:Eb; try done.
  pose proof (total_active_bound s Hs Hsup).
  pose proof (attesting_balance_bound s TIMELY_TARGET_FLAG_INDEX (get_previous_epoch s) Hs Hsup) as H1.
  pose proof (attesting_balance_bound s TIMELY_TARGET_FLAG_INDEX (get_current_epoch s) Hs Hsup) as H2.
  unfold participation_of in H1, H2. rewrite Z.eqb_refl in H2. rewrite (proj2 (Z.eqb_neq _ _)) in H1 by lia.
  specialize (H1 (sh_previous s Hs)). specialize (H2 (sh_current s Hs)).
  rewrite (justification_outcome_Ok s _ _ _ b0 b1 b2 b3 pr cr) by (done || lia).
  by unfold ffg_step.
Qed.

Lemma ffg_finalized_cases e bits p c f :
  let x := ffg_finalized e bits p c f in x = f \/ x = p \/ x = c.
Proof.
  cbn zeta. unfold ffg_finalized. destruct bits as [|b0 [|b1 [|b2 [|b3 l]]]]; auto. repeat case_if; auto.
Qed.

Lemma ffg_step_ordered s pr cr s' :
  ffg_ordered s -> 2 <= get_current_epoch s < 2 ^ 64 ->
  s' = apply_justification_and_finalization (ffg_step s pr cr) s ->
  cp_epoch (finalized_checkpoint s) <= cp_epoch (finalized_checkpoint s') /\
  cp_epoch (finalized_checkpoint s') <= cp_epoch (previous_justified_checkpoint s') /\
  cp_epoch (previous_justified_checkpoint s') <= cp_epoch (current_justified_checkpoint s') <= get_current_epoch s.
Proof.
  intros [H1 H2 H3 H4] He ->. pose proof (previous_epoch_pred s He). cbn.
  pose proof (ffg_finalized_cases (get_current_epoch s) (jf_justification_bits (ffg_step s pr cr))
    (previous_justified_checkpoint s) (current_justified_checkpoint s) (finalized_checkpoint s)) as Hf.
  cbn in Hf. split_and!.
  1,2: destruct Hf as [->|[->| ->]]; lia.
  all: repeat case_if; cbn; lia.
Qed.
End justification.
