(* ===== verification/BeaconEpochSafety.v ===== *)
(** * The end of an epoch does not panic

    Each step of [process_epoch] keeps the shape of the state and the slot and does not
    panic; the step that draws the next sync committee needs an active validator. *)

From stdpp Require Import strings.
From S2P Require Import Prelude StateMonad Bytes Shuffling Merkle BeaconTypes BeaconAccess BeaconMutate BeaconEpoch BeaconBlockOps BeaconTransition BeaconFacts BeaconRegistry BeaconSafety BeaconParticipation BeaconJustification.

Lemma safe_bind_slot {A B} (m : BM A) (k : A -> BM B) s :
  safe_at m s ->
  (forall a s', m s = (s', Ok a) -> shape s' -> slot s' = slot s -> safe_at (k a) s') ->
  safe_at (m ≫= k) s.
Proof.
  intros Hm Hk. apply safe_bind; [done|]. intros a s' E Hs _. apply Hk; [done..|].
  pose proof (sa_slot _ _ Hm) as Ht. by rewrite E in Ht.
Qed.

(** The computation does not panic and its result satisfies [P]. *)
Definition post {E A} (r : res E A) (P : A -> Prop) : Prop := sound r /\ forall a, r = Ok a -> P a.

Lemma post_bind {E A B} (r : res E A) (k : A -> res E B) (P : A -> Prop) (Q : B -> Prop) :
  post r P -> (forall a, r = Ok a -> P a -> post (k a) Q) -> post (r ≫= k) Q.
Proof.
  intros [Hr HP] Hk. destruct r as [a| | |]; cbn; [by apply Hk; [|apply HP]|by split..].
Qed.

Lemma post_Ok {E A} (a : A) (P : A -> Prop) : P a -> post (Ok a : res E A) P.
Proof. intros Hp. split; [done|]. by intros a' [= <-]. Qed.

Lemma post_sound {E A} (r : res E A) : sound r -> post r (fun _ => True).
Proof. done. Qed.

Lemma post_mapR {E A B} (f : A -> res E B) (P : B -> Prop) l :
  (forall a, a ∈ l -> post (f a) P) -> post (mapR f l) (fun bs => length bs = length l /\ Forall P bs).
Proof.
  intros Hf. split; [apply sound_mapR; intros a Ha; by apply Hf|]. intros bs Hb%mapR_Ok.
  split; [by symmetry; eapply Forall2_length|]. apply Forall_lookup. intros i b Hi.
  destruct (Forall2_lookup_r _ _ _ _ _ Hb Hi) as (a & Ha & E1). eapply Hf; [|exact E1]. by eapply list_elem_of_lookup_2.
Qed.

Create HintDb epoch_safe.

Section epoch.
Context {H : Sha256} {HLaw : Sha256Laws H} {F : CandidateFuel} {HO : HashOrder} {HOL : HashOrderLaws HO}.
Context {SV : SszVec} {SVL : SszVecLaws SV}.

(** ** Justification *)

Lemma set_bit_sound bits i b : sound (set_bit bits i b).
Proof. apply sound_ok_or. Qed.

Lemma set_bit_length bits i b bits' : set_bit bits i b = Ok bits' -> length bits' = length bits.
Proof.
  unfold set_bit. rewrite bits_set_spec. case_if; [|done]. intros [= <-]. apply length_insert.
Qed.

Lemma weighed_post s b e bits i j :
  shape s -> length bits = 4%nat ->
  post (if b : bool then
          root ← get_block_root s e; bits ← set_bit bits i true; Ok (bits, mkCheckpoint e root)
        else Ok (bits, j)) (fun r : list bool * Checkpoint => length r.1 = 4%nat).
Proof.
  intros Hs Hl. destruct b; [|by apply post_Ok].
  eapply post_bind; [by apply post_sound, get_block_root_at_slot_sound|]. intros root _ _.
  eapply post_bind; [by split; [apply set_bit_sound|apply set_bit_length]|]. intros bits' _ Hb.
  apply post_Ok. cbn. congruence.
Qed.

Lemma all_bits_sound bits a b : length bits = 4%nat -> 0 <= a <= b -> b <= 4 -> sound (all_bits bits a b).
Proof.
  intros Hl Ha Hb. unfold all_bits, slice. rewrite Hl.
  replace ((a <=? b) && (b <=? Z.of_nat 4)) with true; [done|].
  symmetry. apply andb_true_intro. split; apply Z.leb_le; lia.
Qed.

Lemma justification_outcome_post s t p c :
  shape s -> post (justification_outcome s t p c) (fun o => length (jf_justification_bits o) = 4%nat).
Proof.
  intros Hs. unfold justification_outcome.
  pose proof (sh_bits s Hs) as Hb. unfold JUSTIFICATION_BITS_LENGTH in Hb.
  destruct (justification_bits s) as [|b0 [|b1 [|b2 [|b3 [|]]]]]; try done.
  rewrite shift_bits_Ok. cbn [mbind res_bind].
  eapply post_bind; [by apply weighed_post|]. intros [bits1 j1] _ Hl1.
  eapply post_bind; [by apply weighed_post|]. intros [bits2 j2] _ Hl2. cbn in Hl2.
  do 4 (eapply post_bind; [apply post_sound, all_bits_sound; (done || lia)|intros ? _ _]). by apply post_Ok.
Qed.

Lemma process_justification_safe : safe process_justification_and_finalization.
Proof.
  intros s Hs. unfold process_justification_and_finalization.
  assert (post (compute_justification_and_finalization s) (fun o => length (jf_justification_bits o) = 4%nat)) as [H1 H2].
  { unfold compute_justification_and_finalization. case_if; [apply post_Ok, Hs|].
    rewrite get_total_active_balance_Ok. cbn [mbind res_bind].
    destruct (get_unslashed_participating_balances s TIMELY_TARGET_FLAG_INDEX). by apply justification_outcome_post. }
  safe_step. apply H2 in H0. safe_step.
Qed.

(** ** Inactivity, rewards and penalties *)

Lemma previous_recent s : recent_epoch s (get_previous_epoch s).
Proof. by left. Qed.

Lemma participation_length s e : shape s -> length (participation_of s e) = length (validators s).
Proof. intros Hs. unfold participation_of. case_if; apply Hs. Qed.

Lemma update_score_safe i f s : shape s -> (i < length (validators s))%nat -> safe_at (update_score i f) s.
Proof.
  intros Hs Hi. unfold update_score. rewrite <-(sh_scores s Hs) in Hi. apply lookup_lt_is_Some in Hi as [x Hx].
  split; rewrite Hx; try done. destruct Hs; constructor; cbn; try done. by rewrite length_insert.
Qed.

Lemma eligible_in_registry s i : i ∈ get_eligible_validator_indices s -> in_registry s i.
Proof.
  intros (Hi & v & Hv & _)%(elem_of_kept (fun v => is_eligible_for_rewards v (get_previous_epoch s))).
  apply lookup_lt_Some in Hv. unfold in_registry. lia.
Qed.

Lemma process_inactivity_updates_safe : safe process_inactivity_updates.
Proof.
  intros s Hs. unfold process_inactivity_updates. safe_step. case_if; [safe_step|].
  pose proof (mask_Ok s TIMELY_TARGET_FLAG_INDEX _ (previous_recent s)) as Hm.
  safe_step; [by rewrite Hm|]. rewrite Hm in H1. do 2 safe_step. apply safe_forM; [done|]. intros i s1 Hi Hs1 Hl.
  assert (length (participates (get_previous_epoch s) TIMELY_TARGET_FLAG_INDEX <$>
    zip (validators s) (participation_of s (get_previous_epoch s))) = length (validators s)) as Hlen.
  { rewrite length_fmap, length_zip_with, participation_length by done. lia. }
  assert (in_registry s i) as Hr by (apply eligible_in_registry; congruence). unfold in_registry in Hr.
  simplify_eq. safe_step; [apply sound_index; cbn [fst]; lia|].
  apply safe_bind; [apply update_score_safe; [done|lia]|]. intros [] s2 _ Hs2 Hl2.
  case_if; [apply update_score_safe; [done|lia]|safe_step].
Qed.

Definition rewards_shape (n : nat) (er : EpochRewards) : Prop :=
  length (er_flags er) = 3%nat /\ Forall (fun f => length f.1 = n) (er_flags er) /\
  0 < er_active_increments er < 2 ^ 56.

Lemma epoch_rewards_post s : shape s -> post (epoch_rewards s) (rewards_shape (length (validators s))).
Proof.
  intros Hs. unfold epoch_rewards. eapply post_bind.
  { apply (post_mapR _ (fun f : list bool * Z => length f.1 = length (validators s))). intros flag _.
    rewrite mask_Ok by by left. apply post_Ok. cbn.
    rewrite length_fmap, length_zip_with, participation_length by done. lia. }
  intros flags _ [Hl Hf]. rewrite get_base_reward_per_increment_Ok, get_total_active_balance_Ok. apply post_Ok.
  split_and!; [done..| |]; cbn; pose proof (total_active_bounds s) as Ht; unfold EFFECTIVE_BALANCE_INCREMENT in *.
  - apply Z.div_str_pos. lia.
  - apply Z.div_lt_upper_bound; lia.
Qed.

Lemma flag_index_delta_sound s er n i k :
  shape s -> rewards_shape n er -> (i < n <= length (validators s))%nat -> (k < 3)%nat ->
  sound (flag_index_delta s er i k).
Proof.
  intros Hs (H1 & H2 & H3) Hi Hk. unfold flag_index_delta, get_base_reward.
  apply sound_bind; [apply sound_bind; [apply sound_index; lia|done]|]. intros base _.
  apply sound_bind; [by apply sound_index|]. intros w _.
  apply sound_bind; [apply sound_index; lia|]. intros [f inc] Hf%index_Ok.
  apply (Forall_lookup_1 _ _ _ _ H2) in Hf. cbn in Hf.
  apply sound_bind; [apply sound_index; lia|]. intros b _. destruct b; [|by case_if]. case_if; [done|].
  apply sound_bind; [|done]. apply sound_u64_div. unfold WEIGHT_DENOMINATOR. u64_simpl. lia.
Qed.

Lemma inactivity_penalty_sound s er n i :
  shape s -> rewards_shape n er -> (i < n <= length (validators s))%nat ->
  sound (inactivity_penalty s er i).
Proof.
  intros Hs (H1 & H2 & H3) Hi. unfold inactivity_penalty.
  apply sound_bind; [apply sound_index; rewrite H1; unfold TIMELY_TARGET_FLAG_INDEX; lia|]. intros [f inc] Hf%index_Ok.
  apply (Forall_lookup_1 _ _ _ _ H2) in Hf. cbn in Hf.
  apply sound_bind; [apply sound_index; cbn; lia|]. intros b _. destruct b; [done|].
  apply sound_bind; [apply sound_index; lia|]. intros v _.
  apply sound_bind; [apply sound_index; rewrite (sh_scores s Hs); lia|done].
Qed.

Lemma update_balance_safe i f s : shape s -> (i < length (validators s))%nat -> safe_at (update_balance i f) s.
Proof.
  intros Hs Hi. unfold update_balance. rewrite <-(sh_balances s Hs) in Hi. apply lookup_lt_is_Some in Hi as [x Hx].
  split; rewrite Hx; try done. apply shape_balances; [done|apply length_insert].
Qed.
Lemma reward_validator_safe er e n i s :
  shape s -> rewards_shape n er -> (i < n <= length (validators s))%nat -> safe_at (reward_validator er e i) s.
Proof.
  intros Hs He Hi. unfold reward_validator. safe_step; [apply sound_index; lia|]. case_if; [safe_step|].
  apply safe_bind.
  - apply safe_forM; [done|]. intros k s1 Hk%elem_of_seq Hs1 Hl. change (length PARTICIPATION_FLAG_WEIGHTS) with 3%nat in Hk.
    safe_step; [apply (flag_index_delta_sound _ _ n); (done || lia)|]. apply update_balance_safe; [done|lia].
  - intros [] s1 _ Hs1 Hl. safe_step; [apply (inactivity_penalty_sound _ _ n); (done || lia)|].
    apply update_balance_safe; [done|lia].
Qed.

Lemma process_rewards_and_penalties_safe : safe process_rewards_and_penalties.
Proof.
  intros s Hs. unfold process_rewards_and_penalties. safe_step. case_if; [safe_step|].
  destruct (epoch_rewards_post s Hs) as [He Hp]. do 4 safe_step.
  apply safe_forM; [done|]. intros i s1 Hi%elem_of_seq Hs1 Hl.
  apply (reward_validator_safe _ _ (length (validators s))); [done|by apply Hp|]. simplify_eq. lia.
Qed.

(** ** The registry and slashings *)

Lemma process_registry_updates_safe : safe process_registry_updates.
Proof.
  intros s Hs. unfold process_registry_updates. safe_step. safe_step. safe_step.
  assert (forall x i, i ∈ select_action x a1 -> (i < length (validators s))%nat) as Hin.
  { intros x i ([k y] & Hk & E)%list_elem_of_omap. simplify_eq. apply elem_of_enumerate in Hk.
    rewrite list_lookup_fmap in Hk. destruct (validators s !! k) eqn:Ev; [|done]. apply lookup_lt_Some in Ev.
    destruct x, y; cbn in E; by simplify_eq. }
  apply safe_bind.
  { apply safe_forM; [done|]. intros i s1 Hi%Hin Hs1 Hl. apply update_validator_safe; [done|lia|done]. }
  intros [] s1 _ Hs1 Hl1. apply safe_bind.
  { apply safe_forM; [done|]. intros i s2 Hi%Hin Hs2 Hl. apply update_validator_safe; [done|lia|done]. }
  intros [] s2 _ Hs2 _. apply safe_forM'; [|done]. intros i _. apply initiate_validator_exit_safe.
Qed.

Lemma process_slashings_safe : safe process_slashings.
Proof.
  intros s Hs. unfold process_slashings. safe_step.
  safe_step; [by rewrite get_total_active_balance_Ok|]. rewrite get_total_active_balance_Ok in H1.
  do 2 safe_step.
  { apply sound_u64_div. pose proof (total_active_bounds s) as Ht. simplify_eq. unfold EFFECTIVE_BALANCE_INCREMENT in *.
    assert (0 < total_active s / 1000000000) by (apply Z.div_str_pos; lia). lia. }
  safe_step. apply safe_forM'; [|done]. intros i _ s1 Hs1. safe_step.
  case_if; [by apply decrease_balance_safe|safe_step].
Qed.

Lemma process_eth1_data_reset_safe : safe process_eth1_data_reset.
Proof. intros s Hs. unfold process_eth1_data_reset. split; cbn; [case_if; [shape_set|done]|by case_if|by case_if|done]. Qed.

(** ** Pending deposits and consolidations *)

Context {R : Roots} {B : Bls} {BT : BlsTotal B} {N : BeaconNetworkSpec}.

Lemma apply_pending_deposit_safe d o : safe (apply_pending_deposit_to d o).
Proof.
  intros s Hs. destruct o as [i|]; cbn [apply_pending_deposit_to].
  - apply safe_seq; [done|apply increase_balance_safe|]. intros _ s1 Hs1. safe_step.
  - safe_step.
    { unfold is_valid_deposit_signature. pose proof (bls_verify_returns (pd_signature d) (pd_public_key d)
        (compute_signing_root (mkDepositMessage (pd_public_key d) (pd_withdrawal_credentials d) (pd_amount d))
          (compute_domain DOMAIN_DEPOSIT (Some genesis_fork_version) None))) as Hr.
      by destruct (bls_verify _ _ _). }
    case_if; [safe_step|]. apply safe_seq; [done|by intros s1 Hs1; apply add_validator_safe|].
    intros [] s1 Hs1. safe_step.
Qed.

Lemma deposit_loop_safe e a stop ds l : safe (deposit_loop e a stop ds l).
Proof.
  revert l. induction ds as [|d ds IH]; intros l s Hs; cbn [deposit_loop]; [safe_step|].
  case_if; [safe_step|]. case_if; [safe_step|]. safe_step. destruct a0 as [exited withdrawn].
  destruct withdrawn; [apply safe_seq; [done|apply apply_pending_deposit_safe|intros _; apply IH]|].
  destruct exited; [by apply IH|]. case_if; [safe_step|].
  apply safe_seq; [done|apply apply_pending_deposit_safe|]. intros added. apply IH.
Qed.

Lemma process_pending_deposits_safe : safe process_pending_deposits.
Proof.
  intros s Hs. unfold process_pending_deposits. safe_step.
  destruct (get_activation_exit_churn_limit_Ok s) as [Hc _]. safe_step; [by rewrite Hc|]. do 5 safe_step.
  apply safe_seq; [done|apply deposit_loop_safe|]. intros l s1 Hs1. do 2 safe_step.
  apply safe_seq; [done|apply safe_forM'; intros; apply push_pending_deposit_safe|].
  intros [] s2 Hs2. safe_step.
Qed.

Lemma consolidation_loop_safe e cs n : safe (consolidation_loop e cs n).
Proof.
  revert n. induction cs as [|c cs IH]; intros n s Hs; cbn [consolidation_loop]; [safe_step|].
  safe_step. case_if; [by apply IH|]. case_if; [safe_step|]. safe_step.
  apply safe_seq; [done|apply decrease_balance_safe|]. intros _ s1 Hs1.
  apply safe_seq; [done|apply increase_balance_safe|]. intros _. apply IH.
Qed.

Lemma process_pending_consolidations_safe : safe process_pending_consolidations.
Proof.
  intros s Hs. unfold process_pending_consolidations. do 2 safe_step.
  apply safe_seq; [done|apply consolidation_loop_safe|]. intros n s1 Hs1. do 2 safe_step.
  apply safe_forM'; [|done]. intros c _ s2 Hs2. unfold push_to.
  split; destruct (vl_push _ _ _); cbn; try done. shape_set.
Qed.

(** ** Effective balances and the rotating vectors *)

Lemma effective_balance_update_bound v b x :
  effective_balance_update v b = Some x -> 0 <= x <= MAX_EFFECTIVE_BALANCE_ELECTRA.
Proof.
  unfold effective_balance_update. case_if; [|done]. intros [= <-].
  assert (0 <= (b - b mod EFFECTIVE_BALANCE_INCREMENT)%u64) by (apply Z.mod_pos_bound; lia).
  assert (0 <= get_max_effective_balance v <= MAX_EFFECTIVE_BALANCE_ELECTRA)
    by (unfold get_max_effective_balance; case_if; done). lia.
Qed.

Lemma process_effective_balance_updates_safe : safe process_effective_balance_updates.
Proof.
  intros s Hs. unfold process_effective_balance_updates. safe_step. apply safe_forM; [done|].
  intros [i x] s1 Hi Hs1 Hl. simplify_eq. apply list_elem_of_omap in Hi as ([k [v b]] & Hk & E).
  cbn in E. destruct (effective_balance_update v b) as [y|] eqn:Ey; [|done]. cbn in E. simplify_eq.
  apply elem_of_enumerate, lookup_lt_Some in Hk. rewrite length_zip_with in Hk.
  apply update_validator_safe; [done|cbn; lia|]. intros w _. cbn. by apply effective_balance_update_bound in Ey.
Qed.

Lemma process_slashings_reset_safe : safe process_slashings_reset.
Proof.
  intros s Hs. unfold process_slashings_reset. safe_step. pose proof (sh_slashings s Hs) as Hl. simplify_eq.
  safe_step; [apply sound_set_index, mod_lt_length; done|]. apply set_index_Ok in H0 as [_ ->].
  safe_step. destruct Hs; constructor; cbn; try done. by rewrite length_insert.
Qed.

Lemma process_randao_mixes_reset_safe : safe process_randao_mixes_reset.
Proof.
  intros s Hs. unfold process_randao_mixes_reset. safe_step. safe_step; [by apply get_randao_mix_sound|].
  pose proof (sh_mixes s Hs) as Hl. safe_step; [apply sound_set_index, mod_lt_length; done|].
  apply set_index_Ok in H2 as [_ ->]. apply index_Ok in H1. pose proof (Forall_lookup_1 _ _ _ _ (sh_mix s Hs) H1).
  safe_step. destruct Hs; constructor; cbn; try done; [by rewrite length_insert|by apply Forall_insert].
Qed.

Lemma process_historical_summaries_update_safe : safe process_historical_summaries_update.
Proof.
  intros s Hs. unfold process_historical_summaries_update. safe_step. case_if; [|safe_step]. safe_step.
  unfold push_to. split; destruct (vl_push _ _ _); cbn; try done. shape_set.
Qed.

Lemma process_participation_flag_updates_safe : safe process_participation_flag_updates.
Proof.
  intros s Hs. unfold process_participation_flag_updates. safe_step.
  safe_step. rewrite vl_try_from_spec in H1. case_if; [|done]. cbn in H1. simplify_eq. safe_step.
  destruct Hs; constructor; cbn; try done. by rewrite length_replicate.
Qed.

(** ** Sync committees and proposers *)

Lemma sync_committee_loop_post fuel s indices seed i acc :
  indices <> [] -> Z.of_nat (length indices) <= 2 ^ 40 -> Forall (in_registry s) indices ->
  Forall (in_registry s) acc ->
  post (sync_committee_loop fuel s indices seed i acc) (Forall (in_registry s)).
Proof.
  intros Hne Hn Hr. revert i acc. induction fuel as [|fuel IH]; intros i acc Ha; cbn [sync_committee_loop];
    (case_if; [|by apply post_Ok]); [by split|].
  destruct (candidate_index_sound indices seed i Hne Hn) as (r & -> & k & c & Hk & Hc & Hin).
  cbn [mbind res_bind]. rewrite Hk. cbn [mbind res_bind]. rewrite Hc. cbn [mbind res_bind].
  assert (in_registry s c) as Hcr by by apply (proj1 (Forall_forall _ _) Hr).
  eapply post_bind; [by apply post_sound, candidate_accepted_sound|]. intros accepted _ _. apply IH.
  case_if; [|done]. apply Forall_app. by split; [|constructor].
Qed.

Lemma get_next_sync_committee_sound s :
  shape s -> get_active_validator_indices s (get_current_epoch s + 1)%u64 <> [] ->
  sound (get_next_sync_committee s).
Proof.
  intros Hs Hne. unfold get_next_sync_committee, get_next_sync_committee_indices.
  assert (forall seed, post (sync_committee_loop candidate_fuel s
    (get_active_validator_indices s (get_current_epoch s + 1)%u64) seed 0 []) (Forall (in_registry s))) as Hp.
  { intros seed. apply sync_committee_loop_post; [done|by apply active_length|apply active_in_registry|constructor]. }
  eapply (post_bind _ _ (Forall (in_registry s)) (fun _ => True)).
  { eapply post_bind; [by apply post_sound, get_seed_sound|]. intros seed _ _. apply Hp. }
  intros l _ Hl. apply post_sound. apply sound_bind.
  { apply sound_mapR. intros i Hi. apply sound_bind; [|done]. apply sound_index.
    apply (proj1 (Forall_forall _ _) Hl) in Hi. unfold in_registry in Hi. lia. }
  intros ks _. apply sound_bind; [|intros k _; apply sound_bind; [apply sound_ok_or|done]].
  apply sound_bind; [apply sound_ensure|]. intros _ _. apply returns_sound, aggregate_returns.
Qed.

(** The committee is drawn in the last epoch of a period, when a validator must be active
    in the next one. *)
Definition sync_committee_drawable (s : BeaconState) : Prop :=
  is_multiple_of (get_current_epoch s + 1)%u64 EPOCHS_PER_SYNC_COMMITTEE_PERIOD = true ->
  get_active_validator_indices s (get_current_epoch s + 1)%u64 <> [].

Lemma process_sync_committee_updates_safe s :
  shape s -> sync_committee_drawable s -> safe_at process_sync_committee_updates s.
Proof.
  intros Hs Hd. unfold process_sync_committee_updates. safe_step. simplify_eq. case_if; [|safe_step].
  safe_step. safe_step; [|safe_step]. apply get_next_sync_committee_sound; [done|]. by apply Hd.
Qed.

Lemma proposer_indices_post s e :
  shape s -> post (get_beacon_proposer_indices s e) (fun l => length l = 32%nat /\ Forall (in_registry s) l).
Proof.
  intros Hs. unfold get_beacon_proposer_indices, compute_proposer_indices.
  eapply post_bind; [by apply post_sound, get_seed_sound|]. intros seed _ _.
  eapply post_bind.
  { apply (post_mapR _ (in_registry s)). intros i _.
    destruct (compute_proposer_index_sound s (get_active_validator_indices s e)
      (hash (seed ++ le_bytes 8 (compute_start_slot_at_epoch e + i)%u64))) as [H1 H2];
      [by apply active_length|apply active_in_registry|].
    split; [done|]. intros p Hp%H2. by apply (proj1 (Forall_forall _ _) (active_in_registry s e)). }
  intros l _ [Hl Hr]. rewrite fv_new_spec. case_if; [|done]. by apply post_Ok.
Qed.

Lemma process_proposer_lookahead_safe : safe process_proposer_lookahead.
Proof.
  intros s Hs. unfold process_proposer_lookahead.
  set (r := fun s => _ ≫= _).
  assert (post (r s) (fun l => length l = 64%nat /\ Forall (in_registry s) l)) as [H1 H2].
  { unfold r, slice. rewrite (sh_lookahead s Hs).
    change ((SLOTS_PER_EPOCH <=? Z.of_nat 64) && (Z.of_nat 64 <=? Z.of_nat 64)) with true. cbn [mbind res_bind].
    eapply post_bind; [by apply proposer_indices_post|]. intros l _ [Hl Hr]. rewrite fv_new_spec.
    case_if; [|done]. cbn. apply post_Ok. b2p. split; [lia|]. apply Forall_app. split; [|done].
    apply Forall_take, Forall_drop, Hs. }
  safe_step. apply H2 in H0 as [Hl Hr]. safe_step.
Qed.

(** ** The whole epoch *)

#[local] Hint Resolve process_justification_safe process_inactivity_updates_safe
  process_rewards_and_penalties_safe process_registry_updates_safe process_slashings_safe
  process_eth1_data_reset_safe process_pending_deposits_safe process_pending_consolidations_safe
  process_effective_balance_updates_safe process_slashings_reset_safe process_randao_mixes_reset_safe
  process_historical_summaries_update_safe process_participation_flag_updates_safe
  process_sync_committee_updates_safe : epoch_safe.

Lemma process_epoch_safe s :
  shape s ->
  (is_multiple_of (get_current_epoch s + 1)%u64 EPOCHS_PER_SYNC_COMMITTEE_PERIOD = false) ->
  safe_at process_epoch s.
Proof.
  intros Hs Hd. unfold process_epoch.
  assert (forall s', slot s' = slot s -> sync_committee_drawable s') as Hsync.
  { intros s' Ht. unfold sync_committee_drawable, get_current_epoch. rewrite Ht.
    unfold get_current_epoch in Hd. by rewrite Hd. }
  clear Hd.
  do 14 (apply safe_bind_slot; [solve [auto with epoch_safe]|intros ? ? _ ? Ht; rewrite <-Ht in Hsync; clear Ht]).
  by apply process_proposer_lookahead_safe.
Qed.

(** ** Slots *)

Lemma process_slot_safe root : safe (process_slot_with_root root).
Proof.
  intros s Hs. unfold process_slot_with_root. safe_step.
  safe_step; [apply sound_set_index, mod_lt_length; [apply Hs|done]|]. apply set_index_Ok in H1 as [_ ->].
  safe_step. { destruct Hs; constructor; cbn; try done. by rewrite length_insert. }
  apply safe_bind.
  { split; cbn; [case_bool_decide; [shape_set|done]|by case_bool_decide|by case_bool_decide|done]. }
  intros [] s1 _ Hs1 _. safe_step; [apply sound_set_index, mod_lt_length; [apply Hs1|done]|].
  apply set_index_Ok in H2 as [_ ->]. safe_step. destruct Hs1; constructor; cbn; try done. by rewrite length_insert.
Qed.

(** No sync-committee period begins after slot [a] and by slot [b]. *)
Definition same_period (a b : Z) : Prop :=
  forall e, compute_epoch_at_slot a < e <= compute_epoch_at_slot b ->
    is_multiple_of e EPOCHS_PER_SYNC_COMMITTEE_PERIOD = false.

Lemma next_epoch_of s :
  0 <= slot s < 2 ^ 64 - 1 -> is_multiple_of (slot s + 1)%u64 SLOTS_PER_EPOCH = true ->
  (get_current_epoch s + 1)%u64 = compute_epoch_at_slot (slot s + 1) /\
  compute_epoch_at_slot (slot s) < compute_epoch_at_slot (slot s + 1).
Proof.
  intros Hs Hm. unfold is_multiple_of, get_current_epoch, compute_epoch_at_slot, SLOTS_PER_EPOCH in *.
  rewrite u64_add_id in Hm by u64_solve. apply Z.eqb_eq, Z.mod_divide in Hm as [k Hk]; [|done].
  replace (slot s) with (k * 32 - 1) in * by lia.
  assert ((k * 32 - 1) / 32 = k - 1) as -> by (symmetry; apply (Z.div_unique _ _ _ 31); lia).
  assert ((k * 32 - 1 + 1) / 32 = k) as -> by (symmetry; apply (Z.div_unique _ _ _ 0); lia).
  rewrite u64_add_id by u64_solve. lia.
Qed.

Lemma slots_loop_safe fuel target root s :
  shape s -> 0 <= slot s <= target -> target < 2 ^ 64 -> same_period (slot s) target ->
  target - slot s <= Z.of_nat fuel ->
  let '(s', r) := slots_loop fuel target root s in
  shape s' /\ sound r /\ (r = Ok tt -> slot s' = target).
Proof.
  revert root s. induction fuel as [|fuel IH]; intros root s Hs Hslot Ht Hp Hf; cbn [slots_loop].
  { rewrite (proj2 (Z.ltb_ge _ _)) by lia. split_and!; [done..|]. intros _. lia. }
  destruct (slot s <? target) eqn:El; b2p; [|split_and!; [done..|]; intros _; lia].
  set (m := (if is_multiple_of (slot s + 1)%u64 SLOTS_PER_EPOCH then process_epoch else mret tt) : BM unit).
  destruct (process_slot_safe root s Hs) as [A1 A2 A3 A4].
  rewrite bindM_match. destruct (process_slot_with_root root s) as [s1 [[]| | |]]; cbn in A1, A2, A4;
    [|split_and!; done..].
  cbv beta iota. rewrite bindM_match. unfold reads. cbv beta iota. rewrite A2. fold m.
  assert (safe_at m s1) as [B1 B2 B3 B4].
  { unfold m. destruct (is_multiple_of _ _) eqn:Em; [|by apply safe_ret].
    apply process_epoch_safe; [done|]. destruct (next_epoch_of s) as [E1 E2]; [lia|done|].
    unfold get_current_epoch in *. rewrite A2, E1. apply Hp. split; [done|].
    apply Z.div_le_mono; [done|lia]. }
  rewrite bindM_match. destruct (m s1) as [s2 [[]| | |]]; cbn in B1, B2, B4; [|split_and!; done..].
  cbv beta iota. rewrite bindM_match. unfold modify. cbv beta iota. rewrite B2, A2. rewrite (u64_add_id (slot s)) by u64_solve.
  apply IH; cbn; [by destruct B1|lia|done| |lia].
  intros e [H1 H2]. apply Hp. split; [|done]. eapply Z.le_lt_trans; [|exact H1]. apply Z.div_le_mono; [done|lia].
Qed.

Lemma process_slots_safe target root s :
  shape s -> 0 <= slot s -> target < 2 ^ 64 -> same_period (slot s) target ->
  let '(s', r) := process_slots_from_root target root s in
  shape s' /\ sound r /\ (r = Ok tt -> slot s' = target).
Proof.
  intros Hs H0 Ht Hp. unfold process_slots_from_root, ensureM. rewrite bindM_match. unfold reads, ensure.
  destruct (slot s <? target) eqn:El; [|done]. b2p. cbv beta iota. rewrite bindM_match. cbv beta iota.
  apply slots_loop_safe; (done || lia).
Qed.

(** ** A signed block on top of a state *)

Lemma state_transition_safe block v e root s :
  engine_sound e -> shape s -> 0 <= slot s -> b_slot (sb_message block) < 2 ^ 64 ->
  same_period (slot s) (b_slot (sb_message block)) ->
  let '(s', r) := state_transition_from_root block v e root s in
  shape s' /\ sound r /\ (r = Ok tt -> slot s' = b_slot (sb_message block)).
Proof.
  intros He Hs H0 Hb Hp. unfold state_transition_from_root.
  pose proof (process_slots_safe (b_slot (sb_message block)) root s Hs H0 Hb Hp) as H1.
  rewrite bindM_match. destruct (process_slots_from_root _ root s) as [s1 [[]| | |]];
    destruct H1 as (A1 & A2 & A3); [|split_and!; done..].
  destruct (process_signed_block_safe block v e He s1 A1) as [B1 B2 B3 B4].
  destruct (process_signed_block block v e s1) as [s2 r]. cbn in *. split_and!; [done..|]. intros _.
  rewrite B2. by apply A3.
Qed.
End epoch.
