(* ===== verification/BeaconFrame.v ===== *)
(** * What the state transition never undoes

    A slashed validator stays slashed, an exit once scheduled is not moved, and keys do
    not change: every operation of a block and every step of an epoch only moves the
    registry forward in this order.  All but the justification step leave the slot and
    the checkpoints alone. *)

From stdpp Require Import strings.
From S2P Require Import Prelude StateMonad Bytes Shuffling Merkle BeaconTypes BeaconAccess BeaconMutate BeaconEpoch BeaconBlockOps BeaconTransition BeaconFacts BeaconRegistry BeaconSafety BeaconParticipation BeaconJustification BeaconEpochSafety.

(** ** Moving forward *)

Record v_evolves (v v' : Validator) : Prop := mkVEvolves {
  ve_key : public_key v' = public_key v;
  ve_slashed : slashed v = true -> slashed v' = true;
  ve_exit : exit_epoch v <> FAR_FUTURE_EPOCH -> exit_epoch v' = exit_epoch v;
}.

Definition registry_evolves (l l' : list Validator) : Prop :=
  forall i v, l !! i = Some v -> exists v', l' !! i = Some v' /\ v_evolves v v'.

Definition ffg_view (s : BeaconState) : Z * list bool * Checkpoint * Checkpoint * Checkpoint :=
  (slot s, justification_bits s, previous_justified_checkpoint s, current_justified_checkpoint s,
   finalized_checkpoint s).

Definition evolves (s s' : BeaconState) : Prop :=
  ffg_view s' = ffg_view s /\ registry_evolves (validators s) (validators s').

#[global] Instance v_evolves_preorder : PreOrder v_evolves.
Proof.
  split; [by intros v|]. intros v1 v2 v3 [H1 H2 H3] [H4 H5 H6]. split; [congruence|auto|].
  intros Hv. rewrite H6; rewrite H3; done.
Qed.

#[global] Instance registry_evolves_preorder : PreOrder registry_evolves.
Proof.
  split; [by intros l i v Hv; exists v|]. intros l1 l2 l3 H12 H23 i v Hv.
  destruct (H12 i v Hv) as (v2 & Hv2 & E2). destruct (H23 i v2 Hv2) as (v3 & Hv3 & E3).
  exists v3. split; [done|]. by transitivity v2.
Qed.

#[global] Instance evolves_preorder : PreOrder evolves.
Proof.
  split; [by intros s|]. intros s1 s2 s3 [H1 H2] [H3 H4]. split; [congruence|]. by transitivity (validators s2).
Qed.

Lemma evolves_frame s s' : ffg_view s' = ffg_view s -> validators s' = validators s -> evolves s s'.
Proof. intros H1 H2. split; [done|]. by rewrite H2. Qed.

Lemma registry_evolves_insert l i v v' :
  l !! i = Some v -> v_evolves v v' -> registry_evolves l (<[i := v']> l).
Proof.
  intros Hv He j w Hw. destruct (decide (i = j)) as [->|Hne].
  - simplify_eq. exists v'. split; [|done]. apply list_lookup_insert_eq. by eapply lookup_lt_Some.
  - exists w. by rewrite list_lookup_insert_ne.
Qed.

Lemma registry_evolves_app l l' : registry_evolves l (l ++ l').
Proof. intros i v Hv. exists v. split; [by apply lookup_app_l_Some|done]. Qed.

(** ** Computations *)

Definition moves_at {A} (m : BM A) (s : BeaconState) : Prop := evolves s (m s).1.
Definition moves {A} (m : BM A) : Prop := forall s, moves_at m s.

Lemma moves_at_bind {A B} (m : BM A) (k : A -> BM B) s :
  moves_at m s -> (forall a s', m s = (s', Ok a) -> moves_at (k a) s') -> moves_at (m ≫= k) s.
Proof.
  unfold moves_at. intros Hm Hk. unfold mbind, M_bind. destruct (m s) as [s' [a| | |]]; cbn in *; try done.
  transitivity s'; [done|]. by apply Hk.
Qed.

Lemma moves_bind {A B} (m : BM A) (k : A -> BM B) : moves m -> (forall a, moves (k a)) -> moves (m ≫= k).
Proof. intros Hm Hk s. apply moves_at_bind; [apply Hm|]. intros a s' _. apply Hk. Qed.

Lemma moves_reads {A} (f : BeaconState -> res anyhow A) : moves (reads f).
Proof. by intros s. Qed.

Lemma moves_lift {A} (r : res anyhow A) : moves (lift r).
Proof. by intros s. Qed.

Lemma moves_ret {A} (a : A) : moves (mret a).
Proof. by intros s. Qed.

Lemma moves_modify (f : BeaconState -> BeaconState) : (forall s, evolves s (f s)) -> moves (modify f).
Proof. intros Hf s. apply Hf. Qed.

Lemma moves_guard b k : moves k -> moves (guard_return b k).
Proof. destruct b; [done|]. intros _. apply moves_ret. Qed.

Lemma moves_forM {A} (l : list A) (f : A -> BM unit) : (forall a, moves (f a)) -> moves (forM l f).
Proof.
  intros Hf. induction l as [|a l IH]; cbn [forM]; [apply moves_ret|]. apply moves_bind; [apply Hf|done].
Qed.

Lemma moves_push_to {A} push get (set : list A -> BeaconState -> BeaconState) a err :
  (forall l s, evolves s (set l s)) -> moves (push_to push get set a err).
Proof. intros Hs s. unfold moves_at, push_to. destruct (push (get s) a); cbn; [apply Hs|done]. Qed.

Lemma update_validator_moves_at i f s :
  (forall v, validators s !! i = Some v -> v_evolves v (f v)) -> moves_at (update_validator i f) s.
Proof.
  intros Hf. unfold moves_at, update_validator. destruct (validators s !! i) as [v|] eqn:E; cbn; [|done].
  split; [done|]. cbn. eapply registry_evolves_insert; [done|]. by apply Hf.
Qed.

Lemma moves_at_guard b k s : (b = true -> moves_at k s) -> moves_at (guard_return b k) s.
Proof. intros Hk. destruct b; [by apply Hk|apply moves_ret]. Qed.

Ltac moves_at_reads := apply moves_at_bind; [apply moves_reads|intros ? ? [= <- _]].

Create HintDb moves.

Ltac frame := intros; repeat case_match; by apply evolves_frame.

(** Follow the computation; what is left are calls the hints do not know. *)
Ltac moves_step :=
  lazymatch goal with
  | |- moves (mret _) => apply moves_ret
  | |- moves (reads _) => apply moves_reads
  | |- moves (ensureM _ _) => apply moves_reads
  | |- moves (lift _) => apply moves_lift
  | |- moves (modify _) => apply moves_modify; solve [frame]
  | |- moves (push_to _ _ _ _ _) => apply moves_push_to; solve [frame]
  | |- moves (update_validator _ _) => intros ?; apply update_validator_moves_at; intros; by split
  | |- moves (guard_return _ _) => apply moves_guard
  | |- moves (forM _ _) => apply moves_forM; intros ?
  | |- moves (_ ≫= _) => apply moves_bind; [|intros ?]
  | |- moves (match _ with _ => _ end) => case_match
  | |- moves (let _ := _ in _) => cbv zeta
  | |- moves _ => solve [auto with moves]
  end.
Ltac moves_solve := repeat moves_step.

Section frame.
Context {H : Sha256} {F : CandidateFuel} {HO : HashOrder} {SV : SszVec}.

Lemma increase_balance_moves i d : moves (increase_balance i d).
Proof. intros s. unfold moves_at, increase_balance. case_match; [|done]. by apply evolves_frame. Qed.

Lemma decrease_balance_moves i d : moves (decrease_balance i d).
Proof. intros s. unfold moves_at, decrease_balance. case_match; [|done]. by apply evolves_frame. Qed.

Lemma compute_exit_epoch_moves b : moves (compute_exit_epoch_and_update_churn b).
Proof. unfold compute_exit_epoch_and_update_churn. moves_solve. Qed.

Lemma compute_consolidation_epoch_moves b : moves (compute_consolidation_epoch_and_update_churn b).
Proof. unfold compute_consolidation_epoch_and_update_churn. moves_solve. Qed.

(** Computing an exit epoch leaves the registry alone. *)
Lemma compute_exit_epoch_validators b s s' e :
  compute_exit_epoch_and_update_churn b s = (s', Ok e) -> validators s' = validators s.
Proof.
  unfold compute_exit_epoch_and_update_churn. rewrite bindM_Ok. intros (s1 & per & [= <- _] & E).
  rewrite bindM_reads in E. destruct (consume_churn _ _ _ _ _) as [[x y]| | |]; [|done..].
  rewrite !bindM_modify in E. by injection E as <- _.
Qed.

Lemma compute_consolidation_epoch_validators b s s' e :
  compute_consolidation_epoch_and_update_churn b s = (s', Ok e) -> validators s' = validators s.
Proof.
  unfold compute_consolidation_epoch_and_update_churn. rewrite bindM_Ok. intros (s1 & per & [= <- _] & E).
  rewrite bindM_reads in E. destruct (consume_churn _ _ _ _ _) as [[x y]| | |]; [|done..].
  rewrite !bindM_modify in E. by injection E as <- _.
Qed.

Lemma initiate_validator_exit_moves i : moves (initiate_validator_exit i).
Proof.
  intros s. unfold initiate_validator_exit. apply moves_at_bind; [apply moves_reads|].
  intros v s' E. injection E as <- E. case_if; [by apply moves_ret|].
  apply moves_at_bind; [apply compute_exit_epoch_moves|]. intros e s1 E1%compute_exit_epoch_validators.
  apply moves_at_bind; [apply moves_reads|]. intros v1 s2 [= <- _].
  apply moves_at_bind.
  - apply update_validator_moves_at. intros w Hw. rewrite E1 in Hw. apply ok_or_Ok in E. simplify_eq.
    split; [done..|]. intros Hx. b2p. done.
  - intros [] s3 _. revert s3. change (moves (w ← lift (ok_or (u64_checked_add e MIN_VALIDATOR_WITHDRAWABILITY_DELAY)
      "Failed to set withdrawable epoch"%string); update_validator (Z.to_nat i) (set_withdrawable_epoch w))).
    moves_solve.
Qed.

Hint Resolve increase_balance_moves decrease_balance_moves compute_exit_epoch_moves
  compute_consolidation_epoch_moves initiate_validator_exit_moves : moves.

Lemma slash_validator_moves i w : moves (slash_validator i w).
Proof. unfold slash_validator. moves_solve. Qed.

Lemma add_validator_moves pk c amount : moves (add_validator_to_registry pk c amount).
Proof.
  unfold add_validator_to_registry. apply moves_bind; [|intros _; moves_solve].
  intros s. unfold moves_at, push_to, cl_push. case_if; cbn; [done|]. split; [done|]. apply registry_evolves_app.
Qed.

Lemma push_pending_deposit_moves d err : moves (push_pending_deposit d err).
Proof. unfold push_pending_deposit. moves_solve. Qed.

Hint Resolve slash_validator_moves add_validator_moves push_pending_deposit_moves : moves.

Context {R : Roots} {B : Bls} {N : BeaconNetworkSpec}.

Lemma apply_pending_deposit_moves d o : moves (apply_pending_deposit_to d o).
Proof. unfold apply_pending_deposit_to. moves_solve. Qed.

Hint Resolve apply_pending_deposit_moves : moves.

(** ** Steps of an epoch *)

Lemma update_score_moves i f : moves (update_score i f).
Proof. intros s. unfold moves_at, update_score. case_match; [|done]. by apply evolves_frame. Qed.

Lemma update_balance_moves i f : moves (update_balance i f).
Proof. intros s. unfold moves_at, update_balance. case_match; [|done]. by apply evolves_frame. Qed.

Hint Resolve update_score_moves update_balance_moves : moves.

Lemma process_inactivity_updates_moves : moves process_inactivity_updates.
Proof. unfold process_inactivity_updates. moves_solve. Qed.

Lemma process_rewards_and_penalties_moves : moves process_rewards_and_penalties.
Proof. unfold process_rewards_and_penalties, reward_validator. moves_solve. Qed.

Lemma process_registry_updates_moves : moves process_registry_updates.
Proof. unfold process_registry_updates. moves_solve. Qed.

Lemma process_slashings_moves : moves process_slashings.
Proof. unfold process_slashings. moves_solve. Qed.

Lemma process_eth1_data_reset_moves : moves process_eth1_data_reset.
Proof. unfold process_eth1_data_reset. moves_solve. Qed.

Lemma deposit_loop_moves e a stop ds l : moves (deposit_loop e a stop ds l).
Proof. revert l. induction ds as [|d ds IH]; intros l; cbn [deposit_loop]; moves_solve. Qed.

Hint Resolve deposit_loop_moves : moves.

Lemma process_pending_deposits_moves : moves process_pending_deposits.
Proof. unfold process_pending_deposits. moves_solve. Qed.

Lemma consolidation_loop_moves e cs n : moves (consolidation_loop e cs n).
Proof. revert n. induction cs as [|c cs IH]; intros n; cbn [consolidation_loop]; moves_solve. Qed.

Hint Resolve consolidation_loop_moves : moves.

Lemma process_pending_consolidations_moves : moves process_pending_consolidations.
Proof. unfold process_pending_consolidations. moves_solve. Qed.

Lemma process_effective_balance_updates_moves : moves process_effective_balance_updates.
Proof. unfold process_effective_balance_updates. moves_solve. Qed.

(** The last six steps. *)
Lemma epoch_rotation_moves :
  moves (process_slashings_reset;; process_randao_mixes_reset;; process_historical_summaries_update;;
         process_participation_flag_updates;; process_sync_committee_updates;; process_proposer_lookahead).
Proof.
  unfold process_slashings_reset, process_randao_mixes_reset, process_historical_summaries_update,
    process_participation_flag_updates, process_sync_committee_updates, process_proposer_lookahead. moves_solve.
Qed.

Hint Resolve process_inactivity_updates_moves process_rewards_and_penalties_moves
  process_registry_updates_moves process_slashings_moves process_eth1_data_reset_moves
  process_pending_deposits_moves process_pending_consolidations_moves
  process_effective_balance_updates_moves : moves.

Definition process_epoch_after_justification : BM unit :=
  process_inactivity_updates;; process_rewards_and_penalties;; process_registry_updates;;
  process_slashings;; process_eth1_data_reset;; process_pending_deposits;; process_pending_consolidations;;
  process_effective_balance_updates;; process_slashings_reset;; process_randao_mixes_reset;;
  process_historical_summaries_update;; process_participation_flag_updates;;
  process_sync_committee_updates;; process_proposer_lookahead.

Lemma process_epoch_split :
  process_epoch = (process_justification_and_finalization;; process_epoch_after_justification).
Proof. done. Qed.

Lemma process_epoch_after_justification_moves : moves process_epoch_after_justification.
Proof.
  unfold process_epoch_after_justification. do 8 (apply moves_bind; [solve [auto with moves]|intros _]).
  apply epoch_rotation_moves.
Qed.

Lemma process_slot_moves root : moves (process_slot_with_root root).
Proof. unfold process_slot_with_root. moves_solve. Qed.

(** ** Operations of a block *)

Lemma process_consolidation_request_moves r : moves (process_consolidation_request r).
Proof.
  intros s. unfold process_consolidation_request. case_if.
  { revert s. match goal with |- forall s, moves_at ?m s => change (moves m) end.
    unfold switch_to_compounding_validator, queue_excess_active_balance. moves_solve. }
  do 2 (moves_at_reads; apply moves_at_guard; intros _). moves_at_reads.
  case_match eqn:Es; [|by apply moves_ret]. case_match; [|by apply moves_ret].
  apply moves_at_bind; [apply moves_reads|]. intros v s' E. injection E as <- E%index_Ok.
  do 2 moves_at_reads. do 3 (apply moves_at_guard; intros _). apply moves_at_guard. intros [Hx _]%andb_prop.
  apply moves_at_guard. intros _. moves_at_reads. apply moves_at_guard. intros _.
  apply moves_at_bind; [apply compute_consolidation_epoch_moves|].
  intros e s1 E1%compute_consolidation_epoch_validators. moves_at_reads.
  apply moves_at_bind; [|intros [] s2 _; revert s2; apply moves_push_to; frame].
  apply update_validator_moves_at. intros w Hw. rewrite E1 in Hw. simplify_eq. b2p. by split.
Qed.

Hint Resolve process_consolidation_request_moves : moves.

Lemma process_attestation_moves a v : moves (process_attestation_with a v).
Proof. unfold process_attestation_with. moves_solve. Qed.

Lemma process_withdrawals_moves payload : moves (process_withdrawals payload).
Proof. unfold process_withdrawals, push_pending_partial_withdrawal. moves_solve. Qed.

Lemma process_withdrawal_request_moves r : moves (process_withdrawal_request r).
Proof. unfold process_withdrawal_request, push_pending_partial_withdrawal. moves_solve. Qed.

Lemma slash_all_moves e l any : moves (slash_all e l any).
Proof. revert any. induction l as [|i l IH]; intros any; cbn [slash_all]; moves_solve. Qed.

Hint Resolve process_attestation_moves process_withdrawals_moves process_withdrawal_request_moves
  slash_all_moves : moves.

Lemma process_operations_moves body v : moves (process_operations_with body v).
Proof.
  unfold process_operations_with, process_proposer_slashing, process_attester_slashing, process_deposit,
    apply_deposit, process_voluntary_exit, process_bls_to_execution_change,
    process_deposit_request. moves_solve.
Qed.

Hint Resolve process_operations_moves : moves.

Lemma process_block_after_execution_payload_moves body r v : moves (process_block_after_execution_payload body r v).
Proof.
  unfold process_block_after_execution_payload, process_randao_inner, process_eth1_data,
    process_sync_aggregate_with. moves_solve.
Qed.

Hint Resolve process_block_after_execution_payload_moves : moves.

Lemma process_signed_block_moves block v e : moves (process_signed_block block v e).
Proof.
  unfold process_signed_block, process_block, process_proposed_block, process_block_header,
    process_execution_payload. moves_solve.
Qed.
End frame.

(** * Finality never goes back

    Over any number of slots and a block, accepted, the finalized epoch does not
    decrease, the checkpoints stay ordered and the registry only moves forward. *)

(** What two states on a chain are to each other. *)
Record advances (s s' : BeaconState) : Prop := mkAdvances {
  adv_finalized : cp_epoch (finalized_checkpoint s) <= cp_epoch (finalized_checkpoint s');
  adv_registry : registry_evolves (validators s) (validators s');
}.

#[global] Instance advances_preorder : PreOrder advances.
Proof.
  split; [by intros s; split|]. intros s1 s2 s3 [H1 H2] [H3 H4]. split; [lia|]. by transitivity (validators s2).
Qed.

Lemma ffg_ordered_view s s' : ffg_view s' = ffg_view s -> ffg_ordered s -> ffg_ordered s'.
Proof.
  unfold ffg_view. intros [= E1 _ E3 E4 E5] [H1 H2 H3 H4].
  split; rewrite ?E3, ?E4, ?E5; try done. unfold get_previous_epoch, get_current_epoch in *. by rewrite E1.
Qed.

Lemma evolves_advances s s' : evolves s s' -> advances s s'.
Proof. intros [Hv Hr]. split; [|done]. unfold ffg_view in Hv. by injection Hv as _ _ _ _ ->. Qed.

Lemma previous_epoch_value s :
  0 <= slot s < 2 ^ 64 -> get_previous_epoch s = Z.max 1 (get_current_epoch s) - 1.
Proof.
  intros Hs. unfold get_previous_epoch, GENESIS_EPOCH.
  assert (0 <= get_current_epoch s < 2 ^ 64) as He.
  { unfold get_current_epoch, compute_epoch_at_slot, SLOTS_PER_EPOCH. split; [apply Z.div_pos; lia|].
    apply Z.div_lt_upper_bound; lia. }
  case_if; b2p; [lia|]. u64_simpl. lia.
Qed.

Section finality.
Context {H : Sha256} {F : CandidateFuel} {HO : HashOrder} {SV : SszVec}.

Lemma justification_outcome_cases s t p c o :
  justification_outcome s t p c = Ok o ->
  jf_previous_justified_checkpoint o = current_justified_checkpoint s /\
  (jf_current_justified_checkpoint o = current_justified_checkpoint s \/
   cp_epoch (jf_current_justified_checkpoint o) = get_previous_epoch s \/
   cp_epoch (jf_current_justified_checkpoint o) = get_current_epoch s) /\
  (jf_finalized_checkpoint o = finalized_checkpoint s \/
   jf_finalized_checkpoint o = previous_justified_checkpoint s \/
   jf_finalized_checkpoint o = current_justified_checkpoint s).
Proof.
  unfold justification_outcome. intros (bits & _ & E)%bind_Ok.
  apply bind_Ok in E as ([bits1 j1] & E1 & E). apply bind_Ok in E as ([bits2 j2] & E2 & E).
  do 4 (apply bind_Ok in E as (? & _ & E)). injection E as <-. cbn.
  split_and!; [done| |repeat case_if; auto].
  assert (j1 = current_justified_checkpoint s \/ cp_epoch j1 = get_previous_epoch s) as H1.
  { destruct ((t * 2)%u64 <=? (p * 3)%u64); [|injection E1 as _ <-; auto]. res_inv E1. auto. }
  destruct ((t * 2)%u64 <=? (c * 3)%u64); [|injection E2 as _ <-; tauto]. res_inv E2. auto.
Qed.

Lemma process_justification_order s s' :
  ffg_ordered s -> 0 <= slot s < 2 ^ 64 ->
  process_justification_and_finalization s = (s', Ok tt) ->
  advances s s' /\ slot s' = slot s /\ 0 <= cp_epoch (finalized_checkpoint s') /\
  cp_epoch (finalized_checkpoint s') <= cp_epoch (previous_justified_checkpoint s') /\
  cp_epoch (previous_justified_checkpoint s') <= cp_epoch (current_justified_checkpoint s') /\
  cp_epoch (current_justified_checkpoint s') <= get_current_epoch s.
Proof.
  intros [H1 H2 H3 H4] Hslot E. pose proof (previous_epoch_value s Hslot) as Hp.
  assert (0 <= get_current_epoch s) as He by (apply Z.div_pos; unfold SLOTS_PER_EPOCH; lia).
  unfold process_justification_and_finalization in E. apply bindM_Ok in E as (s1 & o & Eo & E).
  injection Eo as <- Eo. injection E as <-. unfold compute_justification_and_finalization in Eo.
  destruct (get_current_epoch s <=? GENESIS_EPOCH + 1) eqn:Hc.
  - injection Eo as <-. cbn. assert (advances s (apply_justification_and_finalization (current_justification s) s)) by by split.
    b2p. unfold GENESIS_EPOCH in Hc. split_and!; try done; lia.
  - b2p. unfold GENESIS_EPOCH in Hc. apply bind_Ok in Eo as (t & _ & Eo).
    destruct (get_unslashed_participating_balances s TIMELY_TARGET_FLAG_INDEX) as [p c].
    apply justification_outcome_cases in Eo as (A1 & A2 & A3). cbn. rewrite A1.
    assert (cp_epoch (finalized_checkpoint s) <= cp_epoch (jf_finalized_checkpoint o) <=
            cp_epoch (current_justified_checkpoint s)) by (destruct A3 as [->|[->| ->]]; lia).
    split_and!; try done; try lia.
    + split; [cbn; lia|done].
    + destruct A2 as [->|[->| ->]]; lia.
    + destruct A2 as [->|[->| ->]]; lia.
Qed.

Context {R : Roots} {B : Bls} {N : BeaconNetworkSpec}.

Lemma process_epoch_order s s' :
  ffg_ordered s -> 0 <= slot s < 2 ^ 64 -> process_epoch s = (s', Ok tt) ->
  advances s s' /\ slot s' = slot s /\ 0 <= cp_epoch (finalized_checkpoint s') /\
  cp_epoch (finalized_checkpoint s') <= cp_epoch (previous_justified_checkpoint s') /\
  cp_epoch (previous_justified_checkpoint s') <= cp_epoch (current_justified_checkpoint s') /\
  cp_epoch (current_justified_checkpoint s') <= get_current_epoch s.
Proof.
  intros Ho Hs E. rewrite process_epoch_split in E. apply bindM_Ok in E as (s1 & [] & E1 & E2).
  destruct (process_justification_order s s1 Ho Hs E1) as (A & A1 & A2 & A3 & A4 & A5).
  pose proof (process_epoch_after_justification_moves s1) as Hm. unfold moves_at in Hm. rewrite E2 in Hm. cbn in Hm.
  pose proof (evolves_advances _ _ Hm) as Hadv. destruct Hm as [Hv _]. unfold ffg_view in Hv.
  injection Hv as B1 _ B3 B4 B5. rewrite B1, B3, B4, B5. split_and!; try done. by transitivity s1.
Qed.

Lemma next_slot_ordered s s' :
  0 <= slot s < 2 ^ 64 - 1 -> slot s' = slot s + 1 -> 0 <= cp_epoch (finalized_checkpoint s') ->
  cp_epoch (finalized_checkpoint s') <= cp_epoch (previous_justified_checkpoint s') ->
  cp_epoch (previous_justified_checkpoint s') <= cp_epoch (current_justified_checkpoint s') ->
  (is_multiple_of (slot s + 1)%u64 SLOTS_PER_EPOCH = true /\
   cp_epoch (current_justified_checkpoint s') <= get_current_epoch s \/
   cp_epoch (current_justified_checkpoint s') <= get_previous_epoch s) ->
  ffg_ordered s'.
Proof.
  intros Hs Hslot H1 H2 H3 H4. split; try done. rewrite previous_epoch_value in * by lia.
  assert (get_current_epoch s <= get_current_epoch s').
  { unfold get_current_epoch. rewrite Hslot. apply Z.div_le_mono; unfold SLOTS_PER_EPOCH; lia. }
  destruct H4 as [[Hm H4]|H4]; [|lia].
  destruct (next_epoch_of s Hs Hm) as [_ Hlt]. unfold get_current_epoch in *. rewrite Hslot in *. lia.
Qed.

Lemma slots_loop_order fuel target root s s' :
  ffg_ordered s -> 0 <= slot s -> target < 2 ^ 64 ->
  slots_loop fuel target root s = (s', Ok tt) -> ffg_ordered s' /\ advances s s'.
Proof.
  revert root s. induction fuel as [|fuel IH]; intros root s Ho H0 Ht E; cbn [slots_loop] in E.
  { case_if; [done|]. injection E as <-. done. }
  destruct (slot s <? target) eqn:El; [|injection E as <-; done]. b2p.
  apply bindM_Ok in E as (s1 & [] & E1 & E). apply bindM_Ok in E as (s1' & b & Eb & E).
  injection Eb as <- Eb. apply bindM_Ok in E as (s2 & [] & E2 & E). apply bindM_Ok in E as (s3 & [] & [= <-] & E).
  pose proof (process_slot_moves root s) as Hm. unfold moves_at in Hm. rewrite E1 in Hm. cbn in Hm.
  pose proof (evolves_advances _ _ Hm) as Hadv1. destruct Hm as [Hv1 _].
  assert (ffg_ordered s1) as Ho1 by by eapply ffg_ordered_view.
  assert (slot s1 = slot s) as Hs1 by (unfold ffg_view in Hv1; congruence).
  assert (advances s1 s2 /\ ffg_ordered (set_slot (slot s2 + 1)%u64 s2) /\ slot s2 = slot s1) as (Hadv2 & Ho2 & Hs2).
  { destruct b; [|injection E2 as <-; split_and!; [done| |done]].
    - destruct (process_epoch_order s1 s2 Ho1 ltac:(lia) E2) as (A & A1 & A2 & A3 & A4 & A5).
      split_and!; [done| |done]. eapply (next_slot_ordered s1); cbn; try done; [lia|u64_simpl; lia|].
      by left.
    - destruct Ho1. eapply (next_slot_ordered s1); cbn; try done; [lia|by u64_simpl|]. by right. }
  destruct (IH None (set_slot (slot s2 + 1)%u64 s2)) as [Ho3 Hadv3]; [done|cbn; u64_simpl; lia|done|done|].
  split; [done|]. transitivity s1; [done|]. transitivity s2; [done|].
  transitivity (set_slot (slot s2 + 1)%u64 s2); [|done]. by split.
Qed.

Lemma process_slots_order target root s s' :
  ffg_ordered s -> 0 <= slot s -> target < 2 ^ 64 ->
  process_slots_from_root target root s = (s', Ok tt) -> ffg_ordered s' /\ advances s s'.
Proof.
  intros Ho H0 Ht E. unfold process_slots_from_root in E. apply bindM_Ok in E as (s1 & [] & E1 & E).
  injection E1 as <- E1. apply bindM_Ok in E as (s2 & f & E2 & E). injection E2 as <- E2.
  by eapply slots_loop_order.
Qed.

Lemma state_transition_order block v e root s s' :
  ffg_ordered s -> 0 <= slot s -> b_slot (sb_message block) < 2 ^ 64 ->
  state_transition_from_root block v e root s = (s', Ok tt) -> ffg_ordered s' /\ advances s s'.
Proof.
  intros Ho H0 Ht E. unfold state_transition_from_root in E. apply bindM_Ok in E as (s1 & [] & E1 & E2).
  destruct (process_slots_order _ _ _ _ Ho H0 Ht E1) as [Ho1 Hadv1].
  pose proof (process_signed_block_moves block v e s1) as Hm. unfold moves_at in Hm. rewrite E2 in Hm. cbn in Hm.
  split; [eapply ffg_ordered_view; [apply Hm|done]|]. transitivity s1; [done|]. by apply evolves_advances.
Qed.
End finality.
