(* ===== verification/BeaconReplay.v ===== *)
(** * Replaying blocks and keeping the start of an epoch

    A block that was accepted replays to the same state without its signatures, payload
    and state root, and processing a block by way of the first slot of its epoch gives
    what processing it directly gives. *)

From stdpp Require Import strings.
From S2P Require Import Prelude StateMonad Bytes Shuffling Merkle BeaconTypes BeaconAccess BeaconMutate BeaconEpoch BeaconBlockOps BeaconTransition BeaconFrame.

(** ** Computations that check less *)

(** Where [m] succeeds, [m'] does the same. *)
Definition relaxes {A} (m m' : BM A) : Prop := forall s s' a, m s = (s', Ok a) -> m' s = (s', Ok a).

#[global] Instance relaxes_refl A : Reflexive (@relaxes A).
Proof. by intros m s. Qed.

Lemma relaxes_bind {A B} (m m' : BM A) (k k' : A -> BM B) :
  relaxes m m' -> (forall a, relaxes (k a) (k' a)) -> relaxes (m ≫= k) (m' ≫= k').
Proof.
  intros Hm Hk s s' b (s1 & a & E1%Hm & E2%Hk)%bindM_Ok. apply bindM_Ok. eauto.
Qed.

Lemma relaxes_reads {A} (f f' : BeaconState -> res anyhow A) :
  (forall s a, f s = Ok a -> f' s = Ok a) -> relaxes (reads f) (reads f').
Proof. intros Hf s s' a E. injection E as <- E. unfold reads. by rewrite (Hf s a E). Qed.

Lemma relaxes_forM {A} (l : list A) (f f' : A -> BM unit) :
  (forall a, relaxes (f a) (f' a)) -> relaxes (forM l f) (forM l f').
Proof.
  intros Hf. induction l as [|a l IH]; cbn [forM]; [done|]. by apply relaxes_bind.
Qed.

Section replay.
Context {H : Sha256} {F : CandidateFuel} {HO : HashOrder} {SV : SszVec}.
Context {R : Roots} {B : Bls} {N : BeaconNetworkSpec}.

Lemma process_randao_relaxes body : relaxes (process_randao_inner body true) (process_randao_inner body false).
Proof.
  unfold process_randao_inner. do 3 (apply relaxes_bind; [done|intros ?]).
  case_match; [|done]. apply relaxes_bind; [|done]. by apply relaxes_reads; intros s [].
Qed.

Lemma process_attestation_relaxes a : relaxes (process_attestation_with a true) (process_attestation_with a false).
Proof.
  unfold process_attestation_with. do 10 (apply relaxes_bind; [done|intros ?]).
  intros s s' u E. apply bindM_Ok in E as (s1 & valid & E1 & E). injection E1 as <- E1.
  apply bindM_Ok in E as (s2 & [] & E2 & E). injection E2 as <- E2. apply ensure_Ok in E2. subst valid.
  apply bindM_Ok. exists s, true. split; [done|]. apply bindM_Ok. by exists s, tt.
Qed.

Lemma process_sync_aggregate_relaxes a :
  relaxes (process_sync_aggregate_with a true) (process_sync_aggregate_with a false).
Proof.
  unfold process_sync_aggregate_with. apply relaxes_bind; [|done]. by apply relaxes_reads; intros s [].
Qed.

Lemma process_operations_relaxes body : relaxes (process_operations_with body true) (process_operations_with body false).
Proof.
  unfold process_operations_with. do 3 (apply relaxes_bind; [done|intros ?]).
  apply relaxes_bind; [|done]. apply relaxes_forM. apply process_attestation_relaxes.
Qed.

Lemma replay_relaxes block e root :
  relaxes (state_transition_from_root block true e root) (replay_block block root).
Proof.
  intros s s' [] E. apply bindM_Ok in E as (s1 & [] & E1 & E). apply bindM_Ok in E as (s2 & [] & E2 & E).
  injection E2 as <- _. apply bindM_Ok in E as (s3 & [] & E3 & E4). injection E4 as <- _.
  unfold replay_block. apply bindM_Ok. exists s1, tt. split; [done|]. clear E1. revert s1 s3 E3.
  match goal with |- forall s1 s3, _ -> ?m s1 = _ =>
    cut (relaxes (process_block (sb_message block) e) m); [intros Hr s1 s3 E3; by apply Hr|] end.
  unfold process_block, process_proposed_block.
  apply relaxes_bind; [done|intros _]. apply relaxes_bind; [done|intros _].
  intros s0 s' [] E. apply bindM_Ok in E as (s1 & [] & E1 & E2). unfold process_execution_payload in E1.
  apply bindM_Ok in E1 as (s2 & [] & E1 & E3). injection E1 as <- E1.
  apply bindM_Ok in E3 as (s3 & [] & E3 & E4). injection E3 as <- E3. injection E4 as <-.
  apply bindM_Ok. exists s0, tt. split; [unfold reads; by rewrite E1|]. apply bindM_Ok. eexists _, tt. split; [done|]. revert E2.
  match goal with |- ?m ?x = _ -> ?m' ?x = _ => cut (relaxes m m'); [intros Hr; apply Hr|] end.
  unfold process_block_after_execution_payload. apply relaxes_bind; [apply process_randao_relaxes|intros _].
  apply relaxes_bind; [done|intros _]. apply relaxes_bind; [apply process_operations_relaxes|intros _].
  apply process_sync_aggregate_relaxes.
Qed.

(** ** Slots in two stages *)

Definition slot_step (root : option B256) : BM unit :=
  process_slot_with_root root;;
  at_epoch_end ← reads (fun s => Ok (is_multiple_of (slot s + 1)%u64 SLOTS_PER_EPOCH));
  (if (at_epoch_end : bool) then process_epoch else mret tt);;
  modify (fun s => set_slot (slot s + 1)%u64 s).

Lemma slots_loop_S fuel target root s :
  slot s < target -> slots_loop (S fuel) target root s = (slot_step root;; slots_loop fuel target None) s.
Proof.
  intros Hs. cbn [slots_loop]. rewrite (proj2 (Z.ltb_lt _ _) Hs). unfold slot_step, mbind, M_bind.
  destruct (process_slot_with_root root s) as [s1 []]; [|done..]. cbn.
  destruct (is_multiple_of _ _); [|done]. by destruct (process_epoch s1) as [s2 []].
Qed.

Lemma slots_loop_done fuel target root s : target <= slot s -> slots_loop fuel target root s = (s, Ok tt).
Proof. intros Hs. destruct fuel; cbn [slots_loop]; by rewrite (proj2 (Z.ltb_ge _ _) Hs). Qed.

Lemma process_epoch_slot s s' : process_epoch s = (s', Ok tt) -> slot s' = slot s.
Proof.
  rewrite process_epoch_split. intros (s1 & [] & E1 & E2)%bindM_Ok.
  pose proof (process_epoch_after_justification_moves s1) as [Hv _]. rewrite E2 in Hv. cbn in Hv.
  apply bindM_Ok in E1 as (s2 & o & E1 & E3). injection E1 as <- _. injection E3 as <-.
  unfold ffg_view in Hv. by injection Hv.
Qed.

Lemma slot_step_slot root s s' : slot_step root s = (s', Ok tt) -> slot s' = (slot s + 1)%u64.
Proof.
  unfold slot_step. intros (s1 & [] & E1 & E)%bindM_Ok. apply bindM_Ok in E as (s1' & b & Eb & E).
  injection Eb as <- _. apply bindM_Ok in E as (s2 & [] & E2 & E). injection E as <-. cbn.
  pose proof (process_slot_moves root s) as [Hv _]. rewrite E1 in Hv. unfold ffg_view in Hv. cbn in Hv.
  injection Hv as Hv _ _ _ _. assert (slot s2 = slot s1) as ->; [|by rewrite Hv].
  destruct b; [by apply process_epoch_slot|]. by injection E2 as <-.
Qed.

(** Any fuel that suffices gives the same. *)
Lemma slots_loop_fuel f1 f2 target root s :
  0 <= slot s -> target < 2 ^ 64 -> target - slot s <= Z.of_nat f1 -> target - slot s <= Z.of_nat f2 ->
  slots_loop f1 target root s = slots_loop f2 target root s.
Proof.
  revert f2 root s. induction f1 as [|f1 IH]; intros f2 root s H0 Ht H1 H2.
  { rewrite !slots_loop_done by lia. done. }
  destruct (decide (target <= slot s)) as [Hge|Hlt]; [by rewrite !slots_loop_done by lia|].
  destruct f2 as [|f2]; [lia|]. rewrite !slots_loop_S, !bindM_match by lia.
  destruct (slot_step root s) as [s1 [[]| | |]] eqn:E; try done. apply slot_step_slot in E.
  rewrite u64_add_id in E by u64_solve. apply IH; lia.
Qed.

Lemma slots_loop_split f f1 f2 start target root s :
  0 <= slot s -> slot s < start -> start <= target -> target < 2 ^ 64 ->
  target - slot s <= Z.of_nat f -> start - slot s <= Z.of_nat f1 -> target - start <= Z.of_nat f2 ->
  slots_loop f target root s = (slots_loop f1 start root;; slots_loop f2 target None) s.
Proof.
  revert f1 root s. induction f as [|f IH]; intros f1 root s H0 H1 H2 H3 Hf Hf1 Hf2; [lia|].
  destruct f1 as [|f1]; [lia|]. rewrite slots_loop_S by lia.
  assert ((slots_loop (S f1) start root;; slots_loop f2 target None) s =
    (slot_step root;; (slots_loop f1 start None;; slots_loop f2 target None)) s) as ->.
  { rewrite !bindM_match, slots_loop_S, bindM_match by lia.
    destruct (slot_step root s) as [s1 []]; [|done..]. by rewrite bindM_match. }
  rewrite !bindM_match.
  destruct (slot_step root s) as [s1 [[]| | |]] eqn:E; try done. apply slot_step_slot in E.
  rewrite u64_add_id in E by u64_solve. destruct (decide (slot s1 = start)) as [Hs|Hs].
  - rewrite bindM_match, (slots_loop_done f1) by lia. apply slots_loop_fuel; lia.
  - apply IH; lia.
Qed.

Lemma slots_loop_reaches f target root s s' :
  0 <= slot s <= target -> target < 2 ^ 64 ->
  slots_loop f target root s = (s', Ok tt) -> slot s' = target.
Proof.
  revert root s. induction f as [|f IH]; intros root s Hs Ht E.
  { cbn [slots_loop] in E. destruct (slot s <? target) eqn:El; [done|]. b2p. injection E as <-. lia. }
  destruct (decide (target <= slot s)) as [Hge|Hlt].
  { rewrite slots_loop_done in E by done. injection E as <-. lia. }
  rewrite slots_loop_S in E by lia. apply bindM_Ok in E as (s1 & [] & E1%slot_step_slot & E2).
  rewrite u64_add_id in E1 by u64_solve. eapply IH; [|done|exact E2]. lia.
Qed.

Lemma process_slots_loop target root s :
  slot s < target -> process_slots_from_root target root s = slots_loop (Z.to_nat (target - slot s)) target root s.
Proof.
  intros Hs. unfold process_slots_from_root, ensureM. rewrite bindM_match. unfold reads, ensure.
  rewrite (proj2 (Z.ltb_lt _ _) Hs). by rewrite bindM_match.
Qed.

Lemma epoch_start_bounds b :
  0 <= b < 2 ^ 64 -> let start := compute_start_slot_at_epoch (compute_epoch_at_slot b) in
  start = SLOTS_PER_EPOCH * (b / SLOTS_PER_EPOCH) /\ start <= b.
Proof.
  intros Hb start. unfold start, compute_start_slot_at_epoch, compute_epoch_at_slot, SLOTS_PER_EPOCH in *.
  pose proof (Z.mul_div_le b 32 ltac:(lia)). assert (0 <= b / 32) by (apply Z.div_pos; lia).
  rewrite u64_mul_id by u64_solve. lia.
Qed.

Lemma keeping_epoch_start_same block v e root s :
  0 <= slot s -> 0 <= b_slot (sb_message block) < 2 ^ 64 ->
  state_transition_from_root block v e root s =
  (state_transition_keeping_epoch_start block v e root;; mret tt) s.
Proof.
  intros H0 Hb. set (b := b_slot (sb_message block)) in *.
  destruct (epoch_start_bounds b Hb) as [Hstart Hle]. set (start := compute_start_slot_at_epoch _) in *.
  unfold state_transition_keeping_epoch_start. fold b. cbn zeta. fold start. rewrite bindM_match.
  rewrite (bindM_match (reads _)). unfold reads. destruct (compute_epoch_at_slot b <=? get_current_epoch s) eqn:Ee.
  { rewrite bindM_match. by destruct (state_transition_from_root block v e root s) as [s1 [[]| | |]]. }
  b2p. assert (slot s < start) as Hs.
  { unfold get_current_epoch, compute_epoch_at_slot, SLOTS_PER_EPOCH in *.
    pose proof (Z.div_mod (slot s) 32 ltac:(lia)). pose proof (Z.mod_pos_bound (slot s) 32 ltac:(lia)). lia. }
  rewrite bindM_match. unfold state_transition_from_root. rewrite bindM_match. fold b.
  rewrite !process_slots_loop by lia.
  rewrite (slots_loop_split _ (Z.to_nat (start - slot s)) (Z.to_nat (b - start)) start) by lia.
  rewrite bindM_match. destruct (slots_loop (Z.to_nat (start - slot s)) start root s) as [s1 [[]| | |]] eqn:E1; [|done..].
  apply slots_loop_reaches in E1 as Hs1; [|lia|lia].
  rewrite (bindM_match (fun s => (s, Ok s))), bindM_match. unfold state_transition_from_epoch_start. fold b start.
  rewrite bindM_match. unfold ensureM, reads, ensure. rewrite Hs1, Z.eqb_refl.
  rewrite (bindM_match (fun s => (s, Ok (slot s <? b)))). rewrite bindM_match. rewrite Hs1.
  destruct (start <? b) eqn:Eb; b2p.
  - unfold process_slots. rewrite process_slots_loop, Hs1 by lia.
    destruct (slots_loop (Z.to_nat (b - start)) b None s1) as [s2 [[]| | |]]; [|done..].
    by destruct (process_signed_block block v e s2) as [s3 [[]| | |]].
  - rewrite slots_loop_done by lia. cbn. by destruct (process_signed_block block v e s1) as [s3 [[]| | |]].
Qed.
End replay.
