(* ===== verification/BeaconWithdrawals.v ===== *)
(** * Withdrawals

    The withdrawals a block must carry exist, are at most sixteen, are numbered in a row
    and never take more than a balance holds, so the balances fall by exactly what is
    paid out. *)

From stdpp Require Import strings.
From S2P Require Import Prelude StateMonad Bytes Shuffling Merkle BeaconTypes BeaconAccess BeaconMutate BeaconEpoch BeaconBlockOps BeaconFacts BeaconRegistry BeaconSafety.

(** What a list of withdrawals takes from a validator. *)
Definition taken (ws : list Withdrawal) (i : Z) : Z :=
  sumZ (w_amount <$> filter (fun w => w_validator_index w = i) ws).

Definition paid_out (ws : list Withdrawal) : Z := sumZ (w_amount <$> ws).

Lemma taken_snoc ws w i :
  taken (ws ++ [w]) i = taken ws i + if decide (w_validator_index w = i) then w_amount w else 0.
Proof.
  unfold taken. rewrite filter_app, fmap_app, sumZ_app, filter_cons, filter_nil. case_decide; cbn; lia.
Qed.

Lemma taken_cons w ws i :
  taken (w :: ws) i = (if decide (w_validator_index w = i) then w_amount w else 0) + taken ws i.
Proof. unfold taken. rewrite filter_cons. case_decide; cbn; lia. Qed.

(** ** The list a block must carry *)

(** [n] withdrawals numbered from [first], within the balances of [s]. *)
Record payable (s : BeaconState) (first : Z) (ws : list Withdrawal) : Prop := mkPayable {
  py_indices : forall k w, ws !! k = Some w -> w_index w = first + Z.of_nat k;
  py_registry : Forall (fun w => in_registry s (w_validator_index w) /\ 0 <= w_amount w) ws;
  py_balances : forall i b, 0 <= i -> balances s !! Z.to_nat i = Some b -> taken ws i <= b;
}.

(** The fields a withdrawal reads are [u64]s that point into the registry. *)
Record withdrawals_ready (s : BeaconState) : Prop := mkWithdrawalsReady {
  wr_shape : shape s;
  wr_balances : Forall is_u64 (balances s);
  wr_pending : Forall (fun w => in_registry s (ppw_validator_index w) /\ is_u64 (ppw_amount w))
                 (pending_partial_withdrawals s);
  wr_limit : Z.of_nat (length (pending_partial_withdrawals s)) <= PENDING_PARTIAL_WITHDRAWALS_LIMIT;
  wr_next : in_registry s (next_withdrawal_validator_index s);
  wr_index : 0 <= next_withdrawal_index s < 2 ^ 64 - 16;
}.

Lemma payable_nil s first : Forall is_u64 (balances s) -> payable s first [].
Proof.
  intros Hb. split; [done|constructor|]. intros i b _ Hi. apply (Forall_lookup_1 _ _ _ _ Hb) in Hi.
  unfold taken. cbn. unfold is_u64 in Hi. lia.
Qed.

Lemma payable_snoc s first ws i b a amount :
  payable s first ws -> in_registry s i -> balances s !! Z.to_nat i = Some b ->
  0 <= amount <= b - taken ws i ->
  payable s first (ws ++ [mkWithdrawal (first + Z.of_nat (length ws)) i a amount]).
Proof.
  intros [H1 H2 H3] Hi Hb Ha. split.
  - intros k w Hk. apply lookup_app_Some in Hk as [Hk|[Hl Hk]]; [by apply H1|].
    apply list_lookup_singleton_Some in Hk as [Hk <-]. cbn. lia.
  - apply Forall_app. split; [done|]. constructor; [|constructor]. cbn. split; [done|lia].
  - intros j b' Hj Hb'. rewrite taken_snoc. cbn. case_decide; [subst; simplify_eq; lia|].
    specialize (H3 j b' Hj Hb'). lia.
Qed.

Section withdrawals.
Context {H : Sha256} {F : CandidateFuel} {HO : HashOrder} {HL : HashOrderLaws HO}.
Context {SV : SszVec} {SVL : SszVecLaws SV}.

Lemma taken_nonneg ws s first i : payable s first ws -> 0 <= taken ws i.
Proof.
  intros [_ Hr _]. unfold taken. induction Hr as [|w ws [_ Hw] _ IH]; [done|].
  rewrite filter_cons. case_decide; cbn; lia.
Qed.

Lemma withdrawn_from_taken s first ws i b :
  payable s first ws -> Forall is_u64 (balances s) -> 0 <= i -> balances s !! Z.to_nat i = Some b ->
  withdrawn_from ws i = taken ws i /\ 0 <= taken ws i <= b /\ is_u64 b.
Proof.
  intros Hp Hu Hi Hb. pose proof (taken_nonneg ws s first i Hp) as H0. pose proof (py_balances _ _ _ Hp i b Hi Hb) as H1.
  pose proof (Forall_lookup_1 _ _ _ _ Hu Hb) as H2. split_and!; [|done..]. unfold withdrawn_from.
  apply u64_sum_id. fold (taken ws i). unfold is_u64 in *. lia.
Qed.

Lemma registry_balance s i : shape s -> in_registry s i ->
  exists v b, validators s !! Z.to_nat i = Some v /\ balances s !! Z.to_nat i = Some b.
Proof.
  intros Hs Hi. unfold in_registry in Hi. destruct (lookup_lt_is_Some_2 (validators s) (Z.to_nat i)) as [v Hv]; [lia|].
  destruct (lookup_lt_is_Some_2 (balances s) (Z.to_nat i)) as [b Hb]; [rewrite (sh_balances s Hs); lia|]. eauto.
Qed.

Lemma partials_loop_Ok s e pending ws first n :
  shape s -> Forall is_u64 (balances s) ->
  Forall (fun w => in_registry s (ppw_validator_index w) /\ is_u64 (ppw_amount w)) pending ->
  payable s first ws -> (length ws <= 8)%nat -> 0 <= first < 2 ^ 64 - 16 ->
  0 <= n -> n + Z.of_nat (length pending) < 2 ^ 64 ->
  exists ws' n', partials_loop s e pending ws (first + Z.of_nat (length ws)) n =
      Ok (ws', first + Z.of_nat (length ws'), n') /\
    payable s first ws' /\ (length ws' <= 8)%nat /\ n <= n' <= n + Z.of_nat (length pending).
Proof.
  intros Hs Hu Hp. revert ws n. induction Hp as [|w pending [Hi Ha] _ IH]; intros ws n Hpay Hl Hf Hn0 Hn.
  { exists ws, n. cbn. split_and!; try done; lia. }
  cbn [partials_loop]. destruct ((e <? _) || _) eqn:Estop; [exists ws, n; split_and!; try done; lia|].
  apply orb_false_iff in Estop as [_ Estop]. b2p. unfold MAX_PENDING_PARTIALS_PER_WITHDRAWALS_SWEEP in Estop.
  destruct (registry_balance s _ Hs Hi) as (v & b & Hv & Hb). rewrite Hv, Hb. cbn [ok_or mbind res_bind].
  destruct (withdrawn_from_taken s first ws _ b Hpay Hu ltac:(apply Hi) Hb) as (-> & Ht & Hub).
  cbn [length] in *. unfold is_u64 in Ha, Hub. rewrite (u64_sub_id b) by u64_solve.
  rewrite (u64_add_id n 1) by u64_solve. destruct (_ && _) eqn:Ec.
  - apply andb_prop in Ec as [_ Ec]. b2p. unfold MIN_ACTIVATION_BALANCE in *.
    rewrite (u64_sub_id (b - _)) by u64_solve. rewrite (u64_add_id (first + _)) by u64_solve.
    set (ws1 := ws ++ _). destruct (IH ws1 (n + 1)) as (ws' & n' & E & H1 & H2 & H3); [|..|lia|lia|].
    + apply (payable_snoc s first ws _ b); try done. lia.
    + unfold ws1. rewrite length_app. cbn. lia.
    + done.
    + exists ws', n'. split_and!; try done; [|lia..]. rewrite <-E. f_equal. unfold ws1. rewrite length_app. cbn. lia.
  - destruct (IH ws (n + 1)) as (ws' & n' & E & H1 & H2 & H3); [done..|lia|lia|].
    exists ws', n'. split_and!; try done; lia.
Qed.

Lemma sweep_loop_Ok k s e ws first vi :
  shape s -> Forall is_u64 (balances s) -> payable s first ws -> (length ws < 16)%nat ->
  0 <= first < 2 ^ 64 - 16 -> in_registry s vi ->
  exists ws', sweep_loop k s e ws (first + Z.of_nat (length ws)) vi = Ok ws' /\
    payable s first ws' /\ (length ws' <= 16)%nat.
Proof.
  intros Hs Hu. revert ws vi. induction k as [|k IH]; intros ws vi Hpay Hl Hf Hi.
  { exists ws. cbn. split_and!; try done; lia. }
  cbn [sweep_loop]. destruct (registry_balance s _ Hs Hi) as (v & b & Hv & Hb). rewrite Hv, Hb.
  cbn [ok_or mbind res_bind].
  destruct (withdrawn_from_taken s first ws _ b Hpay Hu ltac:(apply Hi) Hb) as (-> & Ht & Hub).
  unfold is_u64 in Hub. rewrite (u64_sub_id b) by u64_solve. rewrite (u64_add_id (first + _)) by u64_solve.
  set (r := if is_fully_withdrawable_validator v _ e then _ else _).
  assert (exists ws1, r = (ws1, first + Z.of_nat (length ws1)) /\ payable s first ws1 /\
    (length ws <= length ws1 <= S (length ws))%nat) as (ws1 & -> & Hpay1 & Hl1).
  { unfold r. destruct (is_fully_withdrawable_validator v _ e) eqn:E1;
      [|destruct (is_partially_withdrawable_validator v _) eqn:E2; [|exists ws; split_and!; (done || lia)]].
    - eexists (_ ++ [_]). split; [by rewrite length_app, Nat2Z.inj_add, Z.add_assoc|].
      split; [apply (payable_snoc s first ws _ b); try done; lia|rewrite length_app; cbn; lia].
    - apply andb_prop in E2 as [_ E2]. b2p.
      assert (0 <= get_max_effective_balance v) by (unfold get_max_effective_balance; case_if; done).
      rewrite u64_sub_id by u64_solve.
      eexists (_ ++ [_]). split; [by rewrite length_app, Nat2Z.inj_add, Z.add_assoc|].
      split; [apply (payable_snoc s first ws _ b); try done; lia|rewrite length_app; cbn; lia]. }
  unfold MAX_WITHDRAWALS_PER_PAYLOAD. destruct (length ws1 =? 16)%nat eqn:E16.
  { exists ws1. split_and!; try done. apply Nat.eqb_eq in E16. lia. }
  apply Nat.eqb_neq in E16. unfold in_registry in Hi. pose proof (sh_nonempty s Hs).
  unfold u64_rem. rewrite (proj2 (Z.eqb_neq _ _)) by lia. cbn [mbind res_bind]. apply IH; [done|lia|done|].
  unfold in_registry. apply Z.mod_pos_bound. lia.
Qed.

Lemma get_expected_withdrawals_Ok s :
  withdrawals_ready s -> exists ws n, get_expected_withdrawals s = Ok (ws, n) /\
    payable s (next_withdrawal_index s) ws /\ (length ws <= 16)%nat /\
    0 <= n <= Z.of_nat (length (pending_partial_withdrawals s)).
Proof.
  intros [Hs Hu Hp Hl Hn Hi]. unfold get_expected_withdrawals, PENDING_PARTIAL_WITHDRAWALS_LIMIT in *.
  destruct (partials_loop_Ok s (get_current_epoch s) (pending_partial_withdrawals s) [] (next_withdrawal_index s) 0)
    as (ws1 & n & E1 & H1 & H2 & H3); try done; [by apply payable_nil|cbn; lia|lia|].
  cbn [length Z.of_nat] in E1. rewrite Z.add_0_r in E1. rewrite E1. cbn [mbind res_bind].
  destruct (sweep_loop_Ok (Nat.min (length (validators s)) MAX_VALIDATORS_PER_WITHDRAWALS_SWEEP) s
    (get_current_epoch s) ws1 (next_withdrawal_index s) (next_withdrawal_validator_index s))
    as (ws & E2 & H4 & H5); try done; [lia|].
  rewrite E2. exists ws, n. split_and!; try done; lia.
Qed.

(** ** Paying them *)

Lemma sumZ_insert l i x y : l !! i = Some x -> sumZ (<[i := y]> l) = sumZ l - x + y.
Proof.
  revert i. induction l as [|z l IH]; intros i Hi; [done|]. destruct i as [|i]; cbn in *.
  - simplify_eq. lia.
  - rewrite IH by done. lia.
Qed.

Lemma pay_all ws s :
  shape s -> Forall is_u64 (balances s) ->
  Forall (fun w => in_registry s (w_validator_index w) /\ 0 <= w_amount w) ws ->
  (forall i b, 0 <= i -> balances s !! Z.to_nat i = Some b -> taken ws i <= b) ->
  exists l, forM ws (fun w => decrease_balance (w_validator_index w) (w_amount w)) s = (set_balances l s, Ok tt) /\
    length l = length (balances s) /\ sumZ l = sumZ (balances s) - paid_out ws /\
    forall i b, 0 <= i -> balances s !! Z.to_nat i = Some b -> l !! Z.to_nat i = Some (b - taken ws i).
Proof.
  intros Hs Hu Hr. revert s Hs Hu Hr. induction ws as [|w ws IH]; intros s Hs Hu Hr Ht.
  { exists (balances s). split_and!; [by destruct s|done|unfold paid_out; cbn; lia|]. intros i b _ Hb.
    unfold taken. cbn. rewrite Hb. f_equal. lia. }
  apply Forall_cons in Hr as [[Hi Ha] Hr]. destruct (registry_balance s _ Hs Hi) as (v & b & Hv & Hb).
  set (i := w_validator_index w) in *. assert (0 <= i) as Hi0 by apply Hi.
  assert (0 <= taken ws i) as Hnn.
  { unfold taken. clear -Hr. induction Hr as [|w' ws [_ Hw] _ IH]; [done|]. rewrite filter_cons. case_decide; cbn; lia. }
  pose proof (Ht i b Hi0 Hb) as Hb1. rewrite taken_cons, decide_True in Hb1 by done.
  cbn [forM]. assert (decrease_balance i (w_amount w) s =
    (set_balances (<[Z.to_nat i := b - w_amount w]> (balances s)) s, Ok tt)) as E1.
  { unfold decrease_balance. rewrite Hb. unfold u64_saturating_sub. by rewrite Z.max_r by lia. }
  rewrite (bindM_run _ _ _ _ _ E1). set (s1 := set_balances _ s) in *.
  assert (balances s1 = <[Z.to_nat i := b - w_amount w]> (balances s)) as Hb1' by done.
  pose proof (Forall_lookup_1 _ _ _ _ Hu Hb) as Hub. unfold is_u64 in Hub.
  destruct (IH s1) as (l & E & Hl & Hsum & Hpt).
  - by apply shape_balances; [|rewrite length_insert].
  - rewrite Hb1'. apply Forall_insert; [done|]. unfold is_u64. lia.
  - done.
  - intros j b' Hj Hb'. rewrite Hb1' in Hb'. destruct (decide (i = j)) as [<-|Hne].
    + rewrite list_lookup_insert_eq in Hb' by by eapply lookup_lt_Some. simplify_eq. lia.
    + rewrite list_lookup_insert_ne in Hb' by lia. specialize (Ht j b' Hj Hb').
      rewrite taken_cons, decide_False in Ht by done. lia.
  - exists l. rewrite Hb1' in Hl, Hsum, Hpt. rewrite length_insert in Hl. split_and!; [by rewrite E|done| |].
    + rewrite Hsum, (sumZ_insert _ _ _ _ Hb). unfold paid_out. cbn. lia.
    + intros j b' Hj Hb'. rewrite taken_cons. fold i. case_decide as Hd.
      * subst j. assert (b' = b) as -> by congruence. rewrite (Hpt i (b - w_amount w)); [f_equal; lia|done|].
        apply list_lookup_insert_eq. by eapply lookup_lt_Some.
      * rewrite (Hpt j b'); [f_equal; lia|done|]. rewrite list_lookup_insert_ne by lia. done.
Qed.

(** The number after the last withdrawal's. *)
Lemma next_index s first ws :
  payable s first ws -> 0 <= first < 2 ^ 64 - 16 -> (length ws <= 16)%nat ->
  match last ws with Some latest => (w_index latest + 1)%u64 | None => first end = first + Z.of_nat (length ws).
Proof.
  intros Hp Hf Hl. destruct (last ws) as [w|] eqn:E; [|apply last_None in E as ->; cbn; lia].
  apply last_Some in E as [ws0 ->]. rewrite length_app in *. cbn in *.
  rewrite (py_indices _ _ _ Hp (length ws0) w) by by apply list_lookup_middle.
  rewrite u64_add_id by u64_solve. lia.
Qed.

(** Pushing back what fits. *)
Lemma push_partials_Ok l err s :
  Z.of_nat (length (pending_partial_withdrawals s) + length l) <= PENDING_PARTIAL_WITHDRAWALS_LIMIT ->
  forM l (fun w => push_pending_partial_withdrawal w err) s =
  (set_pending_partial_withdrawals (pending_partial_withdrawals s ++ l) s, Ok tt).
Proof.
  revert s. induction l as [|w l IH]; intros s Hl.
  { cbn. rewrite app_nil_r. by destruct s. }
  cbn [forM length] in *. assert (push_pending_partial_withdrawal w err s =
    (set_pending_partial_withdrawals (pending_partial_withdrawals s ++ [w]) s, Ok tt)) as E1.
  { unfold push_pending_partial_withdrawal, push_to. rewrite vl_push_spec.
    by rewrite (proj2 (Z.ltb_lt _ _)) by lia. }
  rewrite (bindM_run _ _ _ _ _ E1), IH; cbn.
  - by rewrite <-app_assoc.
  - rewrite length_app. cbn. lia.
Qed.

Context {R : Roots} {B : Bls} {N : BeaconNetworkSpec}.

Lemma process_withdrawals_Ok s payload ws n :
  withdrawals_ready s -> get_expected_withdrawals s = Ok (ws, n) ->
  payable s (next_withdrawal_index s) ws -> (length ws <= 16)%nat ->
  if decide (ep_withdrawals payload = ws) then
    exists s', process_withdrawals payload s = (s', Ok tt) /\
      sumZ (balances s') = sumZ (balances s) - paid_out ws /\
      (forall i b, 0 <= i -> balances s !! Z.to_nat i = Some b ->
         balances s' !! Z.to_nat i = Some (b - taken ws i)) /\
      validators s' = validators s /\
      pending_partial_withdrawals s' = drop (Z.to_nat n) (pending_partial_withdrawals s) /\
      next_withdrawal_index s' = next_withdrawal_index s + Z.of_nat (length ws) /\
      in_registry s' (next_withdrawal_validator_index s')
  else process_withdrawals payload s = (s, Err "Withdrawals do not match expected withdrawals"%string).
Proof.
  intros Hr E Hp Hlen. destruct Hr as [Hs Hu Hpend Hlim Hn Hidx].
  destruct (decide (ep_withdrawals payload = ws)) as [Hd|Hd].
  2: { unfold process_withdrawals. rewrite (bindM_match (reads _)). unfold reads at 1. rewrite E.
       rewrite (bindM_match (ensureM _ _)). unfold ensureM, reads at 1, ensure. by rewrite bool_decide_eq_false_2. }
  destruct (pay_all ws s Hs Hu) as (l & El & Hl & Hsum & Hpt); [apply Hp|apply Hp|].
  set (k := match last ws with Some latest => (w_index latest + 1)%u64 | None => next_withdrawal_index s end).
  assert (k = next_withdrawal_index s + Z.of_nat (length ws)) as Hk.
  { apply (next_index s); [done|lia..]. }
  set (nv := Z.of_nat (length (validators s))). assert (0 < nv) as Hnv by (pose proof (sh_nonempty s Hs); unfold nv; lia).
  set (x := if (length ws =? 16)%nat then match last ws with Some latest => (w_validator_index latest + 1)%u64 | None => 0 end
            else (next_withdrawal_validator_index s + 16384)%u64).
  exists (set_next_withdrawal_validator_index (x mod nv) (set_next_withdrawal_index k
    (set_pending_partial_withdrawals (drop (Z.to_nat n) (pending_partial_withdrawals s)) (set_balances l s)))).
  pose proof (Z.mod_pos_bound x nv Hnv) as Hx. split; [|split_and!; cbn; try done; apply Hx].
  unfold process_withdrawals. apply bindM_Ok. exists s, (ws, n). split; [unfold reads; by rewrite E|].
  apply bindM_Ok. exists s, tt. split; [unfold ensureM, reads, ensure; by rewrite bool_decide_eq_true_2|].
  apply bindM_Ok. eexists _, tt. split; [exact El|]. apply bindM_Ok. eexists _, _. split; [done|].
  apply bindM_Ok. eexists _, tt. split; [done|]. apply bindM_Ok. eexists _, tt. split.
  { apply push_partials_Ok. cbn [pending_partial_withdrawals set_pending_partial_withdrawals length set_balances].
    rewrite length_drop. lia. }
  cbn [pending_partial_withdrawals set_pending_partial_withdrawals app set_balances].
  set (s2 := set_pending_partial_withdrawals _ (set_pending_partial_withdrawals [] _)).
  apply bindM_Ok. exists (set_next_withdrawal_index k s2), tt. split.
  { unfold k. by destruct (last ws). }
  apply bindM_Ok. eexists _, (x mod nv). split; [|done]. unfold reads, u64_rem, MAX_WITHDRAWALS_PER_PAYLOAD,
    MAX_VALIDATORS_PER_WITHDRAWALS_SWEEP. cbn [validators set_next_withdrawal_index s2 next_withdrawal_validator_index
    set_pending_partial_withdrawals set_balances]. fold nv. rewrite (proj2 (Z.eqb_neq nv 0)) by lia. unfold x.
  destruct (length ws =? 16)%nat eqn:E16; [|done]. apply Nat.eqb_eq in E16.
  destruct (last ws) eqn:El'; [done|]. apply last_None in El'. by rewrite El' in E16.
Qed.
End withdrawals.
