(* ===== verification/BeaconRewards.v ===== *)
(** * Rewards in one pass

    [process_rewards_and_penalties] pays each validator in one pass over the registry;
    the result is what applying the delta lists of the three flags and of the inactivity
    penalties one after the other gives. *)

From stdpp Require Import strings.
From S2P Require Import Prelude StateMonad Bytes Shuffling Merkle BeaconTypes BeaconAccess BeaconMutate BeaconEpoch BeaconBlockOps BeaconFacts BeaconRegistry BeaconSafety BeaconParticipation BeaconJustification BeaconEpochSafety.

(** [increase_balance] by the reward, then [decrease_balance] by the penalty. *)
Definition apply_delta (b : Z) (rp : Z * Z) : Z := u64_saturating_sub (b + rp.1)%u64 rp.2.

Definition apply_deltas (bs : list Z) (d : list Z * list Z) : list Z := zip_with apply_delta bs (zip d.1 d.2).

(** ** Lists filled at distinct indices *)

Definition add_one (D : Z -> res anyhow Z) (acc : list Z) (i : Z) : res anyhow (list Z) :=
  d ← D i; add_at acc (Z.to_nat i) d.

Definition add_both (D : Z -> res anyhow (Z * Z)) (acc : list Z * list Z) (i : Z) : res anyhow (list Z * list Z) :=
  d ← D i; rewards ← add_at acc.1 (Z.to_nat i) (fst (d : Z * Z));
  penalties ← add_at acc.2 (Z.to_nat i) (snd (d : Z * Z)); Ok (rewards, penalties).

Lemma add_at_Ok l i x d : l !! i = Some x -> add_at l i d = Ok (<[i := (x + d)%u64]> l).
Proof. intros Hx. unfold add_at. by rewrite (index_lookup _ _ _ Hx). Qed.

Lemma fill_Ok n (D : Z -> res anyhow Z) (delta : nat -> Z) l acc :
  NoDup l -> Forall (fun i => 0 <= i < Z.of_nat n) l ->
  (forall i, i ∈ l -> D i = Ok (delta (Z.to_nat i)) /\ is_u64 (delta (Z.to_nat i))) ->
  length acc = n -> (forall i, i ∈ l -> acc !! Z.to_nat i = Some 0) ->
  exists acc', foldM (add_one D) acc l = Ok acc' /\ length acc' = n /\
    forall j, acc' !! j = (if decide (Z.of_nat j ∈ l) then Some (delta j) else acc !! j).
Proof.
  intros Hd Hn HD. revert acc. induction l as [|i l IH]; intros acc H1 Hz.
  { exists acc. split_and!; [done..|]. intros j. rewrite decide_False by set_solver. done. }
  apply NoDup_cons in Hd as [Hi Hd]. apply Forall_cons in Hn as [Hi' Hn].
  pose proof (Hz i ltac:(set_solver)) as Z1. cbn [foldM]. unfold add_one at 2.
  destruct (HD i ltac:(set_solver)) as [Ei Ui]. rewrite Ei. cbn [mbind res_bind]. rewrite (add_at_Ok _ _ _ _ Z1).
  rewrite u64_add_id, Z.add_0_l by done. cbn [mbind res_bind].
  destruct (IH Hd Hn ltac:(intros; apply HD; set_solver) (<[Z.to_nat i := delta (Z.to_nat i)]> acc)) as (acc' & E & L1 & Hj).
  - by rewrite length_insert.
  - intros k Hk. rewrite Forall_forall in Hn. specialize (Hn k Hk).
    assert (Z.to_nat i <> Z.to_nat k) by (intros ?; assert (i = k) by lia; by subst).
    rewrite list_lookup_insert_ne by done. apply Hz. set_solver.
  - exists acc'. split_and!; [done..|]. intros j. rewrite Hj. destruct (decide (j = Z.to_nat i)) as [->|Hne].
    + rewrite (decide_False (P := _ ∈ l)), (decide_True (P := _ ∈ i :: l)) by (rewrite Z2Nat.id by lia; set_solver).
      apply lookup_lt_Some in Z1. by rewrite list_lookup_insert_eq.
    + rewrite list_lookup_insert_ne by done. apply decide_ext. rewrite elem_of_cons. split; [tauto|].
      intros [?|?]; [lia|done].
Qed.

Lemma fill_both D a a' b b' l :
  foldM (add_one (fun i => d ← D i; Ok (fst (d : Z * Z)))) a l = Ok a' ->
  foldM (add_one (fun i => d ← D i; Ok (snd (d : Z * Z)))) b l = Ok b' ->
  foldM (add_both D) (a, b) l = Ok (a', b').
Proof.
  revert a b. induction l as [|i l IH]; intros a b E1 E2; cbn [foldM] in *; [by simplify_eq|].
  unfold add_one at 2 in E1. unfold add_one at 2 in E2. unfold add_both at 2. cbv beta in E1, E2.
  destruct (D i) as [[r p]| | |]; [|done..]. cbn [mbind res_bind fst snd] in *.
  destruct (add_at a (Z.to_nat i) r); [|done..]. destruct (add_at b (Z.to_nat i) p); [|done..].
  by apply IH.
Qed.

Section rewards.
Context {H : Sha256} {HLaw : Sha256Laws H} {F : CandidateFuel} {HO : HashOrder} {HOL : HashOrderLaws HO}.
Context {SV : SszVec} {SVL : SszVecLaws SV}.

(** What a validator gains and loses for a flag, and for inactivity. *)
Definition flag_delta_of (s : BeaconState) (er : EpochRewards) (k i : nat) : Z * Z :=
  match flag_index_delta s er i k with Ok d => d | _ => (0, 0) end.
Definition penalty_of (s : BeaconState) (er : EpochRewards) (i : nat) : Z :=
  match inactivity_penalty s er i with Ok p => p | _ => 0 end.

Lemma u64_div_nonneg_bound a b : 0 <= a < 2 ^ 64 -> 0 <= b -> 0 <= a / b < 2 ^ 64.
Proof.
  intros Ha Hb. destruct (decide (b = 0)) as [->|Hne]; [rewrite Z.div_0_r; lia|].
  split; [apply Z.div_pos; lia|]. eapply Z.le_lt_trans; [apply Z.div_le_upper_bound|apply Ha]; nia.
Qed.

Lemma wrap_bound a : 0 <= wrap64 a < 2 ^ 64.
Proof. apply Z.mod_pos_bound. lia. Qed.

Lemma index_returns {E A} (l : list A) i : (i < length l)%nat -> exists a, index (E := E) l i = Ok a.
Proof. intros Hi. apply lookup_lt_is_Some_2 in Hi as [a Ha]. exists a. by apply index_Ok. Qed.

Lemma flag_index_delta_Ok s er n i k :
  rewards_shape n er -> (i < n <= length (validators s))%nat -> (k < 3)%nat ->
  flag_index_delta s er i k = Ok (flag_delta_of s er k i) /\
  is_u64 (flag_delta_of s er k i).1 /\ is_u64 (flag_delta_of s er k i).2.
Proof.
  intros (H1 & H2 & H3) Hi Hk. unfold flag_delta_of, flag_index_delta, get_base_reward. rewrite Nat2Z.id.
  destruct (index_returns (E := anyhow) (validators s) i) as [v ->]; [lia|]. cbn [mbind res_bind].
  destruct (index_returns (E := anyhow) PARTICIPATION_FLAG_WEIGHTS k) as [w ->]; [done|]. cbn [mbind res_bind].
  destruct (index_returns (E := anyhow) (er_flags er) k) as [[f inc] Ef]; [lia|]. rewrite Ef. cbn [mbind res_bind].
  apply index_Ok, (Forall_lookup_1 _ _ _ _ H2) in Ef. cbn in Ef.
  destruct (index_returns (E := anyhow) f i) as [b ->]; [lia|]. cbn [mbind res_bind]. unfold is_u64.
  destruct b; [destruct (er_is_in_inactivity_leak er); [done|]|destruct (_ =? _); [done|]].
  - unfold u64_div. rewrite (proj2 (Z.eqb_neq _ _)) by (unfold WEIGHT_DENOMINATOR; u64_simpl; lia). cbn.
    split; [done|]. split; [|lia]. apply u64_div_nonneg_bound; [apply wrap_bound|apply wrap_bound].
  - cbn. split; [done|]. split; [lia|]. apply u64_div_nonneg_bound; [apply wrap_bound|done].
Qed.

Lemma inactivity_penalty_Ok s er n i :
  shape s -> rewards_shape n er -> (i < n <= length (validators s))%nat ->
  inactivity_penalty s er i = Ok (penalty_of s er i) /\ is_u64 (penalty_of s er i).
Proof.
  intros Hs (H1 & H2 & H3) Hi. unfold penalty_of, inactivity_penalty.
  destruct (index_returns (E := anyhow) (er_flags er) (Z.to_nat TIMELY_TARGET_FLAG_INDEX)) as [[f inc] Ef];
    [rewrite H1; unfold TIMELY_TARGET_FLAG_INDEX; lia|]. rewrite Ef. cbn [mbind res_bind fst].
  apply index_Ok, (Forall_lookup_1 _ _ _ _ H2) in Ef. cbn in Ef.
  destruct (index_returns (E := anyhow) f i) as [b ->]; [lia|]. cbn [mbind res_bind].
  destruct b; [done|]. destruct (index_returns (E := anyhow) (validators s) i) as [v ->]; [lia|].
  destruct (index_returns (E := anyhow) (inactivity_scores s) i) as [x ->]; [rewrite (sh_scores s Hs); lia|].
  cbn. split; [done|]. apply u64_div_nonneg_bound; [apply wrap_bound|done].
Qed.

(** ** The delta lists *)

Definition eligible_at (s : BeaconState) (i : nat) : bool :=
  bool_decide (Z.of_nat i ∈ get_eligible_validator_indices s).

Lemma eligible_facts s :
  NoDup (get_eligible_validator_indices s) /\
  Forall (fun i => 0 <= i < Z.of_nat (length (validators s))) (get_eligible_validator_indices s).
Proof.
  split; [apply (NoDup_kept (fun v => is_eligible_for_rewards v (get_previous_epoch s)))|].
  apply Forall_forall. intros i Hi. by apply eligible_in_registry.
Qed.

Lemma replicate_zero n i : 0 <= i < Z.of_nat n -> replicate n 0 !! Z.to_nat i = Some 0.
Proof. intros Hi. apply lookup_replicate. split; [done|lia]. Qed.

(** The list of a total function of the eligible indices. *)
Lemma eligible_fill s (D : Z -> res anyhow Z) (delta : nat -> Z) :
  (forall i, (i < length (validators s))%nat -> D (Z.of_nat i) = Ok (delta i) /\ is_u64 (delta i)) ->
  exists l, foldM (add_one D) (replicate (length (validators s)) 0) (get_eligible_validator_indices s) = Ok l /\
    length l = length (validators s) /\
    forall i, (i < length (validators s))%nat -> l !! i = Some (if eligible_at s i then delta i else 0).
Proof.
  intros HD. destruct (eligible_facts s) as [Hnd Hin].
  destruct (fill_Ok (length (validators s)) D delta (get_eligible_validator_indices s)
    (replicate (length (validators s)) 0)) as (l & E & L & Hl); try done.
  - intros i Hi. rewrite Forall_forall in Hin. specialize (Hin i Hi).
    rewrite <-(Z2Nat.id i) at 1 by lia. apply HD. lia.
  - apply length_replicate.
  - intros i Hi. rewrite Forall_forall in Hin. apply replicate_zero, Hin, Hi.
  - exists l. split_and!; [done..|]. intros i Hi. rewrite Hl, lookup_replicate_2 by done. unfold eligible_at.
    by case_bool_decide; case_decide.
Qed.

Definition deltas_of (s : BeaconState) (d : list Z * list Z) (delta : nat -> Z * Z) : Prop :=
  length d.1 = length (validators s) /\ length d.2 = length (validators s) /\
  forall i, (i < length (validators s))%nat ->
    zip d.1 d.2 !! i = Some (if eligible_at s i then delta i else (0, 0)).

Lemma flag_deltas_Ok s er k :
  epoch_rewards s = Ok er -> rewards_shape (length (validators s)) er -> 0 <= k < 3 ->
  exists d, get_flag_index_deltas s k = Ok d /\ deltas_of s d (flag_delta_of s er (Z.to_nat k)).
Proof.
  intros He Hr Hk. set (D := fun i => flag_index_delta s er (Z.to_nat i) (Z.to_nat k)).
  assert (forall i, (i < length (validators s))%nat -> D (Z.of_nat i) = Ok (flag_delta_of s er (Z.to_nat k) i) /\
    is_u64 (flag_delta_of s er (Z.to_nat k) i).1 /\ is_u64 (flag_delta_of s er (Z.to_nat k) i).2) as HD.
  { intros i Hi. unfold D. rewrite Nat2Z.id.
    apply (flag_index_delta_Ok _ _ (length (validators s))); [done|lia|lia]. }
  destruct (eligible_fill s (fun i => d ← D i; Ok (fst (d : Z * Z))) (fun i => (flag_delta_of s er (Z.to_nat k) i).1))
    as (r & Er & Lr & Hlr); [intros i Hi; by destruct (HD i Hi) as (-> & ? & ?)|].
  destruct (eligible_fill s (fun i => d ← D i; Ok (snd (d : Z * Z))) (fun i => (flag_delta_of s er (Z.to_nat k) i).2))
    as (p & Ep & Lp & Hlp); [intros i Hi; by destruct (HD i Hi) as (-> & ? & ?)|].
  exists (r, p). unfold get_flag_index_deltas. rewrite He. split; [exact (fill_both _ _ _ _ _ _ Er Ep)|].
  split_and!; [done..|]. intros i Hi. cbn [fst snd]. rewrite lookup_zip_with, Hlr, Hlp by done.
  destruct (eligible_at s i); [|done]. cbn. by destruct (flag_delta_of _ _ _ _).
Qed.

Lemma penalty_deltas_Ok s er :
  shape s -> epoch_rewards s = Ok er -> rewards_shape (length (validators s)) er ->
  exists d, get_inactivity_penalty_deltas s = Ok d /\ deltas_of s d (fun i => (0, penalty_of s er i)).
Proof.
  intros Hs He Hr.
  destruct (eligible_fill s (fun i => inactivity_penalty s er (Z.to_nat i)) (penalty_of s er)) as (p & Ep & Lp & Hlp).
  { intros i Hi. rewrite Nat2Z.id. apply (inactivity_penalty_Ok _ _ (length (validators s))); [done|done|lia]. }
  exists (replicate (length (validators s)) 0, p). unfold get_inactivity_penalty_deltas. rewrite He. cbn [mbind res_bind].
  unfold add_one in Ep. rewrite Ep. split; [done|]. split_and!; [apply length_replicate|done|].
  intros i Hi. cbn [fst snd]. rewrite lookup_zip_with, Hlp, lookup_replicate_2 by done. cbn.
  by destruct (eligible_at s i).
Qed.

(** ** The pass over the registry *)

Definition pay (s : BeaconState) (er : EpochRewards) (i : nat) (b : Z) : Z :=
  if eligible_at s i then
    u64_saturating_sub
      (apply_delta (apply_delta (apply_delta b (flag_delta_of s er 0 i)) (flag_delta_of s er 1 i))
         (flag_delta_of s er 2 i)) (penalty_of s er i)
  else b.

Lemma eligible_at_validator s i v :
  validators s !! i = Some v -> eligible_at s i = is_eligible_for_rewards v (get_previous_epoch s).
Proof.
  intros Hv. unfold eligible_at. apply eq_true_iff_eq. rewrite bool_decide_eq_true.
  etrans; [apply (elem_of_kept (fun v => is_eligible_for_rewards v (get_previous_epoch s)))|].
  rewrite Nat2Z.id. split.
  - intros (_ & v' & Hv' & He). by simplify_eq.
  - intros He. split; [lia|]. by exists v.
Qed.

Lemma reward_validator_Ok s er i b l :
  shape s -> rewards_shape (length (validators s)) er -> (i < length (validators s))%nat -> l !! i = Some b ->
  reward_validator er (get_previous_epoch s) i (set_balances l s) =
  (set_balances (<[i := pay s er i b]> l) s, Ok tt).
Proof.
  intros Hs Hr Hi Hb. apply lookup_lt_is_Some in Hi as Hv. destruct Hv as [v Hv].
  assert (forall l', flag_index_delta (set_balances l' s) er i = flag_index_delta s er i) as Hf by done.
  assert (forall l', inactivity_penalty (set_balances l' s) er i = inactivity_penalty s er i) as Hp by done.
  assert (forall l' x f, l' !! i = Some x ->
    update_balance i f (set_balances l' s) = (set_balances (<[i := f x]> l') s, Ok tt)) as Hu.
  { intros l' x f Hx. unfold update_balance. cbn. by rewrite Hx. }
  apply lookup_lt_Some in Hb as Hlt. unfold pay. rewrite (eligible_at_validator s i v Hv).
  unfold reward_validator. rewrite bindM_match. unfold reads at 1. cbn [validators set_balances].
  rewrite (index_lookup _ _ _ Hv).
  destruct (is_eligible_for_rewards v (get_previous_epoch s)); cbn [negb]; [|by rewrite list_insert_id].
  change (seq 0 (length PARTICIPATION_FLAG_WEIGHTS)) with [0; 1; 2]%nat. cbn [forM].
  pose (step := fun k : nat => (d ← reads (fun s0 => flag_index_delta s0 er i k);
    update_balance i (fun b0 => u64_saturating_sub (b0 + fst (d : Z * Z))%u64 (snd (d : Z * Z)))) : BM unit).
  assert (forall k l' x, (k < 3)%nat -> l' !! i = Some x ->
    step k (set_balances l' s) = (set_balances (<[i := apply_delta x (flag_delta_of s er k i)]> l') s, Ok tt)) as Hstep.
  { intros k l' x Hk Hx. unfold step. rewrite bindM_match. unfold reads. rewrite Hf.
    destruct (flag_index_delta_Ok s er (length (validators s)) i k) as [-> _]; [done|lia|done|]. by apply (Hu l' x). }
  apply bindM_Ok. eexists _, tt. split.
  - apply bindM_Ok. eexists _, tt. split; [by apply (Hstep 0%nat l b); [lia|]|].
    apply bindM_Ok. eexists _, tt. split; [apply (Hstep 1%nat); [lia|by apply list_lookup_insert_eq]|].
    apply bindM_Ok. eexists _, tt. split; [apply (Hstep 2%nat); [lia|apply list_lookup_insert_eq; by rewrite length_insert]|].
    done.
  - apply bindM_Ok. eexists _, _. split; [unfold reads; rewrite Hp;
      destruct (inactivity_penalty_Ok s er (length (validators s)) i) as [-> _]; [done|done|lia|done]|].
    erewrite Hu by (apply list_lookup_insert_eq; by rewrite !length_insert). by rewrite !list_insert_insert_eq.
Qed.

(** The pass over the indices from [k] on. *)
Lemma reward_pass_Ok s er m k l :
  shape s -> rewards_shape (length (validators s)) er -> length l = length (validators s) ->
  (k + m = length (validators s))%nat ->
  exists l', forM (seq k m) (reward_validator er (get_previous_epoch s)) (set_balances l s) = (set_balances l' s, Ok tt) /\
    length l' = length (validators s) /\
    forall i, l' !! i = (if decide (k <= i)%nat then pay s er i <$> l !! i else l !! i).
Proof.
  intros Hs Hr. revert k l. induction m as [|m IH]; intros k l Hl Hk; cbn [seq forM].
  { exists l. split_and!; [done..|]. intros i. case_decide; [|done]. rewrite lookup_ge_None_2 by lia. done. }
  destruct (lookup_lt_is_Some_2 l k) as [b Hb]; [lia|].
  destruct (IH (S k) (<[k := pay s er k b]> l)) as (l' & E & L & Hl'); [by rewrite length_insert|lia|].
  exists l'. split_and!; [|done|].
  - assert (k < length (validators s))%nat as Hk' by lia.
    by rewrite (bindM_run _ _ _ _ _ (reward_validator_Ok s er k b l Hs Hr Hk' Hb)).
  - intros i. rewrite Hl'. destruct (decide (i = k)) as [->|Hne].
    + rewrite decide_False, decide_True by lia. rewrite list_lookup_insert_eq by lia. by rewrite Hb.
    + rewrite list_lookup_insert_ne by done. repeat case_decide; try lia; done.
Qed.

(** ** The two agree *)

Lemma deltas_lookup s d delta l i b :
  deltas_of s d delta -> length l = length (validators s) -> l !! i = Some b ->
  apply_deltas l d !! i = Some (apply_delta b (if eligible_at s i then delta i else (0, 0))).
Proof.
  intros (_ & _ & Hd) Hl Hb. unfold apply_deltas. rewrite lookup_zip_with, Hb.
  rewrite Hd; [done|]. apply lookup_lt_Some in Hb. lia.
Qed.

Lemma apply_deltas_length s d delta l :
  deltas_of s d delta -> length l = length (validators s) -> length (apply_deltas l d) = length (validators s).
Proof. intros (H1 & H2 & _) Hl. unfold apply_deltas. rewrite !length_zip_with. lia. Qed.

Lemma apply_delta_zero b : is_u64 b -> apply_delta b (0, 0) = b.
Proof. unfold is_u64. intros Hb. unfold apply_delta, u64_saturating_sub. cbn. rewrite u64_add_id by u64_solve. lia. Qed.

Lemma apply_delta_u64 b d : 0 <= d.2 -> is_u64 (apply_delta b d).
Proof.
  intros Hd. unfold apply_delta, u64_saturating_sub, is_u64. pose proof (wrap_bound (b + d.1)).
  unfold u64_add. lia.
Qed.

Lemma epoch_rewards_Ok s : exists er, epoch_rewards s = Ok er.
Proof.
  unfold epoch_rewards. rewrite (mapR_fmap _ (fun flag => (participates (get_previous_epoch s) flag <$>
    zip (validators s) (participation_of s (get_previous_epoch s)),
    attesting_balance s flag (get_previous_epoch s) / EFFECTIVE_BALANCE_INCREMENT)))
    by (intros flag _; by rewrite mask_Ok by by left).
  rewrite get_base_reward_per_increment_Ok, get_total_active_balance_Ok. by eexists.
Qed.

Lemma process_rewards_Ok s :
  shape s -> Forall is_u64 (balances s) -> get_current_epoch s <> GENESIS_EPOCH ->
  exists d0 d1 d2 dp,
    get_flag_index_deltas s TIMELY_SOURCE_FLAG_INDEX = Ok d0 /\
    get_flag_index_deltas s TIMELY_TARGET_FLAG_INDEX = Ok d1 /\
    get_flag_index_deltas s TIMELY_HEAD_FLAG_INDEX = Ok d2 /\
    get_inactivity_penalty_deltas s = Ok dp /\
    process_rewards_and_penalties s =
      (set_balances (foldl apply_deltas (balances s) [d0; d1; d2; dp]) s, Ok tt).
Proof.
  intros Hs Hu He. destruct (epoch_rewards_post s Hs) as [_ Hpost].
  destruct (epoch_rewards_Ok s) as [er Er]. specialize (Hpost er Er).
  destruct (flag_deltas_Ok s er TIMELY_SOURCE_FLAG_INDEX) as (d0 & E0 & D0); [done|done|unfold TIMELY_SOURCE_FLAG_INDEX; lia|].
  destruct (flag_deltas_Ok s er TIMELY_TARGET_FLAG_INDEX) as (d1 & E1 & D1); [done|done|unfold TIMELY_TARGET_FLAG_INDEX; lia|].
  destruct (flag_deltas_Ok s er TIMELY_HEAD_FLAG_INDEX) as (d2 & E2 & D2); [done|done|unfold TIMELY_HEAD_FLAG_INDEX; lia|].
  destruct (penalty_deltas_Ok s er Hs Er Hpost) as (dp & Ep & Dp). exists d0, d1, d2, dp. split_and!; try done.
  destruct (reward_pass_Ok s er (length (validators s)) 0 (balances s)) as (l & E & L & Hl);
    [done|done|apply Hs|lia|].
  assert (foldl apply_deltas (balances s) [d0; d1; d2; dp] = l) as ->.
  { cbn [foldl]. pose proof (sh_balances s Hs) as Hb.
    pose proof (apply_deltas_length _ _ _ _ D0 Hb) as L0. pose proof (apply_deltas_length _ _ _ _ D1 L0) as L1.
    pose proof (apply_deltas_length _ _ _ _ D2 L1) as L2. pose proof (apply_deltas_length _ _ _ _ Dp L2) as L3.
    apply list_eq. intros i. rewrite Hl, decide_True by lia. destruct (balances s !! i) as [b|] eqn:Eb.
    - rewrite (deltas_lookup _ _ _ _ _ _ Dp L2 (deltas_lookup _ _ _ _ _ _ D2 L1
        (deltas_lookup _ _ _ _ _ _ D1 L0 (deltas_lookup _ _ _ _ _ _ D0 Hb Eb)))). cbn. f_equal. unfold pay.
      pose proof (Forall_lookup_1 _ _ _ _ Hu Eb) as Ub. apply lookup_lt_Some in Eb.
      destruct (eligible_at s i); [|by rewrite !(apply_delta_zero b)].
      unfold apply_delta at 1. cbn [fst snd]. rewrite u64_add_id, Z.add_0_r; [done|]. rewrite Z.add_0_r.
      apply apply_delta_u64. destruct (flag_index_delta_Ok s er (length (validators s)) i 2) as (_ & _ & [? _]);
        [done|lia|lia|done].
    - apply lookup_ge_None in Eb. cbn. apply lookup_ge_None. lia. }
  unfold process_rewards_and_penalties. rewrite bindM_match. unfold reads at 1.
  rewrite (proj2 (Z.eqb_neq _ _)) by done. apply bindM_Ok. exists s, tt. split.
  { unfold reads, ensure. rewrite (sh_balances s Hs), Nat.leb_refl. done. }
  apply bindM_Ok. exists s, er. split; [unfold reads; by rewrite Er|].
  apply bindM_Ok. exists s, (get_previous_epoch s). split; [done|].
  apply bindM_Ok. exists s, (length (validators s)). split; [done|].
  rewrite <-E. by destruct s.
Qed.
End rewards.
