(* ===== verification/BeaconProofs.v ===== *)
(** * Inclusion proofs of the state's fields

    The tree [merkle_tree] builds has the recursively defined Merkle root, the proofs of
    the state's fields verify against the state root, and the proof of the finalized
    root goes one level deeper, through the checkpoint that holds it. *)

From stdpp Require Import strings.
From S2P Require Import Prelude StateMonad Bytes Shuffling Merkle BeaconTypes BeaconAccess BeaconMutate BeaconEpoch BeaconBlockOps BeaconTransition.

Section merkle_root.
Context {H : Sha256}.

(** The Merkle root of leaves padded with zeros to [2 ^ d]. *)
Fixpoint merkle_ref (d : nat) (leaves : list B256) : B256 :=
  match d with
  | O => default ZERO (head leaves)
  | S d' => hash_concat (merkle_ref d' (take (2 ^ d') leaves)) (merkle_ref d' (drop (2 ^ d') leaves))
  end.

Lemma merkle_ref_take d leaves : merkle_ref d (take (2 ^ d) leaves) = merkle_ref d leaves.
Proof.
  revert leaves. induction d as [|d IH]; intros leaves; cbn [merkle_ref]; [by destruct leaves|].
  replace (2 ^ S d)%nat with (2 ^ d + 2 ^ d)%nat by (cbn; lia).
  rewrite <-take_drop_commute, take_take, Nat.min_l, IH by lia. by rewrite IH.
Qed.

Lemma node_merkle_ref tree d leaves k g :
  tree_ok tree d -> (forall i, (i < 2 ^ d)%nat -> tree !! (2 ^ d + i)%nat = Some (default ZERO (leaves !! i))) ->
  (k <= d)%nat -> (g < 2 ^ (d - k))%nat ->
  tree !! (2 ^ (d - k) + g)%nat = Some (merkle_ref k (drop (g * 2 ^ k) leaves)).
Proof.
  intros [Hl Ht] Hleaf. revert g. induction k as [|k IH]; intros g Hk Hg.
  - rewrite Nat.sub_0_r in *. rewrite Hleaf by done. cbn. f_equal. f_equal.
    rewrite Nat.mul_1_r, <-(Nat.add_0_r g) at 1. rewrite <-lookup_drop. by destruct (drop g leaves).
  - assert (2 ^ (d - k) = 2 * 2 ^ (d - S k))%nat as Hp by (rewrite <-Nat.pow_succ_r'; f_equal; lia).
    assert (2 ^ (d - S k) + g < 2 ^ d)%nat as Hlt.
    { assert (2 ^ (d - k) <= 2 ^ d)%nat by (apply Nat.pow_le_mono_r; lia). lia. }
    assert (2 ^ (d - S k) <> 0)%nat by (apply Nat.pow_nonzero; lia).
    destruct (Ht (2 ^ (d - S k) + g)%nat ltac:(lia)) as (l & r & El & Er & ->).
    replace ((2 ^ (d - S k) + g) * 2)%nat with (2 ^ (d - k) + 2 * g)%nat in * by lia.
    rewrite IH in El by lia. rewrite <-Nat.add_assoc, IH in Er by lia. injection El as <-. injection Er as <-.
    cbn [merkle_ref]. f_equal. f_equal.
    + rewrite <-(merkle_ref_take k). f_equal. f_equal. f_equal. cbn. lia.
    + rewrite drop_drop. f_equal. f_equal. cbn. lia.
Qed.

Lemma merkle_tree_root leaves (d : nat) :
  (d < 62)%nat -> (length leaves <= 2 ^ d)%nat ->
  exists tree, merkle_tree leaves (Z.of_nat d) = Ok tree /\ tree_ok tree d /\
    (forall i, 0 <= i < 2 ^ Z.of_nat d -> node_at tree d i 0 = default ZERO (leaves !! Z.to_nat i)) /\
    (forall i, 0 <= i < 2 ^ Z.of_nat d -> node_at tree d i d = merkle_ref d leaves).
Proof.
  intros Hd Hl. destruct (merkle_tree_Ok leaves d ltac:(lia) Hl) as (tree & E & Ht & Hleaf).
  exists tree. split_and!; [done..| |]; intros i Hi; unfold node_at.
  - rewrite anc_leaf, Z2Nat.inj_add, pow_nat by lia. rewrite Hleaf; [done|].
    rewrite <-pow_nat. lia.
  - rewrite anc_root by done. pose proof (node_merkle_ref tree d leaves d 0 Ht Hleaf) as Hr.
    rewrite Nat.sub_diag in Hr. cbn [Nat.pow Nat.add Nat.mul] in Hr. rewrite drop_0 in Hr.
    change (Z.to_nat 1) with 1%nat. rewrite Hr by lia. done.
Qed.

(** ** Proofs one level deeper *)

Lemma range_shift n : 0 <= n -> range 0 (n + 1) = 0 :: (Z.succ <$> range 0 n).
Proof.
  intros Hn. unfold range. rewrite seqZ_cons by lia. f_equal.
  rewrite !Z.sub_0_r, Z.add_1_r, Z.pred_succ, <-(fmap_add_seqZ 1 0). apply list_fmap_ext. intros. lia.
Qed.

Lemma foldM_fmap {E S A A'} (f : S -> A' -> res E S) (g : A -> A') l s :
  foldM f s (g <$> l) = foldM (fun s a => f s (g a)) s l.
Proof.
  revert s. induction l as [|a l IH]; intros s; cbn; [done|]. destruct (f s (g a)); cbn; [apply IH|done..].
Qed.

Lemma foldM_ext {E S A} (f g : S -> A -> res E S) l s :
  (forall s a, a ∈ l -> f s a = g s a) -> foldM f s l = foldM g s l.
Proof.
  revert s. induction l as [|a l IH]; intros s Hf; cbn [foldM]; [done|]. rewrite Hf by set_solver.
  destruct (g s a); cbn; [apply IH; intros; apply Hf; set_solver|done..].
Qed.

(** The right child of the node a branch starts from. *)
Lemma branch_right_child leaf node branch (d : nat) i :
  (d < 62)%nat -> 0 <= i ->
  get_root_from_merkle_branch leaf (node :: branch) (Z.of_nat d + 1) (2 * i + 1) =
  get_root_from_merkle_branch (hash_concat node leaf) branch (Z.of_nat d) i.
Proof.
  intros Hd Hi. unfold get_root_from_merkle_branch. rewrite range_shift by lia. cbn [foldM].
  change (index (node :: branch) (Z.to_nat 0)) with (Ok node : res anyhow B256). cbn [mbind res_bind].
  assert (get_generalized_index_bit (2 * i + 1) 0 = true) as ->.
  { rewrite (index_bit _ 0) by lia. apply Z.testbit_odd_0. }
  rewrite foldM_fmap. apply foldM_ext. intros v k Hk%elem_of_range.
  replace (Z.to_nat (Z.succ k)) with (S (Z.to_nat k)) by lia. change (index (node :: branch) (S (Z.to_nat k)))
    with (index (E := anyhow) branch (Z.to_nat k)).
  replace (get_generalized_index_bit (2 * i + 1) (Z.succ k)) with (get_generalized_index_bit i k); [done|].
  rewrite <-(Z2Nat.id k) by lia. rewrite <-Nat2Z.inj_succ, !index_bit by lia.
  rewrite Nat2Z.inj_succ, Z.testbit_odd_succ by lia. done.
Qed.
End merkle_root.

(** [tree_hash]'s root of a string of 32-byte leaves, and of a container of two fields. *)
Class RootsLaws (H : Sha256) (R : Roots) : Prop := {
  merkle_root_spec : forall (d : nat) (leaves : list B256),
    Forall (fun l => length l = 32%nat) leaves -> (2 ^ d < 2 * length leaves)%nat -> (length leaves <= 2 ^ d)%nat ->
    merkle_root (concat leaves) (length leaves) = merkle_ref d leaves;
  checkpoint_root_spec : forall c : Checkpoint,
    tree_hash_root c = hash_concat (tree_hash_root (cp_epoch c)) (cp_root c);
}.

Section proofs.
Context {H : Sha256} {F : CandidateFuel} {HO : HashOrder} {SV : SszVec}.
Context {R : Roots} {RL : RootsLaws H R} {B : Bls} {N : BeaconNetworkSpec}.

Definition roots_are_32_bytes (s : BeaconState) : Prop := Forall (fun r => length r = 32%nat) (field_roots s).

Lemma field_proof s i leaf :
  roots_are_32_bytes s -> field_roots s !! Z.to_nat i = Some leaf -> 0 <= i ->
  exists proof, data_inclusion_proof s i = Ok proof /\ length proof = 6%nat /\
    get_root_from_merkle_branch leaf proof 6 i = Ok (state_root s).
Proof using RL.
  intros Hr Hleaf Hi. pose proof (lookup_lt_Some _ _ _ Hleaf) as Hlt. change (length (field_roots s)) with 38%nat in Hlt.
  destruct (merkle_tree_root (field_roots s) 6) as (tree & E & Ht & H0 & Hroot); [lia|cbn; lia|].
  exists (sibling_at tree 6 i <$> seq 0 6). unfold data_inclusion_proof, BEACON_STATE_MERKLE_DEPTH.
  change 6 with (Z.of_nat 6). rewrite E. cbn [mbind res_bind].
  assert (0 <= i < 2 ^ Z.of_nat 6) as Hi6 by (cbn; lia).
  rewrite (generate_proof_Ok tree 6 i Ht ltac:(lia) Hi6). split_and!; [done|by rewrite length_fmap|].
  pose proof (branch_prefix tree 6 i 6 Ht ltac:(lia) Hi6 ltac:(lia)) as Hb.
  rewrite H0, Hleaf, Hroot in Hb by done. cbn [default] in Hb. unfold default, id in Hb. rewrite Hb. f_equal.
  unfold state_root. symmetry. apply (merkle_root_spec 6); [done|cbn; lia|cbn; lia].
Qed.

Lemma branch_valid_root leaf branch d i root :
  Z.of_nat (length branch) = d -> get_root_from_merkle_branch leaf branch d i = Ok root ->
  is_valid_merkle_branch leaf branch d i root = Ok true.
Proof.
  intros Hl E. unfold is_valid_merkle_branch. rewrite Hl, Z.eqb_refl, E. cbn. by rewrite bool_decide_eq_true_2.
Qed.

Lemma finalized_root_proof s :
  roots_are_32_bytes s ->
  exists proof, finalized_root_inclusion_proof s = Ok proof /\ length proof = 7%nat /\
    is_valid_merkle_branch (cp_root (finalized_checkpoint s)) proof 7 41 (state_root s) = Ok true.
Proof using RL.
  intros Hr. destruct (field_proof s FINALIZED_CHECKPOINT_INDEX (tree_hash_root (finalized_checkpoint s)) Hr)
    as (proof & E & Hl & Hroot); [done|done|].
  exists (tree_hash_root (cp_epoch (finalized_checkpoint s)) :: proof). unfold finalized_root_inclusion_proof.
  rewrite E. split_and!; [done|cbn; by rewrite Hl|]. apply branch_valid_root; [cbn; by rewrite Hl|].
  change 7 with (Z.of_nat 6 + 1). change 41 with (2 * 20 + 1). rewrite branch_right_child by lia.
  rewrite <-checkpoint_root_spec. exact Hroot.
Qed.
End proofs.
