(* ===== verification/ForkTree.v ===== *)
(** * The fork choice tree of the beacon chain

    [crates/common/fork_choice/beacon/src/fork_choice_tree.rs]: the blocks since the
    finalized one, with the weight of every subtree, whether it holds a viable leaf, and
    the head one reaches from it, all kept up to date as blocks, votes, balances and
    checkpoints change.

    Every method that follows parent links has the number of nodes as fuel.  Weights are
    64-bit and saturate; the changes of weight are [i128] sums of 64-bit balances, far
    from their bounds, and are integers here. *)

From stdpp Require Import strings.
From S2P Require Import Prelude Bytes Shuffling BeaconTypes BeaconAccess.

(** Roots compare byte by byte. *)
Fixpoint bytes_leb (a b : list Z) : bool :=
  match a, b with
  | [], _ => true
  | _ :: _, [] => false
  | x :: a', y :: b' => (x <? y) || ((x =? y) && bytes_leb a' b')
  end.

Record ForkChoiceBlock : Type := mkForkChoiceBlock {
  fb_root : B256;
  fb_parent_root : B256;
  fb_slot : Z;
  fb_justified_checkpoint : Checkpoint;
  fb_unrealized_justified_checkpoint : Checkpoint;
}.

Record ViabilityContext : Type := mkViabilityContext {
  vc_justified_checkpoint : Checkpoint;
  vc_finalized_checkpoint : Checkpoint;
  vc_current_epoch : Z;
}.
#[global] Instance ViabilityContext_eq_dec : EqDecision ViabilityContext.
Proof. solve_decision. Defined.

Record ForkChoiceNode : Type := mkForkChoiceNode {
  fn_parent : option B256;
  fn_slot : Z;
  fn_children : list B256;
  fn_justified_checkpoint : Checkpoint;
  fn_unrealized_justified_checkpoint : Checkpoint;
  fn_weight : Z;
  fn_viable : bool;
  fn_best_descendant : B256;
}.

Record AppliedVote : Type := mkAppliedVote { av_root : B256; av_balance : Z }.

Record ForkChoiceTree : Type := mkForkChoiceTree {
  ft_root : B256;
  ft_nodes : gmap B256 ForkChoiceNode;
  ft_context : ViabilityContext;
  ft_balances : list Z;
  ft_balances_checkpoint : option Checkpoint;
  ft_proposer_score : Z;
  ft_votes : gmap Z AppliedVote;
  ft_pending_weight : gmap B256 Z;
  ft_equivocating : gset Z;
  ft_boost : option (B256 * Z);
}.

(** ** Field updates *)

Definition fn_set_parent (p : option B256) (n : ForkChoiceNode) : ForkChoiceNode :=
  mkForkChoiceNode p (fn_slot n) (fn_children n) (fn_justified_checkpoint n)
    (fn_unrealized_justified_checkpoint n) (fn_weight n) (fn_viable n) (fn_best_descendant n).
Definition fn_set_children (c : list B256) (n : ForkChoiceNode) : ForkChoiceNode :=
  mkForkChoiceNode (fn_parent n) (fn_slot n) c (fn_justified_checkpoint n)
    (fn_unrealized_justified_checkpoint n) (fn_weight n) (fn_viable n) (fn_best_descendant n).
Definition fn_set_weight (w : Z) (n : ForkChoiceNode) : ForkChoiceNode :=
  mkForkChoiceNode (fn_parent n) (fn_slot n) (fn_children n) (fn_justified_checkpoint n)
    (fn_unrealized_justified_checkpoint n) w (fn_viable n) (fn_best_descendant n).
Definition fn_set_best (v : bool) (b : B256) (n : ForkChoiceNode) : ForkChoiceNode :=
  mkForkChoiceNode (fn_parent n) (fn_slot n) (fn_children n) (fn_justified_checkpoint n)
    (fn_unrealized_justified_checkpoint n) (fn_weight n) v b.

Definition ft_set_root (v : B256) (t : ForkChoiceTree) : ForkChoiceTree :=
  mkForkChoiceTree v (ft_nodes t) (ft_context t) (ft_balances t) (ft_balances_checkpoint t)
    (ft_proposer_score t) (ft_votes t) (ft_pending_weight t) (ft_equivocating t) (ft_boost t).
Definition ft_set_nodes (v : gmap B256 ForkChoiceNode) (t : ForkChoiceTree) : ForkChoiceTree :=
  mkForkChoiceTree (ft_root t) v (ft_context t) (ft_balances t) (ft_balances_checkpoint t)
    (ft_proposer_score t) (ft_votes t) (ft_pending_weight t) (ft_equivocating t) (ft_boost t).
Definition ft_set_context (v : ViabilityContext) (t : ForkChoiceTree) : ForkChoiceTree :=
  mkForkChoiceTree (ft_root t) (ft_nodes t) v (ft_balances t) (ft_balances_checkpoint t)
    (ft_proposer_score t) (ft_votes t) (ft_pending_weight t) (ft_equivocating t) (ft_boost t).
Definition ft_set_balances (v : list Z) (c : option Checkpoint) (t : ForkChoiceTree) : ForkChoiceTree :=
  mkForkChoiceTree (ft_root t) (ft_nodes t) (ft_context t) v c
    (ft_proposer_score t) (ft_votes t) (ft_pending_weight t) (ft_equivocating t) (ft_boost t).
Definition ft_set_proposer_score (v : Z) (t : ForkChoiceTree) : ForkChoiceTree :=
  mkForkChoiceTree (ft_root t) (ft_nodes t) (ft_context t) (ft_balances t) (ft_balances_checkpoint t)
    v (ft_votes t) (ft_pending_weight t) (ft_equivocating t) (ft_boost t).
Definition ft_set_votes (v : gmap Z AppliedVote) (t : ForkChoiceTree) : ForkChoiceTree :=
  mkForkChoiceTree (ft_root t) (ft_nodes t) (ft_context t) (ft_balances t) (ft_balances_checkpoint t)
    (ft_proposer_score t) v (ft_pending_weight t) (ft_equivocating t) (ft_boost t).
Definition ft_set_pending_weight (v : gmap B256 Z) (t : ForkChoiceTree) : ForkChoiceTree :=
  mkForkChoiceTree (ft_root t) (ft_nodes t) (ft_context t) (ft_balances t) (ft_balances_checkpoint t)
    (ft_proposer_score t) (ft_votes t) v (ft_equivocating t) (ft_boost t).
Definition ft_set_equivocating (v : gset Z) (t : ForkChoiceTree) : ForkChoiceTree :=
  mkForkChoiceTree (ft_root t) (ft_nodes t) (ft_context t) (ft_balances t) (ft_balances_checkpoint t)
    (ft_proposer_score t) (ft_votes t) (ft_pending_weight t) v (ft_boost t).
Definition ft_set_boost (v : option (B256 * Z)) (t : ForkChoiceTree) : ForkChoiceTree :=
  mkForkChoiceTree (ft_root t) (ft_nodes t) (ft_context t) (ft_balances t) (ft_balances_checkpoint t)
    (ft_proposer_score t) (ft_votes t) (ft_pending_weight t) (ft_equivocating t) v.

(** The number of nodes: enough to follow parent links. *)
Definition walk_bound (t : ForkChoiceTree) : nat := size (ft_nodes t).

(** ** Reading *)

Definition contains (t : ForkChoiceTree) (root : B256) : bool := bool_decide (is_Some (ft_nodes t !! root)).

Fixpoint ancestor_loop (fuel : nat) (nodes : gmap B256 ForkChoiceNode) (root : B256) (slot : Z) :
    res anyhow (option B256) :=
  match nodes !! root with
  | None => Ok None
  | Some node =>
      if fn_slot node <=? slot then Ok (Some root)
      else match fn_parent node, fuel with
           | None, _ => Ok None
           | Some parent, S fuel' => ancestor_loop fuel' nodes parent slot
           | Some _, O => NoFuel
           end
  end.
Definition ancestor (t : ForkChoiceTree) (root : B256) (slot : Z) : res anyhow (option B256) :=
  ancestor_loop (walk_bound t) (ft_nodes t) root slot.

Definition tree_weight (t : ForkChoiceTree) (root : B256) : option Z := fn_weight <$> ft_nodes t !! root.

Definition tree_head (t : ForkChoiceTree) : B256 :=
  let justified_root := cp_root (vc_justified_checkpoint (ft_context t)) in
  match ft_nodes t !! justified_root with
  | Some node => fn_best_descendant node
  | None => justified_root
  end.

Definition balance_of (t : ForkChoiceTree) (validator_index : Z) : Z :=
  if bool_decide (validator_index ∈ ft_equivocating t) then 0
  else default 0 (ft_balances t !! Z.to_nat validator_index).

Definition apply_signed (value delta : Z) : Z := Z.min u64_max (Z.max 0 (value + delta)).

(** ** Viability and the best descendant *)

Fixpoint checkpoint_block_loop (fuel : nat) (nodes : gmap B256 ForkChoiceNode) (root : B256) (slot : Z) :
    res anyhow B256 :=
  match nodes !! root with
  | None => Ok root
  | Some node =>
      if fn_slot node <=? slot then Ok root
      else match fn_parent node, fuel with
           | None, _ => Ok root
           | Some parent, S fuel' => checkpoint_block_loop fuel' nodes parent slot
           | Some _, O => NoFuel
           end
  end.
Definition checkpoint_block (t : ForkChoiceTree) (root : B256) (slot : Z) : res anyhow B256 :=
  checkpoint_block_loop (walk_bound t) (ft_nodes t) root slot.

Definition is_leaf_viable (t : ForkChoiceTree) (root : B256) (node : ForkChoiceNode) : res anyhow bool :=
  let context := ft_context t in
  let voting_source :=
    if compute_epoch_at_slot (fn_slot node) <? vc_current_epoch context
    then fn_unrealized_justified_checkpoint node else fn_justified_checkpoint node in
  let correct_justified :=
    (cp_epoch (vc_justified_checkpoint context) =? GENESIS_EPOCH)
    || (cp_epoch voting_source =? cp_epoch (vc_justified_checkpoint context))
    || (vc_current_epoch context <=? (cp_epoch voting_source + 2)%u64) in
  correct_finalized ←
    (if cp_epoch (vc_finalized_checkpoint context) =? GENESIS_EPOCH then Ok true
     else block ← checkpoint_block t root
                    (compute_start_slot_at_epoch (cp_epoch (vc_finalized_checkpoint context)));
          Ok (bool_decide (block = cp_root (vc_finalized_checkpoint context))));
  Ok (correct_justified && correct_finalized).

(** The children in the tree that are viable, as candidates for [max_by_key]. *)
Definition viable_children (nodes : gmap B256 ForkChoiceNode) (children : list B256) :
    list (B256 * ForkChoiceNode) :=
  omap (fun child =>
    match nodes !! child with
    | Some value => if fn_viable value then Some (child, value) else None
    | None => None
    end) children.
Definition child_leb (a b : B256 * ForkChoiceNode) : bool :=
  (fn_weight a.2 <? fn_weight b.2)
  || ((fn_weight a.2 =? fn_weight b.2) && bytes_leb a.1 b.1).

Definition evaluate (t : ForkChoiceTree) (root : B256) (node : ForkChoiceNode) : res anyhow (bool * B256) :=
  match fn_children node with
  | [] => v ← is_leaf_viable t root node; Ok (v, root)
  | children =>
      Ok (match max_by child_leb (viable_children (ft_nodes t) children) with
          | Some (_, child_node) => (true, fn_best_descendant child_node)
          | None => (false, root)
          end)
  end.

Definition update_node (t : ForkChoiceTree) (root : B256) : res anyhow ForkChoiceTree :=
  match ft_nodes t !! root with
  | None => Ok t
  | Some node =>
      r ← evaluate t root node;
      Ok (ft_set_nodes (<[root := fn_set_best r.1 r.2 node]> (ft_nodes t)) t)
  end.

Fixpoint update_ancestors_loop (fuel : nat) (t : ForkChoiceTree) (cursor : option B256) :
    res anyhow ForkChoiceTree :=
  match cursor with
  | None => Ok t
  | Some current =>
      match ft_nodes t !! current, fuel with
      | None, _ => update_node t current
      | Some _, O => NoFuel
      | Some node, S fuel' =>
          t' ← update_node t current;
          update_ancestors_loop fuel' t' (fn_parent node)
      end
  end.
Definition update_ancestors (t : ForkChoiceTree) (from : B256) : res anyhow ForkChoiceTree :=
  update_ancestors_loop (walk_bound t) t (Some from).

(** Nodes by descending slot, then descending root. *)
Definition order_leb (a b : Z * B256) : bool := (b.1 <? a.1) || ((b.1 =? a.1) && bytes_leb b.2 a.2).

Section tree.
Context {HO : HashOrder}.

Definition recompute_all (t : ForkChoiceTree) : res anyhow ForkChoiceTree :=
  let order := (fun rn : B256 * ForkChoiceNode => (fn_slot rn.2, rn.1)) <$> hm_iter (ft_nodes t) in
  foldM (fun t sr => update_node t sr.2) t (sort_by order_leb order).

(** ** Weights *)

Fixpoint weight_loop (fuel : nat) (nodes : gmap B256 ForkChoiceNode) (cursor : option B256) (delta : Z) :
    res anyhow (gmap B256 ForkChoiceNode * list B256) :=
  match cursor with
  | None => Ok (nodes, [])
  | Some current =>
      match nodes !! current, fuel with
      | None, _ => Ok (nodes, [])
      | Some _, O => NoFuel
      | Some node, S fuel' =>
          r ← weight_loop fuel'
                (<[current := fn_set_weight (apply_signed (fn_weight node) delta) node]> nodes)
                (fn_parent node) delta;
          Ok (r.1, current :: r.2)
      end
  end.

Definition apply_weight_delta (t : ForkChoiceTree) (root : B256) (delta : Z) : res anyhow ForkChoiceTree :=
  if delta =? 0 then Ok t
  else
    r ← weight_loop (walk_bound t) (ft_nodes t) (Some root) delta;
    foldM update_node (ft_set_nodes r.1 t) r.2.

Definition adjust_pending_weight (t : ForkChoiceTree) (root : B256) (delta : Z) : ForkChoiceTree :=
  if delta =? 0 then t
  else
    let current := default 0 (ft_pending_weight t !! root) in
    let updated := apply_signed current delta in
    if updated =? 0 then ft_set_pending_weight (delete root (ft_pending_weight t)) t
    else ft_set_pending_weight (<[root := updated]> (ft_pending_weight t)) t.

Definition apply_deltas (t : ForkChoiceTree) (deltas : gmap B256 Z) : res anyhow ForkChoiceTree :=
  foldM (fun t rd =>
    if contains t rd.1 then apply_weight_delta t rd.1 rd.2
    else Ok (adjust_pending_weight t rd.1 rd.2)) t (hm_iter deltas).

(** [*deltas.entry(root).or_default() += d]. *)
Definition add_delta (deltas : gmap B256 Z) (root : B256) (d : Z) : gmap B256 Z :=
  <[root := default 0 (deltas !! root) + d]> deltas.

(** ** Votes *)

(** One latest message: the votes and the changes of weight so far. *)
Definition record_vote (t : ForkChoiceTree) (acc : gmap Z AppliedVote * gmap B256 Z) (update : Z * B256) :
    gmap Z AppliedVote * gmap B256 Z :=
  let '(votes, deltas) := acc in
  let '(validator_index, root) := update in
  if bool_decide (validator_index ∈ ft_equivocating t) then acc
  else
    let balance := balance_of t validator_index in
    let deltas := match votes !! validator_index with
                  | Some previous => add_delta deltas (av_root previous) (- av_balance previous)
                  | None => deltas
                  end in
    (<[validator_index := mkAppliedVote root balance]> votes, add_delta deltas root balance).

Definition process_votes (t : ForkChoiceTree) (updates : list (Z * B256)) : res anyhow ForkChoiceTree :=
  let '(votes, deltas) := foldl (record_vote t) (ft_votes t, ∅) updates in
  apply_deltas (ft_set_votes votes t) deltas.

Definition mark_one (acc : gset Z * gmap Z AppliedVote * gmap B256 Z) (validator_index : Z) :
    gset Z * gmap Z AppliedVote * gmap B256 Z :=
  let '(equivocating, votes, deltas) := acc in
  if bool_decide (validator_index ∈ equivocating) then acc
  else
    let equivocating := {[ validator_index ]} ∪ equivocating in
    match votes !! validator_index with
    | Some vote => (equivocating, <[validator_index := mkAppliedVote (av_root vote) 0]> votes,
                    add_delta deltas (av_root vote) (- av_balance vote))
    | None => (equivocating, votes, deltas)
    end.

Definition mark_equivocating (t : ForkChoiceTree) (indices : list Z) : res anyhow ForkChoiceTree :=
  let '(equivocating, votes, deltas) := foldl mark_one (ft_equivocating t, ft_votes t, ∅) indices in
  apply_deltas (ft_set_votes votes (ft_set_equivocating equivocating t)) deltas.

(** ** Boost, balances and context *)

Definition set_proposer_boost_root (t : ForkChoiceTree) (root : option B256) : res anyhow ForkChoiceTree :=
  let desired := (fun r => (r, ft_proposer_score t)) <$> root in
  if bool_decide (desired = ft_boost t) then Ok t
  else
    t ← match ft_boost t with
        | Some (old_root, old_score) => apply_weight_delta (ft_set_boost None t) old_root (- old_score)
        | None => Ok t
        end;
    t ← match desired with
        | Some (new_root, score) => apply_weight_delta t new_root score
        | None => Ok t
        end;
    Ok (ft_set_boost desired t).

Definition reweigh (t : ForkChoiceTree) (acc : gmap Z AppliedVote * gmap B256 Z) (iv : Z * AppliedVote) :
    gmap Z AppliedVote * gmap B256 Z :=
  let '(votes, deltas) := acc in
  let '(validator_index, vote) := iv in
  let balance := balance_of t validator_index in
  if balance =? av_balance vote then acc
  else (<[validator_index := mkAppliedVote (av_root vote) balance]> votes,
        add_delta deltas (av_root vote) (balance - av_balance vote)).

Definition set_balances (t : ForkChoiceTree) (checkpoint : Checkpoint) (balances : list Z)
    (proposer_score : Z) : res anyhow ForkChoiceTree :=
  let t := ft_set_balances balances (Some checkpoint) t in
  let '(votes, deltas) := foldl (reweigh t) (ft_votes t, ∅) (hm_iter (ft_votes t)) in
  t ← apply_deltas (ft_set_votes votes t) deltas;
  let boost_root := fst <$> ft_boost t in
  set_proposer_boost_root (ft_set_proposer_score proposer_score t) boost_root.

Definition update_context (t : ForkChoiceTree) (context : ViabilityContext) : res anyhow ForkChoiceTree :=
  if bool_decide (context = ft_context t) then Ok t
  else recompute_all (ft_set_context context t).

(** ** Blocks *)

Definition new_node (parent : option B256) (block : ForkChoiceBlock) : ForkChoiceNode :=
  mkForkChoiceNode parent (fb_slot block) [] (fb_justified_checkpoint block)
    (fb_unrealized_justified_checkpoint block) 0 false (fb_root block).

(** [ForkChoiceTree::new]. *)
Definition tree_new (anchor : ForkChoiceBlock) (context : ViabilityContext) : res anyhow ForkChoiceTree :=
  update_node
    (mkForkChoiceTree (fb_root anchor) {[ fb_root anchor := new_node None anchor ]} context
       [] None 0 ∅ ∅ ∅ None) (fb_root anchor).

Definition tree_insert (t : ForkChoiceTree) (block : ForkChoiceBlock) : res anyhow ForkChoiceTree :=
  let root := fb_root block in
  if contains t root then Ok t
  else
    parent ← ok_or (ft_nodes t !! fb_parent_root block) "parent is not in the tree"%string;
    ensure (fn_slot parent <? fb_slot block) "slot is not above parent slot"%string;;
    let nodes := <[fb_parent_root block := fn_set_children (fn_children parent ++ [root]) parent]> (ft_nodes t) in
    let nodes := <[root := new_node (Some (fb_parent_root block)) block]> nodes in
    t ← update_node (ft_set_nodes nodes t) root;
    t ← update_ancestors t (fb_parent_root block);
    let carried_weight := default 0 (ft_pending_weight t !! root) in
    let t := ft_set_pending_weight (delete root (ft_pending_weight t)) t in
    if 0 <? carried_weight then apply_weight_delta t root carried_weight else Ok t.

(** [pending] is the stack, its top first. *)
Fixpoint retain_loop (fuel : nat) (pending : list B256) (nodes retained : gmap B256 ForkChoiceNode) :
    res anyhow (gmap B256 ForkChoiceNode) :=
  match pending, fuel with
  | [], _ => Ok retained
  | _ :: _, O => NoFuel
  | current :: rest, S fuel' =>
      match nodes !! current with
      | Some node =>
          retain_loop fuel' (reverse (fn_children node) ++ rest) (delete current nodes)
            (<[current := node]> retained)
      | None => retain_loop fuel' rest nodes retained
      end
  end.

(** Every node, and every mention of one as a child, is popped at most once. *)
Definition retain_bound (nodes : gmap B256 ForkChoiceNode) : nat :=
  S (size nodes + sum_list_with (fun rn => length (fn_children rn.2)) (map_to_list nodes)).

Definition rebuild_pending_weight (t : ForkChoiceTree) : ForkChoiceTree :=
  ft_set_pending_weight
    (foldl (fun (pending : gmap B256 Z) (iv : Z * AppliedVote) =>
       let vote := iv.2 in
       if (0 <? av_balance vote) && negb (contains t (av_root vote))
       then <[av_root vote := (default 0 (pending !! av_root vote) + av_balance vote)%u64]> pending
       else pending) ∅ (hm_iter (ft_votes t))) t.

Definition prune (t : ForkChoiceTree) (new_root : B256) : res anyhow ForkChoiceTree :=
  if bool_decide (new_root = ft_root t) then Ok t
  else
    ensure (contains t new_root) "new finalized root is not in the tree"%string;;
    retained ← retain_loop (retain_bound (ft_nodes t)) [new_root] (ft_nodes t) ∅;
    let retained := alter (fn_set_parent None) new_root retained in
    let t := rebuild_pending_weight (ft_set_root new_root (ft_set_nodes retained t)) in
    let t := match ft_boost t with
             | Some (root, _) => if contains t root then t else ft_set_boost None t
             | None => t
             end in
    recompute_all t.
End tree.
