(* ===== verification/ForkTreeFacts.v ===== *)
(** * The fork choice tree: sums and structure

    [msum f m] adds [f k v] over the entries of [m].  Weights of the fork choice tree and
    the votes behind them are such sums.

    Ancestors, the order of children, and what refreshing the nodes of a chain does: the
    lemmas under the invariant of [ForkTreeInvariant.v]. *)

From stdpp Require Import strings.
From S2P Require Import Prelude Bytes Shuffling BeaconTypes BeaconAccess ForkTree.

Section msum.
Context {K : Type} `{Countable K} {V : Type}.
Implicit Types (f g : K -> V -> Z) (m : gmap K V).

Definition msum f m : Z := map_fold (fun k v acc => f k v + acc) 0 m.

Lemma msum_empty f : msum f ∅ = 0.
Proof. apply map_fold_empty. Qed.

Lemma msum_insert f m k v : m !! k = None -> msum f (<[k := v]> m) = f k v + msum f m.
Proof. intros Hk. unfold msum. rewrite map_fold_insert_L; [done|intros; lia|done]. Qed.

Lemma msum_delete f m k v : m !! k = Some v -> msum f m = f k v + msum f (delete k m).
Proof.
  intros Hk. rewrite <-(insert_delete_id m k v Hk) at 1. apply msum_insert, lookup_delete_eq.
Qed.

Lemma msum_replace f m k v v' : m !! k = Some v -> msum f (<[k := v']> m) = msum f m - f k v + f k v'.
Proof.
  intros Hk. rewrite <-insert_delete_eq, msum_insert by apply lookup_delete_eq.
  rewrite (msum_delete f m k v Hk). lia.
Qed.

Lemma msum_ext f g m : (forall k v, m !! k = Some v -> f k v = g k v) -> msum f m = msum g m.
Proof.
  induction m as [|k v m Hk IH] using map_ind; intros Hfg; [done|].
  rewrite !msum_insert by done. rewrite (Hfg k v) by apply lookup_insert_eq. f_equal. apply IH.
  intros k' v' Hk'. apply Hfg. rewrite lookup_insert_ne by congruence. done.
Qed.

Lemma msum_plus f g m : msum (fun k v => f k v + g k v) m = msum f m + msum g m.
Proof.
  induction m as [|k v m Hk IH] using map_ind; [done|]. rewrite !msum_insert by done. lia.
Qed.

Lemma msum_zero f m : (forall k v, m !! k = Some v -> f k v = 0) -> msum f m = 0.
Proof.
  intros Hf. rewrite (msum_ext f (fun _ _ => 0)) by done. clear Hf.
  induction m as [|k v m Hk IH] using map_ind; [done|]. rewrite msum_insert by done. lia.
Qed.

Lemma msum_le f g m : (forall k v, m !! k = Some v -> f k v <= g k v) -> msum f m <= msum g m.
Proof.
  induction m as [|k v m Hk IH] using map_ind; intros Hfg; [done|].
  rewrite !msum_insert by done. pose proof (Hfg k v (lookup_insert_eq _ _ _)).
  enough (msum f m <= msum g m) by lia. apply IH.
  intros k' v' Hk'. apply Hfg. rewrite lookup_insert_ne by congruence. done.
Qed.

Lemma msum_nonneg f m : (forall k v, m !! k = Some v -> 0 <= f k v) -> 0 <= msum f m.
Proof. intros Hf. rewrite <-(msum_zero (fun _ _ => 0) m) by done. by apply msum_le. Qed.

(** A sum in which one entry counts. *)
Lemma msum_single f m k v :
  m !! k = Some v -> (forall k' v', m !! k' = Some v' -> k' <> k -> f k' v' = 0) -> msum f m = f k v.
Proof.
  intros Hk Hf. rewrite (msum_delete f m k v Hk), msum_zero; [lia|].
  intros k' v' [? ?]%lookup_delete_Some. by apply Hf.
Qed.

Lemma msum_filter (P : K * V -> Prop) `{!forall x, Decision (P x)} f m :
  msum f (filter P m) = msum (fun k v => if decide (P (k, v)) then f k v else 0) m.
Proof.
  induction m as [|k v m Hk IH] using map_ind; [done|].
  rewrite (msum_insert _ m k v Hk). destruct (decide (P (k, v))) as [Hp|Hp].
  - rewrite map_filter_insert_True by done.
    rewrite msum_insert, IH; [done|]. apply map_lookup_filter_None. auto.
  - rewrite map_filter_insert_False by done. rewrite delete_id by done. rewrite IH. lia.
Qed.
End msum.

(** A sum of what depends on the keys only. *)
Lemma msum_dom `{Countable K} {V W} (f : K -> Z) (a : gmap K V) : forall b : gmap K W,
  (forall k, is_Some (a !! k) <-> is_Some (b !! k)) -> msum (fun k _ => f k) a = msum (fun k _ => f k) b.
Proof.
  induction a as [|k v a Hk IH] using map_ind; intros b Hab.
  - assert (b = ∅) as ->; [|done]. apply map_empty. intros k. apply eq_None_not_Some. rewrite <-Hab, lookup_empty.
    by intros [? ?].
  - destruct (proj1 (Hab k)) as [w Hw]; [rewrite lookup_insert_eq; by eexists|].
    rewrite msum_insert, (msum_delete _ b k w) by done. f_equal. apply IH. intros j. destruct (decide (k = j)) as [<-|].
    + rewrite Hk, lookup_delete_eq. split; by intros [? ?].
    + rewrite lookup_delete_ne by done. rewrite <-Hab, lookup_insert_ne by done. done.
Qed.

(** Exchanging two sums. *)
Lemma msum_swap `{Countable K} `{Countable K'} {V W} (f : K -> V -> K' -> W -> Z) (m : gmap K V) (m' : gmap K' W) :
  msum (fun k v => msum (f k v) m') m = msum (fun k' w => msum (fun k v => f k v k' w) m) m'.
Proof.
  induction m as [|k v m Hk IH] using map_ind.
  - rewrite msum_empty. symmetry. apply msum_zero. intros. apply msum_empty.
  - rewrite msum_insert, IH by done. rewrite <-msum_plus. apply msum_ext.
    intros k' w _. by rewrite msum_insert by done.
Qed.

(** ** Measures *)

(** A predicate that implies another and fails where it holds leaves fewer entries. *)
Lemma size_filter_lt `{Countable K} {V} (P Q : K * V -> Prop) `{!forall x, Decision (P x), !forall x, Decision (Q x)} (m : gmap K V) k v :
  (forall x, P x -> Q x) -> m !! k = Some v -> Q (k, v) -> ~ P (k, v) -> (size (filter P m) < size (filter Q m))%nat.
Proof.
  intros HPQ Hk HQ HP. apply map_subset_size, map_subset_alt. split.
  - apply map_filter_subseteq_ext. intros i x _. apply HPQ.
  - exists k. rewrite map_lookup_filter_None. split; [right; intros x Hx; by simplify_eq|].
    exists v. by rewrite map_lookup_filter_Some.
Qed.

(** ** The order of roots and of children *)

Lemma bytes_leb_refl a : bytes_leb a a = true.
Proof. induction a as [|x a IH]; [done|]. cbn. rewrite Z.eqb_refl, IH. by rewrite orb_true_r. Qed.

Lemma bytes_leb_trans a b c : bytes_leb a b = true -> bytes_leb b c = true -> bytes_leb a c = true.
Proof.
  revert b c. induction a as [|x a IH]; intros [|y b] [|z c]; cbn; try done. intros H1 H2.
  rewrite orb_true_iff, andb_true_iff in *. rewrite !Z.ltb_lt, !Z.eqb_eq in *.
  destruct H1 as [H1|[-> H1]], H2 as [H2|[-> H2]]; try (left; lia). right. split; [done|eauto].
Qed.

Lemma bytes_leb_total a b : bytes_leb a b = false -> bytes_leb b a = true.
Proof.
  revert b. induction a as [|x a IH]; intros [|y b]; cbn; try done. intros H.
  rewrite orb_false_iff, andb_false_iff, Z.ltb_ge, Z.eqb_neq in H.
  rewrite orb_true_iff, andb_true_iff, Z.ltb_lt, Z.eqb_eq. destruct H as [H1 [H2|H2]]; [left; lia|].
  destruct (decide (x = y)) as [->|]; [right; auto|left; lia].
Qed.

Lemma bytes_leb_antisym a b : bytes_leb a b = true -> bytes_leb b a = true -> a = b.
Proof.
  revert b. induction a as [|x a IH]; intros [|y b]; cbn; try done. intros H1 H2.
  rewrite orb_true_iff, andb_true_iff in *. rewrite Z.ltb_lt, Z.eqb_eq in *.
  destruct H1 as [H1|[-> H1]], H2 as [H2|[? H2]]; try lia. f_equal. auto.
Qed.

(** The key a child is chosen by: its weight, then its root. *)
Definition key_le (a b : Z * B256) : Prop := a.1 < b.1 \/ (a.1 = b.1 /\ bytes_leb a.2 b.2 = true).

Lemma key_le_refl a : key_le a a.
Proof. right. split; [done|apply bytes_leb_refl]. Qed.
Lemma key_le_trans a b c : key_le a b -> key_le b c -> key_le a c.
Proof.
  unfold key_le. intros [?|[? ?]] [?|[? ?]]; try (left; lia). right. split; [lia|by eapply bytes_leb_trans].
Qed.
Lemma key_le_total a b : ~ key_le a b -> key_le b a.
Proof.
  unfold key_le. intros Hn. destruct (decide (b.1 < a.1)) as [?|Hge]; [by left|]. destruct (decide (a.1 < b.1)); [naive_solver|].
  right. split; [lia|]. destruct (bytes_leb a.2 b.2) eqn:E; [|by apply bytes_leb_total]. exfalso. apply Hn. right. split; [lia|done].
Qed.
Lemma key_le_antisym a b : key_le a b -> key_le b a -> a = b.
Proof.
  destruct a as [w r], b as [w' r']. unfold key_le. cbn.
  intros [?|[-> H1]] [?|[? H2]]; try lia. f_equal. by apply bytes_leb_antisym.
Qed.

Lemma child_leb_key a b : child_leb a b = true <-> key_le (fn_weight a.2, a.1) (fn_weight b.2, b.1).
Proof. unfold child_leb, key_le. cbn. by rewrite orb_true_iff, andb_true_iff, Z.ltb_lt, Z.eqb_eq. Qed.

Lemma child_leb_refl a : child_leb a a = true.
Proof. apply child_leb_key, key_le_refl. Qed.
Lemma child_leb_trans a b c : child_leb a b = true -> child_leb b c = true -> child_leb a c = true.
Proof. rewrite !child_leb_key. apply key_le_trans. Qed.
Lemma child_leb_total a b : child_leb a b = false -> child_leb b a = true.
Proof. intros Hf. apply child_leb_key, key_le_total. intros Hk%child_leb_key. congruence. Qed.

(** ** The fixed part of a node *)

Definition static (n : ForkChoiceNode) : ForkChoiceNode := fn_set_weight 0 (fn_set_best false [] n).
Definition similar (a b : gmap B256 ForkChoiceNode) : Prop := static <$> a = static <$> b.

#[global] Instance similar_equiv : Equivalence similar.
Proof. split; [done|by intros a b H|intros a b c H1 H2; unfold similar in *; congruence]. Qed.

Lemma similar_lookup (a b : gmap B256 ForkChoiceNode) x n :
  similar a b -> a !! x = Some n -> exists m, b !! x = Some m /\ static n = static m.
Proof.
  intros Hs Hx. unfold similar in Hs. apply (f_equal (fun m => m !! x)) in Hs. rewrite !lookup_fmap, Hx in Hs.
  destruct (b !! x) as [m|] eqn:E; cbn in Hs; [|done]. exists m. split; [done|congruence].
Qed.

Lemma similar_None (a b : gmap B256 ForkChoiceNode) x : similar a b -> a !! x = None -> b !! x = None.
Proof.
  intros Hs Hx. unfold similar in Hs. apply (f_equal (fun m => m !! x)) in Hs. rewrite !lookup_fmap, Hx in Hs.
  by destruct (b !! x).
Qed.

Lemma static_inj n m :
  static n = static m -> fn_parent n = fn_parent m /\ fn_slot n = fn_slot m /\ fn_children n = fn_children m /\
    fn_justified_checkpoint n = fn_justified_checkpoint m /\
    fn_unrealized_justified_checkpoint n = fn_unrealized_justified_checkpoint m.
Proof. unfold static, fn_set_weight, fn_set_best. cbn. intros E. by injection E as ? ? ? ? ?. Qed.

Lemma similar_insert (a : gmap B256 ForkChoiceNode) x n m :
  a !! x = Some n -> static m = static n -> similar (<[x := m]> a) a.
Proof.
  intros Hx Hm. unfold similar. apply map_eq. intros y. rewrite !lookup_fmap. destruct (decide (x = y)) as [<-|].
  - rewrite lookup_insert_eq, Hx. cbn. by rewrite Hm.
  - by rewrite lookup_insert_ne.
Qed.

Lemma similar_size (a b : gmap B256 ForkChoiceNode) : similar a b -> size a = size b.
Proof. unfold similar. intros Hs. rewrite <-(map_size_fmap static a), <-(map_size_fmap static b). by rewrite Hs. Qed.

Ltac similar_node Hs Hx :=
  let m := fresh "m" in let Hm := fresh "Hm" in let E := fresh "E" in
  destruct (similar_lookup _ _ _ _ Hs Hx) as (m & Hm & E); apply static_inj in E as (? & ? & ? & ? & ?).

(** ** Trees *)

Record forest (root : B256) (nodes : gmap B256 ForkChoiceNode) : Prop := mkForest {
  fo_root : exists n, nodes !! root = Some n /\ fn_parent n = None;
  fo_orphan : forall x n, nodes !! x = Some n -> fn_parent n = None -> x = root;
  fo_parent : forall x n p, nodes !! x = Some n -> fn_parent n = Some p ->
    exists m, nodes !! p = Some m /\ x ∈ fn_children m /\ fn_slot m < fn_slot n;
  fo_child : forall p m x, nodes !! p = Some m -> x ∈ fn_children m ->
    exists n, nodes !! x = Some n /\ fn_parent n = Some p;
  fo_nodup : forall p m, nodes !! p = Some m -> NoDup (fn_children m);
}.

Lemma forest_similar r a b : similar a b -> forest r a -> forest r b.
Proof.
  intros Hs [Hr Ho Hp Hc Hn].
  assert (forall x n, b !! x = Some n -> exists m, a !! x = Some m /\ static n = static m) as Hba
    by (intros x n Hx; by apply (similar_lookup b a)).
  split.
  - destruct Hr as (n & Hn' & Hnp). similar_node Hs Hn'. exists m. split; congruence.
  - intros x n Hx Hpar. destruct (Hba x n Hx) as (m & Hm & (E & _)%static_inj). apply (Ho x m Hm). congruence.
  - intros x n p Hx Hpar. destruct (Hba x n Hx) as (m & Hm & (E & E2 & _)%static_inj).
    destruct (Hp x m p Hm) as (k & Hk & Hin & Hlt); [congruence|]. similar_node Hs Hk.
    exists m0. split_and!; [done|congruence|lia].
  - intros p m x Hm Hx. destruct (Hba p m Hm) as (k & Hk & (_ & _ & E & _)%static_inj).
    destruct (Hc p k x Hk) as (n & Hn' & Hpar); [congruence|]. similar_node Hs Hn'. exists m0. split; congruence.
  - intros p m Hm. destruct (Hba p m Hm) as (k & Hk & (_ & _ & E & _)%static_inj). rewrite E. by apply (Hn p).
Qed.

(** [up nodes x l]: [l] is [x], its parent, and so on to the root. *)
Inductive up (nodes : gmap B256 ForkChoiceNode) : B256 -> list B256 -> Prop :=
| up_root x n : nodes !! x = Some n -> fn_parent n = None -> up nodes x [x]
| up_step x n p l : nodes !! x = Some n -> fn_parent n = Some p -> up nodes p l -> up nodes x (x :: l).

Lemma up_det nodes x l : up nodes x l -> forall l', up nodes x l' -> l = l'.
Proof.
  induction 1 as [x n Hx Hp|x n p l Hx Hp Hl IH]; intros l' Hl'; inversion Hl'; simplify_eq; try done.
  f_equal. by apply IH.
Qed.

Lemma up_similar a b x l : similar a b -> up a x l -> up b x l.
Proof.
  intros Hs. induction 1 as [x n Hx Hp|x n p l Hx Hp Hl IH]; similar_node Hs Hx.
  - apply (up_root b x m Hm). congruence.
  - apply (up_step b x m p l Hm); [congruence|done].
Qed.

Lemma up_mem nodes x l : up nodes x l -> forall y, y ∈ l -> is_Some (nodes !! y).
Proof. induction 1; intros y Hy; rewrite ?elem_of_cons in Hy; naive_solver set_solver. Qed.

Lemma up_head nodes x l : up nodes x l -> x ∈ l.
Proof. destruct 1; set_solver. Qed.

(** Each node of the chain has the chain from it as a suffix. *)
Lemma up_suffix nodes x l y : up nodes x l -> y ∈ l -> exists l1 l2, l = l1 ++ l2 /\ up nodes y l2.
Proof.
  induction 1 as [x n Hx Hp|x n p l Hx Hp Hl IH]; intros Hy.
  - apply list_elem_of_singleton in Hy as ->. exists [], [x]. split; [done|by eapply up_root].
  - apply elem_of_cons in Hy as [->|Hy].
    + exists [], (x :: l). split; [done|by eapply up_step].
    + destruct (IH Hy) as (l1 & l2 & -> & H2). exists (x :: l1), l2. done.
Qed.

Section forest.
Context {root : B256} {nodes : gmap B256 ForkChoiceNode} (F : forest root nodes).

(** Nodes with a smaller slot: the room below a node. *)
Definition lower (s : Z) : nat := size (filter (fun rn : B256 * ForkChoiceNode => fn_slot rn.2 < s) nodes).

Lemma lower_lt x n s : nodes !! x = Some n -> fn_slot n < s -> (lower (fn_slot n) < lower s)%nat.
Proof.
  intros Hx Hs. apply map_subset_size, map_subset_alt. split.
  - apply map_filter_subseteq_ext. intros z m Hz. cbn. lia.
  - exists x. split.
    + rewrite map_lookup_filter_None. right. intros m Hm. cbn. simplify_eq. lia.
    + exists n. by apply map_lookup_filter_Some.
Qed.

Lemma lower_size x n : nodes !! x = Some n -> (lower (fn_slot n) < size nodes)%nat.
Proof.
  intros Hx. apply map_subset_size, map_subset_alt. split; [apply map_filter_subseteq|].
  exists x. split; [|by exists n]. rewrite map_lookup_filter_None. right. intros m Hm. cbn. simplify_eq. lia.
Qed.

Lemma up_lower x n : nodes !! x = Some n -> exists l, up nodes x l /\ (length l <= S (lower (fn_slot n)))%nat.
Proof using F.
  remember (lower (fn_slot n)) as k eqn:Hk. revert x n Hk.
  induction (lt_wf k) as [k _ IH]. intros x n -> Hx. destruct (fn_parent n) as [p|] eqn:Hp.
  - destruct (fo_parent _ _ F x n p Hx Hp) as (m & Hm & _ & Hlt).
    pose proof (lower_lt p m (fn_slot n) Hm Hlt) as Hl.
    destruct (IH _ Hl p m eq_refl Hm) as (l & Hup & Hle). exists (x :: l). split; [by eapply up_step|]. cbn. lia.
  - exists [x]. split; [by eapply up_root|cbn; lia].
Qed.

(** Every node has a chain, no longer than the tree is large. *)
Lemma up_exists x : is_Some (nodes !! x) -> exists l, up nodes x l /\ (length l <= size nodes)%nat.
Proof using F.
  intros [n Hx]. destruct (up_lower x n Hx) as (l & Hl & Hle). exists l. split; [done|].
  pose proof (lower_size x n Hx). lia.
Qed.

Lemma up_bound x l : up nodes x l -> (length l <= size nodes)%nat.
Proof using F.
  intros Hl. destruct (up_exists x) as (l' & Hl' & Hle); [eapply up_mem; [done|by eapply up_head]|].
  by rewrite (up_det _ _ _ Hl _ Hl').
Qed.

(** Slots fall along a chain, so that no node comes back. *)
Lemma up_slots x n l : nodes !! x = Some n -> up nodes x (x :: l) -> forall y m, y ∈ l -> nodes !! y = Some m -> fn_slot m < fn_slot n.
Proof using F.
  intros Hx Hup. remember (x :: l) as k eqn:Ek. revert l n Ek Hx.
  induction Hup as [x n' Hx' Hp|x n' p l' Hx' Hp Hl' IH]; intros l n [= <-] Hx y m Hy Hm; [by apply not_elem_of_nil in Hy|].
  assert (n' = n) as -> by congruence. destruct (fo_parent _ _ F x n p Hx Hp) as (k & Hk & _ & Hlt).
  assert (exists l2, l' = p :: l2) as [l2 ->] by (inversion Hl'; eauto).
  apply elem_of_cons in Hy as [->|Hy]; [simplify_eq; lia|]. pose proof (IH l2 k eq_refl Hk y m Hy Hm). lia.
Qed.

Lemma up_nodup x l : up nodes x l -> NoDup l.
Proof using F.
  induction 1 as [x n Hx Hp|x n p l Hx Hp Hl IH]; [apply NoDup_singleton|]. constructor; [|done]. intros Hin.
  pose proof (up_slots x n l Hx (up_step _ _ _ _ _ Hx Hp Hl) x n Hin Hx). lia.
Qed.

Lemma child_slot p m x n : nodes !! p = Some m -> x ∈ fn_children m -> nodes !! x = Some n -> fn_slot m < fn_slot n.
Proof using F.
  intros Hp Hx Hn. destruct (fo_child _ _ F p m x Hp Hx) as (n' & Hn' & Hpar). simplify_eq.
  destruct (fo_parent _ _ F x n p Hn Hpar) as (m' & Hm' & _ & Hlt). simplify_eq. done.
Qed.

Lemma not_own_child x n : nodes !! x = Some n -> x ∉ fn_children n.
Proof using F. intros Hx Hin. pose proof (child_slot x n x n Hx Hin Hx). lia. Qed.

(** The walks of the code end. *)
Lemma ancestor_loop_returns s x l : up nodes x l ->
  forall fuel, (length l <= fuel)%nat -> returns (ancestor_loop fuel nodes x s).
Proof.
  induction 1 as [x n Hx Hp|x n p l Hx Hp Hl IH]; intros fuel Hf; destruct fuel; cbn in Hf; try lia;
    cbn; rewrite Hx, Hp; destruct (_ <=? _); try done. apply IH. lia.
Qed.

Lemma checkpoint_block_loop_Ok s x l : up nodes x l ->
  forall fuel, (length l <= fuel)%nat -> exists b, checkpoint_block_loop fuel nodes x s = Ok b.
Proof.
  induction 1 as [x n Hx Hp|x n p l Hx Hp Hl IH]; intros fuel Hf; destruct fuel; cbn in Hf; try lia;
    cbn; rewrite Hx, Hp; destruct (_ <=? _); eauto. apply IH. lia.
Qed.
End forest.

Lemma checkpoint_block_loop_similar a b fuel x s :
  similar a b -> checkpoint_block_loop fuel a x s = checkpoint_block_loop fuel b x s.
Proof.
  intros Hs. revert x. induction fuel as [|fuel IH]; intros x; cbn.
  all: destruct (a !! x) as [n|] eqn:Hx; [similar_node Hs Hx; rewrite Hm|by rewrite (similar_None _ _ _ Hs Hx)].
  all: replace (fn_slot m) with (fn_slot n) by congruence; replace (fn_parent m) with (fn_parent n) by congruence.
  - done.
  - destruct (_ <=? _); [done|]. destruct (fn_parent n); [apply IH|done].
Qed.

(** ** Evaluating a node *)

Implicit Types t : ForkChoiceTree.

Lemma is_leaf_viable_Ok t x n :
  forest (ft_root t) (ft_nodes t) -> ft_nodes t !! x = Some n -> exists v, is_leaf_viable t x n = Ok v.
Proof.
  intros F Hx. unfold is_leaf_viable, checkpoint_block, walk_bound.
  destruct (up_exists F x) as (l & Hl & Hle); [by eexists|].
  destruct (cp_epoch (vc_finalized_checkpoint (ft_context t)) =? GENESIS_EPOCH); [by eexists|].
  destruct (checkpoint_block_loop_Ok (compute_start_slot_at_epoch (cp_epoch (vc_finalized_checkpoint (ft_context t)))) x l Hl _ Hle) as [b ->]. by eexists.
Qed.

Lemma evaluate_Ok t x n :
  forest (ft_root t) (ft_nodes t) -> ft_nodes t !! x = Some n -> exists r, evaluate t x n = Ok r.
Proof.
  intros F Hx. unfold evaluate. destruct (fn_children n); [|by eexists].
  destruct (is_leaf_viable_Ok t x n F Hx) as [v ->]. by eexists.
Qed.

(** What the evaluation of a node reads. *)
Definition same_child (a b : gmap B256 ForkChoiceNode) (c : B256) : Prop :=
  match a !! c, b !! c with
  | Some n, Some m => fn_weight n = fn_weight m /\ fn_viable n = fn_viable m /\ fn_best_descendant n = fn_best_descendant m
  | None, None => True
  | _, _ => False
  end.

Lemma is_leaf_viable_ext t t' x n m :
  similar (ft_nodes t) (ft_nodes t') -> ft_context t = ft_context t' -> static n = static m ->
  is_leaf_viable t x n = is_leaf_viable t' x m.
Proof.
  intros Hs Hc (_ & E2 & _ & E4 & E5)%static_inj. unfold is_leaf_viable, checkpoint_block, walk_bound.
  rewrite <-Hc, E2, E4, E5, (similar_size _ _ Hs). by rewrite (checkpoint_block_loop_similar _ _ _ _ _ Hs).
Qed.

Lemma max_viable_ext a b cs : Forall (same_child a b) cs ->
  (fun c : B256 * ForkChoiceNode => fn_best_descendant c.2) <$> max_by child_leb (viable_children a cs) =
  (fun c : B256 * ForkChoiceNode => fn_best_descendant c.2) <$> max_by child_leb (viable_children b cs).
Proof.
  set (view := fun c : B256 * ForkChoiceNode => (c.1, fn_weight c.2, fn_best_descendant c.2)).
  intros Hcs. assert (view <$> viable_children a cs = view <$> viable_children b cs) as E.
  { induction Hcs as [|c cs Hc _ IH]; [done|]. unfold viable_children in *. cbn. unfold same_child in Hc.
    destruct (a !! c) as [n|], (b !! c) as [m|]; try done. destruct Hc as (E1 & E2 & E3). rewrite E2.
    destruct (fn_viable m); cbn; [|done]. rewrite IH. unfold view at 1 3. cbn. by rewrite E1, E3. }
  revert E. generalize (viable_children a cs) as l, (viable_children b cs) as k. clear.
  assert (forall l k c d, view c = view d -> view <$> l = view <$> k ->
    view (max_by_from child_leb c l) = view (max_by_from child_leb d k)) as Hfrom.
  { induction l as [|c' l IH]; intros [|d' k] c d Hcd E; try done. cbn. injection E as E1 E2 E3 E.
    apply IH; [|done]. unfold child_leb. injection Hcd as F1 F2 F3. rewrite E2, F2, E1, F1.
    unfold view. destruct (_ || _); congruence. }
  intros [|c l] [|d k] E; try done. cbn in *. injection E as E1 E2 E3 E. f_equal.
  assert (view c = view d) as Ecd by (unfold view; congruence).
  pose proof (Hfrom l k c d Ecd E) as Hv. unfold view in Hv. congruence.
Qed.

Lemma evaluate_ext t t' x n m :
  similar (ft_nodes t) (ft_nodes t') -> ft_context t = ft_context t' -> static n = static m ->
  Forall (same_child (ft_nodes t) (ft_nodes t')) (fn_children n) ->
  evaluate t x n = evaluate t' x m.
Proof.
  intros Hs Hc Hnm Hcs. pose proof (is_leaf_viable_ext t t' x n m Hs Hc Hnm) as Hleaf.
  apply static_inj in Hnm as (_ & _ & E & _). unfold evaluate. rewrite <-E.
  destruct (fn_children n) as [|c cs] eqn:Ec; [by rewrite Hleaf|]. rewrite <-Ec in *.
  pose proof (max_viable_ext _ _ _ Hcs) as Hm.
  destruct (max_by child_leb (viable_children (ft_nodes t) _)) as [[? ?]|],
    (max_by child_leb (viable_children (ft_nodes t') _)) as [[? ?]|]; cbn in Hm; congruence.
Qed.

(** ** Refreshing nodes *)

(** A node's record of viability and best descendant is what evaluating it gives. *)
Definition fresh_node t (x : B256) : Prop :=
  forall n, ft_nodes t !! x = Some n -> evaluate t x n = Ok (fn_viable n, fn_best_descendant n).

(** Trees that differ in the records of viability and best descendants only. *)
Definition blind (n : ForkChoiceNode) : ForkChoiceNode := fn_set_best false [] n.
Definition refreshed t t' : Prop :=
  exists nodes, t' = ft_set_nodes nodes t /\ blind <$> nodes = blind <$> ft_nodes t.

#[global] Instance refreshed_preorder : PreOrder refreshed.
Proof.
  split.
  - intros t. exists (ft_nodes t). by destruct t.
  - intros t1 t2 t3 (n2 & -> & E2) (n3 & -> & E3). exists n3. split; [by destruct t1|by rewrite E3].
Qed.

Lemma refreshed_similar t t' : refreshed t t' -> similar (ft_nodes t') (ft_nodes t).
Proof.
  intros (nodes & -> & E). unfold similar. cbn.
  assert (forall m : gmap B256 ForkChoiceNode, static <$> m = fn_set_weight 0 <$> (blind <$> m)) as Hb.
  { intros m. rewrite <-map_fmap_compose. done. }
  by rewrite !Hb, E.
Qed.

Lemma refreshed_forest t t' : refreshed t t' -> forest (ft_root t) (ft_nodes t) -> forest (ft_root t') (ft_nodes t').
Proof.
  intros R F. replace (ft_root t') with (ft_root t) by (by destruct R as (? & -> & _)).
  eapply forest_similar; [|exact F]. symmetry. by apply refreshed_similar.
Qed.

Lemma refreshed_weight t t' x : refreshed t t' -> fn_weight <$> ft_nodes t' !! x = fn_weight <$> ft_nodes t !! x.
Proof.
  intros (nodes & -> & E). cbn. apply (f_equal (fun m => fn_weight <$> m !! x)) in E.
  rewrite !lookup_fmap in E. by destruct (nodes !! x), (ft_nodes t !! x).
Qed.

Lemma refreshed_fields t t' : refreshed t t' ->
  ft_root t' = ft_root t /\ ft_context t' = ft_context t /\ ft_balances t' = ft_balances t /\
  ft_balances_checkpoint t' = ft_balances_checkpoint t /\ ft_proposer_score t' = ft_proposer_score t /\
  ft_votes t' = ft_votes t /\ ft_pending_weight t' = ft_pending_weight t /\
  ft_equivocating t' = ft_equivocating t /\ ft_boost t' = ft_boost t.
Proof. by intros (nodes & -> & _). Qed.

Lemma same_child_insert_ne (a : gmap B256 ForkChoiceNode) x m c : c <> x -> same_child (<[x := m]> a) a c.
Proof. intros Hc. unfold same_child. rewrite lookup_insert_ne by done. by destruct (a !! c). Qed.

Lemma update_node_spec t x :
  forest (ft_root t) (ft_nodes t) ->
  exists t', update_node t x = Ok t' /\ refreshed t t' /\ fresh_node t' x /\
    forall y, y <> x -> (forall n, ft_nodes t !! x = Some n -> fn_parent n <> Some y) ->
      fresh_node t y -> fresh_node t' y.
Proof.
  intros F. unfold update_node. destruct (ft_nodes t !! x) as [n|] eqn:Hx.
  2: { exists t. split_and!; [done|reflexivity| |done]. intros n Hn. congruence. }
  destruct (evaluate_Ok t x n F Hx) as [[v b] Ev]. rewrite Ev. cbn.
  set (t' := ft_set_nodes (<[x := fn_set_best v b n]> (ft_nodes t)) t).
  assert (refreshed t t') as R.
  { exists (<[x := fn_set_best v b n]> (ft_nodes t)). split; [done|]. apply map_eq. intros y. rewrite !lookup_fmap.
    destruct (decide (x = y)) as [<-|]; [by rewrite lookup_insert_eq, Hx|by rewrite lookup_insert_ne]. }
  assert (forall y m m', static m = static m' -> Forall (fun c => c <> x) (fn_children m) ->
    evaluate t' y m = evaluate t y m') as Hext.
  { intros y m m' Hm Hcs. apply evaluate_ext; [by apply refreshed_similar|done|done|].
    eapply Forall_impl; [exact Hcs|]. intros c Hc. by apply same_child_insert_ne. }
  exists t'. split_and!; [done|done| |].
  - intros m Hm. cbn in Hm. rewrite lookup_insert_eq in Hm. injection Hm as <-.
    rewrite (Hext x _ n); [done|done|]. cbn. apply Forall_forall. intros c Hc ->. by apply (not_own_child F x n).
  - intros y Hy Hpar Hfresh m Hm. cbn in Hm. rewrite lookup_insert_ne in Hm by done.
    rewrite (Hext y m m), (Hfresh m Hm); [done|done|]. apply Forall_forall. intros c Hc ->.
    destruct (fo_child _ _ F y m x Hm Hc) as (n' & Hn' & Hp). assert (n' = n) as -> by congruence. by apply (Hpar n).
Qed.

(** Refreshing a chain from below, when everything else is fresh, makes everything fresh. *)
Lemma update_chain x l : forall t, up (ft_nodes t) x l ->
  forest (ft_root t) (ft_nodes t) -> (forall y, y ∉ l -> fresh_node t y) ->
  exists t', foldM update_node t l = Ok t' /\ refreshed t t' /\ forall y, fresh_node t' y.
Proof.
  revert x. induction l as [|x' l IH]; intros x t Hup F Hf; [by inversion Hup|].
  assert (x' = x) as -> by (by inversion Hup).
  destruct (update_node_spec t x F) as (t1 & E1 & R1 & H1 & H2). cbn. rewrite E1. cbn.
  assert (forall y, y ∉ l -> fresh_node t1 y) as Hf1.
  { intros y Hy. destruct (decide (y = x)) as [->|Hne]; [done|]. apply H2; [done| |apply Hf; set_solver].
    intros n Hn Hp. inversion Hup as [? n' Hn' Hp'|? n' p l' Hn' Hp' Hl]; simplify_eq.
    apply Hy. by eapply up_head. }
  inversion Hup as [? n' Hn' Hp'|? n' p l' Hn' Hp' Hl]; simplify_eq.
  - cbn. exists t1. split_and!; [done|done|]. intros y. apply Hf1. set_solver.
  - destruct (IH p t1) as (t2 & E2 & R2 & H3); [|by eapply refreshed_forest|done|].
    + eapply up_similar; [|exact Hl]. symmetry. by apply refreshed_similar.
    + exists t2. split_and!; [done|by etrans|done].
Qed.

(** [update_ancestors] refreshes the chain from its argument. *)
Lemma update_ancestors_loop_chain l : forall x t fuel, up (ft_nodes t) x l ->
  forest (ft_root t) (ft_nodes t) -> (length l <= fuel)%nat ->
  update_ancestors_loop fuel t (Some x) = foldM update_node t l.
Proof.
  induction l as [|x' l IH]; intros x t fuel Hup F Hfuel; [by inversion Hup|].
  assert (x' = x) as -> by (by inversion Hup).
  destruct fuel as [|fuel]; cbn in Hfuel; [lia|]. cbn.
  destruct (update_node_spec t x F) as (t1 & E1 & R1 & _). rewrite E1. cbn.
  inversion Hup as [? n' Hn' Hp'|? n' p l' Hn' Hp' Hl]; simplify_eq; rewrite Hn', Hp'.
  - cbn. by destruct fuel.
  - apply IH; [|by eapply refreshed_forest|lia].
    eapply up_similar; [|exact Hl]. symmetry. by apply refreshed_similar.
Qed.

(** ** Refreshing every node *)

Lemma order_leb_total a b : order_leb a b = false -> order_leb b a = true.
Proof.
  unfold order_leb. rewrite orb_false_iff, andb_false_iff, orb_true_iff, andb_true_iff.
  rewrite Z.ltb_ge, Z.ltb_lt, Z.eqb_neq, Z.eqb_eq. intros [H1 [H2|H2]]; [left; lia|].
  destruct (decide (a.1 = b.1)) as [E|]; [|left; lia]. right. split; [done|by apply bytes_leb_total].
Qed.
Lemma order_leb_trans a b c : order_leb a b = true -> order_leb b c = true -> order_leb a c = true.
Proof.
  unfold order_leb. rewrite !orb_true_iff, !andb_true_iff, !Z.ltb_lt, !Z.eqb_eq.
  intros [?|[? ?]] [?|[? ?]]; try (left; lia). right. split; [lia|by eapply bytes_leb_trans].
Qed.
Lemma order_leb_slot a b : order_leb a b = true -> b.1 <= a.1.
Proof. unfold order_leb. rewrite orb_true_iff, andb_true_iff, Z.ltb_lt, Z.eqb_eq. lia. Qed.

(** Children come before their parents. *)
Lemma recompute_list l : forall t, forest (ft_root t) (ft_nodes t) ->
  StronglySorted (fun a b => order_leb a b = true) l ->
  (forall s x, (s, x) ∈ l -> exists n, ft_nodes t !! x = Some n /\ fn_slot n = s) ->
  (forall y n, ft_nodes t !! y = Some n -> (exists s, (s, y) ∈ l) \/
     (fresh_node t y /\ forall s x, (s, x) ∈ l -> s <= fn_slot n)) ->
  exists t', foldM (fun t sr => update_node t sr.2) t l = Ok t' /\ refreshed t t' /\ forall y, fresh_node t' y.
Proof.
  induction l as [|[s x] l IH]; intros t F Hs Hl Hd.
  - exists t. split_and!; [done|reflexivity|]. intros y n Hn.
    destruct (Hd y n Hn) as [[? ?%not_elem_of_nil]|[Hf _]]; [done|by apply Hf].
  - apply StronglySorted_inv in Hs as [Hs Hx]. destruct (Hl s x) as (n & Hn & Hsn); [set_solver|].
    destruct (update_node_spec t x F) as (t1 & E1 & R1 & H1 & H2). cbn. rewrite E1. cbn.
    pose proof (refreshed_similar _ _ R1) as S1.
    destruct (IH t1) as (t2 & E2 & R2 & H3); [by eapply refreshed_forest|done| | |].
    + intros s' x' Hin. destruct (Hl s' x') as (n' & Hn' & Hs'); [set_solver|]. symmetry in S1.
      similar_node S1 Hn'. exists m. split; congruence.
    + intros y n' Hn'. destruct (similar_lookup _ _ _ _ S1 Hn') as (m & Hm & (_ & Eslot & _)%static_inj).
      destruct (Hd y m Hm) as [[s' [[= -> ->]|Hin]%elem_of_cons]|[Hf Hle]].
      * right. split; [done|]. intros s' x' Hin. simplify_eq.
        rewrite Forall_forall in Hx. pose proof (order_leb_slot _ _ (Hx _ Hin)). cbn in *. lia.
      * left. eauto.
      * right. split; [|intros s' x' Hin; rewrite Eslot; apply (Hle s' x'); set_solver].
        destruct (decide (y = x)) as [->|Hne]; [done|]. apply H2; [done| |done].
        intros n0 Hn0 Hp. assert (n0 = n) as -> by congruence.
        destruct (fo_parent _ _ F x n y Hn Hp) as (m' & Hm' & _ & Hlt). simplify_eq.
        pose proof (Hle (fn_slot n) x (list_elem_of_here _ _)). lia.
    + exists t2. split_and!; [done|by etrans|done].
Qed.

Section recompute.
Context {HO : HashOrder} {HOL : HashOrderLaws HO}.

Lemma recompute_all_spec t : forest (ft_root t) (ft_nodes t) ->
  exists t', recompute_all t = Ok t' /\ refreshed t t' /\ forall y, fresh_node t' y.
Proof.
  intros F. unfold recompute_all. apply recompute_list; [done| | |].
  - apply sort_by_sorted; [apply order_leb_trans|apply order_leb_total].
  - intros s x. rewrite sort_by_perm, list_elem_of_fmap. intros ([x' n] & [= -> ->] & Hin%elem_of_hm_iter). eauto.
  - intros y n Hn. left. exists (fn_slot n). rewrite sort_by_perm, list_elem_of_fmap. exists (y, n).
    split; [done|by apply elem_of_hm_iter].
Qed.
End recompute.

(** ** Adding weight along a chain *)

Definition bump_node (d : Z) (n : ForkChoiceNode) : ForkChoiceNode := fn_set_weight (apply_signed (fn_weight n) d) n.
Definition bump (d : Z) (l : list B256) (nodes : gmap B256 ForkChoiceNode) : gmap B256 ForkChoiceNode :=
  map_imap (fun x n => Some (if decide (x ∈ l) then bump_node d n else n)) nodes.

Lemma lookup_bump d l nodes x :
  bump d l nodes !! x = (fun n => if decide (x ∈ l) then bump_node d n else n) <$> nodes !! x.
Proof. unfold bump. rewrite map_lookup_imap. by destruct (nodes !! x). Qed.

Lemma bump_similar d l nodes : similar (bump d l nodes) nodes.
Proof.
  unfold similar. apply map_eq. intros x. rewrite !lookup_fmap, lookup_bump.
  destruct (nodes !! x); cbn; [|done]. by case_decide.
Qed.

Lemma weight_loop_spec root d l : forall x nodes fuel, forest root nodes -> up nodes x l -> (length l <= fuel)%nat ->
  weight_loop fuel nodes (Some x) d = Ok (bump d l nodes, l).
Proof.
  induction l as [|x' l IH]; intros x nodes fuel F Hup Hfuel; [by inversion Hup|].
  assert (x' = x) as -> by (by inversion Hup). destruct fuel as [|fuel]; cbn in Hfuel; [lia|]. cbn.
  pose proof (up_nodup F _ _ Hup) as [Hnin Hnd]%NoDup_cons.
  inversion Hup as [? n Hn Hp|? n p l' Hn Hp Hl]; simplify_eq; rewrite Hn, Hp.
  - cbn. destruct fuel; cbn; do 2 f_equal; apply map_eq; intros y; rewrite lookup_bump;
      destruct (decide (x = y)) as [<-|Hne];
      (rewrite lookup_insert_eq, Hn; cbn; by rewrite decide_True by set_solver) ||
      (rewrite lookup_insert_ne by done; destruct (nodes !! y); cbn; [|done]; by rewrite decide_False by set_solver).
  - set (nodes' := <[x := fn_set_weight (apply_signed (fn_weight n) d) n]> nodes).
    assert (similar nodes' nodes) as Hs by (by eapply similar_insert).
    rewrite (IH p nodes' fuel); [|by eapply forest_similar; [symmetry|]|by eapply up_similar; [symmetry|]|lia].
    cbn. do 2 f_equal. apply map_eq. intros y. rewrite !lookup_bump. unfold nodes'.
    destruct (decide (x = y)) as [<-|Hne].
    + rewrite lookup_insert_eq, Hn. cbn. rewrite decide_False by done. by rewrite decide_True by set_solver.
    + rewrite lookup_insert_ne by done. destruct (nodes !! y); cbn; [|done].
      destruct (decide (y ∈ l)), (decide (y ∈ x :: l)); set_solver.
Qed.
