(* ===== verification/ForkTreeWeights.v ===== *)
(** * The weights of the fork choice tree

    A node weighs what the votes and the boost give to the blocks of its subtree.  Adding
    to the weight of one block along its ancestors keeps that true, for the nodes of the
    tree and for the roots that wait outside it. *)

From stdpp Require Import strings.
From S2P Require Import Prelude Bytes Shuffling BeaconTypes BeaconAccess ForkTree ForkTreeFacts.

Implicit Types (t : ForkChoiceTree) (nodes : gmap B256 ForkChoiceNode) (u v : B256 -> Z).

(** ** The ancestors of a block, as a function *)

Fixpoint chain (fuel : nat) nodes (x : B256) : list B256 :=
  match nodes !! x with
  | None => []
  | Some n => x :: match fn_parent n, fuel with Some p, S fuel' => chain fuel' nodes p | _, _ => [] end
  end.
Definition ancestors nodes (x : B256) : list B256 := chain (size nodes) nodes x.

Lemma chain_up nodes x l : up nodes x l -> forall fuel, (length l <= fuel)%nat -> chain fuel nodes x = l.
Proof.
  induction 1 as [x n Hx Hp|x n p l Hx Hp Hl IH]; intros fuel Hf; destruct fuel; cbn in Hf; try lia;
    cbn; rewrite Hx, Hp; [done|]. f_equal. apply IH. lia.
Qed.

Lemma ancestors_up root nodes x l : forest root nodes -> up nodes x l -> ancestors nodes x = l.
Proof. intros F Hl. eapply chain_up; [done|]. by eapply up_bound. Qed.

Lemma ancestors_None nodes x : nodes !! x = None -> ancestors nodes x = [].
Proof. unfold ancestors. intros Hx. by destruct (size nodes); cbn; rewrite Hx. Qed.

Lemma up_ancestors root nodes x : forest root nodes -> is_Some (nodes !! x) -> up nodes x (ancestors nodes x).
Proof. intros F Hx. destruct (up_exists F x Hx) as (l & Hl & _). by rewrite (ancestors_up _ _ _ _ F Hl). Qed.

Lemma ancestors_similar root a b x : forest root a -> similar a b -> ancestors a x = ancestors b x.
Proof.
  intros F Hs. destruct (a !! x) as [n|] eqn:Hx.
  - assert (up a x (ancestors a x)) as Hl by (by eapply up_ancestors). symmetry.
    apply (ancestors_up root); [by eapply forest_similar|by eapply up_similar].
  - rewrite !ancestors_None; [done| |done]. by eapply similar_None.
Qed.

Lemma ancestors_mem root nodes a x : forest root nodes -> a ∈ ancestors nodes x -> is_Some (nodes !! a) /\ is_Some (nodes !! x).
Proof.
  intros F Ha. destruct (nodes !! x) as [n|] eqn:Hx; [|rewrite ancestors_None in Ha by done; by apply not_elem_of_nil in Ha].
  split; [|by eexists]. eapply up_mem; [|exact Ha]. eapply up_ancestors; [done|by eexists].
Qed.

Lemma ancestors_self root nodes x : forest root nodes -> is_Some (nodes !! x) -> x ∈ ancestors nodes x.
Proof. intros F Hx. by eapply up_head, up_ancestors. Qed.

Lemma ancestors_trans root nodes a b x :
  forest root nodes -> a ∈ ancestors nodes b -> b ∈ ancestors nodes x -> a ∈ ancestors nodes x.
Proof.
  intros F Ha Hb. destruct (ancestors_mem _ _ _ _ F Hb) as [_ Hx].
  destruct (up_suffix _ _ _ _ (up_ancestors _ _ _ F Hx) Hb) as (l1 & l2 & E & Hl2).
  rewrite (ancestors_up _ _ _ _ F Hl2) in Ha. rewrite E. set_solver.
Qed.

Lemma ancestors_root root nodes x : forest root nodes -> is_Some (nodes !! x) -> root ∈ ancestors nodes x.
Proof.
  intros F Hx. pose proof (up_ancestors _ _ _ F Hx) as Hl. revert Hl. generalize (ancestors nodes x) as l.
  induction 1 as [x n Hn Hp|x n p l Hn Hp Hl IH].
  - rewrite (fo_orphan _ _ F x n Hn Hp). set_solver.
  - right. apply IH. destruct (fo_parent _ _ F x n p Hn Hp) as (m & -> & _). by eexists.
Qed.

(** A proper ancestor is an ancestor of the parent. *)
Lemma ancestors_parent root nodes x n p :
  forest root nodes -> nodes !! x = Some n -> fn_parent n = Some p -> ancestors nodes x = x :: ancestors nodes p.
Proof.
  intros F Hx Hp. apply (ancestors_up root); [done|]. eapply up_step; [done..|]. eapply up_ancestors; [done|].
  destruct (fo_parent _ _ F x n p Hx Hp) as (m & -> & _). by eexists.
Qed.

(** Two ancestors of one block are on one chain. *)
Lemma ancestors_linear root nodes a b x :
  forest root nodes -> a ∈ ancestors nodes x -> b ∈ ancestors nodes x -> a ∈ ancestors nodes b \/ b ∈ ancestors nodes a.
Proof.
  intros F Ha Hb. destruct (ancestors_mem _ _ _ _ F Hb) as [_ Hx].
  pose proof (up_ancestors _ _ _ F Hx) as Hl. revert Ha Hb Hl. generalize (ancestors nodes x) as l.
  intros l Ha Hb Hl. revert a b Ha Hb. induction Hl as [x n Hn Hp|x n p l Hn Hp Hl IH]; intros a b Ha Hb.
  - apply list_elem_of_singleton in Ha, Hb. subst. left. by eapply ancestors_self.
  - assert (ancestors nodes x = x :: l) as Ex by (apply (ancestors_up root); [done|by eapply up_step]).
    apply elem_of_cons in Ha as [->|Ha], Hb as [->|Hb].
    + left. rewrite Ex. set_solver.
    + right. rewrite Ex. set_solver.
    + left. rewrite Ex. set_solver.
    + apply IH; [|done..]. destruct (fo_parent _ _ F x n p Hn Hp) as (m & -> & _). by eexists.
Qed.

(** ** Subtree weights *)

Definition subtree_weight nodes u (a : B256) : Z :=
  msum (fun y _ => if decide (a ∈ ancestors nodes y) then u y else 0) nodes.
Definition total nodes u : Z := msum (fun y _ => u y) nodes.

(** Change of one value. *)
Definition plus_at u (r : B256) (d : Z) : B256 -> Z := fun y => if decide (y = r) then u y + d else u y.

Lemma plus_at_eq u r d : plus_at u r d r = u r + d.
Proof. unfold plus_at. by rewrite decide_True. Qed.
Lemma plus_at_ne u r d y : y <> r -> plus_at u r d y = u y.
Proof. intros Hy. unfold plus_at. by rewrite decide_False. Qed.

Lemma msum_fmap_dom `{Countable K} {V W} (h : V -> W) (f : K -> Z) (m : gmap K V) :
  msum (fun k _ => f k) (h <$> m) = msum (fun k _ => f k) m.
Proof.
  induction m as [|k w m Hk IH] using map_ind; [done|].
  rewrite fmap_insert, !msum_insert; [by rewrite IH|done|]. by rewrite lookup_fmap, Hk.
Qed.

Lemma msum_similar (f : B256 -> Z) a b : similar a b -> msum (fun y _ => f y) a = msum (fun y _ => f y) b.
Proof. intros Hs. rewrite <-(msum_fmap_dom static f a), <-(msum_fmap_dom static f b). by rewrite Hs. Qed.

Lemma subtree_weight_similar root a b u x :
  forest root a -> similar a b -> subtree_weight a u x = subtree_weight b u x.
Proof.
  intros F Hs. unfold subtree_weight. rewrite (msum_similar _ a b Hs). apply msum_ext. intros y n _.
  by rewrite (ancestors_similar root a b).
Qed.

Lemma total_similar a b u : similar a b -> total a u = total b u.
Proof. apply msum_similar. Qed.

Lemma subtree_weight_ext nodes u v x : (forall y, is_Some (nodes !! y) -> u y = v y) -> subtree_weight nodes u x = subtree_weight nodes v x.
Proof. intros Huv. apply msum_ext. intros y n Hy. by rewrite Huv by (by eexists). Qed.

Lemma subtree_weight_plus_at nodes u r d a :
  subtree_weight nodes (plus_at u r d) a =
  subtree_weight nodes u a + (if decide (a ∈ ancestors nodes r) then d else 0).
Proof.
  unfold subtree_weight. destruct (nodes !! r) as [n|] eqn:Hr.
  - rewrite (msum_delete _ nodes r n Hr). symmetry. rewrite (msum_delete _ nodes r n Hr).
    rewrite (msum_ext (fun y _ => if decide (a ∈ ancestors nodes y) then u y else 0)
      (fun y _ => if decide (a ∈ ancestors nodes y) then plus_at u r d y else 0) (delete r nodes)).
    + rewrite plus_at_eq. case_decide; lia.
    + intros y m [Hne _]%lookup_delete_Some. by rewrite plus_at_ne by done.
  - rewrite (ancestors_None _ _ Hr), (decide_False (P := a ∈ [])) by (apply not_elem_of_nil).
    rewrite Z.add_0_r. apply msum_ext. intros y m Hy. by rewrite plus_at_ne by congruence.
Qed.

Lemma subtree_weight_bounds nodes u a :
  (forall y, is_Some (nodes !! y) -> 0 <= u y) -> 0 <= subtree_weight nodes u a <= total nodes u.
Proof.
  intros Hu. split.
  - apply msum_nonneg. intros y n Hy. case_decide; [apply Hu; by eexists|done].
  - apply msum_le. intros y n Hy. case_decide; [done|apply Hu; by eexists].
Qed.

Lemma total_le nodes u v : (forall y, is_Some (nodes !! y) -> u y <= v y) -> total nodes u <= total nodes v.
Proof. intros Huv. apply msum_le. intros y n Hy. apply Huv. by eexists. Qed.

Lemma total_plus nodes u v : total nodes (fun y => u y + v y) = total nodes u + total nodes v.
Proof. apply (msum_plus (fun y _ => u y) (fun y _ => v y)). Qed.

(** ** Adding weight to one block *)

(** The tree with other nodes of the same shape. *)
Definition reweighed t t' : Prop := exists nodes, t' = ft_set_nodes nodes t /\ similar nodes (ft_nodes t).

#[global] Instance reweighed_preorder : PreOrder reweighed.
Proof.
  split.
  - intros t. exists (ft_nodes t). by destruct t.
  - intros t1 t2 t3 (n2 & -> & E2) (n3 & -> & E3). exists n3. split; [by destruct t1|by etrans].
Qed.

Lemma refreshed_reweighed t t' : refreshed t t' -> reweighed t t'.
Proof. intros R. pose proof (refreshed_similar _ _ R). destruct R as (nodes & -> & _). by exists nodes. Qed.

(** The weights follow [u], and everything is fresh. *)
Record tracks t u : Prop := mkTracks {
  tr_forest : forest (ft_root t) (ft_nodes t);
  tr_weight : forall x n, ft_nodes t !! x = Some n -> fn_weight n = subtree_weight (ft_nodes t) u x;
  tr_fresh : forall x, fresh_node t x;
}.

Lemma tracks_ext t u v : (forall y, is_Some (ft_nodes t !! y) -> u y = v y) -> tracks t u -> tracks t v.
Proof.
  intros Huv [F W R]. split; [done| |done]. intros x n Hx. rewrite (W x n Hx). by apply subtree_weight_ext.
Qed.

Lemma refreshed_weights t t' u : forest (ft_root t) (ft_nodes t) -> refreshed t t' ->
  (forall x n, ft_nodes t !! x = Some n -> fn_weight n = subtree_weight (ft_nodes t) u x) ->
  forall x n, ft_nodes t' !! x = Some n -> fn_weight n = subtree_weight (ft_nodes t') u x.
Proof.
  intros F R W x n Hx. pose proof (refreshed_similar _ _ R) as Hs. pose proof (refreshed_weight t t' x R) as Hw.
  rewrite Hx in Hw. destruct (ft_nodes t !! x) as [m|] eqn:Hm; cbn in Hw; [|done]. injection Hw as ->.
  rewrite (W x m Hm). symmetry in Hs. by apply (subtree_weight_similar (ft_root t)).
Qed.

Lemma apply_signed_id w d : is_u64 (w + d) -> apply_signed w d = w + d.
Proof. unfold is_u64, apply_signed, u64_max. lia. Qed.

Lemma apply_weight_delta_spec t u r d :
  tracks t u ->
  (forall y, is_Some (ft_nodes t !! y) -> 0 <= plus_at u r d y) -> total (ft_nodes t) (plus_at u r d) < 2 ^ 64 ->
  exists t', apply_weight_delta t r d = Ok t' /\ reweighed t t' /\ tracks t' (plus_at u r d).
Proof.
  intros [F W Hf] Hpos Htot. unfold apply_weight_delta, walk_bound. destruct (d =? 0) eqn:Hd; b2p.
  { exists t. split_and!; [done|reflexivity|]. apply (tracks_ext t u); [|by split]. intros y _. unfold plus_at.
    case_decide; lia. }
  destruct (ft_nodes t !! r) as [n|] eqn:Hr.
  2: { assert (weight_loop (size (ft_nodes t)) (ft_nodes t) (Some r) d = Ok (ft_nodes t, [])) as ->
         by (destruct (size (ft_nodes t)); cbn; by rewrite Hr).
       cbn. exists t. split_and!; [by destruct t|reflexivity|]. apply (tracks_ext t u); [|by split].
       intros y [m Hm]. unfold plus_at. case_decide; congruence. }
  pose proof (up_ancestors _ _ r F (ex_intro _ n Hr)) as Hl. set (l := ancestors (ft_nodes t) r) in *.
  rewrite (weight_loop_spec (ft_root t) d l r (ft_nodes t)) by (done || by eapply up_bound). cbn.
  set (t1 := ft_set_nodes (bump d l (ft_nodes t)) t).
  pose proof (bump_similar d l (ft_nodes t)) as Hs.
  assert (forest (ft_root t1) (ft_nodes t1)) as F1 by (eapply forest_similar; [symmetry; exact Hs|done]).
  assert (forall x m, ft_nodes t1 !! x = Some m -> fn_weight m = subtree_weight (ft_nodes t1) (plus_at u r d) x) as W1.
  { intros x m Hm. cbn in Hm |- *. rewrite lookup_bump in Hm. destruct (ft_nodes t !! x) as [m0|] eqn:Hx; [|done].
    cbn in Hm. injection Hm as <-.
    rewrite (subtree_weight_similar (ft_root t) _ (ft_nodes t) _ x F1 Hs), subtree_weight_plus_at.
    pose proof (subtree_weight_bounds (ft_nodes t) (plus_at u r d) x Hpos) as Hb. rewrite subtree_weight_plus_at in Hb.
    fold l in Hb |- *. case_decide; [|rewrite (W x m0 Hx); lia].
    cbn. rewrite (W x m0 Hx). apply apply_signed_id. unfold is_u64. lia. }
  destruct (update_chain r l t1) as (t2 & E2 & R2 & H2).
  - eapply up_similar; [symmetry; exact Hs|done].
  - done.
  - intros y Hy m Hm. cbn in Hm. rewrite lookup_bump in Hm. destruct (ft_nodes t !! y) as [m0|] eqn:Hy0; [|done].
    cbn in Hm. rewrite decide_False in Hm by done. injection Hm as ->. rewrite <-(Hf y m Hy0).
    apply evaluate_ext; [exact Hs|done|done|]. apply Forall_forall. intros c Hc.
    destruct (fo_child _ _ F y m c Hy0 Hc) as (k & Hk & Hp). unfold same_child. cbn. rewrite lookup_bump, Hk. cbn.
    rewrite decide_False; [done|]. intros Hin. apply Hy.
    apply (ancestors_trans (ft_root t) _ y c r F); [|exact Hin].
    rewrite (ancestors_parent _ _ c k y F Hk Hp). right. eapply ancestors_self; [done|by eexists].
  - exists t2. split_and!; [done| |].
    + etrans; [|by apply refreshed_reweighed]. by exists (bump d l (ft_nodes t)).
    + split; [by eapply refreshed_forest| |done]. by eapply refreshed_weights.
Qed.

(** ** Adding weight to several blocks *)

(** What waits outside the tree: the weight of the roots without a block. *)
Definition waits t v : Prop := forall y,
  ft_pending_weight t !! y =
  if decide (is_Some (ft_nodes t !! y)) then None else if decide (v y = 0) then None else Some (v y).

(** Every change but to nodes of the same shape and to the waiting weights is excluded. *)
Definition moved t t' : Prop :=
  exists nodes pending, t' = ft_set_pending_weight pending (ft_set_nodes nodes t) /\ similar nodes (ft_nodes t).

#[global] Instance moved_preorder : PreOrder moved.
Proof.
  split.
  - intros t. exists (ft_nodes t), (ft_pending_weight t). by destruct t.
  - intros t1 t2 t3 (n2 & p2 & -> & E2) (n3 & p3 & -> & E3). exists n3, p3. split; [by destruct t1|by etrans].
Qed.

Lemma reweighed_moved t t' : reweighed t t' -> moved t t'.
Proof. intros (nodes & -> & Hs). exists nodes, (ft_pending_weight t). split; [by destruct t|done]. Qed.

Lemma moved_similar t t' : moved t t' -> similar (ft_nodes t') (ft_nodes t).
Proof. by intros (nodes & p & -> & Hs). Qed.

Lemma similar_is_Some a b (x : B256) : similar a b -> is_Some (a !! x) <-> is_Some (b !! x).
Proof.
  intros Hs. apply (f_equal (fun m => m !! x)) in Hs. rewrite !lookup_fmap in Hs.
  destruct (a !! x), (b !! x); try done; split; intros [? ?]; try done; by eexists.
Qed.

Lemma waits_reweighed t t' v : reweighed t t' -> waits t v -> waits t' v.
Proof.
  intros (nodes & -> & Hs) Hw y. cbn. rewrite (Hw y). pose proof (similar_is_Some _ _ y Hs) as Hi.
  destruct (decide (is_Some (ft_nodes t !! y))) as [H1|H1];
    [by rewrite decide_True by tauto|by rewrite (decide_False (P := is_Some _)) by tauto].
Qed.

(** One root of a change of the votes. *)
Lemma apply_delta_spec t v b r d :
  tracks t (fun y => v y + b y) -> waits t v ->
  (forall y, 0 <= plus_at v r d y < 2 ^ 64) -> (forall y, 0 <= b y) -> (forall y, 0 <= v y < 2 ^ 64) ->
  total (ft_nodes t) (fun y => plus_at v r d y + b y) < 2 ^ 64 ->
  exists t', (if contains t r then apply_weight_delta t r d else Ok (adjust_pending_weight t r d)) = Ok t' /\
    moved t t' /\ tracks t' (fun y => plus_at v r d y + b y) /\ waits t' (plus_at v r d).
Proof.
  intros T Hw Hv' Hb Hv Htot.
  assert (forall y, plus_at (fun y => v y + b y) r d y = plus_at v r d y + b y) as Hplus
    by (intros y; unfold plus_at; case_decide; lia).
  unfold contains. case_bool_decide as Hr.
  - destruct (apply_weight_delta_spec t (fun y => v y + b y) r d) as (t' & E & R & T'); [done| | |].
    + intros y _. rewrite Hplus. specialize (Hv' y). specialize (Hb y). lia.
    + eapply Z.le_lt_trans; [|exact Htot]. apply total_le. intros y _. by rewrite Hplus.
    + exists t'. split_and!; [done|by apply reweighed_moved|by eapply tracks_ext; [|exact T']|].
      apply (waits_reweighed t t'); [done|]. intros y. rewrite (Hw y). case_decide; [done|].
      rewrite plus_at_ne; [done|]. congruence.
  - exists (adjust_pending_weight t r d). split; [done|].
    assert (moved t (adjust_pending_weight t r d)) as Hm.
    { unfold adjust_pending_weight. destruct (d =? 0); [reflexivity|].
      destruct (_ =? 0); eexists (ft_nodes t), _; split; try done; by destruct t. }
    split_and!; [done| |].
    + assert (ft_nodes (adjust_pending_weight t r d) = ft_nodes t /\
        tracks (adjust_pending_weight t r d) (fun y => v y + b y)) as [En T'].
      { unfold adjust_pending_weight. destruct (d =? 0); [done|]. destruct T as [F W R].
        destruct (_ =? 0); (split; [done|]); split; done. }
      eapply tracks_ext; [|exact T']. rewrite En. intros y Hy. cbn. rewrite plus_at_ne; [done|]. congruence.
    + intros y. unfold adjust_pending_weight. destruct (d =? 0) eqn:Hd; b2p.
      { rewrite (Hw y). assert (plus_at v r d y = v y) as -> by (unfold plus_at; case_decide; lia). done. }
      assert (default 0 (ft_pending_weight t !! r) = v r) as ->.
      { rewrite (Hw r), decide_False by done. case_decide; cbn; lia. }
      assert (apply_signed (v r) d = plus_at v r d r) as ->.
      { rewrite plus_at_eq. apply apply_signed_id. specialize (Hv' r). rewrite plus_at_eq in Hv'. done. }
      destruct (decide (y = r)) as [->|Hne].
      * rewrite (decide_False (P := is_Some _)) by (destruct (_ =? 0); done).
        destruct (plus_at v r d r =? 0) eqn:E0; b2p; cbn [ft_pending_weight ft_set_pending_weight].
        -- by rewrite lookup_delete_eq, decide_True.
        -- by rewrite lookup_insert_eq, decide_False.
      * rewrite (plus_at_ne v r d y) by done. destruct (plus_at v r d r =? 0); cbn;
          (rewrite lookup_delete_ne by done) || (rewrite lookup_insert_ne by done); apply Hw.
Qed.

(** The values after a list of changes. *)
Definition plus_all v (ds : list (B256 * Z)) : B256 -> Z := foldl (fun v rd => plus_at v rd.1 rd.2) v ds.

Lemma plus_all_notin v ds y : y ∉ ds.*1 -> plus_all v ds y = v y.
Proof.
  revert v. induction ds as [|[r d] ds IH]; intros v Hy; [done|]. cbn in *. unfold plus_all in *. cbn.
  rewrite IH by set_solver. apply plus_at_ne. set_solver.
Qed.

Lemma plus_all_in v ds r d : NoDup ds.*1 -> (r, d) ∈ ds -> plus_all v ds r = v r + d.
Proof.
  revert v. induction ds as [|[r' d'] ds IH]; intros v Hnd Hin; [by apply not_elem_of_nil in Hin|].
  cbn in Hnd. apply NoDup_cons in Hnd as [Hn Hnd]. unfold plus_all. cbn. apply elem_of_cons in Hin as [[= -> ->]|Hin].
  - fold (plus_all (plus_at v r' d') ds). rewrite plus_all_notin by done. apply plus_at_eq.
  - fold (plus_all (plus_at v r' d') ds). rewrite (IH _ Hnd Hin), plus_at_ne; [done|].
    intros ->. apply Hn. apply list_elem_of_fmap. by exists (r', d).
Qed.

(** Changes at distinct roots, below a bound [m] throughout, in any order. *)
Lemma apply_list_spec b m ds : forall t v,
  tracks t (fun y => v y + b y) -> waits t v -> NoDup ds.*1 ->
  (forall y, 0 <= v y <= m y) -> (forall r d, (r, d) ∈ ds -> 0 <= v r + d <= m r) ->
  (forall y, 0 <= b y) -> (forall y, m y < 2 ^ 64) -> total (ft_nodes t) (fun y => m y + b y) < 2 ^ 64 ->
  exists t', foldM (fun t rd => if contains t rd.1 then apply_weight_delta t rd.1 rd.2
                                else Ok (adjust_pending_weight t rd.1 rd.2)) t ds = Ok t' /\
    moved t t' /\ tracks t' (fun y => plus_all v ds y + b y) /\ waits t' (plus_all v ds).
Proof.
  induction ds as [|[r d] ds IH]; intros t v T Hw Hnd Hv Hds Hb Hm Htot.
  { exists t. split_and!; [done|reflexivity|done|done]. }
  cbn in Hnd. apply NoDup_cons in Hnd as [Hn Hnd].
  assert (forall y, 0 <= plus_at v r d y <= m y) as Hv1.
  { intros y. destruct (decide (y = r)) as [->|Hne]; [rewrite plus_at_eq|by rewrite plus_at_ne].
    apply Hds. set_solver. }
  destruct (apply_delta_spec t v b r d) as (t1 & E1 & M1 & T1 & W1); [done|done| |done| | |].
  { intros y. specialize (Hv1 y). specialize (Hm y). lia. }
  { intros y. specialize (Hv y). specialize (Hm y). lia. }
  { eapply Z.le_lt_trans; [|exact Htot]. apply total_le. intros y _. specialize (Hv1 y). lia. }
  destruct (IH t1 (plus_at v r d)) as (t2 & E2 & M2 & T2 & W2); [done|done|done|done| |done|done| |].
  - intros r' d' Hin. rewrite plus_at_ne; [apply Hds; set_solver|]. intros ->. apply Hn.
    apply list_elem_of_fmap. by exists (r, d').
  - by rewrite (total_similar _ _ _ (moved_similar _ _ M1)).
  - exists t2. cbn [foldM fst snd]. rewrite E1. cbn. split_and!; [done|by etrans|done|done].
Qed.

(** ** Votes *)

Definition vote_weight (votes : gmap Z AppliedVote) (y : B256) : Z :=
  msum (fun _ vote => if decide (av_root vote = y) then av_balance vote else 0) votes.
Definition vote_total (votes : gmap Z AppliedVote) : Z := msum (fun _ vote => av_balance vote) votes.

Definition positive_votes (votes : gmap Z AppliedVote) : Prop :=
  forall i vote, votes !! i = Some vote -> 0 <= av_balance vote.

Lemma vote_weight_bounds votes y : positive_votes votes -> 0 <= vote_weight votes y <= vote_total votes.
Proof.
  intros Hp. split.
  - apply msum_nonneg. intros i vote Hi. case_decide; [by apply (Hp i)|done].
  - apply msum_le. intros i vote Hi. case_decide; [done|by apply (Hp i)].
Qed.

(** A vote counts for one block at most. *)
Lemma vote_weight_total nodes votes : positive_votes votes -> total nodes (vote_weight votes) <= vote_total votes.
Proof.
  intros Hp. unfold total, vote_weight. rewrite msum_swap. apply msum_le. intros i vote Hi.
  destruct (nodes !! av_root vote) as [n|] eqn:Hr.
  - rewrite (msum_single _ nodes (av_root vote) n Hr); [by rewrite decide_True|].
    intros y m _ Hne. by rewrite decide_False.
  - rewrite msum_zero; [by apply (Hp i)|]. intros y m Hy. rewrite decide_False; [done|]. congruence.
Qed.

(** [deltas] is the difference between two sets of votes. *)
Definition accounts (old new : gmap Z AppliedVote) (deltas : gmap B256 Z) : Prop :=
  forall y, default 0 (deltas !! y) = vote_weight new y - vote_weight old y.

Lemma lookup_add_delta deltas r d y :
  default 0 (add_delta deltas r d !! y) = default 0 (deltas !! y) + (if decide (r = y) then d else 0).
Proof.
  unfold add_delta. destruct (decide (r = y)) as [->|Hne]; [by rewrite lookup_insert_eq|].
  rewrite lookup_insert_ne by done. lia.
Qed.

Lemma accounts_new old new deltas i root balance :
  new !! i = None -> accounts old new deltas ->
  accounts old (<[i := mkAppliedVote root balance]> new) (add_delta deltas root balance).
Proof.
  intros Hi Ha y. rewrite lookup_add_delta, (Ha y). unfold vote_weight. rewrite msum_insert by done. cbn. lia.
Qed.

Lemma accounts_replace old new deltas i vote root balance :
  new !! i = Some vote -> accounts old new deltas ->
  accounts old (<[i := mkAppliedVote root balance]> new)
    (add_delta (add_delta deltas (av_root vote) (- av_balance vote)) root balance).
Proof.
  intros Hi Ha y. rewrite !lookup_add_delta, (Ha y). unfold vote_weight. rewrite (msum_replace _ _ _ _ _ Hi). cbn.
  repeat case_decide; lia.
Qed.

(** A vote that keeps its block. *)
Lemma accounts_reweigh old new deltas i vote balance :
  new !! i = Some vote -> accounts old new deltas ->
  accounts old (<[i := mkAppliedVote (av_root vote) balance]> new)
    (add_delta deltas (av_root vote) (balance - av_balance vote)).
Proof.
  intros Hi Ha y. rewrite !lookup_add_delta, (Ha y). unfold vote_weight. rewrite (msum_replace _ _ _ _ _ Hi). cbn.
  repeat case_decide; lia.
Qed.

Section deltas.
Context {HO : HashOrder} {HOL : HashOrderLaws HO}.

(** Applying the difference between two sets of votes moves the tree from one to the other. *)
Lemma apply_deltas_spec t b old new deltas :
  tracks t (fun y => vote_weight old y + b y) -> waits t (vote_weight old) ->
  accounts old new deltas -> positive_votes old -> positive_votes new ->
  (forall y, 0 <= b y) -> vote_total old + vote_total new + total (ft_nodes t) b < 2 ^ 64 ->
  exists t', apply_deltas t deltas = Ok t' /\ moved t t' /\
    tracks t' (fun y => vote_weight new y + b y) /\ waits t' (vote_weight new).
Proof.
  intros T Hw Ha Ho Hn Hb Htot.
  assert (forall y, 0 <= vote_weight old y <= vote_total old) as Bo by (intros; by apply vote_weight_bounds).
  assert (forall y, 0 <= vote_weight new y <= vote_total new) as Bn by (intros; by apply vote_weight_bounds).
  assert (0 <= total (ft_nodes t) b) as Bb by (by apply msum_nonneg).
  set (m := fun y => vote_weight old y + vote_weight new y).
  destruct (apply_list_spec b m (hm_iter deltas) t (vote_weight old)) as (t' & E & M & T' & W');
    [done|done|apply NoDup_hm_iter| | |done| | |].
  - intros y. unfold m. specialize (Bo y). specialize (Bn y). lia.
  - intros r d Hin%elem_of_hm_iter. specialize (Ha r). rewrite Hin in Ha. cbn in Ha. unfold m.
    specialize (Bo r). specialize (Bn r). lia.
  - intros y. unfold m. specialize (Bo y). specialize (Bn y). lia.
  - unfold total, m. rewrite !msum_plus. fold (total (ft_nodes t) b).
    pose proof (vote_weight_total (ft_nodes t) old Ho). pose proof (vote_weight_total (ft_nodes t) new Hn).
    unfold total in *. lia.
  - assert (forall y, plus_all (vote_weight old) (hm_iter deltas) y = vote_weight new y) as Hall.
    { intros y. specialize (Ha y). destruct (deltas !! y) as [d|] eqn:Hd; cbn in Ha.
      - rewrite (plus_all_in _ _ y d); [lia|apply NoDup_hm_iter|by apply elem_of_hm_iter].
      - rewrite plus_all_notin; [lia|]. intros ([y' d'] & -> & Hin%elem_of_hm_iter)%list_elem_of_fmap. cbn in *. congruence. }
    exists t'. split_and!; [done|done| |].
    + eapply tracks_ext; [|exact T']. intros y _. cbn. by rewrite Hall.
    + intros y. rewrite (W' y), Hall. done.
Qed.
End deltas.
