(* ===== verification/ForkTreeInvariant.v ===== *)
(** * The invariant of the fork choice tree

    What the tree keeps true between operations, and that every operation does: the
    nodes form a tree, each weighs what the counted votes and the boost give its subtree,
    the votes for unknown blocks wait with their exact weight, and each node's record of
    viability and best descendant is current. *)

From stdpp Require Import strings.
From S2P Require Import Prelude Bytes Shuffling BeaconTypes BeaconAccess ForkTree ForkTreeFacts ForkTreeWeights.

Implicit Types (t : ForkChoiceTree) (nodes : gmap B256 ForkChoiceNode).

Definition boost_weight (boost : option (B256 * Z)) (y : B256) : Z :=
  match boost with Some (r, s) => if decide (r = y) then s else 0 | None => 0 end.

(** What the tree counts for a block itself. *)
Definition own_weight t (y : B256) : Z := vote_weight (ft_votes t) y + boost_weight (ft_boost t) y.

(** The balances and the boost leave room in 64 bits for a change to be half applied. *)
Definition supply_ok (balances : list Z) (score : Z) : Prop :=
  Forall (fun b => 0 <= b) balances /\ 0 <= score /\ sumZ balances + score < 2 ^ 62.

Record tree_inv t : Prop := mkTreeInv {
  ti_tracks : tracks t (own_weight t);
  ti_waits : waits t (vote_weight (ft_votes t));
  ti_votes : forall i vote, ft_votes t !! i = Some vote -> 0 <= i /\ av_balance vote = balance_of t i;
  ti_boost : forall r s, ft_boost t = Some (r, s) -> s = ft_proposer_score t;
  ti_supply : supply_ok (ft_balances t) (ft_proposer_score t);
}.

(** ** Bounds *)

Lemma votes_within votes : forall balances, Forall (fun b => 0 <= b) balances ->
  (forall i vote, votes !! i = Some vote -> 0 <= i /\ 0 <= av_balance vote <= default 0 (balances !! Z.to_nat i)) ->
  vote_total votes <= sumZ balances.
Proof.
  intros balances. revert votes. induction balances as [|b balances IH] using rev_ind; intros votes Hb Hv.
  - unfold vote_total. rewrite msum_zero; [done|]. intros i vote Hi. destruct (Hv i vote Hi) as [_ H].
    rewrite lookup_nil in H. cbn in H. lia.
  - apply Forall_app in Hb as [Hb Hb1]. rewrite Forall_singleton in Hb1. rewrite sumZ_app. cbn.
    set (k := Z.of_nat (length balances)).
    assert (vote_total (delete k votes) <= sumZ balances) as Hd.
    { apply IH; [done|]. intros i vote [Hne Hi]%lookup_delete_Some. destruct (Hv i vote Hi) as [H0 Hle].
      split; [done|]. destruct (decide (Z.to_nat i < length balances)%nat).
      - by rewrite lookup_app_l in Hle.
      - rewrite lookup_ge_None_2 in Hle; [|rewrite length_app; cbn; lia].
        by rewrite lookup_ge_None_2 by lia. }
    destruct (votes !! k) as [vote|] eqn:Hk.
    + unfold vote_total. rewrite (msum_delete _ votes k vote Hk). fold (vote_total (delete k votes)).
      destruct (Hv k vote Hk) as [_ Hle]. unfold k in Hle. rewrite Nat2Z.id in Hle.
      rewrite lookup_app_r, Nat.sub_diag in Hle by lia. cbn in Hle. lia.
    + rewrite delete_id in Hd by done. lia.
Qed.

Lemma balance_of_bounds t i : Forall (fun b => 0 <= b) (ft_balances t) ->
  0 <= balance_of t i <= default 0 (ft_balances t !! Z.to_nat i).
Proof.
  intros Hb. unfold balance_of. assert (0 <= default 0 (ft_balances t !! Z.to_nat i)).
  { destruct (_ !! _) eqn:E; [|done]. cbn. by eapply Forall_lookup_1 in E. }
  case_bool_decide; lia.
Qed.

(** The votes as the balances weigh them. *)
Definition weighed t (votes : gmap Z AppliedVote) : Prop :=
  forall i vote, votes !! i = Some vote -> 0 <= i /\ av_balance vote = balance_of t i.

Lemma weighed_positive t votes score : supply_ok (ft_balances t) score -> weighed t votes -> positive_votes votes.
Proof.
  intros [Hb _] Hw i vote Hi. destruct (Hw i vote Hi) as [_ ->]. by apply balance_of_bounds.
Qed.

Lemma weighed_total t votes score : supply_ok (ft_balances t) score -> weighed t votes ->
  vote_total votes <= sumZ (ft_balances t).
Proof.
  intros [Hb _] Hw. apply votes_within; [done|]. intros i vote Hi. destruct (Hw i vote Hi) as [H0 ->].
  split; [done|]. by apply balance_of_bounds.
Qed.

Lemma boost_weight_nonneg boost y : (forall r s, boost = Some (r, s) -> 0 <= s) -> 0 <= boost_weight boost y.
Proof. intros Hs. unfold boost_weight. destruct boost as [[r s]|]; [|done]. case_decide; [by eapply Hs|done]. Qed.

Lemma boost_total nodes boost c : 0 <= c -> (forall r s, boost = Some (r, s) -> 0 <= s <= c) ->
  total nodes (boost_weight boost) <= c.
Proof.
  intros Hc Hs. unfold total, boost_weight. destruct boost as [[r s]|].
  - specialize (Hs r s eq_refl). destruct (nodes !! r) as [n|] eqn:Hr.
    + rewrite (msum_single _ nodes r n Hr); [rewrite decide_True by done; lia|]. intros y m _ Hne. by rewrite decide_False.
    + rewrite msum_zero; [lia|]. intros y m Hy. rewrite decide_False; [done|]. congruence.
  - rewrite msum_zero by done. lia.
Qed.

Lemma sum_nonneg balances : Forall (fun b => 0 <= b) balances -> 0 <= sumZ balances.
Proof. apply sumZ_nonneg. Qed.

(** ** Votes change *)

Section operations.
Context {HO : HashOrder} {HOL : HashOrderLaws HO}.

(** From the votes that the tree tracks to others, under the balances of now. *)
Lemma revote t t0 votes deltas score :
  tracks t (fun y => vote_weight (ft_votes t0) y + boost_weight (ft_boost t) y) ->
  waits t (vote_weight (ft_votes t0)) ->
  (forall r s, ft_boost t = Some (r, s) -> s = score) ->
  supply_ok (ft_balances t0) score -> supply_ok (ft_balances t) 0 ->
  weighed t0 (ft_votes t0) -> weighed t votes -> accounts (ft_votes t0) votes deltas ->
  exists t', apply_deltas (ft_set_votes votes t) deltas = Ok t' /\ moved (ft_set_votes votes t) t' /\
    tracks t' (own_weight t') /\ waits t' (vote_weight (ft_votes t')).
Proof.
  intros T Hw Hb S0 S1 W0 W1 Ha.
  assert (0 <= score) as Hsc by apply S0.
  destruct (apply_deltas_spec (ft_set_votes votes t) (boost_weight (ft_boost t)) (ft_votes t0) votes deltas)
    as (t' & E & M & T' & W'); [|done|done|exact (weighed_positive t0 _ score S0 W0)|exact (weighed_positive t _ 0 S1 W1)| | |].
  - destruct T as [F W R]. by split.
  - intros y. apply boost_weight_nonneg. intros r s Hrs. rewrite (Hb r s Hrs). done.
  - pose proof (weighed_total t0 _ score S0 W0). pose proof (weighed_total t _ 0 S1 W1).
    assert (total (ft_nodes (ft_set_votes votes t)) (boost_weight (ft_boost t)) <= score).
    { apply boost_total; [done|]. intros r s Hrs. rewrite (Hb r s Hrs). lia. }
    destruct S0 as (P0 & _ & L0), S1 as (P1 & _ & L1).
    pose proof (sum_nonneg _ P0). pose proof (sum_nonneg _ P1). lia.
  - exists t'. destruct M as (nodes & pending & -> & Hs). split_and!; [done|by eexists _, _|done|done].
Qed.

Lemma supply_weaken balances score : supply_ok balances score -> supply_ok balances 0.
Proof. intros (H1 & H2 & H3). split_and!; [done|done|lia]. Qed.

Lemma moved_fields t t' : moved t t' ->
  ft_root t' = ft_root t /\ ft_context t' = ft_context t /\ ft_balances t' = ft_balances t /\
  ft_balances_checkpoint t' = ft_balances_checkpoint t /\ ft_proposer_score t' = ft_proposer_score t /\
  ft_votes t' = ft_votes t /\ ft_equivocating t' = ft_equivocating t /\ ft_boost t' = ft_boost t.
Proof. by intros (nodes & pending & -> & _). Qed.

Lemma balance_of_fields t t' i :
  ft_balances t' = ft_balances t -> ft_equivocating t' = ft_equivocating t -> balance_of t' i = balance_of t i.
Proof. unfold balance_of. by intros -> ->. Qed.

(** *** New latest messages *)

Lemma tree_record_votes_spec t updates : forall votes deltas,
  Forall (fun u => 0 <= u.1) updates -> weighed t votes -> accounts (ft_votes t) votes deltas ->
  let r := foldl (record_vote t) (votes, deltas) updates in
  weighed t r.1 /\ accounts (ft_votes t) r.1 r.2.
Proof.
  induction updates as [|[i root] updates IH]; intros votes deltas Hu Hw Ha; [done|].
  apply Forall_cons in Hu as [Hi Hu]. cbn [foldl]. unfold record_vote at 2 4 6. cbn in Hi.
  case_bool_decide; [by apply IH|]. apply IH; [done| |].
  - intros j vote Hj. destruct (decide (i = j)) as [<-|Hne].
    + rewrite lookup_insert_eq in Hj. injection Hj as <-. done.
    + rewrite lookup_insert_ne in Hj by done. by apply Hw.
  - destruct (votes !! i) as [previous|] eqn:Hv; [by apply accounts_replace|by apply accounts_new].
Qed.

Lemma accounts_refl votes : accounts votes votes ∅.
Proof. intros y. rewrite lookup_empty. cbn. lia. Qed.

Lemma process_votes_inv t updates : tree_inv t -> Forall (fun u => 0 <= u.1) updates ->
  exists t', process_votes t updates = Ok t' /\ tree_inv t' /\
    moved (ft_set_votes (foldl (record_vote t) (ft_votes t, ∅) updates).1 t) t'.
Proof.
  intros [T Hw Hv Hb Hs] Hu. unfold process_votes.
  destruct (tree_record_votes_spec t updates (ft_votes t) ∅ Hu Hv (accounts_refl _)) as [W A].
  destruct (foldl (record_vote t) (ft_votes t, ∅) updates) as [votes deltas]. cbn in *.
  destruct (revote t t votes deltas (ft_proposer_score t)) as (t' & E & M & T' & W'); try done.
  { by eapply supply_weaken. }
  exists t'. split_and!; [done| |done]. pose proof (moved_fields _ _ M) as (_ & _ & E3 & _ & E5 & E6 & E7 & E8).
  split; [done|done| | |].
  - intros i vote. rewrite E6. cbn. intros Hi. rewrite (balance_of_fields t); [by apply W|done|done].
  - intros r s. rewrite E8, E5. apply Hb.
  - by rewrite E3, E5.
Qed.

(** *** Equivocating validators *)

Definition marked t (r : gset Z * gmap Z AppliedVote * gmap B256 Z) : Prop :=
  weighed (ft_set_equivocating r.1.1 t) r.1.2 /\ accounts (ft_votes t) r.1.2 r.2.

Lemma mark_one_spec t r i : marked t r -> marked t (mark_one r i) /\ (mark_one r i).1.1 = {[i]} ∪ r.1.1.
Proof.
  destruct r as [[equivocating votes] deltas]. intros [Hw Ha]. cbn in Hw, Ha. unfold mark_one.
  case_bool_decide as Hi; [split; [done|cbn; set_solver]|].
  assert (forall j, j <> i -> balance_of (ft_set_equivocating ({[i]} ∪ equivocating) t) j =
    balance_of (ft_set_equivocating equivocating t) j) as Hbal.
  { intros j Hj. unfold balance_of. cbn. by rewrite (bool_decide_ext (j ∈ {[i]} ∪ equivocating) (j ∈ equivocating)) by set_solver. }
  destruct (votes !! i) as [vote|] eqn:Hv; (split; [|done]); split; cbn.
  - intros j vote' Hj. destruct (decide (i = j)) as [<-|Hne].
    + rewrite lookup_insert_eq in Hj. injection Hj as <-. split; [by eapply Hw|]. unfold balance_of. cbn.
      by rewrite bool_decide_true by set_solver.
    + rewrite lookup_insert_ne in Hj by done. rewrite Hbal by done. by apply Hw.
  - apply (accounts_reweigh _ _ _ i vote 0) in Ha; [|done]. by rewrite Z.sub_0_l in Ha.
  - intros j vote' Hj. rewrite Hbal by congruence. by apply Hw.
  - done.
Qed.

Lemma mark_all_spec t indices : forall r, marked t r ->
  marked t (foldl mark_one r indices) /\ (foldl mark_one r indices).1.1 = r.1.1 ∪ list_to_set indices.
Proof.
  induction indices as [|i indices IH]; intros r Hr; cbn [foldl]; [split; [done|set_solver]|].
  destruct (mark_one_spec t r i Hr) as [H1 H2]. destruct (IH _ H1) as [H3 H4].
  split; [done|]. rewrite H4, H2. set_solver.
Qed.

Lemma mark_all_roots indices : forall r, av_root <$> (foldl mark_one r indices).1.2 = av_root <$> r.1.2.
Proof.
  induction indices as [|i indices IH]; intros r; cbn [foldl]; [done|]. rewrite IH. clear IH.
  destruct r as [[equivocating votes] deltas]. unfold mark_one. case_bool_decide; [done|]. cbn.
  destruct (votes !! i) as [vote|] eqn:Hv; [|done]. cbn. rewrite fmap_insert. cbn. apply insert_id. by rewrite lookup_fmap, Hv.
Qed.

Lemma mark_equivocating_inv t indices : tree_inv t ->
  exists t', mark_equivocating t indices = Ok t' /\ tree_inv t' /\
    ft_equivocating t' = ft_equivocating t ∪ list_to_set indices /\
    exists votes, moved (ft_set_votes votes (ft_set_equivocating (ft_equivocating t') t)) t' /\
      av_root <$> votes = av_root <$> ft_votes t.
Proof.
  intros [T Hw Hv Hb Hs]. unfold mark_equivocating.
  destruct (mark_all_spec t indices (ft_equivocating t, ft_votes t, ∅)) as [[W A] Eq];
    [split; [by destruct t|apply accounts_refl]|].
  pose proof (mark_all_roots indices (ft_equivocating t, ft_votes t, ∅)) as Hroots.
  destruct (foldl mark_one _ indices) as [[eq votes] deltas]. cbn in *.
  set (t1 := ft_set_equivocating eq t).
  destruct (revote t1 t votes deltas (ft_proposer_score t)) as (t' & E & M & T' & W'); try done.
  { destruct T as [F Wt R]. by split. }
  { by eapply supply_weaken. }
  pose proof (moved_fields _ _ M) as (_ & _ & E3 & _ & E5 & E6 & E7 & E8).
  exists t'. split_and!; [done| |by rewrite E7|].
  - split; [done|done| | |].
    + intros i vote. rewrite E6. cbn. intros Hi. rewrite (balance_of_fields t1); [by apply W|done|done].
    + intros r s. rewrite E8, E5. apply Hb.
    + by rewrite E3, E5.
  - exists votes. split; [by rewrite E7|done].
Qed.

(** *** The proposer boost *)

Lemma tracks_boost t boost u : tracks t u -> tracks (ft_set_boost boost t) u.
Proof. intros [F W R]. by split. Qed.

Lemma vote_weight_supply t score : supply_ok (ft_balances t) score -> weighed t (ft_votes t) ->
  (forall y, 0 <= vote_weight (ft_votes t) y) /\ total (ft_nodes t) (vote_weight (ft_votes t)) <= sumZ (ft_balances t).
Proof.
  intros S W. pose proof (weighed_positive _ _ _ S W) as Hp. split; [intros y; by apply vote_weight_bounds|].
  etrans; [by apply vote_weight_total|by eapply weighed_total].
Qed.

Lemma drop_boost t : tracks t (own_weight t) -> weighed t (ft_votes t) ->
  supply_ok (ft_balances t) (ft_proposer_score t) ->
  exists t', (match ft_boost t with
    | Some (old_root, old_score) => apply_weight_delta (ft_set_boost None t) old_root (- old_score)
    | None => Ok t end) = Ok t' /\ reweighed (ft_set_boost None t) t' /\ tracks t' (vote_weight (ft_votes t)).
Proof.
  intros T Hv S. destruct (vote_weight_supply t _ S Hv) as [Hpos Htot]. destruct (ft_boost t) as [[r s]|] eqn:Ebo.
  - assert (forall y, plus_at (own_weight t) r (- s) y = vote_weight (ft_votes t) y) as Hu.
    { intros y. unfold own_weight, plus_at. rewrite Ebo. cbn. repeat case_decide; subst; try done; lia. }
    destruct (apply_weight_delta_spec (ft_set_boost None t) (own_weight t) r (- s)) as (t1 & E & R & T1).
    + by apply tracks_boost.
    + intros y _. by rewrite Hu.
    + eapply Z.le_lt_trans; [apply total_le; intros y _; by rewrite Hu|]. cbn. destruct S as (P & ? & ?). lia.
    + exists t1. split_and!; [done|done|]. eapply tracks_ext; [|exact T1]. intros y _. apply Hu.
  - exists t. split_and!; [done| |].
    + exists (ft_nodes t). split; [|done]. destruct t. cbn in *. by subst.
    + eapply tracks_ext; [|exact T]. intros y _. unfold own_weight. rewrite Ebo. cbn. lia.
Qed.

Lemma add_boost t boost score : tracks t (vote_weight (ft_votes t)) -> weighed t (ft_votes t) ->
  supply_ok (ft_balances t) score -> (forall r s, boost = Some (r, s) -> s = score) ->
  exists t', (match boost with Some (r, s) => apply_weight_delta t r s | None => Ok t end) = Ok t' /\
    reweighed t t' /\ tracks t' (fun y => vote_weight (ft_votes t) y + boost_weight boost y).
Proof.
  intros T Hv S Hb. destruct (vote_weight_supply t _ S Hv) as [Hpos Htot].
  assert (0 <= score) as Hsc by apply S. destruct boost as [[r s]|].
  - rewrite (Hb r s eq_refl) in *.
    assert (forall y, plus_at (vote_weight (ft_votes t)) r score y =
      vote_weight (ft_votes t) y + boost_weight (Some (r, score)) y) as Hu.
    { intros y. unfold plus_at. cbn. repeat case_decide; subst; try done; lia. }
    destruct (apply_weight_delta_spec t (vote_weight (ft_votes t)) r score) as (t' & E & R & T'); [done| | |].
    + intros y _. rewrite Hu. specialize (Hpos y). unfold boost_weight. case_decide; lia.
    + apply Z.le_lt_trans with (total (ft_nodes t) (fun y => vote_weight (ft_votes t) y + boost_weight (Some (r, score)) y)).
      { apply total_le. intros y _. by rewrite Hu. }
      rewrite total_plus.
      assert (total (ft_nodes t) (boost_weight (Some (r, score))) <= score).
      { apply boost_total; [done|]. intros r' s' [= _ <-]. lia. }
      destruct S as (P & ? & ?). lia.
    + exists t'. split_and!; [done|done|]. eapply tracks_ext; [|exact T']. intros y _. apply Hu.
  - exists t. split_and!; [done|reflexivity|]. eapply tracks_ext; [|exact T]. intros y _. cbn. lia.
Qed.

Lemma set_boost_spec t root :
  tracks t (own_weight t) -> waits t (vote_weight (ft_votes t)) -> weighed t (ft_votes t) ->
  supply_ok (ft_balances t) (ft_proposer_score t) ->
  exists t', set_proposer_boost_root t root = Ok t' /\
    reweighed (ft_set_boost ((fun r => (r, ft_proposer_score t)) <$> root) t) t' /\ tracks t' (own_weight t').
Proof.
  intros T Hw Hv S. unfold set_proposer_boost_root. set (desired := (fun r => (r, ft_proposer_score t)) <$> root).
  case_bool_decide as Heq.
  { exists t. split_and!; [done| |done]. rewrite Heq. exists (ft_nodes t). by destruct t. }
  destruct (drop_boost t T Hv S) as (t1 & -> & (n1 & -> & S1) & T1). cbn in S1 |- *.
  destruct (add_boost (ft_set_nodes n1 (ft_set_boost None t)) desired (ft_proposer_score t))
    as (t2 & -> & (n2 & -> & S2) & T2); [done|done|done| |].
  { intros r s Hd. unfold desired in Hd. destruct root; by simplify_eq/=. }
  cbn in S2 |- *. eexists. split; [done|]. split; [exists n2; split; [done|by etrans]|].
  by apply (tracks_boost _ desired) in T2.
Qed.

Lemma waits_fields t t' v : ft_pending_weight t' = ft_pending_weight t -> similar (ft_nodes t') (ft_nodes t) ->
  waits t v -> waits t' v.
Proof.
  intros E Hs Hw. apply (waits_reweighed (ft_set_nodes (ft_nodes t) t') t').
  - exists (ft_nodes t'). split; [by destruct t'|done].
  - intros y. cbn. rewrite E. apply Hw.
Qed.

Lemma set_proposer_boost_root_inv t root : tree_inv t ->
  exists t', set_proposer_boost_root t root = Ok t' /\ tree_inv t' /\
    reweighed (ft_set_boost ((fun r => (r, ft_proposer_score t)) <$> root) t) t'.
Proof.
  intros [T Hw Hv Hb S]. destruct (set_boost_spec t root T Hw Hv S) as (t' & E & (n & -> & Hs) & T').
  eexists. split_and!; [done| |by eexists]. split; [done| |done| |done].
  - apply (waits_fields t); [done|exact Hs|done].
  - intros r s Hr. cbn in Hr. destruct root; by simplify_eq/=.
Qed.

(** *** Balances *)

Lemma reweigh_spec t t0 l : forall votes deltas,
  NoDup l.*1 -> (forall i vote, (i, vote) ∈ l -> votes !! i = Some vote) ->
  (forall i vote, votes !! i = Some vote -> 0 <= i /\ ((i, vote) ∈ l \/ av_balance vote = balance_of t i)) ->
  accounts (ft_votes t0) votes deltas ->
  let r := foldl (reweigh t) (votes, deltas) l in
  weighed t r.1 /\ accounts (ft_votes t0) r.1 r.2 /\ av_root <$> r.1 = av_root <$> votes.
Proof.
  induction l as [|[i vote] l IH]; intros votes deltas Hnd Hl Hv Ha.
  { split_and!; [|done..]. intros i vote Hi. destruct (Hv i vote Hi) as [? [?%not_elem_of_nil|?]]; done. }
  cbn in Hnd. apply NoDup_cons in Hnd as [Hn Hnd]. cbn [foldl].
  assert (forall j w, (j, w) ∈ l -> j <> i) as Hne.
  { intros j w Hin ->. apply Hn, list_elem_of_fmap. by exists (i, w). }
  assert (votes !! i = Some vote) as Hi by (apply Hl; set_solver).
  destruct (reweigh t (votes, deltas) (i, vote)) as [votes' deltas'] eqn:Er. unfold reweigh in Er.
  destruct (balance_of t i =? av_balance vote) eqn:Eb in Er; injection Er as <- <-; b2p.
  { apply IH; [done|set_solver| |done].
    intros j w Hj. destruct (Hv j w Hj) as [H0 [[[= -> ->]|?]%elem_of_cons|?]]; auto. }
  set (votes' := <[i := mkAppliedVote (av_root vote) (balance_of t i)]> votes).
  assert (av_root <$> votes' = av_root <$> votes) as <-.
  { unfold votes'. rewrite fmap_insert. apply insert_id. by rewrite lookup_fmap, Hi. }
  apply IH; [done| | |].
  - intros j w Hin. unfold votes'. rewrite lookup_insert_ne by (symmetry; by eapply Hne). apply Hl. set_solver.
  - intros j w Hj. unfold votes' in Hj. destruct (decide (i = j)) as [<-|Hij].
    + rewrite lookup_insert_eq in Hj. injection Hj as <-. split; [by eapply Hv|auto].
    + rewrite lookup_insert_ne in Hj by done. destruct (Hv j w Hj) as [H0 [[[= -> ->]|?]%elem_of_cons|?]]; naive_solver.
  - by apply accounts_reweigh.
Qed.

Lemma set_balances_inv t checkpoint balances score : tree_inv t -> supply_ok balances score ->
  exists t', set_balances t checkpoint balances score = Ok t' /\ tree_inv t' /\
    ft_balances t' = balances /\ ft_balances_checkpoint t' = Some checkpoint /\ ft_proposer_score t' = score /\
    ft_root t' = ft_root t /\ ft_context t' = ft_context t /\ ft_equivocating t' = ft_equivocating t /\
    fst <$> ft_boost t' = fst <$> ft_boost t /\ similar (ft_nodes t') (ft_nodes t) /\
    av_root <$> ft_votes t' = av_root <$> ft_votes t.
Proof.
  intros [T Hw Hv Hb S] S'. unfold set_balances. set (t1 := ft_set_balances balances (Some checkpoint) t).
  destruct (reweigh_spec t1 t (hm_iter (ft_votes t)) (ft_votes t) ∅) as (W & A & Hroots); [apply NoDup_hm_iter| | |apply accounts_refl|].
  { intros i vote. by rewrite elem_of_hm_iter. }
  { intros i vote Hi. split; [by eapply Hv|]. left. by apply elem_of_hm_iter. }
  change (ft_votes t1) with (ft_votes t).
  destruct (foldl (reweigh t1) (ft_votes t, ∅) (hm_iter (ft_votes t))) as [votes deltas]. cbn in W, A, Hroots |- *.
  destruct (revote t1 t votes deltas (ft_proposer_score t)) as (t2 & E2 & M & T2 & W2); try done.
  { destruct T as [F Wt R]. by split. }
  { by eapply supply_weaken. }
  rewrite E2. cbn. destruct M as (n & pending & -> & Hs). cbn in Hs.
  set (t3 := ft_set_proposer_score score _).
  destruct (set_boost_spec t3 (fst <$> ft_boost t)) as (t4 & E4 & (n4 & -> & S4) & T4).
  { destruct T2 as [F Wt R]. by split. }
  { done. }
  { done. }
  { done. }
  cbn in S4. eexists. split; [exact E4|]. split.
  { split; [done| |done| |done].
    - apply (waits_fields t3); [done|exact S4|exact W2].
    - intros r s Hr. cbn in Hr. destruct (ft_boost t) as [[r' s']|]; by simplify_eq/=. }
  split_and!; try done; cbn.
  - by destruct (ft_boost t) as [[? ?]|].
  - by etrans.
Qed.
End operations.
