(* ===== verification/ForkTreeBlocks.v ===== *)
(** * The fork choice tree: insertion and pruning

    Creating the fork choice tree, inserting a block, changing the context and pruning at
    a new finalized block keep its invariant.

    [retain_loop] ends within its bound and keeps the blocks that have the new root among
    their ancestors; [prune] keeps the tree invariant. *)

From stdpp Require Import strings.
From S2P Require Import Prelude Bytes Shuffling BeaconTypes BeaconAccess ForkTree ForkTreeFacts ForkTreeWeights ForkTreeInvariant.

Implicit Types (t : ForkChoiceTree) (nodes : gmap B256 ForkChoiceNode).

(** ** Inserting a block *)

Lemma checkpoint_block_up nodes nodes' s x l : up nodes x l ->
  (forall y n, y ∈ l -> nodes !! y = Some n ->
     exists n', nodes' !! y = Some n' /\ fn_parent n' = fn_parent n /\ fn_slot n' = fn_slot n) ->
  forall fuel fuel', (length l <= fuel)%nat -> (length l <= fuel')%nat ->
  checkpoint_block_loop fuel' nodes' x s = checkpoint_block_loop fuel nodes x s.
Proof.
  induction 1 as [x n Hx Hp|x n p l Hx Hp Hl IH]; intros Hy fuel fuel' Hf Hf';
    destruct fuel as [|fuel], fuel' as [|fuel']; cbn in Hf, Hf'; try lia;
    destruct (Hy x n) as (n' & Hn' & Ep & Es); try done; try set_solver;
    cbn; rewrite Hx, Hn', Ep, Es, Hp; destruct (_ <=? _); try done.
  apply IH; [|lia..]. intros y m Hin. apply Hy. set_solver.
Qed.

(** Evaluating a node across trees of different shapes. *)
Lemma evaluate_across t t' x n :
  ft_context t' = ft_context t ->
  (forall s, checkpoint_block t' x s = checkpoint_block t x s) ->
  Forall (same_child (ft_nodes t') (ft_nodes t)) (fn_children n) -> evaluate t' x n = evaluate t x n.
Proof.
  intros Hc Hcp Hcs. unfold evaluate. destruct (fn_children n) as [|c cs] eqn:Ec.
  - unfold is_leaf_viable. by rewrite Hc, Hcp.
  - pose proof (max_viable_ext _ _ _ Hcs) as Hm.
    destruct (max_by child_leb (viable_children (ft_nodes t') _)) as [[? ?]|],
      (max_by child_leb (viable_children (ft_nodes t) _)) as [[? ?]|]; cbn in Hm; congruence.
Qed.

Section insert.
Context (rt : B256) (nodes : gmap B256 ForkChoiceNode) (F : forest rt nodes).
Context (root p : B256) (parent new : ForkChoiceNode).
Hypothesis Hroot : nodes !! root = None.
Hypothesis Hparent : nodes !! p = Some parent.
Hypothesis Hnew : fn_parent new = Some p /\ fn_children new = [] /\ fn_slot parent < fn_slot new.

Definition grown : gmap B256 ForkChoiceNode :=
  <[root := new]> (<[p := fn_set_children (fn_children parent ++ [root]) parent]> nodes).

Lemma root_ne_parent : root <> p.
Proof using All. congruence. Qed.

Lemma lookup_grown_new : grown !! root = Some new.
Proof. apply lookup_insert_eq. Qed.

Lemma lookup_grown x : x <> root ->
  grown !! x = (fun n => if decide (x = p) then fn_set_children (fn_children parent ++ [root]) parent else n) <$> nodes !! x.
Proof using All.
  intros Hx. unfold grown. rewrite lookup_insert_ne by done. destruct (decide (x = p)) as [->|].
  - by rewrite lookup_insert_eq, Hparent.
  - rewrite lookup_insert_ne by done. by destruct (nodes !! x).
Qed.

(** A node of before, in the tree of now. *)
Lemma grown_old x n : nodes !! x = Some n -> exists m, grown !! x = Some m /\ x <> root /\
  fn_parent m = fn_parent n /\ fn_slot m = fn_slot n /\ fn_weight m = fn_weight n /\ fn_viable m = fn_viable n /\
  fn_best_descendant m = fn_best_descendant n /\ (forall c, c ∈ fn_children m <-> c ∈ fn_children n \/ (x = p /\ c = root)) /\
  (x <> p -> m = n).
Proof using All.
  intros Hx. assert (x <> root) as Hne by congruence. rewrite (lookup_grown x Hne), Hx. cbn.
  destruct (decide (x = p)) as [->|Hp].
  - assert (n = parent) as -> by congruence. eexists. split_and!; try done. intros c. cbn. rewrite elem_of_app. set_solver.
  - eexists. split_and!; try done. set_solver.
Qed.

Lemma grown_cases x m : grown !! x = Some m -> (x = root /\ m = new) \/ exists n, nodes !! x = Some n.
Proof using All.
  destruct (decide (x = root)) as [->|Hne]; [rewrite lookup_grown_new; intros [= <-]; auto|].
  rewrite (lookup_grown x Hne). destruct (nodes !! x) as [n|]; [|done]. intros _. right. by exists n.
Qed.

Lemma up_grown x l : up nodes x l -> up grown x l.
Proof using All.
  induction 1 as [x n Hx Hp|x n q l Hx Hp Hl IH]; destruct (grown_old x n Hx) as (m & Hm & _ & Ep & _).
  - apply (up_root _ x m Hm). congruence.
  - apply (up_step _ x m q l Hm); [congruence|done].
Qed.

Lemma forest_grown : forest rt grown.
Proof using All.
  destruct Hnew as (Np & Nc & Ns). split.
  - destruct (fo_root _ _ F) as (n & Hn & Hp). destruct (grown_old rt n Hn) as (m & Hm & _ & Ep & _).
    exists m. split; congruence.
  - intros x m Hx Hp. destruct (grown_cases x m Hx) as [[-> ->]|[n Hn]]; [congruence|].
    destruct (grown_old x n Hn) as (m' & Hm' & _ & Ep & _). apply (fo_orphan _ _ F x n Hn). congruence.
  - intros x m q Hx Hp. destruct (grown_cases x m Hx) as [[-> ->]|[n Hn]].
    + assert (q = p) as -> by congruence. destruct (grown_old p parent Hparent) as (m' & Hm' & _ & _ & Es & _ & _ & _ & Hc & _).
      exists m'. split_and!; [done|apply Hc; auto|lia].
    + destruct (grown_old x n Hn) as (m' & Hm' & _ & Ep & Es & _). assert (m' = m) as -> by congruence.
      destruct (fo_parent _ _ F x n q Hn) as (k & Hk & Hin & Hlt); [congruence|].
      destruct (grown_old q k Hk) as (k' & Hk' & _ & _ & Es' & _ & _ & _ & Hc & _).
      exists k'. split_and!; [done|apply Hc; auto|lia].
  - intros q m x Hq Hx. destruct (grown_cases q m Hq) as [[-> ->]|[n Hn]].
    { rewrite Nc in Hx. by apply not_elem_of_nil in Hx. }
    destruct (grown_old q n Hn) as (m' & Hm' & _ & _ & _ & _ & _ & _ & Hc & _). assert (m' = m) as -> by congruence.
    destruct (proj1 (Hc x) Hx) as [Hin|[Eq Ex]]; [|rewrite Ex, Eq; exists new; split; [apply lookup_grown_new|done]].
    destruct (fo_child _ _ F q n x Hn Hin) as (k & Hk & Hp). destruct (grown_old x k Hk) as (k' & Hk' & _ & Ep & _).
    exists k'. split; congruence.
  - intros q m Hq. destruct (grown_cases q m Hq) as [[-> ->]|[n Hn]]; [rewrite Nc; constructor|].
    rewrite (lookup_grown q), Hn in Hq by congruence. cbn in Hq. injection Hq as <-. case_decide as Hqp.
    + subst. assert (n = parent) as -> by congruence. cbn. apply NoDup_app. split_and!.
      * by apply (fo_nodup _ _ F p).
      * intros c Hc ->%list_elem_of_singleton. destruct (fo_child _ _ F p parent root Hn Hc) as (k & Hk & _). congruence.
      * apply NoDup_singleton.
    + by apply (fo_nodup _ _ F q).
Qed.

Lemma ancestors_grown x : is_Some (nodes !! x) -> ancestors grown x = ancestors nodes x.
Proof using All.
  intros Hx. apply (ancestors_up rt); [apply forest_grown|]. apply up_grown. by apply (up_ancestors rt).
Qed.

Lemma ancestors_grown_new : ancestors grown root = root :: ancestors nodes p.
Proof using All.
  rewrite (ancestors_parent rt grown root new p forest_grown lookup_grown_new) by apply Hnew.
  f_equal. apply ancestors_grown. by eexists.
Qed.

Lemma msum_grown (f : B256 -> Z) : msum (fun y _ => f y) grown = f root + msum (fun y _ => f y) nodes.
Proof using All.
  unfold grown. rewrite msum_insert by (rewrite lookup_insert_ne by (symmetry; apply root_ne_parent); done).
  rewrite (msum_replace _ _ _ _ _ Hparent). lia.
Qed.

Lemma subtree_weight_grown u x : is_Some (nodes !! x) -> u root = 0 -> subtree_weight grown u x = subtree_weight nodes u x.
Proof using All.
  intros Hx Hu. unfold subtree_weight at 1. rewrite (msum_grown (fun y => if decide (x ∈ ancestors grown y) then u y else 0)), Hu.
  replace (if decide (x ∈ ancestors grown root) then 0 else 0) with 0 by (by case_decide). rewrite Z.add_0_l.
  apply msum_ext. intros y n Hy. by rewrite ancestors_grown by (by eexists).
Qed.

Lemma subtree_weight_grown_new u : u root = 0 -> subtree_weight grown u root = 0.
Proof using All.
  intros Hu. apply msum_zero. intros y m Hy. case_decide as Hin; [|done].
  destruct (grown_cases y m Hy) as [[-> _]|[n Hn]]; [done|]. exfalso.
  rewrite ancestors_grown in Hin by (by eexists). destruct (ancestors_mem _ _ _ _ F Hin) as [[k Hk] _]. congruence.
Qed.
End insert.
Section blocks.
Context {HO : HashOrder} {HOL : HashOrderLaws HO}.

(** ** The context *)

(** A change of the records of viability and best descendants alone. *)
Lemma refreshed_inv t t' : refreshed t t' -> (forall y, fresh_node t' y) ->
  forest (ft_root t) (ft_nodes t) ->
  (forall x n, ft_nodes t !! x = Some n -> fn_weight n = subtree_weight (ft_nodes t) (own_weight t) x) ->
  waits t (vote_weight (ft_votes t)) -> weighed t (ft_votes t) ->
  (forall r s, ft_boost t = Some (r, s) -> s = ft_proposer_score t) ->
  supply_ok (ft_balances t) (ft_proposer_score t) -> tree_inv t'.
Proof.
  intros R Hf F W Hw Hv Hb S. pose proof (refreshed_similar _ _ R) as Hs.
  assert (forall x n, ft_nodes t' !! x = Some n -> fn_weight n = subtree_weight (ft_nodes t') (own_weight t) x) as W'
    by (by apply (refreshed_weights t t')).
  pose proof (refreshed_forest _ _ R F) as F'. destruct R as (n & -> & _). split; [by split| |done|done|done].
  by apply (waits_fields t).
Qed.

Lemma update_context_inv t context : tree_inv t ->
  exists t', update_context t context = Ok t' /\ tree_inv t' /\ refreshed (ft_set_context context t) t'.
Proof.
  intros I. unfold update_context. case_bool_decide as Hc.
  { exists t. split_and!; [done|done|]. exists (ft_nodes t). rewrite Hc. by destruct t. }
  destruct I as [[F W Hf] Hw Hv Hb S].
  destruct (recompute_all_spec (ft_set_context context t) F) as (t' & E & R & Hf').
  exists t'. split_and!; [done| |done]. by apply (refreshed_inv (ft_set_context context t)).
Qed.

(** ** A new tree *)

Lemma forest_singleton root n : fn_parent n = None -> fn_children n = [] -> forest root {[ root := n ]}.
Proof.
  intros Hp Hc. split.
  - exists n. by rewrite lookup_singleton_eq.
  - by intros x m [<- <-]%lookup_singleton_Some _.
  - intros x m p [<- <-]%lookup_singleton_Some Hpar. congruence.
  - intros p m x [<- <-]%lookup_singleton_Some Hx. rewrite Hc in Hx. by apply not_elem_of_nil in Hx.
  - intros p m [<- <-]%lookup_singleton_Some. rewrite Hc. constructor.
Qed.

Lemma tree_new_inv anchor context :
  exists t, tree_new anchor context = Ok t /\ tree_inv t /\ ft_root t = fb_root anchor /\ ft_context t = context /\
    ft_votes t = ∅ /\ ft_equivocating t = ∅ /\ ft_boost t = None /\ ft_balances_checkpoint t = None /\
    similar (ft_nodes t) {[ fb_root anchor := new_node None anchor ]}.
Proof.
  unfold tree_new. set (t0 := mkForkChoiceTree _ _ _ _ _ _ _ _ _ _).
  assert (forest (ft_root t0) (ft_nodes t0)) as F by (by apply forest_singleton).
  destruct (update_node_spec t0 (fb_root anchor) F) as (t & E & R & Hf & _).
  exists t. split; [done|]. pose proof (refreshed_similar _ _ R) as Hs. split.
  - apply (refreshed_inv t0); try done.
    + intros y n Hn. destruct (similar_lookup _ _ _ _ Hs Hn) as (m & Hm & _). cbn in Hm.
      apply lookup_singleton_Some in Hm as [<- _]. by apply Hf.
    + intros x n Hx. cbn in Hx. apply lookup_singleton_Some in Hx as [<- <-]. cbn. symmetry. apply msum_zero.
      intros y m _. by case_decide.
    + intros y. cbn. rewrite lookup_empty. by repeat case_decide.
  - destruct R as (n & -> & _). done.
Qed.


(** ** Inserting, continued *)

(** Every field but the nodes and the waiting weights is kept. *)
Definition keeps t t' : Prop :=
  ft_root t' = ft_root t /\ ft_context t' = ft_context t /\ ft_balances t' = ft_balances t /\
  ft_balances_checkpoint t' = ft_balances_checkpoint t /\ ft_proposer_score t' = ft_proposer_score t /\
  ft_votes t' = ft_votes t /\ ft_equivocating t' = ft_equivocating t /\ ft_boost t' = ft_boost t.

Lemma own_weight_bounds t nodes : weighed t (ft_votes t) -> supply_ok (ft_balances t) (ft_proposer_score t) ->
  (forall r s, ft_boost t = Some (r, s) -> s = ft_proposer_score t) ->
  (forall y, 0 <= own_weight t y) /\ total nodes (own_weight t) < 2 ^ 62.
Proof.
  intros Hv S Hb. pose proof (weighed_positive _ _ _ S Hv) as Hp.
  assert (0 <= ft_proposer_score t) as Hsc by apply S. split.
  - intros y. unfold own_weight. pose proof (proj1 (vote_weight_bounds (ft_votes t) y Hp)).
    assert (0 <= boost_weight (ft_boost t) y) by (apply boost_weight_nonneg; intros r s ->%Hb; done). lia.
  - unfold own_weight. rewrite total_plus. pose proof (vote_weight_total nodes _ Hp). pose proof (weighed_total _ _ _ S Hv).
    assert (total nodes (boost_weight (ft_boost t)) <= ft_proposer_score t).
    { apply boost_total; [done|]. intros r s ->%Hb. lia. }
    destruct S as (_ & _ & S). lia.
Qed.

(** The nodes after the insertion are fresh, before the votes that waited are added. *)
Lemma insert_fresh t block parent :
  let root := fb_root block in let p := fb_parent_root block in
  let new := new_node (Some p) block in
  let nodes := grown (ft_nodes t) root p parent new in
  tree_inv t -> ft_nodes t !! root = None -> ft_nodes t !! p = Some parent -> fn_slot parent < fb_slot block ->
  exists t1, (t1 ← update_node (ft_set_nodes nodes t) root; update_ancestors t1 p) = Ok t1 /\
    refreshed (ft_set_nodes nodes t) t1 /\ tracks t1 (plus_at (own_weight t) root (- own_weight t root)).
Proof.
  intros root p new nodes [[F W Hf] Hw Hv Hb S] Hroot Hp Hslot.
  assert (fn_parent new = Some p /\ fn_children new = [] /\ fn_slot parent < fn_slot new) as Hnew by done.
  pose proof (forest_grown _ _ F root p parent new Hroot Hp Hnew) as F1.
  pose proof (up_grown _ _ F root p parent new Hroot Hp Hnew) as Gup.
  pose proof (grown_old _ _ F root p parent new Hroot Hp Hnew) as Gold.
  pose proof (grown_cases _ _ F root p parent new Hroot Hp Hnew) as Gcases.
  fold nodes in F1, Gup, Gold, Gcases.
  set (t0 := ft_set_nodes nodes t).
  assert (up nodes root (root :: ancestors (ft_nodes t) p)) as Hup.
  { eapply up_step; [apply lookup_grown_new|done|]. apply Gup. by apply (up_ancestors (ft_root t)); [|eexists]. }
  destruct (update_chain root (root :: ancestors (ft_nodes t) p) t0 Hup F1) as (t1 & E1 & R1 & H1).
  { intros y Hy m Hm. cbn in Hm. assert (y <> root) as Hyr by set_solver.
    assert (y <> p) as Hyp.
    { intros ->. apply Hy. right. by apply (ancestors_self (ft_root t)); [|eexists]. }
    destruct (Gcases y m Hm) as [[-> _]|[n Hn]]; [done|].
    destruct (Gold y n Hn) as (m' & Hm' & _ & _ & _ & _ & _ & _ & _ & Em).
    assert (m = n) as -> by (rewrite <-(Em Hyp); congruence). rewrite <-(Hf y n Hn). apply evaluate_across; [done| |].
    - intros s. unfold checkpoint_block, walk_bound. cbn.
      assert (up (ft_nodes t) y (ancestors (ft_nodes t) y)) as Hy' by (by apply (up_ancestors (ft_root t)); [|eexists]).
      eapply checkpoint_block_up; [exact Hy'| |by apply (up_bound F y)|].
      + intros z k _ Hk. destruct (Gold z k Hk) as (k' & Hk' & _ & Ep & Es & _). eauto.
      + apply (up_bound F1 y). by apply Gup.
    - apply Forall_forall. intros c Hc. destruct (fo_child _ _ F y n c Hn Hc) as (k & Hk & _).
      destruct (Gold c k Hk) as (k' & Hk' & _ & _ & _ & E1 & E2 & E3 & _).
      unfold same_child. cbn. by rewrite Hk', Hk. }
  exists t1. split_and!; [|done|].
  - cbn in E1. apply bind_Ok in E1 as (t2 & E2 & E3). rewrite E2. cbn.
    destruct (update_node_spec t0 root F1) as (t2' & E2' & R2 & _). assert (t2' = t2) as -> by congruence.
    rewrite <-E3. unfold update_ancestors, walk_bound.
    assert (up (ft_nodes t2) p (ancestors (ft_nodes t) p)) as Hup2.
    { apply (up_similar nodes); [symmetry; by apply (refreshed_similar t0)|]. apply Gup.
      by apply (up_ancestors (ft_root t)); [|eexists]. }
    pose proof (refreshed_forest _ _ R2 F1) as F2.
    apply update_ancestors_loop_chain; [done|done|by apply (up_bound F2 p)].
  - split; [by eapply refreshed_forest| |done]. apply (refreshed_weights t0); [done|done|].
    assert (plus_at (own_weight t) root (- own_weight t root) root = 0) as Hzero by (rewrite plus_at_eq; lia).
    intros x m Hx. cbn in Hx |- *. destruct (Gcases x m Hx) as [[-> ->]|[n Hn]].
    + symmetry. by apply (subtree_weight_grown_new _ _ F).
    + destruct (Gold x n Hn) as (m' & Hm' & _ & _ & _ & Ew & _).
      assert (m' = m) as -> by congruence.
      rewrite (subtree_weight_grown _ _ F root p parent new Hroot Hp Hnew), Ew, (W x n Hn) by (done || by eexists).
      apply subtree_weight_ext. intros y Hy. rewrite plus_at_ne; [done|]. intros ->. destruct Hy as [? ?]. congruence.
Qed.

Lemma waits_outside t v y : waits t v -> ft_nodes t !! y = None -> default 0 (ft_pending_weight t !! y) = v y.
Proof. intros Hw Hy. rewrite (Hw y), Hy, decide_False by (by intros [? ?]). case_decide; cbn; lia. Qed.

(** The block is outside the tree, its parent in it, and its slot is later. *)
Definition extends t (block : ForkChoiceBlock) : Prop :=
  ft_nodes t !! fb_root block = None /\
  exists parent, ft_nodes t !! fb_parent_root block = Some parent /\ fn_slot parent < fb_slot block.

Lemma tree_insert_inv t block parent : tree_inv t ->
  ft_nodes t !! fb_root block = None -> ft_nodes t !! fb_parent_root block = Some parent ->
  fn_slot parent < fb_slot block -> fst <$> ft_boost t <> Some (fb_root block) ->
  exists t', tree_insert t block = Ok t' /\ tree_inv t' /\ keeps t t' /\
    similar (ft_nodes t') (grown (ft_nodes t) (fb_root block) (fb_parent_root block) parent
                             (new_node (Some (fb_parent_root block)) block)).
Proof.
  intros I Hroot Hp Hslot Hboost. destruct (insert_fresh t block parent I Hroot Hp Hslot) as (t1 & E1 & R1 & T1).
  set (nodes := grown _ _ _ _ _) in *. set (root := fb_root block) in *. destruct I as [T Hw Hv Hb S].
  apply bind_Ok in E1 as (t0 & E0 & E1). pose proof (refreshed_similar _ _ R1) as Hs.
  destruct R1 as (n1 & -> & _). cbn in Hs. unfold tree_insert, contains. fold root. rewrite Hroot, Hp. cbn.
  rewrite (proj2 (Z.ltb_lt _ _) Hslot). cbn [ensure]. unfold nodes, grown in E0. fold root in E0. cbn.
  rewrite E0. cbn. rewrite E1. cbn.
  rewrite (waits_outside t _ root Hw Hroot).
  destruct (own_weight_bounds t nodes Hv S Hb) as [Hpos Htot].
  assert (own_weight t root = vote_weight (ft_votes t) root) as Eroot.
  { unfold own_weight, boost_weight. destruct (ft_boost t) as [[r s]|]; [|lia]. rewrite decide_False; [lia|].
    intros ->. by apply Hboost. }
  set (t2 := ft_set_pending_weight (delete root (ft_pending_weight t)) (ft_set_nodes n1 (ft_set_nodes nodes t))).
  assert (tracks t2 (plus_at (own_weight t) root (- own_weight t root))) as T2 by (destruct T1; by split).
  assert (forall nodes', similar nodes' n1 -> waits (ft_set_nodes nodes' t2) (vote_weight (ft_votes t))) as Hw2.
  { intros nodes' Hs' y. cbn. assert (similar nodes' nodes) as Hsn by (by etrans).
    pose proof (similar_is_Some _ _ y Hsn) as Hi. destruct (decide (y = root)) as [->|Hne].
    - rewrite lookup_delete_eq, decide_True; [done|]. apply Hi. unfold nodes. rewrite lookup_grown_new. by eexists.
    - rewrite lookup_delete_ne, (Hw y) by done. unfold nodes in Hi.
      assert (is_Some (grown (ft_nodes t) root (fb_parent_root block) parent (new_node (Some (fb_parent_root block)) block) !! y)
        <-> is_Some (ft_nodes t !! y)) as Hg.
      { unfold grown. rewrite lookup_insert_ne by done. destruct (decide (fb_parent_root block = y)) as [<-|].
        - rewrite lookup_insert_eq, Hp. split; by eexists.
        - by rewrite lookup_insert_ne. }
      destruct (decide (is_Some (ft_nodes t !! y))).
      + by rewrite decide_True by tauto.
      + by rewrite (decide_False (P := is_Some _)) by tauto. }
  assert (forall nodes', similar nodes' n1 -> tracks (ft_set_nodes nodes' t2) (own_weight t) -> tree_inv (ft_set_nodes nodes' t2)) as Hinv.
  { intros nodes' Hs' T'. by split; [|apply Hw2|..]. }
  destruct (0 <? vote_weight (ft_votes t) root) eqn:Hc; b2p.
  - assert (forall y, plus_at (plus_at (own_weight t) root (- own_weight t root)) root (vote_weight (ft_votes t) root) y = own_weight t y) as Hback.
    { intros y. unfold plus_at. case_decide; subst; lia. }
    destruct (apply_weight_delta_spec t2 _ root (vote_weight (ft_votes t) root) T2) as (t3 & E3 & (n3 & -> & S3) & T3).
    + intros y _. by rewrite Hback.
    + cbn. rewrite (total_similar _ _ _ Hs). eapply Z.le_lt_trans; [apply total_le; intros y _; by rewrite Hback|]. lia.
    + exists (ft_set_nodes n3 t2). cbn in S3. split_and!; [done| |done|by etrans].
      apply Hinv; [done|]. eapply tracks_ext; [|exact T3]. intros y _. apply Hback.
  - exists t2. assert (t2 = ft_set_nodes n1 t2) as E by done. split_and!; [done| |done|done].
    rewrite E. apply Hinv; [done|]. rewrite <-E. eapply tracks_ext; [|exact T2]. intros y _.
    unfold plus_at. case_decide; [subst|done]. specialize (Hpos root). lia.
Qed.
End blocks.

Implicit Types (u v : B256 -> Z).

(** ** What is kept *)

Section kept.
Context (rt : B256) (nodes : gmap B256 ForkChoiceNode) (F : forest rt nodes) (r : B256).

Definition kept_nodes : gmap B256 ForkChoiceNode :=
  filter (fun xn : B256 * ForkChoiceNode => r ∈ ancestors nodes xn.1) nodes.

Lemma lookup_kept x n : kept_nodes !! x = Some n <-> nodes !! x = Some n /\ r ∈ ancestors nodes x.
Proof. unfold kept_nodes. by rewrite map_lookup_filter_Some. Qed.

Definition branches (m : gmap B256 ForkChoiceNode) : nat :=
  sum_list_with (fun rn : B256 * ForkChoiceNode => length (fn_children rn.2)) (map_to_list m).

Lemma branches_delete m x n : m !! x = Some n -> branches m = (length (fn_children n) + branches (delete x m))%nat.
Proof.
  intros Hx. unfold branches. rewrite <-(insert_delete_id m x n Hx) at 1.
  rewrite map_to_list_insert by apply lookup_delete_eq. done.
Qed.

(** What the worklist has seen, and what it has still to see. *)
Record retains (pending : list B256) (rest ret : gmap B256 ForkChoiceNode) : Prop := mkRetains {
  rt_ret : forall x n, ret !! x = Some n -> kept_nodes !! x = Some n;
  rt_rest : forall x, rest !! x = if decide (is_Some (ret !! x)) then None else nodes !! x;
  rt_pending : forall x, x ∈ pending -> is_Some (kept_nodes !! x);
  rt_closed : forall x n c, ret !! x = Some n -> c ∈ fn_children n -> is_Some (ret !! c) \/ c ∈ pending;
  rt_start : is_Some (ret !! r) \/ r ∈ pending;
}.

Lemma kept_child x n c : kept_nodes !! x = Some n -> c ∈ fn_children n -> is_Some (kept_nodes !! c).
Proof using F.
  intros [Hx Hr]%lookup_kept Hc. destruct (fo_child _ _ F x n c Hx Hc) as (m & Hm & Hp).
  exists m. apply lookup_kept. split; [done|]. rewrite (ancestors_parent rt nodes c m x) by done. set_solver.
Qed.

Lemma retains_kept rest ret : is_Some (nodes !! r) -> retains [] rest ret -> ret = kept_nodes.
Proof using F.
  intros Hr [H1 _ _ H4 H5]. apply map_eq. intros x. destruct (kept_nodes !! x) as [n|] eqn:Hk.
  2: { destruct (ret !! x) eqn:E; [|done]. apply H1 in E. congruence. }
  enough (is_Some (ret !! x)) as [m Hm] by (pose proof (H1 x m Hm); congruence).
  apply lookup_kept in Hk as [Hx Hin]. assert (up nodes x (ancestors nodes x)) as Hup by (eapply up_ancestors; [done|by eexists]).
  revert n Hx Hin. induction Hup as [x m Hm Hp|x m p l Hm Hp Hl IH]; intros n Hx Hin.
  - apply list_elem_of_singleton in Hin as <-. by destruct H5 as [?|?%not_elem_of_nil].
  - apply elem_of_cons in Hin as [->|Hin]; [by destruct H5 as [?|?%not_elem_of_nil]|].
    destruct (fo_parent _ _ F x m p Hm Hp) as (k & Hk & Hc & _). destruct (IH k Hk Hin) as [k' Hk'].
    assert (k' = k) as -> by (apply H1, lookup_kept in Hk' as [? _]; congruence).
    by destruct (H4 p k x Hk' Hc) as [?|?%not_elem_of_nil].
Qed.

Lemma retain_loop_kept : is_Some (nodes !! r) ->
  forall fuel pending rest ret, retains pending rest ret -> (length pending + branches rest <= fuel)%nat ->
  retain_loop fuel pending rest ret = Ok kept_nodes.
Proof using F.
  intros Hr. induction fuel as [|fuel IH]; intros pending rest ret R Hf.
  { destruct pending; cbn in Hf; [|lia]. cbn. by rewrite (retains_kept rest ret). }
  destruct pending as [|x pending]; cbn; [by rewrite (retains_kept rest ret)|]. cbn in Hf.
  destruct R as [H1 H2 H3 H4 H5]. pose proof (H2 x) as Hx. destruct (rest !! x) as [n|] eqn:Er.
  - case_decide as Hret; [done|]. assert (kept_nodes !! x = Some n) as Hk.
    { destruct (H3 x) as [m Hm]; [set_solver|]. apply lookup_kept in Hm as Hm'. destruct Hm'. congruence. }
    apply IH.
    + split.
      * intros y m. destruct (decide (x = y)) as [<-|]; [by rewrite lookup_insert_eq; intros [= <-]|].
        rewrite lookup_insert_ne by done. apply H1.
      * intros y. destruct (decide (x = y)) as [<-|].
        -- rewrite lookup_delete_eq, lookup_insert_eq, decide_True; [done|by eexists].
        -- rewrite lookup_delete_ne, lookup_insert_ne by done. apply H2.
      * intros y [Hy|Hy]%elem_of_app; [|apply H3; set_solver]. rewrite elem_of_reverse in Hy. by eapply kept_child.
      * intros y m c Hy Hc. destruct (decide (x = c)) as [<-|]; [left; rewrite lookup_insert_eq; by eexists|].
        rewrite (lookup_insert_ne _ x c) by done. destruct (decide (x = y)) as [<-|].
        -- rewrite lookup_insert_eq in Hy. injection Hy as <-. right. apply elem_of_app. left. by rewrite elem_of_reverse.
        -- rewrite lookup_insert_ne in Hy by done. destruct (H4 y m c Hy Hc) as [?|?]; [auto|right; set_solver].
      * destruct (decide (x = r)) as [->|]; [left; rewrite lookup_insert_eq; by eexists|].
        rewrite lookup_insert_ne by done. destruct H5; [auto|right; set_solver].
    + rewrite (branches_delete rest x n Er) in Hf. rewrite length_app, length_reverse. lia.
  - case_decide as Hret.
    2: { destruct (H3 x) as [m [Hm _]%lookup_kept]; [set_solver|congruence]. }
    apply IH; [|lia]. split; [done|done| | |].
    + intros y Hy. apply H3. set_solver.
    + intros y m c Hy Hc. destruct (H4 y m c Hy Hc) as [?|[->|?]%elem_of_cons]; auto.
    + destruct H5 as [?|[->|?]%elem_of_cons]; auto.
Qed.

Lemma retain_returns : is_Some (nodes !! r) -> retain_loop (retain_bound nodes) [r] nodes ∅ = Ok kept_nodes.
Proof using F.
  intros Hr. apply retain_loop_kept; [done| |unfold retain_bound, branches; cbn; lia]. split.
  - intros x n. by rewrite lookup_empty.
  - intros x. by rewrite lookup_empty, decide_False by (by intros [? ?]).
  - intros x ->%list_elem_of_singleton. destruct Hr as [n Hn]. exists n. apply lookup_kept. split; [done|].
    eapply ancestors_self; [done|by eexists].
  - intros x n c. by rewrite lookup_empty.
  - right. set_solver.
Qed.

(** ** The tree that is left *)

Definition pruned : gmap B256 ForkChoiceNode := alter (fn_set_parent None) r kept_nodes.

Lemma lookup_pruned_eq : pruned !! r = fn_set_parent None <$> kept_nodes !! r.
Proof. unfold pruned. apply lookup_alter_eq. Qed.
Lemma lookup_pruned_ne x : r <> x -> pruned !! x = kept_nodes !! x.
Proof. unfold pruned. apply lookup_alter_ne. Qed.
Lemma pruned_lookup x n' : pruned !! x = Some n' ->
  exists n, kept_nodes !! x = Some n /\ fn_slot n' = fn_slot n /\ fn_children n' = fn_children n /\
    fn_weight n' = fn_weight n /\ (fn_parent n' = if decide (x = r) then None else fn_parent n).
Proof.
  destruct (decide (r = x)) as [<-|Hne].
  - rewrite lookup_pruned_eq. intros (n & Hn & ->)%fmap_Some. exists n. by rewrite decide_True.
  - rewrite lookup_pruned_ne by done. intros Hn. exists n'. by rewrite decide_False.
Qed.
Lemma kept_pruned x n : kept_nodes !! x = Some n ->
  exists n', pruned !! x = Some n' /\ fn_slot n' = fn_slot n /\ fn_children n' = fn_children n /\
    fn_weight n' = fn_weight n /\ (fn_parent n' = if decide (x = r) then None else fn_parent n).
Proof.
  intros Hn. destruct (decide (r = x)) as [<-|Hne].
  - rewrite lookup_pruned_eq, Hn. eexists. split; [done|]. by rewrite decide_True.
  - rewrite lookup_pruned_ne by done. exists n. by rewrite decide_False.
Qed.
Lemma pruned_is_Some x : is_Some (pruned !! x) <-> is_Some (nodes !! x) /\ r ∈ ancestors nodes x.
Proof.
  split.
  - intros [n' (n & [Hn Hr]%lookup_kept & _)%pruned_lookup]. split; [by eexists|done].
  - intros [[n Hn] Hr]. destruct (kept_pruned x n) as (n' & Hn' & _); [by apply lookup_kept|by eexists].
Qed.

Lemma pruned_forest : is_Some (nodes !! r) -> forest r pruned.
Proof using F.
  intros [n Hn]. assert (r ∈ ancestors nodes r) as Hself by (eapply ancestors_self; [done|by eexists]). split.
  - destruct (kept_pruned r n) as (n' & Hn' & _ & _ & _ & Hp); [by apply lookup_kept|].
    exists n'. split; [done|]. by rewrite decide_True in Hp.
  - intros x n' (m & [Hm Hr]%lookup_kept & _ & _ & _ & Hp)%pruned_lookup Hnone. case_decide; [done|].
    rewrite Hnone in Hp. rewrite (ancestors_up rt nodes x [x]) in Hr; [|done|by eapply up_root].
    by apply list_elem_of_singleton in Hr.
  - intros x n' p (m & [Hm Hr]%lookup_kept & Es & _ & _ & Hp)%pruned_lookup Hpar. case_decide as Hx; [congruence|].
    rewrite Hpar in Hp. destruct (fo_parent _ _ F x m p Hm (eq_sym Hp)) as (k & Hk & Hc & Hlt).
    rewrite (ancestors_parent rt nodes x m p) in Hr by done. apply elem_of_cons in Hr as [?|Hr]; [congruence|].
    destruct (kept_pruned p k) as (k' & Hk' & Es' & Ec & _); [by apply lookup_kept|]. exists k'.
    rewrite Ec, Es, Es'. done.
  - intros p n' x (m & Hk & _ & Ec & _)%pruned_lookup Hx. rewrite Ec in Hx.
    apply lookup_kept in Hk as [Hm Hr]. destruct (fo_child _ _ F p m x Hm Hx) as (k & Hk & Hp).
    destruct (kept_pruned x k) as (k' & Hk' & _ & _ & _ & Hp').
    { apply lookup_kept. split; [done|]. rewrite (ancestors_parent rt nodes x k p) by done. set_solver. }
    exists k'. split; [done|]. rewrite Hp', decide_False; [done|]. intros ->.
    apply (NoDup_cons_1_1 r (ancestors nodes p)); [|done].
    rewrite <-(ancestors_parent rt nodes r k p) by done. eapply up_nodup; [done|]. eapply up_ancestors; [done|by eexists].
  - intros p n' (m & [Hm _]%lookup_kept & _ & -> & _)%pruned_lookup. by eapply fo_nodup.
Qed.

Lemma pruned_up x l : up nodes x l -> r ∈ l ->
  exists l', up pruned x l' /\ forall a, a ∈ l' <-> a ∈ l /\ r ∈ ancestors nodes a.
Proof using F.
  induction 1 as [x n Hx Hp|x n p l Hx Hp Hl IH]; intros Hr.
  - apply list_elem_of_singleton in Hr as <-.
    assert (r ∈ ancestors nodes r) as Hself by (eapply ancestors_self; [done|by eexists]).
    destruct (kept_pruned r n) as (n' & Hn' & _ & _ & _ & Hp'); [by apply lookup_kept|].
    exists [r]. split; [eapply up_root; [done|by rewrite decide_True in Hp']|]. set_solver.
  - pose proof (up_step _ _ _ _ _ Hx Hp Hl) as Hup. pose proof (ancestors_up rt nodes x _ F Hup) as Ea.
    assert (r ∈ ancestors nodes x) as Hrx by (by rewrite Ea).
    destruct (kept_pruned x n) as (n' & Hn' & _ & _ & _ & Hp'); [by apply lookup_kept|].
    case_decide as Hxr; [subst x|].
    + exists [r]. split; [by eapply up_root|]. intros a. rewrite list_elem_of_singleton. split.
      * intros ->. split; [set_solver|done].
      * intros [[->|Ha]%elem_of_cons Hra]; [done|]. pose proof (up_nodup F _ _ Hup) as Hnd.
        apply NoDup_cons in Hnd as [Hnot _]. destruct Hnot. pose proof (ancestors_up rt nodes p l F Hl) as El.
        rewrite <-El. eapply ancestors_trans; [done|exact Hra|by rewrite El].
    + apply elem_of_cons in Hr as [?|Hr]; [congruence|]. destruct (IH Hr) as (l' & Hl' & Hmem).
      exists (x :: l'). split; [eapply up_step; [done|by rewrite Hp'|done]|]. intros a. rewrite !elem_of_cons, Hmem.
      naive_solver.
Qed.

Lemma pruned_ancestors a x : is_Some (pruned !! a) -> is_Some (nodes !! r) -> r ∈ ancestors nodes x ->
  a ∈ ancestors pruned x <-> a ∈ ancestors nodes x.
Proof using F.
  intros [_ Hra]%pruned_is_Some Hr Hx. destruct (ancestors_mem _ _ _ _ F Hx) as [_ Hs].
  destruct (pruned_up x _ (up_ancestors _ _ _ F Hs) Hx) as (l' & Hl' & Hmem).
  rewrite (ancestors_up r pruned x l' (pruned_forest Hr) Hl'), Hmem. tauto.
Qed.

Lemma pruned_weight u a : is_Some (pruned !! a) -> is_Some (nodes !! r) ->
  subtree_weight pruned u a = subtree_weight nodes u a.
Proof using F.
  intros Ha Hr. unfold subtree_weight.
  rewrite (msum_dom (fun y => if decide (a ∈ ancestors pruned y) then u y else 0) pruned kept_nodes).
  2: { intros x. rewrite pruned_is_Some. split.
       - intros [[n Hn] ?]. exists n. by apply lookup_kept.
       - intros [n [? ?]%lookup_kept]. split; [by eexists|done]. }
  unfold kept_nodes. rewrite msum_filter. apply msum_ext. intros y n Hy. cbn. apply pruned_is_Some in Ha as Ha'.
  case_decide as Hk.
  - pose proof (pruned_ancestors a y Ha Hr Hk). by repeat case_decide; try tauto.
  - rewrite decide_False; [done|]. intros Hay. apply Hk. eapply ancestors_trans; [done|apply Ha'|done].
Qed.
End kept.

(** ** The weights that wait *)

Definition waiting_for (l : list (Z * AppliedVote)) (y : B256) : Z :=
  sumZ ((fun iv : Z * AppliedVote => if decide (av_root iv.2 = y) then av_balance iv.2 else 0) <$> l).

Lemma waiting_for_snoc l iv y :
  waiting_for (l ++ [iv]) y = waiting_for l y + (if decide (av_root iv.2 = y) then av_balance iv.2 else 0).
Proof. unfold waiting_for. rewrite fmap_app, sumZ_app. cbn. lia. Qed.

Lemma waiting_for_votes l votes y : l ≡ₚ map_to_list votes -> waiting_for l y = vote_weight votes y.
Proof.
  revert l. induction votes as [|i vote votes Hi IH] using map_ind; intros l Hl.
  - rewrite map_to_list_empty in Hl. apply Permutation_nil_r in Hl as ->. done.
  - unfold vote_weight. rewrite msum_insert by done. rewrite map_to_list_insert in Hl by done.
    fold (vote_weight votes y). rewrite <-(IH _ (reflexivity _)). unfold waiting_for.
    rewrite (sumZ_perm _ _ (fmap_Permutation _ _ _ Hl)). done.
Qed.

Lemma rebuild_pending_spec t l :
  (forall iv, iv ∈ l -> 0 <= av_balance iv.2) -> (forall y, waiting_for l y < 2 ^ 64) ->
  forall y,
  foldl (fun (pending : gmap B256 Z) (iv : Z * AppliedVote) =>
       let vote := iv.2 in
       if (0 <? av_balance vote) && negb (contains t (av_root vote))
       then <[av_root vote := (default 0 (pending !! av_root vote) + av_balance vote)%u64]> pending
       else pending) ∅ l !! y =
  if decide (is_Some (ft_nodes t !! y)) then None
  else if decide (waiting_for l y = 0) then None else Some (waiting_for l y).
Proof.
  induction l as [|iv l IH] using rev_ind; intros Hpos Hlt y.
  { cbn. rewrite lookup_empty. by repeat case_decide. }
  assert (0 <= av_balance iv.2) as Hiv by (apply Hpos; set_solver).
  assert (forall y, 0 <= waiting_for l y) as Hnn.
  { intros z. apply sumZ_nonneg, Forall_fmap, Forall_forall. intros iv' Hin. cbn. case_decide; [apply Hpos; set_solver|done]. }
  assert (forall y, waiting_for l y < 2 ^ 64) as Hlt'.
  { intros z. specialize (Hlt z). rewrite waiting_for_snoc in Hlt. case_decide; lia. }
  specialize (IH (fun iv' Hin => Hpos iv' (proj2 (elem_of_app _ _ _) (or_introl Hin))) Hlt').
  rewrite foldl_app. cbn. set (pending := foldl _ _ _) in *. specialize (Hlt y) as Hy. rewrite waiting_for_snoc in Hy.
  rewrite waiting_for_snoc. destruct (0 <? av_balance iv.2) eqn:Hc; b2p; cbn.
  2: { rewrite IH. replace (if decide (av_root iv.2 = y) then av_balance iv.2 else 0) with 0 by (case_decide; lia).
       by rewrite Z.add_0_r. }
  unfold contains. destruct (ft_nodes t !! av_root iv.2) eqn:Hr; cbn.
  - rewrite IH. destruct (decide (is_Some (ft_nodes t !! y))); [done|]. rewrite (decide_False (P := av_root iv.2 = y)), Z.add_0_r; [done|].
    intros <-. rewrite Hr in *. eauto.
  - destruct (decide (av_root iv.2 = y)) as [<-|Hne].
    + assert (~ is_Some (ft_nodes t !! av_root iv.2)) as Hout by (rewrite Hr; by intros [? ?]).
      specialize (Hnn (av_root iv.2)).
      rewrite lookup_insert_eq, (decide_False (P := is_Some _)), decide_False by (done || lia).
      rewrite IH, decide_False by done. f_equal.
      case_decide as Hz; cbn; [rewrite Hz|]; apply wrap64_id; unfold is_u64, u64_max; lia.
    + rewrite lookup_insert_ne, IH, Z.add_0_r by done. done.
Qed.

(** ** Pruning *)

Section prune.
Context {HO : HashOrder} {HOL : HashOrderLaws HO}.

Definition drop_boost t : ForkChoiceTree :=
  match ft_boost t with
  | Some (root, _) => if contains t root then t else ft_set_boost None t
  | None => t
  end.

Lemma drop_boost_fields t : ft_nodes (drop_boost t) = ft_nodes t /\ ft_root (drop_boost t) = ft_root t /\
  ft_votes (drop_boost t) = ft_votes t /\ ft_context (drop_boost t) = ft_context t /\
  ft_pending_weight (drop_boost t) = ft_pending_weight t /\ ft_balances (drop_boost t) = ft_balances t /\
  ft_balances_checkpoint (drop_boost t) = ft_balances_checkpoint t /\
  ft_proposer_score (drop_boost t) = ft_proposer_score t /\ ft_equivocating (drop_boost t) = ft_equivocating t.
Proof. unfold drop_boost. destruct (ft_boost t) as [[r s]|]; [destruct (contains t r)|]; done. Qed.

Lemma drop_boost_own t y : is_Some (ft_nodes t !! y) -> own_weight (drop_boost t) y = own_weight t y.
Proof.
  intros Hy. unfold drop_boost, own_weight, boost_weight. destruct (ft_boost t) as [[r s]|] eqn:E; [|by rewrite E].
  unfold contains. destruct (ft_nodes t !! r) eqn:Hr; cbn; [by rewrite E|].
  rewrite decide_False; [done|]. intros ->. rewrite Hr in Hy. by destruct Hy.
Qed.

Lemma drop_boost_score t r s : ft_boost (drop_boost t) = Some (r, s) -> ft_boost t = Some (r, s) /\ is_Some (ft_nodes t !! r).
Proof.
  unfold drop_boost. destruct (ft_boost t) as [[r' s']|] eqn:E; [|congruence]. unfold contains.
  destruct (ft_nodes t !! r') eqn:Hr; cbn; [|done]. rewrite E. intros [= <- <-]. rewrite Hr. split; [done|by eexists].
Qed.

Lemma prune_eq t r : forest (ft_root t) (ft_nodes t) -> is_Some (ft_nodes t !! r) -> r <> ft_root t ->
  prune t r =
  recompute_all (drop_boost (rebuild_pending_weight (ft_set_root r (ft_set_nodes (pruned (ft_nodes t) r) t)))).
Proof.
  intros F Hr Hne. assert (contains t r = true) as Hc by (by apply bool_decide_true).
  unfold prune. rewrite bool_decide_false, Hc by done. cbn [ensure].
  change (Ok () ;; ?x) with x. rewrite (retain_returns (ft_root t)) by done. done.
Qed.

Lemma tree_prune_inv t r : tree_inv t -> is_Some (ft_nodes t !! r) -> r <> ft_root t ->
  exists t', prune t r = Ok t' /\ tree_inv t' /\ ft_root t' = r /\ similar (ft_nodes t') (pruned (ft_nodes t) r) /\
    ft_context t' = ft_context t /\ ft_balances t' = ft_balances t /\
    ft_balances_checkpoint t' = ft_balances_checkpoint t /\ ft_proposer_score t' = ft_proposer_score t /\
    ft_votes t' = ft_votes t /\ ft_equivocating t' = ft_equivocating t /\
    ft_boost t' = ft_boost (drop_boost (ft_set_nodes (pruned (ft_nodes t) r) t)).
Proof.
  intros [[F W R] Hw Hv Hb S] Hr Hne. rewrite prune_eq by done.
  set (nodes := pruned (ft_nodes t) r). set (t1 := rebuild_pending_weight _).
  assert (forest r nodes) as F' by (by apply (pruned_forest (ft_root t))).
  destruct (drop_boost_fields t1) as (En & Er & Ev & Ec & Ep & Eb & Eo & Es & Ee).
  destruct (recompute_all_spec (drop_boost t1)) as (t2 & -> & R2 & F2); [by rewrite En, Er|].
  exists t2. split; [done|]. pose proof (refreshed_similar _ _ R2) as Hs. rewrite En in Hs.
  destruct (refreshed_fields _ _ R2) as (-> & -> & -> & -> & -> & -> & _ & -> & ->).
  rewrite Er, Ec, Eb, Eo, Es, Ev, Ee. split; [|split_and!; try done].
  2: { unfold drop_boost, contains. cbn. destruct (ft_boost t) as [[x s]|] eqn:E; cbn; [|by rewrite E].
       fold nodes. destruct (nodes !! x); cbn; [by rewrite E|done]. }
  assert (forall y, vote_weight (ft_votes t) y < 2 ^ 64) as Hlt.
  { intros y. pose proof (weighed_positive _ _ _ S Hv) as Hpos. pose proof (weighed_total _ _ _ S Hv).
    pose proof (vote_weight_bounds _ y Hpos). destruct S as (? & ? & ?). lia. }
  apply (refreshed_inv (drop_boost t1)); [done|done|by rewrite En, Er| | | | |].
  - intros x m Hx. rewrite En in Hx |- *. cbn in Hx.
    rewrite (subtree_weight_ext _ (own_weight (drop_boost t1)) (own_weight t)).
    2: { intros y Hy. by apply (drop_boost_own t1). }
    cbn. fold nodes. unfold nodes. rewrite (pruned_weight (ft_root t)) by (try done; by eexists).
    destruct (pruned_lookup _ _ _ _ Hx) as (k & [Hk _]%lookup_kept & _ & _ & -> & _). by apply W.
  - intros y. rewrite Ep, En, Ev. unfold t1, rebuild_pending_weight. cbn [ft_pending_weight ft_set_pending_weight].
    rewrite rebuild_pending_spec; cbn.
    + by rewrite (waiting_for_votes _ (ft_votes t)) by apply hm_iter_perm.
    + intros [i vote] Hin%elem_of_hm_iter. by eapply (weighed_positive _ _ _ S Hv).
    + intros z. cbn. by rewrite (waiting_for_votes _ (ft_votes t)) by apply hm_iter_perm.
  - rewrite Ev. intros i vote Hi. destruct (Hv i vote Hi). split; [done|].
    rewrite (balance_of_fields t) by done. done.
  - intros x s [Hx _]%drop_boost_score. rewrite Es. by apply (Hb x).
  - by rewrite Eb, Es.
Qed.
End prune.
