(* ===== verification/ForkTreeSpec.v ===== *)
(** * The fork choice tree: LMD-GHOST

    The reference: a block is viable when a leaf under it is, the support of a block is the
    balance of the latest votes for it and its descendants with the boost, and the head is
    reached from the justified block by going to the viable child with the most support,
    the greatest root among equals.  The head the tree caches is that one, after every
    sequence of operations. *)

From stdpp Require Import strings.
From S2P Require Import Prelude Bytes Shuffling BeaconTypes BeaconAccess ForkTree ForkTreeFacts ForkTreeWeights ForkTreeInvariant ForkTreeBlocks.

Implicit Types (t : ForkChoiceTree) (nodes : gmap B256 ForkChoiceNode).

(** ** The reference *)

Inductive viable t : B256 -> Prop :=
| viable_leaf x n : ft_nodes t !! x = Some n -> fn_children n = [] -> is_leaf_viable t x n = Ok true -> viable t x
| viable_branch x n c : ft_nodes t !! x = Some n -> c ∈ fn_children n -> viable t c -> viable t x.

Definition support t (x : B256) : Z := subtree_weight (ft_nodes t) (own_weight t) x.

Definition best_child t (x c : B256) : Prop :=
  exists n, ft_nodes t !! x = Some n /\ c ∈ fn_children n /\ viable t c /\
    forall c', c' ∈ fn_children n -> viable t c' -> key_le (support t c', c') (support t c, c).

Inductive ghost t : B256 -> B256 -> Prop :=
| ghost_stop x : (forall c, ~ best_child t x c) -> ghost t x x
| ghost_step x c y : best_child t x c -> ghost t c y -> ghost t x y.

Lemma best_child_det t x c c' : best_child t x c -> best_child t x c' -> c = c'.
Proof.
  intros (n & Hn & Hc & Hv & Hmax) (n' & Hn' & Hc' & Hv' & Hmax'). simplify_eq.
  pose proof (key_le_antisym _ _ (Hmax c' Hc' Hv') (Hmax' c Hc Hv)). congruence.
Qed.

Lemma ghost_det t x y : ghost t x y -> forall z, ghost t x z -> y = z.
Proof.
  induction 1 as [x Hx|x c y Hc Hy IH]; intros z Hz; inversion Hz as [?|? c' ? Hc' Hz']; simplify_eq; try done.
  - by destruct (Hx c').
  - by destruct (H c).
  - rewrite (best_child_det t x c c') in * by done. by apply IH.
Qed.

(** ** The cached head *)

Lemma max_by_None {A} (leb : A -> A -> bool) l : max_by leb l = None -> l = [].
Proof. by destruct l. Qed.

Section head.
Context t (I : tree_inv t).

Lemma elem_of_viable_children cs x n :
  (x, n) ∈ viable_children (ft_nodes t) cs <-> x ∈ cs /\ ft_nodes t !! x = Some n /\ fn_viable n = true.
Proof.
  unfold viable_children. rewrite list_elem_of_omap. split.
  - intros (c & Hc & E). destruct (ft_nodes t !! c) as [m|] eqn:Hm; [|done].
    destruct (fn_viable m) eqn:Hv; [|done]. by simplify_eq.
  - intros (Hx & Hn & Hv). exists x. by rewrite Hn, Hv.
Qed.

(** Induction towards the root: a node after its children. *)
Lemma children_ind (P : B256 -> ForkChoiceNode -> Prop) :
  (forall x n, ft_nodes t !! x = Some n ->
     (forall c m, c ∈ fn_children n -> ft_nodes t !! c = Some m -> P c m) -> P x n) ->
  forall x n, ft_nodes t !! x = Some n -> P x n.
Proof using I.
  intros HP. destruct I as [[F _ _] _ _ _ _].
  set (above s := size (filter (fun rn : B256 * ForkChoiceNode => s < fn_slot rn.2) (ft_nodes t))).
  assert (forall k x n, ft_nodes t !! x = Some n -> (above (fn_slot n) < k)%nat -> P x n) as H.
  { induction k as [|k IH]; intros x n Hx Hk; [lia|]. apply HP; [done|]. intros c m Hc Hm. apply IH; [done|].
    pose proof (child_slot F x n c m Hx Hc Hm) as Hlt. eapply Nat.lt_le_trans; [|apply Nat.lt_succ_r, Hk].
    apply (size_filter_lt _ _ _ c m); [|done|done|]; cbn; [intros [y k']; cbn|]; lia. }
  intros x n Hx. apply (H (S (above (fn_slot n)))); [done|lia].
Qed.

Lemma fn_viable_spec x n : ft_nodes t !! x = Some n -> fn_viable n = true <-> viable t x.
Proof using I.
  revert x n. apply (children_ind (fun x n => fn_viable n = true <-> viable t x)). intros x n Hx IH.
  destruct I as [[F _ Fr] _ _ _ _]. pose proof (Fr x n Hx) as E. unfold evaluate in E.
  destruct (fn_children n) as [|c0 cs] eqn:Ec.
  - apply bind_Ok in E as (v & Ev & E). injection E as -> _. split.
    + intros Hv. rewrite Hv in Ev. by eapply viable_leaf.
    + inversion 1; simplify_eq; [congruence|]. rewrite Ec in *. by eapply not_elem_of_nil in H1.
  - assert (forall c m, (c, m) ∈ viable_children (ft_nodes t) (c0 :: cs) -> viable t c) as Hvc.
    { intros c m (Hc & Hm & Hv)%elem_of_viable_children. by eapply IH. }
    destruct (max_by _ _) as [[c m]|] eqn:Em; injection E as <- _.
    + split; [intros _|done]. apply max_by_Some in Em as [Hin _]; [|apply child_leb_refl|apply child_leb_trans|apply child_leb_total].
      eapply viable_branch; [done| |by eapply Hvc]. rewrite Ec. by apply elem_of_viable_children in Hin as [? _].
    + split; [done|]. intros Hv. inversion Hv as [? n' Hn'|? n' c Hn' Hc Hvc']; simplify_eq; [congruence|].
      rewrite Ec in Hc. destruct (fo_child _ _ F x n c Hx) as (m & Hm & _); [by rewrite Ec|].
      assert ((c, m) ∈ viable_children (ft_nodes t) (c0 :: cs)) as Hin.
      { apply elem_of_viable_children. split_and!; [done|done|]. by apply (IH c m). }
      apply max_by_None in Em. rewrite Em in Hin. by apply not_elem_of_nil in Hin.
Qed.

Lemma fn_weight_support x n : ft_nodes t !! x = Some n -> fn_weight n = support t x.
Proof using I. destruct I as [[_ W _] _ _ _ _]. apply W. Qed.

Lemma viable_max x n c m : ft_nodes t !! x = Some n ->
  max_by child_leb (viable_children (ft_nodes t) (fn_children n)) = Some (c, m) ->
  best_child t x c /\ ft_nodes t !! c = Some m /\ c ∈ fn_children n.
Proof using I.
  intros Hx Em. apply max_by_Some in Em as [Hin Hmax]; [|apply child_leb_refl|apply child_leb_trans|apply child_leb_total].
  apply elem_of_viable_children in Hin as (Hc & Hm & Hv). split_and!; [|done|done]. exists n.
  split_and!; [done|done|by eapply fn_viable_spec|]. intros c' Hc' Hv'.
  destruct I as [[F _ _] _ _ _ _]. destruct (fo_child _ _ F x n c' Hx Hc') as (m' & Hm' & _).
  rewrite <-(fn_weight_support c m Hm), <-(fn_weight_support c' m' Hm').
  apply (child_leb_key (c', m') (c, m)), Hmax, elem_of_viable_children. split_and!; [done|done|].
  by apply (fn_viable_spec c' m').
Qed.

Lemma no_viable_max x n : ft_nodes t !! x = Some n ->
  max_by child_leb (viable_children (ft_nodes t) (fn_children n)) = None -> forall c, ~ best_child t x c.
Proof using I.
  intros Hx Em c (n' & Hn' & Hc & Hv & _). simplify_eq. pose proof (tr_forest _ _ (ti_tracks _ I)) as F.
  destruct (fo_child _ _ F x n c Hx Hc) as (m & Hm & _).
  assert ((c, m) ∈ viable_children (ft_nodes t) (fn_children n)) as Hin.
  { apply elem_of_viable_children. split_and!; [done|done|]. by apply (fn_viable_spec c m). }
  apply max_by_None in Em. rewrite Em in Hin. by apply not_elem_of_nil in Hin.
Qed.

Lemma best_descendant_ghost x n : ft_nodes t !! x = Some n -> ghost t x (fn_best_descendant n).
Proof using I.
  revert x n. apply (children_ind (fun x n => ghost t x (fn_best_descendant n))). intros x n Hx IH.
  pose proof (tr_fresh _ _ (ti_tracks _ I) x n Hx) as E. unfold evaluate in E.
  destruct (fn_children n) as [|c0 cs] eqn:Ec.
  - apply bind_Ok in E as (v & Ev & E). injection E as _ <-. apply ghost_stop. intros c (n' & Hn' & Hc & _).
    simplify_eq. rewrite Ec in Hc. by apply not_elem_of_nil in Hc.
  - rewrite <-Ec in E. destruct (max_by _ _) as [[c m]|] eqn:Em; injection E as _ <-.
    + destruct (viable_max x n c m Hx Em) as (Hb & Hm & Hc). eapply ghost_step; [done|]. apply IH; [by rewrite <-Ec|done].
    + apply ghost_stop. by eapply no_viable_max.
Qed.

Lemma head_ghost : ghost t (cp_root (vc_justified_checkpoint (ft_context t))) (tree_head t).
Proof using I.
  unfold tree_head. destruct (ft_nodes t !! _) as [n|] eqn:Hn; [by apply best_descendant_ghost|].
  apply ghost_stop. intros c (n & Hn' & _). congruence.
Qed.
End head.

(** ** Every sequence of operations *)

Inductive tree_op :=
| OpVotes (updates : list (Z * B256))
| OpEquivocating (indices : list Z)
| OpBoost (root : option B256)
| OpBalances (checkpoint : Checkpoint) (balances : list Z) (proposer_score : Z)
| OpContext (context : ViabilityContext)
| OpInsert (block : ForkChoiceBlock)
| OpPrune (root : B256).

Section runs.
Context {HO : HashOrder} {HOL : HashOrderLaws HO}.

Definition run_op t (op : tree_op) : res anyhow ForkChoiceTree :=
  match op with
  | OpVotes updates => process_votes t updates
  | OpEquivocating indices => mark_equivocating t indices
  | OpBoost root => set_proposer_boost_root t root
  | OpBalances checkpoint balances score => set_balances t checkpoint balances score
  | OpContext context => update_context t context
  | OpInsert block => tree_insert t block
  | OpPrune root => prune t root
  end.

(** What the callers of the tree keep to: validator indices are unsigned, balances and the
    boost fit 64 bits with room, and no block is boosted before it is in the tree. *)
Definition op_ok t (op : tree_op) : Prop :=
  match op with
  | OpVotes updates => Forall (fun u => 0 <= u.1) updates
  | OpBalances _ balances score => supply_ok balances score
  | OpInsert block => ft_nodes t !! fb_root block = None -> fst <$> ft_boost t <> Some (fb_root block)
  | _ => True
  end.

(** What is refused, without a change. *)
Definition op_rejected t (op : tree_op) : Prop :=
  match op with
  | OpInsert block => ft_nodes t !! fb_root block = None /\
      forall parent, ft_nodes t !! fb_parent_root block = Some parent -> fb_slot block <= fn_slot parent
  | OpPrune root => ft_nodes t !! root = None
  | _ => False
  end.

Lemma run_insert_spec t block : tree_inv t -> op_ok t (OpInsert block) ->
  (exists t', tree_insert t block = Ok t' /\ tree_inv t') \/
  (op_rejected t (OpInsert block) /\ exists e, tree_insert t block = Err e).
Proof.
  intros I Hok. destruct (ft_nodes t !! fb_root block) as [n|] eqn:Hn.
  { left. exists t. split; [|done]. unfold tree_insert, contains. by rewrite Hn. }
  specialize (Hok Hn). destruct (ft_nodes t !! fb_parent_root block) as [parent|] eqn:Hp.
  - destruct (decide (fn_slot parent < fb_slot block)) as [Hlt|Hge].
    + left. destruct (tree_insert_inv t block parent) as (t' & ? & ? & _); eauto.
    + right. split; [split; [done|]; intros q Hq; assert (q = parent) as -> by congruence; lia|]. unfold tree_insert, contains. rewrite Hn, Hp. cbn.
      rewrite (proj2 (Z.ltb_ge _ _)) by lia. by eexists.
  - right. split; [split; [done|congruence]|]. unfold tree_insert, contains. rewrite Hn, Hp. by eexists.
Qed.

Lemma run_prune_spec t root : tree_inv t ->
  (exists t', prune t root = Ok t' /\ tree_inv t') \/
  (op_rejected t (OpPrune root) /\ exists e, prune t root = Err e).
Proof.
  intros I. pose proof (tr_forest _ _ (ti_tracks _ I)) as F. destruct (decide (root = ft_root t)) as [->|Hne].
  { left. exists t. split; [|done]. unfold prune. by rewrite bool_decide_true. }
  destruct (ft_nodes t !! root) as [n|] eqn:Hn.
  - left. destruct (tree_prune_inv t root I) as (t' & ? & ? & _); [by eexists|done|eauto].
  - right. split; [done|]. unfold prune. rewrite bool_decide_false by done. unfold contains. rewrite Hn. by eexists.
Qed.

Lemma run_op_spec t op : tree_inv t -> op_ok t op ->
  (exists t', run_op t op = Ok t' /\ tree_inv t') \/ (op_rejected t op /\ exists e, run_op t op = Err e).
Proof.
  intros I Hok. destruct op; cbn [run_op]; [left..| |].
  - destruct (process_votes_inv t updates I Hok) as (t' & ? & ? & _). eauto.
  - destruct (mark_equivocating_inv t indices I) as (t' & ? & ? & _). eauto.
  - destruct (set_proposer_boost_root_inv t root I) as (t' & ? & ? & _). eauto.
  - destruct (set_balances_inv t checkpoint balances proposer_score I Hok) as (t' & ? & ? & _). eauto.
  - destruct (update_context_inv t context I) as (t' & ? & ? & _). eauto.
  - by apply run_insert_spec.
  - by apply run_prune_spec.
Qed.

(** The tree after an operation: a refused one changes nothing. *)
Definition after_op t (op : tree_op) : ForkChoiceTree := match run_op t op with Ok t' => t' | _ => t end.
Definition after_ops t (ops : list tree_op) : ForkChoiceTree := foldl after_op t ops.

Fixpoint ops_ok t (ops : list tree_op) : Prop :=
  match ops with [] => True | op :: ops' => op_ok t op /\ ops_ok (after_op t op) ops' end.

Lemma ops_ok_snoc ops op : forall t, ops_ok t (ops ++ [op]) -> ops_ok t ops /\ op_ok (after_ops t ops) op.
Proof. induction ops as [|o ops IH]; intros t; cbn; [tauto|]. intros [Ho Hok]. destruct (IH _ Hok). auto. Qed.

Lemma after_op_inv t op : tree_inv t -> op_ok t op -> tree_inv (after_op t op).
Proof.
  intros I Hok. unfold after_op. destruct (run_op_spec t op I Hok) as [(t' & -> & ?)|(_ & e & ->)]; done.
Qed.

Lemma after_ops_inv ops : forall t, tree_inv t -> ops_ok t ops -> tree_inv (after_ops t ops).
Proof.
  induction ops as [|op ops IH]; intros t I Hok; [done|]. destruct Hok as [H1 H2].
  apply IH; [by apply after_op_inv|done].
Qed.
End runs.
