(* ===== verification/LatestMessages.v ===== *)
(** * The table of latest messages

    [crates/storage/src/tables/beacon/latest_messages.rs]: a table of votes with the new
    ones kept in memory ([PendingLatestMessages] of [cache.rs]) and written by another
    thread.  The operations are sequential definitions; [step] interleaves them with the
    writer at the locks and transactions of the source.  An [Instant] is an integer of
    nanoseconds.

    Whatever the writer is doing, the table reads as one map that inserts and removals
    change at once: bulk reads and single reads see that map. *)

From stdpp Require Import strings.
From S2P Require Import Prelude Redb Bytes Shuffling BeaconTypes.

Record LatestMessage : Type := mkLatestMessage { lm_epoch : Z; lm_root : B256 }.
#[global] Instance LatestMessage_eq_dec : EqDecision LatestMessage.
Proof. solve_decision. Defined.

Record PendingLatestMessages : Type := mkPendingLatestMessages {
  pm_messages : gmap Z LatestMessage;
  pm_flushing : bool;
  pm_last_flush : option Z;
  pm_flush_interval : Z;
}.
Definition pm_set_messages (v : gmap Z LatestMessage) (p : PendingLatestMessages) : PendingLatestMessages :=
  mkPendingLatestMessages v (pm_flushing p) (pm_last_flush p) (pm_flush_interval p).
Definition pm_set_flushing (v : bool) (p : PendingLatestMessages) : PendingLatestMessages :=
  mkPendingLatestMessages (pm_messages p) v (pm_last_flush p) (pm_flush_interval p).
Definition pm_set_last_flush (v : option Z) (p : PendingLatestMessages) : PendingLatestMessages :=
  mkPendingLatestMessages (pm_messages p) (pm_flushing p) v (pm_flush_interval p).

(** Twelve-second slots, until the network's interval is set. *)
Definition pending_default : PendingLatestMessages :=
  mkPendingLatestMessages ∅ false None (12 * 32 * 10 ^ 9).

Definition FLUSH_CHUNK_SIZE : nat := Z.to_nat 16384.

(** The first of two messages for a validator gives way: [HashMap::extend]. *)
Definition extend (entries : list (Z * LatestMessage)) (m : gmap Z LatestMessage) : gmap Z LatestMessage :=
  foldl (fun m im => <[im.1 := im.2]> m) m entries.

Definition index_leb (a b : Z * LatestMessage) : bool := a.1 <=? b.1.

Section table.
Context {RD : Redb} {HO : HashOrder}.

(** A cache is attached when [lt_pending] is there; [lt_accepting] is cleared at shutdown. *)
Record LatestMessagesTable : Type := mkLatestMessagesTable {
  lt_db : Table Z LatestMessage;
  lt_pending : option PendingLatestMessages;
  lt_accepting : bool;
}.
Definition lt_set_db (v : Table Z LatestMessage) (t : LatestMessagesTable) : LatestMessagesTable :=
  mkLatestMessagesTable v (lt_pending t) (lt_accepting t).
Definition lt_set_pending (v : option PendingLatestMessages) (t : LatestMessagesTable) : LatestMessagesTable :=
  mkLatestMessagesTable (lt_db t) v (lt_accepting t).

(** ** Reading *)

Definition pending_messages (t : LatestMessagesTable) : gmap Z LatestMessage :=
  match lt_pending t with Some pending => pm_messages pending | None => ∅ end.

Definition message_get (t : LatestMessagesTable) (key : Z) : option LatestMessage :=
  match pending_messages t !! key with
  | Some message => Some message
  | None => rd_get (lt_db t) key
  end.

Definition get_all (t : LatestMessagesTable) : list (Z * LatestMessage) :=
  let entries := extend (rd_iter (lt_db t)) ∅ in
  let entries := match lt_pending t with
                 | Some pending => extend (hm_iter (pm_messages pending)) entries
                 | None => entries
                 end in
  sort_by index_leb (hm_iter entries).

Definition get_many (t : LatestMessagesTable) (indices : list Z) : gmap Z LatestMessage :=
  foldl (fun messages index =>
    match pending_messages t !! index with
    | Some message => <[index := message]> messages
    | None => match rd_get (lt_db t) index with
              | Some message => <[index := message]> messages
              | None => messages
              end
    end) ∅ indices.

(** ** Writing *)

Definition write_messages (db : Table Z LatestMessage) (entries : list (Z * LatestMessage)) : Table Z LatestMessage :=
  foldl (fun db im => rd_insert im.1 im.2 db) db entries.

Definition claim_due_flush (pending : PendingLatestMessages) (now : Z) : bool * PendingLatestMessages :=
  let due := negb (bool_decide (pm_messages pending = ∅)) && negb (pm_flushing pending)
    && match pm_last_flush pending with
       | Some finished => pm_flush_interval pending <=? Z.max 0 (now - finished)
       | None => true
       end in
  (due, if due then pm_set_flushing true pending else pending).

(** Whether a writer is to be started is part of the result. *)
Definition insert_batch (t : LatestMessagesTable) (entries : list (Z * LatestMessage)) (now : Z) :
    res anyhow (LatestMessagesTable * bool) :=
  match lt_pending t with
  | None => Ok (lt_set_db (write_messages (lt_db t) entries) t, false)
  | Some pending =>
      ensure (lt_accepting t) "storage is shutting down"%string;;
      let pending := pm_set_messages (extend entries (pm_messages pending)) pending in
      let '(start_flush, pending) := claim_due_flush pending now in
      Ok (lt_set_pending (Some pending) t, start_flush)
  end.

(** The writer, and how long until it can be due next; [None] is [Duration::MAX]. *)
Definition flush_if_due (t : LatestMessagesTable) (now : Z) : LatestMessagesTable * bool * option Z :=
  match lt_pending t with
  | None => (t, false, None)
  | Some pending =>
      if negb (lt_accepting t) then (t, false, Some (pm_flush_interval pending))
      else
        let '(start, pending') := claim_due_flush pending now in
        let wait := match pm_last_flush pending' with
                    | Some finished =>
                        if negb start && negb (pm_flushing pending') && negb (bool_decide (pm_messages pending' = ∅))
                        then Z.max 0 (pm_flush_interval pending' - Z.max 0 (now - finished))
                        else pm_flush_interval pending'
                    | None => pm_flush_interval pending'
                    end in
        (lt_set_pending (Some pending') t, start, Some wait)
  end.

(** The messages captured for a write, by index. *)
Definition capture (pending : PendingLatestMessages) : list (Z * LatestMessage) :=
  sort_by index_leb (hm_iter (pm_messages pending)).

(** A message that changed since it was captured stays pending. *)
Definition settle (batch : list (Z * LatestMessage)) (messages : gmap Z LatestMessage) : gmap Z LatestMessage :=
  foldl (fun messages im =>
    if bool_decide (messages !! im.1 = Some im.2) then delete im.1 messages else messages) messages batch.

(** [flush_pending_messages] with nothing else running; [now] is when each write ends. *)
Fixpoint flush_pending_messages (fuel : nat) (t : LatestMessagesTable) (drain : bool) (now : Z) :
    res anyhow LatestMessagesTable :=
  match lt_pending t, fuel with
  | None, _ => Ok t
  | Some _, O => NoFuel
  | Some pending, S fuel' =>
      if bool_decide (pm_messages pending = ∅) then Ok (lt_set_pending (Some (pm_set_flushing false pending)) t)
      else
        let batch := capture pending in
        let db := foldl write_messages (lt_db t) (chunks FLUSH_CHUNK_SIZE batch) in
        let pending := pm_set_last_flush (Some now) (pm_set_messages (settle batch (pm_messages pending)) pending) in
        if drain then flush_pending_messages fuel' (lt_set_pending (Some pending) (lt_set_db db t)) drain now
        else Ok (lt_set_pending (Some (pm_set_flushing false pending)) (lt_set_db db t))
  end.

Definition message_remove (t : LatestMessagesTable) (key : Z) : LatestMessagesTable * option LatestMessage :=
  let stored := rd_get (lt_db t) key in
  let pending := pending_messages t !! key in
  (lt_set_pending ((fun p => pm_set_messages (delete key (pm_messages p)) p) <$> lt_pending t)
     (lt_set_db (rd_remove key (lt_db t)) t),
   match pending with Some m => Some m | None => stored end).

(** ** With the writer running

    The writer holds a lock that [remove] takes too; it takes the lock of the pending
    messages to capture them and again to drop what it wrote, and commits one transaction
    per chunk. *)

Inductive Writer : Type :=
| Idle
| Writing (batch : list (Z * LatestMessage)) (rest : list (list (Z * LatestMessage))).

Record World : Type := mkWorld {
  w_messages : gmap Z LatestMessage;
  w_db : Table Z LatestMessage;
  w_writer : Writer;
}.

(** What a caller asked for; the writer's own steps ask for nothing. *)
Inductive Event : Type :=
| Inserted (entries : list (Z * LatestMessage))
| Removed (key : Z)
| Silent.

Inductive step : Event -> World -> World -> Prop :=
| step_insert m db w entries : step (Inserted entries) (mkWorld m db w) (mkWorld (extend entries m) db w)
| step_capture m db pending : m = pm_messages pending -> m <> ∅ ->
    step Silent (mkWorld m db Idle)
      (mkWorld m db (Writing (capture pending) (chunks FLUSH_CHUNK_SIZE (capture pending))))
| step_chunk m db batch chunk rest :
    step Silent (mkWorld m db (Writing batch (chunk :: rest))) (mkWorld m (write_messages db chunk) (Writing batch rest))
| step_fail m db batch rest : step Silent (mkWorld m db (Writing batch rest)) (mkWorld m db Idle)
| step_settle m db batch :
    step Silent (mkWorld m db (Writing batch [])) (mkWorld (settle batch m) db Idle)
| step_remove m db key :
    step (Removed key) (mkWorld m db Idle) (mkWorld (delete key m) (rd_remove key db) Idle).

(** The commits of the writer alone: what can happen while a reader holds the lock of the
    pending messages. *)
Inductive commit : World -> World -> Prop :=
| commit_chunk m db batch chunk rest :
    commit (mkWorld m db (Writing batch (chunk :: rest))) (mkWorld m (write_messages db chunk) (Writing batch rest)).

(** What a reader is to see, and what the events do to it. *)
Definition effect (e : Event) (m : gmap Z LatestMessage) : gmap Z LatestMessage :=
  match e with Inserted entries => extend entries m | Removed key => delete key m | Silent => m end.
Definition view (w : World) : gmap Z LatestMessage := w_messages w ∪ rd_view (w_db w).
End table.

(** ** Lists of messages *)

#[local] Arguments extend : simpl never.

Lemma extend_cons i a l m : extend ((i, a) :: l) m = extend l (<[i := a]> m).
Proof. done. Qed.

Lemma extend_nil m : extend [] m = m.
Proof. done. Qed.

Lemma extend_app l1 l2 m : extend (l1 ++ l2) m = extend l2 (extend l1 m).
Proof. unfold extend. apply foldl_app. Qed.

Lemma extend_notin l m i : i ∉ l.*1 -> extend l m !! i = m !! i.
Proof.
  revert m. induction l as [|[j a] l IH]; intros m Hi; [done|]. cbn in Hi. rewrite extend_cons, IH by set_solver.
  apply lookup_insert_ne. set_solver.
Qed.

Lemma extend_in l m i a : NoDup l.*1 -> (i, a) ∈ l -> extend l m !! i = Some a.
Proof.
  revert m. induction l as [|[j b] l IH]; intros m Hnd Hin; [by apply not_elem_of_nil in Hin|].
  cbn in Hnd. apply NoDup_cons in Hnd as [Hj Hnd]. apply elem_of_cons in Hin as [[= -> ->]|Hin]; rewrite extend_cons.
  - rewrite extend_notin by done. apply lookup_insert_eq.
  - by apply IH.
Qed.

Lemma extend_mem l m i : i ∈ l.*1 -> is_Some (extend l m !! i) /\ extend l m !! i = extend l ∅ !! i.
Proof.
  revert m. induction l as [|[j b] l IH] using rev_ind; intros m Hi; [by apply not_elem_of_nil in Hi|].
  rewrite !extend_app, !extend_cons, !extend_nil. destruct (decide (j = i)) as [->|Hne]; [rewrite !lookup_insert_eq; by eauto|].
  rewrite !lookup_insert_ne by done. apply IH. rewrite fmap_app in Hi. set_solver.
Qed.

Lemma extend_is_Some l m i : is_Some (m !! i) -> is_Some (extend l m !! i).
Proof.
  intros Hm. destruct (decide (i ∈ l.*1)) as [Hi|Hi]; [by apply extend_mem|by rewrite extend_notin].
Qed.

Lemma extend_union l m m' : extend l m ∪ m' = extend l (m ∪ m').
Proof.
  apply map_eq. intros i. destruct (decide (i ∈ l.*1)) as [Hi|Hi].
  - destruct (extend_mem l m i Hi) as [[a Ha] E]. rewrite (lookup_union_Some_l _ _ _ a Ha).
    destruct (extend_mem l (m ∪ m') i Hi) as [_ ->]. congruence.
  - rewrite extend_notin by done. rewrite !lookup_union. by rewrite extend_notin.
Qed.

(** Overwritten entries do not show. *)
Lemma union_extend_hidden l m m' : (forall i, i ∈ l.*1 -> is_Some (m !! i)) -> m ∪ extend l m' = m ∪ m'.
Proof.
  intros Hl. apply map_eq. intros i. rewrite !lookup_union. destruct (m !! i) as [a|] eqn:Hm; [by destruct (m' !! i), (extend l m' !! i)|].
  rewrite extend_notin; [done|]. intros Hi. destruct (Hl i Hi). congruence.
Qed.

Section facts.
Context {RD : Redb} {RDL : RedbLaws RD} {HO : HashOrder} {HOL : HashOrderLaws HO}.
Implicit Types (m : gmap Z LatestMessage) (db : Table Z LatestMessage) (w : World).

Lemma rd_view_write db entries : rd_view (write_messages db entries) = extend entries (rd_view db).
Proof.
  revert db. induction entries as [|[i a] entries IH]; intros db; [done|]. unfold write_messages in *. cbn.
  by rewrite IH, rd_view_insert, extend_cons.
Qed.

Lemma rd_view_write_all db batches : rd_view (foldl write_messages db batches) = extend (concat batches) (rd_view db).
Proof.
  revert db. induction batches as [|b batches IH]; intros db; [done|]. cbn. by rewrite IH, rd_view_write, extend_app.
Qed.

Lemma elem_of_capture pending i a : (i, a) ∈ capture pending <-> pm_messages pending !! i = Some a.
Proof. unfold capture. by rewrite sort_by_perm, elem_of_hm_iter. Qed.

Lemma NoDup_capture pending : NoDup (capture pending).*1.
Proof. unfold capture. rewrite sort_by_perm. apply NoDup_hm_iter. Qed.

Lemma settle_sub batch m i a : settle batch m !! i = Some a -> m !! i = Some a /\ (i, a) ∉ batch.
Proof.
  revert m. induction batch as [|[j b] batch IH]; intros m H; cbn in H; [split; [done|apply not_elem_of_nil]|].
  case_bool_decide as Hj; cbn in Hj; apply IH in H as [H1 H2].
  - apply lookup_delete_Some in H1 as [Hne H1]. split; [done|]. intros [[= -> ->]|?]%elem_of_cons; done.
  - split; [done|]. intros [[= -> ->]|?]%elem_of_cons; done.
Qed.

Lemma settle_dropped batch m i : settle batch m !! i = None -> m !! i = None \/ exists a, m !! i = Some a /\ (i, a) ∈ batch.
Proof.
  revert m. induction batch as [|[j b] batch IH]; intros m H; cbn in H; [by left|].
  case_bool_decide as Hj; cbn in Hj; apply IH in H as [H|(a & Ha & Hin)].
  - destruct (decide (j = i)) as [->|]; [right; exists b; split; [done|set_solver]|].
    rewrite lookup_delete_ne in H by done. by left.
  - apply lookup_delete_Some in Ha as [_ Ha]. right. exists a. split; [done|set_solver].
  - by left.
  - right. exists a. split; [done|set_solver].
Qed.

(** ** The writer *)

(** The writer's messages are pending still, and those of the chunks it is past are stored. *)
Definition writer_inv w : Prop :=
  match w_writer w with
  | Idle => True
  | Writing batch rest =>
      NoDup batch.*1 /\ (forall i, i ∈ batch.*1 -> is_Some (w_messages w !! i)) /\
      exists done, batch = done ++ concat rest /\ forall i a, (i, a) ∈ done -> rd_view (w_db w) !! i = Some a
  end.

Lemma NoDup_chunk (done chunk : list (Z * LatestMessage)) rest :
  NoDup (done ++ concat (chunk :: rest)).*1 -> NoDup chunk.*1.
Proof.
  cbn. rewrite !fmap_app. intros (_ & _ & H)%NoDup_app. by apply NoDup_app in H as (H & _ & _).
Qed.

Lemma step_inv e w w' : step e w w' -> writer_inv w -> writer_inv w'.
Proof.
  destruct 1; unfold writer_inv; cbn; try done.
  - destruct w as [|batch rest]; [done|]. intros (Hnd & Hp & Hd). split_and!; [done| |done].
    intros i Hi. by apply extend_is_Some, Hp.
  - intros _. split_and!; [apply NoDup_capture| |].
    + intros i ([j a] & -> & Hin)%list_elem_of_fmap. subst. apply elem_of_capture in Hin. by eexists.
    + exists []. rewrite concat_chunks by (unfold FLUSH_CHUNK_SIZE; lia). split; [done|]. by intros i a ?%not_elem_of_nil.
  - intros (Hnd & Hp & done & -> & Hd). split_and!; [done|done|]. exists (done ++ chunk). cbn. rewrite <-app_assoc.
    split; [done|]. rewrite rd_view_write. rewrite !fmap_app in Hnd. apply NoDup_app in Hnd as (H1 & H2 & H3).
    apply NoDup_app in H3 as (H3 & _ & _).
    intros i a [Hin|Hin]%elem_of_app; [|by apply extend_in]. rewrite extend_notin; [by apply Hd|].
    intros Hi. apply (H2 i); [apply list_elem_of_fmap; by exists (i, a)|set_solver].
Qed.

(** Every step does to the map what its caller asked for, and the writer nothing. *)
Lemma step_view e w w' : step e w w' -> writer_inv w -> view w' = effect e (view w).
Proof.
  destruct 1; unfold writer_inv, view; cbn; intros I.
  - apply extend_union.
  - done.
  - destruct I as (_ & Hp & done & -> & _). rewrite rd_view_write. apply union_extend_hidden.
    intros i Hi. apply Hp. cbn. rewrite !fmap_app. set_solver.
  - done.
  - destruct I as (_ & _ & done & -> & Hd). cbn in Hd. rewrite app_nil_r in *. apply map_eq. intros i. rewrite !lookup_union.
    destruct (settle done m !! i) as [a|] eqn:Es; [by apply settle_sub in Es as [-> _]|].
    apply settle_dropped in Es as [->|(a & Hm & Hin)]; [done|]. by rewrite Hm, (Hd i a Hin).
  - rewrite rd_view_remove. by rewrite delete_union.
Qed.

(** ** Readers *)

(** A bulk read holds the pending messages and reads a snapshot taken later. *)
Lemma commits_view w w' : rtc commit w w' -> writer_inv w -> w_messages w ∪ rd_view (w_db w') = view w.
Proof.
  intros Hc. enough (writer_inv w -> writer_inv w' /\ w_messages w' = w_messages w /\ view w' = view w) as H.
  { intros I. destruct (H I) as (_ & <- & <-). done. }
  induction Hc as [w|w1 w2 w3 Hs Hc IH]; [done|]. intros I.
  assert (step Silent w1 w2) as Hst by (destruct Hs; constructor).
  destruct (IH (step_inv _ _ _ Hst I)) as (I3 & Em & Ev). split; [done|]. rewrite Em, Ev, (step_view _ _ _ Hst I).
  split; [by destruct Hs|done].
Qed.

(** A run with the states it goes through. *)
Inductive run : World -> list World -> World -> Prop :=
| run_refl w : run w [w] w
| run_step e w ws w1 w2 : run w ws w1 -> step e w1 w2 -> run w (ws ++ [w2]) w2.

(** A single read looks at the pending messages, lets go of their lock, and looks at the
    database later. *)
Definition read_later (w w' : World) (key : Z) : option LatestMessage :=
  match w_messages w !! key with Some m => Some m | None => rd_get (w_db w') key end.

Lemma run_seen key w ws w' : run w ws w' -> writer_inv w -> w_messages w !! key = None ->
  let seen := (fun w => view w !! key) <$> ws in
  writer_inv w' /\ view w' !! key ∈ seen /\ rd_view (w_db w') !! key ∈ seen /\
  (forall a, w_messages w' !! key = Some a -> Some a ∈ seen) /\
  match w_writer w' with Idle => True | Writing batch _ => forall a, (key, a) ∈ batch -> Some a ∈ seen end.
Proof.
  intros Hrun I Hk seen. subst seen. induction Hrun as [w|e w ws w1 w2 Hrun IH Hs].
  - cbn. split_and!; [done|set_solver| |congruence|].
    + unfold view. rewrite lookup_union, Hk. destruct (rd_view (w_db w) !! key); set_solver.
    + unfold writer_inv in I. destruct (w_writer w) as [|batch rest]; [done|]. intros a Hin. destruct I as (_ & Hp & _).
      destruct (Hp key); [apply list_elem_of_fmap; by exists (key, a)|congruence].
  - destruct (IH I Hk) as (I1 & Hv & Hd & Hm & Hb). clear IH. rewrite fmap_app.
    pose proof (step_inv _ _ _ Hs I1) as I2. split; [done|]. cbn. split; [set_solver|].
    assert (forall a, w_messages w2 !! key = Some a -> Some a ∈ (fun w => view w !! key) <$> ws ++ [w2]) as Hm2.
    { intros a Ha. rewrite fmap_app. apply elem_of_app. right. cbn. apply list_elem_of_singleton. unfold view.
      by rewrite (lookup_union_Some_l _ _ _ a Ha). }
    rewrite fmap_app in Hm2. split_and!; [|done|].
    + destruct Hs; cbn in *; try (apply elem_of_app; by left).
      * destruct I1 as (Hnd & _ & done & -> & _). rewrite rd_view_write.
        destruct (decide (key ∈ chunk.*1)) as [Hin|Hin].
        -- apply list_elem_of_fmap in Hin as ([k a] & -> & Hin). cbn. rewrite (extend_in chunk _ k a); [|by eapply NoDup_chunk|done].
           apply elem_of_app. left. apply Hb. set_solver.
        -- rewrite extend_notin by done. apply elem_of_app. by left.
      * rewrite rd_view_remove. destruct (decide (key0 = key)) as [->|].
        2: { rewrite lookup_delete_ne by done. apply elem_of_app. by left. }
        rewrite lookup_delete_eq. apply elem_of_app. right.
        rewrite lookup_union, !lookup_delete_eq. by apply list_elem_of_singleton.
    + destruct Hs; cbn in *; try done.
      * destruct w0; [done|]. intros a Ha. apply elem_of_app. left. by apply Hb.
      * intros a Hin. apply elem_of_capture in Hin. apply Hm2. by subst.
      * intros a Ha. apply elem_of_app. left. by apply Hb.
Qed.

Lemma read_later_seen key w ws w' : run w ws w' -> writer_inv w ->
  exists w1, w1 ∈ ws /\ read_later w w' key = view w1 !! key.
Proof.
  intros Hrun I. unfold read_later. destruct (w_messages w !! key) as [a|] eqn:Hk.
  - exists w. split; [|unfold view; by rewrite (lookup_union_Some_l _ _ _ a Hk)].
    clear -Hrun. induction Hrun; set_solver.
  - destruct (run_seen key w ws w' Hrun I Hk) as (_ & _ & Hd & _). rewrite rd_get_view.
    apply list_elem_of_fmap in Hd as (w1 & E & Hin). eauto.
Qed.

(** ** The table as a map *)

Definition lm_view (t : LatestMessagesTable) : gmap Z LatestMessage := pending_messages t ∪ rd_view (lt_db t).

Lemma message_get_view t i : message_get t i = lm_view t !! i.
Proof.
  unfold message_get, lm_view. rewrite lookup_union, rd_get_view.
  by destruct (pending_messages t !! i), (rd_view (lt_db t) !! i).
Qed.

Lemma get_many_view t indices i :
  get_many t indices !! i = if decide (i ∈ indices) then lm_view t !! i else None.
Proof.
  assert (get_many t indices = foldl (fun m j => match lm_view t !! j with Some a => <[j := a]> m | None => m end) ∅ indices) as ->.
  { unfold get_many. clear i. generalize (∅ : gmap Z LatestMessage) as m0. induction indices as [|j indices IH]; intros m0; [done|].
    cbn. rewrite <-message_get_view, IH. unfold message_get.
    destruct (pending_messages t !! j); [done|]. by destruct (rd_get (lt_db t) j). }
  induction indices as [|j indices IH] using rev_ind.
  { cbn. rewrite decide_False by apply not_elem_of_nil. done. }
  rewrite foldl_app. cbn. destruct (decide (j = i)) as [->|Hne].
  - rewrite decide_True by set_solver. destruct (lm_view t !! i) as [a|] eqn:E; [apply lookup_insert_eq|].
    rewrite IH. by case_decide.
  - assert (foldl (fun m j => match lm_view t !! j with Some a => <[j := a]> m | None => m end) ∅ indices !! i =
      if decide (i ∈ indices ++ [j]) then lm_view t !! i else None) as E.
    { rewrite IH. do 2 case_decide; try done; set_solver. }
    destruct (lm_view t !! j); [|done]. by rewrite lookup_insert_ne.
Qed.

Lemma extend_iter m m' : extend (hm_iter m) m' = m ∪ m'.
Proof.
  apply map_eq. intros i. rewrite lookup_union. destruct (m !! i) as [a|] eqn:E.
  - rewrite (extend_in _ _ i a); [by destruct (m' !! i)|apply NoDup_hm_iter|by apply elem_of_hm_iter].
  - rewrite extend_notin; [by destruct (m' !! i)|]. intros ([j a] & -> & Hin)%list_elem_of_fmap.
    apply elem_of_hm_iter in Hin. cbn in E. congruence.
Qed.

Lemma extend_rd_iter db : extend (rd_iter db) ∅ = rd_view db.
Proof.
  apply map_eq. intros i. destruct (rd_view db !! i) as [a|] eqn:E.
  - apply extend_in; [apply rd_iter_nodup|]. by apply elem_of_rd_iter.
  - rewrite extend_notin; [done|]. intros ([j a] & -> & Hin)%list_elem_of_fmap.
    apply elem_of_rd_iter in Hin. cbn in E. congruence.
Qed.

Lemma get_all_perm t : get_all t ≡ₚ map_to_list (lm_view t).
Proof.
  unfold get_all, lm_view, pending_messages. rewrite sort_by_perm, extend_rd_iter.
  destruct (lt_pending t); [by rewrite extend_iter, hm_iter_perm|]. by rewrite hm_iter_perm, (left_id_L ∅ (∪)).
Qed.

Lemma get_all_elem t i a : (i, a) ∈ get_all t <-> lm_view t !! i = Some a.
Proof. by rewrite get_all_perm, elem_of_map_to_list. Qed.

Lemma claim_messages pending now : pm_messages (claim_due_flush pending now).2 = pm_messages pending.
Proof. unfold claim_due_flush. cbn. by case_match. Qed.

Lemma insert_batch_view t entries now t' b :
  insert_batch t entries now = Ok (t', b) -> lm_view t' = extend entries (lm_view t) /\ lt_accepting t' = lt_accepting t.
Proof.
  unfold insert_batch, lm_view, pending_messages. destruct (lt_pending t) as [pending|] eqn:Ep.
  - destruct (lt_accepting t) eqn:Ea; [|done]. cbn [ensure].
    destruct (claim_due_flush _ now) as [start p] eqn:Ec. intros [= <- _]. cbn.
    pose proof (claim_messages (pm_set_messages (extend entries (pm_messages pending)) pending) now) as E.
    rewrite Ec in E. cbn in E. rewrite E. split; [apply extend_union|done].
  - intros [= <- _]. cbn. rewrite Ep, rd_view_write, !(left_id_L ∅ (∪)). done.
Qed.

(** Writing what is pending changes nothing a reader sees, and ends; a drain leaves
    nothing pending. *)
Lemma flush_view fuel t drain now : (2 <= fuel)%nat ->
  exists t', flush_pending_messages fuel t drain now = Ok t' /\ lm_view t' = lm_view t /\
    pending_messages t' = ∅ /\ (lt_pending t <> None -> rd_view (lt_db t') = lm_view t).
Proof.
  intros Hf. destruct fuel as [|fuel]; [lia|]. cbn. unfold lm_view, pending_messages.
  destruct (lt_pending t) as [pending|] eqn:Ep; [|exists t; by rewrite Ep].
  case_bool_decide as He.
  { eexists. split; [done|]. cbn. rewrite He, !(left_id_L ∅ (∪)). done. }
  set (batch := capture pending). set (db := foldl _ _ _).
  assert (rd_view db = pm_messages pending ∪ rd_view (lt_db t)) as Edb.
  { unfold db. rewrite rd_view_write_all, concat_chunks by (unfold FLUSH_CHUNK_SIZE; lia). unfold batch, capture.
    apply map_eq. intros i. rewrite lookup_union. destruct (pm_messages pending !! i) as [a|] eqn:E.
    - rewrite (extend_in _ _ i a); [by destruct (rd_view (lt_db t) !! i)|apply NoDup_capture|by apply elem_of_capture].
    - rewrite extend_notin; [by destruct (rd_view (lt_db t) !! i)|]. intros ([j a] & -> & Hin)%list_elem_of_fmap.
      apply elem_of_capture in Hin. cbn in E. congruence. }
  assert (settle batch (pm_messages pending) = ∅) as Es.
  { apply map_empty. intros i. destruct (settle _ _ !! i) as [a|] eqn:E; [|done].
    apply settle_sub in E as [E Hn]. destruct Hn. by apply elem_of_capture. }
  rewrite Es. destruct drain.
  - destruct fuel as [|fuel]; [lia|]. cbn. eexists. split; [done|]. cbn. rewrite (left_id_L ∅ (∪)), Edb. done.
  - eexists. split; [done|]. cbn. rewrite (left_id_L ∅ (∪)), Edb. done.
Qed.

Lemma message_remove_view t i : lm_view (message_remove t i).1 = delete i (lm_view t) /\
  (message_remove t i).2 = lm_view t !! i.
Proof.
  unfold message_remove, lm_view, pending_messages. cbn. rewrite rd_view_remove, rd_get_view, lookup_union.
  destruct (lt_pending t) as [p|]; cbn.
  - rewrite delete_union. split; [done|]. by destruct (pm_messages p !! i), (rd_view (lt_db t) !! i).
  - rewrite lookup_empty, !(left_id_L ∅ (∪)). split; [done|]. by destruct (rd_view (lt_db t) !! i).
Qed.
End facts.
