(* ===== verification/BeaconDb.v ===== *)
(** * The beacon database

    [crates/storage/src/db/beacon.rs], [db/beacon_canonical.rs] and the tables of
    [tables/beacon]: one [redb] table per table of the source and an option per field,
    empty until it is first written.  A transaction either commits whole or leaves the
    database as it was.  The caches in front of the block and state tables are written
    through and are not components of the state; the checkpoint states are kept in memory
    only, and what is in memory is the component [bd_checkpoint_states]. *)

From stdpp Require Import strings.
From S2P Require Import Prelude StateMonad Redb Bytes Shuffling Merkle BeaconTypes BeaconAccess BeaconMutate BeaconEpoch BeaconBlockOps BeaconTransition LatestMessages.

#[global] Instance Checkpoint_countable : Countable Checkpoint.
Proof.
  apply (inj_countable' (fun c => (cp_epoch c, cp_root c)) (fun p => mkCheckpoint p.1 p.2)). by intros [].
Defined.

(** ** Multimaps of [redb]

    A key has a set of values, which are read in an order of the crate's. *)
Class RedbMulti : Type := {
  MTable : Type;
  mm_empty : MTable;
  mm_get : MTable -> B256 -> list B256;
  mm_insert : B256 -> B256 -> MTable -> MTable;
}.
Class RedbMultiLaws (RM : RedbMulti) : Prop := {
  mm_get_empty : forall k, mm_get mm_empty k = [];
  mm_get_nodup : forall t k, NoDup (mm_get t k);
  mm_get_insert : forall t k v k' x, x ∈ mm_get (mm_insert k v t) k' <-> x ∈ mm_get t k' \/ (k = k' /\ x = v);
}.

(** The laws can hold: a map to lists without duplicates. *)
Definition gmap_multi : RedbMulti := {|
  MTable := gmap B256 (gset B256);
  mm_empty := ∅;
  mm_get t k := elements (default ∅ (t !! k));
  mm_insert k v t := <[k := {[ v ]} ∪ default ∅ (t !! k)]> t;
|}.
Lemma gmap_multi_laws : RedbMultiLaws gmap_multi.
Proof.
  split.
  - intros k. cbn. by rewrite lookup_empty.
  - intros t k. cbn. apply NoDup_elements.
  - intros t k v k' x. cbn. rewrite !elem_of_elements. destruct (decide (k = k')) as [->|].
    + rewrite lookup_insert_eq. cbn. set_solver.
    + rewrite lookup_insert_ne by done. naive_solver.
Qed.

Section db.
Context {RD : Redb} {RM : RedbMulti}.

Record BeaconDB : Type := mkBeaconDB {
  bd_slot_index : Table Z B256;
  bd_state_root_index : Table B256 B256;
  bd_parent_index : MTable;
  bd_block : Table B256 SignedBeaconBlock;
  bd_state : Table B256 BeaconState;
  bd_timeliness : Table B256 bool;
  bd_unrealized_justifications : Table B256 Checkpoint;
  bd_canonical : Table Z B256;
  bd_messages : LatestMessagesTable;
  bd_checkpoint_states : gmap Checkpoint BeaconState;
  bd_time : option Z;
  bd_genesis_time : option Z;
  bd_justified : option Checkpoint;
  bd_previous_justified : option Checkpoint;
  bd_finalized : option Checkpoint;
  bd_unrealized_justified : option Checkpoint;
  bd_unrealized_finalized : option Checkpoint;
  bd_proposer_boost_root : option B256;
  bd_equivocating : option (gset Z);
}.
Definition bd_set_slot_index (v : Table Z B256) (d : BeaconDB) : BeaconDB :=
  mkBeaconDB
    v (bd_state_root_index d) (bd_parent_index d) (bd_block d) (bd_state d) (bd_timeliness d)
    (bd_unrealized_justifications d) (bd_canonical d) (bd_messages d) (bd_checkpoint_states d)
    (bd_time d) (bd_genesis_time d) (bd_justified d) (bd_previous_justified d) (bd_finalized d)
    (bd_unrealized_justified d) (bd_unrealized_finalized d) (bd_proposer_boost_root d)
    (bd_equivocating d).
Definition bd_set_state_root_index (v : Table B256 B256) (d : BeaconDB) : BeaconDB :=
  mkBeaconDB
    (bd_slot_index d) v (bd_parent_index d) (bd_block d) (bd_state d) (bd_timeliness d)
    (bd_unrealized_justifications d) (bd_canonical d) (bd_messages d) (bd_checkpoint_states d)
    (bd_time d) (bd_genesis_time d) (bd_justified d) (bd_previous_justified d) (bd_finalized d)
    (bd_unrealized_justified d) (bd_unrealized_finalized d) (bd_proposer_boost_root d)
    (bd_equivocating d).
Definition bd_set_parent_index (v : MTable) (d : BeaconDB) : BeaconDB :=
  mkBeaconDB
    (bd_slot_index d) (bd_state_root_index d) v (bd_block d) (bd_state d) (bd_timeliness d)
    (bd_unrealized_justifications d) (bd_canonical d) (bd_messages d) (bd_checkpoint_states d)
    (bd_time d) (bd_genesis_time d) (bd_justified d) (bd_previous_justified d) (bd_finalized d)
    (bd_unrealized_justified d) (bd_unrealized_finalized d) (bd_proposer_boost_root d)
    (bd_equivocating d).
Definition bd_set_block (v : Table B256 SignedBeaconBlock) (d : BeaconDB) : BeaconDB :=
  mkBeaconDB
    (bd_slot_index d) (bd_state_root_index d) (bd_parent_index d) v (bd_state d) (bd_timeliness d)
    (bd_unrealized_justifications d) (bd_canonical d) (bd_messages d) (bd_checkpoint_states d)
    (bd_time d) (bd_genesis_time d) (bd_justified d) (bd_previous_justified d) (bd_finalized d)
    (bd_unrealized_justified d) (bd_unrealized_finalized d) (bd_proposer_boost_root d)
    (bd_equivocating d).
Definition bd_set_state (v : Table B256 BeaconState) (d : BeaconDB) : BeaconDB :=
  mkBeaconDB
    (bd_slot_index d) (bd_state_root_index d) (bd_parent_index d) (bd_block d) v (bd_timeliness d)
    (bd_unrealized_justifications d) (bd_canonical d) (bd_messages d) (bd_checkpoint_states d)
    (bd_time d) (bd_genesis_time d) (bd_justified d) (bd_previous_justified d) (bd_finalized d)
    (bd_unrealized_justified d) (bd_unrealized_finalized d) (bd_proposer_boost_root d)
    (bd_equivocating d).
Definition bd_set_timeliness (v : Table B256 bool) (d : BeaconDB) : BeaconDB :=
  mkBeaconDB
    (bd_slot_index d) (bd_state_root_index d) (bd_parent_index d) (bd_block d) (bd_state d) v
    (bd_unrealized_justifications d) (bd_canonical d) (bd_messages d) (bd_checkpoint_states d)
    (bd_time d) (bd_genesis_time d) (bd_justified d) (bd_previous_justified d) (bd_finalized d)
    (bd_unrealized_justified d) (bd_unrealized_finalized d) (bd_proposer_boost_root d)
    (bd_equivocating d).
Definition bd_set_unrealized_justifications (v : Table B256 Checkpoint) (d : BeaconDB) : BeaconDB :=
  mkBeaconDB
    (bd_slot_index d) (bd_state_root_index d) (bd_parent_index d) (bd_block d) (bd_state d)
    (bd_timeliness d) v (bd_canonical d) (bd_messages d) (bd_checkpoint_states d) (bd_time d)
    (bd_genesis_time d) (bd_justified d) (bd_previous_justified d) (bd_finalized d)
    (bd_unrealized_justified d) (bd_unrealized_finalized d) (bd_proposer_boost_root d)
    (bd_equivocating d).
Definition bd_set_canonical (v : Table Z B256) (d : BeaconDB) : BeaconDB :=
  mkBeaconDB
    (bd_slot_index d) (bd_state_root_index d) (bd_parent_index d) (bd_block d) (bd_state d)
    (bd_timeliness d) (bd_unrealized_justifications d) v (bd_messages d) (bd_checkpoint_states d)
    (bd_time d) (bd_genesis_time d) (bd_justified d) (bd_previous_justified d) (bd_finalized d)
    (bd_unrealized_justified d) (bd_unrealized_finalized d) (bd_proposer_boost_root d)
    (bd_equivocating d).
Definition bd_set_messages (v : LatestMessagesTable) (d : BeaconDB) : BeaconDB :=
  mkBeaconDB
    (bd_slot_index d) (bd_state_root_index d) (bd_parent_index d) (bd_block d) (bd_state d)
    (bd_timeliness d) (bd_unrealized_justifications d) (bd_canonical d) v (bd_checkpoint_states d)
    (bd_time d) (bd_genesis_time d) (bd_justified d) (bd_previous_justified d) (bd_finalized d)
    (bd_unrealized_justified d) (bd_unrealized_finalized d) (bd_proposer_boost_root d)
    (bd_equivocating d).
Definition bd_set_checkpoint_states (v : gmap Checkpoint BeaconState) (d : BeaconDB) : BeaconDB :=
  mkBeaconDB
    (bd_slot_index d) (bd_state_root_index d) (bd_parent_index d) (bd_block d) (bd_state d)
    (bd_timeliness d) (bd_unrealized_justifications d) (bd_canonical d) (bd_messages d) v (bd_time d)
    (bd_genesis_time d) (bd_justified d) (bd_previous_justified d) (bd_finalized d)
    (bd_unrealized_justified d) (bd_unrealized_finalized d) (bd_proposer_boost_root d)
    (bd_equivocating d).
Definition bd_set_time (v : option Z) (d : BeaconDB) : BeaconDB :=
  mkBeaconDB
    (bd_slot_index d) (bd_state_root_index d) (bd_parent_index d) (bd_block d) (bd_state d)
    (bd_timeliness d) (bd_unrealized_justifications d) (bd_canonical d) (bd_messages d)
    (bd_checkpoint_states d) v (bd_genesis_time d) (bd_justified d) (bd_previous_justified d)
    (bd_finalized d) (bd_unrealized_justified d) (bd_unrealized_finalized d) (bd_proposer_boost_root d)
    (bd_equivocating d).
Definition bd_set_genesis_time (v : option Z) (d : BeaconDB) : BeaconDB :=
  mkBeaconDB
    (bd_slot_index d) (bd_state_root_index d) (bd_parent_index d) (bd_block d) (bd_state d)
    (bd_timeliness d) (bd_unrealized_justifications d) (bd_canonical d) (bd_messages d)
    (bd_checkpoint_states d) (bd_time d) v (bd_justified d) (bd_previous_justified d) (bd_finalized d)
    (bd_unrealized_justified d) (bd_unrealized_finalized d) (bd_proposer_boost_root d)
    (bd_equivocating d).
Definition bd_set_justified (v : option Checkpoint) (d : BeaconDB) : BeaconDB :=
  mkBeaconDB
    (bd_slot_index d) (bd_state_root_index d) (bd_parent_index d) (bd_block d) (bd_state d)
    (bd_timeliness d) (bd_unrealized_justifications d) (bd_canonical d) (bd_messages d)
    (bd_checkpoint_states d) (bd_time d) (bd_genesis_time d) v (bd_previous_justified d)
    (bd_finalized d) (bd_unrealized_justified d) (bd_unrealized_finalized d) (bd_proposer_boost_root d)
    (bd_equivocating d).
Definition bd_set_previous_justified (v : option Checkpoint) (d : BeaconDB) : BeaconDB :=
  mkBeaconDB
    (bd_slot_index d) (bd_state_root_index d) (bd_parent_index d) (bd_block d) (bd_state d)
    (bd_timeliness d) (bd_unrealized_justifications d) (bd_canonical d) (bd_messages d)
    (bd_checkpoint_states d) (bd_time d) (bd_genesis_time d) (bd_justified d) v (bd_finalized d)
    (bd_unrealized_justified d) (bd_unrealized_finalized d) (bd_proposer_boost_root d)
    (bd_equivocating d).
Definition bd_set_finalized (v : option Checkpoint) (d : BeaconDB) : BeaconDB :=
  mkBeaconDB
    (bd_slot_index d) (bd_state_root_index d) (bd_parent_index d) (bd_block d) (bd_state d)
    (bd_timeliness d) (bd_unrealized_justifications d) (bd_canonical d) (bd_messages d)
    (bd_checkpoint_states d) (bd_time d) (bd_genesis_time d) (bd_justified d) (bd_previous_justified d)
    v (bd_unrealized_justified d) (bd_unrealized_finalized d) (bd_proposer_boost_root d)
    (bd_equivocating d).
Definition bd_set_unrealized_justified (v : option Checkpoint) (d : BeaconDB) : BeaconDB :=
  mkBeaconDB
    (bd_slot_index d) (bd_state_root_index d) (bd_parent_index d) (bd_block d) (bd_state d)
    (bd_timeliness d) (bd_unrealized_justifications d) (bd_canonical d) (bd_messages d)
    (bd_checkpoint_states d) (bd_time d) (bd_genesis_time d) (bd_justified d) (bd_previous_justified d)
    (bd_finalized d) v (bd_unrealized_finalized d) (bd_proposer_boost_root d) (bd_equivocating d).
Definition bd_set_unrealized_finalized (v : option Checkpoint) (d : BeaconDB) : BeaconDB :=
  mkBeaconDB
    (bd_slot_index d) (bd_state_root_index d) (bd_parent_index d) (bd_block d) (bd_state d)
    (bd_timeliness d) (bd_unrealized_justifications d) (bd_canonical d) (bd_messages d)
    (bd_checkpoint_states d) (bd_time d) (bd_genesis_time d) (bd_justified d) (bd_previous_justified d)
    (bd_finalized d) (bd_unrealized_justified d) v (bd_proposer_boost_root d) (bd_equivocating d).
Definition bd_set_proposer_boost_root (v : option B256) (d : BeaconDB) : BeaconDB :=
  mkBeaconDB
    (bd_slot_index d) (bd_state_root_index d) (bd_parent_index d) (bd_block d) (bd_state d)
    (bd_timeliness d) (bd_unrealized_justifications d) (bd_canonical d) (bd_messages d)
    (bd_checkpoint_states d) (bd_time d) (bd_genesis_time d) (bd_justified d) (bd_previous_justified d)
    (bd_finalized d) (bd_unrealized_justified d) (bd_unrealized_finalized d) v (bd_equivocating d).
Definition bd_set_equivocating (v : option (gset Z)) (d : BeaconDB) : BeaconDB :=
  mkBeaconDB
    (bd_slot_index d) (bd_state_root_index d) (bd_parent_index d) (bd_block d) (bd_state d)
    (bd_timeliness d) (bd_unrealized_justifications d) (bd_canonical d) (bd_messages d)
    (bd_checkpoint_states d) (bd_time d) (bd_genesis_time d) (bd_justified d) (bd_previous_justified d)
    (bd_finalized d) (bd_unrealized_justified d) (bd_unrealized_finalized d) (bd_proposer_boost_root d)
    v.

(** [REDBField::get]. *)
Definition field {A} (o : option A) : res anyhow A := ok_or o "Field not initilized"%string.

(** ** Blocks *)

Definition slot_and_parent_root (d : BeaconDB) (root : B256) : option (Z * B256) :=
  (fun block => (b_slot (sb_message block), b_parent_root (sb_message block))) <$> rd_get (bd_block d) root.

(** [BeaconBlockTable::insert]: the block and its index entries in one transaction. *)
Definition block_insert (root : B256) (block : SignedBeaconBlock) (d : BeaconDB) : BeaconDB :=
  let m := sb_message block in
  bd_set_block (rd_insert root block (bd_block d))
    (bd_set_parent_index (mm_insert (b_parent_root m) root (bd_parent_index d))
       (bd_set_state_root_index (rd_insert (b_state_root m) root (bd_state_root_index d))
          (bd_set_slot_index (rd_insert (b_slot m) root (bd_slot_index d)) d))).

(** ** Checkpoints *)

Record CheckpointWrites : Type := mkCheckpointWrites {
  cw_justified : option Checkpoint;
  cw_previous_justified : option Checkpoint;
  cw_finalized : option Checkpoint;
  cw_unrealized_justified : option Checkpoint;
  cw_unrealized_finalized : option Checkpoint;
}.
#[global] Instance CheckpointWrites_eq_dec : EqDecision CheckpointWrites.
Proof. solve_decision. Defined.

Definition writes_is_empty (w : CheckpointWrites) : bool :=
  bool_decide (w = mkCheckpointWrites None None None None None).

Definition write_field {A} (v : option A) (set : option A -> BeaconDB -> BeaconDB) (d : BeaconDB) : BeaconDB :=
  match v with Some a => set (Some a) d | None => d end.
Definition write_checkpoints (w : CheckpointWrites) (d : BeaconDB) : BeaconDB :=
  write_field (cw_unrealized_finalized w) bd_set_unrealized_finalized
    (write_field (cw_unrealized_justified w) bd_set_unrealized_justified
       (write_field (cw_finalized w) bd_set_finalized
          (write_field (cw_previous_justified w) bd_set_previous_justified
             (write_field (cw_justified w) bd_set_justified d)))).

(** ** The finalized chain by slot *)

Fixpoint record_finalized_loop (fuel : nat) (blocks : Table B256 SignedBeaconBlock)
    (canonical : Table Z B256) (root : B256) : res anyhow (Table Z B256) :=
  match rd_get blocks root, fuel with
  | None, _ => Ok canonical
  | Some _, O => NoFuel
  | Some block, S fuel' =>
      let s := b_slot (sb_message block) in
      if bool_decide (rd_get canonical s = Some root) then Ok canonical
      else
        let canonical := rd_insert s root canonical in
        if s =? 0 then Ok canonical
        else
          let parent := b_parent_root (sb_message block) in
          match rd_get blocks parent with
          | Some parent_block =>
              if s <=? b_slot (sb_message parent_block) then Err "Non-descending canonical ancestry"%string
              else record_finalized_loop fuel' blocks canonical parent
          | None => record_finalized_loop fuel' blocks canonical parent
          end
  end.

(** Slots decrease on the way, so the slot of the first block bounds the rounds. *)
Definition slot_fuel (blocks : Table B256 SignedBeaconBlock) (root : B256) : nat :=
  match rd_get blocks root with
  | Some block => S (Z.to_nat (b_slot (sb_message block)))
  | None => 0
  end.
Definition record_finalized (root : B256) (d : BeaconDB) : res anyhow BeaconDB :=
  canonical ← record_finalized_loop (slot_fuel (bd_block d) root) (bd_block d) (bd_canonical d) root;
  Ok (bd_set_canonical canonical d).

Definition record_finalized_opt (root : option Checkpoint) (d : BeaconDB) : res anyhow BeaconDB :=
  match root with Some finalized => record_finalized (cp_root finalized) d | None => Ok d end.

(** A transaction: the changes of [f], or none. *)
Definition transaction (f : BeaconDB -> res anyhow BeaconDB) : M BeaconDB anyhow unit := fun d =>
  match f d with
  | Ok d' => (d', Ok tt)
  | Err e => (d, Err e)
  | Panic => (d, Panic)
  | NoFuel => (d, NoFuel)
  end.

Definition commit_checkpoints (w : CheckpointWrites) : M BeaconDB anyhow unit :=
  if writes_is_empty w then mret tt
  else transaction (fun d => record_finalized_opt (cw_finalized w) (write_checkpoints w d)).

(** ** Block import *)

Record ForkChoiceRecord : Type := mkForkChoiceRecord {
  fr_is_timely : bool;
  fr_proposer_boost_root : option B256;
  fr_unrealized_justification : Checkpoint;
  fr_checkpoints : CheckpointWrites;
}.
Record BlockImportData : Type := mkBlockImportData {
  bi_block_root : B256;
  bi_block : SignedBeaconBlock;
  bi_state : BeaconState;
  bi_record : ForkChoiceRecord;
}.

Definition import_rows (root : B256) (block : SignedBeaconBlock) (record : ForkChoiceRecord) (d : BeaconDB) : BeaconDB :=
  let d := block_insert root block d in
  let d := bd_set_timeliness (rd_insert root (fr_is_timely record) (bd_timeliness d)) d in
  let d := bd_set_unrealized_justifications
             (rd_insert root (fr_unrealized_justification record) (bd_unrealized_justifications d)) d in
  let d := write_field (fr_proposer_boost_root record) bd_set_proposer_boost_root d in
  write_checkpoints (fr_checkpoints record) d.

Definition commit_block_import_transaction (root : B256) (block : SignedBeaconBlock) (record : ForkChoiceRecord) :
    M BeaconDB anyhow unit :=
  transaction (fun d => record_finalized_opt (cw_finalized (fr_checkpoints record)) (import_rows root block record d)).

(** The storage is open to writes: always without a cache. *)
Definition accept_writes (d : BeaconDB) : res anyhow unit :=
  match lt_pending (bd_messages d) with
  | Some _ => ensure (lt_accepting (bd_messages d)) "beacon storage is shutting down"%string
  | None => Ok tt
  end.

(** The state is stored before the transaction and removed again if that fails. *)
Definition commit_block_import (import : BlockImportData) : M BeaconDB anyhow unit :=
  reads accept_writes;;
  commit_block_import_transaction (bi_block_root import) (bi_block import) (bi_record import);;
  modify (fun d => bd_set_state (rd_insert (bi_block_root import) (bi_state import) (bd_state d)) d).

(** ** Checkpoint states *)

Section checkpoint_states.
Context {H : Sha256} {F : CandidateFuel} {HO : HashOrder} {SV : SszVec}.
Context {R : Roots} {B : Bls} {N : BeaconNetworkSpec}.

(** The state of the checkpoint's block, advanced to the checkpoint's epoch. *)
Definition build_checkpoint_state (d : BeaconDB) (checkpoint : Checkpoint) : res anyhow (option BeaconState) :=
  match rd_get (bd_state d) (cp_root checkpoint) with
  | None => Ok None
  | Some block_state =>
      let epoch_start_slot := compute_start_slot_at_epoch (cp_epoch checkpoint) in
      if slot block_state <? epoch_start_slot
      then let '(state, r) := process_slots epoch_start_slot block_state in r;; Ok (Some state)
      else Ok (Some block_state)
  end.

Definition in_memory (d : BeaconDB) (checkpoint : Checkpoint) : option BeaconState :=
  bd_checkpoint_states d !! checkpoint.

(** What [get_shared] answers, and the answer with the state it leaves in memory. *)
Definition checkpoint_state (d : BeaconDB) (checkpoint : Checkpoint) : res anyhow (option BeaconState) :=
  match in_memory d checkpoint with
  | Some state => Ok (Some state)
  | None => build_checkpoint_state d checkpoint
  end.

Definition cache_state (checkpoint : Checkpoint) (state : BeaconState) (d : BeaconDB) : BeaconDB :=
  bd_set_checkpoint_states (<[checkpoint := state]> (bd_checkpoint_states d)) d.

Definition get_shared (checkpoint : Checkpoint) : M BeaconDB anyhow (option BeaconState) := fun d =>
  match in_memory d checkpoint with
  | Some state => (d, Ok (Some state))
  | None => match build_checkpoint_state d checkpoint with
            | Ok (Some state) => (cache_state checkpoint state d, Ok (Some state))
            | r => (d, r)
            end
  end.

Definition prune_before (epoch : Z) (d : BeaconDB) : BeaconDB :=
  bd_set_checkpoint_states
    (map_retain (fun checkpoint _ => negb (cp_epoch checkpoint <? epoch)) (bd_checkpoint_states d)) d.
End checkpoint_states.

(** ** Ranges of the canonical chain *)

(** The walk from [head] down to the latest finalized block: the roots on the way that are
    in the range, and whether it is reached. *)
Fixpoint head_ancestry (fuel : nat) (blocks : Table B256 SignedBeaconBlock) (tip : option (Z * B256))
    (start end_ : Z) (head : B256) (ancestry : list (Z * B256)) : res anyhow (bool * list (Z * B256)) :=
  match rd_get blocks head, fuel with
  | None, _ => Ok (bool_decide (tip = None), ancestry)
  | Some _, O => NoFuel
  | Some block, S fuel' =>
      let s := b_slot (sb_message block) in
      let below := match tip with Some (tip_slot, _) => s <=? tip_slot | None => false end in
      if below then Ok (match tip with Some (_, tip_root) => bool_decide (head = tip_root) | None => false end, ancestry)
      else
        let ancestry := if (start <=? s) && (s <? end_) then ancestry ++ [(s, head)] else ancestry in
        if s =? 0 then Ok (true, ancestry)
        else
          let parent := b_parent_root (sb_message block) in
          match rd_get blocks parent with
          | Some parent_block =>
              if s <=? b_slot (sb_message parent_block) then Err "Non-descending head ancestry"%string
              else head_ancestry fuel' blocks tip start end_ parent ancestry
          | None => head_ancestry fuel' blocks tip start end_ parent ancestry
          end
  end.

(** The result of a [BTreeMap]: by slot, the later entry for a slot wins. *)
Definition slot_leb (a b : Z * B256) : bool := a.1 <=? b.1.
Definition by_slot (m : gmap Z B256) : list (Z * B256) := sort_by slot_leb (map_to_list m).

Definition canonical_roots_in_range (d : BeaconDB) (head : B256) (start end_ : Z) : res anyhow (list (Z * B256)) :=
  if end_ <=? start then Ok []
  else
    let result : gmap Z B256 :=
      list_to_map (filter (fun sr => start <= sr.1 < end_) (rd_iter (bd_canonical d))) in
    let tip := rd_last (bd_canonical d) in
    r ← head_ancestry (slot_fuel (bd_block d) head) (bd_block d) tip start end_ head [];
    let result := if (r.1 : bool) then foldl (fun m sr => <[sr.1 := sr.2]> m) result r.2 else result in
    Ok (by_slot result).

Definition canonical_root_before (d : BeaconDB) (s : Z) : option B256 :=
  snd <$> max_by slot_leb (filter (fun sr => sr.1 < s) (rd_iter (bd_canonical d))).
End db.
