(* ===== verification/DataAvailability.v ===== *)
(** * Data availability

    [crates/common/data_availability/src/{pending,checker}.rs]: the blocks that wait for
    their data columns, and the columns that came before their block.  A block is handed
    out once it is there with every required column, in whatever order they came. *)

From stdpp Require Import strings.
From S2P Require Import Prelude Bytes Shuffling BeaconTypes.

Definition NUMBER_OF_COLUMNS : Z := 128.

Section checker.
Context {State : Type} {HO : HashOrder}.

Record PendingBlock : Type := mkPendingBlock { pb_signed_block : SignedBeaconBlock; pb_post_state : State }.
Record PendingAvailability : Type := mkPendingAvailability {
  pa_pending_block : option PendingBlock;
  pa_received_columns : gset Z;
  pa_slot : Z;
}.
Definition pa_default : PendingAvailability := mkPendingAvailability None ∅ 0.

Inductive AvailabilityEntryStatus : Type := Absent | ColumnsOnly | StatusPendingBlock | Complete.

Record DataAvailabilityChecker : Type := mkDataAvailabilityChecker {
  da_entries : gmap B256 PendingAvailability;
  da_required_columns : gset Z;
}.
Definition da_set_entries (v : gmap B256 PendingAvailability) (c : DataAvailabilityChecker) : DataAvailabilityChecker :=
  mkDataAvailabilityChecker v (da_required_columns c).

Definition columns_ok (required : gset Z) : bool :=
  negb (bool_decide (required = ∅)) && bool_decide (set_Forall (fun index => index < NUMBER_OF_COLUMNS) required).

(** The assertions panic. *)
Definition da_new (required : gset Z) : res anyhow DataAvailabilityChecker :=
  if columns_ok required then Ok (mkDataAvailabilityChecker ∅ required) else Panic.
Definition supernode : res anyhow DataAvailabilityChecker := da_new (list_to_set (range 0 NUMBER_OF_COLUMNS)).
Definition set_required_columns (required : gset Z) (c : DataAvailabilityChecker) : res anyhow DataAvailabilityChecker :=
  if columns_ok required then Ok (mkDataAvailabilityChecker (da_entries c) required) else Panic.

Definition entry_or_default (c : DataAvailabilityChecker) (root : B256) : PendingAvailability :=
  default pa_default (da_entries c !! root).

Definition insert_pending (root : B256) (block : SignedBeaconBlock) (post_state : State)
    (c : DataAvailabilityChecker) : DataAvailabilityChecker :=
  let entry := entry_or_default c root in
  da_set_entries
    (<[root := mkPendingAvailability (Some (mkPendingBlock block post_state)) (pa_received_columns entry)
                 (b_slot (sb_message block))]> (da_entries c)) c.

Definition add_column (root : B256) (column_index slot : Z) (c : DataAvailabilityChecker) : DataAvailabilityChecker :=
  if bool_decide (column_index ∉ da_required_columns c) then c
  else
    let entry := entry_or_default c root in
    let slot := if bool_decide (pa_pending_block entry = None) && bool_decide (pa_received_columns entry = ∅)
                then slot else pa_slot entry in
    da_set_entries
      (<[root := mkPendingAvailability (pa_pending_block entry) ({[ column_index ]} ∪ pa_received_columns entry) slot]>
         (da_entries c)) c.

Definition da_prune (cutoff_slot : Z) (c : DataAvailabilityChecker) : DataAvailabilityChecker * Z :=
  let entries := map_retain (fun _ entry => cutoff_slot <=? pa_slot entry) (da_entries c) in
  (da_set_entries entries c, Z.of_nat (size (da_entries c)) - Z.of_nat (size entries)).

Definition da_remove (root : B256) (c : DataAvailabilityChecker) : DataAvailabilityChecker * option PendingAvailability :=
  (da_set_entries (delete root (da_entries c)) c, da_entries c !! root).

Definition is_complete (c : DataAvailabilityChecker) (entry : PendingAvailability) : bool :=
  match pa_pending_block entry with
  | None => false
  | Some pending_block =>
      if bool_decide (blob_kzg_commitments (b_body (sb_message (pb_signed_block pending_block))) = []) then true
      else bool_decide (da_required_columns c ⊆ pa_received_columns entry)
  end.

Definition status (c : DataAvailabilityChecker) (root : B256) : AvailabilityEntryStatus :=
  match da_entries c !! root with
  | None => Absent
  | Some entry =>
      if is_complete c entry then Complete
      else match pa_pending_block entry with Some _ => StatusPendingBlock | None => ColumnsOnly end
  end.

Definition pending_block (c : DataAvailabilityChecker) (root : B256) : option PendingBlock :=
  entry ← da_entries c !! root; pa_pending_block entry.

Definition missing_columns (c : DataAvailabilityChecker) (root : B256) : list Z :=
  match da_entries c !! root with
  | None => []
  | Some entry => sort_by Z.leb (hs_iter (da_required_columns c ∖ pa_received_columns entry))
  end.
Definition missing_columns_or_all_required (c : DataAvailabilityChecker) (root : B256) : gset Z :=
  match da_entries c !! root with
  | Some entry => da_required_columns c ∖ pa_received_columns entry
  | None => da_required_columns c
  end.
Definition received_columns (c : DataAvailabilityChecker) (root : B256) : list Z :=
  match da_entries c !! root with
  | None => []
  | Some entry => sort_by Z.leb (hs_iter (pa_received_columns entry))
  end.

Definition can_reconstruct (c : DataAvailabilityChecker) (root : B256) : bool :=
  match da_entries c !! root with
  | None => false
  | Some entry => bool_decide (is_Some (pa_pending_block entry)) && negb (is_complete c entry)
      && (NUMBER_OF_COLUMNS / 2 <=? Z.of_nat (size (pa_received_columns entry)))
  end.
Definition reconstructable_block_roots (c : DataAvailabilityChecker) : list B256 :=
  filter (fun root => can_reconstruct c root = true) (hm_iter (da_entries c)).*1.
Definition pending_block_roots (c : DataAvailabilityChecker) : list B256 :=
  omap (fun re : B256 * PendingAvailability => (fun _ => re.1) <$> pa_pending_block re.2) (hm_iter (da_entries c)).

Definition take_if_complete (root : B256) (c : DataAvailabilityChecker) : DataAvailabilityChecker * option PendingBlock :=
  match da_entries c !! root with
  | None => (c, None)
  | Some entry =>
      if negb (is_complete c entry) then (c, None)
      else (da_set_entries (delete root (da_entries c)) c, pa_pending_block entry)
  end.

(** ** Whatever the order *)

Inductive Arrival : Type :=
| BlockArrives (root : B256) (block : SignedBeaconBlock) (post_state : State)
| ColumnArrives (root : B256) (column_index slot : Z).

Definition arrive (c : DataAvailabilityChecker) (a : Arrival) : DataAvailabilityChecker :=
  match a with
  | BlockArrives root block post_state => insert_pending root block post_state c
  | ColumnArrives root column_index slot => add_column root column_index slot c
  end.

(** What came for a root: the last block, and the required columns. *)
Definition block_of (root : B256) (l : list Arrival) : option PendingBlock :=
  last (omap (fun a => match a with
                       | BlockArrives r block post_state => if decide (r = root) then Some (mkPendingBlock block post_state) else None
                       | ColumnArrives _ _ _ => None
                       end) l).
Definition columns_of (root : B256) (l : list Arrival) : gset Z :=
  list_to_set (omap (fun a => match a with
                              | ColumnArrives r column_index _ => if decide (r = root) then Some column_index else None
                              | BlockArrives _ _ _ => None
                              end) l).

Lemma arrive_required l : forall c, da_required_columns (foldl arrive c l) = da_required_columns c.
Proof.
  induction l as [|a l IH]; intros c; [done|]. cbn. rewrite IH. destruct a; cbn; [done|].
  unfold add_column. by case_bool_decide.
Qed.

Lemma columns_of_snoc root l a : columns_of root (l ++ [a]) =
  columns_of root l ∪ match a with ColumnArrives r i _ => if decide (r = root) then {[ i ]} else ∅ | _ => ∅ end.
Proof.
  unfold columns_of. rewrite omap_app, list_to_set_app_L. f_equal. destruct a; cbn; [done|]. case_decide; cbn; set_solver.
Qed.
Lemma block_of_snoc root l a : block_of root (l ++ [a]) =
  match a with BlockArrives r b s => if decide (r = root) then Some (mkPendingBlock b s) else block_of root l | _ => block_of root l end.
Proof.
  unfold block_of. rewrite omap_app. destruct a; cbn; [|by rewrite app_nil_r].
  case_decide; cbn; [by rewrite last_snoc|by rewrite app_nil_r].
Qed.

Lemma arrivals_entry root l c : da_entries c !! root = None ->
  pa_pending_block (entry_or_default (foldl arrive c l) root) = block_of root l /\
  pa_received_columns (entry_or_default (foldl arrive c l) root) = columns_of root l ∩ da_required_columns c.
Proof.
  intros Hc. induction l as [|a l IH] using rev_ind.
  { unfold entry_or_default. cbn. rewrite Hc. cbn. split; [done|set_solver]. }
  rewrite foldl_app. cbn. rewrite block_of_snoc, columns_of_snoc. pose proof (arrive_required l c) as Hr.
  destruct IH as [IH1 IH2]. destruct a as [r b s|r i s]; cbn.
  - unfold insert_pending, entry_or_default in *. cbn. destruct (decide (r = root)) as [->|Hne].
    + rewrite lookup_insert_eq. cbn. rewrite IH2. split; [done|set_solver].
    + rewrite lookup_insert_ne by done. rewrite IH1, IH2. split; [done|set_solver].
  - unfold add_column. rewrite Hr. case_bool_decide as Hi.
    + rewrite IH1, IH2. split; [done|]. case_decide; set_solver.
    + unfold entry_or_default in *. cbn. destruct (decide (r = root)) as [->|Hne].
      * rewrite lookup_insert_eq. cbn. rewrite IH1, IH2. split; [done|]. set_solver.
      * rewrite lookup_insert_ne by done. rewrite IH1, IH2. split; [done|set_solver].
Qed.

Lemma take_complete root l c : da_entries c !! root = None ->
  (take_if_complete root (foldl arrive c l)).2 =
  match block_of root l with
  | Some pb => if decide (blob_kzg_commitments (b_body (sb_message (pb_signed_block pb))) = [] \/
                         da_required_columns c ⊆ columns_of root l) then Some pb else None
  | None => None
  end.
Proof.
  intros Hc. destruct (arrivals_entry root l c Hc) as [H1 H2]. pose proof (arrive_required l c) as Hr.
  unfold take_if_complete, entry_or_default in *. destruct (da_entries (foldl arrive c l) !! root) as [entry|]; cbn in *.
  - unfold is_complete. rewrite H1, H2, Hr. destruct (block_of root l) as [pb|]; [|done].
    case_bool_decide as Hb; [rewrite decide_True by auto; done|]. case_bool_decide as Hs; cbn.
    + rewrite decide_True; [done|]. right. set_solver.
    + rewrite decide_False; [done|]. intros [?|?]; [done|]. apply Hs. set_solver.
  - by rewrite <-H1.
Qed.

(** A block is handed out once. *)
Lemma take_once root c c' pb : take_if_complete root c = (c', Some pb) ->
  status c root = Complete /\ status c' root = Absent /\ forall r, r <> root -> da_entries c' !! r = da_entries c !! r.
Proof.
  unfold take_if_complete, status. destruct (da_entries c !! root) as [entry|]; [|done].
  destruct (is_complete c entry); [|done]. cbn. intros [= <- _]. cbn. rewrite lookup_delete_eq.
  split_and!; [done|done|]. intros r Hr. by rewrite lookup_delete_ne.
Qed.
End checker.
