(* ===== verification/OperationPool.v ===== *)
(** * The operation pool

    [crates/common/operation_pool/src/lib.rs]: what waits to be put into a block.  A hash
    set of operations is a list without duplicates.  Aggregating signatures is the work of
    [blst] and an argument. *)

From stdpp Require Import strings.
From S2P Require Import Prelude Bytes Shuffling Merkle BeaconTypes BeaconAccess.

(** [BLSSignature::aggregate] of [blst]. *)
Class BlsAggregate : Type := aggregate_signatures : list BLSSignature -> option BLSSignature.

Definition MAX_ATTESTATIONS_ELECTRA : nat := 8.
Definition SYNC_COMMITTEE_SUBNET_COUNT : nat := 4.
Definition SYNC_SUBCOMMITTEE_SIZE : nat := 128.

Record SyncContribution : Type := mkSyncContribution { sc_aggregation_bits : list bool; sc_signature : BLSSignature }.
Record ProposerPreparation : Type := mkProposerPreparation { fee_recipient : Address; submission_epoch : Z }.
Record AttestationKey : Type := mkAttestationKey {
  ak_slot : Z;
  ak_attestation_data_root : B256;
  ak_committee_index : Z;
}.
#[global] Instance AttestationKey_eq_dec : EqDecision AttestationKey.
Proof. solve_decision. Defined.
#[global] Instance AttestationKey_countable : Countable AttestationKey.
Proof.
  apply (inj_countable' (fun k => (ak_slot k, ak_attestation_data_root k, ak_committee_index k))
           (fun p => mkAttestationKey p.1.1 p.1.2 p.2)). by intros [].
Defined.
Record SyncAggregateKey : Type := mkSyncAggregateKey { sak_slot : Z; sak_beacon_block_root : B256 }.
#[global] Instance SyncAggregateKey_eq_dec : EqDecision SyncAggregateKey.
Proof. solve_decision. Defined.
#[global] Instance SyncAggregateKey_countable : Countable SyncAggregateKey.
Proof.
  apply (inj_countable' (fun k => (sak_slot k, sak_beacon_block_root k)) (fun p => mkSyncAggregateKey p.1 p.2)). by intros [].
Defined.

#[global] Instance BeaconBlockHeader_eq_dec : EqDecision BeaconBlockHeader.
Proof. solve_decision. Defined.
#[global] Instance SignedBeaconBlockHeader_eq_dec : EqDecision SignedBeaconBlockHeader.
Proof. solve_decision. Defined.
#[global] Instance ProposerSlashing_eq_dec : EqDecision ProposerSlashing.
Proof. solve_decision. Defined.
#[global] Instance IndexedAttestation_eq_dec : EqDecision IndexedAttestation.
Proof. solve_decision. Defined.
#[global] Instance AttesterSlashing_eq_dec : EqDecision AttesterSlashing.
Proof. solve_decision. Defined.
#[global] Instance DepositData_eq_dec : EqDecision DepositData.
Proof. solve_decision. Defined.
#[global] Instance Deposit_eq_dec : EqDecision Deposit.
Proof. solve_decision. Defined.

Record OperationPool : Type := mkOperationPool {
  op_signed_voluntary_exits : gmap Z SignedVoluntaryExit;
  op_signed_bls_to_execution_changes : gmap B256 SignedBLSToExecutionChange;
  op_proposer_preparations : gmap Z ProposerPreparation;
  op_attester_slashings : list AttesterSlashing;
  op_proposer_slashings : list ProposerSlashing;
  op_attestations : gmap AttestationKey (list Attestation);
  op_included_attestation_bits : gmap AttestationKey (gset nat);
  op_sync_contributions : gmap SyncAggregateKey (list (option SyncContribution));
  op_deposits : list Deposit;
}.
Definition op_set_signed_voluntary_exits (v : gmap Z SignedVoluntaryExit) (p : OperationPool) : OperationPool :=
  mkOperationPool
    v (op_signed_bls_to_execution_changes p) (op_proposer_preparations p) (op_attester_slashings p)
    (op_proposer_slashings p) (op_attestations p) (op_included_attestation_bits p)
    (op_sync_contributions p) (op_deposits p).
Definition op_set_signed_bls_to_execution_changes (v : gmap B256 SignedBLSToExecutionChange) (p : OperationPool) : OperationPool :=
  mkOperationPool
    (op_signed_voluntary_exits p) v (op_proposer_preparations p) (op_attester_slashings p)
    (op_proposer_slashings p) (op_attestations p) (op_included_attestation_bits p)
    (op_sync_contributions p) (op_deposits p).
Definition op_set_proposer_preparations (v : gmap Z ProposerPreparation) (p : OperationPool) : OperationPool :=
  mkOperationPool
    (op_signed_voluntary_exits p) (op_signed_bls_to_execution_changes p) v (op_attester_slashings p)
    (op_proposer_slashings p) (op_attestations p) (op_included_attestation_bits p)
    (op_sync_contributions p) (op_deposits p).
Definition op_set_attester_slashings (v : list AttesterSlashing) (p : OperationPool) : OperationPool :=
  mkOperationPool
    (op_signed_voluntary_exits p) (op_signed_bls_to_execution_changes p) (op_proposer_preparations p) v
    (op_proposer_slashings p) (op_attestations p) (op_included_attestation_bits p)
    (op_sync_contributions p) (op_deposits p).
Definition op_set_proposer_slashings (v : list ProposerSlashing) (p : OperationPool) : OperationPool :=
  mkOperationPool
    (op_signed_voluntary_exits p) (op_signed_bls_to_execution_changes p) (op_proposer_preparations p)
    (op_attester_slashings p) v (op_attestations p) (op_included_attestation_bits p)
    (op_sync_contributions p) (op_deposits p).
Definition op_set_attestations (v : gmap AttestationKey (list Attestation)) (p : OperationPool) : OperationPool :=
  mkOperationPool
    (op_signed_voluntary_exits p) (op_signed_bls_to_execution_changes p) (op_proposer_preparations p)
    (op_attester_slashings p) (op_proposer_slashings p) v (op_included_attestation_bits p)
    (op_sync_contributions p) (op_deposits p).
Definition op_set_included_attestation_bits (v : gmap AttestationKey (gset nat)) (p : OperationPool) : OperationPool :=
  mkOperationPool
    (op_signed_voluntary_exits p) (op_signed_bls_to_execution_changes p) (op_proposer_preparations p)
    (op_attester_slashings p) (op_proposer_slashings p) (op_attestations p) v (op_sync_contributions p)
    (op_deposits p).
Definition op_set_sync_contributions (v : gmap SyncAggregateKey (list (option SyncContribution))) (p : OperationPool) : OperationPool :=
  mkOperationPool
    (op_signed_voluntary_exits p) (op_signed_bls_to_execution_changes p) (op_proposer_preparations p)
    (op_attester_slashings p) (op_proposer_slashings p) (op_attestations p)
    (op_included_attestation_bits p) v (op_deposits p).
Definition op_set_deposits (v : list Deposit) (p : OperationPool) : OperationPool :=
  mkOperationPool
    (op_signed_voluntary_exits p) (op_signed_bls_to_execution_changes p) (op_proposer_preparations p)
    (op_attester_slashings p) (op_proposer_slashings p) (op_attestations p)
    (op_included_attestation_bits p) (op_sync_contributions p) v.
Definition pool_default : OperationPool := mkOperationPool ∅ ∅ ∅ [] [] ∅ ∅ ∅ [].

(** [HashSet::insert]. *)
Definition set_insert `{EqDecision A} (a : A) (l : list A) : list A := if decide (a ∈ l) then l else a :: l.

(** [num_set_bits], and the positions of the set bits. *)
Definition num_set_bits (bits : list bool) : nat := length (filter (fun b => b = true) bits).

Section pool.
Context {SV : SszVec} {R : Roots} {BA : BlsAggregate} {HO : HashOrder} {TH : TreeHash SignedBLSToExecutionChange}.

(** ** Exits, credential changes, preparations, slashings and deposits *)

Definition insert_signed_voluntary_exit (e : SignedVoluntaryExit) (p : OperationPool) : OperationPool :=
  op_set_signed_voluntary_exits (<[ve_validator_index (sve_message e) := e]> (op_signed_voluntary_exits p)) p.
Definition get_signed_voluntary_exits (p : OperationPool) : list SignedVoluntaryExit :=
  (hm_iter (op_signed_voluntary_exits p)).*2.
(** Indexing the validators panics out of range. *)
Definition clean_signed_voluntary_exits (state : BeaconState) (p : OperationPool) : res anyhow OperationPool :=
  kept ← foldM (fun kept (ie : Z * SignedVoluntaryExit) =>
           v ← index (validators state) (Z.to_nat ie.1);
           Ok (if cp_epoch (finalized_checkpoint state) <=? exit_epoch v then <[ie.1 := ie.2]> kept else kept))
         ∅ (hm_iter (op_signed_voluntary_exits p));
  Ok (op_set_signed_voluntary_exits kept p).

Definition insert_signed_bls_to_execution_change (c : SignedBLSToExecutionChange) (p : OperationPool) : OperationPool :=
  op_set_signed_bls_to_execution_changes (<[tree_hash_root c := c]> (op_signed_bls_to_execution_changes p)) p.
Definition get_signed_bls_to_execution_changes (p : OperationPool) : list SignedBLSToExecutionChange :=
  (hm_iter (op_signed_bls_to_execution_changes p)).*2.
Definition remove_signed_bls_to_execution_change (root : B256) (p : OperationPool) : OperationPool :=
  op_set_signed_bls_to_execution_changes (delete root (op_signed_bls_to_execution_changes p)) p.

Definition insert_proposer_preparation (validator_index : Z) (recipient : Address) (epoch : Z) (p : OperationPool) : OperationPool :=
  op_set_proposer_preparations
    (<[validator_index := mkProposerPreparation recipient epoch]> (op_proposer_preparations p)) p.
Definition get_proposer_preparation (p : OperationPool) (validator_index : Z) : option Address :=
  fee_recipient <$> op_proposer_preparations p !! validator_index.
Definition get_all_proposer_preparations (p : OperationPool) : gmap Z Address := fee_recipient <$> op_proposer_preparations p.
Definition clean_proposer_preparations (current_epoch : Z) (p : OperationPool) : OperationPool :=
  op_set_proposer_preparations
    (map_retain (fun _ preparation => current_epoch <=? (submission_epoch preparation + 2)%u64)
       (op_proposer_preparations p)) p.

Definition insert_attester_slashing (slashing : AttesterSlashing) (p : OperationPool) : OperationPool :=
  op_set_attester_slashings (set_insert slashing (op_attester_slashings p)) p.
Definition insert_proposer_slashing (slashing : ProposerSlashing) (p : OperationPool) : OperationPool :=
  op_set_proposer_slashings (set_insert slashing (op_proposer_slashings p)) p.
Definition insert_deposit (deposit : Deposit) (p : OperationPool) : OperationPool :=
  op_set_deposits (set_insert deposit (op_deposits p)) p.

(** ** Attestations *)

Definition key_of (attestation : Attestation) (committee_index : Z) : AttestationKey :=
  mkAttestationKey (ad_slot (att_data attestation)) (tree_hash_root (att_data attestation)) committee_index.

Definition insert_attestation (attestation : Attestation) (committee_index : Z) (p : OperationPool) : OperationPool :=
  let key := key_of attestation committee_index in
  match op_attestations p !! key with
  | Some attestations => op_set_attestations (<[key := attestations ++ [attestation]]> (op_attestations p)) p
  | None => op_set_attestations (<[key := [attestation]]> (op_attestations p)) p
  end.

Definition get_attestations (p : OperationPool) (s : Z) (committee_index : option Z)
    (attestation_data_root : option B256) : list Attestation :=
  mjoin (omap (fun ka : AttestationKey * list Attestation =>
    let key := ka.1 in
    if negb (ak_slot key =? s) then None
    else if match committee_index with Some c => negb (ak_committee_index key =? c) | None => false end then None
    else if match attestation_data_root with
            | Some r => bool_decide (ak_attestation_data_root key <> r) | None => false end then None
    else Some ka.2) (hm_iter (op_attestations p))).
Definition get_all_attestations (p : OperationPool) : list Attestation :=
  mjoin (hm_iter (op_attestations p)).*2.

Definition set_positions (bits : list bool) : list nat :=
  filter (fun i => default false (bits_get bits i) = true) (seq 0 (length bits)).

Definition clear_bits (bits : list bool) : option (list bool) :=
  foldl (fun acc i => bits ← acc; bits_set bits i false) (Some bits) (seq 0 (length bits)).
Definition set_bits (positions : list nat) (bits : list bool) : option (list bool) :=
  foldl (fun acc i => bits ← acc; bits_set bits i true) (Some bits) positions.

(** What the loop carries: the bits, the positions seen and the signatures. *)
Record Group : Type := mkGroup { g_bits : list bool; g_seen : gset nat; g_signatures : list BLSSignature }.

Definition skips (committee : list bool) (already_included : gset nat) (g : Group) (attestation : Attestation) : bool :=
  let positions := set_positions (aggregation_bits attestation) in
  bool_decide (committee_bits attestation <> committee)
  || bool_decide (positions = [])
  || existsb (fun i => (length (g_bits g) <=? i)%nat) positions
  || existsb (fun i => bool_decide (i ∈ g_seen g)) positions
  || forallb (fun i => bool_decide (i ∈ already_included)) positions.

Definition group_step (committee : list bool) (already_included : gset nat) (acc : option Group)
    (attestation : Attestation) : option Group :=
  g ← acc;
  if skips committee already_included g attestation then Some g
  else
    let positions := set_positions (aggregation_bits attestation) in
    bits ← set_bits positions (g_bits g);
    Some (mkGroup bits (list_to_set positions ∪ g_seen g) (g_signatures g ++ [att_signature attestation])).

Definition aggregate_attestation_group (group : list Attestation) (already_included : gset nat) : option Attestation :=
  match group with
  | [] => None
  | first :: _ =>
      cleared ← clear_bits (aggregation_bits first);
      g ← foldl (group_step (committee_bits first) already_included) (Some (mkGroup cleared ∅ [])) group;
      if bool_decide (g_signatures g = []) then None
      else
        signature ← aggregate_signatures (g_signatures g);
        Some (mkAttestation (g_bits g) (att_data first) signature (committee_bits first))
  end.

(** ** What an aggregate is made of

    The votes of an aggregate are those of the attestations whose signatures are in it,
    each vote once; every one of them brings a vote not yet included, and one that is left
    out for the same committee and with a new vote overlaps those taken. *)
Section aggregate.
Context {SL : SszVecLaws SV}.

Lemma elem_of_set_positions bits i : i ∈ set_positions bits <-> bits !! i = Some true.
Proof.
  unfold set_positions. rewrite list_elem_of_filter, elem_of_seq, bits_get_spec. split.
  - intros [H _]. destruct (bits !! i) as [[]|]; done.
  - intros H. rewrite H. split; [done|]. apply lookup_lt_Some in H. lia.
Qed.

Lemma NoDup_set_positions bits : NoDup (set_positions bits).
Proof. apply NoDup_filter, NoDup_seq. Qed.

Lemma pool_set_bits_spec positions bits : Forall (fun i => (i < length bits)%nat) positions ->
  exists bits', set_bits positions bits = Some bits' /\ length bits' = length bits /\
    forall i, bits' !! i = Some true <-> bits !! i = Some true \/ i ∈ positions.
Proof.
  intros Hp. unfold set_bits. induction positions as [|j positions IH] using rev_ind.
  { exists bits. split_and!; [done|done|]. intros i. split; [auto|]. by intros [?|?%not_elem_of_nil]. }
  apply Forall_app in Hp as [Hp Hj]. apply Forall_cons in Hj as [Hj _]. destruct (IH Hp) as (bits' & E & L & Hb).
  rewrite foldl_app, E. cbn. rewrite bits_set_spec, L. replace (j <? length bits)%nat with true by (symmetry; by apply Nat.ltb_lt).
  eexists. split_and!; [done|by rewrite length_insert|]. intros i. rewrite elem_of_app, list_elem_of_singleton.
  destruct (decide (j = i)) as [->|Hne].
  - rewrite list_lookup_insert_eq by lia. split; auto.
  - rewrite list_lookup_insert_ne by done. rewrite Hb. naive_solver.
Qed.

Lemma clear_bits_spec bits : clear_bits bits = Some (replicate (length bits) false).
Proof.
  unfold clear_bits. enough (forall n, (n <= length bits)%nat ->
    foldl (fun acc i => bits ← acc; bits_set bits i false) (Some bits) (seq 0 n) =
    Some (replicate n false ++ drop n bits)) as H.
  { rewrite (H (length bits)) by lia. by rewrite drop_all, app_nil_r. }
  induction n as [|n IH]; intros Hn; [done|]. rewrite seq_S, foldl_app, IH by lia. cbn. rewrite bits_set_spec.
  rewrite length_app, length_replicate, length_drop.
  replace (n <? n + (length bits - n))%nat with true by (symmetry; apply Nat.ltb_lt; lia). f_equal.
  destruct (lookup_lt_is_Some_2 bits n) as [b Hb]; [lia|]. rewrite (drop_S bits b n Hb).
  rewrite insert_app_r_alt by (by rewrite length_replicate). rewrite length_replicate, Nat.sub_diag. cbn.
  rewrite (cons_middle false), app_assoc. change (false :: replicate n false ++ ?l) with (replicate (S n) false ++ l).
  f_equal. by rewrite replicate_S_end.
Qed.

(** [chosen] makes up the state of the loop. *)
Record made_of (committee : list bool) (included : gset nat) (n : nat) (chosen : list Attestation) (g : Group) : Prop := {
  mo_length : length (g_bits g) = n;
  mo_signatures : g_signatures g = att_signature <$> chosen;
  mo_votes : forall i, g_bits g !! i = Some true <-> exists a, a ∈ chosen /\ i ∈ set_positions (aggregation_bits a);
  mo_seen : forall i, i ∈ g_seen g <-> g_bits g !! i = Some true;
  mo_once : NoDup (mjoin ((fun a => set_positions (aggregation_bits a)) <$> chosen));
  mo_new : forall a, a ∈ chosen -> committee_bits a = committee /\
    exists i, i ∈ set_positions (aggregation_bits a) /\ i ∉ included;
}.

(** An attestation with something new to say for the committee. *)
Definition useful (committee : list bool) (included : gset nat) (n : nat) (a : Attestation) : Prop :=
  committee_bits a = committee /\ (forall i, i ∈ set_positions (aggregation_bits a) -> (i < n)%nat) /\
  exists i, i ∈ set_positions (aggregation_bits a) /\ i ∉ included.

Lemma skips_spec committee included n g a : length (g_bits g) = n ->
  skips committee included g a = false <->
  useful committee included n a /\ forall i, i ∈ set_positions (aggregation_bits a) -> i ∉ g_seen g.
Proof.
  intros Hn. unfold skips, useful. set (ps := set_positions _).
  rewrite !orb_false_iff, !bool_decide_eq_false, Hn.
  assert (existsb (fun i => (n <=? i)%nat) ps = false <-> forall i, i ∈ ps -> (i < n)%nat) as ->.
  { rewrite <-not_true_iff_false, existsb_exists. setoid_rewrite Nat.leb_le. setoid_rewrite <-list_elem_of_In.
    split; [intros H i Hi; destruct (decide (n <= i)%nat); [naive_solver|lia]|intros H (i & Hi & ?); specialize (H i Hi); lia]. }
  assert (existsb (fun i => bool_decide (i ∈ g_seen g)) ps = false <-> forall i, i ∈ ps -> i ∉ g_seen g) as ->.
  { rewrite <-not_true_iff_false, existsb_exists. setoid_rewrite bool_decide_eq_true. setoid_rewrite <-list_elem_of_In. naive_solver. }
  assert (forallb (fun i => bool_decide (i ∈ included)) ps = false <-> exists i, i ∈ ps /\ i ∉ included) as ->.
  { rewrite <-not_true_iff_false, forallb_forall. setoid_rewrite bool_decide_eq_true. setoid_rewrite <-list_elem_of_In.
    split; [|naive_solver]. intros H. destruct (decide (Exists (fun i => i ∉ included) ps)) as [He|He]; [by apply Exists_exists|].
    destruct H. intros i Hi. apply dec_stable. intros Hn'. apply He, Exists_exists. eauto. }
  destruct (decide (committee_bits a = committee)); [|tauto]. split; [tauto|]. intros [(_ & H1 & H2) H3].
  split_and!; [tauto| |done|done|done]. intros E. destruct H2 as (i & Hi & _). rewrite E in Hi. by apply not_elem_of_nil in Hi.
Qed.

Lemma group_step_made committee included n chosen g a : made_of committee included n chosen g ->
  exists chosen' g', group_step committee included (Some g) a = Some g' /\ made_of committee included n chosen' g' /\
    (chosen' = chosen \/ chosen' = chosen ++ [a]) /\ g_seen g ⊆ g_seen g' /\
    (useful committee included n a -> exists i, i ∈ set_positions (aggregation_bits a) /\ i ∈ g_seen g').
Proof.
  intros [Hl Hs Hv Hse Ho Hn]. unfold group_step. cbn. destruct (skips committee included g a) eqn:Esk.
  - exists chosen, g. split_and!; [done|done|by left|done|]. intros Hu.
    apply not_false_iff_true in Esk. rewrite (skips_spec committee included n g a Hl) in Esk.
    destruct (decide (Exists (fun i => i ∈ g_seen g) (set_positions (aggregation_bits a)))) as [He|He].
    + by apply Exists_exists in He.
    + destruct Esk. split; [done|]. intros i Hi Hin. apply He, Exists_exists. eauto.
  - apply (skips_spec committee included n g a Hl) in Esk as [(Hc & Hlt & Hi) Hfresh].
    destruct (pool_set_bits_spec (set_positions (aggregation_bits a)) (g_bits g)) as (bits & -> & L & Hb).
    { apply Forall_forall. intros i Hin. rewrite Hl. by apply Hlt. }
    cbn. exists (chosen ++ [a]). eexists. split; [done|]. split; [|split_and!; [by right|cbn; set_solver|]].
    2: { intros _. destruct Hi as (i & Hi & _). exists i. split; [done|]. cbn. set_solver. }
    split; cbn.
    + by rewrite L.
    + by rewrite fmap_app, Hs.
    + intros i. rewrite Hb, Hv. setoid_rewrite elem_of_app. setoid_rewrite list_elem_of_singleton. naive_solver.
    + intros i. rewrite elem_of_union, elem_of_list_to_set, Hse, Hb. tauto.
    + rewrite fmap_app, join_app. cbn. rewrite app_nil_r. apply NoDup_app. split_and!; [done| |apply NoDup_set_positions].
      intros i Hin Hin'. apply (Hfresh i Hin'). apply Hse, Hv. apply list_elem_of_join in Hin as (l & Hil & Hl').
      apply list_elem_of_fmap in Hl' as (b & -> & Hb'). eauto.
    + intros b [Hin|Hin]%elem_of_app; [by apply Hn|]. apply list_elem_of_singleton in Hin as ->. split; [done|done].
Qed.

Lemma group_made committee included n group : forall chosen g, made_of committee included n chosen g ->
  exists chosen' g', foldl (group_step committee included) (Some g) group = Some g' /\
    made_of committee included n (chosen ++ chosen') g' /\ chosen' `sublist_of` group /\ g_seen g ⊆ g_seen g' /\
    forall a, a ∈ group -> useful committee included n a -> exists i, i ∈ set_positions (aggregation_bits a) /\ i ∈ g_seen g'.
Proof.
  induction group as [|a group IH]; intros chosen g Hm.
  { exists [], g. rewrite app_nil_r. split_and!; [done|done|constructor|done|]. by intros a ?%not_elem_of_nil. }
  destruct (group_step_made committee included n chosen g a Hm) as (c1 & g1 & E1 & M1 & Hc1 & S1 & U1).
  cbn [foldl]. rewrite E1. destruct (IH c1 g1 M1) as (c2 & g2 & E2 & M2 & Hc2 & S2 & U2).
  assert (forall b, b ∈ a :: group -> useful committee included n b ->
    exists i, i ∈ set_positions (aggregation_bits b) /\ i ∈ g_seen g2) as U.
  { intros b [->|Hb]%elem_of_cons Hu; [|by apply U2]. destruct (U1 Hu) as (i & ? & ?). exists i. split; [done|set_solver]. }
  destruct Hc1 as [->| ->].
  - exists c2, g2. split_and!; [done|done|by constructor|set_solver|done].
  - exists (a :: c2), g2. rewrite (cons_middle a), app_assoc. split_and!; [done|done|by constructor|set_solver|done].
Qed.

Lemma aggregate_group first rest included : let group := first :: rest in
  exists chosen g, made_of (committee_bits first) included (length (aggregation_bits first)) chosen g /\
    chosen `sublist_of` group /\
    (forall a, a ∈ group -> useful (committee_bits first) included (length (aggregation_bits first)) a ->
       exists b i, b ∈ chosen /\ i ∈ set_positions (aggregation_bits a) /\ i ∈ set_positions (aggregation_bits b)) /\
    aggregate_attestation_group group included =
      if decide (chosen = []) then None
      else signature ← aggregate_signatures (att_signature <$> chosen);
           Some (mkAttestation (g_bits g) (att_data first) signature (committee_bits first)).
Proof.
  intros group. unfold aggregate_attestation_group, group. rewrite clear_bits_spec. cbn [mbind option_bind].
  set (n := length (aggregation_bits first)).
  assert (made_of (committee_bits first) included n [] (mkGroup (replicate n false) ∅ [])) as M0.
  { split; cbn; [apply length_replicate|done| | |constructor|by intros a ?%not_elem_of_nil].
    - intros i. rewrite lookup_replicate. split; [by intros [? _]|]. intros (a & ?%not_elem_of_nil & _). done.
    - intros i. rewrite lookup_replicate. split; [set_solver|by intros [? _]]. }
  destruct (group_made (committee_bits first) included n (first :: rest) [] _ M0) as (chosen & g & E & M & Hsub & _ & U).
  exists chosen, g. rewrite app_nil_l in M. split_and!; [done|done| |].
  - intros a Ha Hu. destruct (U a Ha Hu) as (i & Hi & Hs). apply (mo_seen _ _ _ _ _ M), (mo_votes _ _ _ _ _ M) in Hs as (b & Hb & Hi').
    eauto.
  - rewrite E. cbn. rewrite (mo_signatures _ _ _ _ _ M). destruct chosen as [|c chosen]; cbn; [done|].
    by rewrite decide_False.
Qed.
End aggregate.

(** [sort_by_key] on [Reverse]: the most votes first, the others as they were. *)
Definition votes_leb (a b : Attestation) : bool :=
  (num_set_bits (aggregation_bits b) <=? num_set_bits (aggregation_bits a))%nat.
Definition get_aggregate_attestation (p : OperationPool) (s committee_index : Z) (root : B256) : option Attestation :=
  group ← op_attestations p !! mkAttestationKey s root committee_index;
  aggregate_attestation_group (sort_by votes_leb group) ∅.

Definition source_is_justified (data : AttestationData) (current_epoch : Z) (current_justified previous_justified : Checkpoint) : bool :=
  let justified := if cp_epoch (ad_target data) =? current_epoch then current_justified else previous_justified in
  bool_decide (ad_source data = justified).

Definition slot_desc (a b : AttestationKey) : bool := ak_slot b <=? ak_slot a.
Definition get_attestations_for_block (p : OperationPool) (state : BeaconState) : list Attestation :=
  let current_epoch := get_current_epoch state in
  let previous_epoch := get_previous_epoch state in
  let keys := filter (fun key =>
      let target_epoch := compute_epoch_at_slot (ak_slot key) in
      (((target_epoch =? current_epoch) || (target_epoch =? previous_epoch))
       && ((ak_slot key + MIN_ATTESTATION_INCLUSION_DELAY)%u64 <=? slot state)) = true)
    (hm_iter (op_attestations p)).*1 in
  let keys := sort_by slot_desc keys in
  let keys := filter (fun key =>
      match head (default [] (op_attestations p !! key)) with
      | Some attestation => source_is_justified (att_data attestation) current_epoch
                              (current_justified_checkpoint state) (previous_justified_checkpoint state)
      | None => false
      end = true) keys in
  take MAX_ATTESTATIONS_ELECTRA
    (omap (fun key => aggregate_attestation_group (default [] (op_attestations p !! key))
                        (default ∅ (op_included_attestation_bits p !! key))) keys).

Definition mark_one_included (included : gmap AttestationKey (gset nat)) (attestation : Attestation) :
    gmap AttestationKey (gset nat) :=
  match get_committee_indices (committee_bits attestation) with
  | [committee_index] =>
      let key := key_of attestation committee_index in
      <[key := default ∅ (included !! key) ∪ list_to_set (set_positions (aggregation_bits attestation))]> included
  | _ => included
  end.
Definition mark_attestations_included (l : list Attestation) (p : OperationPool) : OperationPool :=
  op_set_included_attestation_bits (foldl mark_one_included (op_included_attestation_bits p) l) p.

Definition is_live (current_epoch : Z) (key : AttestationKey) : bool :=
  current_epoch <=? (compute_epoch_at_slot (ak_slot key) + 1)%u64.
Definition clean_attestations (current_epoch : Z) (p : OperationPool) : OperationPool :=
  op_set_included_attestation_bits (map_retain (fun key _ => is_live current_epoch key) (op_included_attestation_bits p))
    (op_set_attestations (map_retain (fun key _ => is_live current_epoch key) (op_attestations p)) p).

(** ** Sync committee contributions *)

Definition insert_sync_contribution (s : Z) (root : B256) (subcommittee_index : Z) (bits : list bool)
    (signature : BLSSignature) (p : OperationPool) : OperationPool :=
  if negb (subcommittee_index <? Z.of_nat SYNC_COMMITTEE_SUBNET_COUNT) then p
  else
    let i := Z.to_nat subcommittee_index in
    let key := mkSyncAggregateKey s root in
    let contributions := default (replicate SYNC_COMMITTEE_SUBNET_COUNT None) (op_sync_contributions p !! key) in
    let better := match mjoin (contributions !! i) with
                  | None => true
                  | Some best => (num_set_bits (sc_aggregation_bits best) <? num_set_bits bits)%nat
                  end in
    let contributions := if better then <[i := Some (mkSyncContribution bits signature)]> contributions else contributions in
    op_set_sync_contributions (<[key := contributions]> (op_sync_contributions p)) p.

Definition place_bits (offset : nat) (contribution : list bool) (acc : option (list bool)) : option (list bool) :=
  foldl (fun acc (ib : nat * bool) => bits ← acc; if ib.2 then bits_set bits (offset + ib.1)%nat true else Some bits)
    acc (enumerate contribution).

Definition get_sync_aggregate (p : OperationPool) (s : Z) (root : B256) : option SyncAggregate :=
  contributions ← op_sync_contributions p !! mkSyncAggregateKey s root;
  r ← foldl (fun acc (ic : nat * option SyncContribution) =>
        r ← acc;
        match ic.2 with
        | None => Some r
        | Some contribution =>
            bits ← place_bits (ic.1 * SYNC_SUBCOMMITTEE_SIZE)%nat (sc_aggregation_bits contribution) (Some r.1);
            Some (bits, r.2 ++ [sc_signature contribution])
        end) (Some (replicate (SYNC_COMMITTEE_SUBNET_COUNT * SYNC_SUBCOMMITTEE_SIZE) false, [])) (enumerate contributions);
  if bool_decide (r.2 = []) then None
  else
    signature ← aggregate_signatures r.2;
    Some (mkSyncAggregate r.1 signature).

Definition clean_sync_contributions (current_slot : Z) (p : OperationPool) : OperationPool :=
  op_set_sync_contributions
    (map_retain (fun key _ => current_slot <=? (sak_slot key + 2)%u64) (op_sync_contributions p)) p.
End pool.
