(* ===== verification/SyncCommitteePool.v ===== *)
(** * The sync committee pool

    [crates/common/sync_committee_pool/src/lib.rs]: messages of sync committee members and
    the contributions aggregated from them. *)

From stdpp Require Import strings.
From S2P Require Import Prelude Bytes Shuffling BeaconTypes OperationPool.

Definition SYNC_BITS : nat := 128.
Definition DEFAULT_MAX_SYNC_CONTRIBUTIONS_PER_KEY : nat := 128.

Record SyncCommitteeMessage : Type := mkSyncCommitteeMessage {
  scm_slot : Z;
  scm_beacon_block_root : B256;
  scm_validator_index : Z;
  scm_signature : BLSSignature;
}.
Record SyncCommitteeContribution : Type := mkSyncCommitteeContribution {
  scc_slot : Z;
  scc_beacon_block_root : B256;
  scc_subcommittee_index : Z;
  scc_aggregation_bits : list bool;
  scc_signature : BLSSignature;
}.
Record SyncCommitteeDataKey : Type := mkSyncCommitteeDataKey {
  sdk_slot : Z;
  sdk_beacon_block_root : B256;
  sdk_subcommittee_index : Z;
}.
#[global] Instance SyncCommitteeDataKey_eq_dec : EqDecision SyncCommitteeDataKey.
Proof. solve_decision. Defined.
#[global] Instance SyncCommitteeDataKey_countable : Countable SyncCommitteeDataKey.
Proof.
  apply (inj_countable' (fun k => (sdk_slot k, sdk_beacon_block_root k, sdk_subcommittee_index k))
           (fun p => mkSyncCommitteeDataKey p.1.1 p.1.2 p.2)). by intros [].
Defined.

Record SyncCommitteePool : Type := mkSyncCommitteePool {
  sp_messages : gmap SyncCommitteeDataKey (list SyncCommitteeMessage);
  sp_contributions : gmap SyncCommitteeDataKey (list SyncCommitteeContribution);
  sp_max_contributions_per_key : nat;
}.
Definition sync_pool_new (max : nat) : SyncCommitteePool := mkSyncCommitteePool ∅ ∅ max.
Definition sync_pool_default : SyncCommitteePool := sync_pool_new DEFAULT_MAX_SYNC_CONTRIBUTIONS_PER_KEY.

Section pool.
Context {SV : SszVec} {BA : BlsAggregate}.

Definition insert_sync_committee_message (message : SyncCommitteeMessage) (subcommittee_index : Z)
    (p : SyncCommitteePool) : SyncCommitteePool :=
  let key := mkSyncCommitteeDataKey (scm_slot message) (scm_beacon_block_root message) subcommittee_index in
  let entry := default [] (sp_messages p !! key) in
  let entry := if (length entry <? sp_max_contributions_per_key p)%nat then entry ++ [message] else entry in
  mkSyncCommitteePool (<[key := entry]> (sp_messages p)) (sp_contributions p) (sp_max_contributions_per_key p).

Definition get_sync_committee_contributions (p : SyncCommitteePool) (s : Z) (root : B256) (subcommittee_index : Z) :
    list SyncCommitteeContribution :=
  default [] (sp_contributions p !! mkSyncCommitteeDataKey s root subcommittee_index).

Definition participation_leb (a b : SyncCommitteeContribution) : bool :=
  (num_set_bits (scc_aggregation_bits a) <=? num_set_bits (scc_aggregation_bits b))%nat.
Definition get_best_sync_committee_contribution (p : SyncCommitteePool) (s : Z) (root : B256)
    (subcommittee_index : Z) : option SyncCommitteeContribution :=
  max_by participation_leb (get_sync_committee_contributions p s root subcommittee_index).

Definition clean_sync_committee_contributions (current_slot : Z) (p : SyncCommitteePool) : SyncCommitteePool :=
  mkSyncCommitteePool (sp_messages p)
    (map_retain (fun key _ => Z.max 0 (current_slot - 1) <=? sdk_slot key) (sp_contributions p))
    (sp_max_contributions_per_key p).
Definition clean_sync_committee_messages (current_slot : Z) (p : SyncCommitteePool) : SyncCommitteePool :=
  mkSyncCommitteePool
    (map_retain (fun key _ => Z.max 0 (current_slot - 1) <=? sdk_slot key) (sp_messages p))
    (sp_contributions p) (sp_max_contributions_per_key p).

Definition has_bit (i : nat) (c : SyncCommitteeContribution) : bool := default false (bits_get (scc_aggregation_bits c) i).

(** The first contribution the signature can be added to takes it. *)
Fixpoint add_to_first (message : SyncCommitteeMessage) (i : nat) (l : list SyncCommitteeContribution) :
    option (list SyncCommitteeContribution) :=
  match l with
  | [] => None
  | c :: l' =>
      match aggregate_signatures [scc_signature c; scm_signature message] with
      | Some signature =>
          match bits_set (scc_aggregation_bits c) i true with
          | Some bits => Some (mkSyncCommitteeContribution (scc_slot c) (scc_beacon_block_root c)
                                 (scc_subcommittee_index c) bits signature :: l')
          | None => cons c <$> add_to_first message i l'
          end
      | None => cons c <$> add_to_first message i l'
      end
  end.

Definition add_message (s : Z) (root : B256) (subcommittee_index : Z) (max : nat)
    (contributions : list SyncCommitteeContribution) (mi : SyncCommitteeMessage * nat) : list SyncCommitteeContribution :=
  let '(message, i) := mi in
  if existsb (has_bit i) contributions then contributions
  else match add_to_first message i contributions with
       | Some contributions => contributions
       | None =>
           if (length contributions <? max)%nat then
             match aggregate_signatures [scm_signature message] with
             | Some signature =>
                 match bits_set (replicate SYNC_BITS false) i true with
                 | Some bits => contributions ++ [mkSyncCommitteeContribution s root subcommittee_index bits signature]
                 | None => contributions
                 end
             | None => contributions
             end
           else contributions
       end.

(** There is a contribution to add to. *)
Definition ensure_contribution (s : Z) (root : B256) (subcommittee_index : Z) (l : list SyncCommitteeContribution) :
    list SyncCommitteeContribution :=
  match l with
  | [] => [mkSyncCommitteeContribution s root subcommittee_index (replicate SYNC_BITS false) infinity]
  | _ => l
  end.

Definition aggregate_messages (s : Z) (root : B256) (subcommittee_index : Z)
    (messages : list (SyncCommitteeMessage * nat)) (p : SyncCommitteePool) : SyncCommitteePool :=
  let key := mkSyncCommitteeDataKey s root subcommittee_index in
  let contributions := default [] (sp_contributions p !! key) in
  let contributions := ensure_contribution s root subcommittee_index contributions in
  let contributions := foldl (add_message s root subcommittee_index (sp_max_contributions_per_key p)) contributions messages in
  mkSyncCommitteePool (sp_messages p) (<[key := contributions]> (sp_contributions p)) (sp_max_contributions_per_key p).

(** ** A member is counted once *)

Section facts.
Context {SL : SszVecLaws SV}.

Lemma has_bit_lookup i c : has_bit i c = true <-> scc_aggregation_bits c !! i = Some true.
Proof. unfold has_bit. rewrite bits_get_spec. by destruct (_ !! i) as [[]|]. Qed.

(** The members the contributions of a key have. *)
Definition holds (l : list SyncCommitteeContribution) (i : nat) : Prop := exists c, c ∈ l /\ has_bit i c = true.
(** No member is in two contributions of a key, and every bit string has its length. *)
Definition counted_once (l : list SyncCommitteeContribution) : Prop :=
  (forall j k c d i, l !! j = Some c -> l !! k = Some d -> has_bit i c = true -> has_bit i d = true -> j = k) /\
  Forall (fun c => length (scc_aggregation_bits c) = SYNC_BITS) l.

Lemma add_to_first_spec message i l l' : add_to_first message i l = Some l' ->
  exists j c c', l !! j = Some c /\ l' = <[j := c']> l /\ (i < length (scc_aggregation_bits c))%nat /\
    scc_aggregation_bits c' = <[i := true]> (scc_aggregation_bits c) /\
    aggregate_signatures [scc_signature c; scm_signature message] = Some (scc_signature c').
Proof.
  revert l'. induction l as [|c l IH]; intros l' E; [done|]. cbn in E.
  assert (cons c <$> add_to_first message i l = Some l' ->
    exists j c0 c', (c :: l) !! j = Some c0 /\ l' = <[j := c']> (c :: l) /\ (i < length (scc_aggregation_bits c0))%nat /\
      scc_aggregation_bits c' = <[i := true]> (scc_aggregation_bits c0) /\
      aggregate_signatures [scc_signature c0; scm_signature message] = Some (scc_signature c')) as Hrec.
  { intros (l1 & E1 & ->)%fmap_Some. destruct (IH l1 E1) as (j & c0 & c' & H1 & -> & H2 & H3 & H4).
    exists (S j), c0, c'. done. }
  destruct (aggregate_signatures [scc_signature c; scm_signature message]) as [sg|] eqn:Es; [|by apply Hrec].
  rewrite bits_set_spec in E. destruct (i <? length (scc_aggregation_bits c))%nat eqn:Hi; [|by apply Hrec].
  injection E as <-. exists 0%nat, c. eexists. split_and!; [done|done|by apply Nat.ltb_lt|done|done].
Qed.

Lemma add_message_once s root sub max l message i :
  counted_once l -> counted_once (add_message s root sub max l (message, i)).
Proof.
  intros [H1 H2]. unfold add_message. destruct (existsb (has_bit i) l) eqn:Ee; [done|].
  assert (forall c, c ∈ l -> has_bit i c = false) as Hfree.
  { intros c Hc. apply not_true_iff_false. intros Hb. apply not_true_iff_false in Ee. apply Ee, existsb_exists.
    exists c. split; [by apply list_elem_of_In|done]. }
  destruct (add_to_first message i l) as [l'|] eqn:Ea.
  - apply add_to_first_spec in Ea as (j & c & c' & Hj & -> & Hi & Hb & _).
    assert (forall k, has_bit k c' = true -> k = i \/ has_bit k c = true) as Hc'.
    { intros k Hk. rewrite !has_bit_lookup, Hb in *. destruct (decide (i = k)) as [->|]; [by left|].
      rewrite list_lookup_insert_ne in Hk by done. by right. }
    pose proof (lookup_lt_Some _ _ _ Hj) as Hlt. split.
    + intros a b x y k Ha Hb' Hx Hy. destruct (decide (j = a)) as [<-|Hja], (decide (j = b)) as [<-|Hjb]; [done| | |].
      * rewrite list_lookup_insert_eq in Ha by done. injection Ha as <-. rewrite list_lookup_insert_ne in Hb' by done.
        destruct (Hc' k Hx) as [->|Hx']; [|by eapply H1]. rewrite (Hfree y) in Hy; [done|by eapply list_elem_of_lookup_2].
      * rewrite list_lookup_insert_eq in Hb' by done. injection Hb' as <-. rewrite list_lookup_insert_ne in Ha by done.
        destruct (Hc' k Hy) as [->|Hy']; [|by eapply H1]. rewrite (Hfree x) in Hx; [done|by eapply list_elem_of_lookup_2].
      * rewrite list_lookup_insert_ne in Ha by done. rewrite list_lookup_insert_ne in Hb' by done. by eapply H1.
    + apply Forall_insert; [done|]. rewrite Hb, length_insert. exact (Forall_lookup_1 _ _ _ _ H2 Hj).
  - destruct (length l <? max)%nat; [|done]. destruct (aggregate_signatures _); [|done].
    rewrite bits_set_spec, length_replicate. destruct (i <? SYNC_BITS)%nat eqn:Hi; [|done]. split.
    + assert (forall k, has_bit k (mkSyncCommitteeContribution s root sub (<[i := true]> (replicate SYNC_BITS false)) b) = true -> k = i) as Hnew.
      { intros k Hk. rewrite has_bit_lookup in Hk. cbn [scc_aggregation_bits] in Hk. destruct (decide (i = k)) as [->|]; [done|].
        rewrite list_lookup_insert_ne, lookup_replicate in Hk by done. by destruct Hk. }
      intros j k c d m Hj Hk Hc Hd. apply lookup_snoc_Some in Hj as [[Hj1 Hj]|[-> <-]], Hk as [[Hk1 Hk]|[-> <-]]; [by eapply H1| | |done].
      * rewrite (Hnew m Hd) in Hc. rewrite (Hfree c) in Hc; [done|by eapply list_elem_of_lookup_2].
      * rewrite (Hnew m Hc) in Hd. rewrite (Hfree d) in Hd; [done|by eapply list_elem_of_lookup_2].
    + apply Forall_app. split; [done|]. constructor; [|done]. cbn [scc_aggregation_bits]. by rewrite length_insert, length_replicate.
Qed.

(** What is held stays held, and only the message's own position can be added. *)
Lemma add_message_holds s root sub max l message i k :
  counted_once l ->
  (holds l k -> holds (add_message s root sub max l (message, i)) k) /\
  (holds (add_message s root sub max l (message, i)) k -> holds l k \/ k = i).
Proof.
  intros [H1 H2]. unfold add_message. destruct (existsb (has_bit i) l) eqn:Ee; [tauto|].
  destruct (add_to_first message i l) as [l'|] eqn:Ea.
  - apply add_to_first_spec in Ea as (j & c & c' & Hj & -> & Hi & Hb & _). pose proof (lookup_lt_Some _ _ _ Hj) as Hlt.
    split.
    + intros (d & Hd & Hk). apply list_elem_of_lookup in Hd as (n & Hn). destruct (decide (j = n)) as [<-|].
      * exists c'. split; [apply list_elem_of_lookup; exists j; by rewrite list_lookup_insert_eq|].
        assert (d = c) as -> by congruence. rewrite has_bit_lookup, Hb in *. destruct (decide (i = k)) as [->|].
        -- by rewrite list_lookup_insert_eq.
        -- by rewrite list_lookup_insert_ne.
      * exists d. split; [|done]. apply list_elem_of_lookup. exists n. by rewrite list_lookup_insert_ne.
    + intros (d & Hd & Hk). apply list_elem_of_lookup in Hd as (n & Hn). destruct (decide (j = n)) as [<-|].
      * rewrite list_lookup_insert_eq in Hn by done. injection Hn as <-. destruct (decide (i = k)) as [->|]; [by right|left].
        exists c. split; [by eapply list_elem_of_lookup_2|]. rewrite has_bit_lookup, Hb in *. by rewrite list_lookup_insert_ne in Hk.
      * rewrite list_lookup_insert_ne in Hn by done. left. exists d. split; [by eapply list_elem_of_lookup_2|done].
  - destruct (length l <? max)%nat; [|tauto]. destruct (aggregate_signatures _); [|tauto].
    rewrite bits_set_spec, length_replicate. destruct (i <? SYNC_BITS)%nat eqn:Hi; [|tauto]. split.
    + intros (d & Hd & Hk). exists d. split; [set_solver|done].
    + intros (d & [Hd|Hd]%elem_of_app & Hk); [left; by exists d|]. apply list_elem_of_singleton in Hd as ->.
      rewrite has_bit_lookup in Hk. cbn [scc_aggregation_bits] in Hk. destruct (decide (i = k)) as [->|]; [by right|].
      rewrite list_lookup_insert_ne, lookup_replicate in Hk by done. by destruct Hk.
Qed.

Definition pool_ok (p : SyncCommitteePool) : Prop := forall key l, sp_contributions p !! key = Some l -> counted_once l.

Lemma start_once s root sub (l : list SyncCommitteeContribution) : counted_once l ->
  counted_once (ensure_contribution s root sub l).
Proof.
  intros Hl. destruct l; [|done]. split.
  - intros j k c d i Hj Hk _ _. apply list_lookup_singleton_Some in Hj as [-> _], Hk as [-> _]. done.
  - constructor; [|done]. apply length_replicate.
Qed.

Lemma add_messages_once s root sub max messages : forall l, counted_once l ->
  counted_once (foldl (add_message s root sub max) l messages).
Proof.
  induction messages as [|[message i] messages IH]; intros l Hl; [done|]. cbn [foldl]. by apply IH, add_message_once.
Qed.

Lemma aggregate_messages_ok s root sub messages p : pool_ok p -> pool_ok (aggregate_messages s root sub messages p).
Proof.
  intros Hp key l. unfold aggregate_messages. cbn [sp_contributions]. set (k := mkSyncCommitteeDataKey s root sub).
  destruct (decide (k = key)) as [<-|]; [|rewrite lookup_insert_ne by done; apply Hp]. rewrite lookup_insert_eq. intros [= <-].
  assert (counted_once (default [] (sp_contributions p !! k))) as H0.
  { destruct (sp_contributions p !! k) as [l|] eqn:E; [by eapply Hp|]. split; [|constructor]. by intros [] ? c ? ? Hj. }
  by apply add_messages_once, start_once.
Qed.
End facts.
End pool.
