(* ===== verification/BeaconStore.v ===== *)
(** * The beacon fork choice store

    [crates/common/fork_choice/beacon/src/store.rs]: the store around the database, the
    in-memory fork choice tree, the availability checker and the pools.  Reads are functions
    of the store; operations that write thread it, and an error leaves with what was written
    so far.  The clock of the retry backoff is an argument [now], in nanoseconds.  Metrics,
    logging, blob files and the pruning of old states on other threads are left out, and a
    checkpoint state that a read computes is not kept in memory: the next read computes it
    again.  The thread that prunes voluntary exits is the step [finish_exit_pruning]. *)

From stdpp Require Import strings.
From S2P Require Import Prelude StateMonad Redb Bytes Shuffling Merkle BeaconTypes BeaconAccess BeaconMutate BeaconEpoch BeaconBlockOps BeaconTransition LatestMessages BeaconDb ForkTree DataAvailability OperationPool SyncCommitteePool.

Definition PROPOSER_SCORE_BOOST : Z := 40.
Definition REORG_HEAD_WEIGHT_THRESHOLD : Z := 20.
Definition REORG_MAX_EPOCHS_SINCE_FINALIZATION : Z := 2.
Definition REORG_PARENT_WEIGHT_THRESHOLD : Z := 160.
Definition VALIDATOR_API_SYNC_TOLERANCE_EPOCHS : Z := 2.
Definition BASIS_POINTS : Z := 10000.
Definition MILLISECONDS_PER_SECOND : Z := 1000.
Definition FORK_CHOICE_BALANCES_CACHE_SIZE : nat := 4.

(** What fork choice reads of the network's configuration ([beacon_network_spec]). *)
Class ForkChoiceSpec : Type := {
  slot_duration_ms : Z;
  attestation_due_bps : Z;
  proposer_reorg_cutoff_bps : Z;
  min_epochs_for_data_column_sidecars_requests : Z;
}.

(** ** Time *)

Definition saturating_add (a b : Z) : Z := Z.min u64_max (a + b).
Definition saturating_sub (a b : Z) : Z := Z.max 0 (a - b).
Definition saturating_mul (a b : Z) : Z := Z.min u64_max (a * b).
Definition div_ceil (a b : Z) : Z := let d := a / b in if 0 <? a mod b then d + 1 else d.

Definition seconds_to_milliseconds (seconds : Z) : Z := saturating_mul seconds MILLISECONDS_PER_SECOND.
Definition slots_since_genesis (time genesis_time duration : Z) : Z :=
  seconds_to_milliseconds (saturating_sub time genesis_time) / duration.
Definition time_at_slot (genesis_time s duration : Z) : Z :=
  saturating_add genesis_time (div_ceil (saturating_mul duration s) MILLISECONDS_PER_SECOND).
Definition compute_slots_since_epoch_start (s : Z) : Z :=
  (s - compute_start_slot_at_epoch (compute_epoch_at_slot s))%u64.
Definition is_shuffling_stable (s : Z) : bool := negb (is_multiple_of s SLOTS_PER_EPOCH).

Definition pending_availability_cutoff_slot (finalized_epoch current_epoch retention_epochs : Z) : Z :=
  let finalized_slot := compute_start_slot_at_epoch finalized_epoch in
  let retention_cutoff_slot := compute_start_slot_at_epoch (saturating_sub current_epoch retention_epochs) in
  Z.max (saturating_add finalized_slot 1) retention_cutoff_slot.

Section time.
Context {FS : ForkChoiceSpec}.
Definition get_slot_component_duration_ms (basis_points : Z) : Z :=
  saturating_mul basis_points slot_duration_ms / BASIS_POINTS.
Definition get_slots_since_genesis_at (time genesis_time : Z) : Z := slots_since_genesis time genesis_time slot_duration_ms.
Definition get_time_at_slot (genesis_time s : Z) : Z := time_at_slot genesis_time s slot_duration_ms.
End time.

(** ** The retry backoff *)

Record RetryBackoff : Type := mkRetryBackoff { rb_next_attempt : option Z; rb_delay : Z }.
Definition INITIAL_DELAY : Z := 10 ^ 9.
Definition MAX_DELAY : Z := 12 * 10 ^ 9.
Definition backoff_new : RetryBackoff := mkRetryBackoff None INITIAL_DELAY.
Definition is_due (b : RetryBackoff) (now : Z) : bool :=
  match rb_next_attempt b with Some next => next <=? now | None => true end.
Definition record_failure (b : RetryBackoff) (now : Z) : RetryBackoff :=
  mkRetryBackoff (Some (now + rb_delay b)) (Z.min (rb_delay b * 2) MAX_DELAY).

(** ** Checkpoints *)

Record StoredCheckpoints : Type := mkStoredCheckpoints {
  ck_justified : Checkpoint;
  ck_previous_justified : option Checkpoint;
  ck_finalized : Checkpoint;
  ck_unrealized_justified : Checkpoint;
  ck_unrealized_finalized : Checkpoint;
}.
(** The checkpoints in memory and those they were read as. *)
Record StoreCheckpoints : Type := mkStoreCheckpoints { sc_now : StoredCheckpoints; sc_stored : StoredCheckpoints }.

Definition newer (a b : Checkpoint) : Checkpoint := if cp_epoch b <? cp_epoch a then a else b.

Definition realize (justified finalized previous_justified : Checkpoint) (c : StoreCheckpoints) : StoreCheckpoints :=
  let n := sc_now c in
  mkStoreCheckpoints
    (mkStoredCheckpoints (newer justified (ck_justified n)) (Some previous_justified) (newer finalized (ck_finalized n))
       (ck_unrealized_justified n) (ck_unrealized_finalized n)) (sc_stored c).
Definition pull_up (justified finalized : Checkpoint) (c : StoreCheckpoints) : StoreCheckpoints :=
  let n := sc_now c in
  mkStoreCheckpoints
    (mkStoredCheckpoints (ck_justified n) (ck_previous_justified n) (ck_finalized n)
       (newer justified (ck_unrealized_justified n)) (newer finalized (ck_unrealized_finalized n))) (sc_stored c).

Definition changed (a b : Checkpoint) : option Checkpoint := if decide (a = b) then None else Some a.
Definition writes (c : StoreCheckpoints) : CheckpointWrites :=
  let n := sc_now c in
  let stored := sc_stored c in
  mkCheckpointWrites (changed (ck_justified n) (ck_justified stored))
    (if decide (ck_previous_justified n = ck_previous_justified stored) then None else ck_previous_justified n)
    (changed (ck_finalized n) (ck_finalized stored))
    (changed (ck_unrealized_justified n) (ck_unrealized_justified stored))
    (changed (ck_unrealized_finalized n) (ck_unrealized_finalized stored)).

Record ForkChoiceBalances : Type := mkForkChoiceBalances { fcb_balances : list Z; fcb_proposer_score : Z }.
Record BlockWithEpochInfo : Type := mkBlockWithEpochInfo {
  be_block : BeaconBlock;
  be_justified_epoch : Z;
  be_finalized_epoch : Z;
}.

Section store.
Context {RD : Redb} {RM : RedbMulti}.
Context {H : Sha256} {F : CandidateFuel} {HO : HashOrder} {SV : SszVec}.
Context {R : Roots} {B : Bls} {N : BeaconNetworkSpec}.
Context {BA : BlsAggregate} {TH : TreeHash SignedBLSToExecutionChange} {FS : ForkChoiceSpec}.

Record Store : Type := mkStore {
  st_db : BeaconDB;
  st_availability : DataAvailabilityChecker (State := BeaconState);
  st_operation_pool : OperationPool;
  st_sync_committee_pool : SyncCommitteePool;
  st_fork_choice : option ForkChoiceTree;
  st_fork_choice_retry : RetryBackoff;
  st_fork_choice_balances : list (Checkpoint * ForkChoiceBalances);
  st_exit_pruning : option B256;
}.
Definition st_set_db (v : BeaconDB) (s : Store) : Store :=
  mkStore v (st_availability s) (st_operation_pool s) (st_sync_committee_pool s) (st_fork_choice s)
    (st_fork_choice_retry s) (st_fork_choice_balances s) (st_exit_pruning s).
Definition st_set_availability (v : DataAvailabilityChecker (State := BeaconState)) (s : Store) : Store :=
  mkStore (st_db s) v (st_operation_pool s) (st_sync_committee_pool s) (st_fork_choice s)
    (st_fork_choice_retry s) (st_fork_choice_balances s) (st_exit_pruning s).
Definition st_set_operation_pool (v : OperationPool) (s : Store) : Store :=
  mkStore (st_db s) (st_availability s) v (st_sync_committee_pool s) (st_fork_choice s)
    (st_fork_choice_retry s) (st_fork_choice_balances s) (st_exit_pruning s).
Definition st_set_sync_committee_pool (v : SyncCommitteePool) (s : Store) : Store :=
  mkStore (st_db s) (st_availability s) (st_operation_pool s) v (st_fork_choice s)
    (st_fork_choice_retry s) (st_fork_choice_balances s) (st_exit_pruning s).
Definition st_set_fork_choice (v : option ForkChoiceTree) (s : Store) : Store :=
  mkStore (st_db s) (st_availability s) (st_operation_pool s) (st_sync_committee_pool s) v
    (st_fork_choice_retry s) (st_fork_choice_balances s) (st_exit_pruning s).
Definition st_set_fork_choice_retry (v : RetryBackoff) (s : Store) : Store :=
  mkStore (st_db s) (st_availability s) (st_operation_pool s) (st_sync_committee_pool s) (st_fork_choice s)
    v (st_fork_choice_balances s) (st_exit_pruning s).
Definition st_set_fork_choice_balances (v : list (Checkpoint * ForkChoiceBalances)) (s : Store) : Store :=
  mkStore (st_db s) (st_availability s) (st_operation_pool s) (st_sync_committee_pool s) (st_fork_choice s)
    (st_fork_choice_retry s) v (st_exit_pruning s).
Definition st_set_exit_pruning (v : option B256) (s : Store) : Store :=
  mkStore (st_db s) (st_availability s) (st_operation_pool s) (st_sync_committee_pool s) (st_fork_choice s)
    (st_fork_choice_retry s) (st_fork_choice_balances s) v.

Definition SM (A : Type) : Type := M Store anyhow A.
#[global] Instance SM_ret : MRet SM := M_ret Store anyhow.
#[global] Instance SM_bind : MBind SM := M_bind Store anyhow.

(** A database operation inside the store. *)
Definition on_db {A} (m : M BeaconDB anyhow A) : SM A := fun s =>
  let '(d, r) := m (st_db s) in (st_set_db d s, r).
Definition modify_db (f : BeaconDB -> BeaconDB) : SM unit := modify (fun s => st_set_db (f (st_db s)) s).

(** [Store::new]; the pool of sync committee messages is the default one unless given. *)
Definition store_new (db : BeaconDB) (pool : OperationPool) (sync_pool : option SyncCommitteePool) : res anyhow Store :=
  checker ← supernode;
  Ok (mkStore db checker pool (default sync_pool_default sync_pool) None backoff_new [] None).

(** ** The clock *)

Definition get_slots_since_genesis (s : Store) : res anyhow Z :=
  time ← field (bd_time (st_db s));
  genesis_time ← field (bd_genesis_time (st_db s));
  Ok (get_slots_since_genesis_at time genesis_time).
Definition get_current_slot (s : Store) : res anyhow Z :=
  n ← get_slots_since_genesis s; Ok (GENESIS_SLOT + n)%u64.
Definition get_current_store_epoch (s : Store) : res anyhow Z :=
  current ← get_current_slot s; Ok (compute_epoch_at_slot current).
Definition is_previous_epoch_justified (s : Store) : res anyhow bool :=
  current_epoch ← get_current_store_epoch s;
  justified ← field (bd_justified (st_db s));
  Ok ((cp_epoch justified + 1)%u64 =? current_epoch).

(** ** Ancestors *)

(** The number of stored blocks: enough to follow parents. *)
Definition block_fuel (d : BeaconDB) : nat := S (length (rd_iter (bd_block d))).

Fixpoint get_ancestor_loop (fuel : nat) (s : Store) (root : B256) (slot : Z) : res anyhow B256 :=
  in_tree ← match st_fork_choice s with Some tree => ancestor tree root slot | None => Ok None end;
  match in_tree with
  | Some found => Ok found
  | None =>
      block ← ok_or (rd_get (bd_block (st_db s)) root) "Failed to find beacon_block_provider()"%string;
      if slot <? b_slot (sb_message block)
      then match fuel with
           | O => NoFuel
           | S fuel' => get_ancestor_loop fuel' s (b_parent_root (sb_message block)) slot
           end
      else Ok root
  end.
Definition get_ancestor (s : Store) (root : B256) (slot : Z) : res anyhow B256 :=
  get_ancestor_loop (block_fuel (st_db s)) s root slot.
Definition get_checkpoint_block (s : Store) (root : B256) (epoch : Z) : res anyhow B256 :=
  get_ancestor s root (compute_start_slot_at_epoch epoch).

Fixpoint get_ancestor_from_db_loop (fuel : nat) (d : BeaconDB) (root : B256) (slot : Z) : res anyhow B256 :=
  sp ← ok_or (slot_and_parent_root d root) "Failed to find beacon_block_provider()"%string;
  if slot <? sp.1
  then match fuel with O => NoFuel | S fuel' => get_ancestor_from_db_loop fuel' d sp.2 slot end
  else Ok root.
Definition get_ancestor_from_db (d : BeaconDB) (root : B256) (slot : Z) : res anyhow B256 :=
  get_ancestor_from_db_loop (block_fuel d) d root slot.
Definition get_checkpoint_block_from_db (d : BeaconDB) (root : B256) (epoch : Z) : res anyhow B256 :=
  get_ancestor_from_db d root (compute_start_slot_at_epoch epoch).

(** ** The head from the database *)

Definition get_voting_source (s : Store) (block_root : B256) : res anyhow Checkpoint :=
  let d := st_db s in
  block ← ok_or (rd_get (bd_block d) block_root) "block not found"%string;
  current_epoch ← get_current_store_epoch s;
  if compute_epoch_at_slot (b_slot (sb_message block)) <? current_epoch
  then ok_or (rd_get (bd_unrealized_justifications d) block_root) "unrealized_justifications not found"%string
  else head_state ← ok_or (rd_get (bd_state d) block_root) "state not found"%string;
       Ok (current_justified_checkpoint head_state).

Definition add_filtered (block_root : B256) (block : SignedBeaconBlock) (voting_source finalized : Checkpoint)
    (blocks : gmap B256 BlockWithEpochInfo) : gmap B256 BlockWithEpochInfo :=
  <[block_root := mkBlockWithEpochInfo (sb_message block) (cp_epoch voting_source) (cp_epoch finalized)]> blocks.

(** Whether a block without children is viable. *)
Definition filter_leaf (s : Store) (block_root : B256) : res anyhow (bool * Checkpoint * Checkpoint) :=
  let d := st_db s in
  current_epoch ← get_current_store_epoch s;
  voting_source ← get_voting_source s block_root;
  justified ← field (bd_justified d);
  let correct_justified := (cp_epoch justified =? GENESIS_EPOCH)
    || ((cp_epoch voting_source =? cp_epoch justified) || (current_epoch <=? (cp_epoch voting_source + 2)%u64)) in
  finalized ← field (bd_finalized d);
  finalized_checkpoint_block ← get_checkpoint_block s block_root (cp_epoch finalized);
  let correct_finalized := (cp_epoch finalized =? GENESIS_EPOCH)
    || bool_decide (cp_root finalized = finalized_checkpoint_block) in
  Ok (correct_justified && correct_finalized, voting_source, finalized).

Fixpoint filter_block_tree (fuel : nat) (s : Store) (block_root : B256) (blocks : gmap B256 BlockWithEpochInfo) :
    res anyhow (bool * gmap B256 BlockWithEpochInfo) :=
  let d := st_db s in
  block ← ok_or (rd_get (bd_block d) block_root) "failed to get block"%string;
  match mm_get (bd_parent_index d) block_root, fuel with
  | [], _ =>
      r ← filter_leaf s block_root;
      Ok (r.1.1, if (r.1.1 : bool) then add_filtered block_root block r.1.2 r.2 blocks else blocks)
  | _ :: _, O => NoFuel
  | children, S fuel' =>
      r ← foldM (fun acc child => r ← filter_block_tree fuel' s child acc.2; Ok (acc.1 ++ [r.1], r.2)) ([], blocks) children;
      if existsb id r.1 then
        voting_source ← get_voting_source s block_root;
        finalized ← field (bd_finalized d);
        Ok (true, add_filtered block_root block voting_source finalized r.2)
      else Ok (false, r.2)
  end.
Definition get_filtered_block_tree (s : Store) : res anyhow (gmap B256 BlockWithEpochInfo) :=
  justified ← field (bd_justified (st_db s));
  r ← filter_block_tree (block_fuel (st_db s)) s (cp_root justified) ∅;
  Ok r.2.

Definition proposer_score_of (state : BeaconState) : res anyhow Z :=
  total ← get_total_active_balance state;
  Ok ((total / SLOTS_PER_EPOCH * PROPOSER_SCORE_BOOST)%u64 / 100).

Definition justified_state (s : Store) (message : string) : res anyhow BeaconState :=
  justified ← field (bd_justified (st_db s));
  state ← checkpoint_state (st_db s) justified;
  ok_or state message.

Definition get_proposer_score (s : Store) : res anyhow Z :=
  state ← justified_state s "Failed to find checkpoint in checkpoint states"%string;
  proposer_score_of state.

Definition unslashed_and_active_indices (state : BeaconState) : res anyhow (list Z) :=
  l ← mapR (fun i => v ← index (validators state) (Z.to_nat i); Ok (i, slashed v))
        (get_active_validator_indices state (get_current_epoch state));
  Ok ((filter (fun ib : Z * bool => ib.2 = false) l).*1).

(** The balance validator [index] adds to the weight of [root]. *)
Definition attesting_balance (s : Store) (state : BeaconState) (root : B256) (i : Z) : res anyhow Z :=
  let d := st_db s in
  match message_get (bd_messages d) i with
  | None => Ok 0
  | Some message =>
      equivocating ← field (bd_equivocating d);
      if bool_decide (i ∈ equivocating) then Ok 0
      else
        block ← ok_or (rd_get (bd_block d) root) " block not found"%string;
        a ← get_ancestor s (lm_root message) (b_slot (sb_message block));
        if bool_decide (a = root) then v ← index (validators state) (Z.to_nat i); Ok (effective_balance v)
        else Ok 0
  end.

Definition get_weight (s : Store) (root : B256) : res anyhow Z :=
  let d := st_db s in
  state ← justified_state s "checkpoint_states not found"%string;
  indices ← unslashed_and_active_indices state;
  attestation_score ← foldM (fun score i => b ← attesting_balance s state root i; Ok (score + b)%u64) 0 indices;
  boost_root ← field (bd_proposer_boost_root d);
  if bool_decide (boost_root = B256_ZERO) then Ok attestation_score
  else
    block ← ok_or (rd_get (bd_block d) root) "block not found"%string;
    a ← get_ancestor s boost_root (b_slot (sb_message block));
    proposer_score ← (if bool_decide (a = root) then get_proposer_score s else Ok 0);
    Ok (attestation_score + proposer_score)%u64.

Definition weight_leb (a b : B256 * Z) : bool := (a.2 <? b.2) || ((a.2 =? b.2) && bytes_leb a.1 b.1).

Fixpoint head_loop (fuel : nat) (s : Store) (blocks : gmap B256 BlockWithEpochInfo) (head : B256) : res anyhow B256 :=
  let children := (filter (fun ri : B256 * BlockWithEpochInfo => b_parent_root (be_block ri.2) = head) (hm_iter blocks)).*1 in
  match children, fuel with
  | [], _ => Ok head
  | _ :: _, O => NoFuel
  | [child], S fuel' => head_loop fuel' s blocks child
  | _, S fuel' =>
      weighted ← mapR (fun child => w ← get_weight s child; Ok (child, w)) children;
      best ← ok_or (last (sort_by weight_leb weighted)) "Children should always be present"%string;
      head_loop fuel' s blocks best.1
  end.
Definition get_head_from_db (s : Store) : res anyhow B256 :=
  blocks ← get_filtered_block_tree s;
  justified ← field (bd_justified (st_db s));
  head_loop (S (size blocks)) s blocks (cp_root justified).

Definition get_head (s : Store) : res anyhow B256 :=
  match st_fork_choice s with
  | Some tree =>
      if contains tree (cp_root (vc_justified_checkpoint (ft_context tree))) then Ok (tree_head tree) else get_head_from_db s
  | None => get_head_from_db s
  end.

(** ** The fork choice tree *)

Definition place_balance (state : BeaconState) (balances : list Z) (i : Z) : res anyhow (list Z) :=
  v ← index (validators state) (Z.to_nat i);
  if slashed v then Ok balances else set_index balances (Z.to_nat i) (effective_balance v).
Definition from_checkpoint_state (state : BeaconState) : res anyhow ForkChoiceBalances :=
  balances ← foldM (place_balance state)
    (replicate (length (validators state)) 0) (get_active_validator_indices state (get_current_epoch state));
  score ← proposer_score_of state;
  Ok (mkForkChoiceBalances balances score).

Definition cache_fork_choice_balances (checkpoint : Checkpoint) (state : BeaconState) : SM unit :=
  cached ← reads (fun s => Ok (existsb (fun cb => bool_decide (cb.1 = checkpoint)) (st_fork_choice_balances s)));
  if (cached : bool) then mret tt
  else
    balances ← lift (from_checkpoint_state state);
    modify (fun s =>
      let l := st_fork_choice_balances s in
      let l := if (length l =? FORK_CHOICE_BALANCES_CACHE_SIZE)%nat then tail l else l in
      st_set_fork_choice_balances (l ++ [(checkpoint, balances)]) s).

Definition load_fork_choice_balances (s : Store) (tree : ForkChoiceTree) (justified : Checkpoint) : res anyhow ForkChoiceTree :=
  match list_find (fun cb => cb.1 = justified) (st_fork_choice_balances s) with
  | Some (_, (_, cached)) => set_balances tree justified (fcb_balances cached) (fcb_proposer_score cached)
  | None =>
      state ← checkpoint_state (st_db s) justified;
      match state with
      | None => Ok tree
      | Some state =>
          b ← from_checkpoint_state state;
          set_balances tree justified (fcb_balances b) (fcb_proposer_score b)
      end
  end.

Definition reconcile_fork_choice_tree (s : Store) (tree : ForkChoiceTree) : res anyhow ForkChoiceTree :=
  let d := st_db s in
  finalized ← field (bd_finalized d);
  justified ← field (bd_justified d);
  tree ← (if bool_decide (ft_root tree = cp_root finalized) then Ok tree else prune tree (cp_root finalized));
  current_epoch ← get_current_store_epoch s;
  tree ← update_context tree (mkViabilityContext justified finalized current_epoch);
  tree ← (if bool_decide (ft_balances_checkpoint tree = Some justified) then Ok tree
          else load_fork_choice_balances s tree justified);
  boost_root ← field (bd_proposer_boost_root d);
  set_proposer_boost_root tree (if bool_decide (boost_root = B256_ZERO) then None else Some boost_root).

(** The loop follows parents that are in [inserted]; [fuel] is their number. *)
Fixpoint realized_loop (fuel : nat) (inserted : gmap B256 ForkChoiceBlock) (epoch_start : Z) (block : ForkChoiceBlock) :
    res anyhow (option ForkChoiceBlock) :=
  if epoch_start <=? fb_slot block then
    match inserted !! fb_parent_root block, fuel with
    | None, _ => Ok None
    | Some _, O => NoFuel
    | Some parent, S fuel' => realized_loop fuel' inserted epoch_start parent
    end
  else Ok (Some block).
Definition realized_from_previous_epoch (inserted : gmap B256 ForkChoiceBlock) (parent_root : B256) (epoch : Z) :
    res anyhow (option Checkpoint) :=
  let epoch_start := compute_start_slot_at_epoch epoch in
  match inserted !! parent_root with
  | None => Ok None
  | Some parent =>
      found ← realized_loop (size inserted) inserted epoch_start parent;
      Ok (match found with
          | None => None
          | Some block => if (compute_epoch_at_slot (fb_slot block) + 1)%u64 =? epoch
                          then Some (fb_unrealized_justified_checkpoint block) else None
          end)
  end.

Definition fork_choice_block_from_db (s : Store) (root : B256) (current_epoch : Z) (inserted : gmap B256 ForkChoiceBlock) :
    res anyhow ForkChoiceBlock :=
  let d := st_db s in
  signed_block ← ok_or (rd_get (bd_block d) root) "block not found"%string;
  let block := sb_message signed_block in
  let unrealized := rd_get (bd_unrealized_justifications d) root in
  let block_epoch := compute_epoch_at_slot (b_slot block) in
  realized ←
    (if current_epoch <=? block_epoch then
       r ← realized_from_previous_epoch inserted (b_parent_root block) block_epoch;
       Ok (match r with
           | Some realized => Some realized
           | None => current_justified_checkpoint <$> rd_get (bd_state d) root
           end)
     else Ok None);
  justified ← ok_or (match realized with Some c => Some c | None => unrealized end) "no voting source available for block"%string;
  Ok (mkForkChoiceBlock root (b_parent_root block) (b_slot block) justified (default justified unrealized)).

(** The children of one block of the queue. *)
Definition enable_children (s : Store) (current_epoch : Z)
    (acc : gmap B256 ForkChoiceBlock * ForkChoiceTree * list B256) (child_root : B256) :
    res anyhow (gmap B256 ForkChoiceBlock * ForkChoiceTree * list B256) :=
  let '(inserted, tree, queue) := acc in
  block ← fork_choice_block_from_db s child_root current_epoch inserted;
  tree ← tree_insert tree block;
  Ok (<[child_root := block]> inserted, tree, queue ++ [child_root]).
Fixpoint enable_loop (fuel : nat) (s : Store) (current_epoch : Z) (queue : list B256)
    (inserted : gmap B256 ForkChoiceBlock) (tree : ForkChoiceTree) : res anyhow ForkChoiceTree :=
  match queue, fuel with
  | [], _ => Ok tree
  | _ :: _, O => NoFuel
  | parent_root :: queue', S fuel' =>
      r ← foldM (enable_children s current_epoch) (inserted, tree, queue') (mm_get (bd_parent_index (st_db s)) parent_root);
      enable_loop fuel' s current_epoch r.2 r.1.1 r.1.2
  end.

Definition build_fork_choice_tree (s : Store) : res anyhow ForkChoiceTree :=
  let d := st_db s in
  finalized ← field (bd_finalized d);
  justified ← field (bd_justified d);
  current_epoch ← get_current_store_epoch s;
  anchor ← fork_choice_block_from_db s (cp_root finalized) current_epoch ∅;
  tree ← tree_new anchor (mkViabilityContext justified finalized current_epoch);
  tree ← enable_loop (block_fuel d) s current_epoch [cp_root finalized] {[ fb_root anchor := anchor ]} tree;
  tree ← reconcile_fork_choice_tree s tree;
  tree ← match bd_equivocating d with
         | Some indices => mark_equivocating tree (hs_iter indices)
         | None => Ok tree
         end;
  process_votes tree ((fun im : Z * LatestMessage => (im.1, lm_root im.2)) <$> get_all (bd_messages d)).

Definition enable_fork_choice_tree : SM unit :=
  modify (st_set_fork_choice None);;
  tree ← reads build_fork_choice_tree;
  modify (st_set_fork_choice (Some tree));;
  modify (st_set_fork_choice_retry backoff_new).

(** An error is handled, a panic or a loop without end is not. *)
Definition try_or {A} (m : SM A) (handler : anyhow -> SM A) : SM A := fun s =>
  match m s with (s', Err e) => handler e s' | r => r end.

Definition recover_fork_choice (now : Z) : SM unit :=
  try_or enable_fork_choice_tree (fun _ =>
    modify (st_set_fork_choice None);;
    modify (fun s => st_set_fork_choice_retry (record_failure (st_fork_choice_retry s) now) s)).

Definition refresh_fork_choice (now : Z) : SM unit := fun s =>
  match st_fork_choice s with
  | None =>
      if negb (is_due (st_fork_choice_retry s) now) then (s, Ok tt)
      else try_or enable_fork_choice_tree (fun _ =>
             modify (fun s => st_set_fork_choice_retry (record_failure (st_fork_choice_retry s) now) s)) s
  | Some tree =>
      let s := st_set_fork_choice None s in
      match reconcile_fork_choice_tree s tree with
      | Ok tree => (st_set_fork_choice (Some tree) s, Ok tt)
      | Err _ => recover_fork_choice now s
      | Panic => (s, Panic)
      | NoFuel => (s, NoFuel)
      end
  end.

Definition fork_choice_insert_block (now : Z) (block_root parent_root : B256) (slot : Z) (justified : Checkpoint) : SM unit := fun s =>
  match st_fork_choice s with
  | None => (s, Ok tt)
  | Some tree =>
      let unrealized := default justified (rd_get (bd_unrealized_justifications (st_db s)) block_root) in
      match tree_insert tree (mkForkChoiceBlock block_root parent_root slot justified unrealized) with
      | Ok tree => (st_set_fork_choice (Some tree) s, Ok tt)
      | Err _ => recover_fork_choice now s
      | Panic => (s, Panic)
      | NoFuel => (s, NoFuel)
      end
  end.

(** An operation on the tree, if there is one. *)
Definition on_tree (f : ForkChoiceTree -> res anyhow ForkChoiceTree) : SM unit := fun s =>
  match st_fork_choice s with
  | None => (s, Ok tt)
  | Some tree =>
      match f tree with
      | Ok tree => (st_set_fork_choice (Some tree) s, Ok tt)
      | Err e => (s, Err e)
      | Panic => (s, Panic)
      | NoFuel => (s, NoFuel)
      end
  end.
Definition fork_choice_mark_equivocating (indices : list Z) : SM unit := on_tree (fun tree => mark_equivocating tree indices).

(** ** Finalization *)

Definition read_checkpoints (d : BeaconDB) : res anyhow StoreCheckpoints :=
  justified ← field (bd_justified d);
  finalized ← field (bd_finalized d);
  unrealized_justified ← field (bd_unrealized_justified d);
  unrealized_finalized ← field (bd_unrealized_finalized d);
  let stored := mkStoredCheckpoints justified (bd_previous_justified d) finalized unrealized_justified unrealized_finalized in
  Ok (mkStoreCheckpoints stored stored).

Definition prune_voluntary_exits_in_background (finalized_root : B256) : SM unit :=
  modify (fun s => match st_exit_pruning s with
                   | Some _ => s
                   | None => st_set_exit_pruning (Some finalized_root) s
                   end).
(** The thread's work. *)
Definition finish_exit_pruning : SM unit := fun s =>
  match st_exit_pruning s with
  | None => (s, Ok tt)
  | Some root =>
      match rd_get (bd_state (st_db s)) root with
      | None => (st_set_exit_pruning None s, Ok tt)
      | Some state =>
          match clean_signed_voluntary_exits state (st_operation_pool s) with
          | Ok pool => (st_set_exit_pruning None (st_set_operation_pool pool s), Ok tt)
          | Err e => (s, Err e)
          | Panic => (s, Panic)
          | NoFuel => (s, NoFuel)
          end
      end
  end.

Definition modify_pool (f : OperationPool -> OperationPool) : SM unit :=
  modify (fun s => st_set_operation_pool (f (st_operation_pool s)) s).

Definition apply_finalization_side_effects (finalized : Checkpoint) : SM unit :=
  prune_voluntary_exits_in_background (cp_root finalized);;
  current_epoch ← reads get_current_store_epoch;
  modify_pool (clean_proposer_preparations current_epoch);;
  block ← reads (fun s => Ok (rd_get (bd_block (st_db s)) (cp_root finalized)));
  match block with
  | Some block => modify_pool (fun p => foldl (fun p change => remove_signed_bls_to_execution_change (tree_hash_root change) p)
                                          p (bls_to_execution_changes (b_body (sb_message block))))
  | None => mret tt
  end;;
  reads get_current_slot;;
  modify_db (prune_before (cp_epoch finalized)).

Definition publish_checkpoint_writes (w : CheckpointWrites) : SM unit :=
  match cw_finalized w with
  | Some checkpoint => try_or (apply_finalization_side_effects checkpoint) (fun _ => mret tt)
  | None => mret tt
  end.

(** ** The proposer's head *)

Definition is_head_late (s : Store) (head_root : B256) : bool :=
  negb (default true (rd_get (bd_timeliness (st_db s)) head_root)).
Definition is_ffg_competitive (s : Store) (head_root parent_root : B256) : bool :=
  bool_decide (rd_get (bd_unrealized_justifications (st_db s)) head_root =
               rd_get (bd_unrealized_justifications (st_db s)) parent_root).
Definition time_into_slot_ms (s : Store) : res anyhow Z :=
  time ← field (bd_time (st_db s));
  genesis_time ← field (bd_genesis_time (st_db s));
  Ok (seconds_to_milliseconds (saturating_sub time genesis_time) mod slot_duration_ms).
Definition is_proposing_on_time (s : Store) : res anyhow bool :=
  t ← time_into_slot_ms s;
  Ok (t <=? get_slot_component_duration_ms proposer_reorg_cutoff_bps).
Definition is_finalization_ok (s : Store) (slot : Z) : res anyhow bool :=
  finalized ← field (bd_finalized (st_db s));
  Ok ((compute_epoch_at_slot slot - cp_epoch finalized)%u64 <=? REORG_MAX_EPOCHS_SINCE_FINALIZATION).

Definition calculate_committee_fraction (state : BeaconState) (committee_percent : Z) : res anyhow Z :=
  total ← get_total_active_balance state;
  Ok ((total / SLOTS_PER_EPOCH * committee_percent)%u64 / 100).

Definition store_weight (s : Store) (root : B256) : res anyhow Z :=
  match st_fork_choice s ≫= fun tree => tree_weight tree root with
  | Some weight => Ok weight
  | None => get_weight s root
  end.
Definition is_head_weak (s : Store) (head_root : B256) : res anyhow bool :=
  state ← justified_state s "Justified checkpoint must exist in the store"%string;
  threshold ← calculate_committee_fraction state REORG_HEAD_WEIGHT_THRESHOLD;
  w ← store_weight s head_root;
  Ok (w <? threshold).
Definition is_parent_strong (s : Store) (parent_root : B256) : res anyhow bool :=
  state ← justified_state s "Justified checkpoint must exist in the store"%string;
  threshold ← calculate_committee_fraction state REORG_PARENT_WEIGHT_THRESHOLD;
  w ← store_weight s parent_root;
  Ok (threshold <? w).

Definition get_proposer_head (s : Store) (head_root : B256) (slot : Z) : res anyhow B256 :=
  let d := st_db s in
  head_block ← ok_or (rd_get (bd_block d) head_root) "Head block must exist"%string;
  let parent_root := b_parent_root (sb_message head_block) in
  parent_block ← ok_or (rd_get (bd_block d) parent_root) "Parent block must exist"%string;
  let head_late := is_head_late s head_root in
  let shuffling_stable := is_shuffling_stable slot in
  let ffg_competitive := is_ffg_competitive s head_root parent_root in
  finalization_ok ← is_finalization_ok s slot;
  proposing_on_time ← is_proposing_on_time s;
  let parent_slot_ok := (b_slot (sb_message parent_block) + 1)%u64 =? b_slot (sb_message head_block) in
  let current_time_ok := (b_slot (sb_message head_block) + 1)%u64 =? slot in
  let single_slot_reorg := parent_slot_ok && current_time_ok in
  boost_root ← field (bd_proposer_boost_root d);
  (if bool_decide (boost_root <> head_root) then Ok tt else Panic);;
  head_weak ← is_head_weak s head_root;
  parent_strong ← is_parent_strong s parent_root;
  Ok (if head_late && shuffling_stable && ffg_competitive && finalization_ok && proposing_on_time
         && single_slot_reorg && head_weak && parent_strong
      then parent_root else head_root).

(** ** Votes *)

(** One message of the batch: newer target epochs only. *)
Definition update_message (equivocating : gset Z) (message : LatestMessage)
    (acc : gmap Z LatestMessage * gmap Z LatestMessage) (i : Z) : gmap Z LatestMessage * gmap Z LatestMessage :=
  let '(stored, updates) := acc in
  if bool_decide (i ∈ equivocating) then acc
  else
    let newer := match stored !! i with Some latest => lm_epoch latest <? lm_epoch message | None => true end in
    if newer then (<[i := message]> stored, <[i := message]> updates) else acc.
Definition update_messages (equivocating : gset Z) (acc : gmap Z LatestMessage * gmap Z LatestMessage)
    (ia : list Z * Attestation) : gmap Z LatestMessage * gmap Z LatestMessage :=
  let data := att_data ia.2 in
  foldl (update_message equivocating (mkLatestMessage (cp_epoch (ad_target data)) (ad_beacon_block_root data))) acc ia.1.

Definition update_latest_messages_batch (now : Z) (l : list (list Z * Attestation)) : SM unit := fun s =>
  let d := st_db s in
  let equivocating := default ∅ (bd_equivocating d) in
  let indices := hs_iter (list_to_set (filter (fun i => i ∉ equivocating) (mjoin l.*1)) : gset Z) in
  let stored := get_many (bd_messages d) indices in
  let '(_, updates) := foldl (update_messages equivocating) (stored, ∅) l in
  if bool_decide (updates = ∅) then (s, Ok tt)
  else
    match insert_batch (bd_messages d) (hm_iter updates) now with
    | Ok (messages, _) =>
        on_tree (fun tree => process_votes tree ((fun im : Z * LatestMessage => (im.1, lm_root im.2)) <$> hm_iter updates))
          (st_set_db (bd_set_messages messages d) s)
    | Err e => (s, Err e)
    | Panic => (s, Panic)
    | NoFuel => (s, NoFuel)
    end.
Definition update_latest_messages (now : Z) (indices : list Z) (attestation : Attestation) : SM unit :=
  update_latest_messages_batch now [(indices, attestation)].

(** ** Ticks *)

(** What a new slot drops: first what depends on the slot alone. *)
Definition clean_sync (current_slot : Z) (s : Store) : Store :=
  let sync := clean_sync_committee_contributions current_slot
                (clean_sync_committee_messages current_slot (st_sync_committee_pool s)) in
  st_set_operation_pool (clean_sync_contributions current_slot (st_operation_pool s)) (st_set_sync_committee_pool sync s).
Definition clean_pending (current_slot finalized_epoch current_epoch : Z) (s : Store) : Store :=
  let cutoff := pending_availability_cutoff_slot finalized_epoch current_epoch min_epochs_for_data_column_sidecars_requests in
  let availability := (da_prune cutoff (st_availability s)).1 in
  let pool := clean_attestations (compute_epoch_at_slot current_slot) (st_operation_pool s) in
  st_set_availability availability (st_set_operation_pool pool s).

(** The head is computed for a metric: its errors are logged. *)
Definition metric_head (s : Store) : res anyhow unit :=
  match get_head s with Panic => Panic | NoFuel => NoFuel | _ => Ok tt end.

Definition pull_up_epoch : SM unit :=
  checkpoints ← reads (fun s => read_checkpoints (st_db s));
  let n := sc_now checkpoints in
  let w := writes (realize (ck_unrealized_justified n) (ck_unrealized_finalized n) (ck_justified n) checkpoints) in
  on_db (commit_checkpoints w);;
  publish_checkpoint_writes w.

Definition on_tick_per_slot (now time : Z) : SM unit :=
  previous_slot ← reads get_current_slot;
  modify_db (bd_set_time (Some time));;
  current_slot ← reads get_current_slot;
  (if previous_slot <? current_slot then
     modify_db (bd_set_proposer_boost_root (Some B256_ZERO));;
     modify (clean_sync current_slot);;
     finalized ← reads (fun s => field (bd_finalized (st_db s)));
     current_epoch ← reads get_current_store_epoch;
     modify (clean_pending current_slot (cp_epoch finalized) current_epoch)
   else mret tt);;
  (if (previous_slot <? current_slot) && (compute_slots_since_epoch_start current_slot =? 0) then
     reads metric_head;;
     pull_up_epoch
   else mret tt);;
  refresh_fork_choice now.

(** ** Attestations *)

Definition validate_target_epoch_against_current_time (s : Store) (attestation : Attestation) : res anyhow unit :=
  current_epoch ← get_current_store_epoch s;
  let previous_epoch := if GENESIS_EPOCH <? current_epoch then (current_epoch - 1)%u64 else GENESIS_EPOCH in
  let e := cp_epoch (ad_target (att_data attestation)) in
  ensure ((e =? current_epoch) || (e =? previous_epoch)) "target epoch"%string.

Definition validate_on_attestation (s : Store) (attestation : Attestation) (is_from_block : bool) : res anyhow unit :=
  let d := st_db s in
  let data := att_data attestation in
  let target := ad_target data in
  (if is_from_block then Ok tt else validate_target_epoch_against_current_time s attestation);;
  ensure (cp_epoch target =? compute_epoch_at_slot (ad_slot data)) "target epoch of the slot"%string;;
  ensure (bool_decide (is_Some (rd_get (bd_block d) (cp_root target)))) "unknown target"%string;;
  sp ← ok_or (slot_and_parent_root d (ad_beacon_block_root data)) "block not found"%string;
  ensure (sp.1 <=? ad_slot data) "block in the future"%string;;
  checkpoint_block ← get_checkpoint_block s (ad_beacon_block_root data) (cp_epoch target);
  ensure (bool_decide (cp_root target = checkpoint_block)) "LMD vote must be consistent with FFG vote target"%string;;
  current ← get_current_slot s;
  ensure ((ad_slot data + 1)%u64 <=? current) "slot not in the past"%string.

Definition is_syncing_for_validator_api (s : Store) : res anyhow bool :=
  head ← get_head s;
  block ← ok_or (rd_get (bd_block (st_db s)) head) "Failed to get head slot"%string;
  current ← get_current_slot s;
  let sync_distance := saturating_sub current (b_slot (sb_message block)) in
  Ok ((VALIDATOR_API_SYNC_TOLERANCE_EPOCHS * SLOTS_PER_EPOCH)%u64 <? sync_distance).

(** ** A new store *)

(** The root of a block, which [tree_hash] derives. *)
Context {BH : TreeHash BeaconBlock}.

Definition anchored_db (anchor_state : BeaconState) (anchor_block : SignedBeaconBlock) (d : BeaconDB) : BeaconDB :=
  let anchor_root := tree_hash_root (sb_message anchor_block) in
  let checkpoint := mkCheckpoint (get_current_epoch anchor_state) anchor_root in
  let d := bd_set_time (Some (get_time_at_slot (genesis_time anchor_state) (slot anchor_state))) d in
  let d := bd_set_genesis_time (Some (genesis_time anchor_state)) d in
  let d := bd_set_justified (Some checkpoint) d in
  let d := bd_set_finalized (Some checkpoint) d in
  let d := bd_set_unrealized_justified (Some checkpoint) d in
  let d := bd_set_unrealized_finalized (Some checkpoint) d in
  let d := bd_set_proposer_boost_root (Some B256_ZERO) d in
  let d := bd_set_equivocating (Some ∅) d in
  let d := block_insert anchor_root anchor_block d in
  let d := bd_set_state (rd_insert anchor_root anchor_state (bd_state d)) d in
  let d := bd_set_state_root_index (rd_insert (state_root anchor_state) anchor_root (bd_state_root_index d)) d in
  let d := bd_set_slot_index (rd_insert (slot anchor_state) anchor_root (bd_slot_index d)) d in
  let d := cache_state checkpoint anchor_state d in
  let d := bd_set_unrealized_justifications (rd_insert anchor_root checkpoint (bd_unrealized_justifications d)) d in
  bd_set_previous_justified (Some checkpoint) d.

Definition get_forkchoice_store (anchor_state : BeaconState) (anchor_block : SignedBeaconBlock) (d : BeaconDB) : res anyhow Store :=
  ensure (bool_decide (b_state_root (sb_message anchor_block) = state_root anchor_state)) "anchor state root"%string;;
  store ← store_new (anchored_db anchor_state anchor_block d) pool_default None;
  let '(store, r) := enable_fork_choice_tree store in
  r;; Ok store.
End store.
