(* ===== verification/BeaconHandlers.v ===== *)
(** * The handlers of the beacon fork choice

    [crates/common/fork_choice/beacon/src/handlers.rs].  The execution engine is an
    argument: what [notify_new_payload] answers for a block body, its parent root and its
    slot.  It is asked while the transition runs and its answer awaited after it. *)

From stdpp Require Import strings.
From S2P Require Import Prelude StateMonad Redb Bytes Shuffling Merkle BeaconTypes BeaconAccess BeaconMutate BeaconEpoch BeaconBlockOps BeaconTransition LatestMessages BeaconDb ForkTree DataAvailability OperationPool SyncCommitteePool BeaconStore.

Inductive OnBlockOutcome : Type := Imported | PendingAvailabilityOutcome.

Section handlers.
Context {RD : Redb} {RM : RedbMulti}.
Context {H : Sha256} {F : CandidateFuel} {HO : HashOrder} {SV : SszVec}.
Context {R : Roots} {B : Bls} {N : BeaconNetworkSpec}.
Context {BA : BlsAggregate} {TH : TreeHash SignedBLSToExecutionChange} {FS : ForkChoiceSpec}.

Definition PayloadEngine : Type := BeaconBlockBody -> B256 -> Z -> res anyhow bool.

(** ** The proposer boost *)

Definition dependent_slot (epoch : Z) : Z := (compute_start_slot_at_epoch (epoch - MIN_SEED_LOOKAHEAD)%u64 - 1)%u64.

Definition get_dependent_root (s : Store) (root : B256) : res anyhow B256 :=
  epoch ← get_current_store_epoch s;
  if epoch <=? MIN_SEED_LOOKAHEAD then Ok B256_ZERO else get_ancestor s root (dependent_slot epoch).

Definition get_candidate_dependent_root (s : Store) (block_root : B256) (block_slot : Z) (parent_root : B256) : res anyhow B256 :=
  epoch ← get_current_store_epoch s;
  if epoch <=? MIN_SEED_LOOKAHEAD then Ok B256_ZERO
  else if dependent_slot epoch <? block_slot then get_ancestor s parent_root (dependent_slot epoch)
  else Ok block_root.

Definition is_same_dependent_root (s : Store) (head_root block_root : B256) (block_slot : Z) (parent_root : B256) : res anyhow bool :=
  candidate ← get_candidate_dependent_root s block_root block_slot parent_root;
  dependent ← get_dependent_root s head_root;
  Ok (bool_decide (candidate = dependent)).

Definition get_proposer_boost_root (s : Store) (block_root : B256) (block_slot : Z) (parent_root : B256) (is_timely : bool) :
    res anyhow (option B256) :=
  boost_root ← field (bd_proposer_boost_root (st_db s));
  let is_first_block := bool_decide (boost_root = B256_ZERO) in
  if negb is_timely || negb is_first_block then Ok None
  else
    head_root ← get_head s;
    same ← is_same_dependent_root s head_root block_root block_slot parent_root;
    Ok (if (same : bool) then Some block_root else None).

(** ** Import *)

(** Whether the block came in its own slot before attesting is due. *)
Definition block_is_timely (s : Store) (block_slot : Z) : res anyhow bool :=
  t ← time_into_slot_ms s;
  current ← get_current_slot s;
  Ok ((current =? block_slot) && (t <? get_slot_component_duration_ms attestation_due_bps)).

(** The checkpoints after a block with post-state [state]. *)
Definition import_checkpoints (checkpoints : StoreCheckpoints) (state : BeaconState) (pulled_up : JustificationAndFinalization)
    (current_epoch : Z) : StoreCheckpoints :=
  let c := realize (current_justified_checkpoint state) (finalized_checkpoint state) (previous_justified_checkpoint state) checkpoints in
  let c := pull_up (jf_current_justified_checkpoint pulled_up) (jf_finalized_checkpoint pulled_up) c in
  if compute_epoch_at_slot (slot state) <? current_epoch
  then realize (jf_current_justified_checkpoint pulled_up) (jf_finalized_checkpoint pulled_up)
         (jf_previous_justified_checkpoint pulled_up) c
  else c.

Definition process_available_block (now : Z) (pending : PendingBlock (State := BeaconState)) (block_root : B256) : SM unit :=
  let signed_block := pb_signed_block pending in
  let block_slot := b_slot (sb_message signed_block) in
  let parent_root := b_parent_root (sb_message signed_block) in
  let state := pb_post_state pending in
  is_timely ← reads (fun s => block_is_timely s block_slot);
  boost_root ← reads (fun s => get_proposer_boost_root s block_root block_slot parent_root is_timely);
  pulled_up ← lift (compute_justification_and_finalization state);
  current_epoch ← reads get_current_store_epoch;
  checkpoints ← reads (fun s => read_checkpoints (st_db s));
  let w := writes (import_checkpoints checkpoints state pulled_up current_epoch) in
  on_db (commit_block_import (mkBlockImportData block_root signed_block state
           (mkForkChoiceRecord is_timely boost_root (jf_current_justified_checkpoint pulled_up) w)));;
  lift (get_shuffled_active_validator_indices state (get_current_epoch state));;
  publish_checkpoint_writes w;;
  fork_choice_insert_block now block_root parent_root block_slot (current_justified_checkpoint state);;
  refresh_fork_choice now.

(** The columns in the database that came before the block. *)
Fixpoint backfill_columns (column_slot : B256 -> Z -> option Z) (root : B256) (columns : list Z)
    (c : DataAvailabilityChecker (State := BeaconState)) :
    DataAvailabilityChecker (State := BeaconState) * option (PendingBlock (State := BeaconState)) :=
  match columns with
  | [] => (c, None)
  | column_index :: columns' =>
      match column_slot root column_index with
      | None => backfill_columns column_slot root columns' c
      | Some s =>
          let '(c, available) := take_if_complete root (add_column root column_index s c) in
          match available with
          | Some pending => (c, Some pending)
          | None => backfill_columns column_slot root columns' c
          end
      end
  end.
(** [column_slot root i]: the slot in the header of the stored sidecar for column [i], a
    file of the sidecar table. *)
Definition backfill_data_availability_columns (column_slot : B256 -> Z -> option Z) (root : B256) :
    SM (option (PendingBlock (State := BeaconState))) := fun s =>
  let '(c, available) := backfill_columns column_slot root (hs_iter (da_required_columns (st_availability s))) (st_availability s) in
  (st_set_availability c s, Ok available).

Definition take_available (root : B256) : SM (option (PendingBlock (State := BeaconState))) := fun s =>
  let '(c, available) := take_if_complete root (st_availability s) in (st_set_availability c s, Ok available).

Definition check_signed_payload (engine : PayloadEngine) (signed_block : SignedBeaconBlock) (proposer_key : PublicKey)
    (domain : B256) : res anyhow bool :=
  let header := signed_header signed_block in
  valid ← bls_verify (sbh_signature header) proposer_key (compute_signing_root (sbh_message header) domain);
  ensure valid "Invalid block signature"%string;;
  engine (b_body (sb_message signed_block)) (b_parent_root (sb_message signed_block)) (b_slot (sb_message signed_block)).

(** The checks before the state transition. *)
Definition check_block (s : Store) (block : BeaconBlock) : res anyhow BeaconBlock :=
  let d := st_db s in
  ensure (bool_decide (is_Some (rd_get (bd_state d) (b_parent_root block)))) "Missing parent block state"%string;;
  current_slot ← get_current_slot s;
  ensure (b_slot block <=? current_slot) "Block slot is ahead of current slot"%string;;
  finalized ← field (bd_finalized d);
  ensure (compute_start_slot_at_epoch (cp_epoch finalized) <? b_slot block) "Block slot must be greater than finalized slot"%string;;
  finalized_checkpoint_block ← get_checkpoint_block s (b_parent_root block) (cp_epoch finalized);
  ensure (bool_decide (cp_root finalized = finalized_checkpoint_block)) "finalized descendant"%string;;
  parent ← ok_or (rd_get (bd_block d) (b_parent_root block)) "parent block not found"%string;
  Ok (sb_message parent).

(** The post-state, and the state at the start of the block's epoch when it is known. *)
Definition run_transition (s : Store) (signed_block : SignedBeaconBlock) (parent_block : BeaconBlock) (engine : option PayloadEngine) :
    res anyhow (BeaconState * option BeaconState * bool) :=
  let d := st_db s in
  let block := sb_message signed_block in
  let block_epoch := compute_epoch_at_slot (b_slot block) in
  let advanced := if compute_epoch_at_slot (b_slot parent_block) <? block_epoch
                  then in_memory d (mkCheckpoint block_epoch (b_parent_root block)) else None in
  pre ← match advanced with
        | Some state => Ok state
        | None => ok_or (rd_get (bd_state d) (b_parent_root block)) "beacon state not found"%string
        end;
  payload ← match engine with
            | None => Ok None
            | Some e =>
                v ← ok_or (validators pre !! Z.to_nat (b_proposer_index block)) "Invalid block proposer index"%string;
                Ok (Some (e, public_key v, get_domain pre DOMAIN_BEACON_PROPOSER (Some block_epoch)))
            end;
  post ← (match advanced with
          | Some start =>
              let '(state, r) := state_transition_from_epoch_start signed_block true None pre in
              r;; Ok (state, Some start)
          | None =>
              let '(state, r) := state_transition_keeping_epoch_start signed_block true None (Some (b_state_root parent_block)) pre in
              start ← r; Ok (state, start)
          end);
  match payload with
  | None => Ok tt
  | Some (e, key, domain) =>
      valid ← check_signed_payload e signed_block key domain;
      ensure valid "Execution payload is not valid"%string
  end;;
  Ok (post.1, post.2, match advanced with Some _ => true | None => false end).

Definition on_block_with_root (now : Z) (column_slot : B256 -> Z -> option Z) (signed_block : SignedBeaconBlock) (block_root : B256)
    (engine : option PayloadEngine) (verify_data_availability : bool) : SM OnBlockOutcome :=
  let block := sb_message signed_block in
  let block_epoch := compute_epoch_at_slot (b_slot block) in
  let epoch_start_checkpoint := mkCheckpoint block_epoch (b_parent_root block) in
  parent_block ← reads (fun s => check_block s block);
  r ← reads (fun s => run_transition s signed_block parent_block engine);
  let state : BeaconState := r.1.1 in
  let epoch_start_state : option BeaconState := r.1.2 in
  (if b_slot block =? compute_start_slot_at_epoch block_epoch
   then cache_fork_choice_balances (mkCheckpoint block_epoch block_root) state
   else match epoch_start_state with
        | Some start => cache_fork_choice_balances epoch_start_checkpoint start
        | None => mret tt
        end);;
  match epoch_start_state with
  | Some start => if (r.2 : bool) then mret tt else modify_db (cache_state epoch_start_checkpoint start)
  | None => mret tt
  end;;
  let pending := mkPendingBlock signed_block state in
  if negb verify_data_availability then
    process_available_block now pending block_root;; mret Imported
  else
    modify (fun s => st_set_availability (insert_pending block_root signed_block state (st_availability s)) s);;
    available ← take_available block_root;
    available ← match available with
                | Some available => mret (Some available)
                | None => backfill_data_availability_columns column_slot block_root
                end;
    match available with
    | Some available => process_available_block now available block_root;; mret Imported
    | None => mret PendingAvailabilityOutcome
    end.

(** ** Attestations *)

Definition is_on_chain_of (s : Store) (block_root : B256) (target : Checkpoint) : res anyhow bool :=
  a ← get_ancestor s block_root (compute_start_slot_at_epoch (cp_epoch target));
  Ok (bool_decide (a = cp_root target)).

Definition shares_target_shuffling (s : Store) (state_epoch : Z) (state_block_root : B256) (target : Checkpoint) : res anyhow bool :=
  let held_by_state := (state_epoch <=? (cp_epoch target + 1)%u64) && (cp_epoch target <=? (state_epoch + 1)%u64) in
  if (cp_epoch target <=? MIN_SEED_LOOKAHEAD) || negb held_by_state then Ok false
  else
    let decision_slot := dependent_slot (cp_epoch target) in
    a ← get_ancestor s state_block_root decision_slot;
    b ← get_ancestor s (cp_root target) decision_slot;
    Ok (bool_decide (a = b)).

(** The attesting indices of one attestation of a block, and the target states read so far. *)
Definition block_attestation (s : Store) (block_root : B256) (block_state : option BeaconState)
    (target_states : gmap Checkpoint BeaconState) (attestation : Attestation) :
    gmap Checkpoint BeaconState * res anyhow (list Z) :=
  let target := ad_target (att_data attestation) in
  match validate_on_attestation s attestation true with
  | Err e => (target_states, Err e) | Panic => (target_states, Panic) | NoFuel => (target_states, NoFuel)
  | Ok _ =>
      let shared := match block_state with
                    | Some state => b ← shares_target_shuffling s (get_current_epoch state) block_root target;
                                    Ok (if (b : bool) then Some state else None)
                    | None => Ok None
                    end in
      match shared with
      | Err e => (target_states, Err e) | Panic => (target_states, Panic) | NoFuel => (target_states, NoFuel)
      | Ok (Some state) => (target_states, indexed ← get_indexed_attestation state attestation; Ok (attesting_indices indexed))
      | Ok None =>
          let found := match target_states !! target with
                       | Some state => Ok state
                       | None => state ← checkpoint_state (st_db s) target; ok_or state "checkpoint_states not found"%string
                       end in
          match found with
          | Err e => (target_states, Err e) | Panic => (target_states, Panic) | NoFuel => (target_states, NoFuel)
          | Ok state =>
              (<[target := state]> target_states,
               indexed ← get_indexed_attestation state attestation;
               on_chain ← is_on_chain_of s block_root target;
               (if (on_chain : bool) then Ok tt
                else valid ← is_valid_indexed_attestation state indexed;
                     ensure valid "Attestation signature must be valid for the target state"%string);;
               Ok (attesting_indices indexed))
          end
      end
  end.

(** The votes of the valid attestations and one result per attestation. *)
Fixpoint collect_votes (s : Store) (block_root : B256) (block_state : option BeaconState)
    (target_states : gmap Checkpoint BeaconState) (l : list Attestation) :
    res anyhow (list (list Z * Attestation) * list (res anyhow unit)) :=
  match l with
  | [] => Ok ([], [])
  | attestation :: l' =>
      let '(target_states, r) := block_attestation s block_root block_state target_states attestation in
      match r with
      | Panic => Panic
      | NoFuel => NoFuel
      | Ok indices => rest ← collect_votes s block_root block_state target_states l';
                      Ok ((indices, attestation) :: rest.1, Ok tt :: rest.2)
      | Err e => rest ← collect_votes s block_root block_state target_states l'; Ok (rest.1, Err e :: rest.2)
      end
  end.

Definition fail_all (e : anyhow) (results : list (res anyhow unit)) : list (res anyhow unit) :=
  (fun r => match r with Ok _ => Err (String.append "failed to update latest messages: " e) | _ => r end) <$> results.

Definition on_block_attestations (now : Z) (block_root : B256) (l : list Attestation) : SM (list (res anyhow unit)) :=
  block_state ← reads (fun s => Ok (rd_get (bd_state (st_db s)) block_root));
  vr ← reads (fun s => collect_votes s block_root block_state ∅ l);
  try_or (update_latest_messages_batch now vr.1;; mret vr.2) (fun e => mret (fail_all e vr.2)).

Definition on_attestation (now : Z) (attestation : Attestation) (is_from_block : bool) : SM unit :=
  reads (fun s => validate_on_attestation s attestation is_from_block);;
  indexed ← reads (fun s =>
    state ← checkpoint_state (st_db s) (ad_target (att_data attestation));
    state ← ok_or state "checkpoint_states not found"%string;
    indexed ← get_indexed_attestation state attestation;
    valid ← is_valid_indexed_attestation state indexed;
    ensure valid "is_valid_indexed_attestation"%string;;
    Ok indexed);
  update_latest_messages now (attesting_indices indexed) attestation.

Definition on_attester_slashing (slashing : AttesterSlashing) : SM unit :=
  lift (ensure (is_slashable_attestation_data (ia_data (attestation_1 slashing)) (ia_data (attestation_2 slashing)))
          "is_slashable_attestation_data"%string);;
  reads (fun s =>
    justified ← field (bd_justified (st_db s));
    state ← ok_or (rd_get (bd_state (st_db s)) (cp_root justified)) "beacon state not found"%string;
    valid_1 ← is_valid_indexed_attestation state (attestation_1 slashing);
    ensure valid_1 "is_valid_indexed_attestation 1"%string;;
    valid_2 ← is_valid_indexed_attestation state (attestation_2 slashing);
    ensure valid_2 "is_valid_indexed_attestation 2"%string);;
  let indices_1 : gset Z := list_to_set (attesting_indices (attestation_1 slashing)) in
  let indices_2 : gset Z := list_to_set (attesting_indices (attestation_2 slashing)) in
  let newly := hs_iter (indices_1 ∩ indices_2) in
  modify_db (fun d => bd_set_equivocating (Some (foldl (fun e i => {[ i ]} ∪ e) (default ∅ (bd_equivocating d)) newly)) d);;
  fork_choice_mark_equivocating newly.

(** ** Ticks *)

(** The loop ticks once for every slot it is behind. *)
Fixpoint tick_loop (fuel : nat) (now genesis_time tick_slot : Z) : SM unit := fun s =>
  match get_current_slot s with
  | Err e => (s, Err e) | Panic => (s, Panic) | NoFuel => (s, NoFuel)
  | Ok current =>
      if current <? tick_slot then
        match fuel with
        | O => (s, NoFuel)
        | S fuel' =>
            (on_tick_per_slot now (get_time_at_slot genesis_time (current + 1)%u64);;
             tick_loop fuel' now genesis_time tick_slot) s
        end
      else (s, Ok tt)
  end.
Definition on_tick (now time : Z) : SM unit :=
  genesis_time ← reads (fun s => field (bd_genesis_time (st_db s)));
  if time <? genesis_time then mret tt
  else
    let tick_slot := get_slots_since_genesis_at time genesis_time in
    current ← reads get_current_slot;
    tick_loop (Z.to_nat (tick_slot - current)) now genesis_time tick_slot;;
    on_tick_per_slot now time.
End handlers.
