(* ===== verification/BeaconWalks.v ===== *)
(** * Ancestors in the database and in the tree

    Both ways [get_ancestor] has of going up a chain find the same block, and end. *)

From stdpp Require Import strings.
From S2P Require Import Prelude StateMonad Redb Bytes Shuffling Merkle BeaconTypes BeaconAccess BeaconMutate BeaconEpoch BeaconBlockOps BeaconTransition LatestMessages BeaconDb ForkTree ForkTreeFacts ForkTreeWeights DataAvailability OperationPool SyncCommitteePool BeaconStore.

(** Run the [Ok] steps of a computation. *)
Ltac run_ok := cbn [field ok_or]; repeat (progress change (Ok ?a ≫= ?k) with (k a); cbv beta; cbn [field ok_or]).

Section walks.
Context {RD : Redb} {RDL : RedbLaws RD} {RM : RedbMulti}.
Context {H : Sha256} {F : CandidateFuel} {HO : HashOrder} {SV : SszVec}.
Context {R : Roots} {B : Bls} {N : BeaconNetworkSpec}.
Context {BA : BlsAggregate} {TH : TreeHash SignedBLSToExecutionChange} {FS : ForkChoiceSpec}.
Implicit Types (d : BeaconDB) (s : Store) (t : ForkChoiceTree).

Definition block_at d (x : B256) : option BeaconBlock := sb_message <$> rd_get (bd_block d) x.

Lemma block_at_get d x b : block_at d x = Some b <-> exists sb, rd_get (bd_block d) x = Some sb /\ sb_message sb = b.
Proof. unfold block_at. rewrite fmap_Some. naive_solver. Qed.

(** The ancestor of [x] at [slot]: the first block on the way up at or before it. *)
Inductive db_anc d (slot : Z) : B256 -> B256 -> Prop :=
| anc_here x b : block_at d x = Some b -> b_slot b <= slot -> db_anc d slot x x
| anc_up x b a : block_at d x = Some b -> slot < b_slot b -> db_anc d slot (b_parent_root b) a -> db_anc d slot x a.

Lemma db_anc_det d slot x a : db_anc d slot x a -> forall a', db_anc d slot x a' -> a = a'.
Proof.
  induction 1 as [x b Hb Hs|x b a Hb Hs Ha IH]; intros a' Ha'; inversion Ha'; simplify_eq; try done; try lia.
  by apply IH.
Qed.

Lemma db_anc_known d slot x a : db_anc d slot x a -> is_Some (block_at d x) /\ exists b, block_at d a = Some b /\ b_slot b <= slot.
Proof.
  induction 1 as [x b Hb Hs|x b a Hb Hs Ha [_ IH]]; (split; [by exists b|]); [by exists b|done].
Qed.

(** Every block after slot [lo] has its parent stored, with an earlier slot. *)
Definition linked d (lo : Z) : Prop := forall x b, block_at d x = Some b -> lo < b_slot b ->
  exists p, block_at d (b_parent_root b) = Some p /\ b_slot p < b_slot b.

Lemma db_anc_exists d lo slot : linked d lo -> lo <= slot ->
  forall x, is_Some (block_at d x) -> exists a, db_anc d slot x a.
Proof.
  intros Hl Hs. enough (forall k x b, block_at d x = Some b -> b_slot b < lo + Z.of_nat k -> exists a, db_anc d slot x a) as Hk.
  { intros x [b Hb]. apply (Hk (S (Z.to_nat (b_slot b - lo))) x b Hb). lia. }
  induction k as [|k IH]; intros x b Hb Hk.
  - exists x. eapply anc_here; [done|lia].
  - destruct (decide (b_slot b <= slot)) as [?|Hgt]; [exists x; by eapply anc_here|].
    destruct (Hl x b Hb) as (p & Hp & Hlt); [lia|]. destruct (IH _ p Hp) as (a & Ha); [lia|].
    exists a. eapply anc_up; [done|lia|done].
Qed.

(** ** Enough rounds *)

Lemma filtered_fuel d (P : B256 * SignedBeaconBlock -> Prop) `{!forall x, Decision (P x)} :
  (size (filter P (rd_view (bd_block d))) < block_fuel d)%nat.
Proof.
  unfold block_fuel. apply Nat.lt_succ_r. etrans; [apply map_subseteq_size, map_filter_subseteq|].
  by rewrite rd_iter_perm, length_map_to_list.
Qed.

Definition below d (slot : Z) : nat :=
  size (filter (fun xb : B256 * SignedBeaconBlock => b_slot (sb_message xb.2) < slot) (rd_view (bd_block d))).

Lemma below_lt d x b slot : block_at d x = Some b -> b_slot b < slot -> (below d (b_slot b) < below d slot)%nat.
Proof.
  intros (sb & Hsb & <-)%block_at_get Hs. rewrite rd_get_view in Hsb.
  apply (size_filter_lt _ _ _ x sb); [|done|done|]; cbn; [intros [y m]; cbn|]; lia.
Qed.

Lemma below_fuel d slot : (below d slot < block_fuel d)%nat.
Proof. apply filtered_fuel. Qed.

Lemma walk_db d lo slot x a : linked d lo -> lo <= slot -> db_anc d slot x a ->
  forall fuel b, block_at d x = Some b -> (below d (b_slot b) <= fuel)%nat -> get_ancestor_from_db_loop fuel d x slot = Ok a.
Proof.
  intros Hl Hlo. induction 1 as [x b Hb Hs|x b a Hb Hs Ha IH]; intros fuel b' Hb' Hf; assert (b' = b) as -> by congruence.
  - apply block_at_get in Hb as (sb & Hsb & <-). unfold get_ancestor_from_db_loop, slot_and_parent_root.
    destruct fuel; rewrite Hsb; cbn; by rewrite (proj2 (Z.ltb_ge _ _)).
  - destruct (Hl x b Hb) as (p & Hp & Hlt); [lia|]. pose proof (below_lt d _ p (b_slot b) Hp Hlt).
    destruct fuel as [|fuel]; [lia|]. specialize (IH fuel p Hp). apply block_at_get in Hb as (sb & Hsb & <-).
    cbn. unfold slot_and_parent_root. rewrite Hsb. cbn. rewrite (proj2 (Z.ltb_lt _ _)) by done. apply IH. lia.
Qed.

Lemma get_ancestor_from_db_spec d lo slot x a : linked d lo -> lo <= slot -> db_anc d slot x a ->
  get_ancestor_from_db d x slot = Ok a.
Proof.
  intros Hl Hs Ha. destruct (db_anc_known _ _ _ _ Ha) as [[b Hb] _]. eapply walk_db; [done..|].
  pose proof (below_fuel d (b_slot b)). lia.
Qed.

(** ** The tree *)

(** The blocks of the tree are stored, with the slots and parents the tree has. *)
Definition mirrors t d : Prop := forall x n, ft_nodes t !! x = Some n ->
  exists b, block_at d x = Some b /\ b_slot b = fn_slot n /\ forall p, fn_parent n = Some p -> b_parent_root b = p.

Definition root_slot t : Z := default 0 (fn_slot <$> ft_nodes t !! ft_root t).

Lemma forest_root_slot t x n : forest (ft_root t) (ft_nodes t) -> ft_nodes t !! x = Some n -> root_slot t <= fn_slot n.
Proof.
  intros Fo Hx. unfold root_slot. destruct (fo_root _ _ Fo) as (r & Hr & _). rewrite Hr. cbn.
  destruct (decide (x = ft_root t)) as [->|Hne]; [naive_solver lia|].
  pose proof (up_ancestors _ _ _ Fo (mk_is_Some _ _ Hx)) as Hup.
  pose proof (ancestors_root _ _ x Fo (mk_is_Some _ _ Hx)) as Hin.
  destruct (fn_parent n) as [p|] eqn:Hp; [|by destruct (fo_orphan _ _ Fo x n Hx Hp)].
  rewrite (ancestors_parent _ _ x n p Fo Hx Hp) in Hup, Hin. apply elem_of_cons in Hin as [?|Hin]; [congruence|].
  pose proof (up_slots Fo x n _ Hx Hup _ r Hin Hr). lia.
Qed.

Lemma tree_anc t d x l slot : forest (ft_root t) (ft_nodes t) -> mirrors t d -> up (ft_nodes t) x l -> root_slot t <= slot ->
  forall fuel, (length l <= fuel)%nat -> exists a, ancestor_loop fuel (ft_nodes t) x slot = Ok (Some a) /\ db_anc d slot x a.
Proof.
  intros Fo Hm Hup Hs. induction Hup as [x n Hx Hp|x n p l Hx Hp Hl IH]; intros fuel Hf; destruct fuel as [|fuel];
    cbn in Hf; try lia; cbn; rewrite Hx; destruct (Hm x n Hx) as (b & Hb & Es & Ep).
  - assert (fn_slot n <= slot) as Hle.
    { pose proof (fo_orphan _ _ Fo x n Hx Hp) as ->. unfold root_slot in Hs. by rewrite Hx in Hs. }
    rewrite (proj2 (Z.leb_le _ _)) by done. exists x. split; [done|]. eapply anc_here; [done|lia].
  - destruct (fn_slot n <=? slot) eqn:Hle; b2p; [exists x; split; [done|]; eapply anc_here; [done|lia]|].
    rewrite Hp. destruct (IH fuel) as (a & E & Ha); [lia|]. exists a. split; [done|].
    eapply anc_up; [done|lia|]. by rewrite (Ep p Hp).
Qed.

Lemma ancestor_in_tree t d x slot : forest (ft_root t) (ft_nodes t) -> mirrors t d -> root_slot t <= slot ->
  is_Some (ft_nodes t !! x) -> exists a, ancestor t x slot = Ok (Some a) /\ db_anc d slot x a.
Proof.
  intros Fo Hm Hs Hx. destruct (up_exists Fo x Hx) as (l & Hl & Hle). by eapply tree_anc.
Qed.

Lemma tree_ancestor_outside t x slot : ft_nodes t !! x = None -> ancestor t x slot = Ok None.
Proof. intros Hx. unfold ancestor, walk_bound. destruct (size (ft_nodes t)); cbn; by rewrite Hx. Qed.

(** ** Both ways *)

(** The tree of the store, if there is one, mirrors the database. *)
Definition tree_ok s (lo : Z) : Prop :=
  match st_fork_choice s with
  | Some t => forest (ft_root t) (ft_nodes t) /\ mirrors t (st_db s) /\ root_slot t <= lo
  | None => True
  end.

Lemma get_ancestor_loop_spec s lo slot x a : linked (st_db s) lo -> tree_ok s lo -> lo <= slot -> db_anc (st_db s) slot x a ->
  forall fuel b, block_at (st_db s) x = Some b -> (below (st_db s) (b_slot b) <= fuel)%nat ->
  get_ancestor_loop fuel s x slot = Ok a.
Proof.
  intros Hl Ht Hlo Ha. induction Ha as [x b Hb Hs|x b a Hb Hs Ha IH]; intros fuel b' Hb' Hf; assert (b' = b) as -> by congruence.
  all: assert (match st_fork_choice s with Some tree => ancestor tree x slot | None => Ok None end =
         match st_fork_choice s with Some tree => if decide (is_Some (ft_nodes tree !! x)) then ancestor tree x slot else Ok None | None => Ok None end) as E
         by (destruct (st_fork_choice s) as [t|]; [|done]; case_decide as Hx; [done|];
             apply tree_ancestor_outside; by apply eq_None_not_Some).
  - destruct fuel; cbn; rewrite E; clear E; unfold tree_ok in Ht; destruct (st_fork_choice s) as [t|]; [case_decide as Hx| |case_decide as Hx|].
    1, 4: destruct Ht as (Fo & Hm & Hr); destruct (ancestor_in_tree t (st_db s) x slot Fo Hm) as (a & -> & Ha); [lia|done|];
      cbn; f_equal; by eapply db_anc_det; [|eapply anc_here].
    all: apply block_at_get in Hb as (sb & Hsb & <-); cbn; rewrite Hsb; cbn; by rewrite (proj2 (Z.ltb_ge _ _)).
  - destruct (Hl x b Hb) as (p & Hp & Hlt); [lia|]. pose proof (below_lt (st_db s) _ p (b_slot b) Hp Hlt).
    destruct fuel as [|fuel]; [lia|]. specialize (IH fuel p Hp). cbn. rewrite E. clear E.
    assert (forall a', db_anc (st_db s) slot x a' -> a' = a) as Hdet.
    { intros a' Ha'. eapply db_anc_det; [done|]. by eapply anc_up. }
    unfold tree_ok in Ht. destruct (st_fork_choice s) as [t|]; [case_decide as Hx|].
    + destruct Ht as (Fo & Hm & Hr). destruct (ancestor_in_tree t (st_db s) x slot Fo Hm) as (a' & -> & Ha'); [lia|done|].
      cbn. by rewrite (Hdet a' Ha').
    + apply block_at_get in Hb as (sb & Hsb & <-). cbn. rewrite Hsb. cbn. rewrite (proj2 (Z.ltb_lt _ _)) by done. apply IH. lia.
    + apply block_at_get in Hb as (sb & Hsb & <-). cbn. rewrite Hsb. cbn. rewrite (proj2 (Z.ltb_lt _ _)) by done. apply IH. lia.
Qed.

Lemma get_ancestor_spec s lo slot x : linked (st_db s) lo -> tree_ok s lo -> lo <= slot -> is_Some (block_at (st_db s) x) ->
  exists a, get_ancestor s x slot = Ok a /\ db_anc (st_db s) slot x a.
Proof.
  intros Hl Ht Hs [b Hb]. destruct (db_anc_exists _ lo slot Hl Hs x (mk_is_Some _ _ Hb)) as (a & Ha). exists a.
  split; [|done]. eapply get_ancestor_loop_spec; [done..|]. pose proof (below_fuel (st_db s) (b_slot b)). lia.
Qed.
End walks.
