(* ===== verification/BeaconSync.v ===== *)
(** * The tree and the database agree

    When the fork choice tree is in step with the database ([synced]), the weight the tree
    holds for a block is the one [get_weight] sums up over the validators, its viability the
    one [filter_block_tree] finds, and its head the one [get_head_from_db] computes. *)

From stdpp Require Import strings.
From S2P Require Import Prelude StateMonad Redb Bytes Shuffling Merkle BeaconTypes BeaconAccess BeaconMutate BeaconEpoch BeaconBlockOps BeaconTransition BeaconFacts LatestMessages BeaconDb ForkTree ForkTreeFacts ForkTreeWeights ForkTreeInvariant ForkTreeBlocks ForkTreeSpec DataAvailability OperationPool SyncCommitteePool BeaconStore BeaconWalks.

#[local] Arguments get_ancestor : simpl never.
#[local] Arguments get_weight : simpl never.
#[local] Arguments get_voting_source : simpl never.
#[local] Arguments get_current_store_epoch : simpl never.
#[local] Arguments filter_leaf : simpl never.

(** ** Sums over a list and over a map *)

Lemma sum_list_map (c : Z -> AppliedVote -> Z) (g : Z -> Z) l : forall m : gmap Z AppliedVote,
  NoDup l -> (forall i, i ∈ l -> g i = match m !! i with Some v => c i v | None => 0 end) ->
  (forall i v, m !! i = Some v -> i ∉ l -> c i v = 0) -> sumZ (g <$> l) = msum c m.
Proof.
  induction l as [|i l IH]; intros m Hnd Hg Hc.
  - symmetry. apply msum_zero. intros i v Hi. apply Hc; [done|apply not_elem_of_nil].
  - apply NoDup_cons in Hnd as [Hi Hnd]. cbn. rewrite (IH (delete i m)); [|done| |].
    + rewrite Hg by set_solver. destruct (m !! i) as [v|] eqn:E; [by rewrite (msum_delete c m i v E)|].
      by rewrite delete_id.
    + intros j Hj. rewrite lookup_delete_ne by (intros ->; done). apply Hg. set_solver.
    + intros j v [Hne Hj]%lookup_delete_Some Hn. apply Hc; [done|]. set_solver.
Qed.

Lemma foldM_sum {A} (f : A -> res anyhow Z) (g : A -> Z) l : forall acc,
  (forall a, a ∈ l -> f a = Ok (g a)) ->
  foldM (fun score a => b ← f a; Ok (score + b)%u64) (wrap64 acc) l = Ok (wrap64 (acc + sumZ (g <$> l))).
Proof.
  induction l as [|a l IH]; intros acc Hf; cbn.
  - do 2 f_equal. lia.
  - rewrite Hf by set_solver. cbn. replace (wrap64 acc + g a)%u64 with (wrap64 (acc + g a)).
    + rewrite IH by (intros; apply Hf; set_solver). do 2 f_equal. lia.
    + unfold u64_add, wrap64. by rewrite Zplus_mod_idemp_l.
Qed.

Lemma foldM_sum0 {A} (f : A -> res anyhow Z) (g : A -> Z) l :
  (forall a, a ∈ l -> f a = Ok (g a)) ->
  foldM (fun score a => b ← f a; Ok (score + b)%u64) 0 l = Ok (wrap64 (sumZ (g <$> l))).
Proof. exact (foldM_sum f g l 0). Qed.

(** ** The last of a sorted list *)

Lemma sorted_last {A} (le : A -> A -> Prop) l a : StronglySorted le l -> last l = Some a -> forall b, b ∈ l -> b = a \/ le b a.
Proof.
  induction 1 as [|x l Hs IH Hx]; intros El b Hb; [done|]. rewrite last_cons in El. destruct (last l) as [a'|] eqn:E.
  - injection El as ->. apply elem_of_cons in Hb as [->|Hb]; [|by apply IH]. right. rewrite Forall_forall in Hx.
    apply Hx. apply last_Some in E as (l' & ->). set_solver.
  - injection El as ->. apply last_None in E as ->. left. set_solver.
Qed.

Lemma weight_leb_key a b : weight_leb a b = true <-> key_le (a.2, a.1) (b.2, b.1).
Proof. unfold weight_leb, key_le. cbn. by rewrite orb_true_iff, andb_true_iff, Z.ltb_lt, Z.eqb_eq. Qed.

Lemma weight_leb_max l a : last (sort_by weight_leb l) = Some a -> a ∈ l /\ forall b, b ∈ l -> key_le (b.2, b.1) (a.2, a.1).
Proof.
  intros El. split.
  - apply last_Some in El as (l' & El). rewrite <-(sort_by_perm weight_leb l), El. set_solver.
  - intros b Hb. rewrite <-(sort_by_perm weight_leb l) in Hb.
    edestruct (sorted_last (fun x y => weight_leb x y = true)) as [->|Hle%weight_leb_key]; [|exact El|exact Hb| |done].
    + apply sort_by_sorted.
      * intros x y z. rewrite !weight_leb_key. apply key_le_trans.
      * intros x y Hf. apply weight_leb_key. apply key_le_total. intros Hk%weight_leb_key. congruence.
    + apply key_le_refl.
Qed.

(** ** Weights by vote *)

Lemma subtree_votes root nodes votes x : forest root nodes ->
  subtree_weight nodes (vote_weight votes) x =
  msum (fun _ vote => if decide (x ∈ ancestors nodes (av_root vote)) then av_balance vote else 0) votes.
Proof.
  intros F. unfold subtree_weight, vote_weight.
  rewrite (msum_ext _ (fun y n => msum (fun _ vote => if decide (x ∈ ancestors nodes y) then
     if decide (av_root vote = y) then av_balance vote else 0 else 0) votes)).
  2: { intros y n Hy. case_decide; [done|]. symmetry. by apply msum_zero. }
  rewrite msum_swap. apply msum_ext. intros i vote Hi. destruct (nodes !! av_root vote) as [n|] eqn:Hr.
  - rewrite (msum_single _ nodes (av_root vote) n Hr); [by rewrite (decide_True (P := av_root vote = av_root vote))|].
    intros y m Hy Hne. case_decide; [|done]. by rewrite decide_False by congruence.
  - rewrite msum_zero; [by rewrite ancestors_None by done|]. intros y m Hy. case_decide; [|done].
    rewrite decide_False; [done|]. intros <-. congruence.
Qed.

Lemma subtree_boost root nodes boost x : forest root nodes ->
  subtree_weight nodes (boost_weight boost) x =
  match boost with Some (r, score) => if decide (x ∈ ancestors nodes r) then score else 0 | None => 0 end.
Proof.
  intros F. unfold subtree_weight, boost_weight. destruct boost as [[r score]|].
  2: { apply msum_zero. intros y n _. by case_decide. }
  destruct (nodes !! r) as [n|] eqn:Hr.
  - rewrite (msum_single _ nodes r n Hr); [by rewrite (decide_True (P := r = r))|].
    intros y m Hy Hne. case_decide; [|done]. by rewrite decide_False by congruence.
  - rewrite msum_zero; [by rewrite ancestors_None by done|]. intros y m Hy. case_decide; [|done].
    rewrite decide_False; [done|]. intros <-. congruence.
Qed.

Lemma support_sum t x : tree_inv t ->
  support t x =
  msum (fun _ vote => if decide (x ∈ ancestors (ft_nodes t) (av_root vote)) then av_balance vote else 0) (ft_votes t) +
  match ft_boost t with Some (r, score) => if decide (x ∈ ancestors (ft_nodes t) r) then score else 0 | None => 0 end.
Proof.
  intros I. pose proof (tr_forest _ _ (ti_tracks _ I)) as F.
  rewrite <-(subtree_votes _ _ _ _ F), <-(subtree_boost _ _ _ _ F). unfold support, subtree_weight, own_weight.
  rewrite <-msum_plus. apply msum_ext. intros y n _. case_decide; lia.
Qed.

Lemma support_bounds t x : tree_inv t -> 0 <= support t x < 2 ^ 62.
Proof.
  intros [T Hw Hv Hb S]. destruct (own_weight_bounds t (ft_nodes t) Hv S Hb) as [Hpos Htot].
  pose proof (subtree_weight_bounds (ft_nodes t) (own_weight t) x (fun y _ => Hpos y)). unfold support. lia.
Qed.

Section sync.
Context {RD : Redb} {RDL : RedbLaws RD} {RM : RedbMulti}.
Context {H : Sha256} {F : CandidateFuel} {HO : HashOrder} {HOL : HashOrderLaws HO} {SV : SszVec}.
Context {R : Roots} {B : Bls} {N : BeaconNetworkSpec}.
Context {BA : BlsAggregate} {TH : TreeHash SignedBLSToExecutionChange} {FS : ForkChoiceSpec}.
Implicit Types (d : BeaconDB) (s : Store) (t : ForkChoiceTree).

(** ** Balances *)

Lemma unslashed_spec state : exists l, unslashed_and_active_indices state = Ok l /\ NoDup l /\
  forall i, i ∈ l <-> 0 <= i /\ exists v, validators state !! Z.to_nat i = Some v /\
    is_active_validator v (get_current_epoch state) = true /\ slashed v = false.
Proof.
  unfold unslashed_and_active_indices. rewrite active_kept. set (act := kept _ _).
  set (sl := fun i => default false (slashed <$> validators state !! Z.to_nat i)).
  rewrite (mapR_fmap _ (fun i => (i, sl i))).
  2: { intros i Hi. apply elem_of_kept in Hi as [_ (v & Hv & _)]. unfold index, sl. by rewrite Hv. }
  cbn. eexists. split; [done|].
  assert (forall l, (filter (fun ib : Z * bool => ib.2 = false) ((fun i => (i, sl i)) <$> l)).*1 = filter (fun i => sl i = false) l) as ->.
  { induction l as [|i l IH]; [done|]. rewrite fmap_cons, !filter_cons. cbn. case_decide; cbn; by rewrite IH. }
  split; [apply NoDup_filter, NoDup_kept|]. intros i. rewrite list_elem_of_filter. unfold act. rewrite elem_of_kept.
  unfold sl. split.
  - intros [Hs [H0 (v & Hv & Ha)]]. rewrite Hv in Hs. split; [done|]. exists v. done.
  - intros [H0 (v & Hv & Ha & Hs)]. rewrite Hv. split; [done|]. split; [done|]. by exists v.
Qed.

Lemma place_balances_spec state act : forall bs bs', foldM (place_balance state) bs act = Ok bs' ->
  (forall i, i ∈ act -> 0 <= i) -> forall i, 0 <= i ->
  bs' !! Z.to_nat i =
    match validators state !! Z.to_nat i with
    | Some v => if decide (i ∈ act) then if slashed v then bs !! Z.to_nat i else (fun _ => effective_balance v) <$> bs !! Z.to_nat i
                else bs !! Z.to_nat i
    | None => bs !! Z.to_nat i
    end.
Proof.
  induction act as [|j act IH]; intros bs bs' Ebs Hpos i Hi.
  { injection Ebs as ->. case_match; [|done]. by rewrite decide_False by apply not_elem_of_nil. }
  cbn [foldM] in Ebs. apply bind_Ok in Ebs as (bs1 & E1 & Ebs). apply bind_Ok in E1 as (v & Ev & E1).
  unfold index in Ev. destruct (validators state !! Z.to_nat j) as [v'|] eqn:Hv; [|done]. injection Ev as ->.
  assert (0 <= j) as Hj by (apply Hpos; set_solver).
  rewrite (IH _ _ Ebs) by (done || (intros k Hk; apply Hpos; set_solver)). clear IH.
  destruct (decide (j = i)) as [->|Hne].
  - rewrite Hv, (decide_True (P := i ∈ i :: act)) by set_solver. destruct (slashed v).
    + injection E1 as <-. by case_decide.
    + apply set_index_Ok in E1 as [Hlt ->]. rewrite list_lookup_insert_eq by done.
      destruct (lookup_lt_is_Some_2 _ _ Hlt) as [b0 ->]. by case_decide.
  - assert (bs1 !! Z.to_nat i = bs !! Z.to_nat i) as ->.
    { destruct (slashed v); [by injection E1 as <-|]. apply set_index_Ok in E1 as [_ ->].
      apply list_lookup_insert_ne. intros ?%Z2Nat.inj; [done|lia|lia]. }
    destruct (validators state !! Z.to_nat i); [|done]. destruct (decide (i ∈ act)); [by rewrite decide_True by set_solver|by rewrite decide_False by set_solver].
Qed.

(** Balances count the active validators that are not slashed. *)
Lemma balances_spec state balances score l :
  from_checkpoint_state state = Ok (mkForkChoiceBalances balances score) -> unslashed_and_active_indices state = Ok l ->
  proposer_score_of state = Ok score /\
  (forall i v, i ∈ l -> validators state !! Z.to_nat i = Some v -> balances !! Z.to_nat i = Some (effective_balance v)) /\
  (forall i, 0 <= i -> i ∉ l -> default 0 (balances !! Z.to_nat i) = 0).
Proof.
  intros Eb El. destruct (unslashed_spec state) as (l' & El' & Hnd & Hl). assert (l' = l) as -> by congruence. clear El El'.
  unfold from_checkpoint_state in Eb. apply bind_Ok in Eb as (bs & Ebs & Eb). apply bind_Ok in Eb as (sc & -> & Eb).
  injection Eb as <- <-. split; [done|]. rewrite active_kept in Ebs.
  set (e := get_current_epoch state) in *. set (act := kept _ _) in *.
  pose proof (fun Hact => place_balances_spec state act _ _ Ebs Hact) as Hf.
  assert (forall i, i ∈ act -> 0 <= i) as Hact by (intros i Hi; by apply elem_of_kept in Hi as [? _]).
  specialize (Hf Hact). clear Ebs. split.
  - intros i v Hi Hv. apply Hl in Hi as [H0 (v' & Hv' & Ha & Hs)]. assert (v' = v) as -> by congruence.
    rewrite (Hf i H0), Hv, decide_True, Hs; [|apply elem_of_kept; split; [done|]; by exists v].
    rewrite lookup_replicate_2; [done|]. by eapply lookup_lt_Some.
  - intros i H0 Hi. rewrite (Hf i H0). destruct (validators state !! Z.to_nat i) as [v|] eqn:Hv.
    + rewrite lookup_replicate_2 by (by eapply lookup_lt_Some). case_decide as Hin; [|done].
      destruct (slashed v) eqn:Hs; [done|]. destruct Hi. apply Hl. apply elem_of_kept in Hin as [_ (v' & Hv' & Ha)].
      split; [done|]. exists v'. assert (v' = v) as -> by congruence. done.
    + destruct (replicate _ 0 !! _) as [b|] eqn:E; [|done]. by apply lookup_replicate in E as [-> _].
Qed.

(** ** In step *)

(** The tree holds what the database says of its root and the root's descendants: the
    blocks with their checkpoints, and the latest votes. *)
Record aligned d t : Prop := mkAligned {
  al_inv : tree_inv t;
  al_mirrors : mirrors t d;
  al_linked : linked d (root_slot t);
  al_index : forall p c, c ∈ mm_get (bd_parent_index d) p <-> exists b, block_at d c = Some b /\ b_parent_root b = p;
  al_closed : forall x n c b, ft_nodes t !! x = Some n -> block_at d c = Some b -> b_parent_root b = x ->
    c ∈ fn_children n;
  al_unrealized : forall x n, ft_nodes t !! x = Some n ->
    rd_get (bd_unrealized_justifications d) x = Some (fn_unrealized_justified_checkpoint n);
  al_realized : forall x n, ft_nodes t !! x = Some n ->
    vc_current_epoch (ft_context t) <= compute_epoch_at_slot (fn_slot n) ->
    current_justified_checkpoint <$> rd_get (bd_state d) x = Some (fn_justified_checkpoint n);
  al_equivocating : bd_equivocating d = Some (ft_equivocating t);
  al_votes : forall i, 0 <= i -> i ∉ ft_equivocating t ->
    av_root <$> ft_votes t !! i = lm_root <$> lm_view (bd_messages d) !! i;
  al_known : forall i m, 0 <= i -> i ∉ ft_equivocating t -> lm_view (bd_messages d) !! i = Some m ->
    is_Some (block_at d (lm_root m));
}.

(** In step: aligned, from the finalized block, with the checkpoints, the balances and the
    boost of the database. *)
Record synced s t : Prop := mkSynced {
  sy_aligned : aligned (st_db s) t;
  sy_root : ft_root t = cp_root (vc_finalized_checkpoint (ft_context t));
  sy_root_slot : root_slot t <= compute_start_slot_at_epoch (cp_epoch (vc_finalized_checkpoint (ft_context t)));
  sy_justified : bd_justified (st_db s) = Some (vc_justified_checkpoint (ft_context t));
  sy_finalized : bd_finalized (st_db s) = Some (vc_finalized_checkpoint (ft_context t));
  sy_epoch : get_current_store_epoch s = Ok (vc_current_epoch (ft_context t));
  sy_state : exists state, checkpoint_state (st_db s) (vc_justified_checkpoint (ft_context t)) = Ok (Some state) /\
    from_checkpoint_state state = Ok (mkForkChoiceBalances (ft_balances t) (ft_proposer_score t));
  sy_boost : bd_proposer_boost_root (st_db s) = Some (default B256_ZERO (fst <$> ft_boost t));
  sy_boosted : forall r score, ft_boost t = Some (r, score) -> r <> B256_ZERO /\ is_Some (block_at (st_db s) r);
}.

(** The store reads its own tree, the one in step, or none. *)
Definition reads_tree s t : Prop := st_fork_choice s = Some t \/ st_fork_choice s = None.

Section synced.
Context s t (Sy : synced s t) (Rt : reads_tree s t).
Let Al : aligned (st_db s) t := sy_aligned s t Sy.

Lemma synced_forest : forest (ft_root t) (ft_nodes t).
Proof using All. exact (tr_forest _ _ (ti_tracks _ (al_inv _ _ Al))). Qed.

Lemma synced_tree_ok : tree_ok s (root_slot t).
Proof using All.
  unfold tree_ok. destruct Rt as [->| ->]; [|done]. split_and!; [apply synced_forest|apply Al|done].
Qed.

Lemma synced_ancestor x slot : root_slot t <= slot -> is_Some (block_at (st_db s) x) ->
  exists a, get_ancestor s x slot = Ok a /\ db_anc (st_db s) slot x a.
Proof using All. intros Hs Hx. eapply get_ancestor_spec; [apply Al|apply synced_tree_ok|done|done]. Qed.

Lemma voting_source x n : ft_nodes t !! x = Some n ->
  get_voting_source s x = Ok (if compute_epoch_at_slot (fn_slot n) <? vc_current_epoch (ft_context t)
                              then fn_unrealized_justified_checkpoint n else fn_justified_checkpoint n).
Proof using All.
  intros Hx. unfold get_voting_source. destruct (al_mirrors _ _ Al x n Hx) as (b & (sb & Hsb & <-)%block_at_get & Es & _).
  rewrite Hsb, (sy_epoch _ _ Sy). run_ok. rewrite Es. destruct (_ <? _) eqn:E; b2p; [by rewrite (al_unrealized _ _ Al x n Hx)|].
  pose proof (al_realized _ _ Al x n Hx E) as Hr. destruct (rd_get (bd_state (st_db s)) x) as [st|]; [|done]. injection Hr as <-. done.
Qed.

Lemma synced_children x n c : ft_nodes t !! x = Some n -> c ∈ mm_get (bd_parent_index (st_db s)) x <-> c ∈ fn_children n.
Proof using All.
  intros Hx. rewrite (al_index _ _ Al). split.
  - intros (b & Hb & Hp). by eapply (al_closed _ _ Al).
  - intros Hc. destruct (fo_child _ _ synced_forest x n c Hx Hc) as (m & Hm & Hp).
    destruct (al_mirrors _ _ Al c m Hm) as (b & Hb & _ & Hpar). exists b. split; [done|by apply Hpar].
Qed.

(** A block of the tree is the ancestor of another at its own slot iff it is one in the tree. *)
Lemma anc_ancestors x n r : ft_nodes t !! x = Some n ->
  db_anc (st_db s) (fn_slot n) r x <-> x ∈ ancestors (ft_nodes t) r.
Proof using All.
  intros Hx. pose proof synced_forest as Fo. split.
  - intros Ha. remember (fn_slot n) as sl eqn:Hsl. induction Ha as [x b Hb Hs|y b a Hb Hs Ha IH].
    + eapply ancestors_self; [done|by eexists].
    + specialize (IH Hx). destruct (ancestors_mem _ _ _ _ Fo IH) as [_ [p Hp]].
      pose proof (al_closed _ _ Al _ p y b Hp Hb eq_refl) as Hc.
      destruct (fo_child _ _ Fo _ p y Hp Hc) as (m & Hm & Hpar).
      rewrite (ancestors_parent _ _ y m _ Fo Hm Hpar). set_solver.
  - intros Hin. destruct (ancestors_mem _ _ _ _ Fo Hin) as [_ Hr]. pose proof (up_ancestors _ _ _ Fo Hr) as Hup.
    revert Hin Hup. generalize (ancestors (ft_nodes t) r) as l. intros l Hin Hup. clear Hr.
    induction Hup as [y m Hm Hp|y m p l Hm Hp Hl IH].
    + apply list_elem_of_singleton in Hin as <-. destruct (al_mirrors _ _ Al x m Hm) as (b & Hb & Es & _).
      eapply anc_here; [done|]. assert (m = n) as -> by congruence. lia.
    + destruct (al_mirrors _ _ Al y m Hm) as (b & Hb & Es & Ep). destruct (decide (x = y)) as [<-|Hne].
      * eapply anc_here; [done|]. assert (m = n) as -> by congruence. lia.
      * apply elem_of_cons in Hin as [?|Hin]; [done|].
        pose proof (up_slots Fo y m l Hm (up_step _ _ _ _ _ Hm Hp Hl) x n Hin Hx) as Hlt.
        eapply anc_up; [done|lia|]. rewrite (Ep p Hp). by apply IH.
Qed.

Lemma get_ancestor_is x n r : ft_nodes t !! x = Some n -> is_Some (block_at (st_db s) r) ->
  exists a, get_ancestor s r (fn_slot n) = Ok a /\ (a = x <-> x ∈ ancestors (ft_nodes t) r).
Proof using All.
  intros Hx Hr. destruct (synced_ancestor r (fn_slot n)) as (a & E & Ha); [by eapply forest_root_slot; [apply synced_forest|]|done|].
  exists a. split; [done|]. rewrite <-(anc_ancestors x n r Hx). split; [by intros <-|]. intros Hx'. by eapply db_anc_det.
Qed.

(** ** Weights *)

Lemma attesting_balance_spec state l x n i :
  from_checkpoint_state state = Ok (mkForkChoiceBalances (ft_balances t) (ft_proposer_score t)) ->
  unslashed_and_active_indices state = Ok l -> ft_nodes t !! x = Some n -> i ∈ l ->
  attesting_balance s state x i = Ok
    match ft_votes t !! i with
    | Some vote => if decide (x ∈ ancestors (ft_nodes t) (av_root vote)) then av_balance vote else 0
    | None => 0
    end.
Proof using All.
  intros Eb El Hx Hi. destruct (balances_spec _ _ _ _ Eb El) as (_ & Hin & _).
  destruct (unslashed_spec state) as (l' & El' & _ & Hl). assert (l' = l) as -> by congruence.
  pose proof (proj1 (Hl i) Hi) as [H0 (v & Hv & _)].
  unfold attesting_balance. rewrite message_get_view, (al_equivocating _ _ Al). cbn [field ok_or].
  destruct (al_mirrors _ _ Al x n Hx) as (b & (sb & Hsb & <-)%block_at_get & Es & _). rewrite Hsb. cbn [ok_or].
  assert (forall vote, ft_votes t !! i = Some vote -> av_balance vote = balance_of t i) as Hbal.
  { intros vote Hvote. by apply (ti_votes _ (al_inv _ _ Al)). }
  destruct (decide (i ∈ ft_equivocating t)) as [He|He].
  - assert (match ft_votes t !! i with
            | Some vote => if decide (x ∈ ancestors (ft_nodes t) (av_root vote)) then av_balance vote else 0
            | None => 0 end = 0) as ->.
    { destruct (ft_votes t !! i) as [vote|] eqn:Ev; [|done]. case_decide; [|done]. rewrite (Hbal vote) by done.
      unfold balance_of. by rewrite bool_decide_true. }
    destruct (lm_view _ !! i); [|done]. cbn. by rewrite bool_decide_true.
  - pose proof (al_votes _ _ Al i H0 He) as Hvotes.
    destruct (lm_view _ !! i) as [m|] eqn:Em; cbn in Hvotes.
    2: { destruct (ft_votes t !! i); [done|]. done. }
    destruct (ft_votes t !! i) as [vote|] eqn:Ev; [|done]. injection Hvotes as Er.
    cbn. rewrite bool_decide_false by done. cbn. rewrite Es.
    destruct (get_ancestor_is x n (lm_root m) Hx (al_known _ _ Al i m H0 He Em)) as (a & -> & Ha). cbn. rewrite Er.
    destruct (decide (x ∈ ancestors (ft_nodes t) (lm_root m))) as [Hanc|Hanc].
    + rewrite bool_decide_true by tauto. unfold index. rewrite Hv. cbn. f_equal. rewrite (Hbal vote) by done.
      unfold balance_of. rewrite bool_decide_false by done. by rewrite (Hin i v Hi Hv).
    + by rewrite bool_decide_false by tauto.
Qed.

Lemma get_weight_support x n : ft_nodes t !! x = Some n -> get_weight s x = Ok (support t x).
Proof using All.
  intros Hx. destruct (sy_state _ _ Sy) as (state & Es & Eb). destruct (unslashed_spec state) as (l & El & Hnd & Hl).
  destruct (balances_spec _ _ _ _ Eb El) as (Esc & _ & Hout). pose proof (al_inv _ _ Al) as I.
  pose proof (support_bounds t x I) as Hb. rewrite (support_sum t x I) in Hb |- *.
  set (c := fun (_ : Z) vote => if decide (x ∈ ancestors (ft_nodes t) (av_root vote)) then av_balance vote else 0) in *.
  assert (justified_state s "checkpoint_states not found"%string = Ok state) as Ej.
  { unfold justified_state. rewrite (sy_justified _ _ Sy). run_ok.
    by rewrite Es. }
  assert (get_proposer_score s = Ok (ft_proposer_score t)) as Ep.
  { unfold get_proposer_score, justified_state. rewrite (sy_justified _ _ Sy). run_ok. by rewrite Es. }
  unfold get_weight. rewrite Ej. run_ok. rewrite El.
  run_ok.
  rewrite (foldM_sum0 _ (fun i => match ft_votes t !! i with Some vote => c i vote | None => 0 end)).
  2: { intros i Hi. by eapply attesting_balance_spec. }
  rewrite (sum_list_map c _ l (ft_votes t) Hnd).
  2: done.
  2: { intros i vote Hi Hn. destruct (ti_votes _ I i vote Hi) as [H0 Hbal]. unfold c. case_decide; [|done].
       rewrite Hbal. unfold balance_of. case_bool_decide; [done|]. by apply Hout. }
  run_ok. rewrite (sy_boost _ _ Sy). run_ok.
  assert (0 <= msum c (ft_votes t)) as Hc.
  { apply msum_nonneg. intros i vote Hi. unfold c. case_decide; [|done]. destruct (ti_votes _ I i vote Hi) as [_ ->].
    apply balance_of_bounds, (ti_supply _ I). }
  destruct (ft_boost t) as [[r score]|] eqn:Eboost; cbn [fmap option_fmap option_map default fst id].
  - destruct (sy_boosted _ _ Sy r score Eboost) as [Hz Hr]. rewrite bool_decide_false by done.
    pose proof (ti_boost _ I r score Eboost) as Hscore. destruct (ti_supply _ I) as (_ & H0 & _).
    destruct (al_mirrors _ _ Al x n Hx) as (b & (sb & Hsb & <-)%block_at_get & Esl & _). rewrite Hsb. run_ok. rewrite Esl.
    destruct (get_ancestor_is x n r Hx Hr) as (a & -> & Ha).
    run_ok. destruct (decide (x ∈ ancestors (ft_nodes t) r)) as [Hanc|Hanc].
    + rewrite bool_decide_true by tauto. rewrite Ep. run_ok. f_equal.
      rewrite wrap64_id by (unfold is_u64, u64_max; lia). rewrite <-Hscore. apply u64_add_id. unfold is_u64, u64_max. lia.
    + rewrite bool_decide_false by tauto. run_ok. f_equal.
      rewrite wrap64_id by (unfold is_u64, u64_max; lia). apply u64_add_id. unfold is_u64, u64_max. lia.
  - rewrite bool_decide_true by done. f_equal. rewrite wrap64_id by (unfold is_u64, u64_max; lia). lia.
Qed.
(** ** Viability *)

Lemma checkpoint_block_anc x l slot : up (ft_nodes t) x l -> root_slot t <= slot ->
  forall fuel, (length l <= fuel)%nat ->
  exists a, checkpoint_block_loop fuel (ft_nodes t) x slot = Ok a /\ db_anc (st_db s) slot x a.
Proof using All.
  intros Hup Hs. induction Hup as [x n Hx Hp|x n p l Hx Hp Hl IH]; intros fuel Hf; destruct fuel as [|fuel];
    cbn in Hf; try lia; cbn; rewrite Hx; destruct (al_mirrors _ _ Al x n Hx) as (b & Hb & Es & Ep).
  - pose proof (fo_orphan _ _ synced_forest x n Hx Hp) as ->. unfold root_slot in Hs. rewrite Hx in Hs. cbn in Hs.
    rewrite (proj2 (Z.leb_le _ _)) by done. eexists. split; [done|]. eapply anc_here; [done|lia].
  - destruct (fn_slot n <=? slot) eqn:Hle; b2p; [exists x; split; [done|]; eapply anc_here; [done|lia]|].
    rewrite Hp. destruct (IH fuel) as (a & E & Ha); [lia|]. exists a. split; [done|].
    eapply anc_up; [done|lia|]. by rewrite (Ep p Hp).
Qed.

Lemma filter_leaf_viable x n : ft_nodes t !! x = Some n ->
  exists v source finalized, is_leaf_viable t x n = Ok v /\ filter_leaf s x = Ok (v, source, finalized).
Proof using All.
  intros Hx. unfold filter_leaf, is_leaf_viable. rewrite (sy_epoch _ _ Sy), (voting_source x n Hx), (sy_justified _ _ Sy), (sy_finalized _ _ Sy).
  set (source := if compute_epoch_at_slot (fn_slot n) <? _ then _ else _).
  set (context := ft_context t). set (slot := compute_start_slot_at_epoch (cp_epoch (vc_finalized_checkpoint context))).
  destruct (al_mirrors _ _ Al x n Hx) as (b & Hb & _). pose proof (sy_root_slot _ _ Sy : root_slot t <= slot) as Hs.
  destruct (synced_ancestor x slot Hs (mk_is_Some _ _ Hb)) as (a & Ea & Ha).
  destruct (up_exists synced_forest x (mk_is_Some _ _ Hx)) as (l & Hl & Hle).
  destruct (checkpoint_block_anc x l slot Hl Hs _ Hle) as (a' & Ea' & Ha').
  assert (a' = a) as -> by (by eapply db_anc_det). unfold checkpoint_block, get_checkpoint_block, walk_bound.
  run_ok. fold slot. rewrite Ea. run_ok. do 3 eexists. split; [|done]. rewrite orb_assoc.
  destruct (cp_epoch (vc_finalized_checkpoint context) =? GENESIS_EPOCH); cbn; [done|].
  rewrite Ea'. cbn. do 2 f_equal. apply bool_decide_ext. done.
Qed.

(** The blocks found are in the database. *)
Definition stored (blocks : gmap B256 BlockWithEpochInfo) : Prop :=
  forall y i, blocks !! y = Some i -> block_at (st_db s) y = Some (be_block i).

Lemma add_filtered_stored x sb source finalized blocks :
  rd_get (bd_block (st_db s)) x = Some sb -> stored blocks -> stored (add_filtered x sb source finalized blocks).
Proof using All.
  intros Hsb Hs y i Hy. unfold add_filtered in Hy. apply lookup_insert_Some in Hy as [[<- <-]|[_ Hy]]; [|by apply Hs].
  apply block_at_get. by exists sb.
Qed.

Lemma add_filtered_in x sb source finalized blocks y :
  is_Some (add_filtered x sb source finalized blocks !! y) <-> y = x \/ is_Some (blocks !! y).
Proof using All. unfold add_filtered. rewrite lookup_insert_is_Some. destruct (decide (x = y)); naive_solver. Qed.

Definition above (slot : Z) : nat :=
  size (filter (fun xb : B256 * SignedBeaconBlock => slot < b_slot (sb_message xb.2)) (rd_view (bd_block (st_db s)))).

Lemma above_child x n c m : ft_nodes t !! x = Some n -> c ∈ fn_children n -> ft_nodes t !! c = Some m ->
  (above (fn_slot m) < above (fn_slot n))%nat.
Proof using All.
  intros Hx Hc Hm. pose proof (child_slot synced_forest x n c m Hx Hc Hm) as Hlt.
  destruct (al_mirrors _ _ Al c m Hm) as (b & (sb & Hsb & <-)%block_at_get & Es & _). rewrite rd_get_view in Hsb.
  apply (size_filter_lt _ _ _ c sb); [|done| |]; cbn; [intros [y k]; cbn| |]; lia.
Qed.

(** What searching below [x] does: it says whether [x] is viable and adds the viable blocks. *)
Definition searched (x : B256) (blocks : gmap B256 BlockWithEpochInfo) (r : bool * gmap B256 BlockWithEpochInfo) : Prop :=
  (r.1 = true <-> viable t x) /\ stored r.2 /\
  forall y, is_Some (r.2 !! y) <-> is_Some (blocks !! y) \/ (viable t y /\ x ∈ ancestors (ft_nodes t) y).

Lemma search_children fuel cs : forall vs blocks, stored blocks ->
  (forall c, c ∈ cs -> forall blocks, stored blocks -> exists r, filter_block_tree fuel s c blocks = Ok r /\ searched c blocks r) ->
  exists r, foldM (fun acc child => r ← filter_block_tree fuel s child acc.2; Ok (acc.1 ++ [r.1], r.2)) (vs, blocks) cs = Ok r /\
    (existsb id r.1 = true <-> existsb id vs = true \/ exists c, c ∈ cs /\ viable t c) /\ stored r.2 /\
    forall y, is_Some (r.2 !! y) <-> is_Some (blocks !! y) \/ (viable t y /\ exists c, c ∈ cs /\ c ∈ ancestors (ft_nodes t) y).
Proof using All.
  induction cs as [|c cs IH]; intros vs blocks Hst Hcs.
  - exists (vs, blocks). cbn. split_and!; [done| |done|]; set_solver.
  - destruct (Hcs c ltac:(set_solver) blocks Hst) as ([v blocks1] & E & Hv & Hst1 & Hin). cbn in Hv, Hst1, Hin.
    destruct (IH (vs ++ [v]) blocks1 Hst1) as (r & Er & Hvs & Hst' & Hin'); [intros; apply Hcs; set_solver|].
    exists r. cbn [foldM]. cbn [snd fst]. rewrite E. cbn. split_and!; [done| |done|].
    + rewrite Hvs, existsb_app. cbn. rewrite orb_false_r, orb_true_iff, Hv. setoid_rewrite elem_of_cons. naive_solver.
    + intros y. rewrite Hin', Hin. setoid_rewrite elem_of_cons. clear. split.
      * intros [[?|[? ?]]|(? & c' & ? & ?)]; eauto 8.
      * intros [?|(? & c' & [->|?] & ?)]; eauto 8.
Qed.

Lemma viable_children_iff x n : ft_nodes t !! x = Some n -> fn_children n <> [] ->
  viable t x <-> exists c, c ∈ fn_children n /\ viable t c.
Proof using All.
  intros Hx Hne. split.
  - inversion 1; simplify_eq; naive_solver.
  - intros (c & Hc & Hv). by eapply viable_branch.
Qed.

Lemma ancestors_through x n y : ft_nodes t !! x = Some n ->
  x ∈ ancestors (ft_nodes t) y <-> y = x \/ exists c, c ∈ fn_children n /\ c ∈ ancestors (ft_nodes t) y.
Proof using All.
  intros Hx. pose proof synced_forest as Fo. split.
  - intros Hin. destruct (ancestors_mem _ _ _ _ Fo Hin) as [_ Hy]. pose proof (up_ancestors _ _ _ Fo Hy) as Hup. revert Hin Hup.
    generalize (ancestors (ft_nodes t) y) as l. intros l Hin Hup. clear Hy.
    induction Hup as [y m Hm Hp|y m p l Hm Hp Hl IH]; [left; set_solver|].
    apply elem_of_cons in Hin as [->|Hin]; [by left|]. right. destruct (IH Hin) as [->|(c & Hc & Hcl)].
    + exists y. split; [|set_solver]. destruct (fo_parent _ _ Fo y m x Hm Hp) as (n' & Hn' & Hc & _). by simplify_eq.
    + exists c. set_solver.
  - intros [->|(c & Hc & Hcy)]; [by eapply ancestors_self|]. eapply ancestors_trans; [done| |done].
    destruct (fo_child _ _ Fo x n c Hx Hc) as (m & Hm & Hp). rewrite (ancestors_parent _ _ c m x Fo Hm Hp).
    apply elem_of_cons. right. by eapply ancestors_self.
Qed.

Lemma filter_block_tree_spec x n : ft_nodes t !! x = Some n -> forall fuel blocks, (above (fn_slot n) <= fuel)%nat ->
  stored blocks -> exists r, filter_block_tree fuel s x blocks = Ok r /\ searched x blocks r.
Proof using All.
  revert x n. apply (children_ind t (al_inv _ _ Al) (fun x n => forall fuel blocks, (above (fn_slot n) <= fuel)%nat ->
    stored blocks -> exists r, filter_block_tree fuel s x blocks = Ok r /\ searched x blocks r)).
  intros x n Hx IH fuel blocks Hf Hst. pose proof synced_forest as Fo.
  destruct (al_mirrors _ _ Al x n Hx) as (b & (sb & Hsb & _)%block_at_get & _).
  destruct (mm_get (bd_parent_index (st_db s)) x) as [|c0 cs] eqn:Ec.
  - assert (fn_children n = []) as Hleaf.
    { destruct (fn_children n) as [|c l] eqn:E; [done|]. assert (c ∈ mm_get (bd_parent_index (st_db s)) x) as Hc.
      { apply (synced_children x n c Hx). rewrite E. set_solver. }
      rewrite Ec in Hc. by apply not_elem_of_nil in Hc. }
    destruct (filter_leaf_viable x n Hx) as (v & source & finalized & Ev & El).
    assert (v = true <-> viable t x) as Hv.
    { split; [intros ->; by eapply viable_leaf|]. inversion 1 as [? n' Hn'|? n' c Hn' Hc]; simplify_eq; [congruence|].
      rewrite Hleaf in Hc. by apply not_elem_of_nil in Hc. }
    exists (v, if v then add_filtered x sb source finalized blocks else blocks). split.
    { destruct fuel; cbn; rewrite Hsb; cbn; rewrite Ec, El; done. }
    assert (forall y, x ∈ ancestors (ft_nodes t) y <-> y = x) as Hself.
    { intros y. rewrite (ancestors_through x n y Hx), Hleaf. set_solver. }
    split_and!; cbn; [done|destruct v; [by apply add_filtered_stored|done]|].
    intros y. rewrite Hself. destruct v; [rewrite add_filtered_in|]; naive_solver.
  - assert (forall c, c ∈ c0 :: cs <-> c ∈ fn_children n) as Hch by (intros c; rewrite <-Ec; by apply synced_children).
    assert (forall c, c ∈ fn_children n -> exists m, ft_nodes t !! c = Some m) as Hm.
    { intros c Hc. destruct (fo_child _ _ Fo x n c Hx Hc) as (m & Hm & _). by exists m. }
    destruct fuel as [|fuel].
    { destruct (Hm c0) as (m & Hm0); [apply Hch; set_solver|]. pose proof (above_child x n c0 m Hx ltac:(apply Hch; set_solver) Hm0). lia. }
    destruct (search_children fuel (c0 :: cs) [] blocks Hst) as (r & Er & Hvs & Hst' & Hin).
    { intros c Hc%Hch bs Hbs. destruct (Hm c Hc) as (m & Hcm). apply (IH c m Hc Hcm); [|done].
      pose proof (above_child x n c m Hx Hc Hcm). lia. }
    assert (existsb id r.1 = true <-> viable t x) as Hv.
    { rewrite Hvs, (viable_children_iff x n Hx).
      - cbn. setoid_rewrite Hch. naive_solver.
      - intros E. specialize (Hch c0). rewrite E in Hch. set_solver. }
    cbn [filter_block_tree]. rewrite Hsb. run_ok. rewrite Ec, Er.
    run_ok.
    assert (forall y, is_Some (r.2 !! y) <-> is_Some (blocks !! y) \/ viable t y /\ exists c, c ∈ fn_children n /\ c ∈ ancestors (ft_nodes t) y) as Hin'.
    { intros y. rewrite Hin. by setoid_rewrite Hch. }
    destruct (existsb id r.1) eqn:Ev.
    + rewrite (voting_source x n Hx), (sy_finalized _ _ Sy). eexists. split; [done|]. split_and!; cbn [fst snd]; [naive_solver|by apply add_filtered_stored|].
      intros y. rewrite add_filtered_in, Hin', (ancestors_through x n y Hx). clear -Hv. naive_solver.
    + eexists. split; [done|]. split_and!; cbn [fst snd]; [naive_solver|done|].
      intros y. rewrite Hin', (ancestors_through x n y Hx). clear -Hv. naive_solver.
Qed.
(** ** The head *)

(** The blocks the search from [top] leaves. *)
Definition found (top : B256) (blocks : gmap B256 BlockWithEpochInfo) : Prop :=
  stored blocks /\ forall y, is_Some (blocks !! y) <-> viable t y /\ top ∈ ancestors (ft_nodes t) y.

Lemma found_children top blocks x n : found top blocks -> ft_nodes t !! x = Some n -> top ∈ ancestors (ft_nodes t) x ->
  let children := (filter (fun ri : B256 * BlockWithEpochInfo => b_parent_root (be_block ri.2) = x) (hm_iter blocks)).*1 in
  forall c, c ∈ children <-> c ∈ fn_children n /\ viable t c.
Proof using All.
  intros [Hst Hin] Hx Htop children. pose proof synced_forest as Fo. intros c. unfold children. rewrite list_elem_of_fmap. split.
  - intros ([c' i] & -> & [Hp Hi%elem_of_hm_iter]%list_elem_of_filter). cbn in *.
    split; [exact (al_closed _ _ Al x n c' _ Hx (Hst c' i Hi) Hp)|]. by apply Hin.
  - intros [Hc Hv]. destruct (fo_child _ _ Fo x n c Hx Hc) as (m & Hm & Hp).
      assert (is_Some (blocks !! c)) as [i Hi].
      { apply Hin. split; [done|]. rewrite (ancestors_parent _ _ c m x Fo Hm Hp). set_solver. }
      exists (c, i). split; [done|]. apply list_elem_of_filter. split; [|by apply elem_of_hm_iter]. cbn.
      pose proof (Hst c i Hi) as Hb. destruct (al_mirrors _ _ Al c m Hm) as (b & Hb' & _ & Hpar).
      assert (b = be_block i) as -> by congruence. by apply Hpar.
Qed.

Lemma heaviest_child x n children : ft_nodes t !! x = Some n ->
  (forall c, c ∈ children <-> c ∈ fn_children n /\ viable t c) -> children <> [] ->
  exists c, mapR (fun child => w ← get_weight s child; Ok (child, w)) children = Ok ((fun c => (c, support t c)) <$> children) /\
    last (sort_by weight_leb ((fun c => (c, support t c)) <$> children)) = Some (c, support t c) /\ best_child t x c.
Proof using All.
  intros Hx Hch Hne. pose proof synced_forest as Fo. destruct (last (sort_by _ _)) as [[c w]|] eqn:El.
  2: { apply last_None in El. apply (f_equal length) in El. rewrite sort_by_perm, length_fmap in El. by destruct children. }
  apply weight_leb_max in El as [Hc Hmax]. apply list_elem_of_fmap in Hc as (c' & [= -> ->] & Hc).
  exists c'. split_and!.
  - apply mapR_fmap. intros a Ha%Hch. destruct (fo_child _ _ Fo x n a Hx (proj1 Ha)) as (m & Hm & _).
    by rewrite (get_weight_support a m Hm).
  - done.
  - exists n. split_and!; [done|by apply Hch|by apply Hch|]. intros a Ha Hv. apply (Hmax (a, support t a)).
    apply list_elem_of_fmap. exists a. split; [done|]. by apply Hch.
Qed.

Definition higher (blocks : gmap B256 BlockWithEpochInfo) (slot : Z) : nat :=
  size (filter (fun xi : B256 * BlockWithEpochInfo => slot < b_slot (be_block xi.2)) blocks).

Lemma higher_child top blocks x n c : found top blocks -> ft_nodes t !! x = Some n -> top ∈ ancestors (ft_nodes t) x ->
  best_child t x c -> exists m, ft_nodes t !! c = Some m /\ top ∈ ancestors (ft_nodes t) c /\
    (higher blocks (fn_slot m) < higher blocks (fn_slot n))%nat.
Proof using All.
  intros [Hst Hin] Hx Htop (n' & Hn' & Hc & Hv & _). simplify_eq. pose proof synced_forest as Fo.
  destruct (fo_child _ _ Fo x n c Hx Hc) as (m & Hm & Hp). exists m.
  assert (top ∈ ancestors (ft_nodes t) c) as Htc by (rewrite (ancestors_parent _ _ c m x Fo Hm Hp); set_solver).
  split_and!; [done|done|]. destruct (proj2 (Hin c) (conj Hv Htc)) as [i Hi].
  pose proof (child_slot Fo x n c m Hx Hc Hm) as Hlt. destruct (al_mirrors _ _ Al c m Hm) as (b & Hb & Es & _).
  pose proof (Hst c i Hi) as Hb'. assert (b = be_block i) as -> by congruence.
  apply (size_filter_lt _ _ _ c i); [|done| |]; cbn; [intros [y k]; cbn| |]; lia.
Qed.

Lemma head_loop_ghost top blocks : found top blocks -> forall fuel x n, ft_nodes t !! x = Some n ->
  top ∈ ancestors (ft_nodes t) x -> (higher blocks (fn_slot n) <= fuel)%nat ->
  exists y, head_loop fuel s blocks x = Ok y /\ ghost t x y.
Proof using All.
  intros Hf. induction fuel as [|fuel IH]; intros x n Hx Htop Hk;
    pose proof (found_children top blocks x n Hf Hx Htop) as Hch; cbv zeta in Hch; cbn [head_loop];
    destruct (filter _ _).*1 as [|c0 cs] eqn:Ec.
  1, 3: exists x; split; [done|]; apply ghost_stop; intros c (n' & Hn' & Hc & Hv & _); simplify_eq;
    apply (not_elem_of_nil c), Hch; by split.
  all: destruct (heaviest_child x n (c0 :: cs) Hx Hch) as (c & Em & El & Hb); [done|];
    destruct (higher_child top blocks x n c Hf Hx Htop Hb) as (m & Hm & Htc & Hlt); [lia || idtac].
  destruct (IH c m Hm Htc) as (y & Ey & Hy); [lia|]. exists y. split; [|by eapply ghost_step].
  destruct cs as [|c1 cs]; [|rewrite Em; run_ok; rewrite El; run_ok; done].
  destruct Hb as (n' & Hn' & Hc & Hv & _). simplify_eq. assert (c ∈ [c0]) as ->%list_elem_of_singleton by (by apply Hch). done.
Qed.

(** The head found in the database is the head of the tree. *)
Lemma head_from_db : is_Some (ft_nodes t !! cp_root (vc_justified_checkpoint (ft_context t))) ->
  get_head_from_db s = Ok (tree_head t).
Proof using All.
  intros [n Hn]. set (top := cp_root (vc_justified_checkpoint (ft_context t))) in *.
  destruct (filter_block_tree_spec top n Hn (block_fuel (st_db s)) ∅) as ([v blocks] & E & _ & Hst & Hin).
  { apply Nat.lt_le_incl, filtered_fuel. }
  { intros y i Hy. by rewrite lookup_empty in Hy. }
  destruct (head_loop_ghost top blocks) with (fuel := S (size blocks)) (x := top) (n := n) as (y & Ey & Hy).
  - split; [done|]. intros y. rewrite Hin, lookup_empty. split; [intros [[? ?]|?]; done|by right].
  - done.
  - eapply ancestors_self; [apply synced_forest|by exists n].
  - etrans; [apply map_subseteq_size, map_filter_subseteq|lia].
  - unfold get_head_from_db, get_filtered_block_tree. rewrite (sy_justified _ _ Sy). run_ok. fold top. rewrite E. run_ok.
    cbn [snd]. rewrite Ey. f_equal. eapply ghost_det; [done|]. apply (head_ghost t (al_inv _ _ Al)).
Qed.
End synced.
End sync.
