(* ===== verification/BeaconSteps.v ===== *)
(** * The handlers keep the tree in step

    How the operations of the store change the relation of the fork choice tree to the
    database: a tree that is aligned stays so, and reconciling it brings it in step.

    Votes, slashings, ticks and imported blocks: each leaves the fork choice tree in step
    with the database it wrote, when the checkpoints it wrote are in the tree. *)

From stdpp Require Import strings.
From S2P Require Import Prelude StateMonad Redb Bytes Shuffling Merkle BeaconTypes BeaconAccess BeaconMutate BeaconEpoch BeaconBlockOps BeaconTransition BeaconFacts LatestMessages BeaconDb ForkTree ForkTreeFacts ForkTreeWeights ForkTreeInvariant ForkTreeBlocks ForkTreeSpec DataAvailability OperationPool SyncCommitteePool BeaconStore BeaconHandlers BeaconWalks BeaconSync.

Section refresh.
Context {RD : Redb} {RDL : RedbLaws RD} {RM : RedbMulti} {RML : RedbMultiLaws RM}.
Context {H : Sha256} {F : CandidateFuel} {HO : HashOrder} {HOL : HashOrderLaws HO} {SV : SszVec}.
Context {R : Roots} {B : Bls} {N : BeaconNetworkSpec}.
Context {BA : BlsAggregate} {TH : TreeHash SignedBLSToExecutionChange} {FS : ForkChoiceSpec}.
Implicit Types (d : BeaconDB) (s : Store) (t : ForkChoiceTree).

(** ** Aligned trees *)

(** What alignment reads of a database: the blocks, and the votes. *)
Definition same_blocks d d' : Prop :=
  bd_block d' = bd_block d /\ bd_parent_index d' = bd_parent_index d /\ bd_state d' = bd_state d /\
  bd_unrealized_justifications d' = bd_unrealized_justifications d.
Definition same_votes d d' : Prop := bd_messages d' = bd_messages d /\ bd_equivocating d' = bd_equivocating d.

#[global] Instance same_blocks_preorder : PreOrder same_blocks.
Proof. split; [done|]. intros d1 d2 d3 H1 H2. unfold same_blocks in *. naive_solver congruence. Qed.
#[global] Instance same_votes_preorder : PreOrder same_votes.
Proof. split; [done|]. intros d1 d2 d3 H1 H2. unfold same_votes in *. naive_solver congruence. Qed.

Lemma same_blocks_at d d' x : same_blocks d d' -> block_at d' x = block_at d x.
Proof. intros (E & _). unfold block_at. by rewrite E. Qed.

Lemma static_eq n m : static n = static m ->
  fn_parent n = fn_parent m /\ fn_slot n = fn_slot m /\ fn_children n = fn_children m /\
  fn_justified_checkpoint n = fn_justified_checkpoint m /\
  fn_unrealized_justified_checkpoint n = fn_unrealized_justified_checkpoint m.
Proof. destruct n, m. unfold static. cbn. by intros [= -> -> -> -> ->]. Qed.

Lemma root_slot_similar t t' : ft_root t' = ft_root t -> similar (ft_nodes t') (ft_nodes t) -> root_slot t' = root_slot t.
Proof.
  intros Er Sim. unfold root_slot. rewrite Er. destruct (ft_nodes t' !! ft_root t) as [n|] eqn:Hn.
  - destruct (similar_lookup _ _ _ _ Sim Hn) as (m & -> & Es%static_eq). cbn. naive_solver.
  - destruct (ft_nodes t !! ft_root t) as [m|] eqn:Hm; [|done].
    symmetry in Sim. destruct (similar_lookup _ _ _ _ Sim Hm) as (n & Hn' & _). congruence.
Qed.

(** A tree with the same blocks, over a database with the same blocks, whose votes agree. *)
Lemma aligned_step d d' t t' : aligned d t -> same_blocks d d' -> tree_inv t' -> ft_root t' = ft_root t ->
  similar (ft_nodes t') (ft_nodes t) -> vc_current_epoch (ft_context t) <= vc_current_epoch (ft_context t') ->
  bd_equivocating d' = Some (ft_equivocating t') ->
  (forall i, 0 <= i -> i ∉ ft_equivocating t' -> av_root <$> ft_votes t' !! i = lm_root <$> lm_view (bd_messages d') !! i) ->
  (forall i m, 0 <= i -> i ∉ ft_equivocating t' -> lm_view (bd_messages d') !! i = Some m -> is_Some (block_at d' (lm_root m))) ->
  aligned d' t'.
Proof.
  intros [I M L Ix C U Re Eq V K] Sb I' Er Sim He Eq' V' K'.
  assert (forall x n, ft_nodes t' !! x = Some n -> exists m, ft_nodes t !! x = Some m /\
    fn_parent n = fn_parent m /\ fn_slot n = fn_slot m /\ fn_children n = fn_children m /\
    fn_justified_checkpoint n = fn_justified_checkpoint m /\
    fn_unrealized_justified_checkpoint n = fn_unrealized_justified_checkpoint m) as Hn.
  { intros x n Hx. destruct (similar_lookup _ _ _ _ Sim Hx) as (m & Hm & Es%static_eq). by exists m. }
  pose proof (fun x => same_blocks_at d d' x Sb) as Hb. destruct Sb as (_ & Ep & Es & Eu).
  split; [done| | | | | | |done..].
  - intros x n Hx. destruct (Hn x n Hx) as (m & Hm & -> & -> & _). rewrite Hb. by apply M.
  - rewrite (root_slot_similar t t') by done. intros x b. rewrite Hb. intros Hx Hs.
    destruct (L x b Hx Hs) as (p & Hp & Hlt). exists p. by rewrite Hb.
  - intros p c. rewrite Ep, Ix. by setoid_rewrite Hb.
  - intros x n c b Hx. destruct (Hn x n Hx) as (m & Hm & _ & _ & -> & _). rewrite Hb. by apply C.
  - intros x n Hx. destruct (Hn x n Hx) as (m & Hm & _ & _ & _ & _ & ->). rewrite Eu. by apply U.
  - intros x n Hx Hs. destruct (Hn x n Hx) as (m & Hm & _ & Hsl & _ & -> & _). rewrite Es. apply Re; [done|]. rewrite Hsl in Hs. lia.
Qed.

Lemma aligned_same d d' t : same_blocks d d' -> same_votes d d' -> aligned d t -> aligned d' t.
Proof.
  intros Sb [Em Ee] Al. eapply aligned_step; [done|done|apply Al|done|done|done| | |].
  - rewrite Ee. apply Al.
  - rewrite Em. apply Al.
  - intros i m. rewrite Em, (same_blocks_at _ _ _ Sb). apply Al.
Qed.

(** Changes of weights, votes' balances and checkpoints keep a tree aligned. *)
Lemma aligned_similar d t t' : aligned d t -> tree_inv t' -> ft_root t' = ft_root t ->
  similar (ft_nodes t') (ft_nodes t) -> vc_current_epoch (ft_context t) <= vc_current_epoch (ft_context t') ->
  ft_equivocating t' = ft_equivocating t -> av_root <$> ft_votes t' = av_root <$> ft_votes t -> aligned d t'.
Proof.
  intros Al I' Er Sim He Ee Ev. eapply aligned_step; [done|done|done|done|done|done| | |]; rewrite Ee.
  - apply Al.
  - intros i H0 Hi. rewrite <-(al_votes _ _ Al i H0 Hi), <-!lookup_fmap. by rewrite Ev.
  - apply Al.
Qed.

(** ** Pruning *)

Lemma pruned_node nodes r x n' : pruned nodes r !! x = Some n' ->
  exists n, nodes !! x = Some n /\ n' = if decide (x = r) then fn_set_parent None n else n.
Proof.
  unfold pruned. destruct (decide (x = r)) as [->|Hne].
  - rewrite lookup_alter_eq. intros (n & Hn & ->)%fmap_Some. apply lookup_kept in Hn as [Hn _]. eauto.
  - rewrite lookup_alter_ne by done. intros Hn. apply lookup_kept in Hn as [Hn _]. eauto.
Qed.

Lemma prune_aligned d t r t' : aligned d t -> prune t r = Ok t' -> is_Some (ft_nodes t !! r) -> r <> ft_root t ->
  aligned d t' /\ ft_root t' = r /\ ft_context t' = ft_context t /\ root_slot t' = default 0 (fn_slot <$> ft_nodes t !! r) /\
  ft_balances_checkpoint t' = ft_balances_checkpoint t /\ ft_balances t' = ft_balances t /\ ft_proposer_score t' = ft_proposer_score t.
Proof.
  intros [I M L Ix C U Re Eq V K] Ep Hr Hne. pose proof (tr_forest _ _ (ti_tracks _ I)) as Fo.
  destruct (tree_prune_inv t r I Hr Hne) as (t2 & E2 & I' & Er & Sim & Ec & Eb & Ebc & Esc & Ev & Ee & _).
  assert (t2 = t') as -> by congruence. clear E2 Ep.
  assert (forall x n, ft_nodes t' !! x = Some n -> exists m, ft_nodes t !! x = Some m /\ (forall p, fn_parent n = Some p -> fn_parent m = Some p) /\
    fn_slot n = fn_slot m /\ fn_children n = fn_children m /\ fn_justified_checkpoint n = fn_justified_checkpoint m /\
    fn_unrealized_justified_checkpoint n = fn_unrealized_justified_checkpoint m) as Hn.
  { intros x n Hx. destruct (similar_lookup _ _ _ _ Sim Hx) as (m & Hm & (Hp & Hs & Hc & Hj & Hu)%static_eq).
    destruct (pruned_node _ _ _ _ Hm) as (k & Hk & ->). exists k. rewrite Hp, Hs, Hc, Hj, Hu. by case_decide. }
  assert (root_slot t' = default 0 (fn_slot <$> ft_nodes t !! r)) as Hrs.
  { unfold root_slot. rewrite Er. destruct (fo_root _ _ (tr_forest _ _ (ti_tracks _ I'))) as (n & Hx & _).
    rewrite Er in Hx. rewrite Hx. destruct (Hn r n Hx) as (m & -> & _ & Es & _). cbn. by rewrite Es. }
  split_and!; [|done..]. split.
  - done.
  - intros x n Hx. destruct (Hn x n Hx) as (m & Hm & Hp & -> & _). destruct (M x m Hm) as (b & Hb & Es & Hpar).
    exists b. split_and!; [done|done|]. intros p Hp'. by apply Hpar, Hp.
  - intros x b Hb Hs. apply (L x b Hb). destruct Hr as [n Hr]. rewrite Hrs, Hr in Hs. cbn in Hs.
    pose proof (forest_root_slot t r n Fo Hr). lia.
  - done.
  - intros x n c b Hx. destruct (Hn x n Hx) as (m & Hm & _ & _ & -> & _). by apply C.
  - intros x n Hx. destruct (Hn x n Hx) as (m & Hm & _ & _ & _ & _ & ->). by apply U.
  - intros x n Hx Hs. destruct (Hn x n Hx) as (m & Hm & _ & Es & _ & -> & _). apply Re; [done|]. by rewrite Es, Ec in Hs.
  - by rewrite Ee.
  - intros i H0. rewrite Ee, Ev. by apply V.
  - intros i m H0. rewrite Ee. by apply K.
Qed.

(** ** Reconciling *)

(** What the database and the caches must offer for the justified checkpoint [j], the
    finalized one [fin] and the epoch [e]; the balances are [b]. *)
Record ready s t (fin j : Checkpoint) (e : Z) (b : ForkChoiceBalances) : Prop := mkReady {
  rdy_finalized : bd_finalized (st_db s) = Some fin;
  rdy_justified : bd_justified (st_db s) = Some j;
  rdy_epoch : get_current_store_epoch s = Ok e;
  rdy_later : vc_current_epoch (ft_context t) <= e;
  rdy_root : exists n, ft_nodes t !! cp_root fin = Some n /\ fn_slot n <= compute_start_slot_at_epoch (cp_epoch fin);
  rdy_state : exists state, checkpoint_state (st_db s) j = Ok (Some state) /\ from_checkpoint_state state = Ok b;
  rdy_supply : supply_ok (fcb_balances b) (fcb_proposer_score b);
  rdy_cached : forall cb, cb ∈ st_fork_choice_balances s -> cb.1 = j -> cb.2 = b;
  rdy_loaded : ft_balances_checkpoint t = Some j -> ft_balances t = fcb_balances b /\ ft_proposer_score t = fcb_proposer_score b;
  rdy_boost : exists r, bd_proposer_boost_root (st_db s) = Some r /\ (r = B256_ZERO \/ is_Some (block_at (st_db s) r));
}.

Lemma prune_step d t fin n : aligned d t -> ft_nodes t !! cp_root fin = Some n ->
  exists t', (if bool_decide (ft_root t = cp_root fin) then Ok t else prune t (cp_root fin)) = Ok t' /\ aligned d t' /\
    ft_root t' = cp_root fin /\ root_slot t' = fn_slot n /\ ft_context t' = ft_context t /\
    ft_balances_checkpoint t' = ft_balances_checkpoint t /\ ft_balances t' = ft_balances t /\ ft_proposer_score t' = ft_proposer_score t.
Proof.
  intros Al Hn. case_bool_decide as Hr.
  - exists t. split_and!; try done. unfold root_slot. by rewrite Hr, Hn.
  - destruct (tree_prune_inv t (cp_root fin) (al_inv _ _ Al)) as (t' & E & _); [by eexists|done|]. exists t'.
    destruct (prune_aligned d t _ t' Al E) as (Al' & E1 & E2 & E3 & E4 & E5 & E6); [by eexists|done|].
    rewrite Hn in E3. done.
Qed.

Lemma context_step d t context : aligned d t -> vc_current_epoch (ft_context t) <= vc_current_epoch context ->
  exists t', update_context t context = Ok t' /\ aligned d t' /\ ft_context t' = context /\
    ft_root t' = ft_root t /\ root_slot t' = root_slot t /\
    ft_balances_checkpoint t' = ft_balances_checkpoint t /\ ft_balances t' = ft_balances t /\ ft_proposer_score t' = ft_proposer_score t.
Proof.
  intros Al Hle. destruct (update_context_inv t context (al_inv _ _ Al)) as (t' & E & I & Rf). exists t'.
  pose proof (refreshed_similar _ _ Rf) as Sim. destruct Rf as (nodes & -> & _). cbn in Sim |- *.
  split_and!; try done.
  - by eapply aligned_similar.
  - by apply root_slot_similar.
Qed.

Lemma balances_step s t j b : aligned (st_db s) t ->
  (exists state, checkpoint_state (st_db s) j = Ok (Some state) /\ from_checkpoint_state state = Ok b) ->
  supply_ok (fcb_balances b) (fcb_proposer_score b) ->
  (forall cb, cb ∈ st_fork_choice_balances s -> cb.1 = j -> cb.2 = b) ->
  (ft_balances_checkpoint t = Some j -> ft_balances t = fcb_balances b /\ ft_proposer_score t = fcb_proposer_score b) ->
  exists t', (if bool_decide (ft_balances_checkpoint t = Some j) then Ok t else load_fork_choice_balances s t j) = Ok t' /\
    aligned (st_db s) t' /\ ft_balances t' = fcb_balances b /\ ft_proposer_score t' = fcb_proposer_score b /\
    ft_balances_checkpoint t' = Some j /\ ft_context t' = ft_context t /\ ft_root t' = ft_root t /\ root_slot t' = root_slot t.
Proof.
  intros Al (state & Es & Eb) Hs Hc Hl. case_bool_decide as Hj.
  - exists t. destruct (Hl Hj). done.
  - assert (load_fork_choice_balances s t j = set_balances t j (fcb_balances b) (fcb_proposer_score b)) as ->.
    { unfold load_fork_choice_balances. destruct (list_find _ _) as [[i [j' cached]]|] eqn:Ef.
      - apply list_find_Some in Ef as (Hi & Hj' & _). cbn in Hj'. apply list_elem_of_lookup_2 in Hi.
        by rewrite <-(Hc _ Hi Hj').
      - rewrite Es. cbn. by rewrite Eb. }
    destruct (set_balances_inv t j _ _ (al_inv _ _ Al) Hs) as (t' & E & I & E1 & E2 & E3 & E4 & E5 & E6 & _ & Sim & E7).
    exists t'. split_and!; try done.
    + eapply aligned_similar; try done. by rewrite E5.
    + by apply root_slot_similar.
Qed.

Lemma boost_step d t r : aligned d t ->
  let root := if bool_decide (r = B256_ZERO) then None else Some r in
  exists t', set_proposer_boost_root t root = Ok t' /\ aligned d t' /\
    ft_boost t' = (fun r => (r, ft_proposer_score t)) <$> root /\ ft_context t' = ft_context t /\ ft_root t' = ft_root t /\
    root_slot t' = root_slot t /\ ft_balances t' = ft_balances t /\ ft_proposer_score t' = ft_proposer_score t.
Proof.
  intros Al root. destruct (set_proposer_boost_root_inv t root (al_inv _ _ Al)) as (t' & E & I & (nodes & -> & Sim)).
  eexists. split_and!; [done|by eapply aligned_similar|done..|by apply root_slot_similar|done|done].
Qed.

(** An aligned tree that is reconciled is in step. *)
Lemma reconcile_synced s t fin j e b : aligned (st_db s) t -> ready s t fin j e b ->
  exists t', reconcile_fork_choice_tree s t = Ok t' /\ synced s t' /\ ft_context t' = mkViabilityContext j fin e.
Proof.
  intros Al [Hf Hj He Hle (n & Hn & Hs) Hst Hsup Hc Hl (r & Hr & Hknown)]. unfold reconcile_fork_choice_tree.
  rewrite Hf, Hj, He, Hr. run_ok.
  destruct (prune_step _ t fin n Al Hn) as (t1 & E1 & Al1 & R1 & S1 & C1 & K1 & B1 & P1).
  rewrite E1. run_ok.
  destruct (context_step _ t1 (mkViabilityContext j fin e) Al1) as (t2 & E2 & Al2 & C2 & R2 & S2 & K2 & B2 & P2); [by rewrite C1|].
  rewrite E2. run_ok.
  destruct (balances_step s t2 j b Al2) as (t3 & E3 & Al3 & B3 & P3 & K3 & C3 & R3 & S3); [done..| |].
  { rewrite K2, K1, B2, B1, P2, P1. done. }
  rewrite E3. run_ok. destruct (boost_step _ t3 r Al3) as (t4 & E4 & Al4 & B4 & C4 & R4 & S4 & D4 & P4).
  exists t4. split; [done|]. split; [|congruence].
  assert (ft_context t4 = mkViabilityContext j fin e) as Ec by congruence.
  split; rewrite ?Ec; cbn; try done.
  - congruence.
  - by rewrite S4, S3, S2, S1.
  - destruct Hst as (state & Es & Eb). exists state. split; [done|]. rewrite D4, B3, P4, P3. by destruct b.
  - rewrite B4, Hr. case_bool_decide as Hz; [by rewrite Hz|done].
  - intros x score. rewrite B4. case_bool_decide as Hz; [done|]. cbn. intros [= <- _]. naive_solver.
Qed.
End refresh.

Section steps.
Context {RD : Redb} {RDL : RedbLaws RD} {RM : RedbMulti} {RML : RedbMultiLaws RM}.
Context {H : Sha256} {F : CandidateFuel} {HO : HashOrder} {HOL : HashOrderLaws HO} {SV : SszVec}.
Context {R : Roots} {B : Bls} {N : BeaconNetworkSpec}.
Context {BA : BlsAggregate} {TH : TreeHash SignedBLSToExecutionChange} {FS : ForkChoiceSpec}.
Implicit Types (d : BeaconDB) (s : Store) (t : ForkChoiceTree).

(** The laws of the state monad, for the store. *)
Lemma bindS_Ok {A C} (m : SM A) (k : A -> SM C) s s' b :
  (m ≫= k) s = (s', Ok b) <-> exists s1 a, m s = (s1, Ok a) /\ k a s1 = (s', Ok b).
Proof. apply bindM_Ok. Qed.
Lemma bindS_reads {A C} (f : Store -> res anyhow A) (k : A -> SM C) s :
  ((reads f : SM A) ≫= k) s = match f s with Ok a => k a s | Err e => (s, Err e) | Panic => (s, Panic) | NoFuel => (s, NoFuel) end.
Proof. apply bindM_reads. Qed.
Lemma bindS_lift {A C} (r : res anyhow A) (k : A -> SM C) s :
  ((lift r : SM A) ≫= k) s = match r with Ok a => k a s | Err e => (s, Err e) | Panic => (s, Panic) | NoFuel => (s, NoFuel) end.
Proof. apply bindM_lift. Qed.
Lemma bindS_modify {C} (f : Store -> Store) (k : unit -> SM C) s : ((modify f : SM unit) ≫= k) s = k tt (f s).
Proof. done. Qed.

Lemma bindS_modify_db {C} (f : BeaconDB -> BeaconDB) (k : unit -> SM C) s : (modify_db f ≫= k) s = k tt (st_set_db (f (st_db s)) s).
Proof. done. Qed.

(** ** Being in step depends on the database alone *)

(** The rest of what being in step reads of a database. *)
Definition same_anchor d d' : Prop :=
  bd_justified d' = bd_justified d /\ bd_finalized d' = bd_finalized d /\
  bd_proposer_boost_root d' = bd_proposer_boost_root d /\ bd_time d' = bd_time d /\ bd_genesis_time d' = bd_genesis_time d /\
  bd_checkpoint_states d' = bd_checkpoint_states d.

Lemma epoch_db s s' : bd_time (st_db s') = bd_time (st_db s) -> bd_genesis_time (st_db s') = bd_genesis_time (st_db s) ->
  get_current_store_epoch s' = get_current_store_epoch s.
Proof. intros E1 E2. unfold get_current_store_epoch, get_current_slot, get_slots_since_genesis. by rewrite E1, E2. Qed.

(** A step that changes votes only. *)
Lemma synced_step s s' t t' : synced s t -> aligned (st_db s') t' -> same_anchor (st_db s) (st_db s') ->
  same_blocks (st_db s) (st_db s') ->
  ft_root t' = ft_root t -> ft_context t' = ft_context t -> ft_balances t' = ft_balances t ->
  ft_proposer_score t' = ft_proposer_score t -> ft_boost t' = ft_boost t -> similar (ft_nodes t') (ft_nodes t) ->
  synced s' t'.
Proof.
  intros [Al Hr Hs Hj Hf He Hst Hb Hbd] Al' (Ej & Ef & Ep & Et & Eg & Ec) Sb Er Ex Ebal Esc Ebo Sim.
  pose proof (root_slot_similar t t' Er Sim) as Ers.
  split; rewrite ?Er, ?Ers, ?Ex, ?Ebal, ?Esc, ?Ebo, ?Ej, ?Ef, ?Ep, ?(epoch_db s s' Et Eg); try done.
  - destruct Hst as (state & Es & Eb). exists state. split; [|done]. destruct Sb as (_ & _ & Est & _).
    unfold checkpoint_state, in_memory, build_checkpoint_state in *. by rewrite Ec, Est.
  - intros r score Hrs. rewrite (same_blocks_at _ _ _ Sb). by eapply Hbd.
Qed.

Lemma synced_db s s' t : st_db s' = st_db s -> synced s t -> synced s' t.
Proof. intros E Sy. apply (synced_step s s' t t Sy); rewrite ?E; try done. apply Sy. Qed.

Lemma ready_db s s' t fin j e b : st_db s' = st_db s -> st_fork_choice_balances s' = st_fork_choice_balances s ->
  ready s t fin j e b -> ready s' t fin j e b.
Proof.
  intros E Eb [Hf Hj He Hle Hroot Hst Hsup Hc Hl Hboost].
  assert (get_current_store_epoch s' = get_current_store_epoch s) as Ee by (apply epoch_db; by rewrite E).
  split; rewrite ?E, ?Ee, ?Eb; done.
Qed.

Definition in_step s : Prop := exists t, st_fork_choice s = Some t /\ synced s t.

Lemma refresh_in_step s t fin j e b now : st_fork_choice s = Some t -> aligned (st_db s) t -> ready s t fin j e b ->
  exists t', refresh_fork_choice now s = (st_set_fork_choice (Some t') s, Ok tt) /\ synced (st_set_fork_choice (Some t') s) t'.
Proof.
  intros Ht Al Rdy. unfold refresh_fork_choice. rewrite Ht.
  destruct (reconcile_synced (st_set_fork_choice None s) t fin j e b) as (t' & -> & Sy & _); [done|by apply (ready_db s)|].
  exists t'. split; [done|]. by apply (synced_db (st_set_fork_choice None s)).
Qed.

(** A refresh changes neither the database nor the cached balances. *)
Definition over d (cache : list (Checkpoint * ForkChoiceBalances)) s : Prop :=
  st_db s = d /\ st_fork_choice_balances s = cache.

Lemma try_or_preserves (P : Store -> Prop) {A} (m : SM A) h : preserves P m -> (forall e, preserves P (h e)) -> preserves P (try_or m h).
Proof.
  intros Hm Hh a Ha. unfold try_or. specialize (Hm a Ha). destruct (m a) as [a' [?|e| |]]; try done. by apply Hh.
Qed.

Lemma enable_over d cache : preserves (over d cache) enable_fork_choice_tree.
Proof.
  unfold enable_fork_choice_tree. repeat (apply preserves_bind; [|intros ?]).
  all: first [apply preserves_reads|by apply preserves_modify].
Qed.

Lemma recover_over d cache now : preserves (over d cache) (recover_fork_choice now).
Proof.
  apply try_or_preserves; [apply enable_over|]. intros e. apply preserves_bind; [|intros ?]; by apply preserves_modify.
Qed.

Lemma refresh_over d cache now : preserves (over d cache) (refresh_fork_choice now).
Proof.
  intros s Hs. unfold refresh_fork_choice. destruct (st_fork_choice s) as [t|].
  - destruct (reconcile_fork_choice_tree _ _); try done. by apply recover_over.
  - case_match; [done|]. apply try_or_preserves; [apply enable_over| |done]. intros e. by apply preserves_modify.
Qed.

Lemma refresh_frame now s s' r : refresh_fork_choice now s = (s', r) ->
  st_db s' = st_db s /\ st_fork_choice_balances s' = st_fork_choice_balances s.
Proof. intros E. pose proof (refresh_over (st_db s) (st_fork_choice_balances s) now s) as Hf. rewrite E in Hf. by apply Hf. Qed.

(** A step that ends in a refresh: what it leaves is in step if it was aligned before it. *)
Lemma refreshed_in_step now s t s' r fin j e b : refresh_fork_choice now s = (s', r) ->
  st_fork_choice s = Some t -> aligned (st_db s) t -> ready s' t fin j e b -> in_step s'.
Proof.
  intros E Ht Al Rdy. destruct (refresh_frame _ _ _ _ E) as [E1 E2].
  destruct (refresh_in_step s t fin j e b now Ht Al) as (t' & E' & Sy); [by apply (ready_db s')|].
  assert (s' = st_set_fork_choice (Some t') s) as -> by congruence. by exists t'.
Qed.

(** ** Votes *)

(** The latest message of a validator gives way to one with a newer target. *)
Definition note_vote (equivocating : gset Z) (message : LatestMessage) (view : gmap Z LatestMessage) (i : Z) : gmap Z LatestMessage :=
  if decide (i ∈ equivocating) then view
  else match view !! i with
       | Some latest => if lm_epoch latest <? lm_epoch message then <[i := message]> view else view
       | None => <[i := message]> view
       end.
Definition vote_of (attestation : Attestation) : LatestMessage :=
  mkLatestMessage (cp_epoch (ad_target (att_data attestation))) (ad_beacon_block_root (att_data attestation)).
Definition note_votes (equivocating : gset Z) (view : gmap Z LatestMessage) (l : list (list Z * Attestation)) : gmap Z LatestMessage :=
  foldl (fun view ia => foldl (note_vote equivocating (vote_of ia.2)) view ia.1) view l.

(** What the loops have read and written, against the messages so far. *)
Definition noting (equivocating indices : gset Z) (start view : gmap Z LatestMessage) (acc : gmap Z LatestMessage * gmap Z LatestMessage) : Prop :=
  (forall i, i ∈ indices -> acc.1 !! i = view !! i) /\ acc.2 ∪ start = view /\
  (forall i, is_Some (acc.2 !! i) -> (i ∉ equivocating) /\ i ∈ indices).

Lemma update_message_noting equivocating indices start view acc message i :
  (i ∉ equivocating -> i ∈ indices) -> noting equivocating indices start view acc ->
  noting equivocating indices start (note_vote equivocating message view i) (update_message equivocating message acc i).
Proof.
  intros Hi (Hr & Hw & Hn). destruct acc as [stored updates]. cbn in *. unfold update_message, note_vote.
  destruct (decide (i ∈ equivocating)) as [He|He]; [by rewrite bool_decide_true by done|]. rewrite bool_decide_false by done.
  rewrite (Hr i) by auto.
  assert (noting equivocating indices start (<[i := message]> view) (<[i := message]> stored, <[i := message]> updates)) as Hnew.
  { split_and!; cbn.
    - intros k Hk. destruct (decide (i = k)) as [->|]; [by rewrite !lookup_insert_eq|]. rewrite !lookup_insert_ne by done. by apply Hr.
    - rewrite <-Hw. symmetry. apply insert_union_l.
    - intros k Hk. apply lookup_insert_is_Some in Hk as [<-|[_ Hk]]; [by auto|by apply Hn]. }
  destruct (view !! i) as [latest|]; [|done]. by destruct (_ <? _).
Qed.

Lemma update_messages_noting equivocating indices start l : forall view acc,
  (forall i, i ∈ mjoin l.*1 -> i ∉ equivocating -> i ∈ indices) -> noting equivocating indices start view acc ->
  noting equivocating indices start (note_votes equivocating view l) (foldl (update_messages equivocating) acc l).
Proof.
  induction l as [|[ix a] l IH]; intros view acc Hin Hn; [done|]. cbn [foldl note_votes]. apply IH.
  { intros i Hi. apply Hin. cbn. set_solver. }
  unfold update_messages. cbn [fst snd]. fold (vote_of a).
  assert (forall i, i ∈ ix -> i ∉ equivocating -> i ∈ indices) as Hin' by (intros i Hi; apply Hin; cbn; set_solver).
  clear IH Hin. revert view acc Hn. induction ix as [|i ix IH]; intros view acc Hn; [done|]. cbn. apply IH.
  - intros k Hk. apply Hin'. set_solver.
  - apply update_message_noting; [apply Hin'; set_solver|done].
Qed.

(** Recording votes moves each validator that is not equivocating to its new root. *)
Lemma record_votes_roots t l i : i ∉ ft_equivocating t -> forall acc, NoDup l.*1 ->
  av_root <$> (foldl (record_vote t) acc l).1 !! i =
  match (list_to_map l : gmap Z B256) !! i with Some r => Some r | None => av_root <$> acc.1 !! i end.
Proof.
  intros Hi. induction l as [|[k r] l IH]; intros [votes deltas] Hnd; [cbn; by rewrite lookup_empty|].
  cbn in Hnd |- *. apply NoDup_cons in Hnd as [Hk Hnd]. case_bool_decide as He; rewrite IH by done; cbn.
  - by rewrite (lookup_insert_ne _ k) by (intros ->; done).
  - destruct (decide (k = i)) as [->|Hne].
    + rewrite !lookup_insert_eq. by rewrite not_elem_of_list_to_map_1.
    + by rewrite !lookup_insert_ne by done.
Qed.

(** Writing messages and recording their votes keeps the tree in step. *)
Lemma process_votes_synced s t l messages : synced s t -> NoDup l.*1 -> Forall (fun im : Z * LatestMessage => 0 <= im.1) l ->
  lm_view messages = list_to_map l ∪ lm_view (bd_messages (st_db s)) ->
  (forall i m, 0 <= i -> i ∉ ft_equivocating t -> lm_view messages !! i = Some m -> is_Some (block_at (st_db s) (lm_root m))) ->
  exists t', process_votes t ((fun im : Z * LatestMessage => (im.1, lm_root im.2)) <$> l) = Ok t' /\
    synced (st_set_db (bd_set_messages messages (st_db s)) s) t'.
Proof.
  intros Sy Hnd Hpos Hview Hknown. pose proof (sy_aligned _ _ Sy) as Al.
  set (roots := (fun im : Z * LatestMessage => (im.1, lm_root im.2)) <$> l).
  assert (NoDup roots.*1) as Hnd' by (unfold roots; rewrite <-list_fmap_compose, (list_fmap_ext _ fst) by done; done).
  destruct (process_votes_inv t roots (al_inv _ _ Al)) as (t' & E & I' & Mv).
  { unfold roots. apply Forall_fmap. eapply Forall_impl; [exact Hpos|]. done. }
  exists t'. split; [done|]. pose proof (moved_fields _ _ Mv) as (Er & Ex & Eb & _ & Es & Evo & Ee & Ebo).
  assert (similar (ft_nodes t') (ft_nodes t)) as Sim by (by destruct Mv as (nodes & pending & -> & Sim)). cbn in Er, Ex, Eb, Es, Evo, Ee, Ebo.
  eapply synced_step; [exact Sy| |done..].
  eapply aligned_step; [exact Al|done|done|done|done|by rewrite Ex|rewrite Ee; apply Al| |]; cbn.
  - intros i H0. rewrite Ee, Evo. intros Hi. rewrite record_votes_roots by done. cbn. rewrite Hview, lookup_union.
    assert (list_to_map roots !! i = lm_root <$> (list_to_map l : gmap Z LatestMessage) !! i) as ->.
    { unfold roots. by rewrite <-lookup_fmap, <-list_to_map_fmap. }
    destruct (list_to_map l !! i) as [m|]; cbn; [by destruct (lm_view _ !! i)|]. rewrite (left_id_L None (∪)). by apply Al.
  - intros i m H0. rewrite Ee. apply Hknown. done.
Qed.

(** A batch of votes: the database gets the newest message of every validator, and the tree
    stays in step. *)
Definition fresh_votes d (l : list (list Z * Attestation)) : Prop :=
  forall ix a, (ix, a) ∈ l -> Forall (fun i => 0 <= i) ix /\ is_Some (block_at d (ad_beacon_block_root (att_data a))).

Lemma note_votes_known d equivocating l : forall view, fresh_votes d l ->
  (forall i m, view !! i = Some m -> 0 <= i -> i ∉ equivocating -> is_Some (block_at d (lm_root m))) ->
  forall i m, note_votes equivocating view l !! i = Some m -> 0 <= i -> i ∉ equivocating -> is_Some (block_at d (lm_root m)).
Proof.
  induction l as [|[ix a] l IH]; intros view Hf Hv; [done|]. apply IH; [intros ix' a' Hin; apply Hf; set_solver|]. clear IH.
  destruct (Hf ix a) as [_ Hk]; [set_solver|]. cbn. revert view Hv. clear Hf. induction ix as [|k ix IH]; intros view Hv; [done|].
  cbn. apply IH. intros i m. unfold note_vote. case_decide; [apply Hv|].
  assert (forall i m, <[k := vote_of a]> view !! i = Some m -> 0 <= i -> i ∉ equivocating -> is_Some (block_at d (lm_root m))) as Hnew.
  { intros i' m'. intros [[<- <-]|[_ Hi]]%lookup_insert_Some; [by intros; cbn|by eapply Hv]. }
  destruct (view !! k) as [latest|]; [|apply Hnew]. destruct (_ <? _); [apply Hnew|apply Hv].
Qed.

Lemma batch_noting d l : let equivocating := default ∅ (bd_equivocating d) in
  let indices := hs_iter (list_to_set (filter (fun i => i ∉ equivocating) (mjoin l.*1)) : gset Z) in
  noting equivocating (list_to_set indices) (lm_view (bd_messages d)) (note_votes equivocating (lm_view (bd_messages d)) l)
    (foldl (update_messages equivocating) (get_many (bd_messages d) indices, ∅) l).
Proof.
  intros equivocating indices. apply update_messages_noting.
  - intros i Hi He. rewrite elem_of_list_to_set. unfold indices. rewrite elem_of_hs_iter, elem_of_list_to_set, list_elem_of_filter. done.
  - split_and!; cbn.
    + intros i Hi%elem_of_list_to_set. rewrite get_many_view. by rewrite decide_True by done.
    + apply (left_id_L ∅ (∪)).
    + intros i [m Hm]. by rewrite lookup_empty in Hm.
Qed.

Lemma insert_batch_result m l now : (exists m' b, insert_batch m l now = Ok (m', b)) \/ exists e, insert_batch m l now = Err e.
Proof.
  unfold insert_batch. destruct (lt_pending m) as [p|]; [|by left; eauto]. destruct (lt_accepting m); cbn; [left; eauto|right; eauto].
Qed.

Lemma map_iter (m : gmap Z LatestMessage) : list_to_map (hm_iter m) = m.
Proof. rewrite <-(list_to_map_to_list m) at 2. apply list_to_map_proper; [apply NoDup_hm_iter|apply hm_iter_perm]. Qed.

Lemma votes_in_step s t now l s' r : st_fork_choice s = Some t -> synced s t -> fresh_votes (st_db s) l ->
  update_latest_messages_batch now l s = (s', r) ->
  (r = Ok tt /\ in_step s' /\
   lm_view (bd_messages (st_db s')) = note_votes (ft_equivocating t) (lm_view (bd_messages (st_db s))) l) \/
  (s' = s /\ exists e, r = Err e).
Proof.
  intros Ht Sy Hf. set (d := st_db s) in *. pose proof (sy_aligned _ _ Sy) as Al. pose proof (al_equivocating _ _ Al) as Ee.
  pose proof (batch_noting d l) as Hn. fold d in Ee. unfold update_latest_messages_batch. fold d. rewrite Ee in Hn |- *.
  cbn [default id] in Hn |- *. cbv zeta in Hn. destruct (foldl _ _ l) as [stored updates]. destruct Hn as (_ & Hview & Hne). cbn in Hview, Hne.
  case_bool_decide as Hu.
  { intros [= <- <-]. left. split_and!; [done|by exists t|]. by rewrite <-Hview, Hu, (left_id_L ∅ (∪)). }
  destruct (insert_batch_result (bd_messages d) (hm_iter updates) now) as [(messages & started & Ei)|[e ->]]; [|intros [= <- <-]; right; eauto].
  rewrite Ei.
  apply insert_batch_view in Ei as [Ev _]. rewrite extend_iter, Hview in Ev.
  unfold on_tree. cbn [st_fork_choice st_set_db]. rewrite Ht.
  destruct (process_votes_synced s t (hm_iter updates) messages Sy (NoDup_hm_iter _)) as (t' & -> & Sy').
  - apply Forall_forall. intros [i m] Hi%elem_of_hm_iter. cbn.
    destruct (Hne i) as [_ Hi']; [by eexists|]. rewrite elem_of_list_to_set, elem_of_hs_iter, elem_of_list_to_set, list_elem_of_filter in Hi'.
    destruct Hi' as [_ Hi']. apply list_elem_of_join in Hi' as (ix & Hi' & Hix).
    apply list_elem_of_fmap in Hix as ([ix' a] & -> & Hin). destruct (Hf _ _ Hin) as [Hpos _]. rewrite Forall_forall in Hpos. by apply Hpos.
  - rewrite Ev, <-Hview. f_equal. symmetry. apply map_iter.
  - intros i m H0 Hi. rewrite Ev. intros Hm. change (st_db s) with d.
    eapply note_votes_known; [exact Hf| |exact Hm|done|exact Hi]. intros. by eapply (al_known _ _ Al).
  - intros [= <- <-]. left. split_and!; [done| |done]. exists t'. split; [done|]. by apply (synced_db (st_set_db (bd_set_messages messages d) s)).
Qed.

(** ** Slashings *)

Lemma add_all (l : list Z) : forall e : gset Z, foldl (fun e i => {[ i ]} ∪ e) e l = e ∪ list_to_set l.
Proof. induction l as [|i l IH]; intros e; cbn; [set_solver|]. rewrite IH. set_solver. Qed.

Definition slashed_indices (slashing : AttesterSlashing) : gset Z :=
  list_to_set (attesting_indices (attestation_1 slashing)) ∩ list_to_set (attesting_indices (attestation_2 slashing)).

Lemma mark_synced s t l : synced s t -> exists t', mark_equivocating t l = Ok t' /\
  ft_equivocating t' = ft_equivocating t ∪ list_to_set l /\
  synced (st_set_db (bd_set_equivocating (Some (ft_equivocating t ∪ list_to_set l)) (st_db s)) s) t'.
Proof.
  intros Sy. pose proof (sy_aligned _ _ Sy) as Al.
  destruct (mark_equivocating_inv t l (al_inv _ _ Al)) as (t' & E & I' & Ee & votes & Mv & Hroots).
  exists t'. split_and!; [done|done|]. pose proof (moved_fields _ _ Mv) as (Er & Ex & Eb & _ & Es & Evo & _ & Ebo).
  assert (similar (ft_nodes t') (ft_nodes t)) as Sim by (by destruct Mv as (nodes & pending & -> & Sim)). cbn in Er, Ex, Eb, Es, Evo, Ebo.
  eapply synced_step; [exact Sy| |done..]. eapply aligned_step; [exact Al|done|done|done|done|by rewrite Ex|by rewrite Ee| |]; cbn.
  - intros i H0 Hi. rewrite <-(al_votes _ _ Al i H0) by set_solver. rewrite <-!lookup_fmap. by rewrite Evo, Hroots.
  - intros i m H0 Hi. apply (al_known _ _ Al); [done|set_solver].
Qed.

Lemma mark_in_step s t l s' : st_fork_choice s = Some t -> synced s t ->
  (modify_db (fun d => bd_set_equivocating (Some (foldl (fun e i => {[ i ]} ∪ e) (default ∅ (bd_equivocating d)) l)) d);;
   fork_choice_mark_equivocating l) s = (s', Ok tt) ->
  in_step s' /\ bd_equivocating (st_db s') = Some (ft_equivocating t ∪ list_to_set l) /\
  bd_messages (st_db s') = bd_messages (st_db s).
Proof.
  intros Ht Sy. rewrite bindS_modify_db, (al_equivocating _ _ (sy_aligned _ _ Sy)). cbn [default id]. rewrite add_all.
  unfold fork_choice_mark_equivocating, on_tree. cbn [st_fork_choice st_set_db]. rewrite Ht.
  destruct (mark_synced s t l Sy) as (t' & -> & _ & Sy'). intros [= <-]. split; [|done]. exists t'. split; [done|]. by eapply synced_db, Sy'.
Qed.

Lemma slashing_in_step s t slashing s' : st_fork_choice s = Some t -> synced s t -> on_attester_slashing slashing s = (s', Ok tt) ->
  in_step s' /\ bd_equivocating (st_db s') = Some (ft_equivocating t ∪ slashed_indices slashing) /\
  bd_messages (st_db s') = bd_messages (st_db s).
Proof.
  intros Ht Sy. unfold on_attester_slashing. rewrite bindS_lift.
  destruct (ensure _ _); [|done..]. rewrite bindS_reads. destruct (field _ ≫= _); [|done..].
  intros E. destruct (mark_in_step s t _ s' Ht Sy E) as (Hs & He & Hm). split_and!; [done| |done].
  rewrite He. do 2 f_equal. apply set_eq. intros i. rewrite elem_of_list_to_set, elem_of_hs_iter. done.
Qed.

(** ** Ticks *)

(** What the parts of a step before its refresh keep: the tree, and what [Q] says of the
    database, which depends on its blocks and votes alone. *)
Section kept.
Context t (Q : BeaconDB -> Prop).
Hypothesis Q_same : forall d d', same_blocks d d' -> same_votes d d' -> Q d -> Q d'.

Definition keeping s : Prop := st_fork_choice s = Some t /\ Q (st_db s).

Lemma modify_db_keeping f : (forall d, same_blocks d (f d) /\ same_votes d (f d)) -> preserves keeping (modify_db f).
Proof using Q_same. intros Hf. apply preserves_modify. intros s [Ht Hq]. split; [done|]. destruct (Hf (st_db s)). by eapply Q_same. Qed.

Lemma modify_keeping f : (forall s, st_db (f s) = st_db s /\ st_fork_choice (f s) = st_fork_choice s) ->
  preserves (E := anyhow) keeping (modify f).
Proof. intros Hf. apply preserves_modify. intros s [Ht Hq]. destruct (Hf s) as [E1 E2]. split; congruence. Qed.

Lemma write_checkpoints_same w d : same_blocks d (write_checkpoints w d) /\ same_votes d (write_checkpoints w d).
Proof. destruct w as [[] [] [] [] []]; done. Qed.

Lemma record_finalized_same c d d' : record_finalized_opt c d = Ok d' -> same_blocks d d' /\ same_votes d d'.
Proof. destruct c; cbn; [|by intros [= <-]]. intros (canonical & _ & [= <-])%bind_Ok. done. Qed.

Lemma commit_checkpoints_keeping w : preserves keeping (on_db (commit_checkpoints w)).
Proof using Q_same.
  intros s [Ht Hq]. unfold on_db, commit_checkpoints. destruct (writes_is_empty w); [done|]. unfold transaction.
  destruct (record_finalized_opt _ _) as [d'| | |] eqn:E; [|done..]. cbn. split; [done|].
  apply record_finalized_same in E as [E1 E2]. eapply Q_same; [done|done|].
  destruct (write_checkpoints_same w (st_db s)). by eapply Q_same.
Qed.

Lemma publish_keeping w : preserves keeping (publish_checkpoint_writes w).
Proof using Q_same.
  unfold publish_checkpoint_writes. destruct (cw_finalized w) as [c|]; [|apply preserves_ret].
  apply try_or_preserves; [|intros e; apply preserves_ret]. unfold apply_finalization_side_effects.
  repeat (apply preserves_bind; [|intros ?]);
    first [apply preserves_reads|by apply modify_db_keeping|idtac].
  - apply modify_keeping. intros a. by destruct (st_exit_pruning a).
  - by apply modify_keeping.
  - case_match; [by apply modify_keeping|apply preserves_ret].
Qed.

Lemma pull_up_keeping : preserves keeping pull_up_epoch.
Proof using Q_same.
  unfold pull_up_epoch. repeat (apply preserves_bind; [|intros ?]).
  - apply preserves_reads.
  - apply commit_checkpoints_keeping.
  - apply publish_keeping.
Qed.
End kept.

Lemma run_preserves (P : Store -> Prop) {A} (m : SM A) s s' r : preserves P m -> P s -> m s = (s', r) -> P s'.
Proof. intros Hm Hs E. specialize (Hm s Hs). by rewrite E in Hm. Qed.

Lemma aligned_stable t : forall d d', same_blocks d d' -> same_votes d d' -> aligned d t -> aligned d' t.
Proof. intros d d'. apply aligned_same. Qed.

Lemma tick_in_step s t now time s' fin j e b : st_fork_choice s = Some t -> aligned (st_db s) t ->
  on_tick_per_slot now time s = (s', Ok tt) -> ready s' t fin j e b -> in_step s'.
Proof.
  intros Ht Al E Rdy. set (P := keeping t (fun d => aligned d t)).
  assert (P s) as Hs by done. pose proof (aligned_stable t) as Hst.
  unfold on_tick_per_slot in E. rewrite bindS_reads in E. destruct (get_current_slot s) as [previous| | |]; [|done..].
  rewrite bindS_modify_db, bindS_reads in E.
  set (s1 := st_set_db _ s) in E. assert (P s1) as Hs1 by (split; [done|]; by apply (Hst (st_db s))).
  destruct (get_current_slot s1) as [current| | |]; [|done..].
  apply bindS_Ok in E as (s2 & [] & E2 & E). assert (P s2) as Hs2.
  { eapply run_preserves; [|exact Hs1|exact E2]. destruct (previous <? current); [|apply preserves_ret].
    repeat (apply preserves_bind; [|intros ?]);
      first [apply preserves_reads|by apply modify_db_keeping|by apply modify_keeping]. }
  apply bindS_Ok in E as (s3 & [] & E3 & E). assert (P s3) as [Ht3 Al3].
  { eapply run_preserves; [|exact Hs2|exact E3]. destruct (_ && _); [|apply preserves_ret].
    apply preserves_bind; [apply preserves_reads|intros _]. by apply pull_up_keeping. }
  by eapply refreshed_in_step.
Qed.

(** ** Imported blocks *)

(** The database after the import of a block, apart from checkpoints. *)
Definition imported d (root : B256) (sb : SignedBeaconBlock) (state : BeaconState) (unrealized : Checkpoint) d' : Prop :=
  bd_block d' = rd_insert root sb (bd_block d) /\
  bd_parent_index d' = mm_insert (b_parent_root (sb_message sb)) root (bd_parent_index d) /\
  bd_state d' = rd_insert root state (bd_state d) /\
  bd_unrealized_justifications d' = rd_insert root unrealized (bd_unrealized_justifications d) /\
  same_votes d d'.

Lemma imported_stable d root sb state c : forall d1 d2, same_blocks d1 d2 -> same_votes d1 d2 ->
  imported d root sb state c d1 -> imported d root sb state c d2.
Proof.
  intros d1 d2 (E1 & E2 & E3 & E4) [E5 E6] (I1 & I2 & I3 & I4 & I5 & I6). unfold imported, same_votes.
  rewrite E1, E2, E3, E4, E5, E6. done.
Qed.

Lemma write_boost_same boost d : same_blocks d (write_field boost bd_set_proposer_boost_root d) /\
  same_votes d (write_field boost bd_set_proposer_boost_root d).
Proof. by destruct boost. Qed.

Lemma commit_imported d data d' : commit_block_import data d = (d', Ok tt) ->
  imported d (bi_block_root data) (bi_block data) (bi_state data) (fr_unrealized_justification (bi_record data)) d'.
Proof.
  unfold commit_block_import. intros E. apply bindM_Ok in E as (d0 & [] & [= <- _] & E).
  apply bindM_Ok in E as (d1 & [] & E1 & [= <-]). unfold commit_block_import_transaction, transaction in E1.
  destruct (record_finalized_opt _ _) as [d2| | |] eqn:Er; [|done..]. injection E1 as <-.
  destruct (record_finalized_same _ _ _ Er) as [Sb2 Sv2]. clear Er. unfold import_rows in Sb2, Sv2.
  set (d3 := bd_set_unrealized_justifications _ _) in *.
  set (d4 := write_field (fr_proposer_boost_root (bi_record data)) bd_set_proposer_boost_root d3) in *.
  destruct (write_boost_same (fr_proposer_boost_root (bi_record data)) d3) as [Sb4 Sv4]. fold d4 in Sb4, Sv4.
  destruct (write_checkpoints_same (fr_checkpoints (bi_record data)) d4) as [Sb5 Sv5].
  set (with_state d := bd_set_state (rd_insert (bi_block_root data) (bi_state data) (bd_state d)) d).
  assert (forall a b, same_blocks a b -> same_blocks (with_state a) (with_state b)) as Hstate.
  { intros a b (E1 & E2 & E3 & E4). unfold same_blocks. cbn. by rewrite E1, E2, E3, E4. }
  apply (imported_stable _ _ _ _ _ (with_state _) (with_state d2) (Hstate _ _ Sb2) Sv2).
  apply (imported_stable _ _ _ _ _ (with_state d4) (with_state _) (Hstate _ _ Sb5) Sv5).
  apply (imported_stable _ _ _ _ _ (with_state d3) (with_state d4) (Hstate _ _ Sb4) Sv4).
  unfold imported, same_votes. split_and!; reflexivity.
Qed.

Lemma imported_block d root sb state c d' x : imported d root sb state c d' ->
  block_at d' x = if decide (x = root) then Some (sb_message sb) else block_at d x.
Proof.
  intros (E & _). unfold block_at. rewrite E, !rd_get_view, rd_view_insert. case_decide as Hx.
  - subst. by rewrite lookup_insert_eq.
  - by rewrite lookup_insert_ne.
Qed.

(** The block is new: it is not stored, and no stored block names it. *)
Definition new_block d (root : B256) : Prop := block_at d root = None /\ mm_get (bd_parent_index d) root = [].

(** The nodes of a tree after an insertion. *)
Lemma inserted_node t t' block parent x n' : tree_inv t -> ft_nodes t !! fb_root block = None ->
  ft_nodes t !! fb_parent_root block = Some parent -> fn_slot parent < fb_slot block ->
  similar (ft_nodes t') (grown (ft_nodes t) (fb_root block) (fb_parent_root block) parent (new_node (Some (fb_parent_root block)) block)) ->
  ft_nodes t' !! x = Some n' ->
  (x = fb_root block /\ fn_parent n' = Some (fb_parent_root block) /\ fn_slot n' = fb_slot block /\ fn_children n' = [] /\
     fn_justified_checkpoint n' = fb_justified_checkpoint block /\
     fn_unrealized_justified_checkpoint n' = fb_unrealized_justified_checkpoint block) \/
  (x <> fb_root block /\ exists n, ft_nodes t !! x = Some n /\ fn_parent n' = fn_parent n /\ fn_slot n' = fn_slot n /\
     (forall k, k ∈ fn_children n' <-> k ∈ fn_children n \/ (x = fb_parent_root block /\ k = fb_root block)) /\
     fn_justified_checkpoint n' = fn_justified_checkpoint n /\
     fn_unrealized_justified_checkpoint n' = fn_unrealized_justified_checkpoint n).
Proof.
  intros I Hroot Hp Hslot Sim Hx. pose proof (tr_forest _ _ (ti_tracks _ I)) as Fo.
  destruct (similar_lookup _ _ _ _ Sim Hx) as (m & Hm & (E1 & E2 & E3 & E4 & E5)%static_eq).
  rewrite E1, E2, E3, E4, E5. clear E1 E2 E3 E4 E5. destruct (decide (x = fb_root block)) as [->|Hne].
  - left. rewrite lookup_grown_new in Hm. by injection Hm as <-.
  - right. split; [done|]. rewrite (lookup_grown _ _ Fo) in Hm by done. apply fmap_Some in Hm as (n & Hn & ->).
    exists n. split; [done|]. case_decide as Hxp; [|naive_solver]. subst x.
    assert (n = parent) as -> by congruence. cbn. split_and!; try done. intros k. set_solver.
Qed.

Lemma inserted_old t t' block parent x n : tree_inv t -> ft_nodes t !! fb_root block = None ->
  ft_nodes t !! fb_parent_root block = Some parent -> fn_slot parent < fb_slot block ->
  similar (ft_nodes t') (grown (ft_nodes t) (fb_root block) (fb_parent_root block) parent (new_node (Some (fb_parent_root block)) block)) ->
  ft_nodes t !! x = Some n ->
  x <> fb_root block /\ exists n', ft_nodes t' !! x = Some n' /\ fn_slot n' = fn_slot n /\
    forall k, k ∈ fn_children n' <-> k ∈ fn_children n \/ (x = fb_parent_root block /\ k = fb_root block).
Proof.
  intros I Hroot Hp Hslot Sim Hx. split; [intros ->; congruence|]. pose proof (tr_forest _ _ (ti_tracks _ I)) as Fo.
  destruct (grown_old _ _ Fo (fb_root block) _ parent (new_node (Some (fb_parent_root block)) block) Hroot Hp ltac:(done) x n Hx)
    as (m & Hm & _ & _ & Hs & _ & _ & _ & Hc & _). symmetry in Sim.
  destruct (similar_lookup _ _ _ _ Sim Hm) as (n' & Hn' & (_ & Es & Ec & _)%static_eq).
  exists n'. split_and!; [done|congruence|]. by rewrite <-Ec.
Qed.

Lemma inserted_root_slot t t' block parent : tree_inv t -> ft_nodes t !! fb_root block = None ->
  ft_nodes t !! fb_parent_root block = Some parent -> fn_slot parent < fb_slot block ->
  similar (ft_nodes t') (grown (ft_nodes t) (fb_root block) (fb_parent_root block) parent (new_node (Some (fb_parent_root block)) block)) ->
  ft_root t' = ft_root t -> root_slot t' = root_slot t.
Proof.
  intros I Hroot Hp Hslot Sim Er. unfold root_slot. rewrite Er. destruct (fo_root _ _ (tr_forest _ _ (ti_tracks _ I))) as (r & Hr & _).
  destruct (inserted_old t t' block parent _ _ I Hroot Hp Hslot Sim Hr) as (_ & r' & -> & Es & _). rewrite Hr. cbn. by rewrite Es.
Qed.

Lemma insert_aligned d t root sb state c d' parent : aligned d t -> imported d root sb state c d' -> new_block d root ->
  ft_nodes t !! b_parent_root (sb_message sb) = Some parent -> fn_slot parent < b_slot (sb_message sb) ->
  fst <$> ft_boost t <> Some root ->
  exists t', tree_insert t (mkForkChoiceBlock root (b_parent_root (sb_message sb)) (b_slot (sb_message sb))
                              (current_justified_checkpoint state) c) = Ok t' /\
    aligned d' t' /\ keeps t t' /\
    forall x n, ft_nodes t !! x = Some n -> exists n', ft_nodes t' !! x = Some n' /\ fn_slot n' = fn_slot n.
Proof.
  intros [I M L Ix C U Re Eq V K] Im [Hnew Hnone] Hp Hslot Hboost. pose proof (tr_forest _ _ (ti_tracks _ I)) as Fo.
  set (p := b_parent_root (sb_message sb)) in *. set (block := mkForkChoiceBlock root p _ _ c).
  assert (ft_nodes t !! root = None) as Hroot.
  { apply eq_None_not_Some. intros [n Hn]. destruct (M _ _ Hn) as (b & Hb & _). congruence. }
  destruct (tree_insert_inv t block parent I Hroot Hp Hslot Hboost) as (t' & E & I' & Kp & Sim).
  exists t'. split; [done|]. pose proof (fun x => imported_block d root sb state c d' x Im) as Hb.
  pose proof (fun x n' => inserted_node t t' block parent x n' I Hroot Hp Hslot Sim) as Hnode. cbn in Hnode.
  assert (forall x n, ft_nodes t !! x = Some n -> exists n', ft_nodes t' !! x = Some n' /\ fn_slot n' = fn_slot n) as Hold.
  { intros x n Hx. destruct (inserted_old t t' block parent x n I Hroot Hp Hslot Sim Hx) as (_ & n' & Hn' & Es & _). eauto. }
  assert (forall x b, block_at d x = Some b -> x <> root) as Hne by (intros x b Hx ->; congruence).
  assert (forall k b, block_at d k = Some b -> b_parent_root b <> root) as Hnamed.
  { intros k b Hk Hpar. apply (not_elem_of_nil k). rewrite <-Hnone. apply Ix. eauto. }
  destruct (M _ _ Hp) as (bp & Hbp & Esp & _). pose proof Kp as (Er & Ex & _ & _ & _ & Ev & Ee & _).
  pose proof (inserted_root_slot t t' block parent I Hroot Hp Hslot Sim Er) as Hrs.
  split_and!; [|done|done]. destruct Im as (_ & Ei & Es & Eu & Em & Eq').
  split; [done|..].
  - intros x n' Hx. rewrite Hb. destruct (Hnode x n' Hx) as [(-> & -> & -> & _)|(Hxr & n & Hn & -> & -> & _)].
    + rewrite decide_True by done. eexists. split_and!; [done|done|]. intros q [= <-]. done.
    + rewrite decide_False by done. by apply M.
  - rewrite Hrs. intros x b. rewrite Hb. case_decide as Hxr.
    + intros [= <-] _. exists bp. rewrite Hb, decide_False by (by eapply Hne). split; [done|lia].
    + intros Hx Hs. destruct (L x b Hx Hs) as (q & Hq & Hlt). exists q. rewrite Hb, decide_False by (by eapply Hne). done.
  - intros q k. rewrite Ei, mm_get_insert, Ix. setoid_rewrite Hb. destruct (decide (k = root)) as [->|Hk].
    + split; [intros [(b & Hbk & _)|[<- _]]; [congruence|eauto]|]. intros (b & [= <-] & <-). by right.
    + naive_solver.
  - intros x n' k b Hx. rewrite Hb. case_decide as Hk.
    + subst k. intros [= <-] <-. destruct (Hnode _ _ Hx) as [(Hpr & _)|(_ & n & Hn & _ & _ & Hch & _)].
      * fold p in Hpr. congruence.
      * apply Hch. by right.
    + intros Hbk Hpar. destruct (Hnode _ _ Hx) as [(-> & _)|(_ & n & Hn & _ & _ & Hch & _)]; [by destruct (Hnamed k b)|].
      apply Hch. left. by eapply C.
  - intros x n' Hx. rewrite Eu, rd_get_view, rd_view_insert. destruct (Hnode _ _ Hx) as [(-> & _ & _ & _ & _ & ->)|(Hxr & n & Hn & _ & _ & _ & _ & ->)].
    + by rewrite lookup_insert_eq.
    + rewrite lookup_insert_ne, <-rd_get_view by done. by apply U.
  - intros x n' Hx. rewrite Es, rd_get_view, rd_view_insert, Ex. destruct (Hnode _ _ Hx) as [(-> & _ & _ & _ & -> & _)|(Hxr & n & Hn & _ & -> & _ & -> & _)].
    + by rewrite lookup_insert_eq.
    + rewrite lookup_insert_ne, <-rd_get_view by done. by apply Re.
  - by rewrite Eq', Ee.
  - intros i H0. rewrite Ee, Ev, Em. by apply V.
  - intros i m H0. rewrite Ee, Em. intros Hi Hm. rewrite Hb. case_decide; [done|]. by eapply K.
Qed.

Lemma ready_insert s t t' fin j e b : keeps t t' ->
  (forall x n, ft_nodes t !! x = Some n -> exists n', ft_nodes t' !! x = Some n' /\ fn_slot n' = fn_slot n) ->
  ready s t fin j e b -> ready s t' fin j e b.
Proof.
  intros (_ & Ex & Eb & Ebc & Es & _) Hold [Hf Hj He Hle (n & Hn & Hs) Hst Hsup Hc Hl Hboost].
  split; rewrite ?Ex, ?Eb, ?Ebc, ?Es; try done. destruct (Hold _ _ Hn) as (n' & Hn' & Es'). exists n'. split; [done|lia].
Qed.

(** The database after an import is the one before it with the block, its state and its
    unrealized checkpoint, and the tree is in step with it. *)
Lemma import_in_step s t now pending root s' parent fin j e b : st_fork_choice s = Some t -> aligned (st_db s) t ->
  fst <$> ft_boost t <> Some root -> new_block (st_db s) root -> ft_nodes t !! b_parent_root (sb_message (pb_signed_block pending)) = Some parent ->
  fn_slot parent < b_slot (sb_message (pb_signed_block pending)) ->
  process_available_block now pending root s = (s', Ok tt) -> ready s' t fin j e b ->
  in_step s' /\ exists unrealized, imported (st_db s) root (pb_signed_block pending) (pb_post_state pending) unrealized (st_db s').
Proof.
  intros Ht Al Hboost Hnew Hp Hslot E Rdy.
  destruct pending as [sb state]. cbn [pb_signed_block pb_post_state] in *. unfold process_available_block in E. cbn [pb_signed_block pb_post_state] in E.
  rewrite bindS_reads in E. destruct (block_is_timely _ _) as [timely| | |]; [|done..].
  rewrite bindS_reads in E. destruct (get_proposer_boost_root _ _ _ _ _) as [boost| | |]; [|done..].
  rewrite bindS_lift in E. destruct (compute_justification_and_finalization _) as [up| | |]; [|done..].
  rewrite bindS_reads in E. destruct (get_current_store_epoch _) as [epoch| | |]; [|done..].
  rewrite bindS_reads in E. destruct (read_checkpoints _) as [checkpoints| | |]; [|done..].
  set (w := writes _) in E. set (c := jf_current_justified_checkpoint up) in E.
  apply bindS_Ok in E as (s1 & [] & E1 & E). unfold on_db in E1.
  destruct (commit_block_import _ (st_db s)) as [d1 r1] eqn:Ec. injection E1 as <- ->. apply commit_imported in Ec. cbn in Ec.
  rewrite bindS_lift in E. destruct (get_shuffled_active_validator_indices _ _); [|done..].
  set (P := keeping t (imported (st_db s) root sb state c)).
  apply bindS_Ok in E as (s2 & [] & E2 & E). assert (P s2) as [Ht2 Im2].
  { apply (run_preserves P _ _ _ _ (publish_keeping t _ (imported_stable _ _ _ _ _) w) (conj Ht Ec : P (st_set_db d1 s)) E2). }
  destruct (insert_aligned (st_db s) t root sb state c (st_db s2) parent Al Im2 Hnew Hp Hslot Hboost) as (t' & Et & Al' & Kp & Hold).
  apply bindS_Ok in E as (s3 & [] & E3 & E). unfold fork_choice_insert_block in E3. rewrite Ht2 in E3.
  assert (rd_get (bd_unrealized_justifications (st_db s2)) root = Some c) as Eu.
  { destruct Im2 as (_ & _ & _ & -> & _). by rewrite rd_get_view, rd_view_insert, lookup_insert_eq. }
  rewrite Eu in E3. cbn [default id] in E3. rewrite Et in E3. injection E3 as <-.
  destruct (refresh_frame _ _ _ _ E) as [Ed _]. split; [|exists c; by rewrite Ed].
  eapply refreshed_in_step; [exact E|done|exact Al'|]. by eapply ready_insert.
Qed.
End steps.
