(* ===== verification/BeaconStoreFacts.v ===== *)
(** * Clocks, checkpoints and the finalized chain

    Slots and times convert into each other, ticking catches up with the clock, the
    checkpoints of the store never go back, an import is written whole or not at all, and the
    finalized chain by slot holds every ancestor of the finalized block. *)

From stdpp Require Import strings.
From S2P Require Import Prelude StateMonad Redb Bytes Shuffling Merkle BeaconTypes BeaconAccess BeaconMutate BeaconEpoch BeaconBlockOps BeaconTransition BeaconFacts LatestMessages BeaconDb ForkTree ForkTreeFacts ForkTreeWeights ForkTreeInvariant ForkTreeBlocks ForkTreeSpec DataAvailability OperationPool SyncCommitteePool BeaconStore BeaconHandlers BeaconWalks BeaconSync BeaconSteps.

(** ** Slots and times *)

Lemma div_ceil_bounds a b : 0 <= a -> 0 < b -> a <= b * div_ceil a b < a + b.
Proof.
  intros Ha Hb. unfold div_ceil. pose proof (Z.div_mod a b ltac:(lia)). pose proof (Z.mod_pos_bound a b Hb).
  destruct (0 <? a mod b) eqn:E; b2p; nia.
Qed.

(** Nothing saturates at slot [s]. *)
Definition in_time (genesis s duration : Z) : Prop :=
  0 <= genesis /\ 0 <= s /\ MILLISECONDS_PER_SECOND <= duration /\
  duration * s + MILLISECONDS_PER_SECOND <= u64_max /\
  genesis + div_ceil (duration * s) MILLISECONDS_PER_SECOND <= u64_max.

Lemma time_at_slot_exact genesis s duration : in_time genesis s duration ->
  time_at_slot genesis s duration = genesis + div_ceil (duration * s) MILLISECONDS_PER_SECOND.
Proof.
  intros (H0 & H1 & H2 & H3 & H4). unfold MILLISECONDS_PER_SECOND in *.
  unfold time_at_slot, saturating_add, saturating_mul, MILLISECONDS_PER_SECOND. rewrite (Z.min_r _ (duration * s)) by lia. by apply Z.min_r.
Qed.

Lemma slot_roundtrip genesis s duration : in_time genesis s duration ->
  slots_since_genesis (time_at_slot genesis s duration) genesis duration = s.
Proof.
  intros Ht. rewrite time_at_slot_exact by done. destruct Ht as (H0 & H1 & H2 & H3 & H4). unfold MILLISECONDS_PER_SECOND in *.
  destruct (div_ceil_bounds (duration * s) 1000) as [B1 B2]; [nia|lia|]. set (n := div_ceil (duration * s) 1000) in *.
  unfold slots_since_genesis, seconds_to_milliseconds, saturating_sub, saturating_mul, MILLISECONDS_PER_SECOND.
  rewrite (Z.max_r 0 (genesis + n - genesis)) by nia. rewrite Z.min_r by lia.
  symmetry. apply Z.div_unique with (r := 1000 * n - duration * s); nia.
Qed.

(** A time is not before the start of its slot. *)
Lemma time_in_slot genesis time duration : 0 <= genesis <= time -> MILLISECONDS_PER_SECOND <= duration ->
  (time - genesis) * MILLISECONDS_PER_SECOND <= u64_max -> time <= u64_max ->
  time_at_slot genesis (slots_since_genesis time genesis duration) duration <= time.
Proof.
  unfold MILLISECONDS_PER_SECOND. intros Hg Hd Hm Hu.
  unfold slots_since_genesis, seconds_to_milliseconds, saturating_sub, saturating_mul, MILLISECONDS_PER_SECOND.
  rewrite (Z.max_r 0), (Z.min_r _ ((time - genesis) * 1000)) by lia. set (ms := (time - genesis) * 1000) in *. set (s := ms / duration).
  assert (duration * s <= ms) as Hs by (apply Z.mul_div_le; lia).
  assert (0 <= s) as H0 by (apply Z.div_pos; lia). unfold time_at_slot, saturating_add, saturating_mul, MILLISECONDS_PER_SECOND.
  rewrite (Z.min_r _ (duration * s)) by lia. destruct (div_ceil_bounds (duration * s) 1000) as [B1 B2]; [nia|lia|]. lia.
Qed.

Lemma is_u64_max z : 0 <= z <= u64_max -> is_u64 z.
Proof. unfold is_u64, u64_max. lia. Qed.

Section facts.
Context {RD : Redb} {RDL : RedbLaws RD} {RM : RedbMulti}.
Context {H : Sha256} {F : CandidateFuel} {HO : HashOrder} {SV : SszVec}.
Context {R : Roots} {B : Bls} {N : BeaconNetworkSpec}.
Context {BA : BlsAggregate} {TH : TreeHash SignedBLSToExecutionChange} {FS : ForkChoiceSpec}.
Implicit Types (d : BeaconDB) (s : Store).

(** ** What a step leaves alone *)

(** [Q] of the database depends on the fields listed, which the operations around a commit
    do not write. *)
Section database.
Context (Q : BeaconDB -> Prop).
Definition on_database s : Prop := Q (st_db s).

Lemma enable_database : preserves on_database enable_fork_choice_tree.
Proof. intros s Hs. unfold on_database in *. by rewrite (proj1 (enable_over (st_db s) _ s (conj eq_refl eq_refl))). Qed.
Lemma refresh_database now : preserves on_database (refresh_fork_choice now).
Proof. intros s Hs. unfold on_database in *. by rewrite (proj1 (refresh_over (st_db s) _ now s (conj eq_refl eq_refl))). Qed.
Lemma recover_database now : preserves on_database (recover_fork_choice now).
Proof. intros s Hs. unfold on_database in *. by rewrite (proj1 (recover_over (st_db s) _ now s (conj eq_refl eq_refl))). Qed.

Lemma modify_database f : (forall s, st_db (f s) = st_db s) -> preserves (E := anyhow) on_database (modify f).
Proof. intros Hf. apply preserves_modify. intros s Hs. unfold on_database. by rewrite Hf. Qed.
Lemma modify_db_database f : (forall d, Q d -> Q (f d)) -> preserves on_database (modify_db f).
Proof. intros Hf. apply preserves_modify. intros s Hs. by apply Hf. Qed.

Lemma on_tree_database f : preserves on_database (on_tree f).
Proof. intros s Hs. unfold on_tree. destruct (st_fork_choice s); [|done]. by destruct (f f0). Qed.
Lemma insert_database now root parent sl c : preserves on_database (fork_choice_insert_block now root parent sl c).
Proof.
  intros s Hs. unfold fork_choice_insert_block. destruct (st_fork_choice s); [|done].
  destruct (tree_insert _ _); try done. by apply recover_database.
Qed.

Lemma cache_balances_database c state : preserves on_database (cache_fork_choice_balances c state).
Proof.
  apply preserves_bind; [apply preserves_reads|intros []; [apply preserves_ret|]].
  apply preserves_bind; [apply preserves_lift|intros b; by apply modify_database].
Qed.

Lemma publish_database w : (forall e d, Q d -> Q (prune_before e d)) -> preserves on_database (publish_checkpoint_writes w).
Proof.
  intros HQ. unfold publish_checkpoint_writes. destruct (cw_finalized w) as [c|]; [|apply preserves_ret].
  apply try_or_preserves; [|intros e; apply preserves_ret]. unfold apply_finalization_side_effects.
  repeat (apply preserves_bind; [|intros ?]); first [apply preserves_reads|by apply modify_db_database, HQ|idtac].
  - apply modify_database. intros a. by destruct (st_exit_pruning a).
  - by apply modify_database.
  - case_match; [by apply modify_database|apply preserves_ret].
Qed.
End database.

(** ** Checkpoints *)

Lemma newer_epoch a b : cp_epoch (newer a b) = Z.max (cp_epoch a) (cp_epoch b).
Proof. unfold newer. destruct (_ <? _) eqn:E; b2p; lia. Qed.

(** No checkpoint of [a] is of a later epoch than that of [b]. *)
Definition ck_le (a b : StoredCheckpoints) : Prop :=
  cp_epoch (ck_justified a) <= cp_epoch (ck_justified b) /\ cp_epoch (ck_finalized a) <= cp_epoch (ck_finalized b) /\
  cp_epoch (ck_unrealized_justified a) <= cp_epoch (ck_unrealized_justified b) /\
  cp_epoch (ck_unrealized_finalized a) <= cp_epoch (ck_unrealized_finalized b).
#[global] Instance ck_le_preorder : PreOrder ck_le.
Proof. split; [intros a; unfold ck_le; lia|intros a b c; unfold ck_le; lia]. Qed.

Definition stored_checkpoints d : option StoredCheckpoints :=
  match bd_justified d, bd_finalized d, bd_unrealized_justified d, bd_unrealized_finalized d with
  | Some j, Some f, Some uj, Some uf => Some (mkStoredCheckpoints j (bd_previous_justified d) f uj uf)
  | _, _, _, _ => None
  end.

Lemma read_checkpoints_stored d c : read_checkpoints d = Ok c ->
  stored_checkpoints d = Some (sc_stored c) /\ sc_now c = sc_stored c.
Proof.
  unfold read_checkpoints, stored_checkpoints, field. destruct (bd_justified d); [|done]. destruct (bd_finalized d); [|done].
  destruct (bd_unrealized_justified d); [|done]. destruct (bd_unrealized_finalized d); [|done]. by intros [= <-].
Qed.

Lemma realize_le j f p c : ck_le (sc_now c) (sc_now (realize j f p c)) /\ sc_stored (realize j f p c) = sc_stored c.
Proof. split; [|done]. unfold ck_le, realize. cbn. rewrite !newer_epoch. lia. Qed.
Lemma pull_up_le j f c : ck_le (sc_now c) (sc_now (pull_up j f c)) /\ sc_stored (pull_up j f c) = sc_stored c.
Proof. split; [|done]. unfold ck_le, pull_up. cbn. rewrite !newer_epoch. lia. Qed.
Lemma import_checkpoints_le c state up e :
  ck_le (sc_now c) (sc_now (import_checkpoints c state up e)) /\ sc_stored (import_checkpoints c state up e) = sc_stored c.
Proof.
  unfold import_checkpoints. set (c1 := realize _ _ _ c). set (c2 := pull_up _ _ c1).
  assert (ck_le (sc_now c) (sc_now c2)) as Hle by (etrans; [apply realize_le|apply pull_up_le]).
  destruct (_ <? e); [|done]. split; [|done]. etrans; [exact Hle|]. apply realize_le.
Qed.

(** Writing the changes leaves the checkpoints in memory as those of the database. *)
Lemma write_field_changed (a b : Checkpoint) set (get : BeaconDB -> option Checkpoint) d :
  (forall v d, get (set v d) = v) -> get d = Some b -> get (write_field (changed a b) set d) = Some a.
Proof. intros Hs Hg. unfold changed. case_decide as E; cbn; [by subst|by rewrite Hs]. Qed.

Lemma write_checkpoints_stored c d : stored_checkpoints d = Some (sc_stored c) ->
  exists st, stored_checkpoints (write_checkpoints (writes c) d) = Some st /\ ck_le (sc_now c) st /\ ck_le st (sc_now c).
Proof.
  unfold stored_checkpoints. destruct (bd_justified d) as [j|] eqn:Ej; [|done]. destruct (bd_finalized d) as [f|] eqn:Ef; [|done].
  destruct (bd_unrealized_justified d) as [uj|] eqn:Euj; [|done]. destruct (bd_unrealized_finalized d) as [uf|] eqn:Euf; [|done].
  destruct c as [n st]. intros [= <-]. unfold write_checkpoints, writes. cbn -[changed decide write_field].
  set (prev := if decide _ then None else _). destruct n as [nj np nf nuj nuf]. cbn -[changed decide write_field].
  unfold write_field, changed.
  destruct (decide (nj = j)) as [<-|], (decide (nf = f)) as [<-|], (decide (nuj = uj)) as [<-|], (decide (nuf = uf)) as [<-|], prev;
    cbn; rewrite ?Ej, ?Ef, ?Euj, ?Euf; (eexists; split; [done|]); unfold ck_le; cbn; lia.
Qed.

(** The checkpoints of the database are not behind [st]. *)
Definition at_least (st : StoredCheckpoints) d : Prop := exists st', stored_checkpoints d = Some st' /\ ck_le st st'.

Lemma at_least_fields st d d' : stored_checkpoints d' = stored_checkpoints d -> at_least st d -> at_least st d'.
Proof. intros E (st' & Hst & Hle). exists st'. by rewrite E. Qed.

Lemma record_finalized_checkpoints c d d' : record_finalized_opt c d = Ok d' -> stored_checkpoints d' = stored_checkpoints d.
Proof. destruct c; cbn; [|by intros [= <-]]. by intros (canonical & _ & [= <-])%bind_Ok. Qed.

Lemma write_at_least st c d : at_least st d -> stored_checkpoints d = Some (sc_stored c) -> ck_le (sc_stored c) (sc_now c) ->
  at_least st (write_checkpoints (writes c) d).
Proof.
  intros (st0 & E0 & Hle) E Hc. assert (st0 = sc_stored c) as -> by congruence.
  destruct (write_checkpoints_stored c d E) as (st' & E' & H1 & _). exists st'. split; [done|]. etrans; [done|]. by etrans.
Qed.

Lemma publish_at_least st w : preserves (on_database (at_least st)) (publish_checkpoint_writes w).
Proof. apply publish_database. intros e d. by apply at_least_fields. Qed.

Lemma on_db_then Q {A C} (m : M BeaconDB anyhow A) (k : A -> SM C) s :
  Q (m (st_db s)).1 -> (forall a, preserves (on_database Q) (k a)) -> on_database Q ((on_db m ≫= k) s).1.
Proof.
  intros Hm Hk. unfold mbind, SM_bind, M_bind, on_db.
  destruct (m (st_db s)) as [d []] eqn:E; cbn; try exact Hm. apply Hk. exact Hm.
Qed.

Lemma transaction_at_least st f d : (forall d', f d = Ok d' -> at_least st d') -> at_least st d -> at_least st (transaction f d).1.
Proof. intros Hf Hd. unfold transaction. destruct (f d) eqn:E; cbn; [by apply Hf|done..]. Qed.

Lemma pull_up_at_least st : preserves (on_database (at_least st)) pull_up_epoch.
Proof.
  intros s Hs. unfold pull_up_epoch. rewrite bindS_reads. destruct (read_checkpoints (st_db s)) as [c| | |] eqn:Ec; [|done..].
  apply read_checkpoints_stored in Ec as [E1 E2]. cbv zeta. set (c' := realize _ _ _ c).
  destruct (realize_le (ck_unrealized_justified (sc_now c)) (ck_unrealized_finalized (sc_now c)) (ck_justified (sc_now c)) c) as [Hle Hst].
  fold c' in Hle, Hst. apply on_db_then; [|intros _; apply publish_at_least]. unfold commit_checkpoints. destruct (writes_is_empty _); [done|].
  apply transaction_at_least; [|done]. intros d' Hd. eapply at_least_fields; [by eapply record_finalized_checkpoints|].
  apply write_at_least; [done|congruence|]. rewrite Hst, <- E2. exact Hle.
Qed.

Lemma import_rows_checkpoints root block record d : exists d0,
  import_rows root block record d = write_checkpoints (fr_checkpoints record) d0 /\ stored_checkpoints d0 = stored_checkpoints d.
Proof. unfold import_rows. cbv zeta. eexists. split; [reflexivity|]. unfold write_field. by destruct (fr_proposer_boost_root record). Qed.

Lemma commit_import_at_least st c data d : at_least st d -> stored_checkpoints d = Some (sc_stored c) ->
  ck_le (sc_stored c) (sc_now c) -> fr_checkpoints (bi_record data) = writes c -> at_least st (commit_block_import data d).1.
Proof.
  intros Hd E Hc Hw. unfold commit_block_import. rewrite bindM_reads. destruct (accept_writes d); [|done..].
  set (m := commit_block_import_transaction _ _ _). assert (at_least st (m d).1) as Hm.
  { apply transaction_at_least; [|done]. intros d' Hd'. eapply at_least_fields; [by eapply record_finalized_checkpoints|].
    destruct (import_rows_checkpoints (bi_block_root data) (bi_block data) (bi_record data) d) as (d0 & -> & E0).
    rewrite Hw. apply write_at_least; [by eapply at_least_fields|congruence|done]. }
  unfold mbind, M_bind. by destruct (m d) as [d' []].
Qed.

Lemma process_available_at_least st now pending root : preserves (on_database (at_least st)) (process_available_block now pending root).
Proof.
  intros s Hs. unfold process_available_block. cbv zeta. rewrite bindS_reads. case_match; [|done..].
  rewrite bindS_reads. case_match; [|done..]. rewrite bindS_lift. case_match; [|done..].
  rewrite bindS_reads. case_match; [|done..]. rewrite bindS_reads. destruct (read_checkpoints (st_db s)) as [c| | |] eqn:Ec; [|done..].
  apply read_checkpoints_stored in Ec as [E1 E2]. set (c' := import_checkpoints _ _ _ _).
  match goal with c' := import_checkpoints _ ?st ?up ?e |- _ => destruct (import_checkpoints_le c st up e) as [Hle Hst] end. fold c' in Hle, Hst.
  apply on_db_then.
  - apply commit_import_at_least with c'; [done|congruence|by rewrite Hst, <- E2|done].
  - intros _. apply preserves_bind; [apply preserves_lift|intros _]. apply preserves_bind; [apply publish_at_least|intros _].
    apply preserves_bind; [apply insert_database|intros _]. apply refresh_database.
Qed.

Lemma tick_at_least st now time : preserves (on_database (at_least st)) (on_tick_per_slot now time).
Proof.
  unfold on_tick_per_slot. apply preserves_bind; [apply preserves_reads|intros previous].
  apply preserves_bind; [by apply modify_db_database|intros _]. apply preserves_bind; [apply preserves_reads|intros current].
  apply preserves_bind; [|intros _; apply preserves_bind; [|intros _; apply refresh_database]].
  - destruct (_ <? _); [|apply preserves_ret].
    repeat (apply preserves_bind; [|intros ?]); first [apply preserves_reads|by apply modify_db_database|by apply modify_database].
  - destruct (_ && _); [|apply preserves_ret]. apply preserves_bind; [apply preserves_reads|intros _; apply pull_up_at_least].
Qed.

(** ** Any operation of the store *)

Inductive store_op : Type :=
  | OpTick (now time : Z)
  | OpBlock (now : Z) (column_slot : B256 -> Z -> option Z) (block : SignedBeaconBlock) (root : B256)
      (engine : option PayloadEngine) (verify_data_availability : bool)
  | OpAvailable (now : Z) (pending : PendingBlock (State := BeaconState)) (root : B256)
  | OpAttestation (now : Z) (attestation : Attestation) (is_from_block : bool)
  | OpBlockAttestations (now : Z) (root : B256) (l : list Attestation)
  | OpSlashing (slashing : AttesterSlashing).

(** The store after the operation, whether it succeeded or not. *)
Definition after_store_op (o : store_op) s : Store :=
  match o with
  | OpTick now time => (on_tick now time s).1
  | OpBlock now column_slot block root engine verify => (on_block_with_root now column_slot block root engine verify s).1
  | OpAvailable now pending root => (process_available_block now pending root s).1
  | OpAttestation now a b => (on_attestation now a b s).1
  | OpBlockAttestations now root l => (on_block_attestations now root l s).1
  | OpSlashing slashing => (on_attester_slashing slashing s).1
  end.
Definition after_store_ops (ops : list store_op) s : Store := foldl (fun s o => after_store_op o s) s ops.

Lemma tick_loop_at_least st fuel now genesis slot : preserves (on_database (at_least st)) (BeaconHandlers.tick_loop fuel now genesis slot).
Proof.
  induction fuel as [|fuel IH]; intros s Hs; cbn [BeaconHandlers.tick_loop]; destruct (get_current_slot s); try done; destruct (_ <? _); try done.
  refine (preserves_bind (on_database (at_least st)) _ _ _ _ s Hs); [apply tick_at_least|intros _; exact IH].
Qed.

Lemma votes_at_least st now l : preserves (on_database (at_least st)) (update_latest_messages_batch now l).
Proof.
  intros s Hs. unfold update_latest_messages_batch. destruct (foldl _ _ _) as [x updates]. destruct (bool_decide _); [done|].
  destruct (insert_batch _ _ _) as [[m n]| | |]; try done. by apply on_tree_database.
Qed.

Lemma after_store_op_at_least st o s : at_least st (st_db s) -> at_least st (st_db (after_store_op o s)).
Proof.
  change (on_database (at_least st) s -> on_database (at_least st) (after_store_op o s)). revert s.
  destruct o; cbn [after_store_op].
  - apply preserves_bind; [apply preserves_reads|intros g]. destruct (_ <? _); [apply preserves_ret|].
    apply preserves_bind; [apply preserves_reads|intros c]. apply preserves_bind; [apply tick_loop_at_least|intros _; apply tick_at_least].
  - unfold on_block_with_root. cbv zeta.
    repeat (apply preserves_bind; [first [apply preserves_reads|idtac]|intros ?]).
    + case_match; [apply cache_balances_database|]. case_match; [apply cache_balances_database|apply preserves_ret].
    + case_match; [|apply preserves_ret]. case_match; [apply preserves_ret|by apply modify_db_database].
    + assert (forall p, preserves (on_database (at_least st)) (process_available_block now p root;; mret Imported)) as Hp.
      { intros p. apply preserves_bind; [apply process_available_at_least|intros _; apply preserves_ret]. }
      destruct (negb _); [apply Hp|]. apply preserves_bind; [by apply modify_database|intros _].
      apply preserves_bind; [|intros av; apply preserves_bind; [|intros [p|]; [apply Hp|apply preserves_ret]]].
      * intros s Hs. unfold take_available. by destruct (take_if_complete _ _).
      * destruct av; [apply preserves_ret|]. intros s Hs. unfold backfill_data_availability_columns. by destruct (backfill_columns _ _ _ _).
  - apply process_available_at_least.
  - apply preserves_bind; [apply preserves_reads|intros _]. apply preserves_bind; [apply preserves_reads|intros i]. apply votes_at_least.
  - apply preserves_bind; [apply preserves_reads|intros st0]. apply preserves_bind; [apply preserves_reads|intros vr].
    apply try_or_preserves; [|intros e; apply preserves_ret]. apply preserves_bind; [apply votes_at_least|intros _; apply preserves_ret].
  - apply preserves_bind; [apply preserves_lift|intros _]. apply preserves_bind; [apply preserves_reads|intros _]. cbv zeta.
    apply preserves_bind; [by apply modify_db_database|intros _]. apply on_tree_database.
Qed.

Lemma after_store_ops_at_least st ops s : at_least st (st_db s) -> at_least st (st_db (after_store_ops ops s)).
Proof. revert s. induction ops as [|o ops IH]; intros s Hs; [done|]. apply IH. by apply after_store_op_at_least. Qed.

(** ** Ticking *)

Definition clock (time genesis : Z) d : Prop := bd_time d = Some time /\ bd_genesis_time d = Some genesis.

Lemma clock_fields d d' time genesis : bd_time d' = bd_time d -> bd_genesis_time d' = bd_genesis_time d ->
  clock time genesis d -> clock time genesis d'.
Proof. unfold clock. by intros -> ->. Qed.

Lemma pull_up_clock time genesis : preserves (on_database (clock time genesis)) pull_up_epoch.
Proof.
  apply preserves_bind; [apply preserves_reads|intros c]. cbv zeta. set (w := writes _).
  intros s Hs. apply on_db_then; [|intros _; by apply publish_database]. unfold commit_checkpoints. destruct (writes_is_empty w); [done|].
  unfold transaction. destruct (record_finalized_opt _ _) as [d'| | |] eqn:E; [|done..]. cbn [fst].
  assert (clock time genesis (write_checkpoints w (st_db s))) as Hw by (destruct w as [[] [] [] [] []]; done). clear Hs. revert E.
  destruct (cw_finalized w); cbn [record_finalized_opt]; [|by intros [= <-]]. by intros (canonical & _ & [= <-])%bind_Ok.
Qed.

Lemma tick_clock now time s s' genesis : bd_genesis_time (st_db s) = Some genesis ->
  on_tick_per_slot now time s = (s', Ok tt) -> clock time genesis (st_db s').
Proof.
  intros Hg E. unfold on_tick_per_slot in E. rewrite bindS_reads in E. destruct (get_current_slot s) as [previous| | |]; [|done..].
  rewrite bindS_modify_db in E. set (s1 := st_set_db _ s) in E. assert (on_database (clock time genesis) s1) as H1 by done.
  revert E. generalize s1, H1. clear s1 H1. intros s1 H1 E. refine (run_preserves (on_database (clock time genesis)) _ _ _ _ _ H1 E).
  apply preserves_bind; [apply preserves_reads|intros current].
  apply preserves_bind; [|intros _; apply preserves_bind; [|intros _; apply refresh_database]].
  - destruct (_ <? _); [|apply preserves_ret].
    repeat (apply preserves_bind; [|intros ?]); first [apply preserves_reads|by apply modify_db_database|by apply modify_database].
  - destruct (_ && _); [|apply preserves_ret]. apply preserves_bind; [apply preserves_reads|intros _; apply pull_up_clock].
Qed.

Lemma in_time_le genesis k n duration : in_time genesis n duration -> 0 <= k <= n -> in_time genesis k duration.
Proof.
  intros (H0 & H1 & H2 & H3 & H4) Hk. unfold in_time, MILLISECONDS_PER_SECOND in *. repeat split; try lia; [nia|].
  destruct (div_ceil_bounds (duration * k) 1000) as [_ B2]; [nia|lia|]. destruct (div_ceil_bounds (duration * n) 1000) as [B1 _]; [nia|lia|].
  assert (1000 * div_ceil (duration * k) 1000 < 1000 * (div_ceil (duration * n) 1000 + 1)) by nia. lia.
Qed.

Lemma clock_slot k genesis s : in_time genesis k slot_duration_ms -> clock (get_time_at_slot genesis k) genesis (st_db s) ->
  get_current_slot s = Ok k.
Proof.
  intros Hk [E1 E2]. unfold get_current_slot, get_slots_since_genesis, field. rewrite E1, E2. cbn.
  unfold get_slots_since_genesis_at, get_time_at_slot. rewrite slot_roundtrip by done. f_equal.
  destruct Hk as (H0 & H1 & H2 & H3 & H4). unfold MILLISECONDS_PER_SECOND in *. unfold GENESIS_SLOT. rewrite u64_add_id; [lia|]. apply is_u64_max; nia.
Qed.

(** The slots from the one after [current] up to [tick_slot], each ticked in turn. *)
Definition tick_slots (now genesis : Z) (slots : list Z) : SM unit :=
  forM slots (fun k => on_tick_per_slot now (get_time_at_slot genesis k)).

Lemma tick_loop_slots now genesis tick_slot fuel : in_time genesis tick_slot slot_duration_ms ->
  forall s current, bd_genesis_time (st_db s) = Some genesis -> get_current_slot s = Ok current -> 0 <= current ->
  (Z.to_nat (tick_slot - current) <= fuel)%nat ->
  BeaconHandlers.tick_loop fuel now genesis tick_slot s = tick_slots now genesis (seqZ (current + 1) (tick_slot - current)) s.
Proof.
  intros Ht. induction fuel as [|fuel IH]; intros s current Hg Hc H0 Hf; cbn [BeaconHandlers.tick_loop]; rewrite Hc.
  - rewrite (proj2 (Z.ltb_ge _ _)) by lia. by rewrite seqZ_nil by lia.
  - destruct (Z.ltb_spec current tick_slot) as [Hlt|Hge]; [|by rewrite seqZ_nil by lia].
    rewrite seqZ_cons by lia. unfold tick_slots. cbn [forM]. replace ((current + 1)%u64) with (current + 1).
    2: { destruct Ht as (? & ? & ? & ? & ?). unfold MILLISECONDS_PER_SECOND in *. symmetry. apply u64_add_id, is_u64_max.
         assert (1000 * tick_slot <= slot_duration_ms * tick_slot) by nia. lia. }
    unfold mbind, SM_bind, M_bind. destruct (on_tick_per_slot now _ s) as [s1 [[]| | |]] eqn:E; try done.
    pose proof (tick_clock _ _ _ _ _ Hg E) as Hk. assert (in_time genesis (current + 1) slot_duration_ms) as Hi by (eapply in_time_le; [exact Ht|lia]).
    rewrite (IH s1 (current + 1)); [|apply Hk|by apply (clock_slot _ genesis)|lia|lia].
    unfold tick_slots. do 2 f_equal. replace (Z.succ (current + 1)) with (current + 1 + 1) by lia. f_equal. lia.
Qed.

Lemma on_tick_slots now time s genesis current : bd_genesis_time (st_db s) = Some genesis -> get_current_slot s = Ok current -> 0 <= current ->
  in_time genesis (get_slots_since_genesis_at time genesis) slot_duration_ms -> genesis <= time ->
  on_tick now time s =
    (tick_slots now genesis (seqZ (current + 1) (get_slots_since_genesis_at time genesis - current));; on_tick_per_slot now time) s.
Proof.
  intros Hg Hc H0 Ht Hle. unfold on_tick. rewrite bindS_reads.
  assert (field (bd_genesis_time (st_db s)) = Ok genesis) as -> by (unfold field; by rewrite Hg). rewrite (proj2 (Z.ltb_ge _ _)) by done. cbv zeta.
  rewrite bindS_reads, Hc. unfold mbind, SM_bind, M_bind. by rewrite (tick_loop_slots _ _ _ _ Ht s current).
Qed.

(** ** The finalized chain by slot *)

(** [a] is [x] or one of its stored ancestors. *)
Inductive descends d : B256 -> B256 -> Prop :=
  | desc_here x b : block_at d x = Some b -> descends d x x
  | desc_up x b a : block_at d x = Some b -> b_slot b <> 0 -> descends d (b_parent_root b) a -> descends d x a.

Lemma descends_trans d x y z : descends d x y -> descends d y z -> descends d x z.
Proof. induction 1; [done|]. intros. eapply desc_up; eauto. Qed.

(** Slots fall along the ancestry of [x], and are not negative. *)
Definition falling d x : Prop := forall y b, descends d x y -> block_at d y = Some b -> 0 <= b_slot b /\
  forall p, block_at d (b_parent_root b) = Some p -> b_slot p < b_slot b.

Lemma falling_up d x b : falling d x -> block_at d x = Some b -> b_slot b <> 0 -> falling d (b_parent_root b).
Proof. intros Hf Hb Hs y b' Hy. apply Hf. by eapply desc_up. Qed.

Lemma descends_slot d x b y b' : falling d x -> descends d x y -> block_at d x = Some b -> block_at d y = Some b' -> b_slot b' <= b_slot b.
Proof.
  intros Hf Hy. revert b Hf. induction Hy as [x c Hc|x c a Hc Hs Ha IH]; intros b Hf Hb Hb'; [naive_solver lia|].
  assert (c = b) as -> by congruence. destruct (Hf x b (desc_here _ _ _ Hb) Hb) as [H0 Hp].
  assert (exists p, block_at d (b_parent_root b) = Some p) as [p Hpb] by (inversion Ha; eauto).
  specialize (IH p (falling_up _ _ _ Hf Hb Hs) Hpb Hb'). specialize (Hp p Hpb). lia.
Qed.

(** Every stored ancestor of [x] is the entry for its slot. *)
Definition recorded d (canonical : Table Z B256) x : Prop :=
  forall a b, descends d x a -> block_at d a = Some b -> rd_get canonical (b_slot b) = Some a.

Lemma record_loop_spec d fuel : forall x canonical, (slot_fuel (bd_block d) x <= fuel)%nat -> falling d x ->
  (forall a b, descends d x a -> block_at d a = Some b -> rd_get canonical (b_slot b) = Some a -> recorded d canonical a) ->
  exists canonical', record_finalized_loop fuel (bd_block d) canonical x = Ok canonical' /\ recorded d canonical' x /\
    forall k, (forall a b, descends d x a -> block_at d a = Some b -> b_slot b <> k) -> rd_get canonical' k = rd_get canonical k.
Proof.
  induction fuel as [|fuel IH]; intros x canonical Hfuel Hfall Htrust; unfold slot_fuel in Hfuel; cbn [record_finalized_loop];
    destruct (rd_get (bd_block d) x) as [sb|] eqn:Ex; try lia.
  1, 3: exists canonical; split_and!; [done| |done]; intros a b Ha; assert (block_at d x = None) as E by (unfold block_at; by rewrite Ex);
    inversion Ha; congruence.
  assert (block_at d x = Some (sb_message sb)) as Hb by (unfold block_at; by rewrite Ex). set (b := sb_message sb) in *. cbv zeta.
  destruct (Hfall x b (desc_here _ _ _ Hb) Hb) as [H0 Hpar].
  case_bool_decide as Ec.
  { exists canonical. split_and!; [done| |done]. by apply (Htrust x b (desc_here _ _ _ Hb)). }
  set (canonical1 := rd_insert (b_slot b) x canonical).
  assert (forall k, rd_get canonical1 k = if decide (k = b_slot b) then Some x else rd_get canonical k) as Hins.
  { intros k. unfold canonical1. rewrite !rd_get_view, rd_view_insert. destruct (decide (k = b_slot b)) as [->|]; [by rewrite lookup_insert_eq|by rewrite lookup_insert_ne]. }
  destruct (Z.eqb_spec (b_slot b) 0) as [Hz|Hnz].
  { exists canonical1. split_and!; [done| |].
    - intros a c Ha Hc. inversion Ha; simplify_eq. rewrite Hins. by rewrite decide_True.
    - intros k Hk. rewrite Hins, decide_False; [done|]. intros ->. by apply (Hk x b (desc_here _ _ _ Hb)). }
  set (p := b_parent_root b) in *. assert (slot_fuel (bd_block d) p <= fuel)%nat as Hfuel'.
  { unfold slot_fuel. destruct (rd_get (bd_block d) p) as [pb|] eqn:Ep; [|lia]. assert (block_at d p = Some (sb_message pb)) as Hp by (unfold block_at; by rewrite Ep).
    specialize (Hpar _ Hp). lia. }
  assert (forall a c, descends d p a -> block_at d a = Some c -> b_slot c < b_slot b) as Hbelow.
  { intros a c Ha Hc. assert (exists q, block_at d p = Some q) as [q Hq] by (inversion Ha; eauto).
    pose proof (descends_slot d p q a c (falling_up _ _ _ Hfall Hb Hnz) Ha Hq Hc). specialize (Hpar q Hq). lia. }
  destruct (IH p canonical1 Hfuel' (falling_up _ _ _ Hfall Hb Hnz)) as (canonical' & Er & Hrec & Hrest).
  { intros a c Ha Hc Hin a' c' Ha' Hc'. specialize (Hbelow a c Ha Hc) as Hl. rewrite Hins, decide_False in Hin by lia. rewrite Hins, decide_False.
    - apply (Htrust a c (desc_up _ _ _ _ Hb Hnz Ha) Hc Hin a' c' Ha' Hc').
    - enough (b_slot c' <= b_slot c) by lia. eapply descends_slot; [|exact Ha'|done|done].
      intros y e Hy He. apply (Hfall y e); [|done]. eapply desc_up; [done..|]. by eapply descends_trans. }
  exists canonical'. split_and!.
  - destruct (rd_get (bd_block d) p) as [pb|] eqn:Ep; [|done]. rewrite (proj2 (Z.leb_gt _ _)); [done|].
    apply Hpar. unfold block_at. by rewrite Ep.
  - intros a c Ha Hc. inversion Ha; simplify_eq; [|by apply Hrec]. rewrite Hrest, Hins, decide_True; [done..|].
    intros a' c' Ha' Hc'. specialize (Hbelow a' c' Ha' Hc'). lia.
  - intros k Hk. rewrite Hrest, Hins, decide_False; [done| |].
    + intros ->. by apply (Hk x b (desc_here _ _ _ Hb)).
    + intros a c Ha Hc. apply (Hk a c); [by eapply desc_up|done].
Qed.
End facts.
