(* ===== verification/BeaconBuild.v ===== *)
(** * Building the tree from the database

    [build_fork_choice_tree]: what it makes of a well-formed database is in step with it,
    which is how the tree starts and how it recovers. *)

From stdpp Require Import strings.
From S2P Require Import Prelude StateMonad Redb Bytes Shuffling Merkle BeaconTypes BeaconAccess BeaconMutate BeaconEpoch BeaconBlockOps BeaconTransition BeaconFacts LatestMessages BeaconDb ForkTree ForkTreeFacts ForkTreeWeights ForkTreeInvariant ForkTreeBlocks ForkTreeSpec DataAvailability OperationPool SyncCommitteePool BeaconStore BeaconHandlers BeaconWalks BeaconSync BeaconSteps.

Section build.
Context {RD : Redb} {RDL : RedbLaws RD} {RM : RedbMulti} {RML : RedbMultiLaws RM}.
Context {H : Sha256} {F : CandidateFuel} {HO : HashOrder} {HOL : HashOrderLaws HO} {SV : SszVec}.
Context {R : Roots} {B : Bls} {N : BeaconNetworkSpec}.
Context {BA : BlsAggregate} {TH : TreeHash SignedBLSToExecutionChange} {FS : ForkChoiceSpec}.
Implicit Types (d : BeaconDB) (s : Store) (t : ForkChoiceTree).

(** ** Well-formed databases *)

(** Blocks come after their parents, the index lists the children, every block has its
    post-state and what it was pulled up to, and a block of a new epoch carries the justified
    checkpoint the last block of the previous epoch was pulled up to. *)
Record chain_ok d : Prop := mkChainOk {
  co_ordered : forall x b p, block_at d x = Some b -> block_at d (b_parent_root b) = Some p -> b_slot p < b_slot b;
  co_index : forall p c, c ∈ mm_get (bd_parent_index d) p <-> exists b, block_at d c = Some b /\ b_parent_root b = p;
  co_rows : forall x b, block_at d x = Some b ->
    is_Some (rd_get (bd_unrealized_justifications d) x) /\ is_Some (rd_get (bd_state d) x);
  co_pulled : forall x b y yb u state, block_at d x = Some b ->
    db_anc d (compute_start_slot_at_epoch (compute_epoch_at_slot (b_slot b)) - 1) (b_parent_root b) y ->
    block_at d y = Some yb -> (compute_epoch_at_slot (b_slot yb) + 1)%u64 = compute_epoch_at_slot (b_slot b) ->
    rd_get (bd_unrealized_justifications d) y = Some u -> rd_get (bd_state d) x = Some state ->
    current_justified_checkpoint state = u;
}.

(** ** The block of a row *)

(** The blocks read so far are those of the database. *)
Definition matches d (inserted : gmap B256 ForkChoiceBlock) : Prop := forall x fb, inserted !! x = Some fb ->
  exists b, block_at d x = Some b /\ fb_slot fb = b_slot b /\ fb_parent_root fb = b_parent_root b /\
    rd_get (bd_unrealized_justifications d) x = Some (fb_unrealized_justified_checkpoint fb).

Lemma realized_loop_spec d inserted start x fb : chain_ok d -> matches d inserted -> inserted !! x = Some fb ->
  forall fuel, (size (filter (fun xb : B256 * ForkChoiceBlock => (fb_slot xb.2 < fb_slot fb)%Z) inserted) <= fuel)%nat ->
  exists r, realized_loop fuel inserted start fb = Ok r /\
    forall found, r = Some found -> exists y, inserted !! y = Some found /\ db_anc d (start - 1) x y.
Proof.
  intros C Hm Hx fuel. revert x fb Hx. induction fuel as [|fuel IH]; intros x fb Hx Hf;
    destruct (Hm x fb Hx) as (b & Hb & Es & Ep & _); cbn; rewrite Es.
  all: destruct (start <=? b_slot b) eqn:Hs; b2p;
    [|eexists; split; [done|]; intros found [= <-]; exists x; split; [done|]; eapply anc_here; [done|lia]].
  all: destruct (inserted !! fb_parent_root fb) as [parent|] eqn:Hp; [|eexists; split; [done|]; done].
  all: destruct (Hm _ _ Hp) as (bp & Hbp & Esp & _); rewrite Ep in Hbp;
    pose proof (co_ordered _ C x b bp Hb Hbp) as Hlt.
  all: assert (size (filter (fun xb : B256 * ForkChoiceBlock => (fb_slot xb.2 < fb_slot parent)%Z) inserted) <
               size (filter (fun xb : B256 * ForkChoiceBlock => (fb_slot xb.2 < fb_slot fb)%Z) inserted))%nat as Hsz
    by (apply (size_filter_lt _ _ _ (fb_parent_root fb) parent); [|done| |]; cbn; [intros [k v]; cbn| |]; lia).
  - lia.
  - destruct (IH _ parent Hp) as (r & Er & Hr); [lia|]. exists r. split; [done|]. intros found Hfound.
    destruct (Hr found Hfound) as (y & Hy & Ha). exists y. split; [done|]. eapply anc_up; [done|lia|]. by rewrite <-Ep.
Qed.

Lemma block_from_db_spec s x b cur inserted u state : chain_ok (st_db s) -> matches (st_db s) inserted ->
  block_at (st_db s) x = Some b -> rd_get (bd_unrealized_justifications (st_db s)) x = Some u ->
  rd_get (bd_state (st_db s)) x = Some state ->
  exists justified, fork_choice_block_from_db s x cur inserted = Ok (mkForkChoiceBlock x (b_parent_root b) (b_slot b) justified u) /\
    (cur <= compute_epoch_at_slot (b_slot b) -> current_justified_checkpoint state = justified).
Proof.
  intros C Hm Hb Hu Hst. pose proof Hb as (sb & Hsb & <-)%block_at_get. unfold fork_choice_block_from_db. rewrite Hsb, Hu, Hst. run_ok.
  set (epoch := compute_epoch_at_slot _). destruct (cur <=? epoch) eqn:Hc; b2p.
  2: { run_ok. eexists. split; [done|]. lia. }
  assert (exists r, realized_from_previous_epoch inserted (b_parent_root (sb_message sb)) epoch = Ok r /\
    forall c, r = Some c -> current_justified_checkpoint state = c) as (r & Er & Hr).
  { unfold realized_from_previous_epoch. destruct (inserted !! _) as [parent|] eqn:Hp; [|by eexists].
    destruct (realized_loop_spec (st_db s) inserted (compute_start_slot_at_epoch epoch) _ _ C Hm Hp (size inserted)) as (r & -> & Hr).
    { apply map_subseteq_size, map_filter_subseteq. }
    run_ok. eexists. split; [done|]. intros c. destruct r as [found|]; [|done]. destruct (_ =? _) eqn:Ee; [|done]. intros [= <-].
    destruct (Hr found eq_refl) as (y & Hy & Ha). destruct (Hm y found Hy) as (yb & Hyb & Es & _ & Huy). b2p.
    eapply (co_pulled _ C x _ y yb); [done|done|done|by rewrite <-Es|done|done]. }
  rewrite Er. run_ok. destruct r as [c|]; cbn; (eexists; split; [done|]); [|done]. intros _. by apply Hr.
Qed.

(** ** The search through the children *)

Section loop.
Context s (C : chain_ok (st_db s)) (cur : Z).

(** The tree so far: the blocks in it are those of the database, and the children of a block
    are there unless the block is still to do. *)
Record building t (inserted : gmap B256 ForkChoiceBlock) (todo : list B256) : Prop := mkBuilding {
  bu_inv : tree_inv t;
  bu_epoch : vc_current_epoch (ft_context t) = cur;
  bu_plain : ft_votes t = ∅ /\ ft_equivocating t = ∅ /\ ft_boost t = None /\ ft_balances_checkpoint t = None;
  bu_mirrors : mirrors t (st_db s);
  bu_dom : forall x, is_Some (inserted !! x) <-> is_Some (ft_nodes t !! x);
  bu_matches : matches (st_db s) inserted;
  bu_unrealized : forall x n, ft_nodes t !! x = Some n ->
    rd_get (bd_unrealized_justifications (st_db s)) x = Some (fn_unrealized_justified_checkpoint n);
  bu_realized : forall x n, ft_nodes t !! x = Some n -> cur <= compute_epoch_at_slot (fn_slot n) ->
    current_justified_checkpoint <$> rd_get (bd_state (st_db s)) x = Some (fn_justified_checkpoint n);
  bu_closed : forall x n c b, ft_nodes t !! x = Some n -> x ∉ todo -> block_at (st_db s) c = Some b -> b_parent_root b = x ->
    c ∈ fn_children n;
}.

Definition childless t (queue : list B256) : Prop := forall x, x ∈ queue -> exists n, ft_nodes t !! x = Some n /\ fn_children n = [].

(** The blocks not in the tree. *)
Definition unplaced t : nat :=
  size (filter (fun xb : B256 * SignedBeaconBlock => ft_nodes t !! xb.1 = None) (rd_view (bd_block (st_db s)))).

(** A child that is not in the tree, of the block [p] whose children are being added. *)
Lemma child_new t inserted todo p n c b : building t inserted todo -> ft_nodes t !! p = Some n -> c ∉ fn_children n ->
  block_at (st_db s) c = Some b -> b_parent_root b = p -> ft_nodes t !! c = None.
Proof using C.
  intros Bu Hp Hc Hb Hpar. apply eq_None_not_Some. intros [m Hm]. pose proof (tr_forest _ _ (ti_tracks _ (bu_inv _ _ _ Bu))) as Fo.
  destruct (bu_mirrors _ _ _ Bu c m Hm) as (b' & Hb' & Es & Hpp). assert (b' = b) as -> by congruence.
  destruct (fn_parent m) as [q|] eqn:Hq.
  - rewrite (Hpp q eq_refl) in Hpar. subst q. destruct (fo_parent _ _ Fo c m p Hm Hq) as (n' & Hn' & Hin & _).
    assert (n' = n) as -> by congruence. done.
  - pose proof (fo_orphan _ _ Fo c m Hm Hq) as ->. destruct (bu_mirrors _ _ _ Bu p n Hp) as (bp & Hbp & Esp & _).
    pose proof (co_ordered _ C _ b bp Hb ltac:(by rewrite Hpar)) as Hlt. pose proof (forest_root_slot t p n Fo Hp) as Hle.
    unfold root_slot in Hle. rewrite Hm in Hle. cbn in Hle. lia.
Qed.

Lemma child_step t inserted queue p n c b : building t inserted (p :: queue) -> childless t queue -> p ∉ queue ->
  ft_nodes t !! p = Some n -> c ∉ fn_children n -> block_at (st_db s) c = Some b -> b_parent_root b = p ->
  exists t' inserted', enable_children s cur (inserted, t, queue) c = Ok (inserted', t', queue ++ [c]) /\
    building t' inserted' (p :: queue ++ [c]) /\ childless t' (queue ++ [c]) /\ (c ∉ p :: queue) /\
    ft_root t' = ft_root t /\ ft_context t' = ft_context t /\ root_slot t' = root_slot t /\
    (exists n', ft_nodes t' !! p = Some n' /\ forall k, k ∈ fn_children n' <-> k ∈ fn_children n \/ k = c) /\
    (unplaced t' < unplaced t)%nat.
Proof using C RDL RML HOL.
  intros Bu Hch Hpq Hp Hc Hb Hpar. pose proof (child_new _ _ _ _ _ _ _ Bu Hp Hc Hb Hpar) as Hnew.
  pose proof (tr_forest _ _ (ti_tracks _ (bu_inv _ _ _ Bu))) as Fo.
  destruct (co_rows _ C c b Hb) as [[u Hu] [state Hst]].
  destruct (block_from_db_spec s c b cur inserted u state C (bu_matches _ _ _ Bu) Hb Hu Hst) as (justified & Eb & Hj).
  destruct (bu_mirrors _ _ _ Bu p n Hp) as (bp & Hbp & Esp & _).
  pose proof (co_ordered _ C c b bp Hb ltac:(by rewrite Hpar)) as Hlt.
  set (fb := mkForkChoiceBlock c (b_parent_root b) (b_slot b) justified u) in *.
  destruct (tree_insert_inv t fb n (bu_inv _ _ _ Bu)) as (t' & Et & I' & Kp & Sim); [done|by cbn; rewrite Hpar|cbn; lia|..].
  { destruct (bu_plain _ _ _ Bu) as (_ & _ & -> & _). done. }
  exists t', (<[c := fb]> inserted). unfold enable_children. rewrite Eb. run_ok. rewrite Et. run_ok.
  pose proof (fun x n' => inserted_node t t' fb n x n' (bu_inv _ _ _ Bu) Hnew ltac:(by cbn; rewrite Hpar) ltac:(cbn; lia) Sim) as Hnode. cbn in Hnode.
  pose proof (fun x m => inserted_old t t' fb n x m (bu_inv _ _ _ Bu) Hnew ltac:(by cbn; rewrite Hpar) ltac:(cbn; lia) Sim) as Hold. cbn in Hold.
  pose proof (inserted_root_slot t t' fb n (bu_inv _ _ _ Bu) Hnew ltac:(by cbn; rewrite Hpar) ltac:(cbn; lia) Sim) as Hrs.
  rewrite Hpar in Hold. pose proof Kp as (Er & Ex & _ & Ebc & _ & Ev & Ee & Ebo). destruct (bu_plain _ _ _ Bu) as (P1 & P2 & P3 & P4).
  assert (exists m, ft_nodes t' !! c = Some m /\ fn_children m = []) as (m & Hm & Hmc).
  { symmetry in Sim. destruct (similar_lookup _ _ _ _ Sim (lookup_grown_new _ _ _ _ _)) as (m & Hm & (_ & _ & Ec & _)%static_eq). by exists m. }
  split_and!; [done| | | |done|done|by apply Hrs| |].
  - split; [done|rewrite Ex; apply Bu|by rewrite Ev, Ee, Ebo, Ebc|..].
    + intros x n' Hx. destruct (Hnode x n' Hx) as [(-> & -> & -> & _)|(_ & k & Hk & -> & -> & _)]; [|by apply Bu].
      exists b. split_and!; [done|done|]. by intros q [= <-].
    + intros x. rewrite lookup_insert_is_Some. split.
      * intros [<-|[_ Hx]]; [by eexists|]. apply (bu_dom _ _ _ Bu) in Hx as [k Hk]. destruct (Hold x k Hk) as (_ & k' & Hk' & _). by exists k'.
      * intros [n' Hx]. destruct (Hnode x n' Hx) as [(-> & _)|(Hne & k & Hk & _)]; [by left|]. right. split; [done|].
        apply (bu_dom _ _ _ Bu). by exists k.
    + intros x fb' [[<- <-]|[_ Hx]]%lookup_insert_Some; [|by apply Bu]. by exists b.
    + intros x n' Hx. destruct (Hnode x n' Hx) as [(-> & _ & _ & _ & _ & ->)|(_ & k & Hk & _ & _ & _ & _ & ->)]; [done|by apply Bu].
    + intros x n' Hx. destruct (Hnode x n' Hx) as [(-> & _ & -> & _ & -> & _)|(_ & k & Hk & _ & -> & _ & -> & _)]; [|by apply Bu].
      intros Hle. rewrite Hst. cbn. by rewrite (Hj Hle).
    + intros x n' k kb Hx Htodo Hk Hkp. destruct (Hnode x n' Hx) as [(-> & _)|(_ & n0 & Hn0 & _ & _ & Hch' & _)]; [set_solver|].
      apply Hch'. left. eapply (bu_closed _ _ _ Bu); [done|set_solver|done|done].
  - intros x [Hx| ->%list_elem_of_singleton]%elem_of_app; [|by exists m]. destruct (Hch x Hx) as (k & Hk & Hkc).
    destruct (Hold x k Hk) as (_ & k' & Hk' & _ & Hkids). exists k'. split; [done|]. apply elem_of_nil_inv. intros q Hq.
    apply Hkids in Hq as [Hq|[-> _]]; [|done]. rewrite Hkc in Hq. by apply not_elem_of_nil in Hq.
  - intros [->|Hin]%elem_of_cons; [congruence|]. destruct (Hch c Hin) as (k & Hk & _). congruence.
  - destruct (Hold p n Hp) as (_ & n' & Hn' & _ & Hkids). exists n'. split; [done|]. intros k. rewrite Hkids. naive_solver.
  - apply block_at_get in Hb as (sb & Hsb & _). rewrite rd_get_view in Hsb. apply (size_filter_lt _ _ _ c sb); [|done|done|by cbn; rewrite Hm].
    intros [x sb']. cbn. intros Hx. apply eq_None_not_Some. intros [k Hk]. destruct (Hold x k Hk) as (_ & k' & Hk' & _). congruence.
Qed.

Lemma children_step p cs : forall t inserted queue n, building t inserted (p :: queue) -> childless t queue ->
  NoDup (p :: queue) -> NoDup cs -> ft_nodes t !! p = Some n -> (forall c, c ∈ cs -> c ∉ fn_children n) ->
  (forall c, c ∈ cs -> exists b, block_at (st_db s) c = Some b /\ b_parent_root b = p) ->
  exists t' inserted', foldM (enable_children s cur) (inserted, t, queue) cs = Ok (inserted', t', queue ++ cs) /\
    building t' inserted' (p :: queue ++ cs) /\ childless t' (queue ++ cs) /\ NoDup (p :: queue ++ cs) /\
    ft_root t' = ft_root t /\ ft_context t' = ft_context t /\ root_slot t' = root_slot t /\
    (exists n', ft_nodes t' !! p = Some n' /\ forall k, k ∈ fn_children n' <-> k ∈ fn_children n \/ k ∈ cs) /\
    (unplaced t' + length cs <= unplaced t)%nat.
Proof using C RDL RML HOL.
  induction cs as [|c cs IH]; intros t inserted queue n Bu Hch Hnd Hcs Hp Hnew Hkids.
  - exists t, inserted. rewrite app_nil_r. split_and!; try done; [|cbn; lia]. exists n. split; [done|]. set_solver.
  - destruct (Hkids c) as (b & Hb & Hpar); [set_solver|]. apply NoDup_cons in Hcs as [Hc Hcs]. pose proof Hnd as [Hpq Hnq]%NoDup_cons.
    destruct (child_step t inserted queue p n c b Bu Hch Hpq Hp) as (t1 & i1 & E1 & Bu1 & Hch1 & Hcq & R1 & X1 & S1 & (n1 & Hn1 & Hk1) & U1);
      [apply Hnew; set_solver|done|done|].
    destruct (IH t1 i1 (queue ++ [c]) n1) as (t2 & i2 & E2 & Bu2 & Hch2 & Hnd2 & R2 & X2 & S2 & (n2 & Hn2 & Hk2) & U2); try done.
    + apply NoDup_cons. split; [set_solver|]. apply NoDup_app. split_and!; [done|set_solver|apply NoDup_singleton].
    + intros k Hk. rewrite Hk1. intros [Hin| ->]; [|done]. apply (Hnew k); [set_solver|done].
    + intros k Hk. apply Hkids. set_solver.
    + exists t2, i2. rewrite <-(assoc_L (++)) in *. cbn in E2, Bu2, Hch2, Hnd2. cbn [foldM]. rewrite E1. run_ok.
      split_and!; [done|done|done|done|congruence|congruence|congruence| |cbn; lia].
      exists n2. split; [done|]. intros k. rewrite Hk2, Hk1. set_solver.
Qed.

(** The search ends, and every block in the tree then has its children there. *)
Lemma enable_loop_spec fuel : forall t inserted queue, building t inserted queue -> childless t queue -> NoDup queue ->
  (unplaced t + length queue <= fuel)%nat ->
  exists t' inserted', enable_loop fuel s cur queue inserted t = Ok t' /\ building t' inserted' [] /\
    ft_root t' = ft_root t /\ ft_context t' = ft_context t /\ root_slot t' = root_slot t.
Proof using C RDL RML HOL.
  induction fuel as [|fuel IH]; intros t inserted [|p queue] Bu Hch Hnd Hf; cbn in Hf; try lia; cbn [enable_loop];
    try (exists t, inserted; done).
  destruct (Hch p) as (n & Hp & Hpc); [set_solver|].
  destruct (children_step p (mm_get (bd_parent_index (st_db s)) p) t inserted queue n Bu) as (t1 & i1 & E1 & Bu1 & Hch1 & Hnd1 & R1 & X1 & S1 & (n1 & Hn1 & Hk1) & U1).
  - intros x Hx. apply Hch. set_solver.
  - done.
  - apply mm_get_nodup.
  - done.
  - intros c _. rewrite Hpc. apply not_elem_of_nil.
  - intros c Hc. by apply (co_index _ C).
  - rewrite E1. run_ok. cbn [fst snd].
    destruct (IH t1 i1 (queue ++ mm_get (bd_parent_index (st_db s)) p)) as (t2 & i2 & E2 & Bu2 & R2 & X2 & S2); [|done|by apply NoDup_cons in Hnd1 as [_ ?]|..].
    + destruct Bu1 as [B1 B2 B3 B4 B5 B6 B7 B8 B9]. split; try done. intros x nx c b Hx Hq Hb Hpar.
      destruct (decide (x = p)) as [->|Hne]; [|eapply B9; try done; set_solver].
      assert (nx = n1) as -> by congruence. apply Hk1. right. apply (co_index _ C). eauto.
    + rewrite length_app. lia.
    + exists t2, i2. split_and!; [done|done|congruence..].
Qed.
End loop.

(** ** The tree *)

(** What the tree is built from: the finalized block and a chain without gaps above it, votes
    for known blocks, and the balances of the justified checkpoint. *)
Record buildable s (fin j : Checkpoint) (e : Z) (b : ForkChoiceBalances) (rb : BeaconBlock) : Prop := mkBuildable {
  bl_chain : chain_ok (st_db s);
  bl_linked : linked (st_db s) (b_slot rb);
  bl_root : block_at (st_db s) (cp_root fin) = Some rb;
  bl_root_slot : b_slot rb <= compute_start_slot_at_epoch (cp_epoch fin);
  bl_finalized : bd_finalized (st_db s) = Some fin;
  bl_justified : bd_justified (st_db s) = Some j;
  bl_epoch : get_current_store_epoch s = Ok e;
  bl_state : exists state, checkpoint_state (st_db s) j = Ok (Some state) /\ from_checkpoint_state state = Ok b;
  bl_supply : supply_ok (fcb_balances b) (fcb_proposer_score b);
  bl_cached : forall cb, cb ∈ st_fork_choice_balances s -> cb.1 = j -> cb.2 = b;
  bl_boost : exists r, bd_proposer_boost_root (st_db s) = Some r /\ (r = B256_ZERO \/ is_Some (block_at (st_db s) r));
  bl_equivocating : is_Some (bd_equivocating (st_db s));
  bl_messages : forall i m, lm_view (bd_messages (st_db s)) !! i = Some m -> 0 <= i /\ is_Some (block_at (st_db s) (lm_root m));
}.

Definition no_messages : LatestMessagesTable := mkLatestMessagesTable rd_empty None true.

(** The store without votes. *)
Definition unvoted s : Store := st_set_db (bd_set_equivocating (Some ∅) (bd_set_messages no_messages (st_db s))) s.

Lemma no_messages_view : lm_view no_messages = ∅.
Proof. unfold lm_view. cbn. rewrite rd_view_empty. apply (left_id_L ∅ (∪)). Qed.

#[local] Arguments lm_view : simpl never.

Section built.
Context s fin j e b rb (Bl : buildable s fin j e b rb).

Lemma anchor_step : exists anchor t, fork_choice_block_from_db s (cp_root fin) e ∅ = Ok anchor /\
  tree_new anchor (mkViabilityContext j fin e) = Ok t /\ fb_root anchor = cp_root fin /\
  building s e t {[ cp_root fin := anchor ]} [cp_root fin] /\ childless t [cp_root fin] /\
  ft_root t = cp_root fin /\ ft_context t = mkViabilityContext j fin e /\ root_slot t = b_slot rb.
Proof using Bl RDL RML HOL.
  destruct (co_rows _ (bl_chain _ _ _ _ _ _ Bl) _ rb (bl_root _ _ _ _ _ _ Bl)) as [[u Hu] [state Hst]].
  destruct (block_from_db_spec s (cp_root fin) rb e ∅ u state (bl_chain _ _ _ _ _ _ Bl)) as (justified & Ea & Hj); [|apply Bl|done|done|].
  { intros x fb Hx. by rewrite lookup_empty in Hx. }
  set (anchor := mkForkChoiceBlock _ _ _ _ _) in Ea.
  destruct (tree_new_inv anchor (mkViabilityContext j fin e)) as (t & Et & I & Er & Ec & Ev & Ee & Eb & Ebc & Sim).
  assert (forall x n, ft_nodes t !! x = Some n -> x = cp_root fin /\ fn_parent n = None /\ fn_slot n = b_slot rb /\ fn_children n = [] /\
    fn_justified_checkpoint n = justified /\ fn_unrealized_justified_checkpoint n = u) as Hnode.
  { intros x n Hx. destruct (similar_lookup _ _ _ _ Sim Hx) as (m & Hm & (E1 & E2 & E3 & E4 & E5)%static_eq).
    apply lookup_singleton_Some in Hm as [<- <-]. cbn in *. done. }
  destruct (fo_root _ _ (tr_forest _ _ (ti_tracks _ I))) as (n0 & Hn0 & _). rewrite Er in Hn0. cbn in Hn0.
  exists anchor, t. split_and!; [done|done|done| | |done|done|].
  - split; [done|by rewrite Ec|done|..].
    + intros x n Hx. destruct (Hnode x n Hx) as (-> & Hp & -> & _). exists rb. split_and!; [apply Bl|done|]. by rewrite Hp.
    + intros x. split.
      * intros [fb [<- _]%lookup_singleton_Some]. by exists n0.
      * intros [n Hx]. destruct (Hnode x n Hx) as (-> & _). rewrite lookup_singleton_eq. by eexists.
    + intros x fb [<- <-]%lookup_singleton_Some. exists rb. split_and!; [apply Bl|done|done|done].
    + intros x n Hx. by destruct (Hnode x n Hx) as (-> & _ & _ & _ & _ & ->).
    + intros x n Hx. destruct (Hnode x n Hx) as (-> & _ & -> & _ & -> & _). intros Hle. rewrite Hst. cbn. by rewrite (Hj Hle).
    + intros x n c cb Hx Hin. destruct (Hnode x n Hx) as (-> & _). by destruct Hin; apply list_elem_of_singleton.
  - intros x ->%list_elem_of_singleton. exists n0. split; [done|]. by apply (Hnode _ _ Hn0).
  - unfold root_slot. rewrite Er. cbn. rewrite Hn0. cbn. by apply (Hnode _ _ Hn0).
Qed.

(** After the search, and before the votes. *)
Lemma search_step : exists t, (anchor ← fork_choice_block_from_db s (cp_root fin) e ∅;
    tree ← tree_new anchor (mkViabilityContext j fin e);
    enable_loop (block_fuel (st_db s)) s e [cp_root fin] {[ fb_root anchor := anchor ]} tree) = Ok t /\
  aligned (st_db (unvoted s)) t /\ ready (unvoted s) t fin j e b.
Proof using Bl RDL RML HOL.
  destruct anchor_step as (anchor & t & Ea & Et & Er & Bu & Hch & Ero & Ec & Ers).
  destruct (enable_loop_spec s (bl_chain _ _ _ _ _ _ Bl) e (block_fuel (st_db s)) t _ _ Bu Hch) as (t' & i' & El & Bu' & Ero' & Ec' & Ers').
  { apply NoDup_singleton. }
  { cbn. pose proof (filtered_fuel (st_db s) (fun xb : B256 * SignedBeaconBlock => ft_nodes t !! xb.1 = None)). unfold unplaced. lia. }
  exists t'. rewrite Ea. run_ok. rewrite Et. run_ok. rewrite Er. split; [done|].
  destruct Bu' as [I' He (Pv & Pe & Pb & Pc) M' _ _ U' R' C']. split.
  - split; cbn; try done.
    + rewrite Ers', Ers. apply Bl.
    + apply Bl.
    + intros x n c cb Hx. apply C'; [done|apply not_elem_of_nil].
    + by rewrite He.
    + by rewrite Pe.
    + intros i _ _. by rewrite Pv, no_messages_view, !lookup_empty.
    + intros i m _ _. by rewrite no_messages_view, lookup_empty.
  - pose proof Bl as [_ _ _ Hs Hf Hj He' Hst Hsup Hcache Hboost _ _]. split; try done.
    + by rewrite He.
    + destruct (fo_root _ _ (tr_forest _ _ (ti_tracks _ I'))) as (n & Hn & _). exists n.
      unfold root_slot in Ers'. rewrite Hn in Ers'. cbn in Ers'. rewrite Ero', Ero in Hn. split; [done|]. rewrite Ers' . fold (root_slot t). lia.
    + by rewrite Pc.
Qed.

Lemma build_synced : exists t, build_fork_choice_tree s = Ok t /\ synced s t.
Proof using Bl RDL RML HOL.
  destruct search_step as (t & E & Al & Rdy). pose proof Bl as [_ _ _ _ Hf Hj He _ _ _ _ [eq Heq] Hm].
  destruct (reconcile_synced (unvoted s) t fin j e b Al Rdy) as (t2 & E2 & Sy2 & _).
  assert (reconcile_fork_choice_tree s t = Ok t2) as E2' by exact E2.
  destruct (mark_synced (unvoted s) t2 (hs_iter eq) Sy2) as (t3 & E3 & Ee3 & Sy3).
  pose proof (al_equivocating _ _ (sy_aligned _ _ Sy2)) as Ee2. cbn in Ee2. injection Ee2 as Ee2.
  destruct (process_votes_synced _ t3 (get_all (bd_messages (st_db s))) (bd_messages (st_db s)) Sy3) as (t4 & E4 & Sy4).
  - rewrite get_all_perm. apply NoDup_fst_map_to_list.
  - apply Forall_forall. intros [i m] Hi%get_all_elem. by apply (Hm i m).
  - cbn. rewrite no_messages_view, (right_id_L ∅ (∪)). rewrite <-(list_to_map_to_list (lm_view _)) at 1. symmetry.
    apply list_to_map_proper; [rewrite get_all_perm; apply NoDup_fst_map_to_list|apply get_all_perm].
  - intros i m _ _ Hi. by apply (Hm i m).
  - exists t4. split.
    + unfold build_fork_choice_tree. rewrite Hf, Hj, He. run_ok. revert E.
      destruct (fork_choice_block_from_db s (cp_root fin) e ∅) as [anchor| | |]; [|done..]. run_ok.
      destruct (tree_new anchor _) as [t0| | |]; [|done..]. run_ok. intros ->. run_ok. rewrite E2'. run_ok. rewrite Heq, E3. run_ok. done.
    + eapply synced_db, Sy4. cbn. rewrite <-Ee2, (left_id_L ∅ (∪)).
      assert (list_to_set (hs_iter eq) = eq) as -> by (apply set_eq; intros i; by rewrite elem_of_list_to_set, elem_of_hs_iter).
      destruct (st_db s). cbn in *. by rewrite Heq.
Qed.
End built.

(** ** Recovery and start *)

Lemma buildable_db s s' fin j e b rb : st_db s' = st_db s -> st_fork_choice_balances s' = st_fork_choice_balances s ->
  buildable s fin j e b rb -> buildable s' fin j e b rb.
Proof.
  intros E Eb [? ? ? ? ? ? He ? ? ? ? ? ?].
  assert (get_current_store_epoch s' = get_current_store_epoch s) as Ee by (apply epoch_db; by rewrite E).
  split; rewrite ?E, ?Eb, ?Ee; done.
Qed.

Lemma enable_in_step s fin j e b rb : buildable s fin j e b rb ->
  exists s', enable_fork_choice_tree s = (s', Ok tt) /\ in_step s' /\ st_db s' = st_db s.
Proof.
  intros Bl. destruct (build_synced (st_set_fork_choice None s) fin j e b rb) as (t & E & Sy); [by apply (buildable_db s)|].
  unfold enable_fork_choice_tree, mbind, SM_bind, M_bind, modify, reads. rewrite E. eexists. split; [done|]. split; [|done].
  exists t. split; [done|]. by eapply synced_db, Sy.
Qed.

(** Whatever went wrong with the tree, a refresh leaves one in step, if the database is well
    formed; without a tree, if another attempt is due. *)
Lemma refresh_recovers s now fin j e b rb : buildable s fin j e b rb ->
  (st_fork_choice s = None -> is_due (st_fork_choice_retry s) now = true) ->
  (forall t, st_fork_choice s = Some t -> exists err, reconcile_fork_choice_tree (st_set_fork_choice None s) t = Err err) ->
  exists s', refresh_fork_choice now s = (s', Ok tt) /\ in_step s' /\ st_db s' = st_db s.
Proof.
  intros Bl Hdue Herr. unfold refresh_fork_choice. destruct (st_fork_choice s) as [t|] eqn:Ht.
  - destruct (Herr t eq_refl) as [err ->]. unfold recover_fork_choice, try_or.
    destruct (enable_in_step (st_set_fork_choice None s) fin j e b rb) as (s' & -> & Hs & Ed); [by apply (buildable_db s)|]. eauto.
  - rewrite Hdue by done. cbn [negb]. unfold try_or. destruct (enable_in_step s fin j e b rb Bl) as (s' & -> & Hs & Ed). eauto.
Qed.

Context {BH : TreeHash BeaconBlock}.

(** A database with nothing in it. *)
Definition fresh_db d : Prop := rd_view (bd_block d) = ∅ /\ (forall p, mm_get (bd_parent_index d) p = []) /\ lm_view (bd_messages d) = ∅.

(** The anchor: its block is not its own parent and not after its epoch began, and its
    balances are bounded. *)
Definition anchor_ok (state : BeaconState) (sb : SignedBeaconBlock) (b : ForkChoiceBalances) : Prop :=
  b_parent_root (sb_message sb) <> tree_hash_root (sb_message sb) /\
  b_slot (sb_message sb) <= compute_start_slot_at_epoch (get_current_epoch state) /\
  from_checkpoint_state state = Ok b /\ supply_ok (fcb_balances b) (fcb_proposer_score b).

(** The fields of the first database that fork choice reads. *)
Record anchored state sb d d' : Prop := mkAnchored {
  an_block : bd_block d' = rd_insert (tree_hash_root (sb_message sb)) sb (bd_block d);
  an_index : bd_parent_index d' = mm_insert (b_parent_root (sb_message sb)) (tree_hash_root (sb_message sb)) (bd_parent_index d);
  an_state : bd_state d' = rd_insert (tree_hash_root (sb_message sb)) state (bd_state d);
  an_unrealized : bd_unrealized_justifications d' = rd_insert (tree_hash_root (sb_message sb))
    (mkCheckpoint (get_current_epoch state) (tree_hash_root (sb_message sb))) (bd_unrealized_justifications d);
  an_messages : bd_messages d' = bd_messages d;
  an_checkpoint : bd_checkpoint_states d' !! mkCheckpoint (get_current_epoch state) (tree_hash_root (sb_message sb)) = Some state;
  an_finalized : bd_finalized d' = Some (mkCheckpoint (get_current_epoch state) (tree_hash_root (sb_message sb)));
  an_justified : bd_justified d' = Some (mkCheckpoint (get_current_epoch state) (tree_hash_root (sb_message sb)));
  an_boost : bd_proposer_boost_root d' = Some B256_ZERO;
  an_equivocating : bd_equivocating d' = Some ∅;
  an_time : is_Some (bd_time d') /\ is_Some (bd_genesis_time d');
}.

Lemma anchored_db_spec d state sb : anchored state sb d (anchored_db state sb d).
Proof. split; [reflexivity..| | | | | |]; [apply lookup_insert_eq|reflexivity..|split; eexists; reflexivity]. Qed.

Lemma anchored_block d state sb d' x : fresh_db d -> anchored state sb d d' ->
  block_at d' x = if decide (x = tree_hash_root (sb_message sb)) then Some (sb_message sb) else None.
Proof.
  intros (Hb & _ & _) An. unfold block_at. rewrite (an_block _ _ _ _ An), rd_get_view, rd_view_insert, Hb. case_decide as Hx.
  - subst. by rewrite lookup_insert_eq.
  - by rewrite lookup_insert_ne.
Qed.

Lemma anchored_chain d state sb d' : fresh_db d -> anchored state sb d d' ->
  b_parent_root (sb_message sb) <> tree_hash_root (sb_message sb) -> chain_ok d'.
Proof.
  intros Hd An Hpar. set (root := tree_hash_root (sb_message sb)) in *.
  pose proof (fun x => anchored_block d state sb d' x Hd An) as Hblock. fold root in Hblock. destruct Hd as (_ & Hidx & _). split.
  - intros x bx p. rewrite !Hblock. case_decide; [|done]. intros [= <-]. by rewrite decide_False.
  - intros p c. setoid_rewrite Hblock. rewrite (an_index _ _ _ _ An), mm_get_insert, Hidx. fold root. case_decide as Hc.
    + subst c. split; [intros [Hn|[<- _]]; [by apply not_elem_of_nil in Hn|eauto]|]. intros (bx & [= <-] & <-). by right.
    + split; [intros [Hn|[_ Hn]]; [by apply not_elem_of_nil in Hn|done]|]. by intros (bx & Hn & _).
  - intros x bx. rewrite Hblock. case_decide as Hx; [|done]. intros _. subst x.
    rewrite (an_unrealized _ _ _ _ An), (an_state _ _ _ _ An), !rd_get_view, !rd_view_insert. fold root. rewrite !lookup_insert_eq. by split; eexists.
  - intros x bx y yb u st. rewrite Hblock. case_decide; [|done]. intros [= <-] Ha. exfalso.
    apply db_anc_known in Ha as [[z Hz] _]. rewrite Hblock in Hz. by rewrite decide_False in Hz.
Qed.

Lemma anchored_buildable d state sb b d' pool checker sync : fresh_db d -> anchor_ok state sb b -> anchored state sb d d' ->
  let fin := mkCheckpoint (get_current_epoch state) (tree_hash_root (sb_message sb)) in
  exists e, buildable (mkStore d' checker pool sync None backoff_new [] None) fin fin e b (sb_message sb).
Proof.
  intros Hd (Hpar & Hslot & Hb & Hsup) An fin. pose proof (fun x => anchored_block d state sb d' x Hd An) as Hblock.
  destruct (an_time _ _ _ _ An) as [[time Et] [genesis Eg]]. eexists. split; cbn [st_db st_fork_choice_balances].
  - by eapply anchored_chain.
  - intros x bx. rewrite Hblock. case_decide; [|done]. intros [= <-]. lia.
  - rewrite Hblock. by rewrite decide_True.
  - done.
  - apply An.
  - apply An.
  - unfold get_current_store_epoch, get_current_slot, get_slots_since_genesis. cbn [st_db]. rewrite Et, Eg. reflexivity.
  - exists state. split; [|done]. unfold checkpoint_state, in_memory, fin. by rewrite (an_checkpoint _ _ _ _ An).
  - done.
  - intros cb Hcb. by apply not_elem_of_nil in Hcb.
  - exists B256_ZERO. split; [apply An|by left].
  - rewrite (an_equivocating _ _ _ _ An). by eexists.
  - intros i m. destruct Hd as (_ & _ & Hmsg). rewrite (an_messages _ _ _ _ An), Hmsg, lookup_empty. done.
Qed.

Lemma start_in_step d state sb b store : fresh_db d -> anchor_ok state sb b ->
  get_forkchoice_store state sb d = Ok store -> in_step store /\ st_db store = anchored_db state sb d.
Proof.
  intros Hd Ha E. unfold get_forkchoice_store in E. apply bind_Ok in E as ([] & _ & E).
  apply bind_Ok in E as (s0 & E0 & E). unfold store_new in E0. apply bind_Ok in E0 as (checker & _ & [= <-]).
  destruct (anchored_buildable d state sb b _ pool_default checker sync_pool_default Hd Ha (anchored_db_spec d state sb)) as (e & Bl).
  destruct (enable_in_step _ _ _ _ _ _ Bl) as (s' & Es & Hs & Ed). cbn [default] in E. rewrite Es in E. injection E as <-. done.
Qed.
End build.
