(* ===== verification/BeaconRuns.v ===== *)
(** * Runs of the handlers

    The handlers of the fork choice as steps between stores: along a run the tree stays in
    step with the database, so the head it caches is the head the database gives. *)

From stdpp Require Import strings.
From S2P Require Import Prelude StateMonad Redb Bytes Shuffling Merkle BeaconTypes BeaconAccess BeaconMutate BeaconEpoch BeaconBlockOps BeaconTransition BeaconFacts BeaconSafety LatestMessages BeaconDb ForkTree ForkTreeFacts ForkTreeWeights ForkTreeInvariant ForkTreeBlocks ForkTreeSpec DataAvailability OperationPool SyncCommitteePool BeaconStore BeaconHandlers BeaconWalks BeaconSync BeaconSteps.

Section runs.
Context {RD : Redb} {RDL : RedbLaws RD} {RM : RedbMulti} {RML : RedbMultiLaws RM}.
Context {H : Sha256} {HLaw : Sha256Laws H} {F : CandidateFuel} {HO : HashOrder} {HOL : HashOrderLaws HO} {SV : SszVec} {SVL : SszVecLaws SV}.
Context {R : Roots} {B : Bls} {N : BeaconNetworkSpec}.
Context {BA : BlsAggregate} {TH : TreeHash SignedBLSToExecutionChange} {FS : ForkChoiceSpec}.
Implicit Types (d : BeaconDB) (s : Store) (t : ForkChoiceTree).

(** ** Attestations *)

(** The states checkpoints name are well formed. *)
Definition shaped_states d : Prop := forall c state, checkpoint_state d c = Ok (Some state) -> shape state.

Lemma validated_known s a b : validate_on_attestation s a b = Ok tt -> is_Some (block_at (st_db s) (ad_beacon_block_root (att_data a))).
Proof.
  unfold validate_on_attestation. intros E. do 3 (apply bind_Ok in E as ([] & _ & E)).
  apply bind_Ok in E as (sp & Esp & _). unfold block_at, slot_and_parent_root in *.
  destruct (rd_get _ _); [by eexists|done].
Qed.

Lemma indexed_nonneg state a ia : shape state -> get_indexed_attestation state a = Ok ia -> Forall (fun i => 0 <= i) (attesting_indices ia).
Proof.
  intros Hs E. destruct (get_indexed_attestation_sound state a Hs) as [_ Hr]. eapply Forall_impl; [by apply Hr|].
  intros i [H0 _]. done.
Qed.

Lemma attestation_in_step s t now a from_block s' : st_fork_choice s = Some t -> synced s t -> shaped_states (st_db s) ->
  on_attestation now a from_block s = (s', Ok tt) -> in_step s'.
Proof.
  intros Ht Sy Hsh E. unfold on_attestation in E. rewrite bindS_reads in E.
  destruct (validate_on_attestation s a from_block) as [[]| | |] eqn:Ev; [|done..]. rewrite bindS_reads in E.
  destruct (checkpoint_state (st_db s) (ad_target (att_data a))) as [[state|]| | |] eqn:Es; [|done..]. cbn [mbind res_bind ok_or] in E.
  destruct (get_indexed_attestation state a) as [ia| | |] eqn:Ei; [|done..]. cbn [mbind res_bind] in E.
  destruct (is_valid_indexed_attestation state ia) as [v| | |]; [|done..]. cbn [mbind res_bind] in E.
  destruct (ensure v _); [|done..]. cbn [mbind res_bind] in E. edestruct votes_in_step as [(_ & Hs & _)|[_ [e He]]]; [exact Ht|exact Sy| |exact E|exact Hs|done].
  intros ix a' [= -> ->]%list_elem_of_singleton. split; [|by eapply validated_known].
  eapply indexed_nonneg; [|done]. by eapply Hsh.
Qed.

Lemma block_attestation_fresh s root block_state states a states' r :
  (forall state, block_state = Some state -> shape state) -> shaped_states (st_db s) -> map_Forall (fun _ => shape) states ->
  block_attestation s root block_state states a = (states', r) ->
  map_Forall (fun _ => shape) states' /\
  forall ix, r = Ok ix -> Forall (fun i => 0 <= i) ix /\ is_Some (block_at (st_db s) (ad_beacon_block_root (att_data a))).
Proof.
  intros Hb Hsh Hst. unfold block_attestation. destruct (validate_on_attestation s a true) as [[]| | |] eqn:Ev; try (intros [= <- <-]; done).
  apply validated_known in Ev. set (shared := match block_state with Some _ => _ | None => _ end).
  assert (forall state, shared = Ok (Some state) -> block_state = Some state) as Hshared.
  { unfold shared. destruct block_state as [state|]; [|done]. intros st (b & _ & E)%bind_Ok. destruct b; [by injection E as ->|done]. }
  destruct shared as [[state|]| | |]; try (intros [= <- <-]; done).
  - intros [= <- <-]. split; [done|]. intros ix (ia & Ei & [= <-])%bind_Ok. split; [|done]. eapply indexed_nonneg; [|done]. by apply Hb, Hshared.
  - set (found := match states !! _ with Some _ => _ | None => _ end).
    assert (forall state, found = Ok state -> shape state) as Hfound.
    { unfold found. destruct (states !! _) as [state|] eqn:E; [intros st [= <-]; by eapply Hst|].
      intros st ([st'|] & Es & [= ->])%bind_Ok. by eapply Hsh. }
    destruct found as [state| | |]; try (intros [= <- <-]; done). specialize (Hfound state eq_refl).
    intros [= <- <-]. split; [by apply map_Forall_insert_2|]. intros ix (ia & Ei & E)%bind_Ok. split; [|done].
    apply bind_Ok in E as (oc & _ & E). apply bind_Ok in E as ([] & _ & [= <-]). by eapply indexed_nonneg.
Qed.

Lemma collect_votes_fresh s root block_state l : (forall state, block_state = Some state -> shape state) -> shaped_states (st_db s) ->
  forall states r, map_Forall (fun _ => shape) states -> collect_votes s root block_state states l = Ok r -> fresh_votes (st_db s) r.1.
Proof.
  intros Hb Hsh. induction l as [|a l IH]; intros states r Hst E; cbn in E.
  { injection E as <-. intros ix a Hin. by apply not_elem_of_nil in Hin. }
  destruct (block_attestation _ _ _ _ _) as [states' ra] eqn:Ea.
  destruct (block_attestation_fresh _ _ _ _ _ _ _ Hb Hsh Hst Ea) as [Hst' Hr]. destruct ra as [ix|e| |]; [| |done..].
  all: apply bind_Ok in E as (rest & Er & [= <-]); specialize (IH _ _ Hst' Er); try exact IH.
  intros ix' a' [[= -> ->]|Hin]%elem_of_cons; [by apply Hr|by apply IH].
Qed.

Lemma block_attestations_in_step s t now root l s' results : st_fork_choice s = Some t -> synced s t -> shaped_states (st_db s) ->
  (forall state, rd_get (bd_state (st_db s)) root = Some state -> shape state) ->
  on_block_attestations now root l s = (s', Ok results) -> in_step s'.
Proof.
  intros Ht Sy Hsh Hst E. unfold on_block_attestations in E. rewrite !bindS_reads in E.
  destruct (collect_votes _ _ _ _ _) as [r| | |] eqn:Er; [|done..].
  apply collect_votes_fresh in Er; [|done|done|apply map_Forall_empty]. unfold try_or in E.
  destruct ((update_latest_messages_batch now r.1 ≫= _) s) as [s1 [a|e| |]] eqn:Eu; [| |done..].
  - injection E as -> _. apply bindS_Ok in Eu as (s2 & [] & Eu & [= <- _]). edestruct votes_in_step as [(_ & Hs & _)|[_ [e He]]]; [exact Ht|exact Sy|exact Er|exact Eu|done|done].
  - injection E as -> _. unfold mbind, SM_bind, M_bind in Eu.
    destruct (update_latest_messages_batch now r.1 s) as [s2 [[]|e'| |]] eqn:Ev; [done| |done..]. injection Eu as -> _.
    edestruct votes_in_step as [[? _]|[-> _]]; [exact Ht|exact Sy|exact Er|exact Ev|done|]. by exists t.
Qed.

(** ** Blocks *)

(** A block whose ancestor is in the tree is in the tree. *)
Lemma descendant_in_tree d t slot y a : aligned d t -> db_anc d slot y a -> is_Some (ft_nodes t !! a) -> is_Some (ft_nodes t !! y).
Proof.
  intros Al Ha Hin. pose proof (tr_forest _ _ (ti_tracks _ (al_inv _ _ Al))) as Fo.
  induction Ha as [x b Hb Hs|x b a Hb Hs Ha IH]; [done|]. destruct (IH Hin) as [p Hp].
  pose proof (al_closed _ _ Al _ p x b Hp Hb eq_refl) as Hc. destruct (fo_child _ _ Fo _ p x Hp Hc) as (m & Hm & _). by exists m.
Qed.

(** What the checks of a block say of its parent. *)
Lemma checked_parent s t block parent : st_fork_choice s = Some t -> synced s t -> check_block s block = Ok parent ->
  exists n, ft_nodes t !! b_parent_root block = Some n /\ block_at (st_db s) (b_parent_root block) = Some parent /\ fn_slot n = b_slot parent.
Proof.
  intros Ht Sy E. pose proof (sy_aligned _ _ Sy) as Al. unfold check_block in E.
  apply bind_Ok in E as ([] & _ & E). apply bind_Ok in E as (current & _ & E). apply bind_Ok in E as ([] & _ & E).
  rewrite (sy_finalized _ _ Sy) in E. cbn [field ok_or mbind res_bind] in E. apply bind_Ok in E as ([] & _ & E).
  apply bind_Ok in E as (a & Ea & E). apply bind_Ok in E as ([] & Ef & E). apply ensure_Ok, bool_decide_eq_true in Ef.
  apply bind_Ok in E as (sb & Esb & [= <-]). destruct (rd_get (bd_block (st_db s)) (b_parent_root block)) as [sb'|] eqn:Eb; [|done]. injection Esb as ->.
  assert (block_at (st_db s) (b_parent_root block) = Some (sb_message sb)) as Hb by (apply block_at_get; by exists sb).
  destruct (synced_ancestor s t Sy (or_introl Ht) (b_parent_root block) _ (sy_root_slot _ _ Sy) (mk_is_Some _ _ Hb)) as (a' & Ea' & Ha').
  unfold get_checkpoint_block in Ea. assert (a' = a) as -> by congruence.
  destruct (descendant_in_tree _ t _ _ _ Al Ha') as [n Hn].
  { rewrite <-Ef, <-(sy_root _ _ Sy). destruct (fo_root _ _ (tr_forest _ _ (ti_tracks _ (al_inv _ _ Al)))) as (r & Hr & _). by exists r. }
  exists n. destruct (al_mirrors _ _ Al _ _ Hn) as (b & Hb' & Es & _). assert (b = sb_message sb) as -> by congruence. done.
Qed.

(** The checker hands out the block it was given. *)
Definition da_holds (root : B256) (pb : PendingBlock (State := BeaconState)) (c : DataAvailabilityChecker (State := BeaconState)) : Prop :=
  pa_pending_block <$> da_entries c !! root = Some (Some pb).

Lemma take_holds root pb c c' r : da_holds root pb c -> take_if_complete root c = (c', r) -> r = Some pb \/ (r = None /\ c' = c).
Proof.
  unfold da_holds, take_if_complete. intros Hh. destruct (da_entries c !! root) as [entry|]; [|done].
  injection Hh as Hh. case_match; intros [= <- <-]; auto.
Qed.

Lemma add_column_holds root pb c i sl : da_holds root pb c -> da_holds root pb (add_column root i sl c).
Proof.
  unfold da_holds, add_column, entry_or_default. intros Hh. case_bool_decide; [done|]. cbn. rewrite lookup_insert_eq. cbn.
  destruct (da_entries c !! root) as [entry|]; [|done]. injection Hh as Hh. by cbn; rewrite Hh.
Qed.

Lemma backfill_holds column_slot root pb l : forall c c' p, da_holds root pb c -> backfill_columns column_slot root l c = (c', Some p) -> p = pb.
Proof.
  induction l as [|i l IH]; intros c c' p Hh E; [done|]. cbn in E. destruct (column_slot root i) as [sl|]; [|by eapply IH].
  apply (add_column_holds root pb c i sl) in Hh. destruct (take_if_complete _ _) as [c1 [p1|]] eqn:Et.
  - injection E as <- <-. destruct (take_holds _ _ _ _ _ Hh Et) as [[= ->]|[? _]]; done.
  - destruct (take_holds _ _ _ _ _ Hh Et) as [?|[_ ->]]; [done|]. by eapply IH.
Qed.

Lemma cache_balances_keeping t Q c state : (forall d d', same_blocks d d' -> same_votes d d' -> Q d -> Q d') ->
  preserves (keeping t Q) (cache_fork_choice_balances c state).
Proof.
  intros HQ. unfold cache_fork_choice_balances. apply preserves_bind; [apply preserves_reads|]. intros cached.
  destruct cached; [apply preserves_ret|]. apply preserves_bind; [apply preserves_lift|]. intros b. by apply modify_keeping.
Qed.

Lemma imported_from d d0 root sb state c d' : same_blocks d d0 -> same_votes d d0 ->
  imported d0 root sb state c d' -> imported d root sb state c d'.
Proof.
  intros (E1 & E2 & E3 & E4) Sv (I1 & I2 & I3 & I4 & I5). rewrite E1, E2, E3, E4 in *. split_and!; try done. by etrans.
Qed.

Lemma block_in_step s t now columns sb root engine verify s' fin j e b : st_fork_choice s = Some t -> synced s t ->
  new_block (st_db s) root ->
  (forall p, block_at (st_db s) (b_parent_root (sb_message sb)) = Some p -> b_slot p < b_slot (sb_message sb)) ->
  on_block_with_root now columns sb root engine verify s = (s', Ok Imported) -> ready s' t fin j e b ->
  in_step s' /\ exists state unrealized, imported (st_db s) root sb state unrealized (st_db s').
Proof.
  intros Ht Sy Hnew Hslots E Rdy. pose proof (sy_aligned _ _ Sy) as Al.
  unfold on_block_with_root in E. rewrite bindS_reads in E. destruct (check_block s (sb_message sb)) as [parent| | |] eqn:Ec; [|done..].
  destruct (checked_parent _ _ _ _ Ht Sy Ec) as (n & Hn & Hb & Es). specialize (Hslots _ Hb). rewrite <-Es in Hslots.
  rewrite bindS_reads in E. destruct (run_transition _ _ _ _) as [r| | |]; [|done..]. cbv zeta in E.
  set (state := r.1.1) in E. set (Q := fun d => aligned d t /\ same_blocks (st_db s) d /\ same_votes (st_db s) d).
  assert (forall d d', same_blocks d d' -> same_votes d d' -> Q d -> Q d') as HQ.
  { intros d d' Sb Sv (Al' & Sb' & Sv'). split_and!; [by eapply aligned_same|by etrans|by etrans]. }
  assert (keeping t Q s) as Hs by done.
  apply bindS_Ok in E as (s1 & [] & E1 & E). assert (keeping t Q s1) as Hs1.
  { eapply run_preserves; [|exact Hs|exact E1]. destruct (_ =? _); [by apply cache_balances_keeping|].
    destruct r.1.2; [by apply cache_balances_keeping|apply preserves_ret]. }
  apply bindS_Ok in E as (s2 & [] & E2 & E). assert (keeping t Q s2) as Hs2.
  { eapply run_preserves; [|exact Hs1|exact E2]. destruct r.1.2; [|apply preserves_ret].
    destruct r.2; [apply preserves_ret|by apply modify_db_keeping]. }
  assert (forall s3, keeping t Q s3 -> process_available_block now (mkPendingBlock sb state) root s3 = (s', Ok tt) ->
    in_step s' /\ exists state unrealized, imported (st_db s) root sb state unrealized (st_db s')) as Himport.
  { intros s3 [Ht3 (Al3 & Sb3 & Sv3)] E3.
    destruct (import_in_step s3 t now (mkPendingBlock sb state) root s' n fin j e b Ht3 Al3) as (Hs' & c & Im); try done.
    - destruct (ft_boost t) as [[x score]|] eqn:Eb; [|done]. cbn. intros [= ->].
      destruct (sy_boosted _ _ Sy _ _ Eb) as [_ [y Hy]]. destruct Hnew as [Hnew _]. congruence.
    - destruct Hnew as [Hn1 Hn2]. split; [by rewrite (same_blocks_at _ _ _ Sb3)|]. by destruct Sb3 as (_ & -> & _).
    - split; [done|]. exists state, c. by eapply imported_from. }
  destruct verify; cbn [negb] in E.
  - rewrite bindS_modify in E. set (s3 := st_set_availability _ s2) in E. assert (keeping t Q s3) as Hs3 by done.
    assert (da_holds root (mkPendingBlock sb state) (st_availability s3)) as Hh.
    { unfold da_holds, s3. cbn. by rewrite lookup_insert_eq. }
    apply bindS_Ok in E as (s4 & available & E4 & E). unfold take_available in E4.
    destruct (take_if_complete root (st_availability s3)) as [c4 a4] eqn:Et. injection E4 as <- <-.
    apply bindS_Ok in E as (s5 & available' & E5 & E).
    assert (keeping t Q s5 /\ (available' = None \/ available' = Some (mkPendingBlock sb state))) as [Hs5 Hav].
    { destruct (take_holds _ _ _ _ _ Hh Et) as [->|[-> ->]]; [injection E5 as <- <-; auto|].
      unfold backfill_data_availability_columns in E5. destruct (backfill_columns _ _ _ _) as [c5 a5] eqn:Ebf. injection E5 as <- <-.
      split; [done|]. destruct a5 as [p|]; [|by left]. right. f_equal. by eapply backfill_holds. }
    destruct Hav as [->| ->]; [done|]. apply bindS_Ok in E as (s6 & [] & E6 & [= <-]). by eapply Himport.
  - apply bindS_Ok in E as (s3 & [] & E3 & [= <-]). by eapply Himport.
Qed.

(** ** Runs *)

(** One call of a handler that returns, with a tree before it.  A tick and an import may
    write checkpoints: those must be ready for the tree. *)
Inductive handled s s' : Prop :=
| handled_tick t now time fin j e b : st_fork_choice s = Some t ->
    on_tick_per_slot now time s = (s', Ok tt) -> ready s' t fin j e b -> handled s s'
| handled_block t now columns sb root engine verify fin j e b : st_fork_choice s = Some t ->
    on_block_with_root now columns sb root engine verify s = (s', Ok Imported) ->
    new_block (st_db s) root ->
    (forall p, block_at (st_db s) (b_parent_root (sb_message sb)) = Some p -> b_slot p < b_slot (sb_message sb)) ->
    ready s' t fin j e b -> handled s s'
| handled_attestation now a from_block : on_attestation now a from_block s = (s', Ok tt) ->
    shaped_states (st_db s) -> handled s s'
| handled_block_attestations now root l results : on_block_attestations now root l s = (s', Ok results) ->
    shaped_states (st_db s) -> (forall state, rd_get (bd_state (st_db s)) root = Some state -> shape state) -> handled s s'
| handled_slashing slashing : on_attester_slashing slashing s = (s', Ok tt) -> handled s s'.

Lemma handled_in_step s s' : handled s s' -> in_step s -> in_step s'.
Proof.
  intros Hh (t & Ht & Sy). destruct Hh as [t' now time fin j e b Ht' E Rdy|t' now columns sb root engine verify fin j e b Ht' E Hnew Hs Rdy|now a from_block E Hsh|now root l results E Hsh Hst|slashing E].
  - assert (t' = t) as -> by congruence. eapply tick_in_step; [exact Ht|apply Sy|exact E|exact Rdy].
  - assert (t' = t) as -> by congruence. by eapply block_in_step.
  - by eapply attestation_in_step.
  - by eapply block_attestations_in_step.
  - by eapply slashing_in_step.
Qed.

Lemma handled_rtc s s' : rtc handled s s' -> in_step s -> in_step s'.
Proof. induction 1 as [s|s s1 s' Hs _ IH]; [done|]. intros Hi. by eapply IH, handled_in_step. Qed.

(** The cached head, the head the store answers and the head of the database are one. *)
Lemma in_step_head s : in_step s -> exists t, st_fork_choice s = Some t /\
  (is_Some (ft_nodes t !! cp_root (vc_justified_checkpoint (ft_context t))) ->
   get_head s = Ok (tree_head t) /\ get_head_from_db s = Ok (tree_head t) /\
   get_head (st_set_fork_choice None s) = Ok (tree_head t)).
Proof.
  intros (t & Ht & Sy). exists t. split; [done|]. intros Hj. split_and!.
  - unfold get_head. rewrite Ht. unfold contains. by rewrite bool_decide_true.
  - by apply (head_from_db s t Sy (or_introl Ht)).
  - cbn. apply (head_from_db (st_set_fork_choice None s) t); [by apply (synced_db s)|by right|done].
Qed.
End runs.
