(* ===== verification/BeaconConcrete.v ===== *)
(** * A concrete beacon chain

    The parameters of the beacon model instantiated by concrete functions, a state of
    two validators and a block it accepts, on which the theorems' hypotheses are
    checked by evaluation. *)

From stdpp Require Import strings.
From S2P Require Import Prelude StateMonad Bytes Shuffling Merkle BeaconTypes BeaconAccess BeaconMutate BeaconEpoch BeaconBlockOps BeaconTransition BeaconFacts BeaconSafety BeaconJustification BeaconWithdrawals BeaconRegistry BeaconProofs.

Module BeaconEx.

(** ** Parameters *)

(** A 32-byte digest. *)
Definition sha : Sha256 := fun m => le_bytes 32 (foldl (fun a b => (a * 257 + b + 1) mod 2 ^ 61) 7 m).
Lemma sha_laws : Sha256Laws sha.
Proof. split; intros m; [apply le_bytes_length|apply le_bytes_byte]. Qed.

Definition vec : SszVec := {|
  vl_push := fun A max l a => if Z.of_nat (length l) <? max then Some (l ++ [a]) else None;
  vl_try_from := fun A max l => if Z.of_nat (length l) <=? max then Some l else None;
  fv_new := fun A n l => if Z.of_nat (length l) =? n then Some l else None;
  bits_get := fun l i => l !! i;
  bits_set := fun l i b => if (i <? length l)%nat then Some (<[i := b]> l) else None;
|}.
Lemma vec_laws : SszVecLaws vec.
Proof. by split. Qed.

(** A scheme whose signatures carry the key they verify against. *)
Definition bls : Bls := {|
  bls_verify := fun sig pk _ => Ok (bool_decide (sig_inner sig = pk_inner pk));
  fast_aggregate_verify := fun sig pks _ => Ok (bool_decide (sig_inner sig = concat (pk_inner <$> pks)));
  aggregate := fun pks => Ok (mkPublicKey (concat (pk_inner <$> pks)));
|}.
Lemma bls_total : BlsTotal bls.
Proof. by split. Qed.

Definition word (z : Z) : B256 := le_bytes 32 z.

#[local] Existing Instance sha.

Definition roots : Roots := {|
  header_root := fun h => word (1 + bh_slot h);
  body_root := fun b => word (Z.of_nat (length (attestations b)));
  deposit_data_root := fun d => word (dd_amount d);
  deposit_message_root := fun d => word (dm_amount d);
  attestation_data_root := fun d => word (ad_slot d);
  voluntary_exit_root := fun v => word (ve_epoch v);
  bls_change_root := fun c => word (bc_validator_index c);
  transactions_root := fun l => word (Z.of_nat (length l));
  withdrawals_root := fun l => word (Z.of_nat (length l));
  u64_root := word;
  fork_root := fun f => word (fork_epoch f);
  eth1_data_root := fun e => word (deposit_count e);
  eth1_data_votes_root := fun l => word (Z.of_nat (length l));
  validators_root := fun l => word (Z.of_nat (length l));
  checkpoint_root := fun c => hash_concat (word (cp_epoch c)) (cp_root c);
  justification_bits_root := fun l => word (Z.of_nat (length l));
  sync_committee_root := fun c => word (Z.of_nat (length (sc_public_keys c)));
  payload_header_root := fun p => word (eh_block_number p);
  historical_summaries_root := fun l => word (Z.of_nat (length l));
  pending_deposits_root := fun l => word (Z.of_nat (length l));
  pending_partial_withdrawals_root := fun l => word (Z.of_nat (length l));
  pending_consolidations_root := fun l => word (Z.of_nat (length l));
  b256_vector_root := fun l => word (Z.of_nat (length l));
  b256_list_root := fun l => word (Z.of_nat (length l));
  u64_vector_root := fun l => word (Z.of_nat (length l));
  u64_list_root := fun l => word (u64_sum l);
  u8_list_root := fun l => word (u64_sum l);
  signing_data_root := fun a b => hash_concat a b;
  fork_data_root := fun v r => hash_concat v r;
  merkle_root := fun bytes n => merkle_ref (Nat.log2_up n) (chunks_from n 32 bytes);
|}.

Lemma chunks_concat_32 (leaves : list B256) :
  Forall (fun l => length l = 32%nat) leaves -> chunks_from (length leaves) 32 (concat leaves) = leaves.
Proof.
  induction 1 as [|l leaves Hl _ IH]; [done|]. cbn [length concat chunks_from].
  destruct (l ++ concat leaves) as [|x y] eqn:E; [destruct l; done|]. rewrite <-E.
  rewrite take_app_le, drop_app_le, take_ge, drop_ge by lia. cbn. by rewrite IH.
Qed.

Lemma roots_laws : RootsLaws sha roots.
Proof.
  split; [|done]. intros d leaves Hl Hlo Hhi. cbn [merkle_root roots]. rewrite chunks_concat_32 by done. f_equal.
  destruct d as [|d]; [cbn in *; by replace (length leaves) with 1%nat by lia|].
  apply Nat.log2_up_unique; [lia|]. cbn in *. lia.
Qed.

Definition network : BeaconNetworkSpec := {|
  seconds_per_slot := 12; genesis_fork_version := [0; 0; 0; 0]; capella_fork_version := [3; 0; 0; 0];
  fulu_fork_epoch := 10; max_blobs_per_block := fun _ => 6;
|}.
Definition fuel : CandidateFuel := 100%nat.
Definition order : HashOrder := gmap_order.

#[local] Existing Instances vec bls roots network fuel order.

(** ** A state *)

Definition key (i : Z) : PublicKey := mkPublicKey (i :: replicate 47 0).
Definition validator (i : Z) : Validator :=
  mkValidator (key i) B256_ZERO 32000000000 false 0 0 FAR_FUTURE_EPOCH FAR_FUTURE_EPOCH.
Definition committee : SyncCommittee := mkSyncCommittee (replicate 512 (key 1)) (key 1).
Definition payload_header : ExecutionPayloadHeader :=
  mkExecutionPayloadHeader B256_ZERO [] B256_ZERO B256_ZERO [] B256_ZERO 0 0 0 0 [] 0 B256_ZERO B256_ZERO B256_ZERO 0 0.

(** At a slot, with the participation flags of both validators. *)
Definition state (at_slot flags : Z) : BeaconState :=
  mkBeaconState 0 B256_ZERO at_slot (mkFork [5; 0; 0; 0] [6; 0; 0; 0] 0)
    (mkBeaconBlockHeader 1 0 B256_ZERO B256_ZERO B256_ZERO)
    (replicate (Z.to_nat SLOTS_PER_HISTORICAL_ROOT) B256_ZERO) (replicate (Z.to_nat SLOTS_PER_HISTORICAL_ROOT) B256_ZERO) []
    (mkEth1Data B256_ZERO 0 B256_ZERO) [] 0
    [validator 1; validator 2] [32000000000; 33000000000]
    (replicate (Z.to_nat EPOCHS_PER_HISTORICAL_VECTOR) B256_ZERO) (replicate (Z.to_nat EPOCHS_PER_SLASHINGS_VECTOR) 0)
    [flags; flags] [flags; flags] [false; false; false; false]
    (mkCheckpoint 0 B256_ZERO) (mkCheckpoint 0 B256_ZERO) (mkCheckpoint 0 B256_ZERO) [0; 0]
    committee committee payload_header 0 0 [] UNSET_DEPOSIT_REQUESTS_START_INDEX 0 0 0 0 0 [] [] []
    (replicate 64 1).

Lemma state_shape at_slot flags : shape (state at_slot flags).
Proof.
  constructor; cbn [state validators balances previous_epoch_participation current_epoch_participation inactivity_scores
    block_roots state_roots randao_mixes slashings justification_bits proposer_lookahead length];
    rewrite ?length_replicate; try done; try lia.
  - do 2 (constructor; [done|]). constructor.
  - apply Forall_replicate. done.
  - apply Forall_replicate. lia.
Qed.

(** ** A block *)

Definition body : BeaconBlockBody :=
  mkBeaconBlockBody (mkBLSSignature (pk_inner (key 2))) (mkEth1Data B256_ZERO 0 B256_ZERO) B256_ZERO [] [] [] [] []
    (mkSyncAggregate (replicate 512 false) infinity)
    (mkExecutionPayload B256_ZERO [] B256_ZERO B256_ZERO [] B256_ZERO 1 0 0 (71 * 12) [] 0 B256_ZERO [] [] 0 0)
    [] [] (mkExecutionRequests [] [] []).

Definition block (root : B256) : SignedBeaconBlock :=
  mkSignedBeaconBlock (mkBeaconBlock 71 1 (word 2) root body) (mkBLSSignature (pk_inner (key 2))).

(** The block with the root of the state it leads to. *)
Definition next_state : BeaconState := (state_transition_from_root (block B256_ZERO) false None None (state 70 0)).1.
Definition good_block : SignedBeaconBlock := block (state_root next_state).

Definition is_ok {E A} (r : res E A) : bool := match r with Ok _ => true | _ => false end.

Lemma good_block_ok : is_ok (state_transition_from_root good_block true None None (state 70 0)).2 = true.
Proof. vm_compute. reflexivity. Qed.

Lemma good_block_accepted :
  state_transition_from_root good_block true None None (state 70 0) =
  ((state_transition_from_root good_block true None None (state 70 0)).1, Ok tt).
Proof.
  pose proof good_block_ok as Ho. destruct (state_transition_from_root good_block true None None (state 70 0)) as [s r].
  cbn in *. by destruct r as [[]| | |].
Qed.
End BeaconEx.
