(* ===== verification/DataColumns.v ===== *)
(** * Blobs and data columns

    The sidecars of [crates/common/consensus/beacon/src/blob_sidecar.rs] and
    [data_column_sidecar.rs], the batched verification of
    [crates/common/polynomial_commitments/src/handlers.rs], and the reconstruction of a
    block's columns from half of them ([matrix_entry.rs]).

    The polynomial commitment libraries are arguments: the verification of a batch of
    cells, and the recovery of a row.  [KzgLaws] states what they document: a batch
    verifies when each of its cells belongs to its commitment, and recovery from half the
    cells of a row gives back these cells and every other cell of it, each with its proof. *)

From stdpp Require Import strings.
From S2P Require Import Prelude Bytes Shuffling Merkle BeaconTypes BeaconAccess DataAvailability BeaconConcrete.

Definition BLOB_KZG_COMMITMENTS_INDEX : Z := 11.
Definition BLOB_SIDECAR_KZG_PROOF_DEPTH : Z := 17.
Definition DATA_COLUMN_SIDECAR_KZG_PROOF_DEPTH : Z := 4.
Definition MAX_BLOBS_PER_BLOCK : Z := 4096.
Definition MAX_CELLS_PER_KZG_BATCH : Z := 4096.
Definition CELLS_PER_EXT_BLOB : Z := 128.
Definition MaxBlobCommitmentsPerBlock : Z := 4096.

Definition KZGCommitment : Type := list Z.
Definition KZGProof : Type := list Z.
Definition Cell : Type := list Z.
Definition Blob : Type := list Z.

#[global] Instance SignedBeaconBlockHeader_eq_dec : EqDecision SignedBeaconBlockHeader.
Proof. solve_decision. Defined.

Record BlobSidecar : Type := mkBlobSidecar {
  bl_index : Z;
  bl_blob : Blob;
  bl_kzg_commitment : KZGCommitment;
  bl_kzg_proof : KZGProof;
  bl_signed_block_header : SignedBeaconBlockHeader;
  bl_inclusion_proof : list B256;
}.

Record DataColumnSidecar : Type := mkDataColumnSidecar {
  dc_index : Z;
  dc_column : list Cell;
  dc_kzg_commitments : list KZGCommitment;
  dc_kzg_proofs : list KZGProof;
  dc_signed_block_header : SignedBeaconBlockHeader;
  dc_inclusion_proof : list B256;
}.

(** A cell with what it is verified against: its commitment, its index in the row and its proof. *)
Record CellItem : Type := mkCellItem {
  ci_commitment : KZGCommitment;
  ci_index : Z;
  ci_cell : Cell;
  ci_proof : KZGProof;
}.

(** The roots of a commitment and of a list of them, and the KZG libraries. *)
Class CommitmentRoots : Type := {
  #[global] commitment_root :: TreeHash KZGCommitment;
  #[global] commitments_root :: TreeHash (list KZGCommitment);
}.
Class Kzg : Type := {
  kzg_verify_blobs : list Blob -> list KZGCommitment -> list KZGProof -> res anyhow bool;
  kzg_verify_cells : list CellItem -> res anyhow bool;
  kzg_recover : list Z -> list Cell -> res anyhow (list Cell * list KZGProof);
}.

(** [belongs]: the cell is the one of its row's polynomial and the proof shows it. *)
Class KzgLaws (K : Kzg) (belongs : CellItem -> bool) : Prop := {
  kzg_batch : forall items, kzg_verify_cells items = Ok true <-> forallb belongs items = true;
  kzg_recovers : forall commitment indices cells,
    NoDup indices -> Forall (fun i => 0 <= i < CELLS_PER_EXT_BLOB) indices ->
    length indices = length cells -> CELLS_PER_EXT_BLOB / 2 <= Z.of_nat (length indices) ->
    Forall (fun c : Cell => length c = Z.to_nat 2048) cells ->
    (forall k i c, indices !! k = Some i -> cells !! k = Some c -> exists p, belongs (mkCellItem commitment i c p) = true) ->
    exists cells' proofs', kzg_recover indices cells = Ok (cells', proofs') /\
    length cells' = 128%nat /\ length proofs' = 128%nat /\
    Forall (fun c : Cell => length c = Z.to_nat 2048) cells' /\ Forall (fun p : KZGProof => length p = 48%nat) proofs' /\
    (forall k i c, indices !! k = Some i -> cells !! k = Some c -> cells' !! Z.to_nat i = Some c) /\
    forall (i : nat) c p, cells' !! i = Some c -> proofs' !! i = Some p ->
      belongs (mkCellItem commitment (Z.of_nat i) c p) = true;
}.

(** The libraries return: they do not panic. *)
Class KzgReturns (K : Kzg) : Prop := {
  kzg_blobs_return : forall blobs commitments proofs, returns (kzg_verify_blobs blobs commitments proofs);
  kzg_cells_return : forall items, returns (kzg_verify_cells items);
}.

Section columns.
Context {H : Sha256} {SV : SszVec} {N : BeaconNetworkSpec} {CR : CommitmentRoots} {K : Kzg}.

(** ** Sidecars *)

Definition verify_blob_sidecar_inclusion_proof (self : BlobSidecar) : res anyhow bool :=
  let kzg_commitments_tree_depth := Z.log2 (2 ^ Z.log2_up MAX_BLOBS_PER_BLOCK) + 1 in
  if Z.of_nat (length (bl_inclusion_proof self)) <? kzg_commitments_tree_depth then Panic
  else
    let n := Z.to_nat kzg_commitments_tree_depth in
    blob_kzg_commitments_root ←
      get_root_from_merkle_branch (tree_hash_root (bl_kzg_commitment self)) (take n (bl_inclusion_proof self))
        kzg_commitments_tree_depth (bl_index self);
    is_valid_merkle_branch blob_kzg_commitments_root (drop n (bl_inclusion_proof self))
      (BLOB_SIDECAR_KZG_PROOF_DEPTH - kzg_commitments_tree_depth)%u64 BLOB_KZG_COMMITMENTS_INDEX
      (bh_body_root (sbh_message (bl_signed_block_header self))).

Definition verify_inclusion_proof (self : DataColumnSidecar) : res anyhow bool :=
  is_valid_merkle_branch (tree_hash_root (dc_kzg_commitments self)) (dc_inclusion_proof self)
    DATA_COLUMN_SIDECAR_KZG_PROOF_DEPTH BLOB_KZG_COMMITMENTS_INDEX
    (bh_body_root (sbh_message (dc_signed_block_header self))).

Definition dc_verify (self : DataColumnSidecar) : bool :=
  if NUMBER_OF_COLUMNS <=? dc_index self then false
  else if bool_decide (dc_kzg_commitments self = []) then false
  else
    let limit := max_blobs_per_block (compute_epoch_at_slot (bh_slot (sbh_message (dc_signed_block_header self)))) in
    if limit <? Z.of_nat (length (dc_kzg_commitments self)) then false
    else if negb (length (dc_column self) =? length (dc_kzg_commitments self))%nat
         || negb (length (dc_column self) =? length (dc_kzg_proofs self))%nat then false
    else true.

(** ** Verification *)

Definition cell_items (commitments : list KZGCommitment) (indices : list Z) (cells : list Cell) (proofs : list KZGProof) :
    list CellItem :=
  zip_with (fun ci cp => mkCellItem (fst ci) (snd ci) (fst cp) (snd cp)) (zip commitments indices) (zip cells proofs).

Definition verify_cell_kzg_proof_batch (commitments : list KZGCommitment) (cell_indices : list Z) (cells : list Cell)
    (proofs : list KZGProof) : res anyhow bool :=
  if negb (length commitments =? length cells)%nat || negb (length cells =? length proofs)%nat
     || negb (length proofs =? length cell_indices)%nat
  then Err "Length mismatch: commitments, cells, proofs, and cell_indices must have same length"%string
  else if existsb (fun c : KZGCommitment => negb (length c =? 48)%nat) commitments
  then Err "Invalid commitment length: expected 48 bytes"%string
  else if existsb (fun i => CELLS_PER_EXT_BLOB <=? i) cell_indices then Err "Invalid cell index"%string
  else if existsb (fun c : Cell => negb (length c =? Z.to_nat 2048)%nat) cells
  then Err "Invalid cell length: expected 2048 bytes"%string
  else if existsb (fun p : KZGProof => negb (length p =? 48)%nat) proofs
  then Err "Invalid proof length: expected 48 bytes"%string
  else kzg_verify_cells (cell_items commitments cell_indices cells proofs).

Definition verify_data_column_sidecar_kzg_proofs (sidecar : DataColumnSidecar) : res anyhow bool :=
  verify_cell_kzg_proof_batch (dc_kzg_commitments sidecar)
    (replicate (length (dc_column sidecar)) (dc_index sidecar)) (dc_column sidecar) (dc_kzg_proofs sidecar).

(** [offset..end]: the columns that fit in one batch, and the rest. *)
Fixpoint split_batch (cell_count : Z) (sidecars : list DataColumnSidecar) :
    list DataColumnSidecar * list DataColumnSidecar :=
  match sidecars with
  | [] => ([], [])
  | column :: rest =>
      let cells := Z.of_nat (length (dc_column column)) in
      if cell_count + cells <=? MAX_CELLS_PER_KZG_BATCH then
        let '(batch, rest') := split_batch (cell_count + cells) rest in (column :: batch, rest')
      else ([], sidecars)
  end.

Record Batch : Type := mkBatch {
  ba_commitments : list KZGCommitment; ba_indices : list Z; ba_cells : list Cell; ba_proofs : list KZGProof;
}.
Definition extend_batch (b : Batch) (column : DataColumnSidecar) : res anyhow Batch :=
  if negb (length (dc_column column) =? length (dc_kzg_commitments column))%nat
     || negb (length (dc_column column) =? length (dc_kzg_proofs column))%nat
  then Err "Length mismatch in data column sidecar"%string
  else Ok (mkBatch (ba_commitments b ++ dc_kzg_commitments column)
             (ba_indices b ++ replicate (length (dc_column column)) (dc_index column))
             (ba_cells b ++ dc_column column) (ba_proofs b ++ dc_kzg_proofs column)).

(** The outer loop moves forward by at least one column each time. *)
Fixpoint verify_batches (fuel : nat) (sidecars : list DataColumnSidecar) : res anyhow bool :=
  match sidecars with
  | [] => Ok true
  | _ =>
      match fuel with
      | O => NoFuel
      | S fuel' =>
          let '(batch, rest) := split_batch 0 sidecars in
          if bool_decide (length batch = O) then Err "Column exceeds KZG batch cell limit"%string
          else
            b ← foldM extend_batch (mkBatch [] [] [] []) batch;
            commitments ← ok_or (vl_try_from MaxBlobCommitmentsPerBlock (ba_commitments b)) "Invalid commitment batch"%string;
            cells ← ok_or (vl_try_from MaxBlobCommitmentsPerBlock (ba_cells b)) "Invalid cell batch"%string;
            proofs ← ok_or (vl_try_from MaxBlobCommitmentsPerBlock (ba_proofs b)) "Invalid proof batch"%string;
            ok ← verify_cell_kzg_proof_batch commitments (ba_indices b) cells proofs;
            if negb ok then Ok false else verify_batches fuel' rest
      end
  end.
Definition verify_data_column_sidecars_kzg_proofs (sidecars : list DataColumnSidecar) : res anyhow bool :=
  verify_batches (length sidecars) sidecars.

(** ** Building columns *)

Definition column_entry (column_index : Z) (row : list Cell * list KZGProof) : res anyhow (Cell * KZGProof) :=
  let '(cells, proofs) := row in
  let i := Z.to_nat column_index in
  if (length cells <=? i)%nat || (length proofs <=? i)%nat then Err "ColumnIndexOutOfBounds"%string
  else c ← index cells i; p ← index proofs i; Ok (c, p).

Definition build_column (header : SignedBeaconBlockHeader) (commitments : list KZGCommitment) (inclusion_proof : list B256)
    (rows : list (list Cell * list KZGProof)) (column_index : Z) : res anyhow DataColumnSidecar :=
  entries ← mapR (column_entry column_index) rows;
  column ← ok_or (vl_try_from MaxBlobCommitmentsPerBlock (fst <$> entries)) "DecodingError"%string;
  proofs ← ok_or (vl_try_from MaxBlobCommitmentsPerBlock (snd <$> entries)) "DecodingError"%string;
  Ok (mkDataColumnSidecar column_index column commitments proofs header inclusion_proof).

Definition get_data_column_sidecars (header : SignedBeaconBlockHeader) (commitments : list KZGCommitment)
    (inclusion_proof : list B256) (rows : list (list Cell * list KZGProof)) : res anyhow (list DataColumnSidecar) :=
  if negb (length rows =? length commitments)%nat then Err "CommitmentCountMismatch"%string
  else mapR (build_column header commitments inclusion_proof rows) (range 0 NUMBER_OF_COLUMNS).

Definition get_data_column_sidecars_from_column_sidecar (sidecar : DataColumnSidecar)
    (rows : list (list Cell * list KZGProof)) : res anyhow (list DataColumnSidecar) :=
  if negb (length rows =? length (dc_kzg_commitments sidecar))%nat then Err "CommitmentCountMismatch"%string
  else get_data_column_sidecars (dc_signed_block_header sidecar) (dc_kzg_commitments sidecar) (dc_inclusion_proof sidecar) rows.

(** ** Reconstruction *)

Definition recover_cells_and_kzg_proofs (cell_indices : list Z) (cells : list Cell) :
    res anyhow (list Cell * list KZGProof) :=
  if existsb (fun c : Cell => negb (length c =? Z.to_nat 2048)%nat) cells then Err "Cell length, expected 2048"%string
  else kzg_recover cell_indices cells.

Definition check_available (base : DataColumnSidecar) (seen : gset Z) (sidecar : DataColumnSidecar) : res anyhow (gset Z) :=
  ensure (bool_decide (dc_signed_block_header sidecar = dc_signed_block_header base)) "column belongs to another block"%string;;
  ensure (bool_decide (dc_index sidecar ∉ seen)) "column is given twice"%string;;
  ensure (length (dc_column sidecar) =? length (dc_kzg_commitments base))%nat "column has cells for another number of blobs"%string;;
  Ok ({[dc_index sidecar]} ∪ seen).

Definition recover_row (available : list DataColumnSidecar) (blob_index : nat) : res anyhow (list Cell * list KZGProof) :=
  cells ← mapR (fun sidecar => index (dc_column sidecar) blob_index) available;
  recover_cells_and_kzg_proofs (dc_index <$> available) cells.

Definition check_recovered (reconstructed : list DataColumnSidecar) (sidecar : DataColumnSidecar) : res anyhow unit :=
  column ← index reconstructed (Z.to_nat (dc_index sidecar));
  ensure (bool_decide (dc_column column = dc_column sidecar)) "recovered column differs from the column it was rebuilt from"%string.

Definition reconstruct_data_column_sidecars (available : list DataColumnSidecar) : res anyhow (list DataColumnSidecar) :=
  ensure (NUMBER_OF_COLUMNS / 2 <=? Z.of_nat (length available)) "reconstruction needs more columns"%string;;
  base ← index available 0;
  _ ← foldM (check_available base) ∅ available;
  rows ← mapR (recover_row available) (seq 0 (length (dc_kzg_commitments base)));
  reconstructed ← get_data_column_sidecars_from_column_sidecar base rows;
  _ ← mapR (check_recovered reconstructed) available;
  Ok reconstructed.

(** ** A batch verifies as its columns do *)

(** The cells of a column, each with its commitment and proof. *)
Definition column_items (s : DataColumnSidecar) : list CellItem :=
  cell_items (dc_kzg_commitments s) (replicate (length (dc_column s)) (dc_index s)) (dc_column s) (dc_kzg_proofs s).

Definition well_formed_cell (ci : CellItem) : bool :=
  (length (ci_commitment ci) =? 48)%nat && (ci_index ci <? CELLS_PER_EXT_BLOB)
  && (length (ci_cell ci) =? Z.to_nat 2048)%nat && (length (ci_proof ci) =? 48)%nat.

Definition same_lengths (s : DataColumnSidecar) : Prop :=
  length (dc_column s) = length (dc_kzg_commitments s) /\ length (dc_column s) = length (dc_kzg_proofs s).

Lemma cell_items_app cs1 cs2 ixs1 ixs2 cells1 cells2 ps1 ps2 :
  length cs1 = length ixs1 -> length cells1 = length ps1 -> length cs1 = length cells1 ->
  cell_items (cs1 ++ cs2) (ixs1 ++ ixs2) (cells1 ++ cells2) (ps1 ++ ps2) =
    cell_items cs1 ixs1 cells1 ps1 ++ cell_items cs2 ixs2 cells2 ps2.
Proof.
  intros E1 E2 E3. unfold cell_items. rewrite !zip_with_app by done. apply zip_with_app.
  rewrite !length_zip_with. lia.
Qed.

Lemma existsb_negb {A} (p : A -> bool) (l : list A) : existsb (fun a => negb (p a)) l = negb (forallb p l).
Proof. induction l as [|a l IH]; [done|]. cbn. rewrite IH. by destruct (p a). Qed.

(** The checks on the lists are checks on the cells. *)
Lemma well_formed_items cs ixs cells ps :
  length cs = length ixs -> length cs = length cells -> length cells = length ps ->
  forallb well_formed_cell (cell_items cs ixs cells ps) =
    forallb (fun c : KZGCommitment => (length c =? 48)%nat) cs && forallb (fun i => i <? CELLS_PER_EXT_BLOB) ixs
    && forallb (fun c : Cell => (length c =? Z.to_nat 2048)%nat) cells && forallb (fun p : KZGProof => (length p =? 48)%nat) ps.
Proof.
  revert ixs cells ps. induction cs as [|c cs IH]; intros [|i ixs] [|cell cells] [|p ps] E1 E2 E3; try done.
  cbn [length] in *. unfold cell_items in *. cbn [zip_with forallb]. rewrite IH by lia. unfold well_formed_cell at 1.
  cbn [ci_commitment ci_index ci_cell ci_proof fst snd].
  destruct (length c =? 48)%nat, (i <? CELLS_PER_EXT_BLOB), (length cell =? Z.to_nat 2048)%nat, (length p =? 48)%nat;
    cbn [andb]; rewrite ?andb_false_r; done.
Qed.

Context {belongs : CellItem -> bool} {KL : KzgLaws K belongs}.

Definition sound_cell (ci : CellItem) : bool := well_formed_cell ci && belongs ci.

Lemma batch_verifies cs ixs cells ps :
  verify_cell_kzg_proof_batch cs ixs cells ps = Ok true <->
  length cs = length cells /\ length cells = length ps /\ length ps = length ixs /\
  forallb sound_cell (cell_items cs ixs cells ps) = true.
Proof using KL.
  unfold verify_cell_kzg_proof_batch.
  destruct (length cs =? length cells)%nat eqn:E1; [|apply Nat.eqb_neq in E1; split; [done|intros (? & _); lia]].
  destruct (length cells =? length ps)%nat eqn:E2; [|apply Nat.eqb_neq in E2; split; [done|intros (_ & ? & _); lia]].
  destruct (length ps =? length ixs)%nat eqn:E3; [|apply Nat.eqb_neq in E3; split; [done|intros (_ & _ & ? & _); lia]].
  apply Nat.eqb_eq in E1, E2, E3. cbn [negb orb].
  assert (forallb sound_cell (cell_items cs ixs cells ps) =
    forallb well_formed_cell (cell_items cs ixs cells ps) && forallb belongs (cell_items cs ixs cells ps)) as ->.
  { generalize (cell_items cs ixs cells ps) as items. induction items as [|x items IH]; [done|]. cbn. rewrite IH. unfold sound_cell.
    destruct (well_formed_cell x), (belongs x); cbn; rewrite ?andb_false_r; done. }
  rewrite well_formed_items, !existsb_negb by lia.
  assert (existsb (fun i => CELLS_PER_EXT_BLOB <=? i) ixs = negb (forallb (fun i => i <? CELLS_PER_EXT_BLOB) ixs)) as ->.
  { generalize ixs as l. induction l as [|i l IH]; [done|]. cbn. rewrite IH, Z.leb_antisym. by destruct (i <? _). }
  destruct (forallb _ cs); cbn [negb andb]; [|split; [done|intros (_ & _ & _ & [=])]].
  destruct (forallb _ ixs); cbn [negb andb]; [|split; [done|intros (_ & _ & _ & [=])]].
  destruct (forallb _ cells); cbn [negb andb]; [|split; [done|intros (_ & _ & _ & [=])]].
  destruct (forallb _ ps); cbn [negb andb]; [|split; [done|intros (_ & _ & _ & [=])]].
  rewrite kzg_batch. tauto.
Qed.

Lemma sidecar_verifies s :
  verify_data_column_sidecar_kzg_proofs s = Ok true <-> same_lengths s /\ forallb sound_cell (column_items s) = true.
Proof using KL.
  unfold verify_data_column_sidecar_kzg_proofs. rewrite batch_verifies, length_replicate. unfold same_lengths, column_items.
  intuition congruence.
Qed.

Context {VL : SszVecLaws SV}.

Lemma split_batch_spec c l batch rest :
  split_batch c l = (batch, rest) ->
  l = batch ++ rest /\ (c <= MAX_CELLS_PER_KZG_BATCH ->
    c + Z.of_nat (length (concat (dc_column <$> batch))) <= MAX_CELLS_PER_KZG_BATCH).
Proof.
  revert c batch rest. induction l as [|x l IH]; intros c batch rest; cbn [split_batch].
  - intros [= <- <-]. split; [done|]. cbn. lia.
  - destruct (_ <=? _) eqn:E; [|intros [= <- <-]; split; [done|cbn; lia]].
    apply Z.leb_le in E. destruct (split_batch _ l) as [b r] eqn:Es. intros [= <- <-].
    destruct (IH _ _ _ Es) as [-> Hc]. split; [done|]. intros _. specialize (Hc E).
    cbn [fmap list_fmap concat]. rewrite length_app. lia.
Qed.

Definition batch_lengths (b : Batch) : Prop :=
  length (ba_commitments b) = length (ba_cells b) /\ length (ba_cells b) = length (ba_proofs b) /\
  length (ba_proofs b) = length (ba_indices b).
Definition batch_items (b : Batch) : list CellItem :=
  cell_items (ba_commitments b) (ba_indices b) (ba_cells b) (ba_proofs b).

Lemma extend_batch_Ok b column :
  extend_batch b column = Err "Length mismatch in data column sidecar"%string /\ ~ same_lengths column \/
  exists b', extend_batch b column = Ok b' /\ same_lengths column /\
    (batch_lengths b -> batch_lengths b' /\ batch_items b' = batch_items b ++ column_items column) /\
    ba_cells b' = ba_cells b ++ dc_column column.
Proof.
  unfold extend_batch, same_lengths.
  destruct (length (dc_column column) =? length (dc_kzg_commitments column))%nat eqn:E1; cbn [negb orb];
    [|apply Nat.eqb_neq in E1; left; split; [done|tauto]].
  destruct (length (dc_column column) =? length (dc_kzg_proofs column))%nat eqn:E2; cbn [negb];
    [|apply Nat.eqb_neq in E2; left; split; [done|tauto]].
  apply Nat.eqb_eq in E1, E2. right. eexists. split; [done|]. split; [done|]. split; [|done].
  intros (L1 & L2 & L3). unfold batch_lengths, batch_items, column_items.
  cbn [ba_commitments ba_indices ba_cells ba_proofs]. rewrite !length_app, length_replicate.
  split; [lia|]. apply cell_items_app; lia.
Qed.

Lemma extend_batches columns b :
  batch_lengths b ->
  (exists e, foldM extend_batch b columns = Err e /\ ~ Forall same_lengths columns) \/
  exists b', foldM extend_batch b columns = Ok b' /\ Forall same_lengths columns /\ batch_lengths b' /\
    batch_items b' = batch_items b ++ concat (column_items <$> columns) /\
    ba_cells b' = ba_cells b ++ concat (dc_column <$> columns).
Proof.
  revert b. induction columns as [|c columns IH]; intros b Hb; cbn [foldM].
  - right. exists b. cbn. rewrite !app_nil_r. auto.
  - destruct (extend_batch_Ok b c) as [[-> Hn]|(b1 & -> & Hc & Hl & Hcells)]; cbn [mbind res_bind].
    + left. eexists. split; [done|]. by inversion 1.
    + destruct (Hl Hb) as [Hb1 Hi]. destruct (IH b1 Hb1) as [(e & -> & Hn)|(b' & -> & Hall & Hb' & Hi' & Hcells')].
      * left. exists e. split; [done|]. by inversion 1.
      * right. exists b'. split_and!; [done|by constructor|done|..].
        -- rewrite Hi', Hi, <-app_assoc. done.
        -- rewrite Hcells', Hcells, <-app_assoc. done.
Qed.

Lemma forallb_concat {A} (p : A -> bool) (ls : list (list A)) : forallb p (concat ls) = forallb (forallb p) ls.
Proof. induction ls as [|l ls IH]; [done|]. cbn. by rewrite forallb_app, IH. Qed.

(** Within the limit of a batch. *)
Definition fits_batch (s : DataColumnSidecar) : Prop := Z.of_nat (length (dc_column s)) <= MAX_CELLS_PER_KZG_BATCH.

Lemma batches_verify fuel l :
  (length l <= fuel)%nat ->
  verify_batches fuel l = Ok true <->
    Forall (fun s => verify_data_column_sidecar_kzg_proofs s = Ok true /\ fits_batch s) l.
Proof using KL VL.
  revert l. induction fuel as [|fuel IH]; intros l Hf.
  { destruct l; [|cbn in Hf; lia]. cbn. split; [by constructor|done]. }
  destruct l as [|s0 l0] eqn:El; [cbn; split; [by constructor|done]|]. rewrite <-El in *. 
  assert (verify_batches (S fuel) l = (let '(batch, rest) := split_batch 0 l in
          if bool_decide (length batch = O) then Err "Column exceeds KZG batch cell limit"%string
          else
            b ← foldM extend_batch (mkBatch [] [] [] []) batch;
            commitments ← ok_or (vl_try_from MaxBlobCommitmentsPerBlock (ba_commitments b)) "Invalid commitment batch"%string;
            cells ← ok_or (vl_try_from MaxBlobCommitmentsPerBlock (ba_cells b)) "Invalid cell batch"%string;
            proofs ← ok_or (vl_try_from MaxBlobCommitmentsPerBlock (ba_proofs b)) "Invalid proof batch"%string;
            ok ← verify_cell_kzg_proof_batch commitments (ba_indices b) cells proofs;
            if negb ok then Ok false else verify_batches fuel rest)) as -> by (by rewrite El).
  destruct (split_batch 0 l) as [batch rest] eqn:Es. destruct (split_batch_spec _ _ _ _ Es) as [Hl Hc].
  specialize (Hc ltac:(done)). case_bool_decide as Hb.
  - split; [done|]. intros Hall. exfalso. destruct batch; [|done]. rewrite El in Es, Hall. cbn [split_batch] in Es.
    apply Forall_cons in Hall as [[_ Hfit] _]. unfold fits_batch in Hfit. rewrite (proj2 (Z.leb_le _ _)) in Es by lia.
    by destruct (split_batch _ l0).
  - destruct (extend_batches batch (mkBatch [] [] [] [])) as [(e & -> & Hn)|(b & -> & Hsame & Hlens & Hitems & Hcells)];
      [done|cbn [mbind res_bind]|cbn [mbind res_bind]].
    + split; [done|]. intros Hall. exfalso. apply Hn. rewrite Hl in Hall. apply Forall_app in Hall as [Hall _].
      eapply Forall_impl; [exact Hall|]. intros s [Hv _]. by apply sidecar_verifies in Hv as [? _].
    + cbn [ba_cells app] in Hcells. destruct Hlens as (L1 & L2 & L3).
      rewrite !vl_try_from_spec. rewrite <-Hcells in Hc.
      assert (forall m, m = length (ba_cells b) -> (Z.of_nat m <=? MaxBlobCommitmentsPerBlock) = true) as Hle.
      { intros m ->. apply Z.leb_le. exact Hc. }
      rewrite !Hle by lia. cbn [ok_or mbind res_bind].
      assert (Forall (fun s => verify_data_column_sidecar_kzg_proofs s = Ok true /\ fits_batch s) l <->
        verify_cell_kzg_proof_batch (ba_commitments b) (ba_indices b) (ba_cells b) (ba_proofs b) = Ok true /\
        Forall (fun s => verify_data_column_sidecar_kzg_proofs s = Ok true /\ fits_batch s) rest) as ->.
      { rewrite Hl at 1. rewrite Forall_app. apply and_iff_compat_r. rewrite batch_verifies.
        change (cell_items _ _ _ _) with (batch_items b). rewrite Hitems. cbn [batch_items cell_items ba_commitments ba_indices ba_cells ba_proofs zip_with app].
        rewrite forallb_concat, forallb_forall. split.
        - intros Hall. split_and!; [done..|]. intros items Hin%list_elem_of_In. apply list_elem_of_fmap in Hin as (s & -> & Hs).
          rewrite Forall_forall in Hall. destruct (Hall s Hs) as [Hv _]. by apply sidecar_verifies in Hv as [_ ?].
        - intros (_ & _ & _ & Hall). apply Forall_forall. intros s Hs. split.
          + apply sidecar_verifies. split; [rewrite Forall_forall in Hsame; by apply Hsame|].
            apply Hall, list_elem_of_In, list_elem_of_fmap. eauto.
          + unfold fits_batch. apply list_elem_of_split in Hs as (b1 & b2 & ->). rewrite Hcells in Hc.
            rewrite fmap_app, concat_app, length_app in Hc. cbn [fmap list_fmap concat] in Hc. rewrite length_app in Hc. lia. }
      destruct (verify_cell_kzg_proof_batch _ _ _ _) as [[]| | |]; cbn [mbind res_bind negb]; try (split; [done|intros [? ?]; congruence]).
      rewrite IH; [tauto|]. apply (f_equal length) in Hl. rewrite length_app in Hl. destruct batch; [done|]. cbn in *. lia.
Qed.

(** The fuel of the outer loop is enough. *)
Lemma batches_return {KR : KzgReturns K} fuel l : (length l <= fuel)%nat -> returns (verify_batches fuel l).
Proof.
  revert l. induction fuel as [|fuel IH]; intros l Hf; [by destruct l; [|cbn in Hf; lia]|].
  destruct l as [|s0 l0] eqn:El; [done|]. rewrite <-El in *. cbn [verify_batches]. rewrite El. rewrite <-El at 1.
  destruct (split_batch 0 l) as [batch rest] eqn:Es. destruct (split_batch_spec _ _ _ _ Es) as [Hl _].
  case_bool_decide as Hb; [done|].
  destruct (extend_batches batch (mkBatch [] [] [] [])) as [(e & -> & _)|(b & -> & _)]; [done|done|cbn [mbind res_bind]].
  do 3 (apply returns_bind; [auto with res|intros ? _]). apply returns_bind.
  - unfold verify_cell_kzg_proof_batch. repeat (case_match; [done|]). apply kzg_cells_return.
  - intros [] _; cbn [negb]; [|done]. apply IH. apply (f_equal length) in Hl. rewrite length_app in Hl.
    destruct batch; [done|]. cbn in *. lia.
Qed.

(** ** Reconstruction gives the columns of the block *)

Lemma cell_items_lookup cs ixs cells ps i c ix cell p :
  cs !! i = Some c -> ixs !! i = Some ix -> cells !! i = Some cell -> ps !! i = Some p ->
  cell_items cs ixs cells ps !! i = Some (mkCellItem c ix cell p).
Proof. intros E1 E2 E3 E4. unfold cell_items. rewrite !lookup_zip_with, E1, E2. cbn. by rewrite E3, E4. Qed.

(** What a verified column says about one of its cells. *)
Lemma verified_cell s i cell :
  verify_data_column_sidecar_kzg_proofs s = Ok true -> dc_column s !! i = Some cell ->
  exists c p, dc_kzg_commitments s !! i = Some c /\ dc_kzg_proofs s !! i = Some p /\
    sound_cell (mkCellItem c (dc_index s) cell p) = true.
Proof using KL.
  intros Hv Hcell. apply sidecar_verifies in Hv as [[L1 L2] Hall]. pose proof (lookup_lt_Some _ _ _ Hcell) as Hlt.
  destruct (lookup_lt_is_Some_2 (dc_kzg_commitments s) i ltac:(lia)) as [c Hc].
  destruct (lookup_lt_is_Some_2 (dc_kzg_proofs s) i ltac:(lia)) as [p Hp].
  exists c, p. split_and!; [done..|]. rewrite forallb_forall in Hall. apply Hall, list_elem_of_In, (list_elem_of_lookup_2 _ i).
  apply cell_items_lookup; [done|by apply lookup_replicate_2|done|done].
Qed.

(** The columns a reconstruction starts from: columns of one block, each verified, at
    least half of them and no index twice. *)
Record sound_columns (header : SignedBeaconBlockHeader) (commitments : list KZGCommitment) (available : list DataColumnSidecar) : Prop := {
  sc_half : NUMBER_OF_COLUMNS / 2 <= Z.of_nat (length available);
  sc_nodup : NoDup (dc_index <$> available);
  sc_limit : Z.of_nat (length commitments) <= MaxBlobCommitmentsPerBlock;
  sc_each : Forall (fun s => 0 <= dc_index s < NUMBER_OF_COLUMNS /\ dc_signed_block_header s = header /\
    dc_kzg_commitments s = commitments /\ verify_data_column_sidecar_kzg_proofs s = Ok true) available;
}.

Lemma sound_columns_In header commitments available s :
  sound_columns header commitments available -> s ∈ available ->
  0 <= dc_index s < NUMBER_OF_COLUMNS /\ dc_signed_block_header s = header /\
  dc_kzg_commitments s = commitments /\ verify_data_column_sidecar_kzg_proofs s = Ok true.
Proof. intros [_ _ _ Hall] Hs. rewrite Forall_forall in Hall. by apply Hall. Qed.

Lemma sound_columns_length header commitments available s :
  sound_columns header commitments available -> s ∈ available -> length (dc_column s) = length commitments.
Proof using KL. intros Hs Hin. destruct (sound_columns_In _ _ _ _ Hs Hin) as (_ & _ & <- & Hv). by apply sidecar_verifies in Hv as [[-> _] _]. Qed.

(** A row holds the cells the columns have of a blob, and every cell of it is sound. *)
Definition row_of (available : list DataColumnSidecar) (b : nat) (commitment : KZGCommitment) (row : list Cell * list KZGProof) : Prop :=
  length (fst row) = 128%nat /\ length (snd row) = 128%nat /\
  (forall s c, s ∈ available -> dc_column s !! b = Some c -> fst row !! Z.to_nat (dc_index s) = Some c) /\
  forall (i : nat) c p, fst row !! i = Some c -> snd row !! i = Some p ->
    sound_cell (mkCellItem commitment (Z.of_nat i) c p) = true.

Lemma recover_row_sound header commitments available b commitment :
  sound_columns header commitments available -> commitments !! b = Some commitment ->
  exists row, recover_row available b = Ok row /\ row_of available b commitment row.
Proof using KL.
  intros Hs Hb. pose proof (lookup_lt_Some _ _ _ Hb) as Hlt.
  assert (exists given, mapR (fun sidecar => @index anyhow _ (dc_column sidecar) b) available = Ok given) as [given Hg].
  { apply mapR_all. intros s Hin. destruct (lookup_lt_is_Some_2 (dc_column s) b) as [c Hc].
    { by rewrite (sound_columns_length _ _ _ _ Hs Hin). }
    exists c. by apply index_Ok. }
  assert (forall k s c, available !! k = Some s -> given !! k = Some c -> dc_column s !! b = Some c) as Hcol.
  { intros k s c Hk Hc. destruct (mapR_lookup _ _ _ _ _ Hg Hc) as (s' & Hs' & Hcell%index_Ok). by rewrite Hk in Hs'; injection Hs' as ->. }
  assert (forall k s c, available !! k = Some s -> given !! k = Some c ->
    exists p, sound_cell (mkCellItem commitment (dc_index s) c p) = true) as Hcell.
  { intros k s c Hk Hc. pose proof (list_elem_of_lookup_2 _ _ _ Hk) as Hin.
    destruct (sound_columns_In _ _ _ _ Hs Hin) as (_ & _ & Hcs & Hv).
    destruct (verified_cell s b c Hv (Hcol _ _ _ Hk Hc)) as (c' & p & Hc' & _ & Hsound).
    rewrite Hcs, Hb in Hc'. injection Hc' as <-. eauto. }
  pose proof (mapR_length _ _ _ Hg) as Hlen.
  assert (Forall (fun c : Cell => length c = Z.to_nat 2048) given) as Hgl.
  { apply Forall_lookup_2. intros k c Hc. destruct (lookup_lt_is_Some_2 available k) as [s Hk].
    { apply lookup_lt_Some in Hc. lia. }
    destruct (Hcell _ _ _ Hk Hc) as [p Hp]. unfold sound_cell, well_formed_cell in Hp. cbn [ci_cell] in Hp.
    rewrite !andb_true_iff in Hp. apply Nat.eqb_eq. apply Hp. }
  destruct (kzg_recovers commitment (dc_index <$> available) given) as (cells & proofs & E & L1 & L2 & Hcl & Hpl & Hback & Hall).
  - by apply Hs.
  - apply Forall_fmap, Forall_forall. intros s Hin. by apply (sound_columns_In _ _ _ _ Hs Hin).
  - by rewrite length_fmap, Hlen.
  - rewrite length_fmap. apply Hs.
  - done.
  - intros k i c Hi Hc. rewrite list_lookup_fmap in Hi. destruct (available !! k) as [s|] eqn:Hk; [|done]. injection Hi as <-.
    destruct (Hcell _ _ _ Hk Hc) as [p Hp]. exists p. by apply andb_true_iff in Hp as [_ ?].
  - exists (cells, proofs). split.
    + unfold recover_row. rewrite Hg. cbn [mbind res_bind]. unfold recover_cells_and_kzg_proofs. rewrite existsb_negb.
      rewrite (proj2 (forallb_forall _ _)); [done|]. intros c Hc%list_elem_of_In. rewrite Forall_forall in Hgl. by apply Nat.eqb_eq, Hgl.
    + split_and!; [done..| |].
      * intros s c Hin Hc. apply list_elem_of_lookup in Hin as [k Hk]. destruct (lookup_lt_is_Some_2 given k) as [c' Hc'].
        { apply lookup_lt_Some in Hk. lia. }
        pose proof (Hcol _ _ _ Hk Hc') as Ec. rewrite Hc in Ec. injection Ec as <-.
        apply (Hback k); [by rewrite list_lookup_fmap, Hk|done].
      * cbn [fst snd]. intros i c p Hc Hp. unfold sound_cell. rewrite (Hall _ _ _ Hc Hp), andb_true_r. rewrite Forall_forall in Hcl, Hpl.
        unfold well_formed_cell. cbn [ci_commitment ci_index ci_cell ci_proof].
        rewrite (Hcl c) by by eapply list_elem_of_lookup_2. rewrite (Hpl p) by by eapply list_elem_of_lookup_2.
        rewrite (proj2 (Z.ltb_lt _ _)) by (apply lookup_lt_Some in Hc; unfold CELLS_PER_EXT_BLOB; lia).
        destruct (available) as [|s0 a0] eqn:Ea; [exfalso; pose proof (sc_half _ _ _ Hs) as Hh; by cbv in Hh|].
        destruct (lookup_lt_is_Some_2 given 0) as [c0 Hc0]; [cbn in Hlen; lia|].
        destruct (Hcell 0%nat s0 c0 eq_refl Hc0) as [p0 Hp0]. unfold sound_cell, well_formed_cell in Hp0.
        cbn [ci_commitment] in Hp0. destruct (length commitment =? 48)%nat; [done|by cbn in Hp0].
Qed.

(** The rows of a block's blobs. *)
Definition rows_of (available : list DataColumnSidecar) (commitments : list KZGCommitment) (rows : list (list Cell * list KZGProof)) : Prop :=
  length rows = length commitments /\
  forall b row commitment, rows !! b = Some row -> commitments !! b = Some commitment -> row_of available b commitment row.

Lemma recover_rows_sound header commitments available :
  sound_columns header commitments available ->
  exists rows, mapR (recover_row available) (seq 0 (length commitments)) = Ok rows /\ rows_of available commitments rows.
Proof using KL.
  intros Hs. destruct (mapR_all (recover_row available) (seq 0 (length commitments))) as [rows Hr].
  { intros b Hb%elem_of_seq. destruct (lookup_lt_is_Some_2 commitments b) as [c Hc]; [lia|].
    destruct (recover_row_sound _ _ _ _ _ Hs Hc) as (row & E & _). eauto. }
  exists rows. split; [done|]. split; [by rewrite (mapR_length _ _ _ Hr), length_seq|].
  intros b row c Hrow Hc. destruct (mapR_lookup _ _ _ _ _ Hr Hrow) as (b' & [-> _]%lookup_seq & E).
  destruct (recover_row_sound _ _ _ _ _ Hs Hc) as (row' & E' & Hrow'). cbn in E. rewrite E in E'. by injection E' as <-.
Qed.

(** The column of an index: the rows' cells there, in order of their blobs. *)
Lemma build_column_sound header commitments available inclusion rows i :
  rows_of available commitments rows -> Z.of_nat (length commitments) <= MaxBlobCommitmentsPerBlock -> 0 <= i < NUMBER_OF_COLUMNS ->
  exists s, build_column header commitments inclusion rows i = Ok s /\
    dc_index s = i /\ dc_kzg_commitments s = commitments /\ dc_signed_block_header s = header /\ dc_inclusion_proof s = inclusion /\
    verify_data_column_sidecar_kzg_proofs s = Ok true /\
    forall b row, rows !! b = Some row -> dc_column s !! b = fst row !! Z.to_nat i.
Proof using KL VL.
  intros [Hlen Hrows] Hlim Hi. change NUMBER_OF_COLUMNS with 128 in Hi.
  set (entry (row : list Cell * list KZGProof) := (nth (Z.to_nat i) (fst row) [], nth (Z.to_nat i) (snd row) [])).
  assert (forall b row, rows !! b = Some row -> exists commitment c p, commitments !! b = Some commitment /\
    fst row !! Z.to_nat i = Some c /\ snd row !! Z.to_nat i = Some p /\ entry row = (c, p) /\
    sound_cell (mkCellItem commitment i c p) = true) as Hentry.
  { intros b row Hb. destruct (lookup_lt_is_Some_2 commitments b) as [commitment Hc].
    { apply lookup_lt_Some in Hb. lia. }
    destruct (Hrows _ _ _ Hb Hc) as (L1 & L2 & _ & Hall).
    destruct (lookup_lt_is_Some_2 (fst row) (Z.to_nat i)) as [c Ec]; [lia|].
    destruct (lookup_lt_is_Some_2 (snd row) (Z.to_nat i)) as [p Ep]; [lia|].
    exists commitment, c, p. split_and!; [done..|unfold entry; by rewrite (nth_lookup_Some _ _ _ _ Ec), (nth_lookup_Some _ _ _ _ Ep)|].
    specialize (Hall _ _ _ Ec Ep). by rewrite Z2Nat.id in Hall by lia. }
  clearbody entry.
  exists (mkDataColumnSidecar i ((entry <$> rows).*1) commitments ((entry <$> rows).*2) header inclusion).
  split; [|split_and!; [done..| |]].
  - unfold build_column. rewrite (mapR_fmap _ entry).
    + cbn [mbind res_bind]. rewrite !vl_try_from_spec, !length_fmap. rewrite (proj2 (Z.leb_le _ _)) by lia. done.
    + intros row [b Hb]%list_elem_of_lookup. destruct (Hentry _ _ Hb) as (commitment & c & p & _ & Ec & Ep & -> & _).
      destruct row as [cells proofs]. cbn [fst snd] in Ec, Ep. unfold column_entry.
      pose proof (lookup_lt_Some _ _ _ Ec). pose proof (lookup_lt_Some _ _ _ Ep).
      rewrite !(proj2 (Nat.leb_gt _ _)) by done. cbn [orb]. rewrite (proj2 (index_Ok _ _ _) Ec), (proj2 (index_Ok _ _ _) Ep). done.
  - apply sidecar_verifies. unfold same_lengths, column_items. cbn [dc_column dc_kzg_commitments dc_kzg_proofs dc_index].
    rewrite !length_fmap. split; [done|]. apply forallb_forall. intros item Hitem%list_elem_of_In.
    apply list_elem_of_lookup in Hitem as [b Hb]. unfold cell_items in Hb.
    apply lookup_zip_with_Some in Hb as ([c0 i0] & [cell p0] & -> & [Hc0 Hi0]%lookup_zip_Some & [Hcell Hp0]%lookup_zip_Some).
    apply lookup_replicate in Hi0 as [-> _]. cbn [fst snd].
    rewrite !list_lookup_fmap in Hcell, Hp0. destruct (rows !! b) as [row|] eqn:Hrow; [|done]. cbn in Hcell, Hp0.
    destruct (Hentry _ _ Hrow) as (c & cell' & p' & Hc' & _ & _ & E & Hsound). rewrite E in *. cbn in Hcell, Hp0. congruence.
  - intros b row Hb. cbn [dc_column]. rewrite !list_lookup_fmap, Hb. cbn.
    destruct (Hentry _ _ Hb) as (? & c & ? & _ & -> & _ & -> & _). done.
Qed.

(** ** The reconstruction returns, and returns the columns of the block *)
Lemma check_available_all base available :
  Forall (fun s => dc_signed_block_header s = dc_signed_block_header base /\
                   length (dc_column s) = length (dc_kzg_commitments base)) available ->
  NoDup (dc_index <$> available) -> exists seen, foldM (check_available base) ∅ available = Ok seen.
Proof.
  intros Hall Hnd. assert (forall i, i ∈ (dc_index <$> available) -> i ∉ (∅ : gset Z)) as Hout by set_solver.
  revert Hout. generalize (∅ : gset Z) as seen. induction Hall as [|s available [H1 H2] Hall IH]; intros seen Hout; cbn [foldM]; [eauto|].
  cbn [fmap list_fmap] in *. apply NoDup_cons in Hnd as [Hn Hnd].
  assert (check_available base seen s = Ok ({[dc_index s]} ∪ seen)) as ->.
  { unfold check_available. rewrite bool_decide_eq_true_2, bool_decide_eq_true_2, (proj2 (Nat.eqb_eq _ _)) by (done || (apply Hout; set_solver)). done. }
  apply IH; [done|]. intros i Hi. specialize (Hout i ltac:(set_solver)). set_solver.
Qed.

(** What is rebuilt: every column, each one verifying, and those given among them. *)
Definition rebuilt (commitments : list KZGCommitment) (available rs : list DataColumnSidecar) : Prop :=
  length rs = Z.to_nat NUMBER_OF_COLUMNS /\
  (forall (i : nat) s, rs !! i = Some s ->
     dc_index s = Z.of_nat i /\ dc_kzg_commitments s = commitments /\
     verify_data_column_sidecar_kzg_proofs s = Ok true /\
     exists base, base ∈ available /\ dc_signed_block_header s = dc_signed_block_header base /\
       dc_inclusion_proof s = dc_inclusion_proof base) /\
  forall s, s ∈ available -> exists s', rs !! Z.to_nat (dc_index s) = Some s' /\ dc_column s' = dc_column s.

Lemma reconstruct_sound header commitments available :
  sound_columns header commitments available ->
  exists rs, reconstruct_data_column_sidecars available = Ok rs /\ rebuilt commitments available rs.
Proof using KL VL.
  intros Hs. destruct available as [|base rest] eqn:Ea; [exfalso; pose proof (sc_half _ _ _ Hs) as Hh; by cbv in Hh|].
  rewrite <-Ea in *. assert (base ∈ available) as Hbase by (subst; set_solver).
  destruct (sound_columns_In _ _ _ _ Hs Hbase) as (_ & Hbh & Hbc & _).
  destruct (check_available_all base available) as [seen Hseen]; [|apply Hs|].
  { apply Forall_forall. intros s Hin. split; [|rewrite Hbc; by eapply sound_columns_length].
    destruct (sound_columns_In _ _ _ _ Hs Hin) as (_ & -> & _). done. }
  destruct (recover_rows_sound _ _ _ Hs) as (rows & Hrows & Hro).
  pose proof (fun i => build_column_sound header commitments available (dc_inclusion_proof base) rows i Hro (sc_limit _ _ _ Hs)) as Hbuild.
  destruct (mapR_all (build_column header commitments (dc_inclusion_proof base) rows) (range 0 NUMBER_OF_COLUMNS)) as [rs Hrs].
  { intros i Hi%elem_of_seqZ. destruct (Hbuild i) as (s & -> & _); [lia|eauto]. }
  assert (forall (i : nat) s, rs !! i = Some s -> 0 <= Z.of_nat i < NUMBER_OF_COLUMNS /\
    build_column header commitments (dc_inclusion_proof base) rows (Z.of_nat i) = Ok s) as Hat.
  { intros i s Hi. destruct (mapR_lookup _ _ _ _ _ Hrs Hi) as (j & [-> ?]%lookup_seqZ & E). split; [lia|exact E]. }
  assert (length rs = Z.to_nat NUMBER_OF_COLUMNS) as Hlen by (by rewrite (mapR_length _ _ _ Hrs)).
  assert (forall s, s ∈ available -> exists s', rs !! Z.to_nat (dc_index s) = Some s' /\ dc_column s' = dc_column s) as Hback.
  { intros s Hin. destruct (sound_columns_In _ _ _ _ Hs Hin) as (Hi & _).
    destruct (lookup_lt_is_Some_2 rs (Z.to_nat (dc_index s))) as [s' Hs']; [change NUMBER_OF_COLUMNS with 128 in *; lia|].
    exists s'. split; [done|]. destruct (Hat _ _ Hs') as [_ E]. rewrite Z2Nat.id in E by lia.
    destruct (Hbuild (dc_index s) Hi) as (s'' & E' & _ & Hcs & _ & _ & Hv & Hcol). rewrite E in E'. injection E' as <-.
    destruct Hro as [Hrl Hro]. apply list_eq_same_length with (n := length commitments);
      [by eapply sound_columns_length|by apply sidecar_verifies in Hv as [[-> _] _]; rewrite Hcs|].
    intros b c1 c2 Hb Hc1 Hc2. destruct (lookup_lt_is_Some_2 rows b) as [row Hrow]; [lia|].
    destruct (lookup_lt_is_Some_2 commitments b Hb) as [commitment Hc]. rewrite (Hcol _ _ Hrow) in Hc1.
    destruct (Hro _ _ _ Hrow Hc) as (_ & _ & Hrb & _). rewrite (Hrb _ _ Hin Hc2) in Hc1. congruence. }
  exists rs. split.
  - unfold reconstruct_data_column_sidecars. rewrite (proj2 (Z.leb_le _ _) (sc_half _ _ _ Hs)). cbn [ensure mbind res_bind].
    assert (@index anyhow _ available 0 = Ok base) as -> by (by rewrite Ea). cbn [mbind res_bind].
    rewrite Hseen. cbn [mbind res_bind]. rewrite Hbc, Hrows. cbn [mbind res_bind].
    unfold get_data_column_sidecars_from_column_sidecar, get_data_column_sidecars. rewrite Hbc, (proj1 Hro), Nat.eqb_refl, Hbh, Hrs.
    cbn [negb mbind res_bind]. rewrite (mapR_fmap _ (fun _ => tt)); [done|]. intros s Hin.
    destruct (Hback s Hin) as (s' & Hs' & Hcol). unfold check_recovered. rewrite (proj2 (index_Ok _ _ _) Hs'). cbn [mbind res_bind].
    by rewrite bool_decide_eq_true_2.
  - split_and!; [done| |done]. intros i s Hi. destruct (Hat _ _ Hi) as [Hb E].
    destruct (Hbuild _ Hb) as (s' & E' & H1 & H2 & H3 & H4 & H5 & _). rewrite E in E'. injection E' as <-.
    split_and!; [done..|]. exists base. split_and!; [done|by rewrite H3|done].
Qed.

(** ** Theorems *)

(** C26: verifying a response of many columns in batches of at most 4096 cells accepts exactly
    the responses whose every column verifies by itself and fits in a batch. *)
Theorem batched_columns_verify sidecars :
  verify_data_column_sidecars_kzg_proofs sidecars = Ok true <->
    Forall (fun s => verify_data_column_sidecar_kzg_proofs s = Ok true /\ fits_batch s) sidecars.
Proof using KL VL. by apply batches_verify. Qed.

(** C27: from at least half of a block's columns, each verified and none twice, the
    reconstruction returns all 128: each under its own index, verifying against the
    commitments of the block, with the header and inclusion proof of a column given; and
    the columns given are among them. *)
Theorem reconstruction_sound header commitments available :
  sound_columns header commitments available ->
  exists rs, reconstruct_data_column_sidecars available = Ok rs /\ rebuilt commitments available rs.
Proof using KL VL. apply reconstruct_sound. Qed.
End columns.

(** ** A concrete commitment scheme

    The polynomials are constant: a cell is its commitment, padded. *)
Module KzgEx.
Import BeaconEx.
#[local] Existing Instance vec_laws.
#[local] Existing Instance vec.

Definition cell_of (commitment : KZGCommitment) : Cell := commitment ++ replicate (Z.to_nat 2000) 0.
Definition belongs (ci : CellItem) : bool :=
  (length (ci_commitment ci) =? 48)%nat && bool_decide (ci_cell ci = cell_of (ci_commitment ci))
  && bool_decide (ci_proof ci = ci_commitment ci).
Definition kzg : Kzg := {|
  kzg_verify_blobs := fun blobs commitments proofs => Ok (bool_decide (proofs = commitments));
  kzg_verify_cells := fun items => Ok (forallb belongs items);
  kzg_recover := fun indices cells =>
    match cells with
    | c :: _ => Ok (replicate 128 c, replicate 128 (take 48 c))
    | [] => Err "not enough cells"%string
    end;
|}.
#[local] Existing Instance kzg.

Lemma kzg_laws : KzgLaws kzg belongs.
Proof.
  split; [intros items; cbn; split; congruence|].
  intros commitment indices cells _ Hrange Hlen Hhalf _ Hb.
  destruct cells as [|c cells']; [destruct indices; [by cbv in Hhalf|done]|]. set (cells := c :: cells') in *.
  assert (length commitment = 48%nat /\ forall k c', cells !! k = Some c' -> c' = cell_of commitment) as [Hc Hall].
  { assert (forall k c', cells !! k = Some c' -> length commitment = 48%nat /\ c' = cell_of commitment) as Hk.
    { intros k c' Hk. destruct (lookup_lt_is_Some_2 indices k) as [i Hi]; [apply lookup_lt_Some in Hk; lia|].
      destruct (Hb k i c' Hi Hk) as [p Hp]. unfold belongs in Hp. cbn [ci_commitment ci_cell ci_proof] in Hp. by b2p. }
    split; [by apply (Hk 0%nat c)|]. intros k c' Hc'. by apply (Hk k). }
  assert (c = cell_of commitment) as -> by (by apply (Hall 0%nat)).
  assert (take 48 (cell_of commitment) = commitment) as Htake.
  { unfold cell_of. rewrite take_app_le, take_ge by lia. done. }
  eexists _, _. split; [done|]. rewrite Htake. split; [by rewrite length_replicate|]. split; [by rewrite length_replicate|].
  split; [apply Forall_replicate; unfold cell_of; rewrite length_app, length_replicate, Hc; lia|].
  split; [by apply Forall_replicate|]. split.
  - intros k i c' Hi Hc'. rewrite (Hall _ _ Hc'). apply lookup_replicate_2. rewrite Forall_forall in Hrange.
    pose proof (Hrange i (list_elem_of_lookup_2 _ _ _ Hi)) as Hr. unfold CELLS_PER_EXT_BLOB in Hr. lia.
  - intros i c' p [-> _]%lookup_replicate [-> _]%lookup_replicate. unfold belongs. cbn [ci_commitment ci_cell ci_proof].
    by rewrite Hc, !bool_decide_eq_true_2.
Qed.
Lemma kzg_returns : KzgReturns kzg.
Proof. by split. Qed.
#[local] Existing Instance kzg_laws.

(** A block of one blob, its header, and its columns. *)
Definition commitment : KZGCommitment := replicate 48 1.
Definition header : SignedBeaconBlockHeader :=
  mkSignedBeaconBlockHeader (mkBeaconBlockHeader 330 1 (word 5) (word 6) (word 0)) (mkBLSSignature []).
Definition column (h : SignedBeaconBlockHeader) (i : Z) : DataColumnSidecar :=
  mkDataColumnSidecar i [cell_of commitment] [commitment] [commitment] h (replicate 4 (word 0)).
Definition half (h : SignedBeaconBlockHeader) : list DataColumnSidecar := column h <$> range 0 64.

Lemma column_verifies h i : 0 <= i < NUMBER_OF_COLUMNS -> verify_data_column_sidecar_kzg_proofs (column h i) = Ok true.
Proof.
  intros Hi. apply sidecar_verifies. split; [by split|]. cbn. unfold sound_cell, well_formed_cell.
  cbn [ci_index ci_commitment ci_cell ci_proof]. change NUMBER_OF_COLUMNS with CELLS_PER_EXT_BLOB in Hi.
  rewrite (proj2 (Z.ltb_lt _ _)) by lia. vm_compute. reflexivity.
Qed.

Lemma half_sound h : sound_columns h [commitment] (half h).
Proof.
  assert (dc_index <$> half h = range 0 64) as Hi by reflexivity.
  split; [done| |done|].
  - rewrite Hi. apply NoDup_seqZ.
  - apply Forall_forall. intros s (i & -> & Hr%elem_of_seqZ)%list_elem_of_fmap.
    assert (0 <= i < NUMBER_OF_COLUMNS) as Hb by (change NUMBER_OF_COLUMNS with 128; lia).
    split; [exact Hb|]. split; [done|]. split; [done|]. by apply column_verifies.
Qed.

Lemma batched_columns_verify_witness : verify_data_column_sidecars_kzg_proofs (half header) = Ok true.
Proof.
  apply (batched_columns_verify (K := kzg) (belongs := belongs) (VL := vec_laws)). apply Forall_forall.
  intros s Hs. split; [by apply (sound_columns_In _ _ _ _ (half_sound header) Hs)|].
  apply list_elem_of_fmap in Hs as (i & -> & _). done.
Defined.

Lemma reconstruction_sound_witness :
  exists rs, reconstruct_data_column_sidecars (half header) = Ok rs /\ rebuilt [commitment] (half header) rs.
Proof. exact (reconstruction_sound (K := kzg) (belongs := belongs) (VL := vec_laws) header [commitment] (half header) (half_sound header)). Defined.
End KzgEx.
