(* ===== verification/BlockCache.v ===== *)
(** * The cache of a range sync

    [crates/networking/syncer/src/block_range/block_cache.rs]: what a node that is behind
    has downloaded of the blocks ahead of it, with their blobs and data columns; what it
    asked for and of whom; and what it asks for next.

    A block's columns are verified in one batch per response and, when half of them are
    there and no more are on their way, the rest is rebuilt.  Peers and instants come from
    other libraries: a peer is any type with decidable equality, an instant a number of
    nanoseconds. *)

From stdpp Require Import strings.
From S2P Require Import Prelude Bytes Shuffling Merkle BeaconTypes BeaconAccess BeaconTransition BeaconStore DataAvailability BeaconConcrete DataColumns.

Definition MAX_BLOCKS_PER_REQUEST : Z := 10.
Definition ATTEMPT_COOLDOWN : Z := 30 * 1000000000.

Record Range : Type := mkRange { start_slot : Z; count : Z }.
#[global] Instance Range_eq_dec : EqDecision Range.
Proof. solve_decision. Defined.
#[global] Instance Range_countable : Countable Range.
Proof. refine (inj_countable' (fun r => (start_slot r, count r)) (fun p => mkRange p.1 p.2) _). by intros []. Defined.

Record BlobIdentifier : Type := mkBlobIdentifier { bi_block_root : B256; bi_index : Z }.
#[global] Instance BlobIdentifier_eq_dec : EqDecision BlobIdentifier.
Proof. solve_decision. Defined.
#[global] Instance BlobIdentifier_countable : Countable BlobIdentifier.
Proof. refine (inj_countable' (fun r => (bi_block_root r, bi_index r)) (fun p => mkBlobIdentifier p.1 p.2) _). by intros []. Defined.

Record ColumnIdentifier : Type := mkColumnIdentifier { co_block_root : B256; co_index : Z }.
#[global] Instance ColumnIdentifier_eq_dec : EqDecision ColumnIdentifier.
Proof. solve_decision. Defined.
#[global] Instance ColumnIdentifier_countable : Countable ColumnIdentifier.
Proof. refine (inj_countable' (fun r => (co_block_root r, co_index r)) (fun p => mkColumnIdentifier p.1 p.2) _). by intros []. Defined.

Inductive RequestKey : Type :=
  | KeyBlockRange (r : Range)
  | KeyColumnRange (r : Range)
  | KeyBlockRoot (root : B256)
  | KeyBlob (b : BlobIdentifier)
  | KeyColumn (c : ColumnIdentifier).
#[global] Instance RequestKey_eq_dec : EqDecision RequestKey.
Proof. solve_decision. Defined.
#[global] Instance RequestKey_countable : Countable RequestKey.
Proof.
  refine (inj_countable'
    (fun k => match k with
      | KeyBlockRange r => inl (inl r) | KeyColumnRange r => inl (inr r)
      | KeyBlockRoot r => inr (inl r) | KeyBlob b => inr (inr (inl b)) | KeyColumn c => inr (inr (inr c))
      end)
    (fun s : (Range + Range) + (B256 + (BlobIdentifier + ColumnIdentifier)) => match s with
      | inl (inl r) => KeyBlockRange r | inl (inr r) => KeyColumnRange r
      | inr (inl r) => KeyBlockRoot r | inr (inr (inl b)) => KeyBlob b | inr (inr (inr c)) => KeyColumn c
      end) _).
  by intros [].
Defined.

Inductive SyncPhase : Type := PhaseFinalized | PhaseHead.
Record FrontierObservation : Type := mkFrontierObservation {
  fo_anchor_root : B256;
  fo_anchor_slot : Z;
  fo_phase : SyncPhase;
  fo_scan_start_slot : Z;
  fo_target_slot : Z;
}.

Inductive DataToFetch : Type :=
  | FetchBlockRange (r : Range)
  | FetchDataColumnRange (r : Range)
  | MissingBlockRoots (roots : list B256)
  | MissingBlobIdentifiers (identifiers : list BlobIdentifier)
  | MissingDataColumnIdentifiers (identifiers : list ColumnIdentifier)
  | DownloadsInProgress
  | ParentsExhausted
  | RangeExhausted
  | Finished.

(** Sidecars are only asked for within their retention window. *)
Definition is_data_availability_check_required (block_epoch current_epoch fulu_fork_epoch retention_epochs : Z) : bool :=
  let boundary_epoch := Z.max fulu_fork_epoch (saturating_sub current_epoch retention_epochs) in
  boundary_epoch <=? block_epoch.

(** [as_ssz_bytes().len()] of a block. *)
Class SszBytesLen : Type := ssz_bytes_len : SignedBeaconBlock -> Z.

Section cache.
Context {PeerId : Type} {PE : EqDecision PeerId} {PC : Countable PeerId}.
Context {H : Sha256} {SV : SszVec} {N : BeaconNetworkSpec} {FS : ForkChoiceSpec} {CR : CommitmentRoots} {K : Kzg}.
Context {R : Roots} {BH : TreeHash BeaconBlock} {HO : HashOrder} {SB : SszBytesLen}.

Record CoverageAnchor : Type := mkCoverageAnchor {
  ca_frontier : FrontierObservation;
  ca_original_parent_root : B256;
  ca_original_parent_slot : Z;
  ca_covered_through_slot : Z;
  ca_confirming_peers : gset PeerId;
}.

Inductive AddBlocksError : Type :=
  | InvalidBatch (error : anyhow)
  | CoverageDivergence (expected_parent actual_parent : B256) (anchor : CoverageAnchor).
Definition invalid_batch {A} (r : res anyhow A) : res AddBlocksError A :=
  match r with Ok a => Ok a | Err e => Err (InvalidBatch e) | Panic => Panic | NoFuel => NoFuel end.
Definition AddBlocksError_display (e : AddBlocksError) : anyhow :=
  match e with InvalidBatch _ => "invalid batch"%string | CoverageDivergence _ _ _ => "coverage divergence"%string end.

Record AttemptState : Type := mkAttemptState { attempted_peers : gset PeerId; cooldown_until : option Z }.
Definition AttemptState_default : AttemptState := mkAttemptState ∅ None.

Record BlockAndBlobBundle : Type := mkBundle {
  bu_block : SignedBeaconBlock;
  bu_blobs : gmap BlobIdentifier BlobSidecar;
  bu_columns : gmap ColumnIdentifier DataColumnSidecar;
  bu_source_peer : PeerId;
}.
Definition bundle_new (block : SignedBeaconBlock) (source_peer : PeerId) : BlockAndBlobBundle := mkBundle block ∅ ∅ source_peer.

Definition root_of (block : SignedBeaconBlock) : B256 := tree_hash_root (sb_message block).
Definition slot_of (block : SignedBeaconBlock) : Z := b_slot (sb_message block).
Definition parent_of (block : SignedBeaconBlock) : B256 := b_parent_root (sb_message block).
Definition commitments_of (block : SignedBeaconBlock) : list KZGCommitment := blob_kzg_commitments (b_body (sb_message block)).

Definition check_link (blocks : list SignedBeaconBlock) (i : nat) : res anyhow unit :=
  if (0 <? i)%nat then
    block ← index blocks i;
    previous ← index blocks (i - 1);
    ensure (bool_decide (parent_of block = root_of previous)) "parent root does not match the previous block's root"%string;;
    ensure (slot_of previous <? slot_of block) "does not have a strictly increasing slot"%string
  else Ok tt.
Definition validate_range_chain (blocks : list SignedBeaconBlock) : res anyhow unit :=
  foldM (fun _ i => check_link blocks i) tt (reverse (seq 0 (length blocks))).

Record BlockCache : Type := mkBlockCache {
  bc_blocks_and_blobs : gmap B256 BlockAndBlobBundle;
  bc_known_parent_roots : gset B256;
  bc_current_cache_size : Z;
  bc_initial_parent_root : B256;
  bc_block_ranges_to_retry : list Range;
  bc_initial_slot : Z;
  bc_next_start_slot : Z;
  bc_block_ranges_in_progress : gset Range;
  bc_block_roots_in_progress : gset B256;
  bc_blob_identifiers_in_progress : gset BlobIdentifier;
  bc_column_ranges_to_fetch : list Range;
  bc_column_ranges_in_progress : gmap Range Z;
  bc_data_column_identifiers_in_progress : gset ColumnIdentifier;
  bc_attempts : gmap RequestKey AttemptState;
  bc_coverage_anchor : option CoverageAnchor;
}.

Definition set_blocks_and_blobs (v : gmap B256 BlockAndBlobBundle) (c : BlockCache) : BlockCache :=
  mkBlockCache v (bc_known_parent_roots c) (bc_current_cache_size c) (bc_initial_parent_root c)
    (bc_block_ranges_to_retry c) (bc_initial_slot c) (bc_next_start_slot c)
    (bc_block_ranges_in_progress c) (bc_block_roots_in_progress c)
    (bc_blob_identifiers_in_progress c) (bc_column_ranges_to_fetch c)
    (bc_column_ranges_in_progress c) (bc_data_column_identifiers_in_progress c) (bc_attempts c)
    (bc_coverage_anchor c).
Definition set_known_parent_roots (v : gset B256) (c : BlockCache) : BlockCache :=
  mkBlockCache (bc_blocks_and_blobs c) v (bc_current_cache_size c) (bc_initial_parent_root c)
    (bc_block_ranges_to_retry c) (bc_initial_slot c) (bc_next_start_slot c)
    (bc_block_ranges_in_progress c) (bc_block_roots_in_progress c)
    (bc_blob_identifiers_in_progress c) (bc_column_ranges_to_fetch c)
    (bc_column_ranges_in_progress c) (bc_data_column_identifiers_in_progress c) (bc_attempts c)
    (bc_coverage_anchor c).
Definition set_current_cache_size (v : Z) (c : BlockCache) : BlockCache :=
  mkBlockCache (bc_blocks_and_blobs c) (bc_known_parent_roots c) v (bc_initial_parent_root c)
    (bc_block_ranges_to_retry c) (bc_initial_slot c) (bc_next_start_slot c)
    (bc_block_ranges_in_progress c) (bc_block_roots_in_progress c)
    (bc_blob_identifiers_in_progress c) (bc_column_ranges_to_fetch c)
    (bc_column_ranges_in_progress c) (bc_data_column_identifiers_in_progress c) (bc_attempts c)
    (bc_coverage_anchor c).
Definition set_initial_parent_root (v : B256) (c : BlockCache) : BlockCache :=
  mkBlockCache (bc_blocks_and_blobs c) (bc_known_parent_roots c) (bc_current_cache_size c) v
    (bc_block_ranges_to_retry c) (bc_initial_slot c) (bc_next_start_slot c)
    (bc_block_ranges_in_progress c) (bc_block_roots_in_progress c)
    (bc_blob_identifiers_in_progress c) (bc_column_ranges_to_fetch c)
    (bc_column_ranges_in_progress c) (bc_data_column_identifiers_in_progress c) (bc_attempts c)
    (bc_coverage_anchor c).
Definition set_block_ranges_to_retry (v : list Range) (c : BlockCache) : BlockCache :=
  mkBlockCache (bc_blocks_and_blobs c) (bc_known_parent_roots c) (bc_current_cache_size c)
    (bc_initial_parent_root c) v (bc_initial_slot c) (bc_next_start_slot c)
    (bc_block_ranges_in_progress c) (bc_block_roots_in_progress c)
    (bc_blob_identifiers_in_progress c) (bc_column_ranges_to_fetch c)
    (bc_column_ranges_in_progress c) (bc_data_column_identifiers_in_progress c) (bc_attempts c)
    (bc_coverage_anchor c).
Definition set_initial_slot (v : Z) (c : BlockCache) : BlockCache :=
  mkBlockCache (bc_blocks_and_blobs c) (bc_known_parent_roots c) (bc_current_cache_size c)
    (bc_initial_parent_root c) (bc_block_ranges_to_retry c) v (bc_next_start_slot c)
    (bc_block_ranges_in_progress c) (bc_block_roots_in_progress c)
    (bc_blob_identifiers_in_progress c) (bc_column_ranges_to_fetch c)
    (bc_column_ranges_in_progress c) (bc_data_column_identifiers_in_progress c) (bc_attempts c)
    (bc_coverage_anchor c).
Definition set_next_start_slot (v : Z) (c : BlockCache) : BlockCache :=
  mkBlockCache (bc_blocks_and_blobs c) (bc_known_parent_roots c) (bc_current_cache_size c)
    (bc_initial_parent_root c) (bc_block_ranges_to_retry c) (bc_initial_slot c) v
    (bc_block_ranges_in_progress c) (bc_block_roots_in_progress c)
    (bc_blob_identifiers_in_progress c) (bc_column_ranges_to_fetch c)
    (bc_column_ranges_in_progress c) (bc_data_column_identifiers_in_progress c) (bc_attempts c)
    (bc_coverage_anchor c).
Definition set_block_ranges_in_progress (v : gset Range) (c : BlockCache) : BlockCache :=
  mkBlockCache (bc_blocks_and_blobs c) (bc_known_parent_roots c) (bc_current_cache_size c)
    (bc_initial_parent_root c) (bc_block_ranges_to_retry c) (bc_initial_slot c)
    (bc_next_start_slot c) v (bc_block_roots_in_progress c) (bc_blob_identifiers_in_progress c)
    (bc_column_ranges_to_fetch c) (bc_column_ranges_in_progress c)
    (bc_data_column_identifiers_in_progress c) (bc_attempts c) (bc_coverage_anchor c).
Definition set_block_roots_in_progress (v : gset B256) (c : BlockCache) : BlockCache :=
  mkBlockCache (bc_blocks_and_blobs c) (bc_known_parent_roots c) (bc_current_cache_size c)
    (bc_initial_parent_root c) (bc_block_ranges_to_retry c) (bc_initial_slot c)
    (bc_next_start_slot c) (bc_block_ranges_in_progress c) v
    (bc_blob_identifiers_in_progress c) (bc_column_ranges_to_fetch c)
    (bc_column_ranges_in_progress c) (bc_data_column_identifiers_in_progress c) (bc_attempts c)
    (bc_coverage_anchor c).
Definition set_blob_identifiers_in_progress (v : gset BlobIdentifier) (c : BlockCache) : BlockCache :=
  mkBlockCache (bc_blocks_and_blobs c) (bc_known_parent_roots c) (bc_current_cache_size c)
    (bc_initial_parent_root c) (bc_block_ranges_to_retry c) (bc_initial_slot c)
    (bc_next_start_slot c) (bc_block_ranges_in_progress c) (bc_block_roots_in_progress c) v
    (bc_column_ranges_to_fetch c) (bc_column_ranges_in_progress c)
    (bc_data_column_identifiers_in_progress c) (bc_attempts c) (bc_coverage_anchor c).
Definition set_column_ranges_to_fetch (v : list Range) (c : BlockCache) : BlockCache :=
  mkBlockCache (bc_blocks_and_blobs c) (bc_known_parent_roots c) (bc_current_cache_size c)
    (bc_initial_parent_root c) (bc_block_ranges_to_retry c) (bc_initial_slot c)
    (bc_next_start_slot c) (bc_block_ranges_in_progress c) (bc_block_roots_in_progress c)
    (bc_blob_identifiers_in_progress c) v (bc_column_ranges_in_progress c)
    (bc_data_column_identifiers_in_progress c) (bc_attempts c) (bc_coverage_anchor c).
Definition set_column_ranges_in_progress (v : gmap Range Z) (c : BlockCache) : BlockCache :=
  mkBlockCache (bc_blocks_and_blobs c) (bc_known_parent_roots c) (bc_current_cache_size c)
    (bc_initial_parent_root c) (bc_block_ranges_to_retry c) (bc_initial_slot c)
    (bc_next_start_slot c) (bc_block_ranges_in_progress c) (bc_block_roots_in_progress c)
    (bc_blob_identifiers_in_progress c) (bc_column_ranges_to_fetch c) v
    (bc_data_column_identifiers_in_progress c) (bc_attempts c) (bc_coverage_anchor c).
Definition set_data_column_identifiers_in_progress (v : gset ColumnIdentifier) (c : BlockCache) : BlockCache :=
  mkBlockCache (bc_blocks_and_blobs c) (bc_known_parent_roots c) (bc_current_cache_size c)
    (bc_initial_parent_root c) (bc_block_ranges_to_retry c) (bc_initial_slot c)
    (bc_next_start_slot c) (bc_block_ranges_in_progress c) (bc_block_roots_in_progress c)
    (bc_blob_identifiers_in_progress c) (bc_column_ranges_to_fetch c)
    (bc_column_ranges_in_progress c) v (bc_attempts c) (bc_coverage_anchor c).
Definition set_attempts (v : gmap RequestKey AttemptState) (c : BlockCache) : BlockCache :=
  mkBlockCache (bc_blocks_and_blobs c) (bc_known_parent_roots c) (bc_current_cache_size c)
    (bc_initial_parent_root c) (bc_block_ranges_to_retry c) (bc_initial_slot c)
    (bc_next_start_slot c) (bc_block_ranges_in_progress c) (bc_block_roots_in_progress c)
    (bc_blob_identifiers_in_progress c) (bc_column_ranges_to_fetch c)
    (bc_column_ranges_in_progress c) (bc_data_column_identifiers_in_progress c) v
    (bc_coverage_anchor c).
Definition set_coverage_anchor (v : option CoverageAnchor) (c : BlockCache) : BlockCache :=
  mkBlockCache (bc_blocks_and_blobs c) (bc_known_parent_roots c) (bc_current_cache_size c)
    (bc_initial_parent_root c) (bc_block_ranges_to_retry c) (bc_initial_slot c)
    (bc_next_start_slot c) (bc_block_ranges_in_progress c) (bc_block_roots_in_progress c)
    (bc_blob_identifiers_in_progress c) (bc_column_ranges_to_fetch c)
    (bc_column_ranges_in_progress c) (bc_data_column_identifiers_in_progress c) (bc_attempts c)
    v.

Definition cache_new (initial_parent_root : B256) (next_start_slot : Z) : BlockCache :=
  mkBlockCache ∅ ∅ 0 initial_parent_root [] next_start_slot next_start_slot ∅ ∅ ∅ [] ∅ ∅ ∅ None.

Record RecoverySeed : Type := mkRecoverySeed {
  rs_ancestor_root : B256;
  rs_ancestor_slot : Z;
  rs_forward_blocks : list SignedBeaconBlock;
  rs_target_slot : Z;
  rs_source_peer : PeerId;
}.

Definition bundles (c : BlockCache) : list BlockAndBlobBundle := (hm_iter (bc_blocks_and_blobs c)).*2.

(** ** Blocks *)

Definition insert_block (source_peer : PeerId) (c : BlockCache) (block : SignedBeaconBlock) : BlockCache :=
  let c := set_current_cache_size (bc_current_cache_size c + ssz_bytes_len block)%u64 c in
  set_blocks_and_blobs (<[root_of block := bundle_new block source_peer]> (bc_blocks_and_blobs c)) c.

(** The error, or the changed cache: an error leaves the cache as it was. *)
Definition add_blocks (blocks : list SignedBeaconBlock) (is_range : bool) (source_peer : PeerId) (c : BlockCache) :
    res AddBlocksError BlockCache :=
  c ← (if is_range then
         invalid_batch (validate_range_chain blocks);;
         match bool_decide (bc_blocks_and_blobs c = ∅), bc_coverage_anchor c, head blocks with
         | true, Some anchor, Some first =>
             if bool_decide (parent_of first <> bc_initial_parent_root c)
             then Err (CoverageDivergence (bc_initial_parent_root c) (parent_of first) anchor)
             else Ok (set_coverage_anchor None c)
         | _, _, _ => Ok c
         end
       else Ok c);
  Ok (foldl (insert_block source_peer) c blocks).

Definition check_parent (c : BlockCache) (block : SignedBeaconBlock) : res anyhow unit :=
  let matching_children := filter (fun child => parent_of (bu_block child) = root_of block) (bundles c) in
  ensure (negb (bool_decide (matching_children = []))) "parent block does not connect to any cached child"%string;;
  foldM (fun _ child => ensure (slot_of block <? slot_of (bu_block child)) "parent block is not older than child"%string)
    tt matching_children.
Definition add_parent_blocks (blocks : list SignedBeaconBlock) (source_peer : PeerId) (c : BlockCache) :
    res AddBlocksError BlockCache :=
  invalid_batch (foldM (fun _ block => check_parent c block) tt blocks);;
  add_blocks blocks false source_peer c.

Definition first_child_slot (parent_root : B256) (c : BlockCache) : option Z :=
  match (fun b => slot_of (bu_block b)) <$> filter (fun b => parent_of (bu_block b) = parent_root) (bundles c) with
  | [] => None
  | s :: l => Some (foldl Z.min s l)
  end.
Definition mark_parent_root_known (parent_root : B256) (c : BlockCache) : BlockCache :=
  set_known_parent_roots ({[parent_root]} ∪ bc_known_parent_roots c) c.

Definition check_seed_block (target_slot : Z) (seen : gset B256) (block : SignedBeaconBlock) : res anyhow (gset B256) :=
  ensure (slot_of block <=? target_slot) "recovery seed block exceeds target_slot"%string;;
  ensure (bool_decide (root_of block ∉ seen)) "duplicate root in recovery seed"%string;;
  Ok ({[root_of block]} ∪ seen).
Definition from_recovery_seed (seed : RecoverySeed) : res anyhow BlockCache :=
  let forward_blocks := rs_forward_blocks seed in
  ensure (negb (bool_decide (forward_blocks = []))) "a recovery seed must contain at least one new block"%string;;
  validate_range_chain forward_blocks;;
  first ← index forward_blocks 0;
  ensure (bool_decide (parent_of first = rs_ancestor_root seed)) "recovery seed's first block does not connect to the ancestor root"%string;;
  ensure (rs_ancestor_slot seed <? slot_of first) "recovery seed's first block is not after the ancestor slot"%string;;
  _ ← foldM (check_seed_block (rs_target_slot seed)) ∅ forward_blocks;
  match last forward_blocks with
  | None => Panic
  | Some tip =>
      match add_blocks forward_blocks true (rs_source_peer seed) (cache_new (rs_ancestor_root seed) (rs_ancestor_slot seed)) with
      | Ok c => Ok (set_next_start_slot (slot_of tip) c)
      | Err e => Err (AddBlocksError_display e)
      | Panic => Panic
      | NoFuel => NoFuel
      end
  end.

(** ** Coverage *)

Definition is_pristine_for_advance (c : BlockCache) : bool :=
  bool_decide (bc_blocks_and_blobs c = ∅) && bool_decide (bc_block_ranges_to_retry c = [])
  && bool_decide (bc_block_ranges_in_progress c = ∅) && bool_decide (bc_block_roots_in_progress c = ∅)
  && bool_decide (bc_blob_identifiers_in_progress c = ∅) && bool_decide (bc_column_ranges_to_fetch c = [])
  && bool_decide (bc_column_ranges_in_progress c = ∅) && bool_decide (bc_data_column_identifiers_in_progress c = ∅).
Definition is_pristine_for_restore (c : BlockCache) : bool :=
  match bc_coverage_anchor c with None => true | Some _ => false end && is_pristine_for_advance c.

Definition advance_empty_coverage (frontier : FrontierObservation) (parent_root : B256) (covered_through_slot : Z)
    (confirming_peers : gset PeerId) (c : BlockCache) : res anyhow BlockCache :=
  c ← (match bc_coverage_anchor c with
       | Some a =>
           Ok (set_coverage_anchor (Some (mkCoverageAnchor (ca_frontier a) (ca_original_parent_root a) (ca_original_parent_slot a)
                 covered_through_slot (ca_confirming_peers a ∪ confirming_peers))) c)
       | None =>
           ensure (is_pristine_for_advance c) "advance_empty_coverage requires a pristine cache"%string;;
           Ok (set_coverage_anchor (Some (mkCoverageAnchor frontier (bc_initial_parent_root c) (bc_initial_slot c)
                 covered_through_slot confirming_peers)) c)
       end);
  Ok (set_initial_slot covered_through_slot (set_next_start_slot covered_through_slot (set_initial_parent_root parent_root c))).

(** ** Attempts *)

Definition refresh_attempt_round (key : RequestKey) (now : Z) (c : BlockCache) : BlockCache :=
  match bc_attempts c !! key with
  | Some (mkAttemptState _ (Some cooldown)) =>
      if cooldown <=? now then set_attempts (<[key := mkAttemptState ∅ None]> (bc_attempts c)) c else c
  | _ => c
  end.
Definition is_schedulable (key : RequestKey) (candidate_peers : list PeerId) (now : Z) (c : BlockCache) : bool * BlockCache :=
  let c := refresh_attempt_round key now c in
  (match bc_attempts c !! key with
   | None => true
   | Some state => existsb (fun peer => bool_decide (peer ∉ attempted_peers state)) candidate_peers
   end, c).
Definition attempted_peers_for (key : RequestKey) (c : BlockCache) : gset PeerId :=
  match bc_attempts c !! key with Some state => attempted_peers state | None => ∅ end.
Definition mark_attempted (key : RequestKey) (peer : PeerId) (candidate_peers : list PeerId) (now : Z) (c : BlockCache) : BlockCache :=
  let state := default AttemptState_default (bc_attempts c !! key) in
  let attempted := {[peer]} ∪ attempted_peers state in
  let cooldown := if forallb (fun p => bool_decide (p ∈ attempted)) candidate_peers then Some (now + ATTEMPT_COOLDOWN)
                  else cooldown_until state in
  set_attempts (<[key := mkAttemptState attempted cooldown]> (bc_attempts c)) c.
Definition clear_attempted (key : RequestKey) (c : BlockCache) : BlockCache := set_attempts (delete key (bc_attempts c)) c.

(** ** Blobs and columns *)

Definition verify_blob_kzg_proof_batch (blobs : list Blob) (commitments : list KZGCommitment) (proofs : list KZGProof) :
    res anyhow bool := kzg_verify_blobs blobs commitments proofs.

Definition check_blob (c : BlockCache) (blob_sidecar : BlobSidecar) : res anyhow (B256 * BlobSidecar) :=
  let block_root := tree_hash_root (sbh_message (bl_signed_block_header blob_sidecar)) in
  bundle ← ok_or (bc_blocks_and_blobs c !! block_root) "Block root not found in cache"%string;
  ensure (bool_decide (bl_signed_block_header blob_sidecar = signed_header (bu_block bundle))) "Blob sidecar does not belong to block"%string;;
  let commitments := commitments_of (bu_block bundle) in
  let i := Z.to_nat (bl_index blob_sidecar) in
  ensure (i <? length commitments)%nat "Blob sidecar index out of range"%string;;
  commitment ← index commitments i;
  ensure (bool_decide (bl_kzg_commitment blob_sidecar = commitment)) "Blob sidecar commitment does not match block"%string;;
  included ← verify_blob_sidecar_inclusion_proof blob_sidecar;
  ensure included "Invalid inclusion proof for blob"%string;;
  valid ← verify_blob_kzg_proof_batch [bl_blob blob_sidecar] [bl_kzg_commitment blob_sidecar] [bl_kzg_proof blob_sidecar];
  ensure valid "Invalid KZG proof for blob"%string;;
  Ok (block_root, blob_sidecar).

(** [get_mut(..).expect(..)]. *)
Definition with_bundle (block_root : B256) (f : BlockAndBlobBundle -> BlockAndBlobBundle) (c : BlockCache) : res anyhow BlockCache :=
  match bc_blocks_and_blobs c !! block_root with
  | None => Panic
  | Some bundle => Ok (set_blocks_and_blobs (<[block_root := f bundle]> (bc_blocks_and_blobs c)) c)
  end.
Definition set_blobs (v : gmap BlobIdentifier BlobSidecar) (b : BlockAndBlobBundle) : BlockAndBlobBundle :=
  mkBundle (bu_block b) v (bu_columns b) (bu_source_peer b).
Definition set_columns (v : gmap ColumnIdentifier DataColumnSidecar) (b : BlockAndBlobBundle) : BlockAndBlobBundle :=
  mkBundle (bu_block b) (bu_blobs b) v (bu_source_peer b).

Definition insert_blob (c : BlockCache) (rb : B256 * BlobSidecar) : res anyhow BlockCache :=
  with_bundle rb.1 (fun bundle => set_blobs (<[mkBlobIdentifier rb.1 (bl_index rb.2) := rb.2]> (bu_blobs bundle)) bundle) c.
Definition add_blobs (blobs : list BlobSidecar) (c : BlockCache) : res anyhow BlockCache :=
  validated ← mapR (check_blob c) blobs;
  foldM insert_blob c validated.

(** The columns that pass, and the header of each block seen. *)
Definition check_column (required_columns : gset Z) (c : BlockCache)
    (acc : list (B256 * DataColumnSidecar) * gmap B256 SignedBeaconBlockHeader) (column : DataColumnSidecar) :
    res anyhow (list (B256 * DataColumnSidecar) * gmap B256 SignedBeaconBlockHeader) :=
  if bool_decide (dc_index column ∉ required_columns) then Ok acc
  else
    let block_root := tree_hash_root (sbh_message (dc_signed_block_header column)) in
    match bc_blocks_and_blobs c !! block_root with
    | None => Ok acc
    | Some bundle =>
        let '(validated, block_headers) := acc in
        ensure (dc_verify column) "Malformed data column sidecar"%string;;
        let block_header := default (signed_header (bu_block bundle)) (block_headers !! block_root) in
        let block_headers := <[block_root := block_header]> block_headers in
        ensure (bool_decide (dc_signed_block_header column = block_header)) "Data column sidecar does not belong to block"%string;;
        included ← verify_inclusion_proof column;
        ensure included "Invalid inclusion proof for column"%string;;
        Ok (validated ++ [(block_root, column)], block_headers)
    end.

Definition insert_column (c : BlockCache) (rc : B256 * DataColumnSidecar) : res anyhow BlockCache :=
  with_bundle rc.1 (fun bundle => set_columns (<[mkColumnIdentifier rc.1 (dc_index rc.2) := rc.2]> (bu_columns bundle)) bundle) c.

(** [entry(..).or_insert(..)] for the columns asked for. *)
Definition or_insert_column (required_columns : gset Z) (block_root : B256) (columns : gmap ColumnIdentifier DataColumnSidecar)
    (column : DataColumnSidecar) : gmap ColumnIdentifier DataColumnSidecar :=
  let identifier := mkColumnIdentifier block_root (dc_index column) in
  if bool_decide (dc_index column ∈ required_columns)
  then <[identifier := default column (columns !! identifier)]> columns
  else columns.

Definition reconstruct_required_columns (required_columns : gset Z) (bundle : BlockAndBlobBundle) : res anyhow BlockAndBlobBundle :=
  if forallb (fun i => bool_decide (is_Some (bu_columns bundle !! mkColumnIdentifier (root_of (bu_block bundle)) i))) (hs_iter required_columns)
     || (Z.of_nat (size (bu_columns bundle)) <? NUMBER_OF_COLUMNS / 2)
  then Ok bundle
  else
    let available := (hm_iter (bu_columns bundle)).*2 in
    reconstructed ← reconstruct_data_column_sidecars available;
    let block_root := root_of (bu_block bundle) in
    Ok (set_columns (foldl (or_insert_column required_columns block_root) (bu_columns bundle) reconstructed) bundle).

Definition rebuild_block (required_columns : gset Z) (c : BlockCache) (block_root : B256) : res anyhow BlockCache :=
  let requested := existsb (fun i => bool_decide (mkColumnIdentifier block_root i ∈ bc_data_column_identifiers_in_progress c)) (hs_iter required_columns) in
  if requested then Ok c
  else match bc_blocks_and_blobs c !! block_root with
       | None => Panic
       | Some bundle =>
           match reconstruct_required_columns required_columns bundle with
           | Ok bundle' => Ok (set_blocks_and_blobs (<[block_root := bundle']> (bc_blocks_and_blobs c)) c)
           | Err _ => Ok c
           | Panic => Panic
           | NoFuel => NoFuel
           end
       end.

Definition add_data_columns (columns : list DataColumnSidecar) (required_columns : gset Z) (c : BlockCache) : res anyhow BlockCache :=
  acc ← foldM (check_column required_columns c) ([], ∅) columns;
  let validated := (acc : list (B256 * DataColumnSidecar) * gmap B256 SignedBeaconBlockHeader).1 in
  valid ← verify_data_column_sidecars_kzg_proofs validated.*2;
  ensure valid "Invalid KZG proof in a data column response"%string;;
  let affected_roots : gset B256 := list_to_set validated.*1 in
  c ← foldM insert_column c validated;
  foldM (rebuild_block required_columns) c (hs_iter affected_roots).

(** ** Requests in flight *)

Definition extend_block_roots_in_progress (roots : list B256) (c : BlockCache) : BlockCache :=
  set_block_roots_in_progress (bc_block_roots_in_progress c ∪ list_to_set roots) c.
Definition remove_block_roots_in_progress (roots : list B256) (c : BlockCache) : BlockCache :=
  set_block_roots_in_progress (foldl (fun s r => s ∖ {[r]}) (bc_block_roots_in_progress c) roots) c.
Definition extend_blob_identifiers_in_progress (ids : list BlobIdentifier) (c : BlockCache) : BlockCache :=
  set_blob_identifiers_in_progress (bc_blob_identifiers_in_progress c ∪ list_to_set ids) c.
Definition remove_blob_identifiers_in_progress (ids : list BlobIdentifier) (c : BlockCache) : BlockCache :=
  set_blob_identifiers_in_progress (foldl (fun s r => s ∖ {[r]}) (bc_blob_identifiers_in_progress c) ids) c.
Definition push_column_range (range : Range) (c : BlockCache) : BlockCache :=
  set_column_ranges_to_fetch (bc_column_ranges_to_fetch c ++ [range]) c.
Definition mark_column_range_in_progress (range : Range) (c : BlockCache) : BlockCache :=
  set_column_ranges_in_progress
    (<[range := (default 0 (bc_column_ranges_in_progress c !! range) + 1)%u64]> (bc_column_ranges_in_progress c)) c.
Definition remove_column_range_in_progress (range : Range) (c : BlockCache) : BlockCache :=
  match bc_column_ranges_in_progress c !! range with
  | None => c
  | Some in_flight =>
      let in_flight := (in_flight - 1)%u64 in
      set_column_ranges_in_progress
        (if in_flight =? 0 then delete range (bc_column_ranges_in_progress c)
         else <[range := in_flight]> (bc_column_ranges_in_progress c)) c
  end.
Definition extend_data_column_identifiers_in_progress (ids : list ColumnIdentifier) (c : BlockCache) : BlockCache :=
  set_data_column_identifiers_in_progress (bc_data_column_identifiers_in_progress c ∪ list_to_set ids) c.
Definition remove_data_column_identifiers_in_progress (ids : list ColumnIdentifier) (c : BlockCache) : BlockCache :=
  set_data_column_identifiers_in_progress (foldl (fun s r => s ∖ {[r]}) (bc_data_column_identifiers_in_progress c) ids) c.
Definition push_retry_range (range : Range) (c : BlockCache) : BlockCache :=
  set_block_ranges_to_retry (bc_block_ranges_to_retry c ++ [range]) c.
Definition mark_block_range_in_progress (range : Range) (c : BlockCache) : BlockCache :=
  set_block_ranges_in_progress ({[range]} ∪ bc_block_ranges_in_progress c) c.
Definition remove_block_range_in_progress (range : Range) (c : BlockCache) : BlockCache :=
  set_block_ranges_in_progress (bc_block_ranges_in_progress c ∖ {[range]}) c.

Definition block_count (c : BlockCache) : Z := Z.of_nat (size (bc_blocks_and_blobs c)).
Definition blob_count (c : BlockCache) : Z :=
  foldl (fun t b => (t + Z.of_nat (length (commitments_of (bu_block b))))%u64) 0 (bundles c).
Definition downloaded_blob_count (c : BlockCache) : Z :=
  foldl (fun t b => (t + Z.of_nat (size (bu_blobs b)))%u64) 0 (bundles c).
Definition block_slot (block_root : B256) (c : BlockCache) : option Z :=
  (fun b => slot_of (bu_block b)) <$> bc_blocks_and_blobs c !! block_root.

(** ** What is missing *)

Definition get_missing_block_roots (c : BlockCache) : list B256 :=
  filter (fun parent => bc_blocks_and_blobs c !! parent = None /\ parent <> bc_initial_parent_root c /\ parent ∉ bc_known_parent_roots c)
    ((fun b => parent_of (bu_block b)) <$> bundles c).

Definition check_required (current_epoch : Z) (b : BlockAndBlobBundle) : bool :=
  is_data_availability_check_required (compute_epoch_at_slot (slot_of (bu_block b))) current_epoch fulu_fork_epoch
    min_epochs_for_data_column_sidecars_requests.

Definition missing_blobs (current_epoch : Z) (b : BlockAndBlobBundle) : list BlobIdentifier :=
  if negb (check_required current_epoch b) then []
  else if fulu_fork_epoch <=? compute_epoch_at_slot (slot_of (bu_block b)) then []
  else filter (fun identifier => bu_blobs b !! identifier = None)
         ((fun i => mkBlobIdentifier (root_of (bu_block b)) (Z.of_nat i)) <$> seq 0 (length (commitments_of (bu_block b)))).
Definition get_missing_blob_identifiers (current_epoch : Z) (c : BlockCache) : list BlobIdentifier :=
  bundles c ≫= missing_blobs current_epoch.

Definition columns_lacking (required_columns : gset Z) (b : BlockAndBlobBundle) : list ColumnIdentifier :=
  filter (fun identifier => bu_columns b !! identifier = None)
    (mkColumnIdentifier (root_of (bu_block b)) <$> hs_iter required_columns).
Definition missing_columns_of (current_epoch : Z) (required_columns : gset Z) (b : BlockAndBlobBundle) : list ColumnIdentifier :=
  if bool_decide (commitments_of (bu_block b) = []) then []
  else if negb (check_required current_epoch b) then []
  else if compute_epoch_at_slot (slot_of (bu_block b)) <? fulu_fork_epoch then []
  else columns_lacking required_columns b.
Definition get_missing_data_column_identifiers (current_epoch : Z) (required_columns : gset Z) (c : BlockCache) : list ColumnIdentifier :=
  bundles c ≫= missing_columns_of current_epoch required_columns.

Definition expected_column_identifiers_in_range (range : Range) (required_columns : gset Z) (c : BlockCache) : list ColumnIdentifier :=
  let range_end := (start_slot range + count range)%u64 in
  bundles c ≫= fun b =>
    if (slot_of (bu_block b) <? start_slot range) || (range_end <=? slot_of (bu_block b)) then []
    else columns_lacking required_columns b.
Definition unrequested_column_identifiers_in_range (range : Range) (required_columns : gset Z) (c : BlockCache) : list ColumnIdentifier :=
  filter (fun identifier => identifier ∉ bc_data_column_identifiers_in_progress c)
    (expected_column_identifiers_in_range range required_columns c).

(** ** What to fetch next *)

Definition estimated_blocks_to_fetch (c : BlockCache) : Z :=
  if 30 <? saturating_sub (bc_next_start_slot c) (bc_initial_slot c) then 0 else MAX_BLOCKS_PER_REQUEST.

(** The last range of the list that may be asked for now, with its place. *)
Fixpoint find_schedulable (key : Range -> RequestKey) (candidate_peers : list PeerId) (now : Z) (ranges : list (nat * Range)) (c : BlockCache) :
    option (nat * Range) * BlockCache :=
  match ranges with
  | [] => (None, c)
  | (i, range) :: rest =>
      let '(ok, c) := is_schedulable (key range) candidate_peers now c in
      if ok then (Some (i, range), c) else find_schedulable key candidate_peers now rest c
  end.
Definition take_schedulable_retry_range (candidate_peers : list PeerId) (now : Z) (c : BlockCache) : option Range * BlockCache :=
  let ranges := bc_block_ranges_to_retry c in
  match find_schedulable KeyBlockRange candidate_peers now (reverse (imap pair ranges)) c with
  | (Some (i, range), c) => (Some range, set_block_ranges_to_retry (delete i (bc_block_ranges_to_retry c)) c)
  | (None, c) => (None, c)
  end.
Definition take_schedulable_column_range (candidate_peers : list PeerId) (now : Z) (c : BlockCache) : option Range * BlockCache :=
  let ranges := bc_column_ranges_to_fetch c in
  match find_schedulable KeyColumnRange candidate_peers now (reverse (imap pair ranges)) c with
  | (Some (i, range), c) => (Some range, set_column_ranges_to_fetch (delete i (bc_column_ranges_to_fetch c)) c)
  | (None, c) => (None, c)
  end.

(** [retain]: those not in flight that may be asked for now. *)
Fixpoint retain_schedulable {A} (in_progress : BlockCache -> A -> bool) (key : A -> RequestKey) (candidate_peers : list PeerId) (now : Z)
    (l : list A) (c : BlockCache) : list A * BlockCache :=
  match l with
  | [] => ([], c)
  | a :: l' =>
      let '(keep, c) := if in_progress c a then (false, c) else is_schedulable (key a) candidate_peers now c in
      let '(kept, c) := retain_schedulable in_progress key candidate_peers now l' c in
      (if keep then a :: kept else kept, c)
  end.

Definition fetch_missing (current_epoch : Z) (required_columns : gset Z) (candidate_peers : list PeerId) (now : Z)
    (has_retry_ranges : bool) (c : BlockCache) : DataToFetch * BlockCache :=
  let missing_roots := get_missing_block_roots c in
  let '(roots, c) := retain_schedulable (fun c root => bool_decide (root ∈ bc_block_roots_in_progress c)) KeyBlockRoot
                       candidate_peers now missing_roots c in
  let missing_blobs := get_missing_blob_identifiers current_epoch c in
  let '(blobs, c) := retain_schedulable (fun c i => bool_decide (i ∈ bc_blob_identifiers_in_progress c)) KeyBlob
                       candidate_peers now missing_blobs c in
  let missing_columns := get_missing_data_column_identifiers current_epoch required_columns c in
  let '(columns, c) := retain_schedulable (fun c i => bool_decide (i ∈ bc_data_column_identifiers_in_progress c)) KeyColumn
                         candidate_peers now missing_columns c in
  (if negb (bool_decide (roots = [])) then MissingBlockRoots roots
   else if negb (bool_decide (missing_roots = [])) && bool_decide (bc_block_roots_in_progress c = ∅)
           && negb (bool_decide (length candidate_peers = O)) then ParentsExhausted
   else if negb (bool_decide (blobs = [])) then MissingBlobIdentifiers blobs
   else if negb (bool_decide (columns = [])) then MissingDataColumnIdentifiers columns
   else if negb (bool_decide (missing_roots = [])) || negb (bool_decide (missing_blobs = []))
           || negb (bool_decide (missing_columns = [])) || negb (bool_decide (bc_block_ranges_in_progress c = ∅))
           || negb (bool_decide (bc_column_ranges_in_progress c = ∅)) || negb (bool_decide (bc_column_ranges_to_fetch c = []))
   then DownloadsInProgress
   else if (has_retry_ranges : bool) then
     (if bool_decide (length candidate_peers = O) then DownloadsInProgress else RangeExhausted)
   else Finished, c).

Definition data_to_fetch (target_slot current_epoch : Z) (required_columns : gset Z) (candidate_peers : list PeerId) (now : Z)
    (frontier_tracked : bool) (c : BlockCache) : DataToFetch * BlockCache :=
  let single_flight := frontier_tracked || match bc_coverage_anchor c with Some _ => true | None => false end in
  if single_flight && negb (bool_decide (bc_block_ranges_in_progress c = ∅)) then (DownloadsInProgress, c)
  else
    let has_retry_ranges := negb (bool_decide (bc_block_ranges_to_retry c = [])) in
    let '(retry, c) := take_schedulable_retry_range candidate_peers now c in
    match retry with
    | Some range => (FetchBlockRange range, c)
    | None =>
        let estimated := estimated_blocks_to_fetch c in
        if negb has_retry_ranges && (0 <? estimated) && (bc_next_start_slot c <? target_slot) then
          let blocks_to_fill := Z.min estimated (Z.min MAX_BLOCKS_PER_REQUEST (target_slot - bc_next_start_slot c)%u64) in
          let start := (bc_next_start_slot c + 1)%u64 in
          (FetchBlockRange (mkRange start blocks_to_fill), set_next_start_slot (bc_next_start_slot c + blocks_to_fill)%u64 c)
        else if negb (bool_decide (bc_block_ranges_in_progress c = ∅)) then (DownloadsInProgress, c)
        else
          let '(column_range, c) := take_schedulable_column_range candidate_peers now c in
          match column_range with
          | Some range => (FetchDataColumnRange range, c)
          | None => fetch_missing current_epoch required_columns candidate_peers now has_retry_ranges c
          end
    end.

Definition by_slot_leb (a b : BlockAndBlobBundle) : bool := slot_of (bu_block a) <=? slot_of (bu_block b).
Definition get_blocks_and_blobs (c : BlockCache) : res anyhow (list BlockAndBlobBundle) :=
  if negb (bool_decide (get_missing_block_roots c = [])) then Err "Missing block roots"%string
  else Ok (sort_by by_slot_leb (bundles c)).
(** ** What the cache holds is verified *)

Context {belongs : CellItem -> bool} {KL : KzgLaws K belongs} {KR : KzgReturns K} {VL : SszVecLaws SV} {HOL : HashOrderLaws HO}.

(** The columns received: those whose commitments are shown to be in a block's body agree
    on them.  Two that do not agree show a collision of the hash ([columns_bound]). *)
Definition agreeing (received : list DataColumnSidecar) : Prop :=
  forall a b, a ∈ received -> b ∈ received -> verify_inclusion_proof a = Ok true -> verify_inclusion_proof b = Ok true ->
    dc_signed_block_header a = dc_signed_block_header b -> dc_kzg_commitments a = dc_kzg_commitments b.

(** A column of a block that passed every check; its commitments are those of a column received. *)
Record column_ok (received : list DataColumnSidecar) (block : SignedBeaconBlock) (s : DataColumnSidecar) : Prop := {
  cok_header : dc_signed_block_header s = signed_header block;
  cok_shape : dc_verify s = true;
  cok_included : verify_inclusion_proof s = Ok true;
  cok_cells : verify_data_column_sidecar_kzg_proofs s = Ok true;
  cok_index : 0 <= dc_index s;
  cok_limit : Z.of_nat (length (dc_kzg_commitments s)) <= MaxBlobCommitmentsPerBlock;
  cok_received : exists g, g ∈ received /\ verify_inclusion_proof g = Ok true /\
    dc_signed_block_header g = dc_signed_block_header s /\ dc_kzg_commitments g = dc_kzg_commitments s;
}.
Record blob_ok (block : SignedBeaconBlock) (b : BlobSidecar) : Prop := {
  bok_header : bl_signed_block_header b = signed_header block;
  bok_commitment : commitments_of block !! Z.to_nat (bl_index b) = Some (bl_kzg_commitment b);
  bok_included : verify_blob_sidecar_inclusion_proof b = Ok true;
  bok_valid : verify_blob_kzg_proof_batch [bl_blob b] [bl_kzg_commitment b] [bl_kzg_proof b] = Ok true;
}.
Record bundle_ok (received : list DataColumnSidecar) (root : B256) (bundle : BlockAndBlobBundle) : Prop := {
  bu_root : root_of (bu_block bundle) = root;
  bu_blobs_ok : forall i b, bu_blobs bundle !! i = Some b -> i = mkBlobIdentifier root (bl_index b) /\ blob_ok (bu_block bundle) b;
  bu_columns_ok : forall i s, bu_columns bundle !! i = Some s ->
    i = mkColumnIdentifier root (dc_index s) /\ column_ok received (bu_block bundle) s;
}.
Definition cache_ok (received : list DataColumnSidecar) (c : BlockCache) : Prop :=
  forall root bundle, bc_blocks_and_blobs c !! root = Some bundle -> bundle_ok received root bundle.

Lemma dc_verify_spec s : dc_verify s = true ->
  dc_index s < NUMBER_OF_COLUMNS /\ dc_kzg_commitments s <> [] /\
  Z.of_nat (length (dc_kzg_commitments s)) <= max_blobs_per_block (compute_epoch_at_slot (bh_slot (sbh_message (dc_signed_block_header s)))).
Proof using Type. unfold dc_verify. repeat case_if; b2p; try done. Qed.

Lemma dc_verify_like s base :
  dc_verify base = true -> dc_index s < NUMBER_OF_COLUMNS -> dc_kzg_commitments s = dc_kzg_commitments base ->
  dc_signed_block_header s = dc_signed_block_header base -> same_lengths s -> dc_verify s = true.
Proof.
  intros (_ & Hne & Hlim)%dc_verify_spec Hi Hc Hh [L1 L2]. unfold dc_verify. rewrite Hc, Hh in *.
  rewrite (proj2 (Z.leb_gt _ _)) by done. rewrite bool_decide_eq_false_2 by done.
  rewrite (proj2 (Z.ltb_ge _ _)) by done. by rewrite L1, <-L2, L1, Nat.eqb_refl.
Qed.

Section bundle.
Context (received : list DataColumnSidecar) (root : B256) (bundle : BlockAndBlobBundle).
Context (Hagree : agreeing received) (Hb : bundle_ok received root bundle).

Lemma stored_column s : s ∈ (hm_iter (bu_columns bundle)).*2 ->
  bu_columns bundle !! mkColumnIdentifier root (dc_index s) = Some s /\ column_ok received (bu_block bundle) s.
Proof using HOL Hb.
  intros ([i s'] & -> & Hi%elem_of_hm_iter)%list_elem_of_fmap. cbn. destruct (bu_columns_ok _ _ _ Hb _ _ Hi) as [-> Hok]. done.
Qed.

Lemma stored_indices : NoDup (dc_index <$> (hm_iter (bu_columns bundle)).*2).
Proof using HOL Hb.
  rewrite <-list_fmap_compose. pose proof (NoDup_hm_iter (bu_columns bundle)) as Hnd.
  assert (Forall (fun p : ColumnIdentifier * DataColumnSidecar => p.1 = mkColumnIdentifier root (dc_index p.2)) (hm_iter (bu_columns bundle))) as Hkey.
  { apply Forall_forall. intros [i s] Hi%elem_of_hm_iter. by apply (bu_columns_ok _ _ _ Hb). }
  induction Hkey as [|[i s] l Hi Hl IH]; [constructor|]. cbn in Hi, Hnd. subst i. apply NoDup_cons in Hnd as [Hn Hnd].
  cbn. constructor; [|by apply IH]. intros ([j s'] & E & Hj)%list_elem_of_fmap. cbn in E. apply Hn.
  rewrite Forall_forall in Hl. pose proof (Hl _ Hj) as Ej. cbn in Ej. subst j. rewrite E.
  apply list_elem_of_fmap. by exists (mkColumnIdentifier root (dc_index s'), s').
Qed.

Lemma stored_sound :
  NUMBER_OF_COLUMNS / 2 <= Z.of_nat (size (bu_columns bundle)) ->
  exists commitments, sound_columns (signed_header (bu_block bundle)) commitments (hm_iter (bu_columns bundle)).*2.
Proof using HOL Hb Hagree.
  intros Hhalf. set (available := (hm_iter (bu_columns bundle)).*2).
  assert (length available = size (bu_columns bundle)) as Hlen.
  { unfold available. rewrite length_fmap, hm_iter_perm. apply length_map_to_list. }
  assert (exists base, base ∈ available) as [base Hbase].
  { clearbody available. destruct available as [|base rest]; [cbn in Hlen; rewrite <-Hlen in Hhalf; by cbv in Hhalf|]. exists base. apply elem_of_cons. by left. }
  exists (dc_kzg_commitments base).
  destruct (stored_column base Hbase) as [_ [B1 _ _ _ _ B6 (g & G1 & G2 & G3 & G4)]]. split.
  - by rewrite Hlen.
  - apply stored_indices.
  - done.
  - apply Forall_forall. intros s Hs. destruct (stored_column s Hs) as [_ [S1 S2 _ S4 S5 _ (g' & G1' & G2' & G3' & G4')]].
    apply dc_verify_spec in S2 as (Hi & _). split_and!; [done|done|done| |done].
    rewrite <-G4', <-G4. symmetry. apply (Hagree g g'); [done..|]. by rewrite G3, B1, G3', S1.
Qed.
End bundle.

(** A rebuilt column passes the checks of the columns it is built from. *)
Lemma rebuilt_column_ok received block base s i :
  column_ok received block base -> 0 <= i < NUMBER_OF_COLUMNS -> dc_index s = i ->
  dc_kzg_commitments s = dc_kzg_commitments base -> dc_signed_block_header s = dc_signed_block_header base ->
  dc_inclusion_proof s = dc_inclusion_proof base -> verify_data_column_sidecar_kzg_proofs s = Ok true ->
  column_ok received block s.
Proof using KL.
  intros [B1 B2 B3 B4 B5 B6 B7] Hi Ei Hc Hh Hp Hv. split.
  - by rewrite Hh.
  - apply (dc_verify_like s base); [done|lia|done|done|]. by apply sidecar_verifies in Hv as [? _].
  - unfold verify_inclusion_proof in *. by rewrite Hc, Hp, Hh.
  - done.
  - lia.
  - by rewrite Hc.
  - destruct B7 as (g & ? & ? & ? & ?). exists g. by rewrite Hh, Hc.
Qed.

Lemma or_insert_columns (P : DataColumnSidecar -> Prop) required root rs columns :
  (forall i s, columns !! i = Some s -> i = mkColumnIdentifier root (dc_index s) /\ P s) ->
  Forall P rs ->
  let columns' := foldl (or_insert_column required root) columns rs in
  (forall i s, columns' !! i = Some s -> i = mkColumnIdentifier root (dc_index s) /\ P s) /\
  (forall i s, columns !! i = Some s -> columns' !! i = Some s) /\
  forall s, s ∈ rs -> dc_index s ∈ required -> is_Some (columns' !! mkColumnIdentifier root (dc_index s)).
Proof.
  intros Hc Hrs. revert columns Hc. induction Hrs as [|s rs Hs Hrs IH]; intros columns Hc; cbn [foldl].
  - split_and!; [done|done|]. intros s Hs. by apply not_elem_of_nil in Hs.
  - destruct (IH (or_insert_column required root columns s)) as (H1 & H2 & H3).
    { intros i t. unfold or_insert_column. case_bool_decide; [|by apply Hc]. intros [[<- <-]|[_ Ht]]%lookup_insert_Some; [|by apply Hc].
      destruct (columns !! mkColumnIdentifier root (dc_index s)) as [t|] eqn:Et; [by apply Hc|done]. }
    assert (forall i t, columns !! i = Some t -> or_insert_column required root columns s !! i = Some t) as Hkeep.
    { intros i t Ht. unfold or_insert_column. case_bool_decide; [|done].
      destruct (decide (i = mkColumnIdentifier root (dc_index s))) as [->|Hne];
        [by rewrite lookup_insert_eq, Ht|by rewrite lookup_insert_ne]. }
    split_and!; [done|by eauto|]. intros t [->|Ht]%elem_of_cons Hreq; [|by apply H3].
    exists (default s (columns !! mkColumnIdentifier root (dc_index s))). apply H2.
    unfold or_insert_column. rewrite bool_decide_eq_true_2 by done. apply lookup_insert_eq.
Qed.

(** The rebuilding of a block's columns returns, keeps what is there, and from half of
    the columns on leaves none of those required missing. *)
Lemma reconstruct_required_ok received root bundle required :
  agreeing received -> bundle_ok received root bundle ->
  exists bundle', reconstruct_required_columns required bundle = Ok bundle' /\ bundle_ok received root bundle' /\
    bu_block bundle' = bu_block bundle /\ bu_blobs bundle' = bu_blobs bundle /\
    (forall i s, bu_columns bundle !! i = Some s -> bu_columns bundle' !! i = Some s) /\
    (NUMBER_OF_COLUMNS / 2 <= Z.of_nat (size (bu_columns bundle')) ->
     forall i, i ∈ required -> 0 <= i < NUMBER_OF_COLUMNS -> is_Some (bu_columns bundle' !! mkColumnIdentifier root i)).
Proof using KL VL HOL.
  intros Hagree Hb. unfold reconstruct_required_columns. rewrite (bu_root _ _ _ Hb). destruct (_ || _) eqn:Edone.
  - exists bundle. split_and!; [done..|]. intros Hhalf i Hi _. apply orb_true_iff in Edone as [E|E]; [|b2p; lia].
    rewrite forallb_forall in E. eapply bool_decide_eq_true_1, E, list_elem_of_In, elem_of_hs_iter, Hi.
  - apply orb_false_iff in Edone as [_ Hhalf]. b2p.
    destruct (stored_sound received root bundle Hagree Hb Hhalf) as (commitments & Hsound).
    destruct (reconstruct_sound _ _ _ Hsound) as (rs & -> & Hlen & Hall & _). cbn [mbind res_bind].
    destruct (or_insert_columns (column_ok received (bu_block bundle)) required root rs (bu_columns bundle)) as (H1 & H2 & H3).
    + apply Hb.
    + apply Forall_lookup_2. intros i s Hi. destruct (Hall i s Hi) as (S1 & S2 & S3 & base & Hbase & S4 & S5).
      destruct (stored_column received root bundle Hb base Hbase) as [_ Bok].
      apply (rebuilt_column_ok received (bu_block bundle) base s (Z.of_nat i)); try done.
      * apply lookup_lt_Some in Hi. rewrite Hlen in Hi. change NUMBER_OF_COLUMNS with 128 in *. lia.
      * rewrite S2. symmetry. by apply (sound_columns_In _ _ _ _ Hsound Hbase).
    + eexists. split; [done|]. split_and!; [|done|done|exact H2|].
      * split; [apply Hb|apply Hb|exact H1].
      * intros _ i Hi Hr. destruct (lookup_lt_is_Some_2 rs (Z.to_nat i)) as [s Hs]; [change NUMBER_OF_COLUMNS with 128 in *; lia|].
        destruct (Hall _ _ Hs) as (Hsi & _). rewrite Z2Nat.id in Hsi by lia. rewrite <-Hsi. apply H3; [by eapply list_elem_of_lookup_2|by rewrite Hsi].
Qed.
(** *** The checks return *)

Lemma branch_returns leaf branch depth i :
  0 <= depth -> Z.of_nat (length branch) = depth -> exists r, get_root_from_merkle_branch leaf branch depth i = Ok r.
Proof using Type.
  intros Hd Hl. unfold get_root_from_merkle_branch.
  match goal with |- exists r, foldM ?f leaf ?l = Ok r => destruct (foldM_Ok (fun _ => True) f l leaf I) as (r & E & _) end; [|by exists r].
  intros v k Hk _. apply elem_of_seqZ in Hk. destruct (lookup_lt_is_Some_2 branch (Z.to_nat k)) as [node Hn]; [lia|].
  rewrite (index_lookup _ _ _ Hn). cbn [mbind res_bind]. eauto.
Qed.

Lemma valid_branch_returns leaf branch depth i root :
  0 <= depth -> exists b, is_valid_merkle_branch leaf branch depth i root = Ok b.
Proof using Type.
  intros Hd. unfold is_valid_merkle_branch. destruct (_ =? _) eqn:E; cbn [negb]; [|eauto]. apply Z.eqb_eq in E.
  destruct (branch_returns leaf branch depth i Hd E) as [r ->]. cbn [mbind res_bind]. eauto.
Qed.

Lemma inclusion_returns s : exists b, verify_inclusion_proof s = Ok b.
Proof using Type. by apply valid_branch_returns. Qed.

Definition typed_blob (b : BlobSidecar) : Prop := length (bl_inclusion_proof b) = Z.to_nat BLOB_SIDECAR_KZG_PROOF_DEPTH.
Definition typed_column (s : DataColumnSidecar) : Prop :=
  0 <= dc_index s /\ Z.of_nat (length (dc_kzg_commitments s)) <= MaxBlobCommitmentsPerBlock.

Lemma blob_inclusion_returns b : typed_blob b -> exists r, verify_blob_sidecar_inclusion_proof b = Ok r.
Proof using Type.
  unfold typed_blob. change (Z.to_nat BLOB_SIDECAR_KZG_PROOF_DEPTH) with 17%nat. intros Hl.
  unfold verify_blob_sidecar_inclusion_proof. change (Z.log2 (2 ^ Z.log2_up MAX_BLOBS_PER_BLOCK) + 1) with 13.
  rewrite Hl. change (Z.of_nat 17 <? 13) with false. cbn match.
  destruct (branch_returns (tree_hash_root (bl_kzg_commitment b)) (take (Z.to_nat 13) (bl_inclusion_proof b)) 13 (bl_index b)) as [r ->];
    [done|by rewrite length_take, Hl|]. cbn [mbind res_bind]. by apply valid_branch_returns.
Qed.

(** Columns of one header that do not agree on the commitments show a collision. *)
Lemma columns_bound a b :
  (forall m, word32 (hash m)) -> (forall cs : list KZGCommitment, word32 (tree_hash_root cs)) ->
  Forall word32 (dc_inclusion_proof a) -> Forall word32 (dc_inclusion_proof b) ->
  verify_inclusion_proof a = Ok true -> verify_inclusion_proof b = Ok true ->
  dc_signed_block_header a = dc_signed_block_header b ->
  tree_hash_root (dc_kzg_commitments a) = tree_hash_root (dc_kzg_commitments b) \/
  branches_collide (tree_hash_root (dc_kzg_commitments a)) (dc_inclusion_proof a)
    (tree_hash_root (dc_kzg_commitments b)) (dc_inclusion_proof b) BLOB_KZG_COMMITMENTS_INDEX.
Proof using Type.
  intros Hh Hr Wa Wb Va Vb Hab. unfold verify_inclusion_proof, is_valid_merkle_branch in Va, Vb. rewrite Hab in Va.
  destruct (negb _) in Va; [done|]. destruct (negb _) in Vb; [done|].
  apply bind_Ok in Va as (r1 & E1 & [= V1]). apply bind_Ok in Vb as (r2 & E2 & [= V2]).
  apply bool_decide_eq_true in V1, V2. subst r1 r2.
  exact (branch_binding _ _ _ _ 4 _ _ Hh (Hr _) (Hr _) Wa Wb E1 E2).
Qed.

(** *** Adding columns *)

(** The blocks of the cache are the same. *)
Definition same_blocks (c c' : BlockCache) : Prop :=
  forall root, bu_block <$> bc_blocks_and_blobs c' !! root = bu_block <$> bc_blocks_and_blobs c !! root.

#[local] Instance same_blocks_preorder : PreOrder same_blocks.
Proof using Type. split; [by intros c root|]. intros c1 c2 c3 H1 H2 root. by rewrite H2, H1. Qed.

Lemma same_blocks_lookup c c' root bundle :
  same_blocks c c' -> bc_blocks_and_blobs c !! root = Some bundle ->
  exists bundle', bc_blocks_and_blobs c' !! root = Some bundle' /\ bu_block bundle' = bu_block bundle.
Proof using Type.
  intros Hs Hb. specialize (Hs root). rewrite Hb in Hs. destruct (bc_blocks_and_blobs c' !! root) as [b'|]; [|done].
  exists b'. split; [done|]. by injection Hs.
Qed.

Definition passed (columns : list DataColumnSidecar) (required : gset Z) (c : BlockCache) (rc : B256 * DataColumnSidecar) : Prop :=
  rc.2 ∈ columns /\ dc_index rc.2 ∈ required /\ dc_verify rc.2 = true /\ verify_inclusion_proof rc.2 = Ok true /\
  exists bundle, bc_blocks_and_blobs c !! rc.1 = Some bundle /\ dc_signed_block_header rc.2 = signed_header (bu_block bundle).

Lemma check_columns_passed columns required c :
  returns (foldM (check_column required c) ([], ∅) columns) /\
  forall acc, foldM (check_column required c) ([], ∅) columns = Ok acc -> Forall (passed columns required c) acc.1.
Proof using Type.
  set (P (acc : list (B256 * DataColumnSidecar) * gmap B256 SignedBeaconBlockHeader) :=
    Forall (passed columns required c) acc.1 /\
    forall root h, acc.2 !! root = Some h -> exists bundle, bc_blocks_and_blobs c !! root = Some bundle /\ h = signed_header (bu_block bundle)).
  assert (P ([], ∅)) as H0 by (split; [apply Forall_nil_2|intros root h; cbn [snd]; by rewrite lookup_empty]).
  assert (forall acc column acc', column ∈ columns -> P acc -> check_column required c acc column = Ok acc' -> P acc') as Hstep.
  { intros [validated headers] column acc' Hin [Hv Hh]. unfold check_column. case_bool_decide as Hr; [by intros [= <-]|].
    destruct (bc_blocks_and_blobs c !! _) as [bundle|] eqn:Eb; [|by intros [= <-]].
    set (root := tree_hash_root (sbh_message (dc_signed_block_header column))) in *.
    intros (u1 & E1%ensure_Ok & (u2 & E2%ensure_Ok & (inc & E3 & (u4 & E4%ensure_Ok & [= <-])%bind_Ok)%bind_Ok)%bind_Ok)%bind_Ok. subst inc. b2p.
    assert (default (signed_header (bu_block bundle)) (headers !! root) = signed_header (bu_block bundle)) as Hd.
    { destruct (headers !! root) as [h|] eqn:Eh; [|done]. destruct (Hh _ _ Eh) as (b' & Eb' & ->). cbn. rewrite Eb in Eb'. by injection Eb' as ->. }
    rewrite Hd in *. split; cbn [fst snd].
    - apply Forall_app. split; [done|]. constructor; [|constructor]. by unfold passed; cbn; eauto 10.
    - intros r h [[<- <-]|[_ Hr']]%lookup_insert_Some; [eauto|by apply Hh]. }
  split.
  - apply (foldM_returns P); [done| |done]. intros [validated headers] column Hin _. unfold check_column. case_bool_decide; [done|].
    destruct (bc_blocks_and_blobs c !! _); [|done]. do 2 returns_step. destruct (inclusion_returns column) as [included ->].
    apply returns_bind; [done|]. intros. by returns_step.
  - intros acc E. by apply (foldM_inv P _ _ _ _ H0 Hstep) in E as [? _].
Qed.

Lemma check_columns_keep columns required c acc acc' :
  foldM (check_column required c) acc columns = Ok acc' ->
  (forall x, x ∈ acc.1 -> x ∈ acc'.1) /\
  forall s, s ∈ columns -> dc_index s ∈ required ->
    let root := tree_hash_root (sbh_message (dc_signed_block_header s)) in
    is_Some (bc_blocks_and_blobs c !! root) -> (root, s) ∈ acc'.1.
Proof using Type.
  revert acc. induction columns as [|s columns IH]; intros acc; cbn [foldM].
  - intros [= <-]. split; [done|]. intros s Hs. by apply not_elem_of_nil in Hs.
  - intros (acc1 & E1 & E)%bind_Ok. destruct (IH _ E) as [K1 K2].
    assert ((forall x, x ∈ acc.1 -> x ∈ acc1.1) /\ (dc_index s ∈ required ->
      let root := tree_hash_root (sbh_message (dc_signed_block_header s)) in
      is_Some (bc_blocks_and_blobs c !! root) -> (root, s) ∈ acc1.1)) as [S1 S2].
    { destruct acc as [validated headers]. revert E1. unfold check_column. case_bool_decide as Hr; [by intros [= <-]|].
      destruct (bc_blocks_and_blobs c !! _) as [bundle|] eqn:Eb; [|intros [= <-]; split; [done|]; intros _; cbn zeta; intros Hroot; by destruct Hroot].
      intros (u1 & _ & (u2 & _ & (inc & _ & (u4 & _ & [= <-])%bind_Ok)%bind_Ok)%bind_Ok)%bind_Ok. cbn [fst].
      split; [intros x Hx; apply elem_of_app; by left|]. intros _; cbn zeta; intros _. apply elem_of_app. right. by apply list_elem_of_singleton. }
    split; [by eauto|]. intros t [->|Ht]%elem_of_cons; [|by apply K2]. intros Hr. cbn zeta. intros Hroot. apply K1. by apply S2.
Qed.

(** A column that passed is filed under the root of its header. *)
Lemma check_columns_roots columns required c acc acc' :
  foldM (check_column required c) acc columns = Ok acc' ->
  Forall (fun rc : B256 * DataColumnSidecar => rc.1 = tree_hash_root (sbh_message (dc_signed_block_header rc.2))) acc.1 ->
  Forall (fun rc : B256 * DataColumnSidecar => rc.1 = tree_hash_root (sbh_message (dc_signed_block_header rc.2))) acc'.1.
Proof using Type.
  intros E H0. revert E. apply (foldM_inv (fun acc : list (B256 * DataColumnSidecar) * gmap B256 SignedBeaconBlockHeader =>
    Forall (fun rc : B256 * DataColumnSidecar => rc.1 = tree_hash_root (sbh_message (dc_signed_block_header rc.2))) acc.1)); [done|].
  intros [validated headers] s acc2 _ Hv. unfold check_column. case_bool_decide; [by intros [= <-]|].
  destruct (bc_blocks_and_blobs c !! _); [|by intros [= <-]].
  intros (u1 & _ & (u2 & _ & (inc & _ & (u4 & _ & [= <-])%bind_Ok)%bind_Ok)%bind_Ok)%bind_Ok. cbn [fst] in *.
  apply Forall_app. split; [done|]. by constructor; [|apply Forall_nil_2].
Qed.

(** A column that passes every check, if it is required and its block is there. *)
Definition acceptable (required : gset Z) (c : BlockCache) (s : DataColumnSidecar) : Prop :=
  dc_index s ∈ required -> forall bundle,
    bc_blocks_and_blobs c !! tree_hash_root (sbh_message (dc_signed_block_header s)) = Some bundle ->
    dc_verify s = true /\ dc_signed_block_header s = signed_header (bu_block bundle) /\ verify_inclusion_proof s = Ok true /\
    verify_data_column_sidecar_kzg_proofs s = Ok true /\ fits_batch s.

Lemma check_columns_accept columns required c :
  Forall (acceptable required c) columns -> exists acc, foldM (check_column required c) ([], ∅) columns = Ok acc.
Proof using Type.
  intros Hall. rewrite Forall_forall in Hall.
  destruct (foldM_Ok (fun acc : list (B256 * DataColumnSidecar) * gmap B256 SignedBeaconBlockHeader =>
    forall root h, acc.2 !! root = Some h -> exists bundle, bc_blocks_and_blobs c !! root = Some bundle /\ h = signed_header (bu_block bundle))
    (check_column required c) columns ([], ∅)) as (acc & E & _); [intros root h; cbn [snd]; by rewrite lookup_empty| |by exists acc].
  intros [validated headers] s Hin Hh. unfold check_column. case_bool_decide as Hr; [by eauto|].
  destruct (bc_blocks_and_blobs c !! _) as [bundle|] eqn:Eb; [|by eauto]. destruct (Hall s Hin Hr bundle Eb) as (A1 & A2 & A3 & _).
  set (root := tree_hash_root (sbh_message (dc_signed_block_header s))) in *.
  assert (default (signed_header (bu_block bundle)) (headers !! root) = signed_header (bu_block bundle)) as ->.
  { destruct (headers !! root) as [h|] eqn:Eh; [|done]. destruct (Hh _ _ Eh) as (b' & Eb' & ->). cbn. rewrite Eb in Eb'. by injection Eb' as ->. }
  rewrite A1, (bool_decide_eq_true_2 _ A2), A3. cbn [ensure mbind res_bind]. eexists. split; [done|]. cbn [snd].
  intros r h [[<- <-]|[_ Hr']]%lookup_insert_Some; [eauto|by apply Hh].
Qed.

Lemma with_bundle_ok root f c bundle :
  bc_blocks_and_blobs c !! root = Some bundle ->
  with_bundle root f c = Ok (set_blocks_and_blobs (<[root := f bundle]> (bc_blocks_and_blobs c)) c).
Proof using Type. intros E. unfold with_bundle. by rewrite E. Qed.

(** Replacing the bundle of a block by one of the same block. *)
Lemma set_bundle_ok received c root bundle bundle' :
  cache_ok received c -> bc_blocks_and_blobs c !! root = Some bundle -> bu_block bundle' = bu_block bundle ->
  bundle_ok received root bundle' ->
  let c' := set_blocks_and_blobs (<[root := bundle']> (bc_blocks_and_blobs c)) c in cache_ok received c' /\ same_blocks c c'.
Proof using Type.
  intros Hc Hb Hbb Hok. split.
  - intros r b. cbn. intros [[<- <-]|[_ Hr]]%lookup_insert_Some; [done|by apply Hc].
  - intros r. cbn. destruct (decide (r = root)) as [->|Hne]; [|by rewrite lookup_insert_ne].
    rewrite lookup_insert_eq, Hb. cbn. by rewrite Hbb.
Qed.

Lemma insert_columns_ok received c validated :
  cache_ok received c ->
  Forall (fun rc : B256 * DataColumnSidecar => exists block, bu_block <$> bc_blocks_and_blobs c !! rc.1 = Some block /\ column_ok received block rc.2) validated ->
  exists c', foldM insert_column c validated = Ok c' /\ cache_ok received c' /\ same_blocks c c' /\
    bc_data_column_identifiers_in_progress c' = bc_data_column_identifiers_in_progress c.
Proof using Type.
  intros Hc Hv. apply (foldM_Ok (fun c' => cache_ok received c' /\ same_blocks c c' /\
    bc_data_column_identifiers_in_progress c' = bc_data_column_identifiers_in_progress c)); [done|].
  intros c1 rc Hin (Hc1 & Hs1 & Hp1). rewrite Forall_forall in Hv. destruct (Hv rc Hin) as (block & Hblock & Hok).
  rewrite <-(Hs1 rc.1) in Hblock. destruct (bc_blocks_and_blobs c1 !! rc.1) as [bundle|] eqn:Eb; [|done]. cbn in Hblock. injection Hblock as <-.
  unfold insert_column. rewrite (with_bundle_ok _ _ _ _ Eb). eexists. split; [done|].
  destruct (set_bundle_ok received c1 rc.1 bundle
    (set_columns (<[mkColumnIdentifier rc.1 (dc_index rc.2) := rc.2]> (bu_columns bundle)) bundle) Hc1 Eb eq_refl) as [H1 H2].
  { destruct (Hc1 _ _ Eb) as [B1 B2 B3]. split; [done|done|]. cbn. intros i s [[<- <-]|[_ Hs]]%lookup_insert_Some; [done|by apply B3]. }
  split; [done|]. split; [by etrans|done].
Qed.

(** Half of a block's columns are all of them, unless some are on their way. *)
Definition half_suffices (required : gset Z) (c : BlockCache) (root : B256) : Prop :=
  forall bundle, bc_blocks_and_blobs c !! root = Some bundle ->
    (forall i, i ∈ required -> mkColumnIdentifier root i ∉ bc_data_column_identifiers_in_progress c) ->
    NUMBER_OF_COLUMNS / 2 <= Z.of_nat (size (bu_columns bundle)) ->
    forall i, i ∈ required -> 0 <= i < NUMBER_OF_COLUMNS -> is_Some (bu_columns bundle !! mkColumnIdentifier root i).

Lemma rebuild_block_ok received required c root :
  agreeing received -> cache_ok received c -> is_Some (bc_blocks_and_blobs c !! root) ->
  exists c', rebuild_block required c root = Ok c' /\ cache_ok received c' /\ same_blocks c c' /\
    bc_data_column_identifiers_in_progress c' = bc_data_column_identifiers_in_progress c /\
    (forall r, r <> root -> bc_blocks_and_blobs c' !! r = bc_blocks_and_blobs c !! r) /\ half_suffices required c' root.
Proof using KL VL HOL.
  intros Hagree Hc [bundle Eb]. unfold rebuild_block. destruct (existsb _ _) eqn:Er.
  - exists c. split_and!; [done..|]. intros b _ Hnone. exfalso. apply existsb_exists in Er as (i & Hi%list_elem_of_In & Hp). b2p.
    by apply (Hnone i); [rewrite <-elem_of_hs_iter|].
  - rewrite Eb. destruct (reconstruct_required_ok received root bundle required Hagree (Hc _ _ Eb)) as (b' & -> & B1 & B2 & _ & _ & B5).
    eexists. split; [done|]. destruct (set_bundle_ok received c root bundle b' Hc Eb B2 B1) as [H1 H2].
    split_and!; [done|done|done|intros r Hr; cbn; by rewrite lookup_insert_ne|].
    intros b. cbn. rewrite lookup_insert_eq. intros [= <-] _. exact B5.
Qed.

Lemma rebuild_blocks_ok received required roots c :
  agreeing received -> cache_ok received c -> (forall root, root ∈ roots -> is_Some (bc_blocks_and_blobs c !! root)) ->
  exists c', foldM (rebuild_block required) c roots = Ok c' /\ cache_ok received c' /\ same_blocks c c' /\
    bc_data_column_identifiers_in_progress c' = bc_data_column_identifiers_in_progress c /\
    (forall r, r ∉ roots -> bc_blocks_and_blobs c' !! r = bc_blocks_and_blobs c !! r) /\
    forall root, root ∈ roots -> half_suffices required c' root.
Proof using KL VL HOL.
  intros Hagree. revert c. induction roots as [|r roots IH]; intros c Hc Hin; cbn [foldM].
  - exists c. split_and!; [done..|]. intros root Hr. by apply not_elem_of_nil in Hr.
  - destruct (rebuild_block_ok received required c r Hagree Hc) as (c1 & -> & C1 & C2 & C3 & C4 & C5); [apply Hin, elem_of_cons; by left|].
    cbn [mbind res_bind]. destruct (IH c1 C1) as (c' & -> & D1 & D2 & D3 & D4 & D5).
    { intros root Hr. destruct (Hin root) as [b Eb]; [apply elem_of_cons; by right|].
      destruct (same_blocks_lookup _ _ _ _ C2 Eb) as (b' & ? & _). eauto. }
    exists c'. split_and!; [done|done|by etrans|by rewrite D3|..].
    + intros r' [Hne Hr']%not_elem_of_cons. rewrite D4 by done. by apply C4.
    + intros root [->|Hr]%elem_of_cons; [|by apply D5]. destruct (decide (r ∈ roots)) as [Hr|Hr]; [by apply D5|].
      intros b Eb. rewrite D4 in Eb by done. rewrite D3. by apply C5.
Qed.

Lemma add_data_columns_ok received columns required c :
  agreeing received -> Forall typed_column columns -> (forall s, s ∈ columns -> s ∈ received) -> cache_ok received c ->
  (exists e, add_data_columns columns required c = Err e /\ ~ Forall (acceptable required c) columns) \/
  exists c', add_data_columns columns required c = Ok c' /\ cache_ok received c' /\ same_blocks c c' /\
    forall s, s ∈ columns -> dc_index s ∈ required ->
      half_suffices required c' (tree_hash_root (sbh_message (dc_signed_block_header s))).
Proof using KL KR VL HOL.
  intros Hagree Ht Hrec Hc. unfold add_data_columns.
  destruct (check_columns_passed columns required c) as [Hret Hpass].
  destruct (foldM (check_column required c) ([], ∅) columns) as [acc|e| |] eqn:Ecol; [| |done|done].
  2:{ left. exists e. split; [done|]. intros Hacc. destruct (check_columns_accept _ _ _ Hacc) as [acc E]. by rewrite E in Ecol. }
  specialize (Hpass acc eq_refl). destruct (check_columns_keep _ _ _ _ _ Ecol) as [_ Hkeep]. cbn [mbind res_bind].
  assert (Forall (acceptable required c) columns -> verify_batches (length acc.1.*2) acc.1.*2 = Ok true) as Hacc.
  { intros Hacc. apply batches_verify; [done|]. apply Forall_fmap, Forall_forall. intros rc Hin. rewrite Forall_forall in Hpass.
    destruct (Hpass rc Hin) as (P1 & P2 & _ & _ & bundle & P5 & P6). rewrite Forall_forall in Hacc. cbn.
    pose proof (check_columns_roots _ _ _ _ _ Ecol ltac:(apply Forall_nil_2)) as Hroots. rewrite Forall_forall in Hroots. rewrite (Hroots rc Hin) in P5.
    destruct (Hacc rc.2 P1 P2 bundle P5) as (_ & _ & _ & ? & ?). done. }
  pose proof (batches_return (length acc.1.*2) acc.1.*2 ltac:(lia)) as Hbr.
  unfold verify_data_column_sidecars_kzg_proofs.
  destruct (verify_batches (length acc.1.*2) acc.1.*2) as [v|e| |] eqn:Ev; [| |done|done].
  2:{ left. exists e. split; [done|]. intros Ha. by specialize (Hacc Ha). }
  cbn [mbind res_bind]. destruct v; cbn [ensure mbind res_bind].
  2:{ left. eexists. split; [done|]. intros Ha. by specialize (Hacc Ha). }
  pose proof (proj1 (batches_verify _ _ ltac:(done)) Ev) as Hall.
  assert (Forall (fun rc : B256 * DataColumnSidecar => exists block, bu_block <$> bc_blocks_and_blobs c !! rc.1 = Some block /\ column_ok received block rc.2) acc.1) as Hok.
  { apply Forall_forall. intros rc Hin. rewrite Forall_forall in Hpass. rewrite Forall_forall in Hall, Ht. destruct (Hpass rc Hin) as (P1 & P2 & P3 & P4 & bundle & P5 & P6).
    destruct (Hall rc.2) as [V1 _]; [apply list_elem_of_fmap; eauto|]. destruct (Ht _ P1) as [T1 T2].
    exists (bu_block bundle). rewrite P5. split; [done|]. split; try done. exists rc.2. by auto. }
  destruct (insert_columns_ok received c acc.1 Hc Hok) as (c1 & -> & C1 & C2 & C3). cbn [mbind res_bind].
  destruct (rebuild_blocks_ok received required (hs_iter (list_to_set acc.1.*1 : gset B256)) c1 Hagree C1) as (c' & -> & D1 & D2 & D3 & _ & D5).
  { intros root Hr. rewrite elem_of_hs_iter, elem_of_list_to_set in Hr. apply list_elem_of_fmap in Hr as (rc & -> & Hin).
    rewrite Forall_forall in Hok. destruct (Hok rc Hin) as (block & Hb & _). rewrite <-(C2 rc.1) in Hb.
    by destruct (bc_blocks_and_blobs c1 !! rc.1). }
  right. exists c'. split; [done|]. split; [done|]. split; [by etrans|].
  intros s Hs Hr. destruct (bc_blocks_and_blobs c !! tree_hash_root (sbh_message (dc_signed_block_header s))) as [b|] eqn:Eb.
  - apply D5. rewrite elem_of_hs_iter, elem_of_list_to_set. apply list_elem_of_fmap. eexists (_, s). split; [done|]. apply Hkeep; [done|done|eauto].
  - intros b' Eb'. pose proof (D2 (tree_hash_root (sbh_message (dc_signed_block_header s)))) as E2. rewrite (C2 _), Eb, Eb' in E2. done.
Qed.
(** *** Adding blobs and blocks *)

Lemma check_blob_ok received c b :
  typed_blob b -> cache_ok received c ->
  returns (check_blob c b) /\ forall rb, check_blob c b = Ok rb ->
    rb.2 = b /\ exists bundle, bc_blocks_and_blobs c !! rb.1 = Some bundle /\ blob_ok (bu_block bundle) b.
Proof using KR.
  intros Ht Hc. unfold check_blob. destruct (blob_inclusion_returns b Ht) as [inc Einc]. split.
  - do 3 returns_step. apply returns_bind.
    + destruct (lookup_lt_is_Some_2 (commitments_of (bu_block a)) (Z.to_nat (bl_index b))) as [x Hx].
      { apply ensure_Ok in H2. by apply Nat.ltb_lt in H2. }
      by rewrite (index_lookup _ _ _ Hx).
    + intros x _. returns_step. rewrite Einc. apply returns_bind; [done|]. intros y _. returns_step.
      apply returns_bind; [apply kzg_blobs_return|]. intros z _. by returns_step.
  - intros rb E. apply bind_Ok in E as (bundle & Eb%ok_or_Ok & E). apply bind_Ok in E as (u1 & E1%ensure_Ok & E).
    apply bind_Ok in E as (u2 & _ & E). apply bind_Ok in E as (x & Ex%index_Ok & E). apply bind_Ok in E as (u3 & E3%ensure_Ok & E).
    apply bind_Ok in E as (i & Ei & E). apply bind_Ok in E as (u4 & E4%ensure_Ok & E). apply bind_Ok in E as (v & Ev & E).
    apply bind_Ok in E as (u5 & E5%ensure_Ok & [= <-]). subst i v. b2p. subst x. cbn. split; [done|]. exists bundle. split; [done|]. by split.
Qed.

Lemma add_blobs_ok received blobs c :
  Forall typed_blob blobs -> cache_ok received c ->
  (exists e, add_blobs blobs c = Err e) \/ exists c', add_blobs blobs c = Ok c' /\ cache_ok received c' /\ same_blocks c c'.
Proof using KR.
  intros Ht Hc. unfold add_blobs. rewrite Forall_forall in Ht.
  assert (returns (mapR (check_blob c) blobs)) as Hret by (apply mapR_returns; intros b Hb; by eapply check_blob_ok; [apply Ht|]).
  destruct (mapR (check_blob c) blobs) as [validated|e| |] eqn:Ev; [|left; by exists e|done|done]. cbn [mbind res_bind]. right.
  apply (foldM_Ok (fun c' => cache_ok received c' /\ same_blocks c c')); [done|].
  intros c1 rb Hin [Hc1 Hs1]. apply list_elem_of_lookup in Hin as [k Hk].
  destruct (mapR_lookup _ _ _ _ _ Ev Hk) as (b & Hb & E). pose proof (list_elem_of_lookup_2 _ _ _ Hb) as Hbin.
  destruct (check_blob_ok received c b (Ht b Hbin) Hc) as [_ Hcb]. destruct (Hcb _ E) as (<- & bundle & Eb & Hok).
  destruct (same_blocks_lookup _ _ _ _ Hs1 Eb) as (bundle1 & Eb1 & Hblock). rewrite <-Hblock in Hok.
  unfold insert_blob. rewrite (with_bundle_ok _ _ _ _ Eb1). eexists. split; [done|].
  destruct (set_bundle_ok received c1 rb.1 bundle1
    (set_blobs (<[mkBlobIdentifier rb.1 (bl_index rb.2) := rb.2]> (bu_blobs bundle1)) bundle1) Hc1 Eb1 eq_refl) as [H1 H2].
  { destruct (Hc1 _ _ Eb1) as [B1 B2 B3]. split; [done| |done]. cbn. intros i b [[<- <-]|[_ Hb']]%lookup_insert_Some; [done|by apply B2]. }
  split; [done|by etrans].
Qed.

Lemma chain_returns blocks : returns (validate_range_chain blocks).
Proof using Type.
  apply (foldM_returns (fun _ => True)); [done| |done]. intros u i Hi _. rewrite elem_of_reverse, elem_of_seq in Hi. unfold check_link.
  case_if; [|done]. b2p. destruct (lookup_lt_is_Some_2 blocks i) as [b Eb]; [lia|].
  destruct (lookup_lt_is_Some_2 blocks (i - 1)) as [p Ep]; [lia|].
  rewrite (index_lookup _ _ _ Eb). cbn [mbind res_bind]. rewrite (index_lookup _ _ _ Ep). cbn [mbind res_bind]. returns_step. auto with res.
Qed.

Lemma insert_blocks_ok received peer blocks c : cache_ok received c -> cache_ok received (foldl (insert_block peer) c blocks).
Proof using Type.
  revert c. induction blocks as [|b blocks IH]; intros c Hc; cbn [foldl]; [done|]. apply IH.
  intros root bundle. unfold insert_block. cbn. intros [[<- <-]|[_ Hr]]%lookup_insert_Some; [|by apply Hc].
  split; [done|..]; cbn; intros i x; by rewrite lookup_empty.
Qed.

Lemma add_blocks_ok received blocks is_range peer c :
  cache_ok received c ->
  (exists e, add_blocks blocks is_range peer c = Err e) \/ exists c', add_blocks blocks is_range peer c = Ok c' /\ cache_ok received c'.
Proof using Type.
  intros Hc. unfold add_blocks. destruct is_range; cbn [mbind res_bind]; [|right; eexists; split; [done|by apply insert_blocks_ok]].
  pose proof (chain_returns blocks) as Hret.
  destruct (validate_range_chain blocks); cbn [invalid_batch mbind res_bind]; [|left; by eexists|done|done].
  repeat case_match; cbn [mbind res_bind]; try (right; eexists; split; [done|by apply insert_blocks_ok]). left. by eexists.
Qed.

Lemma add_parent_blocks_ok received blocks peer c :
  cache_ok received c ->
  (exists e, add_parent_blocks blocks peer c = Err e) \/ exists c', add_parent_blocks blocks peer c = Ok c' /\ cache_ok received c'.
Proof using Type.
  intros Hc. unfold add_parent_blocks.
  assert (returns (foldM (fun _ block => check_parent c block) tt blocks)) as Hret.
  { apply (foldM_returns (fun _ => True)); [done| |done]. intros u b _ _. unfold check_parent. returns_step.
    apply (foldM_returns (fun _ => True)); [done| |done]. intros. auto with res. }
  destruct (foldM _ tt blocks); cbn [invalid_batch mbind res_bind]; [|left; by eexists|done|done]. by apply add_blocks_ok.
Qed.

Lemma from_recovery_seed_ok received seed :
  (exists e, from_recovery_seed seed = Err e) \/ exists c, from_recovery_seed seed = Ok c /\ cache_ok received c.
Proof using Type.
  unfold from_recovery_seed. destruct (rs_forward_blocks seed) as [|first rest] eqn:Ef; [left; by eexists|].
  rewrite bool_decide_eq_false_2 by done. cbn [negb ensure mbind res_bind].
  pose proof (chain_returns (first :: rest)) as Hret.
  destruct (validate_range_chain _); cbn [mbind res_bind]; [|left; by eexists|done|done].
  change (index (E := anyhow) (first :: rest) 0) with (@Ok anyhow _ first). cbn [mbind res_bind].
  destruct (bool_decide _); cbn [ensure mbind res_bind]; [|left; by eexists].
  destruct (_ <? _); cbn [ensure mbind res_bind]; [|left; by eexists].
  assert (returns (foldM (check_seed_block (rs_target_slot seed)) ∅ (first :: rest))) as Hr.
  { apply (foldM_returns (fun _ => True)); [done| |done]. intros seen b _ _. unfold check_seed_block. by do 2 returns_step. }
  destruct (foldM (check_seed_block _) _ _); cbn [mbind res_bind]; [|left; by eexists|done|done].
  destruct (last (first :: rest)) as [tip|] eqn:El; [|by apply last_None in El].
  destruct (add_blocks_ok received (first :: rest) true (rs_source_peer seed) (cache_new (rs_ancestor_root seed) (rs_ancestor_slot seed))) as [[e ->]|(c & -> & Hc)].
  - intros root bundle. cbn. by rewrite lookup_empty.
  - left. by eexists.
  - right. by eexists.
Qed.

(** *** Choosing what to fetch changes the attempts, the queues and the next slot only *)

Lemma is_schedulable_attempts key peers now c : (is_schedulable key peers now c).2 = set_attempts (bc_attempts (is_schedulable key peers now c).2) c.
Proof using Type.
  cbn. unfold refresh_attempt_round. destruct (bc_attempts c !! key) as [[s [cd|]]|]; [|by destruct c..]. case_if; by destruct c.
Qed.

Lemma find_schedulable_attempts key peers now ranges c :
  (find_schedulable key peers now ranges c).2 = set_attempts (bc_attempts (find_schedulable key peers now ranges c).2) c.
Proof using Type.
  revert c. induction ranges as [|[i r] ranges IH]; intros c; cbn [find_schedulable]; [by destruct c|].
  pose proof (is_schedulable_attempts (key r) peers now c) as E. destruct (is_schedulable (key r) peers now c) as [ok c1]. cbn [snd] in E.
  destruct ok; [done|]. rewrite (IH c1) at 1.
  generalize (bc_attempts (find_schedulable key peers now ranges c1).2). intros a. by rewrite E.
Qed.

Lemma retain_schedulable_attempts {A} in_progress (key : A -> RequestKey) peers now l c :
  (retain_schedulable in_progress key peers now l c).2 = set_attempts (bc_attempts (retain_schedulable in_progress key peers now l c).2) c.
Proof using Type.
  revert c. induction l as [|a l IH]; intros c; cbn [retain_schedulable]; [by destruct c|].
  assert (exists keep at', (if in_progress c a then (false, c) else is_schedulable (key a) peers now c) = (keep, set_attempts at' c)) as (keep & at' & ->).
  { destruct (in_progress c a); [exists false, (bc_attempts c); by destruct c|].
    pose proof (is_schedulable_attempts (key a) peers now c) as E. destruct (is_schedulable (key a) peers now c) as [ok c1]. cbn [snd] in E.
    exists ok, (bc_attempts c1). by rewrite E at 1. }
  pose proof (IH (set_attempts at' c)) as E. destruct (retain_schedulable _ _ _ _ l _) as [kept c2]. cbn [snd] in *. by rewrite E at 1.
Qed.

Lemma fetch_missing_attempts epoch required peers now has_retry c :
  (fetch_missing epoch required peers now has_retry c).2 = set_attempts (bc_attempts (fetch_missing epoch required peers now has_retry c).2) c.
Proof using Type.
  unfold fetch_missing.
  match goal with |- context [retain_schedulable ?p ?k ?ps ?n ?l c] => pose proof (retain_schedulable_attempts p k ps n l c) as E1;
    destruct (retain_schedulable p k ps n l c) as [roots c1] end.
  match goal with |- context [retain_schedulable ?p ?k ?ps ?n ?l c1] => pose proof (retain_schedulable_attempts p k ps n l c1) as E2;
    destruct (retain_schedulable p k ps n l c1) as [blobs c2] end.
  match goal with |- context [retain_schedulable ?p ?k ?ps ?n ?l c2] => pose proof (retain_schedulable_attempts p k ps n l c2) as E3;
    destruct (retain_schedulable p k ps n l c2) as [columns c3] end.
  cbn [snd] in *. rewrite E3, E2, E1. done.
Qed.

Lemma data_to_fetch_keeps target epoch required peers now tracked c :
  let c' := (data_to_fetch target epoch required peers now tracked c).2 in
  bc_blocks_and_blobs c' = bc_blocks_and_blobs c /\ bc_initial_parent_root c' = bc_initial_parent_root c /\
  bc_known_parent_roots c' = bc_known_parent_roots c.
Proof using Type.
  unfold data_to_fetch, take_schedulable_retry_range, take_schedulable_column_range. case_if; [done|].
  match goal with |- context [find_schedulable ?k ?ps ?n ?l c] => pose proof (find_schedulable_attempts k ps n l c) as E1;
    destruct (find_schedulable k ps n l c) as [[[i r]|] c1] end; cbn [snd] in E1; [by rewrite E1|].
  case_if; [by rewrite E1|]. case_if; [by rewrite E1|].
  match goal with |- context [find_schedulable ?k ?ps ?n ?l c1] => pose proof (find_schedulable_attempts k ps n l c1) as E2;
    destruct (find_schedulable k ps n l c1) as [[[i r]|] c2] end; cbn [snd] in E2; [by rewrite E2, E1|].
  rewrite fetch_missing_attempts. by rewrite E2, E1.
Qed.
(** ** What is asked for, and of whom *)

(** A request may go out: it is new, or a candidate peer has not been tried since the
    last cooldown ended. *)
Definition cooldown_over (st : AttemptState) (now : Z) : Prop := exists t, cooldown_until st = Some t /\ t <= now.
Definition has_untried_peer (key : RequestKey) (peers : list PeerId) (now : Z) (c : BlockCache) : Prop :=
  match bc_attempts c !! key with
  | None => True
  | Some st => exists p, p ∈ peers /\ (cooldown_over st now \/ p ∉ attempted_peers st)
  end.

Lemma some_peer_untried st peers :
  existsb (fun peer => bool_decide (peer ∉ attempted_peers st)) peers = true <-> exists p, p ∈ peers /\ p ∉ attempted_peers st.
Proof using Type.
  rewrite existsb_exists. split; intros (p & Hp & Hb); exists p.
  - rewrite list_elem_of_In. by b2p.
  - rewrite <-list_elem_of_In, bool_decide_eq_true_2; done.
Qed.

(** What asking leaves of the attempts: the round of a request whose cooldown ended starts anew. *)
Lemma refresh_lookup key key' now c :
  bc_attempts (refresh_attempt_round key now c) !! key' = bc_attempts c !! key' \/
  key' = key /\ bc_attempts (refresh_attempt_round key now c) !! key = Some (mkAttemptState ∅ None) /\
  exists st, bc_attempts c !! key = Some st /\ cooldown_over st now.
Proof using Type.
  unfold refresh_attempt_round. destruct (bc_attempts c !! key) as [[tried [t|]]|] eqn:E; [|by left..].
  case_if; [|by left]. b2p. cbn. destruct (decide (key' = key)) as [->|Hne]; [|left; by rewrite lookup_insert_ne].
  right. rewrite lookup_insert_eq. split; [done|]. split; [done|]. eexists. split; [done|]. by exists t.
Qed.

Lemma untried_refresh key key' peers now c :
  has_untried_peer key' peers now (refresh_attempt_round key now c) <-> has_untried_peer key' peers now c.
Proof using Type.
  unfold has_untried_peer. destruct (refresh_lookup key key' now c) as [->|(-> & -> & st & -> & Hover)]; [done|].
  split; intros (p & Hp & _); exists p; split; [done|by left|done|]. right. apply not_elem_of_empty.
Qed.

Lemma is_schedulable_spec key peers now c : (is_schedulable key peers now c).1 = true <-> has_untried_peer key peers now c.
Proof using Type.
  rewrite <-(untried_refresh key). unfold is_schedulable, has_untried_peer. cbn [fst].
  destruct (bc_attempts (refresh_attempt_round key now c) !! key) as [st|] eqn:E; [|done]. rewrite some_peer_untried.
  split; intros (p & Hp & Hu); exists p; [by auto|]. destruct Hu as [(t & Ht & Hle)|Hu]; [|done]. exfalso.
  revert E. unfold refresh_attempt_round. destruct (bc_attempts c !! key) as [[tried [t'|]]|] eqn:Ec.
  - case_if; cbn.
    + rewrite lookup_insert_eq. intros [= <-]. done.
    + rewrite Ec. intros [= <-]. cbn in Ht. injection Ht as ->. b2p. lia.
  - rewrite Ec. intros [= <-]. done.
  - by rewrite Ec.
Qed.

Lemma untried_asked key key' peers now c :
  has_untried_peer key' peers now (is_schedulable key peers now c).2 <-> has_untried_peer key' peers now c.
Proof using Type. apply untried_refresh. Qed.

Lemma find_schedulable_spec key peers now ranges c :
  match (find_schedulable key peers now ranges c).1 with
  | Some ir => ir ∈ ranges /\ has_untried_peer (key ir.2) peers now c
  | None => forall ir, ir ∈ ranges -> ~ has_untried_peer (key ir.2) peers now c
  end /\ forall key', has_untried_peer key' peers now (find_schedulable key peers now ranges c).2 <-> has_untried_peer key' peers now c.
Proof using Type.
  revert c. induction ranges as [|[i r] ranges IH]; intros c; cbn [find_schedulable].
  - split; [|done]. intros ir Hir. by apply not_elem_of_nil in Hir.
  - pose proof (is_schedulable_spec (key r) peers now c) as Hs. pose proof (fun k' => untried_asked (key r) k' peers now c) as Hu.
    destruct (is_schedulable (key r) peers now c) as [ok c1]. cbn [fst snd] in Hs, Hu. destruct ok.
    + split; [|exact Hu]. cbn. split; [apply elem_of_cons; by left|by apply Hs].
    + destruct (IH c1) as [H1 H2]. split; [|intros k'; by rewrite H2].
      destruct (find_schedulable key peers now ranges c1) as [[ir|] c2]; cbn [fst] in *.
      * destruct H1 as [H1 H1']. split; [apply elem_of_cons; by right|by apply Hu].
      * intros ir [->|Hir]%elem_of_cons; [|rewrite <-Hu; by apply H1]. cbn. rewrite <-Hs. done.
Qed.

Lemma retain_schedulable_spec {A} in_progress (key : A -> RequestKey) peers now l c :
  (forall a at', in_progress (set_attempts at' c) a = in_progress c a) ->
  (forall a, a ∈ (retain_schedulable in_progress key peers now l c).1 <->
     a ∈ l /\ in_progress c a = false /\ has_untried_peer (key a) peers now c) /\
  forall key', has_untried_peer key' peers now (retain_schedulable in_progress key peers now l c).2 <-> has_untried_peer key' peers now c.
Proof using Type.
  revert c. induction l as [|a l IH]; intros c Hp; cbn [retain_schedulable].
  - split; [|done]. intros x. cbn. rewrite elem_of_nil. tauto.
  - assert (exists keep at', (if in_progress c a then (false, c) else is_schedulable (key a) peers now c) = (keep, set_attempts at' c) /\
      (keep = true <-> in_progress c a = false /\ has_untried_peer (key a) peers now c) /\
      forall key', has_untried_peer key' peers now (set_attempts at' c) <-> has_untried_peer key' peers now c)
      as (keep & at' & -> & Hkeep & Hu).
    { destruct (in_progress c a) eqn:Ep.
      - exists false, (bc_attempts c). replace (set_attempts (bc_attempts c) c) with c by by destruct c. split; [done|].
        split; [|done]. split; [done|intros [? _]; done].
      - pose proof (is_schedulable_spec (key a) peers now c) as Hs. pose proof (fun k' => untried_asked (key a) k' peers now c) as Hu.
        pose proof (is_schedulable_attempts (key a) peers now c) as E. destruct (is_schedulable (key a) peers now c) as [ok c1].
        cbn [fst snd] in *. exists ok, (bc_attempts c1). rewrite <-E. split; [done|]. split; [|done]. rewrite Hs. tauto. }
    destruct (IH (set_attempts at' c)) as [H1 H2].
    { intros x at2. rewrite Hp. rewrite <-(Hp x at2). by destruct c. }
    destruct (retain_schedulable _ _ _ _ l _) as [kept c2]. cbn [fst snd] in *. split; [|intros k'; by rewrite H2].
    intros x. rewrite elem_of_cons. assert (x ∈ (if keep then a :: kept else kept) <-> x = a /\ keep = true \/ x ∈ kept) as ->.
    { destruct keep; [rewrite elem_of_cons|]; intuition done. }
    rewrite H1, Hp, Hu. split.
    + intros [[-> Hk]|?]; [apply Hkeep in Hk|]; tauto.
    + intros ([->|Hx] & ? & ?); [left; by rewrite Hkeep|by right].
Qed.

(** ** What is missing *)

Definition missing_parent (c : BlockCache) (root : B256) : Prop :=
  (exists r b, bc_blocks_and_blobs c !! r = Some b /\ parent_of (bu_block b) = root) /\
  bc_blocks_and_blobs c !! root = None /\ root <> bc_initial_parent_root c /\ root ∉ bc_known_parent_roots c.
(** Columns are needed for blocks with blobs, from the Fulu fork on, within the retention window. *)
Definition needs_columns (epoch : Z) (block : SignedBeaconBlock) : Prop :=
  commitments_of block <> [] /\ fulu_fork_epoch <= compute_epoch_at_slot (slot_of block) /\
  epoch - min_epochs_for_data_column_sidecars_requests <= compute_epoch_at_slot (slot_of block).
Definition missing_column (epoch : Z) (required : gset Z) (c : BlockCache) (id : ColumnIdentifier) : Prop :=
  exists r b i, bc_blocks_and_blobs c !! r = Some b /\ needs_columns epoch (bu_block b) /\ i ∈ required /\
    id = mkColumnIdentifier (root_of (bu_block b)) i /\ bu_columns b !! id = None.

Lemma elem_of_bundles c b : b ∈ bundles c <-> exists r, bc_blocks_and_blobs c !! r = Some b.
Proof using HOL.
  unfold bundles. rewrite list_elem_of_fmap. split.
  - intros ([r b'] & -> & Hb%elem_of_hm_iter). eauto.
  - intros [r Hr]. exists (r, b). by rewrite elem_of_hm_iter.
Qed.

Lemma missing_block_roots_spec c root : root ∈ get_missing_block_roots c <-> missing_parent c root.
Proof using HOL.
  unfold get_missing_block_roots, missing_parent. rewrite list_elem_of_filter, list_elem_of_fmap. split.
  - intros ((H1 & H2 & H3) & b & -> & [r Hr]%elem_of_bundles). eauto 10.
  - intros ((r & b & Hr & <-) & H1 & H2 & H3). split; [done|]. exists b. split; [done|]. apply elem_of_bundles. eauto.
Qed.

Lemma check_required_spec epoch b :
  0 <= fulu_fork_epoch ->
  check_required epoch b = true <-> fulu_fork_epoch <= compute_epoch_at_slot (slot_of (bu_block b)) /\
    epoch - min_epochs_for_data_column_sidecars_requests <= compute_epoch_at_slot (slot_of (bu_block b)).
Proof using Type.
  intros Hf. unfold check_required, is_data_availability_check_required, saturating_sub. rewrite Z.leb_le. lia.
Qed.

Lemma missing_columns_spec epoch required c id :
  0 <= fulu_fork_epoch -> id ∈ get_missing_data_column_identifiers epoch required c <-> missing_column epoch required c id.
Proof using HOL.
  intros Hf. unfold get_missing_data_column_identifiers, missing_column. rewrite list_elem_of_bind. split.
  - intros (b & Hid & [r Hr]%elem_of_bundles). unfold missing_columns_of in Hid.
    case_bool_decide as Hc; [by apply not_elem_of_nil in Hid|]. destruct (check_required epoch b) eqn:Ew; [|by apply not_elem_of_nil in Hid].
    cbn [negb] in Hid. case_if; [by apply not_elem_of_nil in Hid|]. unfold columns_lacking in Hid.
    apply list_elem_of_filter in Hid as [Hn (i & -> & Hi%elem_of_hs_iter)%list_elem_of_fmap].
    apply check_required_spec in Ew; [|done]. exists r, b, i. by unfold needs_columns.
  - intros (r & b & i & Hr & (N1 & N2 & N3) & Hi & -> & Hn). exists b. split; [|apply elem_of_bundles; eauto].
    unfold missing_columns_of. rewrite bool_decide_eq_false_2 by done.
    rewrite (proj2 (check_required_spec epoch b Hf)) by done. cbn [negb].
    rewrite (proj2 (Z.ltb_ge _ _)) by done. unfold columns_lacking. apply list_elem_of_filter. split; [done|].
    apply list_elem_of_fmap. exists i. by rewrite elem_of_hs_iter.
Qed.

(** Blobs are asked for within the window of the data columns, which starts at the Fulu
    fork, and only before it: never. *)
Lemma no_blob_is_missing epoch c : get_missing_blob_identifiers epoch c = [].
Proof using Type.
  unfold get_missing_blob_identifiers. induction (bundles c) as [|b l IH]; [done|]. cbn. rewrite IH, app_nil_r.
  unfold missing_blobs. destruct (check_required epoch b) eqn:Ew; [|done]. cbn [negb].
  unfold check_required, is_data_availability_check_required in Ew. b2p. rewrite (proj2 (Z.leb_le _ _)) by lia. done.
Qed.
(** ** The plan *)

(** Nothing is on its way and nothing is missing. *)
Record settled (epoch : Z) (required : gset Z) (c : BlockCache) : Prop := {
  st_ranges : bc_block_ranges_in_progress c = ∅;
  st_column_ranges : bc_column_ranges_in_progress c = ∅;
  st_columns_to_fetch : bc_column_ranges_to_fetch c = [];
  st_parents : forall root, ~ missing_parent c root;
  st_columns : forall id, ~ missing_column epoch required c id;
}.

(** What an answer means in the state it is given in. *)
Definition answer_fits (epoch : Z) (required : gset Z) (peers : list PeerId) (now : Z) (has_retry : bool) (c : BlockCache) (d : DataToFetch) : Prop :=
  match d with
  | FetchBlockRange _ | FetchDataColumnRange _ | MissingBlobIdentifiers _ => False
  | MissingBlockRoots roots => roots <> [] /\ forall root, (root ∈ roots) <->
      missing_parent c root /\ (root ∉ bc_block_roots_in_progress c) /\ has_untried_peer (KeyBlockRoot root) peers now c
  | MissingDataColumnIdentifiers ids => ids <> [] /\ forall id, (id ∈ ids) <->
      missing_column epoch required c id /\ (id ∉ bc_data_column_identifiers_in_progress c) /\ has_untried_peer (KeyColumn id) peers now c
  | ParentsExhausted => bc_block_roots_in_progress c = ∅ /\ peers <> [] /\ (exists root, missing_parent c root) /\
      forall root, missing_parent c root -> ~ has_untried_peer (KeyBlockRoot root) peers now c
  | DownloadsInProgress => ~ settled epoch required c \/ has_retry = true /\ peers = []
  | RangeExhausted => settled epoch required c /\ has_retry = true /\ peers <> []
  | Finished => settled epoch required c /\ has_retry = false
  end.

Lemma settled_attempts epoch required at' c : settled epoch required (set_attempts at' c) <-> settled epoch required c.
Proof using Type. split; intros [H1 H2 H3 H4 H5]; split; done. Qed.

Lemma nil_or_cons {A} (l : list A) : l <> [] -> exists a, a ∈ l.
Proof using Type. destruct l as [|a l]; [done|]. exists a. apply elem_of_cons. by left. Qed.

Lemma fetch_missing_fits epoch required peers now has_retry c :
  0 <= fulu_fork_epoch ->
  answer_fits epoch required peers now has_retry c (fetch_missing epoch required peers now has_retry c).1.
Proof using HOL.
  intros Hf. unfold fetch_missing.
  match goal with |- context [retain_schedulable ?p ?k ?ps ?n ?l c] =>
    pose proof (retain_schedulable_attempts p k ps n l c) as E1; pose proof (retain_schedulable_spec p k ps n l c) as S1;
    destruct (retain_schedulable p k ps n l c) as [roots c1] end.
  cbn [fst snd] in *. destruct S1 as [R1 U1]; [done|]. rewrite no_blob_is_missing. cbn [retain_schedulable].
  match goal with |- context [retain_schedulable ?p ?k ?ps ?n ?l c1] =>
    pose proof (retain_schedulable_attempts p k ps n l c1) as E2; pose proof (retain_schedulable_spec p k ps n l c1) as S2;
    destruct (retain_schedulable p k ps n l c1) as [columns c2] end.
  cbn [fst snd] in *. destruct S2 as [R2 U2]; [done|].
  assert (forall root, (root ∈ roots) <-> missing_parent c root /\ (root ∉ bc_block_roots_in_progress c) /\ has_untried_peer (KeyBlockRoot root) peers now c) as Hroots.
  { intros root. by rewrite R1, missing_block_roots_spec, bool_decide_eq_false. }
  assert (forall id, (id ∈ columns) <-> missing_column epoch required c id /\ (id ∉ bc_data_column_identifiers_in_progress c) /\
    has_untried_peer (KeyColumn id) peers now c) as Hcolumns.
  { intros id. rewrite R2, U1, missing_columns_spec, bool_decide_eq_false by done. by rewrite E1. }
  assert (forall root, root ∈ get_missing_block_roots c <-> missing_parent c root) as Hmr by apply missing_block_roots_spec.
  assert (forall id, id ∈ get_missing_data_column_identifiers epoch required c1 <-> missing_column epoch required c id) as Hmc.
  { intros id. rewrite missing_columns_spec by done. by rewrite E1. }
  assert (c2 = set_attempts (bc_attempts c2) c) as E by (rewrite E2, E1; done).
  clear E1 E2 R1 R2 U1 U2. rewrite E. clear E. cbn [bc_block_roots_in_progress bc_block_ranges_in_progress bc_column_ranges_in_progress bc_column_ranges_to_fetch set_attempts].
  set (mr := get_missing_block_roots c) in *. set (mc := get_missing_data_column_identifiers epoch required c1) in *. clearbody mr mc.
  rewrite !(bool_decide_eq_true_2 (@nil BlobIdentifier = [])) by done. cbn [negb orb].
  destruct (decide (roots = [])) as [->|Hne]; [|by rewrite (bool_decide_eq_false_2 (roots = []))].
  rewrite (bool_decide_eq_true_2 (@nil B256 = [])) by done. cbn [negb].
  assert (forall P, (columns <> [] -> answer_fits epoch required peers now has_retry c (MissingDataColumnIdentifiers columns)) ->
    (columns = [] -> answer_fits epoch required peers now has_retry c P) ->
    answer_fits epoch required peers now has_retry c (if negb (bool_decide (columns = [])) then MissingDataColumnIdentifiers columns else P)) as Hcol.
  { intros P H1 H2. case_bool_decide; cbn [negb]; auto. }
  destruct (decide (mr = [])) as [->|Hmr0].
  - rewrite ?(bool_decide_eq_true_2 (@nil B256 = [])) by done. cbn [negb andb orb]. apply Hcol; [done|]. intros ->. clear Hcol.
    destruct (decide (mc = [])) as [->|Hmc0].
    + rewrite (bool_decide_eq_true_2 (@nil ColumnIdentifier = [])) by done. cbn [negb orb]. case_if.
      * cbn. left. intros [H1 H2 H3 _ _]. rewrite H1, H2, H3 in *. done.
      * b2p. assert (settled epoch required c) as Hs.
        { split; [done..| |]; intros x Hx; [apply Hmr in Hx|apply Hmc in Hx]; by apply not_elem_of_nil in Hx. }
        destruct has_retry; [|done]. destruct peers; [cbn; by right|done].
    + rewrite (bool_decide_eq_false_2 (mc = [])) by done. cbn. left. intros [_ _ _ _ H5]. destruct (nil_or_cons _ Hmc0) as [id Hid].
      by apply (H5 id), Hmc.
  - rewrite !(bool_decide_eq_false_2 (mr = [])) by done. cbn [negb andb orb]. destruct (nil_or_cons _ Hmr0) as [root Hroot]. apply Hmr in Hroot.
    case_if; b2p.
    + cbn. split_and!; [done| |by exists root|]. { by destruct peers. }
      intros x Hx Hu. assert (x ∈ []) as Hn; [|by apply not_elem_of_nil in Hn]. apply Hroots. split_and!; [done| |done].
      match goal with H : bc_block_roots_in_progress c = ∅ |- _ => rewrite H end. apply not_elem_of_empty.
    + apply Hcol; [done|]. intros ->. cbn. left. intros [_ _ _ H4 _]. by apply (H4 root).
Qed.

Lemma answer_fits_attempts epoch required peers now has_retry at' c d :
  (forall key, has_untried_peer key peers now (set_attempts at' c) <-> has_untried_peer key peers now c) ->
  answer_fits epoch required peers now has_retry (set_attempts at' c) d -> answer_fits epoch required peers now has_retry c d.
Proof using Type.
  intros Hu. destruct d; cbn -[has_untried_peer missing_parent missing_column]; rewrite ?settled_attempts; try done.
  - intros [H1 H2]. split; [done|]. intros root. rewrite H2, Hu. done.
  - intros [H1 H2]. split; [done|]. intros id. rewrite H2, Hu. done.
  - intros (H1 & H2 & H3 & H4). split_and!; [done..|]. intros root. rewrite <-Hu. apply H4.
Qed.

(** A range taken from a queue. *)
Lemma reverse_imap_elem (ranges : list Range) i r : (i, r) ∈ reverse (imap pair ranges) <-> ranges !! i = Some r.
Proof using Type.
  rewrite elem_of_reverse, elem_of_lookup_imap. split.
  - intros (j & x & [= -> ->] & Hx). done.
  - intros Hi. eauto.
Qed.

Definition fresh_range (target : Z) (c c' : BlockCache) (r : Range) : Prop :=
  start_slot r = bc_next_start_slot c + 1 /\ 1 <= count r <= MAX_BLOCKS_PER_REQUEST /\
  bc_next_start_slot c' = bc_next_start_slot c + count r /\ bc_next_start_slot c' <= target.

(** Every answer of [data_to_fetch], in terms of the cache it is asked of. *)
Definition plan_fits (target epoch : Z) (required : gset Z) (peers : list PeerId) (now : Z) (c c' : BlockCache) (d : DataToFetch) : Prop :=
  match d with
  | FetchBlockRange r =>
      has_untried_peer (KeyBlockRange r) peers now c /\ bc_block_ranges_to_retry c ≡ₚ r :: bc_block_ranges_to_retry c' /\
        bc_next_start_slot c' = bc_next_start_slot c \/
      bc_block_ranges_to_retry c = [] /\ fresh_range target c c' r
  | FetchDataColumnRange r =>
      bc_block_ranges_in_progress c = ∅ /\ has_untried_peer (KeyColumnRange r) peers now c /\
        bc_column_ranges_to_fetch c ≡ₚ r :: bc_column_ranges_to_fetch c'
  | DownloadsInProgress => ~ settled epoch required c \/ bc_block_ranges_to_retry c <> [] /\ peers = []
  | RangeExhausted => settled epoch required c /\ bc_block_ranges_to_retry c <> [] /\ peers <> [] /\
      forall r, r ∈ bc_block_ranges_to_retry c -> ~ has_untried_peer (KeyBlockRange r) peers now c
  | Finished => settled epoch required c /\ bc_block_ranges_to_retry c = [] /\
      (target <= bc_next_start_slot c \/ 30 < bc_next_start_slot c - bc_initial_slot c)
  | _ => answer_fits epoch required peers now false c d
  end.

Lemma plan_holds target epoch required peers now tracked c :
  0 <= fulu_fork_epoch -> is_u64 target -> 0 <= bc_next_start_slot c ->
  plan_fits target epoch required peers now c (data_to_fetch target epoch required peers now tracked c).2
    (data_to_fetch target epoch required peers now tracked c).1.
Proof using HOL.
  intros Hf Ht Hn. unfold data_to_fetch, take_schedulable_retry_range, take_schedulable_column_range.
  destruct (_ && _) eqn:E0.
  { cbn. left. intros [H1 _ _ _ _]. b2p. done. }
  clear E0. set (retry := bc_block_ranges_to_retry c).
  pose proof (find_schedulable_attempts KeyBlockRange peers now (reverse (imap pair retry)) c) as A1.
  destruct (find_schedulable_spec KeyBlockRange peers now (reverse (imap pair retry)) c) as [S1 U1].
  destruct (find_schedulable KeyBlockRange peers now (reverse (imap pair retry)) c) as [[[i r]|] c1]; cbn [fst snd] in *.
  { destruct S1 as [Hi%reverse_imap_elem Hu]. cbn. left. split; [done|]. rewrite A1. split; [|done].
    cbn. by apply delete_Permutation. }
  assert (forall r, r ∈ retry -> ~ has_untried_peer (KeyBlockRange r) peers now c) as Hnone.
  { intros r [i Hi]%list_elem_of_lookup. apply (S1 (i, r)). by apply reverse_imap_elem. }
  assert (estimated_blocks_to_fetch c1 = estimated_blocks_to_fetch c) as -> by (by rewrite A1).
  assert (bc_next_start_slot c1 = bc_next_start_slot c) as Hn1 by (by rewrite A1).
  assert (bc_block_ranges_in_progress c1 = bc_block_ranges_in_progress c) as Hp1 by (by rewrite A1).
  assert (bc_column_ranges_to_fetch c1 = bc_column_ranges_to_fetch c) as Hq1 by (by rewrite A1). rewrite Hn1, Hp1, Hq1.
  destruct (negb (negb _) && _ && _) eqn:Efresh.
  { cbn. right. b2p. split; [done|]. unfold fresh_range. cbn [start_slot count bc_next_start_slot set_next_start_slot].
    unfold estimated_blocks_to_fetch, MAX_BLOCKS_PER_REQUEST, is_u64 in *. case_if; [lia|]. u64_simpl. lia. }
  destruct (decide (bc_block_ranges_in_progress c = ∅)) as [Hp|Hp].
  2:{ rewrite bool_decide_eq_false_2 by done. cbn. left. by intros [? _ _ _ _]. }
  rewrite bool_decide_eq_true_2 by done. cbn [negb].
  pose proof (find_schedulable_attempts KeyColumnRange peers now (reverse (imap pair (bc_column_ranges_to_fetch c))) c1) as A2.
  destruct (find_schedulable_spec KeyColumnRange peers now (reverse (imap pair (bc_column_ranges_to_fetch c))) c1) as [S2 U2].
  destruct (find_schedulable KeyColumnRange peers now (reverse (imap pair (bc_column_ranges_to_fetch c))) c1) as [[[i r]|] c2]; cbn [fst snd] in *.
  { destruct S2 as [Hi%reverse_imap_elem Hu]. cbn. split; [done|]. split; [by apply U1|]. rewrite A2, A1. cbn.
    by apply delete_Permutation. }
  assert (c2 = set_attempts (bc_attempts c2) c) as A by (rewrite A2, A1; done).
  pose proof (fetch_missing_fits epoch required peers now (negb (bool_decide (retry = []))) c2 Hf) as Hfit. rewrite A in Hfit at 1.
  apply answer_fits_attempts in Hfit.
  2:{ intros key. rewrite <-A, U2. apply U1. }
  assert (negb (bool_decide (retry = [])) = true <-> retry <> []) as Hretry by (by rewrite negb_true_iff, bool_decide_eq_false).
  assert (negb (bool_decide (retry = [])) = false <-> retry = []) as Hretry' by (by rewrite negb_false_iff, bool_decide_eq_true).
  destruct (fetch_missing epoch required peers now (negb (bool_decide (retry = []))) c2) as [d c3]. cbn [fst snd] in *.
  destruct d; cbn -[has_untried_peer missing_parent missing_column] in Hfit |- *; try done.
  - destruct Hfit as [?|[?%Hretry ?]]; auto.
  - destruct Hfit as (? & ?%Hretry & ?). auto.
  - destruct Hfit as [Hs Hr%Hretry']. split_and!; [done|done|]. fold retry in Efresh. rewrite (bool_decide_eq_true_2 (retry = [])) in Efresh by done.
    cbn [negb andb] in Efresh. unfold estimated_blocks_to_fetch, saturating_sub in Efresh. case_if; b2p; [right; lia|].
    left. destruct (_ <? target) eqn:El; [done|]. b2p. lia.
Qed.

(** ** The operations of a download *)

Inductive CacheOp : Type :=
  | OpNew (parent_root : B256) (start : Z)
  | OpRecover (seed : RecoverySeed)
  | OpAddBlocks (blocks : list SignedBeaconBlock) (is_range : bool) (peer : PeerId)
  | OpAddParentBlocks (blocks : list SignedBeaconBlock) (peer : PeerId)
  | OpAddBlobs (blobs : list BlobSidecar)
  | OpAddColumns (columns : list DataColumnSidecar) (required : gset Z)
  | OpAdvance (frontier : FrontierObservation) (parent_root : B256) (covered_through : Z) (peers : gset PeerId)
  | OpParentKnown (root : B256)
  | OpFetch (target epoch : Z) (required : gset Z) (peers : list PeerId) (now : Z) (tracked : bool)
  | OpAttempted (key : RequestKey) (peer : PeerId) (peers : list PeerId) (now : Z)
  | OpClearAttempted (key : RequestKey)
  | OpRootsSent (roots : list B256)
  | OpRootsDone (roots : list B256)
  | OpBlobsSent (ids : list BlobIdentifier)
  | OpBlobsDone (ids : list BlobIdentifier)
  | OpColumnsSent (ids : list ColumnIdentifier)
  | OpColumnsDone (ids : list ColumnIdentifier)
  | OpColumnRangeQueued (range : Range)
  | OpColumnRangeSent (range : Range)
  | OpColumnRangeDone (range : Range)
  | OpRangeRetry (range : Range)
  | OpRangeSent (range : Range)
  | OpRangeDone (range : Range).

(** An operation that fails leaves the cache as it was; one that panics ends the run. *)
Definition settle_op {E} (r : res E BlockCache) (c : BlockCache) : res anyhow BlockCache :=
  match r with Ok c' => Ok c' | Err _ => Ok c | Panic => Panic | NoFuel => NoFuel end.

Definition cache_step (c : BlockCache) (op : CacheOp) : res anyhow BlockCache :=
  match op with
  | OpNew root start => Ok (cache_new root start)
  | OpRecover seed => settle_op (from_recovery_seed seed) c
  | OpAddBlocks blocks is_range peer => settle_op (add_blocks blocks is_range peer c) c
  | OpAddParentBlocks blocks peer => settle_op (add_parent_blocks blocks peer c) c
  | OpAddBlobs blobs => settle_op (add_blobs blobs c) c
  | OpAddColumns columns required => settle_op (add_data_columns columns required c) c
  | OpAdvance frontier root covered peers => settle_op (advance_empty_coverage frontier root covered peers c) c
  | OpParentKnown root => Ok (mark_parent_root_known root c)
  | OpFetch target epoch required peers now tracked => Ok (data_to_fetch target epoch required peers now tracked c).2
  | OpAttempted key peer peers now => Ok (mark_attempted key peer peers now c)
  | OpClearAttempted key => Ok (clear_attempted key c)
  | OpRootsSent roots => Ok (extend_block_roots_in_progress roots c)
  | OpRootsDone roots => Ok (remove_block_roots_in_progress roots c)
  | OpBlobsSent ids => Ok (extend_blob_identifiers_in_progress ids c)
  | OpBlobsDone ids => Ok (remove_blob_identifiers_in_progress ids c)
  | OpColumnsSent ids => Ok (extend_data_column_identifiers_in_progress ids c)
  | OpColumnsDone ids => Ok (remove_data_column_identifiers_in_progress ids c)
  | OpColumnRangeQueued range => Ok (push_column_range range c)
  | OpColumnRangeSent range => Ok (mark_column_range_in_progress range c)
  | OpColumnRangeDone range => Ok (remove_column_range_in_progress range c)
  | OpRangeRetry range => Ok (push_retry_range range c)
  | OpRangeSent range => Ok (mark_block_range_in_progress range c)
  | OpRangeDone range => Ok (remove_block_range_in_progress range c)
  end.

Definition columns_received (ops : list CacheOp) : list DataColumnSidecar :=
  ops ≫= fun op => match op with OpAddColumns columns _ => columns | _ => [] end.
Definition typed_op (op : CacheOp) : Prop :=
  match op with
  | OpAddBlobs blobs => Forall typed_blob blobs
  | OpAddColumns columns _ => Forall typed_column columns
  | _ => True
  end.

Lemma cache_ok_blocks received c c' : bc_blocks_and_blobs c' = bc_blocks_and_blobs c -> cache_ok received c -> cache_ok received c'.
Proof using Type. intros E Hc root b. rewrite E. apply Hc. Qed.

Lemma cache_step_ok received c op :
  agreeing received -> typed_op op -> (forall s, s ∈ columns_received [op] -> s ∈ received) -> cache_ok received c ->
  exists c', cache_step c op = Ok c' /\ cache_ok received c'.
Proof using KL KR VL HOL.
  intros Hagree Ht Hrec Hc. destruct op; cbn [cache_step typed_op] in *;
    try (eexists; split; [done|]; by eapply cache_ok_blocks; [|exact Hc]).
  - eexists. split; [done|]. intros root b. cbn. by rewrite lookup_empty.
  - destruct (from_recovery_seed_ok received seed) as [[e ->]|(c' & -> & ?)]; cbn; eauto.
  - destruct (add_blocks_ok received blocks is_range peer c Hc) as [[e ->]|(c' & -> & ?)]; cbn; eauto.
  - destruct (add_parent_blocks_ok received blocks peer c Hc) as [[e ->]|(c' & -> & ?)]; cbn; eauto.
  - destruct (add_blobs_ok received blobs c Ht Hc) as [[e ->]|(c' & -> & ? & _)]; cbn; eauto.
  - destruct (add_data_columns_ok received columns required c Hagree Ht) as [(e & -> & _)|(c' & -> & ? & _)]; [|done|cbn; eauto..].
    intros s Hs. apply Hrec. cbn. by rewrite app_nil_r.
  - unfold advance_empty_coverage. destruct (bc_coverage_anchor c); cbn [mbind res_bind].
    + eexists. split; [done|]. by eapply cache_ok_blocks; [|exact Hc].
    + destruct (is_pristine_for_advance c); cbn; [|by eauto]. eexists. split; [done|]. by eapply cache_ok_blocks; [|exact Hc].
  - eexists. split; [done|]. eapply cache_ok_blocks; [apply data_to_fetch_keeps|exact Hc].
  - eexists. split; [done|]. eapply cache_ok_blocks; [|exact Hc]. unfold remove_column_range_in_progress. by case_match.
Qed.

Lemma run_ok received ops c :
  agreeing received -> (forall s, s ∈ columns_received ops -> s ∈ received) -> Forall typed_op ops -> cache_ok received c ->
  exists c', foldM cache_step c ops = Ok c' /\ cache_ok received c'.
Proof using KL KR VL HOL.
  intros Hagree Hrec Ht Hc. rewrite Forall_forall in Ht. apply (foldM_Ok (cache_ok received)); [done|].
  intros c1 op Hop Hc1. apply cache_step_ok; [done|by apply Ht| |done]. intros s Hs. cbn in Hs. rewrite app_nil_r in Hs.
  apply Hrec, list_elem_of_bind. eauto.
Qed.

Lemma new_ok received root start : cache_ok received (cache_new root start).
Proof using Type. intros r b. cbn. by rewrite lookup_empty. Qed.

Lemma sort_by_slot l : StronglySorted (fun a b => slot_of (bu_block a) <= slot_of (bu_block b)) (sort_by by_slot_leb l).
Proof using Type.
  assert (StronglySorted (fun a b => by_slot_leb a b = true) (sort_by by_slot_leb l)) as Hs.
  { apply sort_by_sorted; unfold by_slot_leb; intros a b; [intros d; rewrite !Z.leb_le; lia|rewrite Z.leb_gt, Z.leb_le; lia]. }
  induction Hs as [|b l' _ IH Hb]; constructor; [done|]. eapply Forall_impl; [exact Hb|]. intros x Hx. by apply Z.leb_le.
Qed.

(** What is imported when a download is finished. *)
Lemma finished_bundles target epoch required peers now tracked c c' :
  0 <= fulu_fork_epoch -> is_u64 target -> 0 <= bc_next_start_slot c ->
  data_to_fetch target epoch required peers now tracked c = (Finished, c') ->
  (target <= bc_next_start_slot c \/ 30 < bc_next_start_slot c - bc_initial_slot c) /\
  exists l, get_blocks_and_blobs c' = Ok l /\ l ≡ₚ (map_to_list (bc_blocks_and_blobs c)).*2 /\
    StronglySorted (fun a b => slot_of (bu_block a) <= slot_of (bu_block b)) l /\
    forall b, b ∈ l ->
      (is_Some (bc_blocks_and_blobs c !! parent_of (bu_block b)) \/ parent_of (bu_block b) = bc_initial_parent_root c \/
       parent_of (bu_block b) ∈ bc_known_parent_roots c) /\
      (needs_columns epoch (bu_block b) -> forall i, i ∈ required -> is_Some (bu_columns b !! mkColumnIdentifier (root_of (bu_block b)) i)).
Proof using HOL.
  intros Hf Ht Hn E. pose proof (plan_holds target epoch required peers now tracked c Hf Ht Hn) as Hp. rewrite E in Hp.
  destruct Hp as ([_ _ _ Hparents Hcolumns] & _ & Hreach). split; [done|].
  destruct (data_to_fetch_keeps target epoch required peers now tracked c) as (K1 & K2 & K3). rewrite E in K1, K2, K3. cbn [snd] in *.
  assert (get_missing_block_roots c' = []) as Hnone.
  { destruct (get_missing_block_roots c') as [|root l] eqn:El; [done|]. exfalso.
    apply (Hparents root). assert (root ∈ get_missing_block_roots c') as Hin by (rewrite El; apply elem_of_cons; by left).
    apply missing_block_roots_spec in Hin. unfold missing_parent in *. by rewrite K1, K2, K3 in Hin. }
  exists (sort_by by_slot_leb (bundles c')). unfold get_blocks_and_blobs. rewrite Hnone. split_and!.
  - done.
  - rewrite sort_by_perm. unfold bundles. by rewrite K1, hm_iter_perm.
  - apply sort_by_slot.
  - intros b Hb. rewrite sort_by_perm, elem_of_bundles, K1 in Hb. destruct Hb as [r Hr]. split.
    + destruct (bc_blocks_and_blobs c !! parent_of (bu_block b)) eqn:Eb; [by left|right].
      destruct (decide (parent_of (bu_block b) = bc_initial_parent_root c)) as [Hi|Hi]; [by left|right].
      destruct (decide (parent_of (bu_block b) ∈ bc_known_parent_roots c)) as [Hk|Hk]; [done|]. exfalso.
      apply (Hparents (parent_of (bu_block b))). unfold missing_parent. eauto 10.
    + intros Hneed i Hi. destruct (bu_columns b !! _) eqn:Ec; [done|]. exfalso. eapply Hcolumns. exists r, b, i. eauto 10.
Qed.

(** ** Theorems *)



(** C23: when the download is finished the window is reached and the bundles handed over for
    import are all those of the cache, in order of slot: every parent is among them or
    known, and every block that needs columns has each required one, verified. *)
Theorem download_is_complete ops root start c target epoch required peers now tracked c' :
  agreeing (columns_received ops) -> Forall typed_op ops -> foldM cache_step (cache_new root start) ops = Ok c ->
  0 <= fulu_fork_epoch -> is_u64 target -> 0 <= bc_next_start_slot c ->
  data_to_fetch target epoch required peers now tracked c = (Finished, c') ->
  (target <= bc_next_start_slot c \/ 30 < bc_next_start_slot c - bc_initial_slot c) /\
  exists l, get_blocks_and_blobs c' = Ok l /\ l ≡ₚ (map_to_list (bc_blocks_and_blobs c)).*2 /\
    StronglySorted (fun a b => slot_of (bu_block a) <= slot_of (bu_block b)) l /\
    forall b, b ∈ l ->
      (is_Some (bc_blocks_and_blobs c !! parent_of (bu_block b)) \/ parent_of (bu_block b) = bc_initial_parent_root c \/
       parent_of (bu_block b) ∈ bc_known_parent_roots c) /\
      (needs_columns epoch (bu_block b) -> forall i, i ∈ required ->
       exists s, bu_columns b !! mkColumnIdentifier (root_of (bu_block b)) i = Some s /\ dc_index s = i /\
         column_ok (columns_received ops) (bu_block b) s).
Proof using KL KR VL HOL.
  intros Ha Ht E Hf Hu Hn Ef. destruct (finished_bundles _ _ _ _ _ _ _ _ Hf Hu Hn Ef) as [Hr (l & L1 & L2 & L3 & L4)].
  split; [done|]. exists l. split_and!; [done..|]. intros b Hb. destruct (L4 b Hb) as [P1 P2]. split; [done|]. intros Hneed i Hi.
  destruct (P2 Hneed i Hi) as [s Hs]. rewrite L2 in Hb. apply list_elem_of_fmap in Hb as ([r b'] & -> & Hb%elem_of_map_to_list). cbn in *.
  destruct (run_ok (columns_received ops) ops (cache_new root start) Ha (fun s H => H) Ht (new_ok _ _ _)) as (c1 & E1 & Hc1).
  rewrite E in E1. injection E1 as <-. destruct (bu_columns_ok _ _ _ (Hc1 _ _ Hb) _ _ Hs) as [[= _ ->] Hok]. eauto.
Qed.

End cache.

(** ** A download

    One block of one blob after the anchor, and half of its columns. *)
Module BlockCacheEx.
Import BeaconEx KzgEx.

Definition flat : Sha256 := fun _ => word 0.
Definition block_root : TreeHash BeaconBlock := fun b => word (1 + b_slot b).
Definition commitment_roots : CommitmentRoots := {| commitment_root := fun _ => word 0; commitments_root := fun _ => word 0 |}.
Definition spec : ForkChoiceSpec := {|
  slot_duration_ms := 12000; attestation_due_bps := 3333; proposer_reorg_cutoff_bps := 1667;
  min_epochs_for_data_column_sidecars_requests := 4096;
|}.
Definition bytes_len : SszBytesLen := fun _ => 400.
#[local] Existing Instances flat vec vec_laws network spec commitment_roots kzg kzg_laws kzg_returns roots block_root order bytes_len.
#[local] Instance order_laws : HashOrderLaws order := gmap_order_laws.

Definition blob_body : BeaconBlockBody :=
  mkBeaconBlockBody (mkBLSSignature (pk_inner (key 2))) (mkEth1Data B256_ZERO 0 B256_ZERO) B256_ZERO [] [] [] [] []
    (mkSyncAggregate (replicate 512 false) infinity)
    (mkExecutionPayload B256_ZERO [] B256_ZERO B256_ZERO [] B256_ZERO 1 0 0 (71 * 12) [] 0 B256_ZERO [] [] 0 0)
    [] [commitment] (mkExecutionRequests [] [] []).
Definition blob_block : SignedBeaconBlock :=
  mkSignedBeaconBlock (mkBeaconBlock 330 1 (word 5) (word 6) blob_body) (mkBLSSignature [1]).
Definition columns : list DataColumnSidecar := half (signed_header blob_block).
Definition all_columns : gset Z := list_to_set (range 0 NUMBER_OF_COLUMNS).

Definition before : list (CacheOp (PeerId := Z)) := [OpFetch 330 11 all_columns [7] 0 false; OpAddBlocks [blob_block] true 7].
Definition download : list (CacheOp (PeerId := Z)) := before ++ [OpAddColumns columns all_columns].

Lemma download_typed : Forall typed_op download.
Proof.
  apply Forall_cons_2; [exact I|]. apply Forall_cons_2; [exact I|]. apply Forall_cons_2; [|apply Forall_nil_2].
  cbn [typed_op]. apply Forall_forall. intros s (i & -> & Hi%elem_of_seqZ)%list_elem_of_fmap.
  split; [cbn; lia|done].
Qed.
Lemma download_agrees : agreeing (columns_received download).
Proof.
  assert (forall s, s ∈ columns_received download -> dc_kzg_commitments s = [commitment]) as Hc.
  { intros s Hs. cbn [columns_received download before app mbind list_bind] in Hs. rewrite app_nil_r in Hs.
    by apply list_elem_of_fmap in Hs as (i & -> & _). }
  intros a b Ha Hb _ _ _. by rewrite (Hc a Ha), (Hc b Hb).
Qed.

Definition after (ops : list (CacheOp (PeerId := Z))) : BlockCache :=
  match foldM cache_step (cache_new (word 5) 329) ops with Ok c => c | _ => cache_new (word 5) 329 end.
Lemma run_after ops : is_ok (foldM cache_step (cache_new (word 5) 329) ops) = true ->
  foldM cache_step (cache_new (word 5) 329) ops = Ok (after ops).
Proof. unfold after. by destruct (foldM _ _ ops). Qed.


Lemma download_ok : is_ok (foldM cache_step (cache_new (word 5) 329) download) = true.
Proof. vm_compute. reflexivity. Qed.




Definition last_answer := data_to_fetch 330 11 all_columns [7] 0 false (after download).
Lemma last_answer_finished : last_answer.1 = Finished /\ bc_next_start_slot (after download) = 330.
Proof. split; vm_compute; reflexivity. Qed.

Lemma last_answer_eq : data_to_fetch 330 11 all_columns [7] 0 false (after download) = (Finished, last_answer.2).
Proof.
  destruct last_answer_finished as [Hf _]. fold last_answer. revert Hf. generalize last_answer. intros [d c'] Hf. cbn in *. by subst d.
Qed.

Lemma download_is_complete_witness :
  exists l, get_blocks_and_blobs last_answer.2 = Ok l /\ l ≡ₚ (map_to_list (bc_blocks_and_blobs (after download))).*2.
Proof.
  destruct last_answer_finished as [_ Hn].
  destruct (download_is_complete (belongs := KzgEx.belongs) download (word 5) 329 (after download) 330 11 all_columns [7] 0 false last_answer.2)
    as (_ & l & E & Hp & _).
  - exact download_agrees.
  - exact download_typed.
  - exact (run_after download download_ok).
  - apply (Z.le_trans 0 0 10); lia.
  - unfold is_u64. lia.
  - rewrite Hn. lia.
  - exact last_answer_eq.
  - exists l. split; [exact E|exact Hp].
Defined.

End BlockCacheEx.
