(* ===== verification/MerkleCache.v ===== *)
(** * The Merkle trees kept beside a state

    [merkle_tree_cache.rs] and [parallel.rs] of [crates/common/consensus/beacon/src].  A
    cache keeps every level of the tree over the leaves it hashed last; a new root
    rehashes only the paths above the leaves that changed, over the levels it has.  The
    reference is [merkle_ref], the recursive Merkle root of the leaves padded with zeros,
    and the statement is that a cache, whatever it hashed before, returns it.

    The table of zero subtrees, [mix_in_length] and the roots of containers come from
    [ethereum_hashing] and [tree_hash]: they are arguments here. *)

From stdpp Require Import sorting.
From S2P Require Import Prelude Bytes Shuffling Merkle BeaconMutate BeaconRegistry BeaconProofs.

(** None of these functions returns an error: they return or they panic. *)
Abbreviation run := (res Empty_set).

(** [available_parallelism], never zero. *)
Class Threads : Type := thread_count : positive.

(** [div_ceil], [next_power_of_two] and [trailing_zeros] of a [usize]. *)
Definition div_ceil (a b : nat) : nat := (a + b - 1) / b.
Definition next_power_of_two (n : nat) : nat := 2 ^ Nat.log2_up n.
Fixpoint pos_trailing_zeros (p : positive) : nat :=
  match p with xO p' => S (pos_trailing_zeros p') | _ => O end.
Definition trailing_zeros (n : nat) : nat :=
  match N.of_nat n with N0 => 64 | Npos p => pos_trailing_zeros p end.

(** [Vec::resize] and [Vec::dedup], which drops repetitions that are next to each other. *)
Definition vec_resize {A} (width : nat) (a : A) (l : list A) : list A :=
  take width l ++ replicate (width - length l) a.
Fixpoint dedup_from (last : nat) (l : list nat) : list nat :=
  match l with
  | [] => []
  | x :: l' => if decide (x = last) then dedup_from last l' else x :: dedup_from x l'
  end.
Definition dedup (l : list nat) : list nat :=
  match l with [] => [] | x :: l' => x :: dedup_from x l' end.

Definition sort_unstable (l : list nat) : list nat := merge_sort (≤)%nat l.

(** ** [parallel_map] *)

Section parallel.
Context {T : Threads}.

(** The items are cut in as many pieces as there are threads; a worker that panics makes the
    [join] panic.  [slice::chunks] panics on a size of zero. *)
Definition parallel_map {A B} (items : list A) (threshold : nat) (f : A -> run B) : run (list B) :=
  let threads := Pos.to_nat thread_count in
  if (threads =? 1)%nat || (length items <? threshold)%nat then mapR f items
  else
    let chunk_size := div_ceil (length items) threads in
    if (chunk_size =? 0)%nat then Panic
    else @concat B <$> mapR (mapR f) (chunks chunk_size items).

Lemma mapR_concat {E A B} (f : A -> res E B) ls : @concat B <$> mapR (mapR f) ls = mapR f (concat ls).
Proof.
  induction ls as [|l ls IH]; cbn; [done|]. rewrite mapR_app, <-IH.
  destruct (mapR f l); cbn; [|done..]. by destruct (mapR (mapR f) ls).
Qed.

Lemma div_ceil_pos a b : (0 < a)%nat -> (0 < b)%nat -> (0 < div_ceil a b)%nat.
Proof. intros Ha Hb. unfold div_ceil. apply Nat.div_str_pos. lia. Qed.

(** Splitting across threads changes nothing. *)
Lemma parallel_map_mapR {A B} (items : list A) threshold (f : A -> run B) :
  (0 < threshold)%nat -> parallel_map items threshold f = mapR f items.
Proof.
  intros Ht. unfold parallel_map. destruct (_ || _) eqn:E; [done|].
  apply orb_false_iff in E as [_ E]. apply Nat.ltb_ge in E.
  pose proof (div_ceil_pos (length items) (Pos.to_nat thread_count) ltac:(lia) ltac:(lia)) as Hc.
  replace (_ =? 0)%nat with false by (symmetry; apply Nat.eqb_neq; lia).
  rewrite mapR_concat. unfold chunks. by rewrite chunks_concat_from.
Qed.

End parallel.

(** ** [MerkleTree] *)

(** [ethereum_hashing]'s table of the roots of zero subtrees. *)
Class ZeroHashes : Type := ZERO_HASHES : nat -> B256.
Definition ZERO_HASHES_MAX_INDEX : nat := 48.
Class ZeroHashesLaws (H : Sha256) (ZH : ZeroHashes) : Prop := {
  ZERO_HASHES_0 : ZERO_HASHES 0 = ZERO;
  ZERO_HASHES_S : forall i, (i < ZERO_HASHES_MAX_INDEX)%nat ->
    ZERO_HASHES (S i) = hash_concat (ZERO_HASHES i) (ZERO_HASHES i);
}.

(** [tree_hash]'s [mix_in_length]. *)
Class MixInLength : Type := mix_in_length : B256 -> nat -> B256.

Definition PARALLEL_HASH_THRESHOLD : nat := Z.to_nat 16384.

Record MerkleTree := mkMerkleTree { levels : list (list B256) }.

Section merkle_tree.
Context {H : Sha256} {ZH : ZeroHashes} {T : Threads}.

Definition zero_hash (depth : nat) : B256 :=
  if (depth <=? ZERO_HASHES_MAX_INDEX)%nat then ZERO_HASHES depth
  else foldl (fun node _ => hash_concat node node) (ZERO_HASHES ZERO_HASHES_MAX_INDEX)
         (seq ZERO_HASHES_MAX_INDEX (depth - ZERO_HASHES_MAX_INDEX)).

Definition levels_needed (leaves : nat) : nat := trailing_zeros (next_power_of_two (leaves `max` 1)) + 1.

Definition parent (below : list B256) (i below_depth : nat) : run B256 :=
  left ← index below (2 * i);
  Ok (hash_concat left (default (zero_hash below_depth) (below !! (2 * i + 1)%nat))).

Definition rebuild_level (ls : list (list B256)) (depth : nat) : run (list (list B256)) :=
  below ← index ls (depth - 1);
  level ← parallel_map (seq 0 (div_ceil (length below) 2)) PARALLEL_HASH_THRESHOLD
            (fun i => parent below i (depth - 1));
  Ok (ls ++ [level]).

Definition rebuild_upper_levels (self : MerkleTree) : run MerkleTree :=
  let ls := take 1 (levels self) in
  leaves ← index ls 0;
  mkMerkleTree <$> foldM rebuild_level ls (seq 1 (levels_needed (length leaves) - 1)).

Definition tree_of_leaves (leaves : list B256) : run MerkleTree := rebuild_upper_levels (mkMerkleTree [leaves]).

Definition leaf_count (self : MerkleTree) : run nat := length <$> index (levels self) 0.
Definition leaf (self : MerkleTree) (i : nat) : run B256 := leaves ← index (levels self) 0; index leaves i.

Definition set_leaf (self : MerkleTree) (i : nat) (l : B256) : run MerkleTree :=
  leaves ← index (levels self) 0;
  let leaves' := match leaves !! i with Some _ => <[i := l]> leaves | None => leaves ++ [l] end in
  mkMerkleTree <$> set_index (levels self) 0 leaves'.

Definition truncate (self : MerkleTree) (len : nat) : run (MerkleTree * option nat) :=
  leaves ← index (levels self) 0;
  if (length leaves <=? len)%nat then Ok (self, None)
  else
    self' ← mkMerkleTree <$> set_index (levels self) 0 (take len leaves);
    self'' ← (if (len =? 0)%nat then rebuild_upper_levels self' else Ok self');
    Ok (self'', if (len =? 0)%nat then None else Some (len - 1)%nat).

Definition rehash_level (st : list (list B256) * list nat) (depth : nat) : run (list (list B256) * list nat) :=
  let '(ls, dirty) := st in
  let dirty := dedup ((fun i => Nat.div2 i) <$> dirty) in
  below ← index ls (depth - 1);
  level ← index ls depth;
  let level := vec_resize (div_ceil (length below) 2) ZERO level in
  nodes ← parallel_map dirty PARALLEL_HASH_THRESHOLD (fun i => parent below i (depth - 1));
  level ← foldM (fun level (p : nat * B256) => set_index level p.1 p.2) level (zip dirty nodes);
  ls ← set_index ls depth level;
  Ok (ls, dirty).

Definition rehash (self : MerkleTree) (dirty : list nat) : run MerkleTree :=
  match dirty with
  | [] => Ok self
  | _ =>
      leaves ← index (levels self) 0;
      if (levels_needed (length leaves) =? length (levels self))%nat then
        st ← foldM rehash_level (levels self, dirty) (seq 1 (length (levels self) - 1));
        Ok (mkMerkleTree st.1)
      else rebuild_upper_levels self
  end.

Definition tree_root (self : MerkleTree) (limit_depth : nat) : run B256 :=
  let used_depth := (length (levels self) - 1)%nat in
  leaves ← index (levels self) 0;
  node ← (match leaves with
          | [] => Ok (zero_hash 0)
          | _ => top ← index (levels self) used_depth; index top 0
          end);
  Ok (foldl (fun node depth => hash_concat node (zero_hash depth)) node
        (seq used_depth (limit_depth - used_depth))).

(** Writing leaves: [tree.set_leaf(index, leaf); dirty.push(index)]. *)
Definition write_leaf (st : MerkleTree * list nat) (p : nat * B256) : run (MerkleTree * list nat) :=
  tree ← set_leaf st.1 p.1 p.2; Ok (tree, st.2 ++ [p.1]).

(** *** The levels of a tree *)

(** The nodes at height [k]: the roots of the blocks of [2 ^ k] leaves. *)
Definition width (k n : nat) : nat := div_ceil n (2 ^ k).
Definition level_ref (k : nat) (leaves : list B256) : list B256 :=
  (fun i => merkle_ref k (drop (i * 2 ^ k) leaves)) <$> seq 0 (width k (length leaves)).
Definition levels_ref (leaves : list B256) : list (list B256) :=
  (fun k => level_ref k leaves) <$> seq 0 (levels_needed (length leaves)).

Lemma pos_tz_pow k : pos_trailing_zeros (Pos.of_succ_nat (2 ^ k - 1)) = k.
Proof.
  induction k as [|k IH]; [done|]. assert (2 ^ k <> 0)%nat by (apply Nat.pow_nonzero; lia).
  replace (Pos.of_succ_nat (2 ^ S k - 1)) with (xO (Pos.of_succ_nat (2 ^ k - 1))) by (cbn; lia).
  cbn [pos_trailing_zeros]. by rewrite IH.
Qed.

Lemma trailing_zeros_pow k : trailing_zeros (2 ^ k) = k.
Proof.
  unfold trailing_zeros. assert (2 ^ k <> 0)%nat by (apply Nat.pow_nonzero; lia).
  replace (2 ^ k)%nat with (S (2 ^ k - 1)) by lia. apply pos_tz_pow.
Qed.

Lemma levels_needed_eq n : levels_needed n = S (Nat.log2_up n).
Proof.
  unfold levels_needed, next_power_of_two. rewrite trailing_zeros_pow.
  destruct n as [|n]; [done|]. rewrite Nat.max_l by lia. lia.
Qed.

Lemma width_lt i k n : (i < width k n <-> i * 2 ^ k < n)%nat.
Proof.
  unfold width, div_ceil. assert (2 ^ k <> 0)%nat as Hp by (apply Nat.pow_nonzero; lia).
  set (p := (2 ^ k)%nat) in *. clearbody p.
  pose proof (Nat.div_mod_eq (n + p - 1) p). pose proof (Nat.mod_upper_bound (n + p - 1) p Hp). nia.
Qed.

Lemma width_S k n : width (S k) n = div_ceil (width k n) 2.
Proof.
  assert (forall i, i < width (S k) n <-> i < div_ceil (width k n) 2)%nat as Hi.
  { intros i. assert (i < div_ceil (width k n) 2 <-> i * 2 ^ 1 < width k n)%nat as ->.
    { apply (width_lt i 1). }
    rewrite !width_lt. cbn [Nat.pow]. nia. }
  pose proof (Hi (width (S k) n)). pose proof (Hi (div_ceil (width k n) 2)). lia.
Qed.

Lemma length_level k leaves : length (level_ref k leaves) = width k (length leaves).
Proof. unfold level_ref. by rewrite length_fmap, length_seq. Qed.

Lemma level_lookup k leaves i :
  level_ref k leaves !! i =
    if decide (i * 2 ^ k < length leaves)%nat then Some (merkle_ref k (drop (i * 2 ^ k) leaves)) else None.
Proof.
  unfold level_ref. rewrite list_lookup_fmap. case_decide as Hi.
  - rewrite (lookup_seq_lt 0) by (by apply width_lt). done.
  - rewrite (lookup_seq_ge 0); [done|]. apply Nat.nlt_ge. by rewrite width_lt.
Qed.

Lemma level_ref_0 leaves : level_ref 0 leaves = leaves.
Proof.
  apply list_eq. intros i. rewrite level_lookup. cbn [Nat.pow merkle_ref]. rewrite Nat.mul_1_r. case_decide as Hi.
  - apply lookup_lt_is_Some_2 in Hi as [x Hx]. rewrite Hx.
    by rewrite (drop_S _ _ _ Hx).
  - symmetry. apply lookup_ge_None. lia.
Qed.

Lemma length_levels leaves : length (levels_ref leaves) = levels_needed (length leaves).
Proof. unfold levels_ref. by rewrite length_fmap, length_seq. Qed.

Lemma levels_lookup leaves k :
  (k < levels_needed (length leaves))%nat -> levels_ref leaves !! k = Some (level_ref k leaves).
Proof. intros Hk. unfold levels_ref. by rewrite list_lookup_fmap, (lookup_seq_lt 0). Qed.

Lemma levels_needed_pos n : (0 < levels_needed n)%nat.
Proof. rewrite levels_needed_eq. lia. Qed.

Lemma levels_leaves leaves : levels_ref leaves !! 0%nat = Some leaves.
Proof. rewrite levels_lookup, level_ref_0; [done|apply levels_needed_pos]. Qed.

Context {ZL : ZeroHashesLaws H ZH}.

Lemma zero_hash_S k : zero_hash (S k) = hash_concat (zero_hash k) (zero_hash k).
Proof using ZL.
  unfold zero_hash. destruct (decide (S k <= ZERO_HASHES_MAX_INDEX)%nat) as [Hk|Hk].
  - rewrite !leb_correct by lia. by apply ZERO_HASHES_S.
  - rewrite leb_correct_conv by lia. replace (S k - _)%nat with (S (k - ZERO_HASHES_MAX_INDEX)) by lia.
    rewrite seq_S, foldl_app. cbn [foldl]. destruct (decide (k = ZERO_HASHES_MAX_INDEX)) as [->|Hne].
    + by rewrite Nat.sub_diag, leb_correct.
    + by rewrite leb_correct_conv by lia.
Qed.

Lemma zero_hash_ref k : zero_hash k = merkle_ref k [].
Proof using ZL.
  induction k as [|k IH]; [change (ZERO_HASHES 0 = ZERO); apply ZERO_HASHES_0|].
  rewrite zero_hash_S. cbn [merkle_ref]. by rewrite take_nil, drop_nil, IH.
Qed.

Lemma merkle_ref_high d leaves :
  (length leaves <= 2 ^ d)%nat -> merkle_ref (S d) leaves = hash_concat (merkle_ref d leaves) (zero_hash d).
Proof using ZL. intros Hl. cbn [merkle_ref]. by rewrite take_ge, drop_ge, zero_hash_ref by lia. Qed.

Lemma parent_level k leaves i :
  (i * 2 ^ S k < length leaves)%nat ->
  parent (level_ref k leaves) i k = Ok (merkle_ref (S k) (drop (i * 2 ^ S k) leaves)).
Proof using ZL.
  intros Hi. unfold parent. rewrite (index_lookup _ _ (merkle_ref k (drop (2 * i * 2 ^ k) leaves))).
  - cbn [mbind res_bind]. f_equal. cbn [merkle_ref]. f_equal.
    + rewrite merkle_ref_take. f_equal. f_equal. cbn. lia.
    + rewrite level_lookup, drop_drop. replace (i * 2 ^ S k + 2 ^ k)%nat with ((2 * i + 1) * 2 ^ k)%nat by (cbn; lia).
      case_decide; cbn; [done|]. by rewrite drop_ge, zero_hash_ref by lia.
  - rewrite level_lookup, decide_True; [done|]. cbn in Hi. lia.
Qed.

Lemma level_S k leaves :
  parallel_map (seq 0 (div_ceil (length (level_ref k leaves)) 2)) PARALLEL_HASH_THRESHOLD
    (fun i => parent (level_ref k leaves) i k) = Ok (level_ref (S k) leaves).
Proof using ZL.
  rewrite length_level, <-width_S. rewrite parallel_map_mapR by (unfold PARALLEL_HASH_THRESHOLD; lia).
  apply mapR_fmap. intros i Hi%elem_of_seq. apply parent_level, width_lt. lia.
Qed.

Lemma rebuild_levels leaves m :
  foldM rebuild_level [leaves] (seq 1 m) = Ok ((fun k => level_ref k leaves) <$> seq 0 (S m)).
Proof using ZL.
  induction m as [|m IH]; [cbn [seq foldM fmap list_fmap]; by rewrite level_ref_0|].
  rewrite seq_S, foldM_app, IH. cbn [mbind res_bind foldM Nat.add].
  unfold rebuild_level. rewrite (index_lookup _ _ (level_ref m leaves)).
  - cbn [mbind res_bind]. replace (S m - 1)%nat with m by lia. rewrite level_S. cbn [mbind res_bind].
    by rewrite (seq_S (S m)), fmap_app.
  - rewrite list_lookup_fmap, (lookup_seq_lt 0) by lia. cbn. f_equal. f_equal. lia.
Qed.

(** Whatever the upper levels were. *)
Lemma rebuild_ref leaves ls :
  ls !! 0%nat = Some leaves -> rebuild_upper_levels (mkMerkleTree ls) = Ok (mkMerkleTree (levels_ref leaves)).
Proof using ZL.
  destruct ls as [|l ls]; [done|]. intros [= ->]. unfold rebuild_upper_levels.
  change (take 1 (levels _)) with [leaves]. cbn [index lookup list_lookup mbind res_bind].
  rewrite rebuild_levels. pose proof (levels_needed_pos (length leaves)).
  cbn [fmap res_fmap]. unfold levels_ref. do 4 f_equal. lia.
Qed.

Lemma tree_of_leaves_ref leaves : tree_of_leaves leaves = Ok (mkMerkleTree (levels_ref leaves)).
Proof using ZL. by apply rebuild_ref. Qed.

Lemma lift_root leaves d m :
  (length leaves <= 2 ^ d)%nat ->
  foldl (fun node depth => hash_concat node (zero_hash depth)) (merkle_ref d leaves) (seq d m) =
    merkle_ref (d + m) leaves.
Proof using ZL.
  intros Hl. induction m as [|m IH]; [by rewrite Nat.add_0_r|].
  rewrite seq_S, foldl_app, IH, Nat.add_succ_r. cbn [foldl]. rewrite merkle_ref_high; [done|].
  etrans; [exact Hl|]. apply Nat.pow_le_mono_r; lia.
Qed.

(** The root of a tree in order is the Merkle root of its leaves, padded to the limit. *)
Lemma tree_root_ref leaves limit_depth :
  (length leaves <= 2 ^ limit_depth)%nat ->
  tree_root (mkMerkleTree (levels_ref leaves)) limit_depth = Ok (merkle_ref limit_depth leaves).
Proof using ZL.
  intros Hl. unfold tree_root. cbn [levels]. rewrite (index_lookup _ _ _ (levels_leaves leaves)).
  rewrite length_levels, levels_needed_eq. cbn [mbind res_bind].
  replace (S (Nat.log2_up (length leaves)) - 1)%nat with (Nat.log2_up (length leaves)) by lia.
  assert (length leaves <= 2 ^ Nat.log2_up (length leaves))%nat as Hd.
  { destruct leaves; [cbn; lia|]. apply Nat.log2_up_le_pow2; cbn; lia. }
  assert (Nat.log2_up (length leaves) <= limit_depth)%nat as Hdl.
  { destruct leaves; [cbn; lia|]. apply Nat.log2_up_le_pow2; [cbn; lia|done]. }
  assert (match leaves with
          | [] => Ok (zero_hash 0)
          | _ => top ← index (levels_ref leaves) (Nat.log2_up (length leaves)); index top 0
          end = Ok (E := Empty_set) (merkle_ref (Nat.log2_up (length leaves)) leaves)) as ->.
  { destruct leaves as [|l leaves']; [by rewrite zero_hash_ref|].
    erewrite index_lookup by (apply levels_lookup; rewrite levels_needed_eq; lia). cbn [mbind res_bind].
    apply index_lookup. rewrite level_lookup, decide_True by (cbn; lia). by rewrite Nat.mul_0_l, drop_0. }
  cbn [mbind res_bind]. rewrite lift_root by done. do 2 f_equal. lia.
Qed.

(** *** Rehashing the paths above the leaves that changed *)

Lemma elem_of_dedup_last x last l : x ∈ last :: dedup_from last l <-> x ∈ last :: l.
Proof.
  revert last. induction l as [|y l IH]; intros last; cbn [dedup_from]; [done|]. case_decide as Hy.
  - subst y. rewrite IH, !elem_of_cons. tauto.
  - by rewrite (elem_of_cons (y :: dedup_from y l)), IH, <-elem_of_cons.
Qed.

Lemma elem_of_dedup x l : x ∈ dedup l <-> x ∈ l.
Proof. destruct l as [|y l]; [done|]. apply elem_of_dedup_last. Qed.

Lemma resize_lookup {A} w (a : A) l i :
  (i < w)%nat -> vec_resize w a l !! i = if decide (i < length l)%nat then l !! i else Some a.
Proof.
  intros Hi. unfold vec_resize. case_decide as Hl.
  - rewrite lookup_app_l by (rewrite length_take; lia). by apply lookup_take_lt.
  - rewrite lookup_app_r, length_take by (rewrite length_take; lia). apply lookup_replicate_2. lia.
Qed.

Lemma length_resize {A} w (a : A) l : length (vec_resize w a l) = w.
Proof. unfold vec_resize. rewrite length_app, length_take, length_replicate. lia. Qed.

Lemma set_nodes (g : nat -> B256) dirty level :
  (forall i, i ∈ dirty -> (i < length level)%nat) ->
  exists level', foldM (fun level (p : nat * B256) => set_index level p.1 p.2) level (zip dirty (g <$> dirty))
                   = Ok (E := Empty_set) level' /\ length level' = length level /\
    forall i, level' !! i = if decide (i ∈ dirty) then Some (g i) else level !! i.
Proof.
  revert level. induction dirty as [|d dirty IH]; intros level Hd; [by exists level|].
  cbn [fmap list_fmap zip_with foldM fst snd].
  assert (set_index (E := Empty_set) level d (g d) = Ok (<[d := g d]> level)) as ->
    by (apply set_index_Ok; split; [apply Hd; set_solver|done]).
  cbn [mbind res_bind]. destruct (IH (<[d := g d]> level)) as (level' & E & Hl & Hi).
  { intros i Hi. rewrite length_insert. apply Hd. set_solver. }
  exists level'. rewrite length_insert in Hl. split_and!; [done..|]. intros i. rewrite Hi.
  destruct (decide (i ∈ dirty)) as [Hin|Hin]; [by rewrite decide_True by set_solver|].
  destruct (decide (i = d)) as [->|Hne].
  - rewrite decide_True by set_solver. apply list_lookup_insert_eq, Hd. set_solver.
  - by rewrite decide_False, list_lookup_insert_ne by set_solver.
Qed.

(** [dirty] names every leaf of [new] that is not a leaf of [old], and the last leaf of [new] when
    [old] had more: its path loses a sibling. *)
Definition covers (old new : list B256) (dirty : list nat) : Prop :=
  (forall j, j ∈ dirty -> (j < length new)%nat) /\
  (forall j, (j < length new)%nat -> j ∉ dirty -> old !! j = new !! j) /\
  ((length new < length old)%nat -> (length new - 1)%nat ∈ dirty).

(** The nodes above the dirty leaves at height [k]. *)
Definition above (k : nat) (dirty dirty_k : list nat) : Prop :=
  forall i, i ∈ dirty_k <-> exists j, j ∈ dirty /\ i = (j / 2 ^ k)%nat.

Lemma above_S k dirty dirty_k :
  above k dirty dirty_k -> above (S k) dirty (dedup ((fun i => Nat.div2 i) <$> dirty_k)).
Proof.
  intros Ha i. rewrite elem_of_dedup, list_elem_of_fmap. assert (2 ^ k <> 0)%nat by (apply Nat.pow_nonzero; lia).
  assert (forall j, Nat.div2 (j / 2 ^ k) = j / 2 ^ S k)%nat as Hd.
  { intros j. rewrite Nat.div2_div, Nat.Div0.div_div. f_equal. cbn. lia. }
  split.
  - intros (m & -> & (j & Hj & ->)%Ha). exists j. by rewrite Hd.
  - intros (j & Hj & ->). exists (j / 2 ^ k)%nat. rewrite Hd. split; [done|]. apply Ha. eauto.
Qed.

(** A block without a dirty leaf is the same block of the old leaves. *)
Lemma clean_block old new dirty k i :
  covers old new dirty -> (i * 2 ^ k < length new)%nat ->
  (forall j, j ∈ dirty -> i <> (j / 2 ^ k)%nat) ->
  (i * 2 ^ k < length old)%nat /\ merkle_ref k (drop (i * 2 ^ k) old) = merkle_ref k (drop (i * 2 ^ k) new).
Proof.
  intros (Hlt & Heq & Hlast) Hi Hno. assert (2 ^ k <> 0)%nat as Hp by (apply Nat.pow_nonzero; lia).
  assert (forall j, (i * 2 ^ k <= j < i * 2 ^ k + 2 ^ k)%nat -> j ∉ dirty) as Hclean.
  { intros j Hj Hd. apply (Hno j Hd). apply (Nat.div_unique j (2 ^ k) i (j - i * 2 ^ k)); lia. }
  assert (forall j, (i * 2 ^ k <= j < i * 2 ^ k + 2 ^ k)%nat -> old !! j = new !! j) as Hsame.
  { intros j Hj. destruct (decide (j < length new)%nat) as [Hn|Hn]; [apply Heq; auto|].
    rewrite (lookup_ge_None_2 new) by lia. apply lookup_ge_None.
    destruct (decide (length new < length old)%nat) as [Hs|Hs]; [|lia].
    exfalso. apply (Hclean (length new - 1)%nat); [lia|auto]. }
  split.
  - apply lookup_lt_is_Some. rewrite Hsame by lia. by apply lookup_lt_is_Some.
  - rewrite <-(merkle_ref_take k (drop _ old)), <-(merkle_ref_take k (drop _ new)). f_equal.
    apply list_eq. intros j. destruct (decide (j < 2 ^ k)%nat) as [Hj|Hj].
    + rewrite !lookup_take_lt, !lookup_drop by lia. apply Hsame. lia.
    + by rewrite !lookup_take_ge by lia.
Qed.

Lemma rehash_level_ref old new dirty ls dirty_k k :
  covers old new dirty -> above k dirty dirty_k ->
  ls !! k = Some (level_ref k new) -> ls !! S k = Some (level_ref (S k) old) ->
  exists dirty', rehash_level (ls, dirty_k) (S k) = Ok (<[S k := level_ref (S k) new]> ls, dirty') /\
    above (S k) dirty dirty'.
Proof using ZL.
  intros Hc Ha Hbelow Hlevel. pose proof (above_S _ _ _ Ha) as Ha'. unfold rehash_level.
  set (dirty' := dedup _) in *. exists dirty'. split; [|done].
  replace (S k - 1)%nat with k by lia. rewrite (index_lookup _ _ _ Hbelow), (index_lookup _ _ _ Hlevel).
  cbn [mbind res_bind]. rewrite length_level, <-width_S.
  set (g := fun i => merkle_ref (S k) (drop (i * 2 ^ S k) new)).
  assert (forall i, i ∈ dirty' -> i * 2 ^ S k < length new)%nat as Hin.
  { intros i (j & Hj & ->)%Ha'. destruct Hc as (Hlt & _). specialize (Hlt j Hj).
    pose proof (Nat.Div0.mul_div_le j (2 ^ S k)). lia. }
  rewrite parallel_map_mapR by (unfold PARALLEL_HASH_THRESHOLD; lia).
  rewrite (mapR_fmap _ g) by (intros i Hi; by apply parent_level, Hin). cbn [mbind res_bind].
  destruct (set_nodes g dirty' (vec_resize (width (S k) (length new)) ZERO (level_ref (S k) old)))
    as (level' & -> & Hl & Hi).
  { intros i Hi. rewrite length_resize. by apply width_lt, Hin. }
  cbn [mbind res_bind]. rewrite length_resize in Hl.
  assert (level' = level_ref (S k) new) as ->.
  { apply list_eq. intros i. rewrite Hi, level_lookup. destruct (decide (i * 2 ^ S k < length new)%nat) as [Hlt|Hge].
    - case_decide as Hd; [done|].
      destruct (clean_block old new dirty (S k) i Hc Hlt) as [Hold He].
      { intros j Hj ->. apply Hd, Ha'. eauto. }
      rewrite resize_lookup by (by apply width_lt). rewrite length_level, decide_True by (by apply width_lt).
      by rewrite level_lookup, decide_True, He.
    - rewrite decide_False by (intros ?%Hin; done). apply lookup_ge_None.
      rewrite length_resize. apply Nat.nlt_ge. by rewrite width_lt. }
  assert (set_index (E := Empty_set) ls (S k) (level_ref (S k) new) = Ok (<[S k := level_ref (S k) new]> ls)) as ->;
    [|done]. apply set_index_Ok. split; [by eapply lookup_lt_Some|done].
Qed.

(** From the leaves up to height [m]. *)
Lemma rehash_levels_ref old new dirty m :
  covers old new dirty -> (m < levels_needed (length old))%nat ->
  exists dirty_m, foldM rehash_level (<[0%nat := new]> (levels_ref old), dirty) (seq 1 m) =
    Ok ((fun k => level_ref k (if decide (k <= m)%nat then new else old)) <$> seq 0 (levels_needed (length old)),
        dirty_m) /\ above m dirty dirty_m.
Proof using ZL.
  intros Hc. induction m as [|m IH]; intros Hm.
  - exists dirty. split.
    + cbn [seq foldM]. do 2 f_equal. apply list_eq. intros k. rewrite list_lookup_fmap.
      destruct (decide (k < levels_needed (length old))%nat) as [Hk|Hk].
      * rewrite (lookup_seq_lt 0) by done. cbn [fmap option_fmap option_map Nat.add].
        destruct k as [|k]; [rewrite list_lookup_insert_eq by (rewrite length_levels; lia);
          rewrite decide_True by lia; by rewrite level_ref_0|].
        rewrite list_lookup_insert_ne, levels_lookup, decide_False by lia. done.
      * rewrite (lookup_seq_ge 0) by lia. apply lookup_ge_None. rewrite length_insert, length_levels. lia.
    + intros i. cbn [Nat.pow]. setoid_rewrite Nat.div_1_r. set_solver.
  - destruct IH as (dirty_m & IH & Ha); [lia|]. rewrite seq_S, foldM_app, IH. cbn [mbind res_bind foldM Nat.add].
    destruct (rehash_level_ref old new dirty
      ((fun k => level_ref k (if decide (k <= m)%nat then new else old)) <$> seq 0 (levels_needed (length old)))
      dirty_m m Hc Ha) as (dirty' & E & Ha').
    + rewrite list_lookup_fmap, (lookup_seq_lt 0) by lia. cbn [fmap option_fmap option_map Nat.add].
      by rewrite decide_True by lia.
    + rewrite list_lookup_fmap, (lookup_seq_lt 0) by lia. cbn [fmap option_fmap option_map Nat.add].
      by rewrite decide_False by lia.
    + rewrite E. cbn [mbind res_bind]. exists dirty'. split; [|done]. do 2 f_equal.
      apply list_eq. intros k. destruct (decide (k = S m)) as [->|Hne].
      * rewrite list_lookup_insert_eq by (rewrite length_fmap, length_seq; lia).
        rewrite list_lookup_fmap, (lookup_seq_lt 0) by lia. cbn [fmap option_fmap option_map Nat.add].
        by rewrite decide_True by lia.
      * rewrite list_lookup_insert_ne, !list_lookup_fmap by lia.
        destruct (decide (k < levels_needed (length old))%nat) as [Hk|Hk].
        -- rewrite (lookup_seq_lt 0) by done. cbn [fmap option_fmap option_map Nat.add]. do 2 f_equal.
           destruct (decide (k <= m)%nat), (decide (k <= S m)%nat); try done; lia.
        -- by rewrite (lookup_seq_ge 0) by lia.
Qed.

(** The leaves were changed; rehashing the paths above the dirty ones puts the tree in order. *)
Lemma rehash_ref old new dirty :
  covers old new dirty ->
  rehash (mkMerkleTree (<[0%nat := new]> (levels_ref old))) dirty = Ok (mkMerkleTree (levels_ref new)).
Proof using ZL.
  intros Hc. pose proof (levels_needed_pos (length old)) as Hpos.
  assert (<[0%nat := new]> (levels_ref old) !! 0%nat = Some new) as H0
    by (apply list_lookup_insert_eq; rewrite length_levels; lia).
  destruct dirty as [|d rest] eqn:Ed; cbn [rehash].
  - destruct Hc as (_ & Heq & Hlast). assert (old = new) as ->.
    { apply list_eq. intros j. destruct (decide (j < length new)%nat) as [Hj|Hj]; [apply Heq; [done|set_solver]|].
      rewrite (lookup_ge_None_2 new) by lia. apply lookup_ge_None.
      destruct (decide (length new < length old)%nat) as [Hs|]; [apply Hlast in Hs; set_solver|lia]. }
    do 2 f_equal. apply list_insert_id, levels_leaves.
  - rewrite <-Ed in *. cbn [levels]. rewrite (index_lookup _ _ _ H0). cbn [mbind res_bind].
    rewrite length_insert, length_levels.
    destruct (levels_needed (length new) =? levels_needed (length old))%nat eqn:E; [|by apply rebuild_ref].
    apply Nat.eqb_eq in E. destruct (rehash_levels_ref old new dirty (levels_needed (length old) - 1) Hc)
      as (dirty' & -> & _); [lia|]. cbn [mbind res_bind fst]. do 2 f_equal. unfold levels_ref. rewrite E.
    apply list_fmap_ext. intros _ k Hk%list_elem_of_lookup_2%elem_of_seq. by rewrite decide_True by lia.
Qed.

(** *** Changing the leaves *)

(** A tree whose leaves are [ls] and whose upper levels are those of [old]. *)
Definition pending (old ls : list B256) : MerkleTree := mkMerkleTree (<[0%nat := ls]> (levels_ref old)).

Lemma pending_leaves old ls : levels (pending old ls) !! 0%nat = Some ls.
Proof. apply list_lookup_insert_eq. rewrite length_levels. apply levels_needed_pos. Qed.

Lemma pending_self leaves : pending leaves leaves = mkMerkleTree (levels_ref leaves).
Proof. unfold pending. f_equal. apply list_insert_id, levels_leaves. Qed.

Lemma set_pending old ls ls' :
  mkMerkleTree <$> set_index (levels (pending old ls)) 0 ls' = Ok (E := Empty_set) (pending old ls').
Proof.
  assert (set_index (E := Empty_set) (levels (pending old ls)) 0 ls' =
            Ok (<[0%nat := ls']> (levels (pending old ls)))) as ->.
  { apply set_index_Ok. split; [eapply lookup_lt_Some, pending_leaves|done]. }
  cbn [fmap res_fmap pending levels]. by rewrite list_insert_insert_eq.
Qed.

Lemma rebuild_pending old ls : rebuild_upper_levels (pending old ls) = Ok (mkMerkleTree (levels_ref ls)).
Proof using ZL. apply rebuild_ref, (pending_leaves old ls). Qed.

(** After [truncate(len)] on the tree of [old]: the leaves kept, the levels they stand under, and
    the leaf to rehash. *)
Definition truncated (old : list B256) (len : nat) (old' ls : list B256) (last : option nat) : Prop :=
  ls = take len old /\
  (forall i, (i < length ls)%nat -> old' !! i = ls !! i) /\
  ((length ls < length old')%nat -> length ls = len /\ last = Some (length ls - 1)%nat) /\
  (forall j, last = Some j -> (j < length ls)%nat).

Lemma truncate_ref old len :
  exists old' ls last, truncate (mkMerkleTree (levels_ref old)) len = Ok (pending old' ls, last) /\
  truncated old len old' ls last.
Proof using ZL.
  unfold truncate. rewrite <-pending_self, (index_lookup _ _ _ (pending_leaves old old)). cbn [mbind res_bind].
  destruct (length old <=? len)%nat eqn:E.
  - apply Nat.leb_le in E. exists old, old, None. split; [done|].
    split_and!; [by rewrite take_ge|done|lia|done].
  - apply Nat.leb_gt in E. rewrite set_pending. cbn [mbind res_bind]. destruct len as [|len]; cbn [Nat.eqb].
    + cbn [take]. rewrite rebuild_pending. cbn [mbind res_bind].
      exists [], [], None. rewrite <-pending_self. split; [done|]. split_and!; [done|done|cbn; lia|done].
    + exists old, (take (S len) old), (Some len). cbn [mbind res_bind]. rewrite Nat.sub_succ, Nat.sub_0_r.
      split; [done|]. unfold truncated. rewrite length_take_le by lia. split_and!; [done| | |].
      * intros i Hi. by rewrite lookup_take_lt.
      * intros _. split; [done|]. f_equal. lia.
      * intros j [= <-]. lia.
Qed.

Lemma set_leaf_pending old ls i l :
  set_leaf (pending old ls) i l =
    Ok (pending old (match ls !! i with Some _ => <[i := l]> ls | None => ls ++ [l] end)).
Proof.
  unfold set_leaf. rewrite (index_lookup _ _ _ (pending_leaves old ls)). cbn [mbind res_bind]. apply set_pending.
Qed.

(** The leaves at ascending indices are written with the values of [f]; those past the end are all
    among them, so that each is appended in its place. *)
Definition fills (ls : list B256) (f : nat -> B256) (n : nat) (idxs : list nat) : Prop :=
  StronglySorted lt idxs /\ (length ls <= n)%nat /\ (forall i, i ∈ idxs -> (i < n)%nat) /\
  (forall i, (length ls <= i < n)%nat -> i ∈ idxs).

Definition written (ls : list B256) (f : nat -> B256) (i : nat) : list B256 :=
  match ls !! i with Some _ => <[i := f i]> ls | None => ls ++ [f i] end.

Lemma fills_cons ls f n i idxs : fills ls f n (i :: idxs) -> fills (written ls f i) f n idxs /\ (i <= length ls)%nat.
Proof.
  intros (Hs & Hl & Hlt & Hin). apply StronglySorted_inv in Hs as [Hs Hi].
  assert (i < n)%nat by (apply Hlt; set_solver). unfold written. destruct (ls !! i) eqn:E.
  - apply lookup_lt_Some in E. split; [|lia]. unfold fills. rewrite length_insert. split_and!; [done..| |].
    + intros j Hj. apply Hlt. set_solver.
    + intros j Hj. specialize (Hin j Hj). apply elem_of_cons in Hin as [->|]; [lia|done].
  - apply lookup_ge_None in E. assert (i = length ls) as ->.
    { specialize (Hin (length ls) ltac:(lia)). apply elem_of_cons in Hin as [->|Hin]; [done|].
      rewrite Forall_forall in Hi. specialize (Hi _ Hin). lia. }
    split; [|lia]. unfold fills. rewrite length_app. cbn [length]. split_and!; [done|lia| |].
    + intros j Hj. apply Hlt. set_solver.
    + intros j Hj. specialize (Hin j ltac:(lia)). apply elem_of_cons in Hin as [->|]; [lia|done].
Qed.

Lemma write_leaf_pending old ls f i dirty :
  write_leaf (pending old ls, dirty) (i, f i) = Ok (pending old (written ls f i), dirty ++ [i]).
Proof. unfold write_leaf. cbn [fst snd]. by rewrite set_leaf_pending. Qed.

Lemma write_leaves old f n idxs ls dirty :
  fills ls f n idxs ->
  exists ls', foldM write_leaf (pending old ls, dirty) ((fun i => (i, f i)) <$> idxs) =
      Ok (pending old ls', dirty ++ idxs) /\
  length ls' = n /\
  forall i, (i < n)%nat -> ls' !! i = if decide (i ∈ idxs) then Some (f i) else ls !! i.
Proof.
  revert ls dirty. induction idxs as [|i idxs IH]; intros ls dirty Hf.
  - exists ls. rewrite app_nil_r. split; [done|]. destruct Hf as (_ & Hl & _ & Hin).
    split; [|done]. destruct (decide (length ls < n)%nat); [|lia].
    specialize (Hin (length ls) ltac:(lia)). set_solver.
  - destruct (fills_cons _ _ _ _ _ Hf) as [Hf' Hi]. destruct (IH (written ls f i) (dirty ++ [i]) Hf') as (ls' & E & Hn & Hl).
    exists ls'. cbn [fmap list_fmap foldM]. rewrite write_leaf_pending. cbn [mbind res_bind].
    rewrite E, <-app_assoc.
    split_and!; [done..|]. intros j Hj. rewrite Hl by done.
    destruct (decide (j ∈ idxs)) as [Hin|Hin]; [by rewrite decide_True by set_solver|].
    destruct (decide (j = i)) as [->|Hne].
    + rewrite decide_True by set_solver. unfold written. destruct (ls !! i) eqn:Ei.
      * apply list_lookup_insert_eq. by eapply lookup_lt_Some.
      * apply lookup_ge_None in Ei. replace i with (length ls) by lia. by rewrite list_lookup_middle.
    + rewrite decide_False by set_solver. unfold written. destruct (ls !! i) eqn:Ei.
      * by rewrite list_lookup_insert_ne.
      * apply lookup_ge_None in Ei. rewrite lookup_app. destruct (ls !! j) eqn:Ej; [done|].
        apply lookup_ge_None in Ej. apply lookup_ge_None. cbn. lia.
Qed.

(** The leaves written and the last one kept are all that differ. *)
Lemma covers_written old len old' ls last f (idxs dirty : list nat) :
  truncated old len old' ls last ->
  (forall i, i ∈ idxs -> (i < len)%nat) ->
  (forall i, (i < len)%nat -> i ∉ idxs -> ls !! i = Some (f i)) ->
  (forall i, i ∈ dirty <-> i ∈ idxs \/ last = Some i) ->
  covers old' (f <$> seq 0 len) dirty.
Proof.
  intros (Hls & Hold & Hshort & Hlast) Hlt Heq Hd.
  assert (length ls <= len)%nat as Hle by (subst ls; rewrite length_take; lia).
  unfold covers. rewrite length_fmap, length_seq. split_and!.
  - intros j [Hj|Hj]%Hd; [auto|]. apply Hlast in Hj. lia.
  - intros j Hj Hn. assert (ls !! j = Some (f j)) as E by (apply Heq; [done|]; intros Hi; apply Hn, Hd; auto).
    rewrite Hold, E by (by eapply lookup_lt_Some). by rewrite list_lookup_fmap, (lookup_seq_lt 0).
  - intros Hn. apply Hd. right. destruct Hshort as [<- Hl]; [lia|]. done.
Qed.

Lemma update_ref old len old' ls last f (idxs dirty0 dirty : list nat) :
  truncated old len old' ls last -> StronglySorted lt idxs ->
  (forall i, i ∈ idxs -> (i < len)%nat) ->
  (forall i, (i < len)%nat -> i ∉ idxs -> ls !! i = Some (f i)) ->
  (forall i, i ∈ dirty <-> i ∈ idxs \/ last = Some i) ->
  foldM write_leaf (pending old' ls, dirty0) ((fun i => (i, f i)) <$> idxs) =
    Ok (pending old' (f <$> seq 0 len), dirty0 ++ idxs) /\
  rehash (pending old' (f <$> seq 0 len)) dirty = Ok (mkMerkleTree (levels_ref (f <$> seq 0 len))).
Proof using ZL.
  intros Ht Hs Hlt Heq Hd. split; [|by eapply rehash_ref, covers_written].
  assert (fills ls f len idxs) as Hf.
  { split_and!; [done| |done|].
    - destruct Ht as (-> & _). rewrite length_take. lia.
    - intros i Hi. destruct (decide (i ∈ idxs)) as [|Hn]; [done|]. specialize (Heq i ltac:(lia) Hn).
      apply lookup_lt_Some in Heq. lia. }
  destruct (write_leaves old' f len idxs ls dirty0 Hf) as (ls' & -> & Hl & Hi).
  do 3 f_equal. apply list_eq. intros i. destruct (decide (i < len)%nat) as [Hlen|Hlen].
  - rewrite Hi, list_lookup_fmap, (lookup_seq_lt 0) by done. case_decide; [done|]. auto.
  - rewrite list_lookup_fmap, (lookup_seq_ge 0), lookup_ge_None_2 by lia. done.
Qed.
End merkle_tree.

(** ** The caches *)

(** [cache_lock::lock]: a panic while the cache was locked may have left anything in it, so a
    poisoned cache is emptied. *)
Record Mutex (A : Type) := mkMutex { guarded : A; poisoned : bool }.
Arguments mkMutex {A}. Arguments guarded {A}. Arguments poisoned {A}.
Definition lock {A} (cache : Mutex (option A)) : option A := if poisoned cache then None else guarded cache.

(** [v[a..b]]. *)
Definition slice {A} (l : list A) (a b : nat) : run (list A) :=
  if (a <=? b)%nat && (b <=? length l)%nat then Ok (take (b - a) (drop a l)) else Panic.

(** [bytes[a..b].copy_from_slice(source)]. *)
Definition copy_from_slice (bytes : list Z) (a b : nat) (source : list Z) : run (list Z) :=
  target ← slice bytes a b;
  if (length source =? length target)%nat then Ok (take a bytes ++ source ++ drop b bytes) else Panic.

Definition u64_chunk (values : list Z) (i : nat) : run B256 :=
  source ← slice values (i * 4) (length values `min` (i * 4 + 4));
  foldM (fun bytes (p : nat * Z) => copy_from_slice bytes (p.1 * 8) (p.1 * 8 + 8) (le_bytes 8 p.2))
    (replicate 32 0) (zip (seq 0 (length source)) source).

Definition u8_chunk (values : list Z) (i : nat) : run B256 :=
  source ← slice values (i * 32) (length values `min` (i * 32 + 32));
  copy_from_slice (replicate 32 0) 0 (length source) source.

Definition vector_depth (chunk_count : nat) : nat := trailing_zeros (next_power_of_two (chunk_count `max` 1)).

(** [(0..known).step_by(step)]. *)
Definition step_by (known step : nat) : list nat := (fun k => k * step)%nat <$> seq 0 (div_ceil known step).

Section caches.
Context {H : Sha256} {ZH : ZeroHashes} {T : Threads}.

(** The leaves of one range that are not the chunks any more. *)
Definition compare_leaf (tree : MerkleTree) (chunk : nat -> run B256) (i : nat) : run (option (nat * B256)) :=
  new ← chunk i;
  old ← leaf tree i;
  Ok (if decide (new = old) then None else Some (i, new)).

Definition changed_in (tree : MerkleTree) (chunk : nat -> run B256) (known start : nat) : run (list (nat * B256)) :=
  found ← mapR (compare_leaf tree chunk)
            (seq start ((start + PARALLEL_HASH_THRESHOLD) `min` known - start));
  Ok (omap (M := list) (fun o : option (nat * B256) => o) found).

Definition update_chunks (tree : MerkleTree) (chunk_count : nat) (chunk : nat -> run B256) : run MerkleTree :=
  '(tree, last) ← truncate tree chunk_count;
  known ← (fun n => n `min` chunk_count)%nat <$> leaf_count tree;
  changed ← parallel_map (step_by known PARALLEL_HASH_THRESHOLD) 2 (changed_in tree chunk known);
  st ← foldM write_leaf (tree, []) (concat changed);
  '(tree, dirty) ← foldM (fun st i => c ← chunk i; write_leaf st (i, c)) st (seq known (chunk_count - known));
  rehash tree (dedup (sort_unstable (dirty ++ option_list last))).

Definition chunks_root (cache : Mutex (option MerkleTree)) (chunk_count : nat) (chunk : nat -> run B256)
    (limit_depth : nat) : run (Mutex (option MerkleTree) * B256) :=
  tree ← (match lock cache with
          | Some tree => update_chunks tree chunk_count chunk
          | None => leaves ← mapR chunk (seq 0 chunk_count); tree_of_leaves leaves
          end);
  r ← tree_root tree limit_depth;
  Ok (mkMutex (Some tree) false, r).

Context {Mix : MixInLength}.

Definition cached_u64_list_root (cache : Mutex (option MerkleTree)) (values : list Z) (limit_depth : nat) :
    run (Mutex (option MerkleTree) * B256) :=
  '(cache, r) ← chunks_root cache (div_ceil (length values) 4) (u64_chunk values) limit_depth;
  Ok (cache, mix_in_length r (length values)).

Definition cached_u64_vector_root (cache : Mutex (option MerkleTree)) (values : list Z) :
    run (Mutex (option MerkleTree) * B256) :=
  let chunk_count := div_ceil (length values) 4 in
  chunks_root cache chunk_count (u64_chunk values) (vector_depth chunk_count).

Definition cached_b256_vector_root (cache : Mutex (option MerkleTree)) (values : list B256) :
    run (Mutex (option MerkleTree) * B256) :=
  chunks_root cache (length values) (index values) (vector_depth (length values)).

Definition cached_u8_list_root (cache : Mutex (option MerkleTree)) (values : list Z) (limit_depth : nat) :
    run (Mutex (option MerkleTree) * B256) :=
  '(cache, r) ← chunks_root cache (div_ceil (length values) 32) (u8_chunk values) limit_depth;
  Ok (cache, mix_in_length r (length values)).

(** *** The reference: SSZ's packing and roots *)

(** The bytes, 32 to a chunk, the last chunk padded with zeros. *)
Definition pack_chunk (bytes : list Z) (i : nat) : B256 :=
  let c := take 32 (drop (i * 32) bytes) in c ++ replicate (32 - length c) 0.
Definition pack (bytes : list Z) : list B256 := pack_chunk bytes <$> seq 0 (div_ceil (length bytes) 32).

Definition ssz_u64_list (values : list Z) (limit_depth : nat) : B256 :=
  mix_in_length (merkle_ref limit_depth (pack (values ≫= le_bytes 8))) (length values).
Definition ssz_u8_list (values : list Z) (limit_depth : nat) : B256 :=
  mix_in_length (merkle_ref limit_depth (pack values)) (length values).
Definition ssz_u64_vector (values : list Z) : B256 :=
  merkle_ref (Nat.log2_up (length (pack (values ≫= le_bytes 8)))) (pack (values ≫= le_bytes 8)).
Definition ssz_b256_vector (values : list B256) : B256 := merkle_ref (Nat.log2_up (length values)) values.
Definition ssz_list {A} (tree_hash_root : A -> B256) (items : list A) (limit_depth : nat) : B256 :=
  mix_in_length (merkle_ref limit_depth (tree_hash_root <$> items)) (length items).

(** *** The cache hashes what changed *)

Lemma concat_ranges known step m :
  concat ((fun start => seq start ((start + step) `min` known - start)) <$> ((fun k => k * step)%nat <$> seq 0 m)) =
    seq 0 ((m * step) `min` known).
Proof.
  induction m as [|m IH]; [by rewrite Nat.mul_0_l|].
  rewrite seq_S, !fmap_app, concat_app, IH. cbn [fmap list_fmap concat Nat.add]. rewrite app_nil_r.
  destruct (decide (m * step <= known)%nat) as [Hm|Hm].
  - rewrite (Nat.min_l (m * step)) by done. rewrite <-(Nat.add_0_l (m * step)) at 2. rewrite <-seq_app. f_equal. lia.
  - replace ((m * step + step) `min` known - m * step)%nat with 0%nat by lia. cbn [seq]. rewrite app_nil_r. f_equal. lia.
Qed.

Lemma concat_step_by known step :
  (0 < step)%nat ->
  concat ((fun start => seq start ((start + step) `min` known - start)) <$> step_by known step) = seq 0 known.
Proof.
  intros Hs. unfold step_by. rewrite concat_ranges. f_equal. apply Nat.min_r. unfold div_ceil.
  pose proof (Nat.div_mod_eq (known + step - 1) step). pose proof (Nat.mod_upper_bound (known + step - 1) step). nia.
Qed.

Lemma filter_id {A} (P : A -> Prop) `{!forall x, Decision (P x)} (l : list A) : (forall x, x ∈ l -> P x) -> filter P l = l.
Proof.
  induction l as [|x l IH]; intros HP; [done|]. rewrite filter_cons_True by (apply HP; set_solver).
  f_equal. apply IH. intros; apply HP; set_solver.
Qed.

Lemma omap_fmap_id {A B} (g : A -> option B) (l : list A) : omap (fun o : option B => o) (g <$> l) = omap g l.
Proof. induction l as [|x l IH]; [done|]. cbn in *. destruct (g x); by rewrite IH. Qed.

Lemma omap_concat {A B C} (g : B -> option C) (h : A -> list B) (l : list A) :
  concat ((fun a => omap g (h a)) <$> l) = omap g (concat (h <$> l)).
Proof. induction l as [|x l IH]; [done|]. cbn [fmap list_fmap concat]. by rewrite omap_app, <-IH. Qed.

Lemma omap_filter {A B} (P : A -> Prop) `{!forall x, Decision (P x)} (g : A -> B) (l : list A) :
  omap (fun a => if decide (P a) then None else Some (g a)) l = g <$> filter (fun a => ~ P a) l.
Proof.
  induction l as [|x l IH]; [done|]. rewrite filter_cons. cbn.
  destruct (decide (P x)), (decide (~ P x)); try done; cbn; by rewrite <-IH.
Qed.

Lemma seq_sorted a n : StronglySorted lt (seq a n).
Proof.
  revert a. induction n as [|n IH]; intros a; cbn; constructor; [done|].
  apply Forall_forall. intros x Hx%elem_of_seq. lia.
Qed.

Lemma filter_sorted (P : nat -> Prop) `{!forall x, Decision (P x)} (l : list nat) :
  StronglySorted lt l -> StronglySorted lt (filter P l).
Proof.
  induction 1 as [|x l Hl IH Hx]; [constructor|]. rewrite filter_cons. case_decide; [|done].
  constructor; [done|]. apply Forall_forall. intros y [_ Hy]%list_elem_of_filter. rewrite Forall_forall in Hx. auto.
Qed.

Lemma elem_of_sort x (l : list nat) : x ∈ sort_unstable l <-> x ∈ l.
Proof. unfold sort_unstable. by rewrite merge_sort_Permutation. Qed.

(** The indices whose leaf is not the chunk: those that changed, and all the new ones. *)
Definition stale (ls : list B256) (f : nat -> B256) (n : nat) : list nat :=
  filter (fun i => ls !! i <> Some (f i)) (seq 0 n).

Lemma stale_split ls f n :
  (length ls <= n)%nat -> stale ls f n = stale ls f (length ls) ++ seq (length ls) (n - length ls).
Proof.
  intros Hl. unfold stale. replace n with (length ls + (n - length ls))%nat at 1 by lia.
  rewrite seq_app, filter_app. f_equal. cbn [Nat.add].
  apply filter_id. intros i Hi%elem_of_seq. by rewrite lookup_ge_None_2 by lia.
Qed.

Lemma elem_of_stale ls f n i : i ∈ stale ls f n <-> ls !! i <> Some (f i) /\ (i < n)%nat.
Proof. unfold stale. rewrite list_elem_of_filter, elem_of_seq. intuition lia. Qed.

Context {ZL : ZeroHashesLaws H ZH}.

Lemma changed_ref old ls chunk f :
  (forall i, (i < length ls)%nat -> chunk i = Ok (f i)) ->
  @concat (nat * B256) <$> parallel_map (step_by (length ls) PARALLEL_HASH_THRESHOLD) 2
      (changed_in (pending old ls) chunk (length ls)) =
    Ok ((fun i => (i, f i)) <$> stale ls f (length ls)).
Proof.
  intros Hf. rewrite parallel_map_mapR by lia.
  set (cmp := fun i => if decide (ls !! i = Some (f i)) then None else Some (i, f i)).
  rewrite (mapR_fmap _ (fun start => omap cmp (seq start ((start + PARALLEL_HASH_THRESHOLD) `min` length ls - start)))).
  - cbn [fmap res_fmap]. f_equal. rewrite omap_concat, concat_step_by by (unfold PARALLEL_HASH_THRESHOLD; lia).
    apply (omap_filter (fun i => ls !! i = Some (f i)) (fun i => (i, f i))).
  - intros start _. unfold changed_in. rewrite (mapR_fmap _ cmp).
    + cbn [mbind res_bind]. f_equal. apply omap_fmap_id.
    + intros i Hi%elem_of_seq. unfold compare_leaf. rewrite Hf by lia. cbn [mbind res_bind]. unfold leaf.
      rewrite (index_lookup _ _ _ (pending_leaves old ls)). cbn [mbind res_bind].
      destruct (lookup_lt_is_Some_2 ls i ltac:(lia)) as [l Hl]. rewrite (index_lookup _ _ _ Hl).
      cbn [mbind res_bind]. unfold cmp. rewrite Hl. f_equal.
      destruct (decide (f i = l)), (decide (Some l = Some (f i))); congruence.
Qed.

Lemma foldM_chunks (chunk : nat -> run B256) f st l :
  (forall i, i ∈ l -> chunk i = Ok (f i)) ->
  foldM (fun st i => c ← chunk i; write_leaf st (i, c)) st l = foldM write_leaf st ((fun i => (i, f i)) <$> l).
Proof.
  revert st. induction l as [|i l IH]; intros st Hf; [done|]. cbn [foldM fmap list_fmap].
  rewrite Hf by set_solver. cbn [mbind res_bind]. destruct (write_leaf st (i, f i)); cbn; [|done..].
  apply IH. intros; apply Hf; set_solver.
Qed.

Lemma update_chunks_ref old chunk_count chunk f :
  (forall i, (i < chunk_count)%nat -> chunk i = Ok (f i)) ->
  update_chunks (mkMerkleTree (levels_ref old)) chunk_count chunk =
    Ok (mkMerkleTree (levels_ref (f <$> seq 0 chunk_count))).
Proof using ZL.
  intros Hf. unfold update_chunks. destruct (truncate_ref old chunk_count) as (old' & ls & last & -> & Ht).
  assert (length ls <= chunk_count)%nat as Hl by (destruct Ht as (-> & _); rewrite length_take; lia).
  cbn [mbind res_bind]. unfold leaf_count. rewrite (index_lookup _ _ _ (pending_leaves old' ls)).
  cbn [fmap res_fmap mbind res_bind]. rewrite Nat.min_l by done.
  pose proof (changed_ref old' ls chunk f ltac:(intros; apply Hf; lia)) as Hc.
  destruct (parallel_map _ _ _) as [cs| | |]; cbn [fmap res_fmap] in Hc; try done. injection Hc as Hc.
  cbn [mbind res_bind]. rewrite Hc.
  destruct (update_ref old chunk_count old' ls last f (stale ls f chunk_count) []
    (dedup (sort_unstable (stale ls f chunk_count ++ option_list last))) Ht) as [Hw Hr].
  - apply filter_sorted, seq_sorted.
  - intros i Hi%elem_of_stale. lia.
  - intros i Hi Hn. rewrite elem_of_stale in Hn. destruct (decide (ls !! i = Some (f i))); [done|]. tauto.
  - intros i. rewrite elem_of_dedup, elem_of_sort, elem_of_app. destruct last; cbn; set_solver.
  - rewrite (stale_split ls f chunk_count Hl), fmap_app, foldM_app in Hw.
    destruct (foldM write_leaf (pending old' ls, []) _) as [st| | |]; cbn [mbind res_bind] in *; try done.
    rewrite (foldM_chunks _ f) by (intros i Hi%elem_of_seq; apply Hf; lia). rewrite Hw. cbn [mbind res_bind app].
    by rewrite <-(stale_split ls f chunk_count Hl).
Qed.

(** What every cache holds when it can be trusted: nothing, or a tree in order. *)
Definition in_order (cache : Mutex (option MerkleTree)) : Prop :=
  match lock cache with Some tree => exists leaves, tree = mkMerkleTree (levels_ref leaves) | None => True end.

Lemma chunks_root_ref cache chunk_count chunk f limit_depth :
  in_order cache -> (chunk_count <= 2 ^ limit_depth)%nat ->
  (forall i, (i < chunk_count)%nat -> chunk i = Ok (f i)) ->
  exists cache', chunks_root cache chunk_count chunk limit_depth =
      Ok (cache', merkle_ref limit_depth (f <$> seq 0 chunk_count)) /\ in_order cache'.
Proof using ZL.
  intros Hc Hl Hf. exists (mkMutex (Some (mkMerkleTree (levels_ref (f <$> seq 0 chunk_count)))) false).
  split; [|by eexists]. unfold chunks_root, in_order in *.
  assert (match lock cache with
          | Some tree => update_chunks tree chunk_count chunk
          | None => leaves ← mapR chunk (seq 0 chunk_count); tree_of_leaves leaves
          end = Ok (mkMerkleTree (levels_ref (f <$> seq 0 chunk_count)))) as ->.
  { destruct (lock cache) as [tree|].
    - destruct Hc as [old ->]. by apply update_chunks_ref.
    - rewrite (mapR_fmap _ f) by (intros i Hi%elem_of_seq; apply Hf; lia). cbn [mbind res_bind].
      apply tree_of_leaves_ref. }
  cbn [mbind res_bind]. rewrite tree_root_ref; [done|]. by rewrite length_fmap, length_seq.
Qed.

(** *** Packing *)

Lemma length_bind_le n (values : list Z) : length (values ≫= le_bytes n) = (n * length values)%nat.
Proof.
  induction values as [|v values IH]; [cbn; lia|].
  rewrite bind_cons, length_app, le_bytes_length, IH. cbn [length]. lia.
Qed.

Lemma drop_bind_le n k (values : list Z) : drop (n * k) (values ≫= le_bytes n) = drop k values ≫= le_bytes n.
Proof.
  revert k. induction values as [|v values IH]; intros k; [cbn; by rewrite !drop_nil|].
  destruct k as [|k]; [by rewrite Nat.mul_0_r, !drop_0|]. rewrite bind_cons. cbn [drop].
  rewrite drop_app_ge by (rewrite le_bytes_length; lia). rewrite le_bytes_length, <-IH. f_equal. lia.
Qed.

Lemma take_bind_le n k (values : list Z) : take (n * k) (values ≫= le_bytes n) = take k values ≫= le_bytes n.
Proof.
  revert k. induction values as [|v values IH]; intros k; [cbn; by rewrite !take_nil|].
  destruct k as [|k]; [by rewrite Nat.mul_0_r|]. cbn [take]. rewrite !bind_cons.
  rewrite take_app_ge by (rewrite le_bytes_length; lia). rewrite le_bytes_length, <-IH. f_equal. f_equal. lia.
Qed.

Lemma u64_chunk_pack values i :
  (i < div_ceil (length values) 4)%nat -> u64_chunk values i = Ok (pack_chunk (values ≫= le_bytes 8) i).
Proof.
  intros Hi. assert (i * 4 < length values)%nat as Hlt by (by apply (width_lt i 2)).
  unfold u64_chunk, slice. rewrite !leb_correct by lia. cbn [andb mbind res_bind].
  unfold pack_chunk. replace (i * 32)%nat with (8 * (i * 4))%nat by lia. rewrite drop_bind_le.
  pose proof (take_bind_le 8 4 (drop (i * 4) values)) as Et. change (8 * 4)%nat with 32%nat in Et. rewrite Et.
  assert (take (length values `min` (i * 4 + 4) - i * 4) (drop (i * 4) values) = take 4 (drop (i * 4) values)) as ->.
  { destruct (decide (i * 4 + 4 <= length values)%nat); [f_equal; lia|]. rewrite !take_ge; [done|..]; rewrite length_drop; lia. }
  destruct (take 4 (drop (i * 4) values)) as [|v0 [|v1 [|v2 [|v3 [|v4 l]]]]] eqn:E; [reflexivity..|].
  apply (f_equal length) in E. rewrite length_take in E. cbn [length] in E. lia.
Qed.

Lemma u8_chunk_pack values i :
  (i < div_ceil (length values) 32)%nat -> u8_chunk values i = Ok (pack_chunk values i).
Proof.
  intros Hi. assert (i * 32 < length values)%nat as Hlt by (by apply (width_lt i 5)).
  unfold u8_chunk, slice, pack_chunk. rewrite !leb_correct by lia. cbn [andb mbind res_bind].
  assert (take (length values `min` (i * 32 + 32) - i * 32) (drop (i * 32) values) = take 32 (drop (i * 32) values)) as ->.
  { destruct (decide (i * 32 + 32 <= length values)%nat); [f_equal; lia|].
    rewrite !take_ge; [done|..]; rewrite length_drop; lia. }
  set (c := take 32 (drop (i * 32) values)). assert (length c <= 32)%nat as Hc by (unfold c; rewrite length_take; lia).
  unfold copy_from_slice, slice. rewrite length_replicate, !leb_correct by lia. cbn [andb mbind res_bind].
  rewrite Nat.sub_0_r, drop_0, length_take, length_replicate, Nat.min_l, Nat.eqb_refl by lia.
  cbn [take app]. by rewrite drop_replicate.
Qed.

Lemma pack_u64_count values : div_ceil (length (values ≫= le_bytes 8)) 32 = div_ceil (length values) 4.
Proof.
  rewrite length_bind_le. unfold div_ceil.
  replace (8 * length values + 32 - 1)%nat with (7 + (length values + 4 - 1) * 8)%nat by lia.
  change 32%nat with (8 * 4)%nat. rewrite <-Nat.Div0.div_div, Nat.div_add by lia. done.
Qed.

Lemma vector_depth_log2 n : vector_depth n = Nat.log2_up n.
Proof. pose proof (levels_needed_eq n). unfold levels_needed in *. unfold vector_depth. lia. Qed.

Lemma log2_up_fits n : (n <= 2 ^ Nat.log2_up n)%nat.
Proof. destruct n; [cbn; lia|]. apply Nat.log2_up_le_pow2; lia. Qed.

(** *** The roots of packed lists and vectors *)

Lemma cached_u64_list_root_ref cache values limit_depth :
  in_order cache -> (div_ceil (length values) 4 <= 2 ^ limit_depth)%nat ->
  exists cache', cached_u64_list_root cache values limit_depth = Ok (cache', ssz_u64_list values limit_depth) /\ in_order cache'.
Proof using ZL.
  intros Hc Hl. unfold cached_u64_list_root, ssz_u64_list, pack. rewrite pack_u64_count.
  destruct (chunks_root_ref _ _ _ _ _ Hc Hl (u64_chunk_pack values)) as (cache' & -> & Hc'). by exists cache'.
Qed.

Lemma cached_u64_vector_root_ref cache values :
  in_order cache ->
  exists cache', cached_u64_vector_root cache values = Ok (cache', ssz_u64_vector values) /\ in_order cache'.
Proof using ZL.
  intros Hc. unfold cached_u64_vector_root, ssz_u64_vector, pack. rewrite length_fmap, length_seq, pack_u64_count, vector_depth_log2.
  apply chunks_root_ref; [done|apply log2_up_fits|apply u64_chunk_pack].
Qed.

Lemma cached_u8_list_root_ref cache values limit_depth :
  in_order cache -> (div_ceil (length values) 32 <= 2 ^ limit_depth)%nat ->
  exists cache', cached_u8_list_root cache values limit_depth = Ok (cache', ssz_u8_list values limit_depth) /\ in_order cache'.
Proof using ZL.
  intros Hc Hl. unfold cached_u8_list_root, ssz_u8_list, pack.
  destruct (chunks_root_ref _ _ _ _ _ Hc Hl (u8_chunk_pack values)) as (cache' & -> & Hc'). by exists cache'.
Qed.

Lemma fmap_lookup_seq {A B} (g : A -> B) (b : B) (l : list A) :
  (fun i => from_option g b (l !! i)) <$> seq 0 (length l) = g <$> l.
Proof.
  apply list_eq. intros i. rewrite !list_lookup_fmap. destruct (decide (i < length l)%nat) as [Hi|Hi].
  - rewrite (lookup_seq_lt 0) by done. apply lookup_lt_is_Some_2 in Hi as [x Hx]. cbn. by rewrite Hx.
  - rewrite (lookup_seq_ge 0), lookup_ge_None_2 by lia. done.
Qed.

Lemma cached_b256_vector_root_ref cache values :
  in_order cache ->
  exists cache', cached_b256_vector_root cache values = Ok (cache', ssz_b256_vector values) /\ in_order cache'.
Proof using ZL.
  intros Hc. unfold cached_b256_vector_root, ssz_b256_vector. rewrite vector_depth_log2.
  destruct (chunks_root_ref cache (length values) (index values) (fun i => from_option id ZERO (values !! i))
    (Nat.log2_up (length values)) Hc (log2_up_fits _)) as (cache' & -> & Hc').
  { intros i Hi. apply lookup_lt_is_Some_2 in Hi as [x Hx]. rewrite Hx. by apply index_lookup. }
  exists cache'. by rewrite fmap_lookup_seq, list_fmap_id.
Qed.

(** A state's clones ask in any order, and a panic may poison the cache between two calls. *)
Inductive PackedCall :=
  | U64List (values : list Z) (limit_depth : nat)
  | U64Vector (values : list Z)
  | B256Vector (values : list B256)
  | U8List (values : list Z) (limit_depth : nat)
  | PanicWhileLocked (left_behind : option MerkleTree).

Definition packed_call (st : Mutex (option MerkleTree) * list B256) (call : PackedCall) :
    run (Mutex (option MerkleTree) * list B256) :=
  let answer (m : run (Mutex (option MerkleTree) * B256)) := '(cache, r) ← m; Ok (cache, st.2 ++ [r]) in
  match call with
  | U64List values limit_depth => answer (cached_u64_list_root st.1 values limit_depth)
  | U64Vector values => answer (cached_u64_vector_root st.1 values)
  | B256Vector values => answer (cached_b256_vector_root st.1 values)
  | U8List values limit_depth => answer (cached_u8_list_root st.1 values limit_depth)
  | PanicWhileLocked left_behind => Ok (mkMutex left_behind true, st.2)
  end.

(** The roots SSZ gives for the same calls, without a cache. *)
Definition packed_ssz (call : PackedCall) : option B256 :=
  match call with
  | U64List values limit_depth => Some (ssz_u64_list values limit_depth)
  | U64Vector values => Some (ssz_u64_vector values)
  | B256Vector values => Some (ssz_b256_vector values)
  | U8List values limit_depth => Some (ssz_u8_list values limit_depth)
  | PanicWhileLocked _ => None
  end.

(** The lists are within their limits. *)
Definition packed_fits (call : PackedCall) : bool :=
  match call with
  | U64List values limit_depth => (div_ceil (length values) 4 <=? 2 ^ limit_depth)%nat
  | U8List values limit_depth => (div_ceil (length values) 32 <=? 2 ^ limit_depth)%nat
  | _ => true
  end.

Lemma packed_call_ref cache roots call :
  in_order cache -> packed_fits call = true ->
  exists cache', packed_call (cache, roots) call = Ok (cache', roots ++ option_list (packed_ssz call)) /\ in_order cache'.
Proof using ZL.
  intros Hc Hf. destruct call as [values d|values|values|values d|junk]; cbn [packed_fits packed_call packed_ssz fst snd option_list] in *.
  - apply Nat.leb_le in Hf. destruct (cached_u64_list_root_ref _ _ _ Hc Hf) as (cache' & -> & ?). by exists cache'.
  - destruct (cached_u64_vector_root_ref _ values Hc) as (cache' & -> & ?). by exists cache'.
  - destruct (cached_b256_vector_root_ref _ values Hc) as (cache' & -> & ?). by exists cache'.
  - apply Nat.leb_le in Hf. destruct (cached_u8_list_root_ref _ _ _ Hc Hf) as (cache' & -> & ?). by exists cache'.
  - exists (mkMutex junk true). by rewrite app_nil_r.
Qed.

Lemma packed_calls_ref calls cache roots :
  in_order cache -> forallb packed_fits calls = true ->
  exists cache', foldM packed_call (cache, roots) calls = Ok (cache', roots ++ omap packed_ssz calls) /\ in_order cache'.
Proof using ZL.
  revert cache roots. induction calls as [|call calls IH]; intros cache roots Hc Hf.
  - exists cache. by rewrite app_nil_r.
  - cbn [forallb] in Hf. apply andb_true_iff in Hf as [Hf Hfs].
    destruct (packed_call_ref cache roots call Hc Hf) as (cache1 & E & Hc1). cbn [foldM]. rewrite E. cbn [mbind res_bind].
    destruct (IH cache1 (roots ++ option_list (packed_ssz call)) Hc1 Hfs) as (cache' & -> & Hc'). exists cache'.
    split; [|done]. do 2 f_equal. rewrite <-app_assoc. f_equal. cbn. by destruct (packed_ssz call).
Qed.
End caches.

(** ** Lists of containers *)

Section containers.
Context {H : Sha256} {ZH : ZeroHashes} {T : Threads} {Mix : MixInLength}.
Context {A : Type} `{!EqDecision A} (tree_hash_root : A -> B256).

Record ContainerState := mkContainerState { ct_copies : list A; ct_tree : MerkleTree; ct_dirty : list nat }.

Definition sync_item (st : ContainerState) (p : nat * A) : run ContainerState :=
  let '(i, item) := p in
  let store copies' :=
    tree ← set_leaf (ct_tree st) i (tree_hash_root item);
    Ok (mkContainerState copies' tree (ct_dirty st ++ [i])) in
  match ct_copies st !! i with
  | Some copy => if decide (copy = item) then Ok st else store (<[i := item]> (ct_copies st))
  | None => store (ct_copies st ++ [item])
  end.

Definition container_list_root (cache : Mutex (option (list A * MerkleTree))) (items : list A) (limit_depth : nat) :
    run (Mutex (option (list A * MerkleTree)) * B256) :=
  cached ← (match lock cache with
            | Some (copies, tree) =>
                let copies := take (length items) copies in
                '(tree, last) ← truncate tree (length items);
                st ← foldM sync_item (mkContainerState copies tree (option_list last))
                       (zip (seq 0 (length items)) items);
                tree ← rehash (ct_tree st) (dedup (sort_unstable (ct_dirty st)));
                Ok (ct_copies st, tree)
            | None => tree ← tree_of_leaves (tree_hash_root <$> items); Ok (items, tree)
            end);
  r ← tree_root cached.2 limit_depth;
  Ok (mkMutex (Some cached) false, mix_in_length r (length items)).

(** The items that are not the copy kept of them. *)
Definition stale_items (c0 items : list A) (m : nat) : list nat := filter (fun i => c0 !! i <> items !! i) (seq 0 m).
Definition item_root (items : list A) (i : nat) : B256 := from_option tree_hash_root ZERO (items !! i).

(** The loop writes the leaves of the stale items, and the copies become the items. *)
Lemma sync_items_ref c0 items tree dirty m :
  (length c0 <= length items)%nat -> (m <= length items)%nat ->
  foldM sync_item (mkContainerState c0 tree dirty) (zip (seq 0 m) (take m items)) =
    (st ← foldM write_leaf (tree, dirty) ((fun i => (i, item_root items i)) <$> stale_items c0 items m);
     Ok (mkContainerState (take m items ++ drop m c0) st.1 st.2)).
Proof.
  intros Hc. induction m as [|m IH]; intros Hm; [cbn; by rewrite drop_0|].
  destruct (lookup_lt_is_Some_2 items m ltac:(lia)) as [x Hx].
  rewrite (take_S_r items m x Hx), seq_S, zip_with_app by (rewrite length_seq, length_take; lia).
  unfold stale_items. rewrite seq_S, filter_app, fmap_app, !foldM_app, IH by lia. fold (stale_items c0 items m).
  destruct (foldM write_leaf (tree, dirty) _) as [[t d]| | |]; cbn [mbind res_bind]; [|done..].
  cbn [zip_with foldM fst snd Nat.add]. unfold sync_item at 1. cbn [ct_copies ct_tree ct_dirty].
  rewrite lookup_app_r, length_take, Nat.min_l, Nat.sub_diag, lookup_drop, Nat.add_0_r by (rewrite ?length_take; lia).
  assert (take m items ++ x :: drop (S m) c0 = (take m items ++ [x]) ++ drop (S m) c0) as Hcons by (by rewrite <-app_assoc).
  assert (item_root items m = tree_hash_root x) as Hr by (unfold item_root; by rewrite Hx).
  destruct (c0 !! m) as [copy|] eqn:Ec.
  - rewrite (drop_S _ _ _ Ec). destruct (decide (copy = x)) as [->|Hne].
    + rewrite filter_cons_False, filter_nil by (rewrite Ec, Hx; naive_solver). cbn [fmap list_fmap foldM mbind res_bind].
      by rewrite <-app_assoc.
    + rewrite filter_cons_True, filter_nil by (rewrite Ec, Hx; congruence). cbn [fmap list_fmap foldM].
      unfold write_leaf. cbn [fst snd]. rewrite Hr. destruct (set_leaf t m _); cbn; [|done..]. do 2 f_equal.
      rewrite insert_app_r_alt, length_take, Nat.min_l, Nat.sub_diag by (rewrite ?length_take; lia). exact Hcons.
  - rewrite filter_cons_True, filter_nil by (rewrite Ec, Hx; done). cbn [fmap list_fmap foldM].
    apply lookup_ge_None in Ec. rewrite !drop_ge, !app_nil_r by lia.
    unfold write_leaf. cbn [fst snd]. rewrite Hr. by destruct (set_leaf t m _).
Qed.

(** The copies are the items of the tree's leaves. *)
Definition container_in_order (cache : Mutex (option (list A * MerkleTree))) : Prop :=
  match lock cache with
  | Some (copies, tree) => tree = mkMerkleTree (levels_ref (tree_hash_root <$> copies))
  | None => True
  end.

Context {ZL : ZeroHashesLaws H ZH}.

Lemma container_list_root_ref cache items limit_depth :
  container_in_order cache -> (length items <= 2 ^ limit_depth)%nat ->
  exists cache', container_list_root cache items limit_depth = Ok (cache', ssz_list tree_hash_root items limit_depth) /\
    container_in_order cache'.
Proof using ZL.
  intros Hc Hl. exists (mkMutex (Some (items, mkMerkleTree (levels_ref (tree_hash_root <$> items)))) false).
  split; [|done]. unfold container_list_root, container_in_order in *.
  match goal with |- (?x ≫= _) = _ =>
    assert (x = Ok (items, mkMerkleTree (levels_ref (tree_hash_root <$> items)))) as -> end.
  2:{ cbn [mbind res_bind snd]. rewrite tree_root_ref by (by rewrite length_fmap). done. }
  destruct (lock cache) as [[copies tree]|]; [|by rewrite tree_of_leaves_ref]. subst tree.
  destruct (truncate_ref (tree_hash_root <$> copies) (length items)) as (old' & ls & last & -> & Ht).
  cbn [mbind res_bind]. set (c0 := take (length items) copies).
  assert (length c0 <= length items)%nat as Hc0 by (unfold c0; rewrite length_take; lia).
  pose proof (sync_items_ref c0 items (pending old' ls) (option_list last) (length items) Hc0 ltac:(lia)) as Hs.
  rewrite take_ge in Hs by lia. rewrite Hs.
  destruct (update_ref _ (length items) old' ls last (item_root items) (stale_items c0 items (length items))
    (option_list last) (dedup (sort_unstable (option_list last ++ stale_items c0 items (length items)))) Ht) as [Hw Hr].
  - apply filter_sorted, seq_sorted.
  - intros i [_ Hi%elem_of_seq]%list_elem_of_filter. lia.
  - intros i Hi Hn. assert (c0 !! i = items !! i) as E.
    { destruct (decide (c0 !! i = items !! i)); [done|]. exfalso. apply Hn, list_elem_of_filter. split; [done|].
      apply elem_of_seq. lia. }
    destruct Ht as (-> & _). rewrite <-fmap_take. fold c0. rewrite list_lookup_fmap, E. unfold item_root.
    by apply lookup_lt_is_Some_2 in Hi as [x ->].
  - intros i. rewrite elem_of_dedup, elem_of_sort, elem_of_app. destruct last; cbn; set_solver.
  - rewrite Hw. cbn [mbind res_bind fst snd ct_tree ct_dirty ct_copies]. rewrite Hr. cbn [mbind res_bind].
    unfold item_root. rewrite fmap_lookup_seq, drop_ge, app_nil_r by lia. done.
Qed.
End containers.
