(* ===== verification/ChunkedList.v ===== *)
(** * The validator registry: chunks shared between states

    [chunked_list.rs] and [validators_root_cache.rs] of
    [crates/common/consensus/beacon/src].  A registry is a list of pointers to chunks of
    1,024 validators; a clone copies the pointers, and a write copies the chunk first
    when another list points to it.  The memory is explicit: lists share chunks through
    their addresses, [Arc::make_mut] counts the references of every live list, and an
    address may be used again once no list holds it.  The cache of the registry's root
    keeps the registry it hashed last and skips the chunks that are still the same
    allocation.

    The contract is that of a list: every registry behaves as its own list of
    validators, whatever is done to the others, and the cached root is the root of that
    list. *)

From S2P Require Import Prelude Bytes Shuffling Merkle BeaconMutate BeaconRegistry BeaconProofs MerkleCache.

(** ** Cutting a list *)

Lemma chunks_from_lookup {A} size (l : list A) fuel k :
  (0 < size)%nat -> (length l <= fuel)%nat ->
  chunks_from fuel size l !! k =
    if decide (k * size < length l)%nat then Some (take size (drop (k * size) l)) else None.
Proof.
  intros Hs. revert l k. induction fuel as [|fuel IH]; intros l k Hf.
  - destruct l; cbn in Hf; [|lia]. cbn. by rewrite decide_False by lia.
  - destruct l as [|x l]; [cbn; by rewrite decide_False by lia|]. cbn [chunks_from].
    destruct k as [|k]; [by rewrite Nat.mul_0_l, decide_True by (cbn; lia)|]. cbn [lookup list_lookup].
    change (list_lookup k ?x) with (x !! k). rewrite IH by (rewrite length_drop; cbn in *; lia).
    rewrite length_drop, drop_drop. replace (size + k * size)%nat with (S k * size)%nat by lia.
    destruct (decide (k * size < length (x :: l) - size)%nat), (decide (S k * size < length (x :: l))%nat);
      (done || lia).
Qed.

Lemma chunks_lookup {A} size (l : list A) k :
  (0 < size)%nat ->
  chunks size l !! k = if decide (k * size < length l)%nat then Some (take size (drop (k * size) l)) else None.
Proof. intros. by apply chunks_from_lookup. Qed.

Lemma chunks_alter {A} size (f : A -> A) i (l : list A) :
  (0 < size)%nat -> chunks size (alter f i l) = alter (alter f (i mod size)%nat) (i / size)%nat (chunks size l).
Proof.
  intros Hs. apply list_eq. intros k. rewrite chunks_lookup, length_alter by done.
  pose proof (Nat.div_mod_eq i size). pose proof (Nat.mod_upper_bound i size ltac:(lia)).
  destruct (decide (k = i / size)%nat) as [->|Hne].
  - rewrite list_lookup_alter_eq, chunks_lookup by done. case_decide; [|done]. cbn. f_equal.
    apply list_eq. intros j. destruct (decide (j < size)%nat) as [Hj|Hj].
    + rewrite lookup_take_lt, lookup_drop by done. destruct (decide (j = i mod size)%nat) as [->|Hji].
      * replace (i / size * size + i mod size)%nat with i by lia. rewrite !list_lookup_alter_eq.
        rewrite lookup_take_lt, lookup_drop by done. do 2 f_equal. lia.
      * rewrite !list_lookup_alter_ne by lia. by rewrite lookup_take_lt, lookup_drop.
    + rewrite lookup_take_ge by lia. symmetry. apply lookup_ge_None. rewrite length_alter, length_take. lia.
  - rewrite list_lookup_alter_ne, chunks_lookup by done. case_decide; [|done]. f_equal.
    apply list_eq. intros j. destruct (decide (j < size)%nat) as [Hj|Hj].
    + rewrite !lookup_take_lt, !lookup_drop by done. apply list_lookup_alter_ne. nia.
    + by rewrite !lookup_take_ge by lia.
Qed.

Lemma chunks_fmap {A} size (f : A -> A) (l : list A) :
  (0 < size)%nat -> chunks size (f <$> l) = (fun c : list A => f <$> c) <$> chunks size l.
Proof.
  intros Hs. apply list_eq. intros k. rewrite list_lookup_fmap, !chunks_lookup, length_fmap by done.
  case_decide; [|done]. cbn. by rewrite fmap_take, fmap_drop.
Qed.

Lemma div_ceil_lt i n size : (0 < size)%nat -> (i < div_ceil n size <-> i * size < n)%nat.
Proof.
  intros Hp. unfold div_ceil. pose proof (Nat.div_mod_eq (n + size - 1) size).
  pose proof (Nat.mod_upper_bound (n + size - 1) size ltac:(lia)). nia.
Qed.

Lemma length_chunks {A} size (l : list A) : (0 < size)%nat -> length (chunks size l) = div_ceil (length l) size.
Proof.
  intros Hs. assert (forall k, k < length (chunks size l) <-> k < div_ceil (length l) size)%nat as Hk.
  { intros k. rewrite div_ceil_lt, <-lookup_lt_is_Some, chunks_lookup by done.
    case_decide; split; try done. }
  pose proof (Hk (length (chunks size l))). pose proof (Hk (div_ceil (length l) size)). lia.
Qed.

(** A new element goes to the last chunk while it has room, and to a chunk of its own otherwise. *)
Lemma chunks_push_room {A} size (l : list A) x k c :
  (0 < size)%nat -> chunks size l !! k = Some c -> (length c < size)%nat ->
  chunks size (l ++ [x]) = <[k := c ++ [x]]> (chunks size l) /\ k = (length (chunks size l) - 1)%nat.
Proof.
  intros Hs Hk Hc. rewrite length_chunks by done. rewrite chunks_lookup in Hk by done. case_decide as Hlt; [|done].
  injection Hk as <-. rewrite length_take, length_drop in Hc.
  assert (length l < k * size + size)%nat as Hend by lia.
  assert (forall j, j < div_ceil (length l) size <-> j <= k)%nat as Hj by (intros j; rewrite div_ceil_lt by done; nia).
  split; [|specialize (Hj (div_ceil (length l) size - 1)%nat) as H1; pose proof (Hj k); pose proof (Hj (div_ceil (length l) size)); lia].
  apply list_eq. intros j. rewrite chunks_lookup, length_app by done. cbn [length].
  destruct (decide (j = k)) as [->|Hne].
  - rewrite list_lookup_insert_eq by (rewrite length_chunks by done; by apply Hj). rewrite decide_True by lia. f_equal.
    rewrite drop_app_le, take_app_ge by (rewrite ?length_drop; lia).
    rewrite (take_ge (drop _ l)) by (rewrite length_drop; lia). f_equal. rewrite take_ge; [done|]. cbn. rewrite length_drop. lia.
  - rewrite list_lookup_insert_ne, chunks_lookup by done. destruct (decide (j < k)%nat) as [Hjk|Hjk].
    + rewrite !decide_True by nia. f_equal. rewrite drop_app_le by nia. rewrite take_app_le; [done|]. rewrite length_drop. nia.
    + rewrite !decide_False by nia. done.
Qed.

Lemma chunks_push_full {A} size (l : list A) x :
  (0 < size)%nat -> (forall c, last (chunks size l) = Some c -> (size <= length c)%nat) ->
  chunks size (l ++ [x]) = chunks size l ++ [[x]].
Proof.
  intros Hs Hfull.
  assert (length l = length (chunks size l) * size)%nat as Hl.
  { rewrite last_lookup in Hfull. rewrite length_chunks in * by done.
    set (m := div_ceil (length l) size) in *.
    assert (forall j, j < m <-> j * size < length l)%nat as Hm by (intros; by apply div_ceil_lt).
    destruct m as [|m]; [pose proof (Hm 0%nat); lia|]. cbn [pred] in Hfull.
    rewrite chunks_lookup, decide_True in Hfull by (done || by apply Hm; lia).
    specialize (Hfull _ eq_refl). rewrite length_take, length_drop in Hfull.
    pose proof (Hm (S m)). nia. }
  apply list_eq. intros k. rewrite chunks_lookup, length_app by done. cbn [length].
  set (m := length (chunks size l)) in *. destruct (decide (k < m)%nat) as [Hk|Hk].
  - rewrite lookup_app_l, chunks_lookup, !decide_True by (done || nia). f_equal.
    rewrite drop_app_le by nia. rewrite take_app_le; [done|]. rewrite length_drop. nia.
  - rewrite lookup_app_r by lia. fold m. destruct (decide (k = m)) as [->|Hne].
    + rewrite Nat.sub_diag, decide_True by nia. cbn. f_equal. rewrite drop_app_ge by lia.
      replace (m * size - length l)%nat with 0%nat by lia. rewrite drop_0. apply take_ge. cbn. lia.
    + rewrite decide_False by nia. symmetry. apply lookup_ge_None. cbn. lia.
Qed.

Lemma alter_insert {A} (g : A -> A) k (l : list A) x : l !! k = Some x -> alter g k l = <[k := g x]> l.
Proof. revert k. induction l as [|y l IH]; intros [|k] Hk; cbn in *; [done..|by injection Hk as ->|]. f_equal. by apply IH. Qed.

(** ** Memory *)

Abbreviation addr := nat (only parsing).
Record ChunkedList := mkChunkedList { cl_chunks : list addr; cl_len : nat }.

(** A list is held by a state ([inl]) or by a root cache ([inr]), which keeps the registry it hashed. *)
Abbreviation owner := (nat + nat)%type.

Record World (A : Type) := mkWorld {
  memory : gmap addr (list A);
  held : gmap owner ChunkedList;
  caches : gmap nat (Mutex (option MerkleTree));
}.
Arguments mkWorld {A}. Arguments memory {A}. Arguments held {A}. Arguments caches {A}.

(** The allocator: an address no live list holds. *)
Class Allocator : Type := alloc : gset addr -> addr.
Class AllocatorLaws (L : Allocator) : Prop := alloc_fresh : forall X, alloc X ∉ X.

Inductive ssz_error := OutOfBounds (i len : nat).

Section world.
Context {A : Type} {L : Allocator}.
Implicit Types (w : World A) (l : ChunkedList) (o : owner) (a : addr).

Definition deref w a : list A := default [] (memory w !! a).
Definition store w a (c : list A) : World A := mkWorld (<[a := c]> (memory w)) (held w) (caches w).
Definition hold w o l : World A := mkWorld (memory w) (<[o := l]> (held w)) (caches w).
Definition release w o : World A := mkWorld (memory w) (delete o (held w)) (caches w).
Definition handle {E} w o : res E ChunkedList := match held w !! o with Some l => Ok l | None => Panic end.

(** Every pointer of every live list. *)
Definition references w : list addr := map_to_list (held w) ≫= (fun p => cl_chunks p.2).
Definition strong_count w a : nat := length (filter (fun b => b = a) (references w)).
Definition live w : gset addr := list_to_set (references w).

(** [Arc::make_mut] on the pointer at [k]: a chunk that another pointer shares is copied. *)
Definition make_mut {E} w o (k : nat) : res E (World A * addr) :=
  l ← handle w o;
  a ← index (cl_chunks l) k;
  if (strong_count w a =? 1)%nat then Ok (w, a)
  else
    let a' := alloc (live w) in
    Ok (hold (store w a' (deref w a)) o (mkChunkedList (<[k := a']> (cl_chunks l)) (cl_len l)), a').

(** Writing through the pointer [make_mut] gives. *)
Definition with_mut {E} w o (k : nat) (g : list A -> list A) : res E (World A) :=
  '(w, a) ← make_mut w o k;
  Ok (store w a (g (deref w a))).

(** ** Operations *)

Definition cl_get {E} w l (i : nat) : res E (option A) :=
  if (cl_len l <=? i)%nat then Ok None
  else
    a ← index (cl_chunks l) (i / CHUNK_SIZE);
    x ← index (deref w a) (i mod CHUNK_SIZE);
    Ok (Some x).

Definition cl_index {E} w l (i : nat) : res E A :=
  found ← cl_get w l i;
  match found with Some x => Ok x | None => Panic end.

(** [Iter]: the elements from the front, or from the back. *)
Record Iter := mkIter { it_chunks : list addr; front : nat; back : nat }.
Definition cl_iter l : Iter := mkIter (cl_chunks l) 0 (cl_len l).
Definition iter_next {E} w (it : Iter) : res E (option (A * Iter)) :=
  if (front it =? back it)%nat then Ok None
  else
    a ← index (it_chunks it) (front it / CHUNK_SIZE);
    x ← index (deref w a) (front it mod CHUNK_SIZE);
    Ok (Some (x, mkIter (it_chunks it) (front it + 1) (back it))).
Definition iter_next_back {E} w (it : Iter) : res E (option (A * Iter)) :=
  if (front it =? back it)%nat then Ok None
  else
    let i := (back it - 1)%nat in
    a ← index (it_chunks it) (i / CHUNK_SIZE);
    x ← index (deref w a) (i mod CHUNK_SIZE);
    Ok (Some (x, mkIter (it_chunks it) (front it) i)).

(** Asking one side or the other, [true] for the front, until the iterator is empty. *)
Fixpoint drain {E} w (it : Iter) (sides : list bool) : res E (list A) :=
  match sides with
  | [] => Ok []
  | side :: sides' =>
      found ← (if side then iter_next w it else iter_next_back w it);
      match found with
      | Some (x, it') => rest ← drain w it' sides'; Ok (x :: rest)
      | None => Ok []
      end
  end.
Definition cl_to_vec {E} w l : res E (list A) := drain w (cl_iter l) (replicate (S (cl_len l)) true).

(** [get_mut(i)] and a write through it; [false] when there is no such element. *)
Definition cl_update {E} w o (i : nat) (f : A -> A) : res E (World A * bool) :=
  l ← handle w o;
  if (cl_len l <=? i)%nat then Ok (w, false)
  else
    '(w, a) ← make_mut w o (i / CHUNK_SIZE);
    x ← index (deref w a) (i mod CHUNK_SIZE);
    Ok (store w a (<[(i mod CHUNK_SIZE)%nat := f x]> (deref w a)), true).

(** [iter_mut], and a write to every element. *)
Definition cl_map {E} w o (f : A -> A) : res E (World A) :=
  l ← handle w o;
  foldM (fun w k => with_mut w o k (fun c => f <$> c)) w (seq 0 (length (cl_chunks l))).

Definition alloc_chunk (st : World A * list addr) (c : list A) : World A * list addr :=
  let a := alloc (live st.1 ∪ list_to_set st.2) in (store st.1 a c, st.2 ++ [a]).

Definition cl_from_vec w o (elements : list A) : World A :=
  let '(w, chunks) := foldl alloc_chunk (w, []) (chunks CHUNK_SIZE elements) in
  hold w o (mkChunkedList chunks (length elements)).

(** [N], the limit of the type. *)
Context (limit : nat).

Definition cl_new w o (elements : list A) : res ssz_error (World A) :=
  if (limit <? length elements)%nat then Err (OutOfBounds (length elements) limit)
  else Ok (cl_from_vec w o elements).

Definition cl_push_shared w o (element : A) : res ssz_error (World A) :=
  l ← handle w o;
  if (limit <=? cl_len l)%nat then Err (OutOfBounds (cl_len l) limit)
  else
    let fresh_chunk :=
      let a := alloc (live w) in
      Ok (hold (store w a [element]) o (mkChunkedList (cl_chunks l ++ [a]) (cl_len l))) in
    w ← (match last (cl_chunks l) with
         | Some a => if (length (deref w a) <? CHUNK_SIZE)%nat
                     then with_mut w o (length (cl_chunks l) - 1) (fun c => c ++ [element])
                     else fresh_chunk
         | None => fresh_chunk
         end);
    l ← handle w o;
    Ok (hold w o (mkChunkedList (cl_chunks l) (cl_len l + 1))).

Definition cl_clone {E} w o o' : res E (World A) := l ← handle w o; Ok (hold w o' l).

Definition cl_eq `{!EqDecision A} w l l' : bool :=
  (cl_len l =? cl_len l')%nat &&
  forallb (fun p : addr * addr => bool_decide (p.1 = p.2) || bool_decide (deref w p.1 = deref w p.2))
    (zip (cl_chunks l) (cl_chunks l')).

(** ** What a list holds *)

Definition contents w l : list (list A) := deref w <$> cl_chunks l.
Definition view w l : list A := concat (contents w l).

(** The contents and the length of the list an owner holds. *)
Definition contents_of w o : option (list (list A) * nat) := (fun l => (contents w l, cl_len l)) <$> held w !! o.

(** The lists the owners hold, cut in chunks. *)
Definition represents w (m : gmap owner (list A)) : Prop :=
  (forall o, contents_of w o = (fun v => (chunks CHUNK_SIZE v, length v)) <$> m !! o) /\
  map_Forall (fun _ v => (length v <= limit)%nat) m.

Lemma chunk_size_pos : (0 < CHUNK_SIZE)%nat.
Proof. unfold CHUNK_SIZE. lia. Qed.
Hint Resolve chunk_size_pos : core.
#[local] Opaque CHUNK_SIZE.

(** *** Sharing *)

Lemma count_twice (cs : list addr) k k' a :
  cs !! k = Some a -> cs !! k' = Some a -> (k < k')%nat -> (2 <= length (filter (fun b => b = a) cs))%nat.
Proof.
  intros Hk Hk' Hlt. rewrite <-(take_drop_middle cs k a Hk), filter_app, filter_cons_True, length_app by done. cbn [length].
  assert (a ∈ filter (fun b => b = a) (drop (S k) cs)) as Hin.
  { apply list_elem_of_filter. split; [done|]. apply (list_elem_of_lookup_2 _ (k' - S k)).
    rewrite lookup_drop. replace (S k + (k' - S k))%nat with k' by lia. done. }
  destruct (filter (fun b => b = a) (drop (S k) cs)); [set_solver|]. cbn. lia.
Qed.

Lemma count_once (cs : list addr) k a : cs !! k = Some a -> (1 <= length (filter (fun b => b = a) cs))%nat.
Proof.
  intros Hk. assert (a ∈ filter (fun b => b = a) cs) as Hin
    by (apply list_elem_of_filter; split; [done|by eapply list_elem_of_lookup_2]).
  destruct (filter _ cs); [set_solver|]. cbn. lia.
Qed.

Lemma references_hold w o l : held w !! o = Some l ->
  references w ≡ₚ cl_chunks l ++ references (release w o).
Proof. intros Hl. unfold references, release. cbn [held]. by rewrite <-(map_to_list_delete _ _ _ Hl). Qed.

Lemma elem_of_references w a : a ∈ references w <-> exists o l, held w !! o = Some l /\ a ∈ cl_chunks l.
Proof.
  unfold references. rewrite list_elem_of_bind. split.
  - intros ([o l] & Ha & Hp%elem_of_map_to_list). eauto.
  - intros (o & l & Hl & Ha). exists (o, l). split; [done|]. by apply elem_of_map_to_list.
Qed.

(** Nothing else points to the chunk. *)
Definition exclusive w o (k : nat) a : Prop :=
  forall o' l' k', held w !! o' = Some l' -> cl_chunks l' !! k' = Some a -> o' = o /\ k' = k.

Lemma count_exclusive w o l k a :
  held w !! o = Some l -> cl_chunks l !! k = Some a -> strong_count w a = 1%nat -> exclusive w o k a.
Proof.
  intros Hl Hk Hc o' l' k' Hl' Hk'. unfold strong_count in Hc.
  rewrite (references_hold w o l Hl), filter_app, length_app in Hc. pose proof (count_once _ _ _ Hk).
  destruct (decide (o' = o)) as [->|Hne].
  - split; [done|]. rewrite Hl in Hl'. injection Hl' as <-.
    destruct (lt_eq_lt_dec k k') as [[Hlt|]|Hlt]; [|done|].
    + pose proof (count_twice _ _ _ _ Hk Hk' Hlt). lia.
    + pose proof (count_twice _ _ _ _ Hk' Hk Hlt). lia.
  - assert (a ∈ filter (fun b => b = a) (references (release w o))) as Hin.
    { apply list_elem_of_filter. split; [done|]. apply elem_of_references. exists o', l'.
      split; [cbn; by rewrite lookup_delete_ne|by eapply list_elem_of_lookup_2]. }
    destruct (filter _ (references (release w o))); [set_solver|]. cbn in Hc. lia.
Qed.

Lemma deref_store_ne w a a' c : a <> a' -> deref (store w a c) a' = deref w a'.
Proof. intros. unfold deref, store. cbn. by rewrite lookup_insert_ne. Qed.
Lemma deref_store w a c : deref (store w a c) a = c.
Proof. unfold deref, store. cbn. by rewrite lookup_insert_eq. Qed.

Lemma contents_store w a c l : a ∉ cl_chunks l -> contents (store w a c) l = contents w l.
Proof.
  intros Ha. unfold contents. apply list_fmap_ext. intros i b Hb. apply deref_store_ne. intros ->.
  apply Ha. by eapply list_elem_of_lookup_2.
Qed.

Context {LL : AllocatorLaws L}.

Lemma alloc_not_held w o l : held w !! o = Some l -> alloc (live w) ∉ cl_chunks l.
Proof using LL.
  intros Hl Ha. apply (alloc_fresh (live w)). apply elem_of_list_to_set, elem_of_references. eauto.
Qed.

Lemma contents_hold w o l' l : contents (hold w o l') l = contents w l.
Proof. done. Qed.

(** A chunk stored at a fresh address and pointed to by one list. *)
Lemma hold_fresh w o (c : list A) l' o' l1 :
  let a := alloc (live w) in
  held w !! o' = Some l1 -> o' <> o ->
  contents_of (hold (store w a c) o l') o' = contents_of w o'.
Proof using LL.
  intros a Hl Hne. unfold contents_of. cbn [held hold store]. rewrite lookup_insert_ne, Hl by done.
  cbn [fmap option_fmap option_map]. f_equal. f_equal. rewrite contents_hold. apply contents_store. by eapply alloc_not_held.
Qed.

(** After [make_mut] the lists hold what they held, and the pointer it gives is not shared. *)
Lemma make_mut_spec {E} w o l k a :
  held w !! o = Some l -> cl_chunks l !! k = Some a ->
  exists w' l' a', make_mut (E := E) w o k = Ok (w', a') /\ held w' !! o = Some l' /\
    cl_chunks l' !! k = Some a' /\ exclusive w' o k a' /\ deref w' a' = deref w a /\ caches w' = caches w /\
    forall o', contents_of w' o' = contents_of w o'.
Proof using LL.
  intros Hl Hk. unfold make_mut, handle. rewrite Hl. cbn [mbind res_bind]. rewrite (index_lookup _ _ _ Hk). cbn [mbind res_bind].
  destruct (strong_count w a =? 1)%nat eqn:E1.
  - apply Nat.eqb_eq in E1. exists w, l, a. split_and!; try done. by eapply count_exclusive.
  - set (a' := alloc (live w)). set (l' := mkChunkedList (<[k := a']> (cl_chunks l)) (cl_len l)).
    pose proof (lookup_lt_Some _ _ _ Hk) as Hlt. pose proof (alloc_not_held w o l Hl) as Hf.
    exists (hold (store w a' (deref w a)) o l'), l', a'. split_and!; [done| | | | |done|].
    + cbn. by rewrite lookup_insert_eq.
    + cbn. by apply list_lookup_insert_eq.
    + intros o1 l1 k1 Hl1 Hk1. cbn in Hl1. destruct (decide (o1 = o)) as [->|Hne].
      * split; [done|]. rewrite lookup_insert_eq in Hl1. injection Hl1 as <-. cbn in Hk1.
        destruct (decide (k1 = k)) as [|Hkne]; [done|]. rewrite list_lookup_insert_ne in Hk1 by done.
        exfalso. apply Hf. by eapply list_elem_of_lookup_2.
      * rewrite lookup_insert_ne in Hl1 by done. exfalso. apply (alloc_not_held w o1 l1 Hl1).
        by eapply list_elem_of_lookup_2.
    + apply deref_store.
    + intros o'. destruct (decide (o' = o)) as [->|Hne].
      * unfold contents_of. cbn [held hold store]. rewrite lookup_insert_eq, Hl.
        cbn [fmap option_fmap option_map l' cl_len]. f_equal. f_equal. rewrite contents_hold. unfold contents. cbn [l' cl_chunks].
        apply list_eq. intros j. rewrite !list_lookup_fmap. destruct (decide (j = k)) as [->|Hj].
        -- rewrite list_lookup_insert_eq, Hk by done. cbn. by rewrite deref_store.
        -- rewrite list_lookup_insert_ne by done. destruct (cl_chunks l !! j) as [b|] eqn:Eb; [|done]. cbn. f_equal.
           apply deref_store_ne. intros <-. apply Hf. by eapply list_elem_of_lookup_2.
      * destruct (held w !! o') as [l1|] eqn:E2; [by eapply hold_fresh|].
        unfold contents_of. cbn [held hold store]. by rewrite lookup_insert_ne, E2.
Qed.

(** A write through an exclusive pointer changes one chunk of one list. *)
Lemma store_exclusive w o l k a c :
  held w !! o = Some l -> cl_chunks l !! k = Some a -> exclusive w o k a ->
  forall o', contents_of (store w a c) o' =
    if decide (o' = o) then Some (<[k := c]> (contents w l), cl_len l) else contents_of w o'.
Proof.
  intros Hl Hk Hx o'. unfold contents_of. cbn [held store]. case_decide as Ho.
  - subst o'. rewrite Hl. cbn. f_equal. f_equal. unfold contents. apply list_eq. intros j.
    rewrite list_lookup_fmap. destruct (decide (j = k)) as [->|Hj].
    + rewrite Hk, list_lookup_insert_eq by (rewrite length_fmap; by eapply lookup_lt_Some). cbn. by rewrite deref_store.
    + rewrite list_lookup_insert_ne, list_lookup_fmap by done. destruct (cl_chunks l !! j) as [b|] eqn:Eb; [|done].
      cbn. f_equal. apply deref_store_ne. intros <-. by destruct (Hx o l j Hl Eb).
  - destruct (held w !! o') as [l1|] eqn:E; [|done]. cbn. f_equal. f_equal.
    apply contents_store. intros [j Hj]%list_elem_of_lookup. by destruct (Hx o' l1 j E Hj).
Qed.

Lemma contents_of_Some w o l : held w !! o = Some l -> contents_of w o = Some (contents w l, cl_len l).
Proof. intros Hl. unfold contents_of. by rewrite Hl. Qed.

Lemma contents_of_inv w o cs n :
  contents_of w o = Some (cs, n) -> exists l, held w !! o = Some l /\ contents w l = cs /\ cl_len l = n.
Proof. unfold contents_of. destruct (held w !! o) as [l|]; [|done]. cbn. intros [= <- <-]. eauto. Qed.

Lemma with_mut_spec {E} w o l k g :
  held w !! o = Some l -> (k < length (cl_chunks l))%nat ->
  exists w', with_mut (E := E) w o k g = Ok w' /\ caches w' = caches w /\
    forall o', contents_of w' o' =
      if decide (o' = o) then Some (alter g k (contents w l), cl_len l) else contents_of w o'.
Proof using LL.
  intros Hl Hk. apply lookup_lt_is_Some_2 in Hk as [a Hk].
  destruct (make_mut_spec (E := E) w o l k a Hl Hk) as (w' & l' & a' & Em & Hl' & Hk' & Hx & Hd & Hca & Hc).
  unfold with_mut. rewrite Em. cbn [mbind res_bind]. eexists. split; [done|]. split; [done|].
  intros o'. rewrite (store_exclusive w' o l' k a' _ Hl' Hk' Hx). case_decide as Ho; [|by rewrite Hc].
  pose proof (Hc o) as Hco. rewrite (contents_of_Some w o l Hl), (contents_of_Some w' o l' Hl') in Hco.
  injection Hco as Hcs Hlen. rewrite Hcs, Hlen, Hd. f_equal. f_equal. symmetry.
  apply alter_insert. unfold contents. rewrite list_lookup_fmap, Hk. done.
Qed.

(** *** Every operation is the operation on the list, and no other list changes *)

Lemma represents_held w m o v :
  represents w m -> m !! o = Some v ->
  exists l, held w !! o = Some l /\ contents w l = chunks CHUNK_SIZE v /\ cl_len l = length v.
Proof. intros [Hr _] Hm. specialize (Hr o). rewrite Hm in Hr. by apply contents_of_inv. Qed.

Lemma represents_none w m o : represents w m -> m !! o = None -> held w !! o = None.
Proof. intros [Hr _] Hm. specialize (Hr o). rewrite Hm in Hr. unfold contents_of in Hr. by destruct (held w !! o). Qed.

Lemma represents_insert w w' m o v :
  represents w m -> (length v <= limit)%nat ->
  (forall o', contents_of w' o' =
     if decide (o' = o) then Some (chunks CHUNK_SIZE v, length v) else contents_of w o') ->
  represents w' (<[o := v]> m).
Proof.
  intros [Hr Hm] Hv Hc. split.
  - intros o'. rewrite Hc. case_decide as Ho; [subst; by rewrite lookup_insert_eq|]. by rewrite lookup_insert_ne, Hr.
  - by apply map_Forall_insert_2.
Qed.

Lemma length_contents w l : length (contents w l) = length (cl_chunks l).
Proof. apply length_fmap. Qed.

(** The chunk of an element, and its place there. *)
Lemma chunk_of_element (v : list A) i x :
  v !! i = Some x ->
  exists c, chunks CHUNK_SIZE v !! (i / CHUNK_SIZE)%nat = Some c /\ c !! (i mod CHUNK_SIZE)%nat = Some x.
Proof.
  intros Hx. pose proof (lookup_lt_Some _ _ _ Hx).
  pose proof (Nat.div_mod_eq i CHUNK_SIZE). pose proof (Nat.mod_upper_bound i CHUNK_SIZE).
  pose proof chunk_size_pos. rewrite chunks_lookup, decide_True by (done || lia). eexists. split; [done|].
  rewrite lookup_take_lt, lookup_drop by lia. rewrite <-Hx. f_equal. lia.
Qed.

Lemma element_at {E} w (l : ChunkedList) (v : list A) i x :
  contents w l = chunks CHUNK_SIZE v -> v !! i = Some x ->
  exists a, cl_chunks l !! (i / CHUNK_SIZE)%nat = Some a /\ index (E := E) (deref w a) (i mod CHUNK_SIZE) = Ok x.
Proof.
  intros Hc Hx. destruct (chunk_of_element v i x Hx) as (c & Hk & Hi). rewrite <-Hc in Hk. unfold contents in Hk.
  rewrite list_lookup_fmap in Hk. destruct (cl_chunks l !! _) as [a|]; [|done]. exists a. split; [done|].
  cbn in Hk. injection Hk as ->. by apply index_lookup.
Qed.

Lemma cl_get_spec {E} w m o v l i :
  represents w m -> m !! o = Some v -> held w !! o = Some l -> cl_get (E := E) w l i = Ok (v !! i).
Proof.
  intros Hr Hm Hl. destruct (represents_held _ _ _ _ Hr Hm) as (l' & Hl' & Hc & Hn).
  rewrite Hl in Hl'. injection Hl' as <-. unfold cl_get. rewrite Hn. destruct (length v <=? i)%nat eqn:Ei.
  - apply Nat.leb_le in Ei. by rewrite lookup_ge_None_2.
  - apply Nat.leb_gt in Ei. apply lookup_lt_is_Some_2 in Ei as [x Hx].
    destruct (element_at (E := E) w l v i x Hc Hx) as (a & Ha & Hi). rewrite (index_lookup _ _ _ Ha). cbn [mbind res_bind].
    by rewrite Hi, Hx.
Qed.

Lemma cl_update_spec {E} w m o v i f :
  represents w m -> m !! o = Some v ->
  exists w', cl_update (E := E) w o i f = Ok (w', (i <? length v)%nat) /\ represents w' (<[o := alter f i v]> m) /\
    caches w' = caches w.
Proof using LL.
  intros Hr Hm. destruct (represents_held _ _ _ _ Hr Hm) as (l & Hl & Hc & Hn).
  unfold cl_update, handle. rewrite Hl. cbn [mbind res_bind]. rewrite Hn. destruct (length v <=? i)%nat eqn:Ei.
  - apply Nat.leb_le in Ei. exists w. split; [by rewrite (proj2 (Nat.ltb_ge _ _)) by lia|]. split; [|done].
    assert (alter f i v = v) as ->.
    { apply list_eq. intros j. destruct (decide (j = i)) as [->|]; [|by apply list_lookup_alter_ne].
      by rewrite list_lookup_alter_eq, lookup_ge_None_2. }
    by rewrite insert_id.
  - apply Nat.leb_gt in Ei. rewrite (proj2 (Nat.ltb_lt _ _)) by done. apply lookup_lt_is_Some_2 in Ei as [x Hx].
    destruct (element_at (E := E) w l v i x Hc Hx) as (a & Ha & Hi).
    destruct (make_mut_spec (E := E) w o l _ a Hl Ha) as (w' & l' & a' & -> & Hl' & Hk' & Hx' & Hd & Hca & Hco).
    cbn [mbind res_bind]. rewrite Hd, Hi. cbn [mbind res_bind]. eexists. split; [done|]. split; [|done].
    eapply represents_insert; [done|..].
    + rewrite length_alter. destruct Hr as [_ Hb]. by apply (Hb o).
    + intros o'. rewrite (store_exclusive w' o l' _ a' _ Hl' Hk' Hx'). case_decide as Ho; [|by rewrite Hco].
      pose proof (Hco o) as Hcs. rewrite (contents_of_Some w o l Hl), (contents_of_Some w' o l' Hl') in Hcs.
      injection Hcs as -> ->. rewrite Hc, length_alter, Hn, chunks_alter by done. f_equal. f_equal. symmetry.
      apply index_Ok in Hi. rewrite <-(alter_insert f (i mod CHUNK_SIZE) _ _ Hi).
      apply (alter_insert (alter f (i mod CHUNK_SIZE)%nat)). rewrite <-Hc. unfold contents.
      by rewrite list_lookup_fmap, Ha.
Qed.

(** Chunk by chunk. *)
Lemma cl_map_from {E} f o w0 w cs n k :
  (forall o', contents_of w o' = if decide (o' = o) then Some (cs, n) else contents_of w0 o') ->
  (k <= length cs)%nat ->
  exists w', foldM (E := E) (fun w k => with_mut w o k (fun c => f <$> c)) w (seq (length cs - k) k) = Ok w' /\
    caches w' = caches w /\
    forall o', contents_of w' o' =
      if decide (o' = o) then Some (take (length cs - k) cs ++ ((fun c : list A => f <$> c) <$> drop (length cs - k) cs), n)
      else contents_of w0 o'.
Proof using LL.
  revert w cs. induction k as [|k IH]; intros w cs Hc Hk.
  - exists w. split; [done|]. split; [done|]. intros o'. rewrite Hc, Nat.sub_0_r, take_ge, drop_ge by lia. by rewrite app_nil_r.
  - pose proof (Hc o) as Ho. rewrite decide_True in Ho by done. apply contents_of_inv in Ho as (l & Hl & Hcs & Hn).
    destruct (with_mut_spec (E := E) w o l (length cs - S k) (fun c => f <$> c) Hl) as (w1 & E1 & Hca & H1).
    { rewrite <-Hcs, length_contents. rewrite <-Hcs, length_contents in Hk. lia. }
    cbn [seq foldM]. rewrite E1. cbn [mbind res_bind]. rewrite Hcs, Hn in H1.
    set (cs1 := alter (fun c : list A => f <$> c) (length cs - S k)%nat cs) in *.
    assert (length cs1 = length cs) as Hl1 by apply length_alter.
    destruct (IH w1 cs1) as (w' & E' & Hca' & H'); [|lia|].
    { intros o'. rewrite H1. case_decide as Ho; [done|]. by rewrite Hc, decide_False. }
    rewrite Hl1 in *. replace (S (length cs - S k)) with (length cs - k)%nat by lia. exists w'.
    split; [done|]. split; [congruence|]. intros o'. rewrite H'. case_decide; [|done]. do 2 f_equal.
    destruct (lookup_lt_is_Some_2 cs (length cs - S k) ltac:(lia)) as [c Hcc].
    assert (cs1 = <[(length cs - S k)%nat := f <$> c]> cs) as -> by (by apply alter_insert).
    replace (length cs - k)%nat with (S (length cs - S k)) by lia.
    rewrite (drop_S _ _ _ Hcc). rewrite drop_insert_lt by lia.
    rewrite (take_S_r _ _ (f <$> c)) by (apply list_lookup_insert_eq; lia).
    rewrite take_insert_ge by lia. cbn [fmap list_fmap]. by rewrite <-app_assoc.
Qed.

Lemma cl_map_spec {E} w m o v f :
  represents w m -> m !! o = Some v ->
  exists w', cl_map (E := E) w o f = Ok w' /\ represents w' (<[o := f <$> v]> m) /\ caches w' = caches w.
Proof using LL.
  intros Hr Hm. destruct (represents_held _ _ _ _ Hr Hm) as (l & Hl & Hc & Hn).
  unfold cl_map, handle. rewrite Hl. cbn [mbind res_bind].
  destruct (cl_map_from (E := E) f o w w (contents w l) (cl_len l) (length (contents w l))) as (w' & E' & Hca & H'); [|done|].
  { intros o'. case_decide; [subst; by apply contents_of_Some|done]. }
  rewrite Nat.sub_diag, length_contents in E'. exists w'. split; [done|]. split; [|done].
  eapply represents_insert; [done|..].
  - rewrite length_fmap. destruct Hr as [_ Hb]. by apply (Hb o).
  - intros o'. rewrite H'. case_decide; [|done]. rewrite Nat.sub_diag, take_0, drop_0, Hc, Hn, length_fmap, chunks_fmap by done. done.
Qed.

Lemma alloc_chunks cs w addrs :
  let st := foldl alloc_chunk (w, addrs) cs in
  held st.1 = held w /\ caches st.1 = caches w /\
  (forall o, contents_of st.1 o = contents_of w o) /\
  deref st.1 <$> st.2 = (deref w <$> addrs) ++ cs.
Proof using LL.
  revert w addrs. induction cs as [|c cs IH]; intros w addrs; cbn [foldl].
  - split_and!; [done..|]. cbn. by rewrite app_nil_r.
  - set (a := alloc (live w ∪ list_to_set addrs)).
    change (alloc_chunk (w, addrs) c) with (store w a c, addrs ++ [a]).
    assert (a ∉ live w ∪ list_to_set addrs) as Ha by apply alloc_fresh.
    destruct (IH (store w a c) (addrs ++ [a])) as (Hh & Hca & Hc & Hd). split_and!; [done..| |].
    + intros o. rewrite Hc. unfold contents_of. cbn [held store]. destruct (held w !! o) as [l|] eqn:El; [|done].
      cbn [fmap option_fmap option_map]. f_equal. f_equal. apply contents_store. intros Hin. apply Ha.
      apply elem_of_union_l, elem_of_list_to_set, elem_of_references. eauto.
    + rewrite Hd, fmap_app, <-app_assoc. cbn [fmap list_fmap app]. rewrite deref_store. f_equal.
      apply list_fmap_ext. intros i b Hb. apply deref_store_ne. intros <-. apply Ha.
      apply elem_of_union_r, elem_of_list_to_set. by eapply list_elem_of_lookup_2.
Qed.

Lemma contents_of_hold w o l o' :
  contents_of (hold w o l) o' = if decide (o' = o) then Some (contents w l, cl_len l) else contents_of w o'.
Proof.
  unfold contents_of. cbn [held hold]. case_decide as Ho; [subst; by rewrite lookup_insert_eq|].
  by rewrite lookup_insert_ne.
Qed.

Lemma cl_new_spec w m o elements :
  represents w m -> (length elements <= limit)%nat ->
  exists w', cl_new w o elements = Ok w' /\ represents w' (<[o := elements]> m) /\ caches w' = caches w.
Proof using LL.
  intros Hr Hl. unfold cl_new. rewrite (proj2 (Nat.ltb_ge _ _)) by done. eexists. split; [done|]. unfold cl_from_vec.
  destruct (alloc_chunks (chunks CHUNK_SIZE elements) w []) as (Hh & Hca & Hc & Hd).
  destruct (foldl alloc_chunk (w, []) (chunks CHUNK_SIZE elements)) as [w1 addrs]. cbn [fst snd] in *. split; [|done].
  eapply represents_insert; [done..|]. intros o'. rewrite contents_of_hold. case_decide; [|by rewrite Hc].
  cbn [cl_len]. unfold contents. cbn [cl_chunks]. by rewrite Hd.
Qed.

(** The chunk the new element goes to. *)
Lemma push_chunk w o l v x :
  held w !! o = Some l -> contents w l = chunks CHUNK_SIZE v -> cl_len l = length v ->
  let fresh_chunk :=
    Ok (hold (store w (alloc (live w)) [x]) o (mkChunkedList (cl_chunks l ++ [alloc (live w)]) (length v))) in
  exists w1, (match last (cl_chunks l) with
     | Some a => if (length (deref w a) <? CHUNK_SIZE)%nat
                 then with_mut w o (length (cl_chunks l) - 1) (fun c => c ++ [x]) else fresh_chunk
     | None => fresh_chunk
     end) = Ok (E := ssz_error) w1 /\ caches w1 = caches w /\
     forall o', contents_of w1 o' =
       if decide (o' = o) then Some (chunks CHUNK_SIZE (v ++ [x]), length v) else contents_of w o'.
Proof using LL.
  intros Hl Hc Hn fresh_chunk.
  assert (forall c, last (chunks CHUNK_SIZE v) = Some c -> exists a, last (cl_chunks l) = Some a /\ deref w a = c) as Hlast.
  { intros c. rewrite <-Hc. unfold contents. rewrite fmap_last. destruct (last (cl_chunks l)) as [a|]; [|done].
    cbn. intros [= <-]. eauto. }
  assert ((forall c, last (chunks CHUNK_SIZE v) = Some c -> (CHUNK_SIZE <= length c)%nat) ->
    exists w1, fresh_chunk = Ok (E := ssz_error) w1 /\ caches w1 = caches w /\
     forall o', contents_of w1 o' =
       if decide (o' = o) then Some (chunks CHUNK_SIZE (v ++ [x]), length v) else contents_of w o') as Hfresh.
  { intros Hfull. eexists. split; [done|]. split; [done|]. intros o'. case_decide as Ho.
    - subst o'. rewrite contents_of_hold, decide_True by done. cbn [cl_len]. f_equal. f_equal.
      rewrite chunks_push_full by done. rewrite <-Hc. unfold contents. cbn [cl_chunks]. rewrite fmap_app. cbn [fmap list_fmap].
      rewrite deref_store. f_equal. apply (contents_store w _ [x] l). by eapply alloc_not_held.
    - destruct (held w !! o') as [l1|] eqn:E1; [by eapply hold_fresh|].
      unfold contents_of. cbn [held hold store]. by rewrite lookup_insert_ne, E1. }
  destruct (last (cl_chunks l)) as [a|] eqn:Ea.
  - destruct (length (deref w a) <? CHUNK_SIZE)%nat eqn:Eroom.
    + apply Nat.ltb_lt in Eroom. rewrite last_lookup in Ea. pose proof (lookup_lt_Some _ _ _ Ea) as Hlt.
      replace (length (cl_chunks l) - 1)%nat with (pred (length (cl_chunks l))) by lia.
      destruct (with_mut_spec (E := ssz_error) w o l (pred (length (cl_chunks l))) (fun c => c ++ [x]) Hl Hlt)
        as (w1 & -> & Hca & H1).
      exists w1. split; [done|]. split; [done|]. intros o'. rewrite H1. case_decide; [|done]. rewrite Hn. do 2 f_equal.
      assert (chunks CHUNK_SIZE v !! pred (length (cl_chunks l)) = Some (deref w a)) as Hk.
      { rewrite <-Hc. unfold contents. by rewrite list_lookup_fmap, Ea. }
      destruct (chunks_push_room CHUNK_SIZE v x _ _ chunk_size_pos Hk Eroom) as [-> _].
      rewrite Hc. by apply (alter_insert (fun c => c ++ [x])).
    + apply Nat.ltb_ge in Eroom. apply Hfresh. intros c Hcl. apply Hlast in Hcl as (a' & [= <-] & <-). done.
  - apply Hfresh. intros c Hcl. by apply Hlast in Hcl as (a' & ? & _).
Qed.

Lemma cl_push_spec w m o v x :
  represents w m -> m !! o = Some v -> (length v < limit)%nat ->
  exists w', cl_push_shared w o x = Ok w' /\ represents w' (<[o := v ++ [x]]> m) /\ caches w' = caches w.
Proof using LL.
  intros Hr Hm Hv. destruct (represents_held _ _ _ _ Hr Hm) as (l & Hl & Hc & Hn).
  unfold cl_push_shared, handle. rewrite Hl. cbn [mbind res_bind]. rewrite Hn, (proj2 (Nat.leb_gt _ _)) by done.
  assert (exists w1, (match last (cl_chunks l) with
     | Some a => if (length (deref w a) <? CHUNK_SIZE)%nat
                 then with_mut w o (length (cl_chunks l) - 1) (fun c => c ++ [x])
                 else Ok (hold (store w (alloc (live w)) [x]) o (mkChunkedList (cl_chunks l ++ [alloc (live w)]) (length v)))
     | None => Ok (hold (store w (alloc (live w)) [x]) o (mkChunkedList (cl_chunks l ++ [alloc (live w)]) (length v)))
     end) = Ok (E := ssz_error) w1 /\ caches w1 = caches w /\
     forall o', contents_of w1 o' =
       if decide (o' = o) then Some (chunks CHUNK_SIZE (v ++ [x]), length v) else contents_of w o') as (w1 & -> & Hca & H1).
  { by apply push_chunk. }
  cbn [mbind res_bind]. pose proof (H1 o) as Ho. rewrite decide_True in Ho by done.
  apply contents_of_inv in Ho as (l1 & Hl1 & Hc1 & Hn1). rewrite Hl1. cbn [mbind res_bind].
  eexists. split; [done|]. split; [|done]. eapply represents_insert; [done|rewrite length_app; cbn; lia|].
  intros o'. rewrite contents_of_hold, H1. case_decide; [|done]. cbn [cl_len]. rewrite Hn1, length_app. cbn [length].
  do 2 f_equal. exact Hc1.
Qed.

Lemma cl_clone_spec {E} w m o o' v :
  represents w m -> m !! o = Some v ->
  exists w', cl_clone (E := E) w o o' = Ok w' /\ represents w' (<[o' := v]> m) /\ caches w' = caches w.
Proof.
  intros Hr Hm. destruct (represents_held _ _ _ _ Hr Hm) as (l & Hl & Hc & Hn).
  unfold cl_clone, handle. rewrite Hl. eexists. split; [done|]. split; [|done].
  eapply represents_insert; [done|destruct Hr as [_ Hb]; by apply (Hb o)|].
  intros o1. rewrite contents_of_hold. case_decide; [|done]. by rewrite Hc, Hn.
Qed.

Lemma release_spec w m o : represents w m -> represents (release w o) (delete o m).
Proof.
  intros [Hr Hb]. split; [|by apply map_Forall_delete]. intros o'. specialize (Hr o'). unfold contents_of in *. cbn [held release].
  destruct (decide (o' = o)) as [->|Hne]; [by rewrite !lookup_delete_eq|]. by rewrite !lookup_delete_ne.
Qed.

(** [==] compares the elements, whichever chunks are shared. *)
Lemma cl_eq_spec `{!EqDecision A} w m o o' l l' v v' :
  represents w m -> m !! o = Some v -> m !! o' = Some v' -> held w !! o = Some l -> held w !! o' = Some l' ->
  cl_eq w l l' = bool_decide (v = v').
Proof.
  intros Hr Hm Hm' Hl Hl'. destruct (represents_held _ _ _ _ Hr Hm) as (l0 & El & Hc & Hn).
  destruct (represents_held _ _ _ _ Hr Hm') as (l0' & El' & Hc' & Hn'). simplify_eq.
  unfold cl_eq. rewrite Hn, Hn'. destruct (length v =? length v')%nat eqn:E; cbn [andb].
  - apply Nat.eqb_eq in E. apply eq_bool_prop_intro. rewrite bool_decide_spec. rewrite Is_true_true, forallb_forall. split.
    + intros Hall. rewrite <-(concat_chunks CHUNK_SIZE v), <-(concat_chunks CHUNK_SIZE v'), <-Hc, <-Hc' by done. f_equal.
      unfold contents. apply list_eq. intros k. rewrite !list_lookup_fmap.
      assert (length (cl_chunks l) = length (cl_chunks l')) as Hlen.
      { rewrite <-!length_contents with (w := w), Hc, Hc', !length_chunks by done. by rewrite E. }
      destruct (cl_chunks l !! k) as [a|] eqn:Ea, (cl_chunks l' !! k) as [b|] eqn:Eb; try done.
      * cbn. f_equal. specialize (Hall (a, b)). cbn [fst snd] in Hall.
        assert (In (a, b) (zip (cl_chunks l) (cl_chunks l'))) as Hin.
        { apply list_elem_of_In, (list_elem_of_lookup_2 _ k). apply lookup_zip_Some. done. }
        apply Hall, orb_true_iff in Hin as [Hin%bool_decide_eq_true_1|Hin%bool_decide_eq_true_1]; congruence.
      * apply lookup_lt_Some in Ea. apply lookup_ge_None in Eb. lia.
      * apply lookup_lt_Some in Eb. apply lookup_ge_None in Ea. lia.
    + intros -> [a b] Hin%list_elem_of_In%list_elem_of_lookup. destruct Hin as [k Hk].
      apply lookup_zip_Some in Hk as [Ha Hb]. apply orb_true_iff. right. apply bool_decide_eq_true_2. cbn [fst snd].
      assert (contents w l = contents w l') as He by congruence. apply (f_equal (fun cs => cs !! k)) in He.
      unfold contents in He. rewrite !list_lookup_fmap, Ha, Hb in He. by injection He.
  - apply Nat.eqb_neq in E. rewrite bool_decide_eq_false_2; [done|]. congruence.
Qed.

(** *** Iterating from both ends *)

Fixpoint take_sides (v : list A) (sides : list bool) : list A :=
  match sides with
  | [] => []
  | true :: sides' => match v with x :: v' => x :: take_sides v' sides' | [] => [] end
  | false :: sides' => match last v with Some x => x :: take_sides (take (length v - 1) v) sides' | None => [] end
  end.

Lemma drain_spec {E} w l v sides i j :
  contents w l = chunks CHUNK_SIZE v -> (i <= j <= length v)%nat ->
  drain (E := E) w (mkIter (cl_chunks l) i j) sides = Ok (take_sides (take (j - i) (drop i v)) sides).
Proof.
  intros Hc. revert i j. induction sides as [|side sides IH]; intros i j Hij; [done|].
  cbn [drain take_sides]. unfold iter_next, iter_next_back. cbn [front back it_chunks].
  destruct (i =? j)%nat eqn:E1.
  - apply Nat.eqb_eq in E1 as ->. rewrite Nat.sub_diag, take_0. by destruct side.
  - apply Nat.eqb_neq in E1. destruct side.
    + destruct (lookup_lt_is_Some_2 v i ltac:(lia)) as [x Hx].
      destruct (element_at (E := E) w l v i x Hc Hx) as (a & Ha & Hi). rewrite (index_lookup _ _ _ Ha). cbn [mbind res_bind].
      rewrite Hi. cbn [mbind res_bind]. rewrite IH by lia. cbn [mbind res_bind]. rewrite (drop_S _ _ _ Hx).
      replace (j - i)%nat with (S (j - (i + 1))) by lia. cbn [take]. by rewrite Nat.add_1_r.
    + destruct (lookup_lt_is_Some_2 v (j - 1) ltac:(lia)) as [x Hx].
      destruct (element_at (E := E) w l v (j - 1) x Hc Hx) as (a & Ha & Hi). rewrite (index_lookup _ _ _ Ha). cbn [mbind res_bind].
      rewrite Hi. cbn [mbind res_bind]. rewrite IH by lia. cbn [mbind res_bind].
      assert (length (take (j - i) (drop i v)) = j - i)%nat as Hl by (rewrite length_take, length_drop; lia).
      rewrite last_lookup, Hl. rewrite lookup_take_lt, lookup_drop by lia.
      replace (i + pred (j - i))%nat with (j - 1)%nat by lia. rewrite Hx, take_take. do 4 f_equal. lia.
Qed.

Lemma take_sides_all v n : (length v < n)%nat -> take_sides v (replicate n true) = v.
Proof. revert n. induction v as [|x v IH]; intros [|n] Hn; cbn in *; try done; [lia|]. by rewrite IH by lia. Qed.

Lemma cl_to_vec_spec {E} w m o v l :
  represents w m -> m !! o = Some v -> held w !! o = Some l -> cl_to_vec (E := E) w l = Ok v.
Proof.
  intros Hr Hm Hl. destruct (represents_held _ _ _ _ Hr Hm) as (l' & Hl' & Hc & Hn). simplify_eq.
  unfold cl_to_vec, cl_iter. rewrite (drain_spec w l v) by (done || lia).
  rewrite Hn, Nat.sub_0_r, drop_0, take_ge, take_sides_all by lia. done.
Qed.
End world.

(** ** The registry's root *)

Section registry.
Context {H : Sha256} {ZH : ZeroHashes} {T : Threads} {Mix : MixInLength} {L : Allocator}.
Context {A : Type} `{!EqDecision A} (tree_hash_root : A -> B256) (limit : nat).
Implicit Types (w : World A) (l : ChunkedList).

(** [filter] with a test that may panic. *)
Fixpoint filterR {B} (p : B -> run bool) (bs : list B) : run (list B) :=
  match bs with
  | [] => Ok []
  | b :: bs' => keep ← p b; rest ← filterR p bs'; Ok (if keep : bool then b :: rest else rest)
  end.

(** The chunks below [len] that are not the same allocation any more. *)
Definition pointers_differ (hashed validators : ChunkedList) (chunk : nat) : run bool :=
  a ← index (cl_chunks hashed) chunk;
  b ← index (cl_chunks validators) chunk;
  Ok (negb (bool_decide (a = b))).

Definition elements_differ (hashed_chunk chunk_validators : list A) (start i : nat) : run bool :=
  x ← index hashed_chunk (i - start);
  y ← index chunk_validators (i - start);
  Ok (negb (bool_decide (x = y))).

Definition changed_in_chunk w (hashed validators : ChunkedList) (len chunk : nat) : run (list nat) :=
  let start := (chunk * CHUNK_SIZE)%nat in
  let stop := ((start + CHUNK_SIZE) `min` len)%nat in
  a ← index (cl_chunks hashed) chunk;
  b ← index (cl_chunks validators) chunk;
  filterR (elements_differ (deref w a) (deref w b) start) (seq start (stop - start)).

Definition changed_indices w (hashed validators : ChunkedList) (len : nat) : run (list nat) :=
  differing ← filterR (pointers_differ hashed validators) (seq 0 (div_ceil len CHUNK_SIZE));
  changed ← parallel_map differing (4 * Pos.to_nat thread_count) (changed_in_chunk w hashed validators len);
  Ok (concat changed).

Definition validators_tree_build w (validators : ChunkedList) : run MerkleTree :=
  leaves ← parallel_map (cl_chunks validators) 16 (fun a => Ok (tree_hash_root <$> deref w a));
  tree_of_leaves (concat leaves).

Definition validators_tree_update w (tree : MerkleTree) (hashed validators : ChunkedList) : run MerkleTree :=
  let common := (cl_len hashed `min` cl_len validators)%nat in
  '(tree, last) ← truncate tree (cl_len validators);
  changed ← changed_indices w hashed validators common;
  let dirty := dedup (sort_unstable (changed ++ option_list last)) ++ seq common (cl_len validators - common) in
  tree ← foldM (fun tree i => v ← cl_index w validators i; set_leaf tree i (tree_hash_root v)) tree dirty;
  rehash tree dirty.

(** [ValidatorsRootCache::root]: cache [c] asked for the registry state [n] holds. *)
Definition cached_validators_root w (c n : nat) (limit_depth : nat) : run (World A * B256) :=
  validators ← handle w (inl n);
  tree ← (match lock (default (mkMutex None false) (caches w !! c)) with
          | Some tree => hashed ← handle w (inr c); validators_tree_update w tree hashed validators
          | None => validators_tree_build w validators
          end);
  r ← tree_root tree limit_depth;
  Ok (mkWorld (memory w) (<[inr c := validators]> (held w)) (<[c := mkMutex (Some tree) false]> (caches w)),
      mix_in_length r (cl_len validators)).

Lemma filterR_pure {B} (P : B -> Prop) `{!forall b, Decision (P b)} (p : B -> run bool) (bs : list B) :
  (forall b, b ∈ bs -> p b = Ok (bool_decide (P b))) -> filterR p bs = Ok (filter P bs).
Proof.
  induction bs as [|b bs IH]; intros Hp; cbn [filterR]; [done|]. rewrite Hp by set_solver. cbn [mbind res_bind].
  rewrite IH by (intros; apply Hp; set_solver). cbn [mbind res_bind]. rewrite filter_cons.
  by destruct (decide (P b)) as [HP|HP]; [rewrite bool_decide_eq_true_2|rewrite bool_decide_eq_false_2].
Qed.

Lemma differ_bool {B} `{!EqDecision B} (x y : B) : negb (bool_decide (x = y)) = bool_decide (Some x <> Some y).
Proof.
  destruct (decide (x = y)) as [->|Hne].
  - rewrite (bool_decide_eq_true_2 (y = y)), bool_decide_eq_false_2 by auto. done.
  - rewrite (bool_decide_eq_false_2 (x = y)), bool_decide_eq_true_2 by congruence. done.
Qed.

Lemma concat_skip {B C} (P : B -> Prop) `{!forall b, Decision (P b)} (g : B -> list C) (bs : list B) :
  (forall b, b ∈ bs -> ~ P b -> g b = []) -> concat (g <$> filter P bs) = concat (g <$> bs).
Proof.
  induction bs as [|b bs IH]; intros Hg; [done|]. rewrite filter_cons. cbn [fmap list_fmap concat].
  rewrite <-IH by (intros; apply Hg; set_solver). destruct (decide (P b)) as [|HP]; [done|].
  by rewrite (Hg b) by set_solver.
Qed.

Lemma filter_none {B} (P : B -> Prop) `{!forall b, Decision (P b)} (bs : list B) :
  (forall b, b ∈ bs -> ~ P b) -> filter P bs = [].
Proof.
  induction bs as [|b bs IH]; intros HP; [done|]. rewrite filter_cons_False by (apply HP; set_solver).
  apply IH. intros; apply HP; set_solver.
Qed.

Lemma concat_filter {B C} (Q : C -> Prop) `{!forall c, Decision (Q c)} (g : B -> list C) (bs : list B) :
  concat ((fun b => filter Q (g b)) <$> bs) = filter Q (concat (g <$> bs)).
Proof. induction bs as [|b bs IH]; [done|]. cbn [fmap list_fmap concat]. by rewrite filter_app, IH. Qed.

Lemma chunk_pointer w l (v : list A) k :
  contents w l = chunks CHUNK_SIZE v -> (k * CHUNK_SIZE < length v)%nat ->
  exists a, cl_chunks l !! k = Some a /\ deref w a = take CHUNK_SIZE (drop (k * CHUNK_SIZE) v).
Proof.
  intros Hc Hk. pose proof (chunks_lookup CHUNK_SIZE v k chunk_size_pos) as Hl. rewrite decide_True, <-Hc in Hl by done.
  unfold contents in Hl. rewrite list_lookup_fmap in Hl. destruct (cl_chunks l !! k) as [a|]; [|done].
  exists a. split; [done|]. by injection Hl.
Qed.

Lemma changed_in_chunk_ref w hashed validators hv vv len k :
  contents w hashed = chunks CHUNK_SIZE hv -> contents w validators = chunks CHUNK_SIZE vv ->
  (len <= length hv)%nat -> (len <= length vv)%nat -> (k * CHUNK_SIZE < len)%nat ->
  changed_in_chunk w hashed validators len k =
    Ok (filter (fun i => hv !! i <> vv !! i)
          (seq (k * CHUNK_SIZE) ((k * CHUNK_SIZE + CHUNK_SIZE) `min` len - k * CHUNK_SIZE))).
Proof.
  intros Hh Hv Hlh Hlv Hk. unfold changed_in_chunk.
  destruct (chunk_pointer w hashed hv k Hh ltac:(lia)) as (a & Ha & Hda).
  destruct (chunk_pointer w validators vv k Hv ltac:(lia)) as (b & Hb & Hdb).
  rewrite (index_lookup _ _ _ Ha), (index_lookup _ _ _ Hb). cbn [mbind res_bind]. apply filterR_pure.
  intros i Hi%elem_of_seq. unfold elements_differ. rewrite Hda, Hdb.
  destruct (lookup_lt_is_Some_2 hv i ltac:(lia)) as [x Hx]. destruct (lookup_lt_is_Some_2 vv i ltac:(lia)) as [y Hy].
  assert (forall (u : list A) z, u !! i = Some z ->
    index (E := Empty_set) (take CHUNK_SIZE (drop (k * CHUNK_SIZE) u)) (i - k * CHUNK_SIZE) = Ok z) as Hat.
  { intros u z Hz. apply index_lookup. rewrite lookup_take_lt, lookup_drop, <-Hz by lia. f_equal. lia. }
  rewrite (Hat _ _ Hx). cbn [mbind res_bind]. rewrite (Hat _ _ Hy). cbn [mbind res_bind]. f_equal. rewrite Hx, Hy.
  apply differ_bool.
Qed.

(** Skipping the shared chunks loses no difference. *)
Lemma changed_indices_ref w hashed validators hv vv len :
  contents w hashed = chunks CHUNK_SIZE hv -> contents w validators = chunks CHUNK_SIZE vv ->
  (len <= length hv)%nat -> (len <= length vv)%nat ->
  changed_indices w hashed validators len = Ok (filter (fun i => hv !! i <> vv !! i) (seq 0 len)).
Proof.
  intros Hh Hv Hlh Hlv. unfold changed_indices. pose proof chunk_size_pos as Hpos.
  rewrite (filterR_pure (fun k => cl_chunks hashed !! k <> cl_chunks validators !! k)).
  - cbn [mbind res_bind]. rewrite parallel_map_mapR by lia.
    set (range := fun k => seq (k * CHUNK_SIZE) ((k * CHUNK_SIZE + CHUNK_SIZE) `min` len - k * CHUNK_SIZE)%nat).
    rewrite (mapR_fmap _ (fun k => filter (fun i => hv !! i <> vv !! i) (range k))).
    + cbn [mbind res_bind]. f_equal. rewrite concat_skip.
      * rewrite concat_filter. f_equal. rewrite <-(concat_step_by len CHUNK_SIZE Hpos). unfold step_by.
        by rewrite <-list_fmap_compose.
      * intros k Hk%elem_of_seq Hsame. apply dec_stable in Hsame. assert (k * CHUNK_SIZE < len)%nat by (apply div_ceil_lt; lia).
        destruct (chunk_pointer w hashed hv k Hh ltac:(lia)) as (a & Ha & Hda).
        destruct (chunk_pointer w validators vv k Hv ltac:(lia)) as (b & Hb & Hdb).
        assert (a = b) as -> by congruence. rewrite Hda in Hdb.
        apply filter_none. intros i Hi%elem_of_seq Hne. apply Hne.
        apply (f_equal (fun c => c !! (i - k * CHUNK_SIZE)%nat)) in Hdb. rewrite !lookup_take_lt, !lookup_drop in Hdb by lia.
        by replace (k * CHUNK_SIZE + (i - k * CHUNK_SIZE))%nat with i in Hdb by lia.
    + intros k [_ Hk%elem_of_seq]%list_elem_of_filter. apply changed_in_chunk_ref; try done. apply div_ceil_lt; lia.
  - intros k Hk%elem_of_seq. assert (k * CHUNK_SIZE < len)%nat by (apply div_ceil_lt; lia). unfold pointers_differ.
    destruct (chunk_pointer w hashed hv k Hh ltac:(lia)) as (a & Ha & _).
    destruct (chunk_pointer w validators vv k Hv ltac:(lia)) as (b & Hb & _).
    rewrite (index_lookup _ _ _ Ha), (index_lookup _ _ _ Hb), Ha, Hb. cbn [mbind res_bind]. f_equal.
    apply differ_bool.
Qed.

Lemma dedup_from_sorted last dirty :
  StronglySorted le (last :: dirty) -> StronglySorted lt (last :: dedup_from last dirty).
Proof.
  revert last. induction dirty as [|x dirty IH]; intros last Hs; cbn [dedup_from]; [by repeat constructor|].
  apply StronglySorted_inv in Hs as [Hs Hall]. apply Forall_cons in Hall as [Hx Hall]. case_decide as Hd.
  - subst x. by apply IH.
  - specialize (IH x Hs). constructor; [done|]. constructor; [lia|]. apply StronglySorted_inv in IH as [_ Hlt].
    eapply Forall_impl; [exact Hlt|]. cbn. lia.
Qed.

Lemma sort_dedup_sorted dirty : StronglySorted lt (dedup (sort_unstable dirty)).
Proof.
  unfold sort_unstable. pose proof (StronglySorted_merge_sort (≤)%nat dirty) as Hs.
  destruct (merge_sort _ dirty) as [|x s]; [constructor|]. by apply dedup_from_sorted.
Qed.

Lemma sorted_then_seq s k n :
  StronglySorted lt s -> Forall (fun i => i < k)%nat s -> StronglySorted lt (s ++ seq k n).
Proof.
  induction 1 as [|x s Hs IH Hx]; intros Hk; [apply seq_sorted|]. apply Forall_cons in Hk as [Hxk Hk]. cbn.
  constructor; [by apply IH|]. apply Forall_app. split; [done|]. apply Forall_forall. intros i Hi%elem_of_seq. lia.
Qed.

Context {ZL : ZeroHashesLaws H ZH} {LL : AllocatorLaws L}.

Lemma set_leaves_written (f : nat -> B256) w l tree dirty idxs :
  (forall i, i ∈ idxs -> exists v, cl_index (E := Empty_set) w l i = Ok v /\ tree_hash_root v = f i) ->
  foldM (fun tree i => v ← cl_index w l i; set_leaf tree i (tree_hash_root v)) tree idxs =
    (st ← foldM write_leaf (tree, dirty) ((fun i => (i, f i)) <$> idxs); Ok st.1).
Proof.
  revert tree dirty. induction idxs as [|i idxs IH]; intros tree dirty Hf; [done|]. cbn [foldM fmap list_fmap].
  destruct (Hf i) as (v & -> & Hv); [set_solver|]. cbn [mbind res_bind]. rewrite Hv.
  change (write_leaf (tree, dirty) (i, f i)) with (t ← set_leaf tree i (f i); Ok (t, dirty ++ [i]) : run _).
  destruct (set_leaf tree i (f i)); cbn [mbind res_bind]; [|done..].
  apply IH. intros; apply Hf; set_solver.
Qed.

Lemma cl_index_spec w m o v l i x :
  represents limit w m -> m !! o = Some v -> held w !! o = Some l -> v !! i = Some x ->
  cl_index (E := Empty_set) w l i = Ok x.
Proof. intros Hr Hm Hl Hx. unfold cl_index. by rewrite (cl_get_spec limit w m o v l i Hr Hm Hl), Hx. Qed.

Lemma validators_tree_update_ref w m c n hv vv hashed validators :
  represents limit w m -> m !! inr c = Some hv -> m !! inl n = Some vv ->
  held w !! inr c = Some hashed -> held w !! inl n = Some validators ->
  validators_tree_update w (mkMerkleTree (levels_ref (tree_hash_root <$> hv))) hashed validators =
    Ok (mkMerkleTree (levels_ref (tree_hash_root <$> vv))).
Proof using ZL LL.
  intros Hr Hmh Hmv Hlh Hlv.
  destruct (represents_held _ _ _ _ _ Hr Hmh) as (l1 & E1 & Hch & Hnh).
  destruct (represents_held _ _ _ _ _ Hr Hmv) as (l2 & E2 & Hcv & Hnv).
  rewrite Hlh in E1. injection E1 as <-. rewrite Hlv in E2. injection E2 as <-.
  unfold validators_tree_update. rewrite Hnh, Hnv.
  destruct (truncate_ref (tree_hash_root <$> hv) (length vv)) as (old' & ls & last & -> & Ht). cbn [mbind res_bind].
  rewrite (changed_indices_ref w hashed validators hv vv) by (done || lia). cbn [mbind res_bind].
  set (common := (length hv `min` length vv)%nat).
  set (changed := filter (fun i => hv !! i <> vv !! i) (seq 0 common)).
  set (dirty := dedup (sort_unstable (changed ++ option_list last)) ++ seq common (length vv - common)).
  assert (length ls = common) as Hls.
  { destruct Ht as (-> & _). rewrite length_take, length_fmap. unfold common. lia. }
  assert (forall i, i ∈ dedup (sort_unstable (changed ++ option_list last)) <-> i ∈ changed \/ last = Some i) as Hmem.
  { intros i. rewrite elem_of_dedup, elem_of_sort, elem_of_app. destruct last; cbn; set_solver. }
  assert (Forall (fun i => i < common)%nat (dedup (sort_unstable (changed ++ option_list last)))) as Hbelow.
  { apply Forall_forall. intros i [Hi|Hi]%Hmem.
    - apply list_elem_of_filter in Hi as [_ Hi%elem_of_seq]. lia.
    - destruct Ht as (_ & _ & _ & Hlast). apply Hlast in Hi. lia. }
  assert (forall i, i ∈ dirty -> (i < length vv)%nat) as Hlt.
  { intros i [Hi|Hi%elem_of_seq]%elem_of_app; [|unfold common in *; lia].
    rewrite Forall_forall in Hbelow. apply Hbelow in Hi. unfold common in *. lia. }
  rewrite (set_leaves_written (item_root tree_hash_root vv) w validators _ []).
  2:{ intros i Hi%Hlt. destruct (lookup_lt_is_Some_2 vv i Hi) as [x Hx].
      exists x. split; [by eapply cl_index_spec|]. unfold item_root. by rewrite Hx. }
  destruct (update_ref _ (length vv) old' ls last (item_root tree_hash_root vv) dirty [] dirty Ht) as [Hw Hre].
  - by apply sorted_then_seq; [apply sort_dedup_sorted|].
  - done.
  - intros i Hi Hn. assert (i < common)%nat as Hic.
    { destruct (decide (i < common)%nat); [done|]. exfalso. apply Hn, elem_of_app. right. apply elem_of_seq. lia. }
    assert (hv !! i = vv !! i) as He.
    { destruct (decide (hv !! i = vv !! i)); [done|]. exfalso. apply Hn, elem_of_app. left. apply Hmem. left.
      apply list_elem_of_filter. split; [done|]. apply elem_of_seq. lia. }
    destruct Ht as (-> & _). rewrite lookup_take_lt, list_lookup_fmap, He by done. unfold item_root.
    by apply lookup_lt_is_Some_2 in Hi as [x ->].
  - intros i. split; [tauto|]. intros [Hi|Hi]; [done|]. apply elem_of_app. left. apply Hmem. auto.
  - rewrite Hw. cbn [mbind res_bind fst]. rewrite Hre. unfold item_root. by rewrite fmap_lookup_seq.
Qed.

Lemma fmap_concat {B C} (g : B -> C) (ls : list (list B)) : concat ((fun b : list B => g <$> b) <$> ls) = g <$> concat ls.
Proof. induction ls as [|b ls IH]; [done|]. cbn [fmap list_fmap concat]. by rewrite fmap_app, <-IH. Qed.

Lemma validators_tree_build_ref w m n vv validators :
  represents limit w m -> m !! inl n = Some vv -> held w !! inl n = Some validators ->
  validators_tree_build w validators = Ok (mkMerkleTree (levels_ref (tree_hash_root <$> vv))).
Proof using ZL LL.
  intros Hr Hmv Hlv. destruct (represents_held _ _ _ _ _ Hr Hmv) as (l2 & E2 & Hcv & _).
  rewrite Hlv in E2. injection E2 as <-.
  unfold validators_tree_build. rewrite parallel_map_mapR by lia.
  rewrite (mapR_fmap _ (fun a => tree_hash_root <$> deref w a)) by done. cbn [mbind res_bind].
  rewrite tree_of_leaves_ref. do 3 f_equal. rewrite <-(concat_chunks CHUNK_SIZE vv), <-fmap_concat, <-Hcv by apply chunk_size_pos.
  unfold contents. by rewrite <-list_fmap_compose.
Qed.

(** ** The contract *)

(** Registries by the state that holds them, and the caches' trees in order. *)
Definition good w (s : gmap nat (list A)) : Prop :=
  exists m, represents limit w m /\ (forall n, m !! inl n = s !! n) /\
    forall c tree, lock (default (mkMutex None false) (caches w !! c)) = Some tree ->
      exists hv, m !! inr c = Some hv /\ tree = mkMerkleTree (levels_ref (tree_hash_root <$> hv)).

Lemma cached_validators_root_ref w s c n vv limit_depth :
  good w s -> s !! n = Some vv -> (limit <= 2 ^ limit_depth)%nat ->
  exists w', cached_validators_root w c n limit_depth = Ok (w', ssz_list tree_hash_root vv limit_depth) /\ good w' s.
Proof using ZL LL.
  intros (m & Hr & Hs & Hc) Hv Hl. pose proof (Hs n) as Hm. rewrite Hv in Hm.
  destruct (represents_held _ _ _ _ _ Hr Hm) as (validators & Hlv & Hcv & Hnv).
  unfold cached_validators_root, handle. rewrite Hlv. cbn [mbind res_bind].
  match goal with |- context [(match lock ?ca with Some _ => _ | None => _ end) ≫= _] =>
    assert (match lock ca with
            | Some tree => hashed ← handle w (inr c); validators_tree_update w tree hashed validators
            | None => validators_tree_build w validators
            end = Ok (mkMerkleTree (levels_ref (tree_hash_root <$> vv)))) as Et end.
  { destruct (lock _) as [tree|] eqn:El; [|by eapply validators_tree_build_ref].
    destruct (Hc c tree El) as (hv & Hmh & ->). destruct (represents_held _ _ _ _ _ Hr Hmh) as (hashed & Hlh & _).
    unfold handle. rewrite Hlh. cbn [mbind res_bind]. by eapply validators_tree_update_ref. }
  unfold handle in Et. rewrite Et. cbn [mbind res_bind]. assert (length vv <= limit)%nat as Hb.
  { destruct Hr as [_ Hb]. by apply (Hb (inl n)). }
  rewrite tree_root_ref by (rewrite length_fmap; lia). cbn [mbind res_bind]. rewrite Hnv.
  eexists. split; [done|]. exists (<[inr c := vv]> m). split_and!.
  - eapply represents_insert; [done|done|]. intros o'.
    pose proof (contents_of_hold w (inr c) validators o') as Hch. rewrite Hcv, Hnv in Hch. exact Hch.
  - intros n'. rewrite lookup_insert_ne by done. apply Hs.
  - intros c' tree. cbn [caches]. destruct (decide (c' = c)) as [->|Hne].
    + rewrite !lookup_insert_eq. intros [= <-]. eauto.
    + rewrite !lookup_insert_ne by congruence. apply Hc.
Qed.

(** What is done to the registries of the states and to the caches, in any order. *)
Inductive RegistryOp :=
  | OpNew (n : nat) (elements : list A)
  | OpClone (n n' : nat)
  | OpUpdate (n i : nat) (f : A -> A)
  | OpMap (n : nat) (f : A -> A)
  | OpPush (n : nat) (element : A)
  | OpDrop (n : nat)
  | OpRoot (c n : nat)
  | OpPanic (c : nat) (left_behind : option MerkleTree).

Definition lift_run {E B} (x : run B) : res E B :=
  match x with Ok b => Ok b | Err e => match e with end | Panic => Panic | NoFuel => NoFuel end.

Definition poison w (c : nat) (left_behind : option MerkleTree) : World A :=
  mkWorld (memory w) (held w) (<[c := mkMutex left_behind true]> (caches w)).

Context (limit_depth : nat).

Definition registry_op (st : World A * list B256) (op : RegistryOp) : res ssz_error (World A * list B256) :=
  let '(w, roots) := st in
  match op with
  | OpNew n elements => w ← cl_new limit w (inl n) elements; Ok (w, roots)
  | OpClone n n' => w ← cl_clone w (inl n) (inl n'); Ok (w, roots)
  | OpUpdate n i f => '(w, _) ← cl_update w (inl n) i f; Ok (w, roots)
  | OpMap n f => w ← cl_map w (inl n) f; Ok (w, roots)
  | OpPush n element => w ← cl_push_shared limit w (inl n) element; Ok (w, roots)
  | OpDrop n => Ok (release w (inl n), roots)
  | OpRoot c n => '(w, r) ← lift_run (cached_validators_root w c n limit_depth); Ok (w, roots ++ [r])
  | OpPanic c left_behind => Ok (poison w c left_behind, roots)
  end.

(** The same on lists that share nothing and caches that keep nothing. *)
Definition registry_spec (st : gmap nat (list A) * list B256) (op : RegistryOp) :
    res ssz_error (gmap nat (list A) * list B256) :=
  let '(s, roots) := st in
  let with_list n (k : list A -> res ssz_error (gmap nat (list A) * list B256)) :=
    match s !! n with Some v => k v | None => Panic end in
  match op with
  | OpNew n elements =>
      if (limit <? length elements)%nat then Err (OutOfBounds (length elements) limit)
      else Ok (<[n := elements]> s, roots)
  | OpClone n n' => with_list n (fun v => Ok (<[n' := v]> s, roots))
  | OpUpdate n i f => with_list n (fun v => Ok (<[n := alter f i v]> s, roots))
  | OpMap n f => with_list n (fun v => Ok (<[n := f <$> v]> s, roots))
  | OpPush n element => with_list n (fun v =>
      if (limit <=? length v)%nat then Err (OutOfBounds (length v) limit)
      else Ok (<[n := v ++ [element]]> s, roots))
  | OpDrop n => Ok (delete n s, roots)
  | OpRoot c n => with_list n (fun v => Ok (s, roots ++ [ssz_list tree_hash_root v limit_depth]))
  | OpPanic c left_behind => Ok (s, roots)
  end.

(** The two runs end alike: with the same lists and roots, the same error, or the same panic. *)
Definition alike (x : res ssz_error (World A * list B256)) (y : res ssz_error (gmap nat (list A) * list B256)) : Prop :=
  match x, y with
  | Ok (w, roots), Ok (s, roots') => good w s /\ roots = roots'
  | Err e, Err e' => e = e'
  | Panic, Panic => True
  | _, _ => False
  end.

Lemma good_insert w w' s m n v :
  (forall n, m !! inl n = s !! n) ->
  (forall c tree, lock (default (mkMutex None false) (caches w !! c)) = Some tree ->
     exists hv, m !! inr c = Some hv /\ tree = mkMerkleTree (levels_ref (tree_hash_root <$> hv))) ->
  represents limit w' (<[inl n := v]> m) /\ caches w' = caches w ->
  good w' (<[n := v]> s).
Proof.
  intros Hs Hc [Hw Hca]. exists (<[inl n := v]> m). split; [done|]. split.
  - intros n'. destruct (decide (n' = n)) as [->|Hne]; [by rewrite !lookup_insert_eq|].
    rewrite !lookup_insert_ne by congruence. apply Hs.
  - rewrite Hca. intros c tree Hl. rewrite lookup_insert_ne by done. by apply Hc.
Qed.

Lemma good_none {E} w s n : good w s -> s !! n = None -> handle (E := E) w (inl n) = Panic.
Proof.
  intros (m & Hr & Hs & _) Hn. unfold handle. by rewrite (represents_none _ _ _ _ Hr (eq_trans (Hs n) Hn)).
Qed.

Lemma good_poison w s c left_behind : good w s -> good (poison w c left_behind) s.
Proof.
  intros (m & Hr & Hs & Hc). exists m. split; [exact Hr|]. split; [done|]. intros c' tree. cbn [caches poison].
  destruct (decide (c' = c)) as [->|Hne]; [by rewrite lookup_insert_eq|]. rewrite lookup_insert_ne by congruence. apply Hc.
Qed.

Lemma good_drop w s n : good w s -> good (release w (inl n)) (delete n s).
Proof.
  intros (m & Hr & Hs & Hc). exists (delete (inl n) m). split; [by apply release_spec|]. split.
  - intros n'. destruct (decide (n' = n)) as [->|Hne]; [by rewrite !lookup_delete_eq|].
    rewrite !lookup_delete_ne by congruence. apply Hs.
  - intros c tree Hl. rewrite lookup_delete_ne by done. by apply Hc.
Qed.

Lemma registry_op_spec w s roots op :
  (limit <= 2 ^ limit_depth)%nat -> good w s -> alike (registry_op (w, roots) op) (registry_spec (s, roots) op).
Proof using ZL LL.
  intros Hd Hg. pose proof Hg as (m & Hr & Hs & Hc).
  assert (forall n v, s !! n = Some v -> m !! inl n = Some v) as Hm by (intros n v <-; apply Hs).
  destruct op as [n els|n n'|n i f|n f|n x|n|c n|c junk]; cbn [registry_op registry_spec].
  - destruct (limit <? length els)%nat eqn:El; [unfold cl_new; by rewrite El|]. apply Nat.ltb_ge in El.
    destruct (cl_new_spec limit w m (inl n) els Hr El) as (w' & -> & Hw). split; [|done]. by eapply good_insert.
  - destruct (s !! n) as [v|] eqn:Ev; [|unfold cl_clone; by rewrite (good_none w s n Hg Ev)].
    destruct (cl_clone_spec (E := ssz_error) limit w m (inl n) (inl n') v Hr (Hm n v Ev)) as (w' & -> & Hw).
    split; [|done]. by eapply good_insert.
  - destruct (s !! n) as [v|] eqn:Ev; [|unfold cl_update; by rewrite (good_none w s n Hg Ev)].
    destruct (cl_update_spec (E := ssz_error) limit w m (inl n) v i f Hr (Hm n v Ev)) as (w' & -> & Hw).
    split; [|done]. by eapply good_insert.
  - destruct (s !! n) as [v|] eqn:Ev; [|unfold cl_map; by rewrite (good_none w s n Hg Ev)].
    destruct (cl_map_spec (E := ssz_error) limit w m (inl n) v f Hr (Hm n v Ev)) as (w' & -> & Hw).
    split; [|done]. by eapply good_insert.
  - destruct (s !! n) as [v|] eqn:Ev; [|unfold cl_push_shared; by rewrite (good_none w s n Hg Ev)].
    destruct (limit <=? length v)%nat eqn:El.
    + destruct (represents_held limit w m (inl n) v Hr (Hm n v Ev)) as (l & Hl & _ & Hn).
      unfold cl_push_shared, handle. rewrite Hl. cbn [mbind res_bind]. by rewrite Hn, El.
    + apply Nat.leb_gt in El.
      destruct (cl_push_spec limit w m (inl n) v x Hr (Hm n v Ev) El) as (w' & -> & Hw).
      split; [|done]. by eapply good_insert.
  - split; [|done]. by apply good_drop.
  - destruct (s !! n) as [v|] eqn:Ev; [|unfold cached_validators_root; by rewrite (good_none w s n Hg Ev)].
    destruct (cached_validators_root_ref w s c n v limit_depth Hg Ev Hd) as (w' & -> & Hw). by split.
  - split; [|done]. by apply good_poison.
Qed.

Lemma registry_ops_spec ops w s roots :
  (limit <= 2 ^ limit_depth)%nat -> good w s ->
  alike (foldM registry_op (w, roots) ops) (foldM registry_spec (s, roots) ops).
Proof using ZL LL.
  intros Hd. revert w s roots. induction ops as [|op ops IH]; intros w s roots Hg; cbn [foldM]; [done|].
  pose proof (registry_op_spec w s roots op Hd Hg) as Ho.
  destruct (registry_op (w, roots) op) as [[w' roots']| | |], (registry_spec (s, roots) op) as [[s' roots'']| | |];
    cbn [alike mbind res_bind] in *; try done.
  destruct Ho as [Hg' <-]. by apply IH.
Qed.

Definition empty_world : World A := mkWorld ∅ ∅ ∅.

Lemma good_empty : good empty_world ∅.
Proof.
  exists ∅. split; [split; [done|apply map_Forall_empty]|]. split; [done|]. intros c tree. cbn. by rewrite lookup_empty.
Qed.
End registry.
