(* ===== verification/StateRoots.v ===== *)
(** * The state root from the caches

    [BeaconState::field_roots] and [state_root] of
    [crates/common/consensus/beacon/src/electra/beacon_state.rs] with the caches a state
    shares with its clones: the trees of its large lists ([MerkleCache]), the registry's
    tree ([ChunkedList]) and the roots of its sync committees by allocation.  The
    reference is [field_roots] of [BeaconTransition], which hashes every field anew. *)

From stdpp Require Import strings.
From S2P Require Import Prelude StateMonad Bytes Shuffling Merkle BeaconTypes BeaconAccess BeaconMutate BeaconEpoch BeaconBlockOps BeaconTransition BeaconRegistry BeaconProofs BeaconConcrete MerkleCache ChunkedList.

#[local] Instance Validator_eq_dec : EqDecision Validator.
Proof. solve_decision. Defined.
#[local] Instance HistoricalSummary_eq_dec : EqDecision HistoricalSummary.
Proof. solve_decision. Defined.
#[local] Instance PendingDeposit_eq_dec : EqDecision PendingDeposit.
Proof. solve_decision. Defined.
#[local] Instance PendingPartialWithdrawal_eq_dec : EqDecision PendingPartialWithdrawal.
Proof. solve_decision. Defined.
#[local] Instance PendingConsolidation_eq_dec : EqDecision PendingConsolidation.
Proof. solve_decision. Defined.

(** [N::to_u64().trailing_zeros()] for a limit that is a power of two. *)
Definition depth (N : positive) : nat := pos_trailing_zeros N.

(** The roots of the elements of the state's lists, from their derived [TreeHash]. *)
Class ElementRoots : Type := {
  validator_root : Validator -> B256;
  historical_summary_root : HistoricalSummary -> B256;
  pending_deposit_root : PendingDeposit -> B256;
  pending_partial_withdrawal_root : PendingPartialWithdrawal -> B256;
  pending_consolidation_root : PendingConsolidation -> B256;
}.

(** An [Arc] to a sync committee, which a state replaces and never edits. *)
Record SharedCommittee := mkSharedCommittee { sc_addr : nat; sc_value : SyncCommittee }.
Definition CommitteeRoot : Type := SharedCommittee * B256.
Definition MAX_CACHED_SYNC_COMMITTEES : nat := 4.

Abbreviation Packed := (Mutex (option MerkleTree)).
Abbreviation Containers A := (Mutex (option (list A * MerkleTree))).

Record StateFieldRootCaches := mkStateFieldRootCaches {
  c_block_roots : Packed;
  c_state_roots : Packed;
  c_historical_roots : Containers B256;
  c_balances : Packed;
  c_randao_mixes : Packed;
  c_slashings : Packed;
  c_previous_epoch_participation : Packed;
  c_current_epoch_participation : Packed;
  c_inactivity_scores : Packed;
  c_sync_committees : Mutex (list CommitteeRoot);
  c_historical_summaries : Containers HistoricalSummary;
  c_pending_deposits : Containers PendingDeposit;
  c_pending_partial_withdrawals : Containers PendingPartialWithdrawal;
  c_pending_consolidations : Containers PendingConsolidation;
}.

Section state_roots.
Context {H : Sha256} {ZH : ZeroHashes} {T : Threads} {Mix : MixInLength} {L : Allocator}.
Context {R : Roots} {ER : ElementRoots}.

(** [SyncCommitteeRootCache::root]: the oldest entry makes room for a new one. *)
Definition sync_committee_cached_root (cache : Mutex (list CommitteeRoot)) (committee : SharedCommittee) :
    Mutex (list CommitteeRoot) * B256 :=
  let committees := if poisoned cache then [] else guarded cache in
  match list_find (fun p : CommitteeRoot => sc_addr p.1 = sc_addr committee) committees with
  | Some (_, (_, root)) => (mkMutex committees false, root)
  | None =>
      let root := tree_hash_root (sc_value committee) in
      let committees := if (MAX_CACHED_SYNC_COMMITTEES <=? length committees)%nat then drop 1 committees else committees in
      (mkMutex (committees ++ [(committee, root)]) false, root)
  end.

(** The fields of [self] in order; cache [c] holds the registry's tree, state [n] its registry, and
    [current] and [next] point to its committees. *)
Definition cached_field_roots (w : World Validator) (caches : StateFieldRootCaches) (c n : nat)
    (self : BeaconState) (current next : SharedCommittee) : run (World Validator * StateFieldRootCaches * list B256) :=
  let limit_depth := depth 1099511627776 in
  let u64_list_depth := (limit_depth - 2)%nat in
  let u8_list_depth := (limit_depth - 5)%nat in
  '(k5, r5) ← cached_b256_vector_root (c_block_roots caches) (block_roots self);
  '(k6, r6) ← cached_b256_vector_root (c_state_roots caches) (state_roots self);
  '(k7, r7) ← container_list_root id (c_historical_roots caches) (historical_roots self) (depth 16777216);
  '(w, r11) ← cached_validators_root validator_root w c n limit_depth;
  '(k12, r12) ← cached_u64_list_root (c_balances caches) (balances self) u64_list_depth;
  '(k13, r13) ← cached_b256_vector_root (c_randao_mixes caches) (randao_mixes self);
  '(k14, r14) ← cached_u64_vector_root (c_slashings caches) (slashings self);
  '(k15, r15) ← cached_u8_list_root (c_previous_epoch_participation caches) (previous_epoch_participation self) u8_list_depth;
  '(k16, r16) ← cached_u8_list_root (c_current_epoch_participation caches) (current_epoch_participation self) u8_list_depth;
  '(k21, r21) ← cached_u64_list_root (c_inactivity_scores caches) (inactivity_scores self) u64_list_depth;
  let '(k22, r22) := sync_committee_cached_root (c_sync_committees caches) current in
  let '(k23, r23) := sync_committee_cached_root k22 next in
  '(k27, r27) ← container_list_root historical_summary_root (c_historical_summaries caches) (historical_summaries self) (depth 16777216);
  '(k34, r34) ← container_list_root pending_deposit_root (c_pending_deposits caches) (pending_deposits self) (depth 134217728);
  '(k35, r35) ← container_list_root pending_partial_withdrawal_root (c_pending_partial_withdrawals caches)
                  (pending_partial_withdrawals self) (depth 134217728);
  '(k36, r36) ← container_list_root pending_consolidation_root (c_pending_consolidations caches)
                  (pending_consolidations self) (depth 262144);
  Ok (w, mkStateFieldRootCaches k5 k6 k7 k12 k13 k14 k15 k16 k21 k23 k27 k34 k35 k36,
    [ tree_hash_root (genesis_time self); genesis_validators_root self; tree_hash_root (slot self);
      tree_hash_root (fork self); tree_hash_root (latest_block_header self);
      r5; r6; r7; tree_hash_root (eth1_data self);
      tree_hash_root (eth1_data_votes self); tree_hash_root (eth1_deposit_index self);
      r11; r12; r13; r14; r15; r16;
      tree_hash_root (justification_bits self); tree_hash_root (previous_justified_checkpoint self);
      tree_hash_root (current_justified_checkpoint self); tree_hash_root (finalized_checkpoint self);
      r21; r22; r23; tree_hash_root (latest_execution_payload_header self);
      tree_hash_root (next_withdrawal_index self); tree_hash_root (next_withdrawal_validator_index self);
      r27; tree_hash_root (deposit_requests_start_index self);
      tree_hash_root (deposit_balance_to_consume self); tree_hash_root (exit_balance_to_consume self);
      tree_hash_root (earliest_exit_epoch self); tree_hash_root (consolidation_balance_to_consume self);
      tree_hash_root (earliest_consolidation_epoch self); r34; r35; r36;
      BeaconTypes.u64_vector_root (proposer_lookahead self) ]).

Definition cached_state_root (w : World Validator) (caches : StateFieldRootCaches) (c n : nat)
    (self : BeaconState) (current next : SharedCommittee) : run (World Validator * StateFieldRootCaches * B256) :=
  '(w, caches, roots) ← cached_field_roots w caches c n self current next;
  Ok (w, caches, merkle_root (concat roots) (length roots)).

(** [tree_hash]'s roots of the state's fields: SSZ's Merkle roots, with the limits of the types. *)
Class SszRootsLaws : Prop := {
  ssz_b256_vector_law : forall l, BeaconTypes.b256_vector_root l = ssz_b256_vector l;
  ssz_b256_list_law : forall l, BeaconTypes.b256_list_root l = ssz_list id l 24;
  ssz_u64_vector_law : forall l, BeaconTypes.u64_vector_root l = ssz_u64_vector l;
  ssz_u64_list_law : forall l, BeaconTypes.u64_list_root l = ssz_u64_list l 38;
  ssz_u8_list_law : forall l, BeaconTypes.u8_list_root l = ssz_u8_list l 35;
  ssz_validators_law : forall l : list Validator, tree_hash_root l = ssz_list validator_root l 40;
  ssz_summaries_law : forall l : list HistoricalSummary, tree_hash_root l = ssz_list historical_summary_root l 24;
  ssz_deposits_law : forall l : list PendingDeposit, tree_hash_root l = ssz_list pending_deposit_root l 27;
  ssz_partial_law : forall l : list PendingPartialWithdrawal,
    tree_hash_root l = ssz_list pending_partial_withdrawal_root l 27;
  ssz_consolidations_law : forall l : list PendingConsolidation,
    tree_hash_root l = ssz_list pending_consolidation_root l 18;
}.

(** ** What the caches hold *)

Definition committees_in_order (cache : Mutex (list CommitteeRoot)) : Prop :=
  poisoned cache = false -> Forall (fun p : CommitteeRoot => p.2 = tree_hash_root (sc_value p.1)) (guarded cache).

(** Two live pointers with one address point to one committee. *)
Definition no_alias (cache : Mutex (list CommitteeRoot)) (committee : SharedCommittee) : Prop :=
  poisoned cache = false ->
  Forall (fun p : CommitteeRoot => sc_addr p.1 = sc_addr committee -> sc_value p.1 = sc_value committee) (guarded cache).

Record caches_in_order (caches : StateFieldRootCaches) : Prop := mkCachesInOrder {
  o_block_roots : in_order (c_block_roots caches);
  o_state_roots : in_order (c_state_roots caches);
  o_historical_roots : container_in_order id (c_historical_roots caches);
  o_balances : in_order (c_balances caches);
  o_randao_mixes : in_order (c_randao_mixes caches);
  o_slashings : in_order (c_slashings caches);
  o_previous : in_order (c_previous_epoch_participation caches);
  o_current : in_order (c_current_epoch_participation caches);
  o_scores : in_order (c_inactivity_scores caches);
  o_committees : committees_in_order (c_sync_committees caches);
  o_summaries : container_in_order historical_summary_root (c_historical_summaries caches);
  o_deposits : container_in_order pending_deposit_root (c_pending_deposits caches);
  o_partial : container_in_order pending_partial_withdrawal_root (c_pending_partial_withdrawals caches);
  o_consolidations : container_in_order pending_consolidation_root (c_pending_consolidations caches);
}.

(** The lists are within the limits of their types. *)
Definition below {A} (l : list A) (bits : Z) : bool := Z.of_nat (length l) <=? 2 ^ bits.
Definition within_limits (self : BeaconState) : bool :=
  below (historical_roots self) 24 && below (balances self) 40 &&
  below (previous_epoch_participation self) 40 && below (current_epoch_participation self) 40 &&
  below (inactivity_scores self) 40 && below (historical_summaries self) 24 && below (pending_deposits self) 27 &&
  below (pending_partial_withdrawals self) 27 && below (pending_consolidations self) 18.

Lemma fits_pow n d : Z.of_nat n <= 2 ^ Z.of_nat d -> (n <= 2 ^ d)%nat.
Proof. intros Hn. apply Nat2Z.inj_le. by rewrite Nat2Z.inj_pow. Qed.

Lemma below_fits {A} (l : list A) d : below l (Z.of_nat d) = true -> (length l <= 2 ^ d)%nat.
Proof. intros Hl%Z.leb_le. by apply fits_pow. Qed.

Lemma below_packed {A} (l : list A) d k :
  below l (Z.of_nat (d + k)) = true -> (div_ceil (length l) (2 ^ k) <= 2 ^ d)%nat.
Proof.
  intros Hl%below_fits. rewrite Nat.pow_add_r in Hl. assert (2 ^ k <> 0)%nat by (apply Nat.pow_nonzero; lia).
  apply Nat.nlt_ge. intros Hlt. apply (div_ceil_lt (2 ^ d) (length l) (2 ^ k)) in Hlt; lia.
Qed.

Lemma sync_committee_cached_root_ref cache committee :
  committees_in_order cache -> no_alias cache committee ->
  exists cache', sync_committee_cached_root cache committee = (cache', tree_hash_root (sc_value committee)) /\
    committees_in_order cache' /\ poisoned cache' = false /\
    forall p, p ∈ guarded cache' -> (poisoned cache = false /\ p ∈ guarded cache) \/ p.1 = committee.
Proof.
  unfold committees_in_order, no_alias, sync_committee_cached_root. intros Ho Ha.
  set (cs := if poisoned cache then [] else guarded cache).
  assert (Forall (fun p : CommitteeRoot => p.2 = tree_hash_root (sc_value p.1)) cs) as Hcs
    by (unfold cs; destruct (poisoned cache); auto).
  assert (Forall (fun p : CommitteeRoot => sc_addr p.1 = sc_addr committee -> sc_value p.1 = sc_value committee) cs) as Hal
    by (unfold cs; destruct (poisoned cache); auto).
  assert (forall p, p ∈ cs -> poisoned cache = false /\ p ∈ guarded cache) as Hfrom
    by (unfold cs; destruct (poisoned cache); [set_solver|done]).
  destruct (list_find _ cs) as [[i [arc root]]|] eqn:Ef.
  - apply list_find_Some in Ef as (Hi & Haddr & _). apply list_elem_of_lookup_2 in Hi.
    rewrite Forall_forall in Hcs, Hal. pose proof (Hcs _ Hi) as Hr. pose proof (Hal _ Hi Haddr) as Hv. cbn in Hr, Hv.
    exists (mkMutex cs false). rewrite Hr, Hv. split; [done|]. cbn. split; [by rewrite Forall_forall|].
    split; [done|]. intros p Hp. auto.
  - eexists. split; [done|]. cbn. split_and!; [|done|].
    + intros _. apply Forall_app. split; [|by repeat constructor]. case_match; [by apply Forall_drop|done].
    + intros p [Hp|Hp%list_elem_of_singleton]%elem_of_app; [left|right; by subst].
      apply Hfrom. case_match; [|done]. rewrite <-(take_drop 1 cs). apply elem_of_app. by right.
Qed.

Context {ZL : ZeroHashesLaws H ZH} {LL : AllocatorLaws L} {SL : SszRootsLaws}.
Context (limit : nat).

(** The cached roots are the roots of the fields, and the caches can be trusted again. *)
Lemma cached_field_roots_ref w s caches c n self current next :
  Z.of_nat limit <= 2 ^ 40 -> good validator_root limit w s -> caches_in_order caches ->
  s !! n = Some (validators self) -> within_limits self = true ->
  sc_value current = current_sync_committee self -> sc_value next = next_sync_committee self ->
  no_alias (c_sync_committees caches) current -> no_alias (c_sync_committees caches) next ->
  (sc_addr current = sc_addr next -> sc_value current = sc_value next) ->
  exists w' caches', cached_field_roots w caches c n self current next = Ok (w', caches', field_roots self) /\
    good validator_root limit w' s /\ caches_in_order caches' /\ poisoned (c_sync_committees caches') = false /\
    forall p, p ∈ guarded (c_sync_committees caches') ->
      (poisoned (c_sync_committees caches) = false /\ p ∈ guarded (c_sync_committees caches)) \/ p.1 = current \/ p.1 = next.
Proof using ZL LL SL.
  intros Hl Hg Hc Hv Hw Hcur Hnext Ha Hb Hab. unfold within_limits in Hw.
  apply andb_true_iff in Hw as [[[[[[[[W7 W12]%andb_true_iff W15]%andb_true_iff W16]%andb_true_iff W21]%andb_true_iff
    W27]%andb_true_iff W34]%andb_true_iff W35]%andb_true_iff W36].
  unfold cached_field_roots.
  change (depth 1099511627776) with 40%nat. change (depth 16777216) with 24%nat.
  change (depth 134217728) with 27%nat. change (depth 262144) with 18%nat.
  change (40 - 2)%nat with 38%nat. change (40 - 5)%nat with 35%nat.
  destruct (cached_b256_vector_root_ref _ (block_roots self) (o_block_roots _ Hc)) as (k5 & -> & H5). cbn [mbind res_bind].
  destruct (cached_b256_vector_root_ref _ (state_roots self) (o_state_roots _ Hc)) as (k6 & -> & H6). cbn [mbind res_bind].
  destruct (container_list_root_ref id _ (historical_roots self) 24 (o_historical_roots _ Hc) (below_fits _ 24 W7))
    as (k7 & -> & H7). cbn [mbind res_bind].
  destruct (cached_validators_root_ref validator_root limit w s c n _ 40 Hg Hv (fits_pow limit 40 Hl)) as (w' & -> & Hg').
  cbn [mbind res_bind].
  destruct (cached_u64_list_root_ref _ (balances self) 38 (o_balances _ Hc) (below_packed _ 38 2 W12)) as (k12 & -> & H12).
  cbn [mbind res_bind].
  destruct (cached_b256_vector_root_ref _ (randao_mixes self) (o_randao_mixes _ Hc)) as (k13 & -> & H13). cbn [mbind res_bind].
  destruct (cached_u64_vector_root_ref _ (slashings self) (o_slashings _ Hc)) as (k14 & -> & H14). cbn [mbind res_bind].
  destruct (cached_u8_list_root_ref _ (previous_epoch_participation self) 35 (o_previous _ Hc) (below_packed _ 35 5 W15))
    as (k15 & -> & H15). cbn [mbind res_bind].
  destruct (cached_u8_list_root_ref _ (current_epoch_participation self) 35 (o_current _ Hc) (below_packed _ 35 5 W16))
    as (k16 & -> & H16). cbn [mbind res_bind].
  destruct (cached_u64_list_root_ref _ (inactivity_scores self) 38 (o_scores _ Hc) (below_packed _ 38 2 W21)) as (k21 & -> & H21).
  cbn [mbind res_bind].
  destruct (sync_committee_cached_root_ref _ current (o_committees _ Hc) Ha) as (k22 & -> & H22 & Hp22 & Hf22).
  destruct (sync_committee_cached_root_ref k22 next H22) as (k23 & -> & H23 & Hp23 & Hf23).
  { intros _. apply Forall_forall. intros p [[Hp Hin]|Hp]%Hf22.
    - specialize (Hb Hp). rewrite Forall_forall in Hb. by apply Hb.
    - rewrite Hp. done. }
  destruct (container_list_root_ref historical_summary_root _ (historical_summaries self) 24 (o_summaries _ Hc)
    (below_fits _ 24 W27)) as (k27 & -> & H27). cbn [mbind res_bind].
  destruct (container_list_root_ref pending_deposit_root _ (pending_deposits self) 27 (o_deposits _ Hc)
    (below_fits _ 27 W34)) as (k34 & -> & H34). cbn [mbind res_bind].
  destruct (container_list_root_ref pending_partial_withdrawal_root _ (pending_partial_withdrawals self) 27 (o_partial _ Hc)
    (below_fits _ 27 W35)) as (k35 & -> & H35). cbn [mbind res_bind].
  destruct (container_list_root_ref pending_consolidation_root _ (pending_consolidations self) 18 (o_consolidations _ Hc)
    (below_fits _ 18 W36)) as (k36 & -> & H36). cbn [mbind res_bind].
  eexists _, _. split.
  - unfold field_roots. rewrite !ssz_b256_vector_law, ssz_b256_list_law, !ssz_u64_vector_law, !ssz_u64_list_law,
      !ssz_u8_list_law, ssz_validators_law, ssz_summaries_law, ssz_deposits_law, ssz_partial_law, ssz_consolidations_law.
    rewrite Hcur, Hnext. reflexivity.
  - split; [done|]. split; [by constructor|]. split; [done|]. cbn [c_sync_committees]. intros p [[_ Hp]|Hp]%Hf23; [|auto].
    apply Hf22 in Hp as [?|?]; auto.
Qed.

(** ** Any number of states, hashed in any order *)

(** The states and their clones share the caches of [caches] and the registry's cache [0]. *)
Inductive StateEvent :=
  | EvRegistry (op : RegistryOp (A := Validator))
  | EvHash (n : nat) (self : BeaconState) (current next : SharedCommittee)
  | EvPanic (left_behind : StateFieldRootCaches).

Definition poison_mutex {A} (m : Mutex A) : Mutex A := mkMutex (guarded m) true.
Definition poison_all (k : StateFieldRootCaches) : StateFieldRootCaches :=
  mkStateFieldRootCaches (poison_mutex (c_block_roots k)) (poison_mutex (c_state_roots k))
    (poison_mutex (c_historical_roots k)) (poison_mutex (c_balances k)) (poison_mutex (c_randao_mixes k))
    (poison_mutex (c_slashings k)) (poison_mutex (c_previous_epoch_participation k))
    (poison_mutex (c_current_epoch_participation k)) (poison_mutex (c_inactivity_scores k))
    (poison_mutex (c_sync_committees k)) (poison_mutex (c_historical_summaries k)) (poison_mutex (c_pending_deposits k))
    (poison_mutex (c_pending_partial_withdrawals k)) (poison_mutex (c_pending_consolidations k)).

Definition default_caches : StateFieldRootCaches :=
  let none {A} : Mutex (option A) := mkMutex None false in
  mkStateFieldRootCaches none none none none none none none none none (mkMutex [] false) none none none none.

Definition state_event (st : World Validator * StateFieldRootCaches * list B256) (ev : StateEvent) :
    res ssz_error (World Validator * StateFieldRootCaches * list B256) :=
  let '(w, caches, roots) := st in
  match ev with
  | EvRegistry op => '(w, roots) ← registry_op validator_root limit 40 (w, roots) op; Ok (w, caches, roots)
  | EvHash n self current next =>
      '(w, caches, r) ← lift_run (cached_state_root w caches 0 n self current next); Ok (w, caches, roots ++ [r])
  | EvPanic left_behind => Ok (w, poison_all left_behind, roots)
  end.

(** Every state hashed anew. *)
Definition state_spec (st : gmap nat (list Validator) * list B256) (ev : StateEvent) :
    res ssz_error (gmap nat (list Validator) * list B256) :=
  match ev with
  | EvRegistry op => registry_spec validator_root limit 40 st op
  | EvHash n self current next => Ok (st.1, st.2 ++ [state_root self])
  | EvPanic left_behind => Ok st
  end.

(** A state that is hashed owns the registry it is hashed with, its lists are within their limits,
    and its committees are those its pointers point to. *)
Fixpoint consistent (committee_at : nat -> SyncCommittee) (s : gmap nat (list Validator)) (evs : list StateEvent) : Prop :=
  match evs with
  | [] => True
  | EvRegistry op :: evs' =>
      match registry_spec validator_root limit 40 (s, []) op with
      | Ok (s', _) => consistent committee_at s' evs'
      | _ => True
      end
  | EvHash n self current next :: evs' =>
      s !! n = Some (validators self) /\ within_limits self = true /\
      sc_value current = current_sync_committee self /\ sc_value next = next_sync_committee self /\
      committee_at (sc_addr current) = sc_value current /\ committee_at (sc_addr next) = sc_value next /\
      consistent committee_at s evs'
  | EvPanic _ :: evs' => consistent committee_at s evs'
  end.

Definition hashes_alike (x : res ssz_error (World Validator * StateFieldRootCaches * list B256))
    (y : res ssz_error (gmap nat (list Validator) * list B256)) : Prop :=
  match x, y with
  | Ok (w, _, roots), Ok (s, roots') => good validator_root limit w s /\ roots = roots'
  | Err e, Err e' => e = e'
  | Panic, Panic => True
  | _, _ => False
  end.

Definition points_to (committee_at : nat -> SyncCommittee) (caches : StateFieldRootCaches) : Prop :=
  poisoned (c_sync_committees caches) = false ->
  Forall (fun p : CommitteeRoot => committee_at (sc_addr p.1) = sc_value p.1) (guarded (c_sync_committees caches)).

Lemma points_no_alias committee_at caches committee :
  points_to committee_at caches -> committee_at (sc_addr committee) = sc_value committee ->
  no_alias (c_sync_committees caches) committee.
Proof.
  intros Hp Hc Hno. eapply Forall_impl; [by apply Hp|]. cbn. intros p Hv Ha. congruence.
Qed.

Lemma registry_spec_roots s roots op :
  registry_spec validator_root limit 40 (s, roots) op =
    match registry_spec validator_root limit 40 (s, []) op with
    | Ok (s', r) => Ok (s', roots ++ r)
    | Err e => Err e | Panic => Panic | NoFuel => NoFuel
    end.
Proof.
  destruct op; cbn; repeat case_match; simplify_eq; rewrite ?app_nil_r; done.
Qed.

Lemma poisoned_in_order caches : caches_in_order (poison_all caches).
Proof. split; first [exact I|by intros [=]]. Qed.

Lemma default_in_order : caches_in_order default_caches.
Proof. split; first [exact I|by constructor]. Qed.

Lemma state_events_ref committee_at evs w s caches roots :
  Z.of_nat limit <= 2 ^ 40 -> good validator_root limit w s -> caches_in_order caches -> points_to committee_at caches ->
  consistent committee_at s evs ->
  hashes_alike (foldM state_event (w, caches, roots) evs) (foldM state_spec (s, roots) evs).
Proof using ZL LL SL.
  intros Hl. revert w s caches roots. induction evs as [|ev evs IH]; intros w s caches roots Hg Hc Hp Hok; cbn [foldM]; [done|].
  destruct ev as [op|n self current next|junk]; cbn [consistent state_event state_spec] in *.
  - pose proof (registry_op_spec validator_root limit 40 w s roots op (fits_pow limit 40 Hl) Hg) as Ho.
    pose proof (registry_spec_roots s roots op) as Hr.
    destruct (registry_spec _ _ _ (s, []) op) as [[s' r]| | |]; rewrite Hr in *;
      destruct (registry_op _ _ _ _ op) as [[w' roots']| | |]; cbn [alike mbind res_bind] in *; try done.
    destruct Ho as [Hg' ->]. by apply IH.
  - destruct Hok as (Hv & Hw & Hcur & Hnext & Hac & Han & Hok).
    destruct (cached_field_roots_ref w s caches 0 n self current next) as (w' & caches' & E & Hg' & Hc' & Hpo & Hf);
      try done; [by eapply points_no_alias..|congruence|].
    unfold cached_state_root. rewrite E. cbn [mbind res_bind lift_run]. apply IH; try done.
    intros _. apply Forall_forall. intros p [[Hp0 Hin]|[->| ->]]%Hf; [|done..].
    specialize (Hp Hp0). rewrite Forall_forall in Hp. by apply Hp.
  - cbn [mbind res_bind]. apply IH; try done; apply poisoned_in_order.
Qed.
End state_roots.

(** ** Theorems *)

Section theorems.
Context {H : Sha256} {ZH : ZeroHashes} {T : Threads} {Mix : MixInLength} {L : Allocator}.
Context {ZL : ZeroHashesLaws H ZH}.

(** C35: whatever packed lists and vectors one cache was asked for before, in whatever order states
    and their clones ask, and whatever a panic left behind in it, every root it returns is SSZ's
    Merkle root of the list it is asked for; it never panics. *)
Theorem packed_roots_match (calls : list PackedCall) :
  forallb packed_fits calls = true ->
  exists cache, foldM packed_call (mkMutex None false, []) calls = Ok (cache, omap packed_ssz calls).
Proof using ZL.
  intros Hf. destruct (packed_calls_ref calls (mkMutex None false) [] I Hf) as (cache & E & _). by exists cache.
Qed.

Context {LL : AllocatorLaws L}.

(** C10: registries made, cloned, changed, grown, dropped and hashed in any order behave as lists
    that share nothing: a write to one changes no other, a list past its limit is refused with
    the same error, and the root a cache returns is the root of the list it is asked for, also
    after a panic that poisoned it. *)
Theorem registries_are_lists {A} `{!EqDecision A} (tree_hash_root : A -> B256) (limit limit_depth : nat)
    (ops : list RegistryOp) :
  (limit <= 2 ^ limit_depth)%nat ->
  alike tree_hash_root limit (foldM (registry_op tree_hash_root limit limit_depth) (empty_world, []) ops)
    (foldM (registry_spec tree_hash_root limit limit_depth) (∅, []) ops).
Proof using ZL LL. intros Hl. exact (registry_ops_spec tree_hash_root limit limit_depth ops empty_world ∅ [] Hl (good_empty _ _)). Qed.

Context {R : Roots} {ER : ElementRoots} {SL : SszRootsLaws}.

(** C8: along any run of changes to the registries of states that share their caches, of hashing
    these states in any order, and of panics that poison the caches, the state root computed from
    the caches is the root of the state hashed anew, and nothing else fails than without them. *)
Theorem state_root_from_caches (limit : nat) (committee_at : nat -> SyncCommittee) (evs : list StateEvent) :
  Z.of_nat limit <= 2 ^ 40 -> consistent limit committee_at ∅ evs ->
  hashes_alike limit (foldM (state_event limit) (empty_world, default_caches, []) evs)
    (foldM (state_spec limit) (∅, []) evs).
Proof using ZL LL SL.
  intros Hl Hc. apply (state_events_ref limit committee_at); [done|apply good_empty|apply default_in_order|by constructor|done].
Qed.
End theorems.

(** ** Instances *)

Module StateRootsEx.
Import BeaconEx.
#[local] Existing Instance sha.

Definition zeros : ZeroHashes := fun i => merkle_ref i [].
Lemma zeros_laws : ZeroHashesLaws sha zeros.
Proof. split; [done|]. intros i _. unfold ZERO_HASHES, zeros. cbn [merkle_ref]. by rewrite take_nil, drop_nil. Qed.

Definition threads : Threads := 3%positive.
Definition mix : MixInLength := fun r n => hash_concat r (word (Z.of_nat n)).
Definition first_free : Allocator := fresh.
Lemma first_free_laws : AllocatorLaws first_free.
Proof. intros X. apply is_fresh. Qed.

#[local] Existing Instances zeros threads mix first_free zeros_laws first_free_laws.

Definition elements : ElementRoots := {|
  validator_root := fun v => word (effective_balance v);
  historical_summary_root := fun _ => word 1;
  pending_deposit_root := fun _ => word 2;
  pending_partial_withdrawal_root := fun _ => word 3;
  pending_consolidation_root := fun _ => word 4;
|}.
#[local] Existing Instance elements.

Definition ssz_roots : Roots := {|
  header_root := header_root (Roots := roots); body_root := body_root (Roots := roots);
  deposit_data_root := deposit_data_root (Roots := roots);
  deposit_message_root := deposit_message_root (Roots := roots);
  attestation_data_root := attestation_data_root (Roots := roots);
  voluntary_exit_root := voluntary_exit_root (Roots := roots);
  bls_change_root := bls_change_root (Roots := roots);
  transactions_root := transactions_root (Roots := roots);
  withdrawals_root := withdrawals_root (Roots := roots);
  u64_root := word; fork_root := fork_root (Roots := roots);
  eth1_data_root := eth1_data_root (Roots := roots);
  eth1_data_votes_root := eth1_data_votes_root (Roots := roots);
  BeaconTypes.validators_root := fun l => ssz_list validator_root l 40;
  checkpoint_root := checkpoint_root (Roots := roots);
  justification_bits_root := justification_bits_root (Roots := roots);
  sync_committee_root := sync_committee_root (Roots := roots);
  payload_header_root := payload_header_root (Roots := roots);
  historical_summaries_root := fun l => ssz_list historical_summary_root l 24;
  pending_deposits_root := fun l => ssz_list pending_deposit_root l 27;
  pending_partial_withdrawals_root := fun l => ssz_list pending_partial_withdrawal_root l 27;
  pending_consolidations_root := fun l => ssz_list pending_consolidation_root l 18;
  BeaconTypes.b256_vector_root := ssz_b256_vector;
  b256_list_root := fun l => ssz_list id l 24;
  BeaconTypes.u64_vector_root := ssz_u64_vector;
  BeaconTypes.u64_list_root := fun l => ssz_u64_list l 38;
  BeaconTypes.u8_list_root := fun l => ssz_u8_list l 35;
  signing_data_root := fun a b => hash_concat a b;
  fork_data_root := fun v r => hash_concat v r;
  merkle_root := merkle_root (Roots := roots);
|}.
#[local] Existing Instance ssz_roots.
Lemma ssz_roots_laws : SszRootsLaws.
Proof. split; reflexivity. Qed.
#[local] Existing Instance ssz_roots_laws.

(** A vector, then a list that is longer, shorter, and changed after a panic. *)
Definition calls : list PackedCall :=
  [U64Vector [1; 2; 3; 4; 5]; U64List (replicate 40 7) 5; U64List [7; 7; 9] 5; PanicWhileLocked None; U8List [1; 0; 7] 3].

Lemma packed_roots_match_witness :
  exists cache, foldM packed_call (mkMutex None false, []) calls =
    Ok (cache, [ssz_u64_vector [1; 2; 3; 4; 5]; ssz_u64_list (replicate 40 7) 5; ssz_u64_list [7; 7; 9] 5; ssz_u8_list [1; 0; 7] 3]).
Proof. apply (packed_roots_match calls). reflexivity. Defined.

(** A registry is cloned, the clone changed and grown, both hashed by one cache. *)
Definition ops : list (RegistryOp (A := Z)) :=
  [OpNew 0 [10; 20; 30]; OpRoot 0 0; OpClone 0 1; OpUpdate 1 2 (fun z => z + 1); OpPush 1 40; OpRoot 0 1; OpRoot 0 0].

Lemma registries_are_lists_witness :
  exists w, foldM (registry_op word 8 3) (empty_world, []) ops =
      Ok (w, [ssz_list word [10; 20; 30] 3; ssz_list word [10; 20; 31; 40] 3; ssz_list word [10; 20; 30] 3]) /\
    good word 8 w {[0%nat := [10; 20; 30]; 1%nat := [10; 20; 31; 40]]}.
Proof.
  pose proof (registries_are_lists word 8 3 ops ltac:(cbn; lia)) as Ha.
  destruct (foldM (registry_op word 8 3) (empty_world, []) ops) as [[w rs]| | |]; [|done..].
  exists w. destruct Ha as [Hg ->]. split; [reflexivity|exact Hg].
Defined.

Definition arc : SharedCommittee := mkSharedCommittee 5 committee.

(** The state is hashed, cloned, the clone's second validator changed, and both are hashed. *)
Definition changed_state : BeaconState :=
  set_validators [validator 1; set_effective_balance 31000000000 (validator 2)] (state 70 0).
Definition events : list StateEvent :=
  [EvRegistry (OpNew 0 [validator 1; validator 2]); EvHash 0 (state 70 0) arc arc; EvRegistry (OpClone 0 1);
   EvRegistry (OpUpdate 1 1 (set_effective_balance 31000000000)); EvHash 1 changed_state arc arc;
   EvPanic default_caches; EvHash 0 (state 70 0) arc arc].

Lemma state_root_from_caches_witness :
  exists w caches, foldM (state_event 8) (empty_world, default_caches, []) events =
    Ok (w, caches, [state_root (state 70 0); state_root changed_state; state_root (state 70 0)]).
Proof.
  pose proof (state_root_from_caches 8 (fun _ => committee) events ltac:(lia)) as Ha.
  assert (consistent 8 (fun _ => committee) ∅ events) as Hc by (repeat split; reflexivity).
  specialize (Ha Hc).
  destruct (foldM (state_event 8) (empty_world, default_caches, []) events) as [[[w k] rs]| | |]; [|done..].
  exists w, k. destruct Ha as [_ ->]. reflexivity.
Defined.
End StateRootsEx.
