(* ===== verification/LeanTheorems.v ===== *)
(** * Theorems about the Lean state transition

    The properties of [state.rs] and [slot.rs], each followed by an instance on the
    concrete chain of [Concrete.v]. *)

From S2P Require Import Prelude Ssz Slot LeanTypes LeanState LeanStateFacts.
From S2P Require Import ThreeSF LeanRefinement LeanEncoding LeanInvariant LeanTransition ProofSelection.
From S2P Require Import LeanAcceptance LeanSafety Concrete.
Import Ex.

Section theorems.
Context {SS : SszTypes} {SL : SszLaws SS}.
Context {HS : TreeHash LeanState} {HH : TreeHash BlockHeader} {HB : TreeHash BlockBody}
        {HA : TreeHash AttestationData}.

(** C1: [process_attestations], on bit lists and the flat vote encoding, implements the
    abstract 3SF-mini step on sets of slots and voters, attestation by attestation, and
    leaves slot, header, history and registry alone. *)
Theorem process_attestations_refines s atts s' :
  wf s -> atts_u64 atts -> process_attestations s atts = Ok s' ->
  sf_of s' = sf_attestations (history s) (validators_len s) (sf_of s) atts /\ same_chain s s'.
Proof. intros W Hu H. destruct (process_attestations_sim _ _ _ W Hu H) as (? & ? & _). done. Qed.

(** C2: accountable safety.  Two chains grown from one genesis by accepted blocks that
    each hold a checkpoint of one slot as justified (or finalized) exhibit at least a
    third of the registry voting for both checkpoints, when no two headers share a
    root: if the checkpoints differ, that third has double-voted. *)
Theorem accountable_safety t vs g bs1 s1 bs2 s2 c1 c2 :
  Inj (=) (=) (tree_hash_root : BlockHeader -> B256) ->
  generate_genesis t vs = Ok g ->
  reachable g bs1 s1 -> reachable g bs2 s2 ->
  is_justified_checkpoint s1 c1 -> is_justified_checkpoint s2 c2 ->
  0 < cp_slot c1 -> cp_slot c1 = cp_slot c2 ->
  exists V : gset Z, (validators_len g <= 3 * size V)%nat /\
    forall v, v ∈ V -> 0 <= v < Z.of_nat (validators_len g) /\ voted_in bs1 c1 v /\ voted_in bs2 c2 v.
Proof.
  intros Hinj Hg R1 R2 J1 J2 H0 Heq.
  pose proof (reachable_inv _ _ _ _ _ Hg R1) as I1. pose proof (reachable_inv _ _ _ _ _ Hg R2) as I2.
  assert (Hh : forall bs s c, chain_inv g bs s -> is_justified_checkpoint s c -> 0 < cp_slot c ->
    0 < hdr_slot (latest_block_header s)).
  { intros bs s c [W _ _ _] J Hc. pose proof (wf_slot _ W).
    destruct (decide (hdr_slot (latest_block_header s) = 0)) as [Hz|]; [|lia].
    pose proof (justified_genesis _ _ W Hz J). lia. }
  assert (H0' : 0 < cp_slot c2) by lia.
  destruct (justified_supported _ _ _ _ I1 (Hh _ _ _ I1 J1 H0) J1 H0) as (L1 & V1 & Q1 & S1).
  destruct (justified_supported _ _ _ _ I2 (Hh _ _ _ I2 J2 H0') J2 H0') as (L2 & V2 & Q2 & S2).
  exists (V1 ∩ V2). split.
  - apply quorum_intersection; [|done..]. intros v [Hv|Hv]%elem_of_union; [by apply S1|by apply S2].
  - intros v [Hv1 Hv2]%elem_of_intersection. split; [apply (S1 v Hv1)|split].
    + apply (voter_checkpoint g bs1 s1); auto.
    + apply (voter_checkpoint g bs2 s2); auto.
Qed.

(** C11: finality is permanent.  Along any chain of accepted blocks the finalized and the
    justified slot never go back, a justified slot stays justified, and the finalized
    checkpoint stays the block of its slot. *)
Theorem finality_permanent t vs g bs s bs' s' :
  generate_genesis t vs = Ok g -> reachable g bs s -> reachable s bs' s' -> bs <> [] ->
  cp_slot (latest_finalized s) <= cp_slot (latest_finalized s') /\
  cp_slot (latest_justified s) <= cp_slot (latest_justified s') /\
  history s' !! Z.to_nat (cp_slot (latest_finalized s)) = Some (cp_root (latest_finalized s)) /\
  forall sl, sf_is_justified (sf_of s) sl = true -> sf_is_justified (sf_of s') sl = true.
Proof.
  intros Hg R R' Hne. pose proof (reachable_inv _ _ _ _ _ Hg R) as [W _ _ _].
  destruct (reachable_progress _ _ _ W R') as [_ [Hp Hf Hj Hs]].
  split_and!; [done..| |done]. eapply prefix_lookup_Some; [|exact Hp].
  apply (sfw_froot _ _ _ (wf_sf _ W (reachable_header _ _ _ _ _ Hg R Hne))).
Qed.

(** C16: every state a chain of accepted blocks reaches is well-formed: history, window and
    vote encoding have the lengths the slots dictate, and the checkpoints are blocks of
    the chain in order. *)
Theorem reachable_wf t vs g bs s :
  generate_genesis t vs = Ok g -> reachable g bs s -> wf s.
Proof. intros Hg R. apply (reachable_inv _ _ _ _ _ Hg R). Qed.

(** C18: a block that extends a well-formed state, proposed by the right validator, with at
    most eight distinct attestation data whose checkpoints precede it, is accepted. *)
Theorem state_transition_accepts s b :
  wf s -> slot s < blk_slot b <= U262144 -> Z.of_nat (validators_len s) <= U4096 ->
  body_valid (validators_len s) b ->
  (forall s1, process_slots s (blk_slot b) = Ok s1 -> header_valid s1 b) ->
  (forall s1 s2, process_slots s (blk_slot b) = Ok s1 -> process_block s1 b = Ok s2 ->
     blk_state_root b = tree_hash_root s2) ->
  exists s', state_transition s b true = Ok s'.
Proof. apply state_transition_Ok_intro. Qed.

(** C19: the transition returns a state or an error on every block when the registry has a
    validator: no panic, and the slot loop stops. *)
Theorem state_transition_returns s b sigs :
  0 <= slot s -> is_u64 (blk_slot b) -> (0 < validators_len s)%nat ->
  returns (state_transition s b sigs).
Proof. apply state_transition_total. Qed.

(** C20: an attestation moves the finalized checkpoint only to its own source, which was
    already justified, with a two-thirds tally for its target and no slot in between
    that could be justified. *)
Theorem finalization_rule r s m a s' m' :
  loop_pre r s -> loop_shape s m -> att_u64 (aa_message a) ->
  process_attestation r (s, m) a = Ok (s', m') ->
  latest_finalized s' <> latest_finalized s ->
  latest_finalized s' = aa_source a /\
  sf_is_justified (alpha s m) (cp_slot (aa_source a)) = true /\
  (2 * validators_len s <= 3 * size (sf_voters (alpha s m) (aa_message a)
      (signers (bl_iter (aa_aggregation_bits a)))))%nat /\
  cp_slot (latest_finalized s) < cp_slot (aa_source a) < cp_slot (aa_target a) /\
  forall sl, cp_slot (aa_source a) < sl < cp_slot (aa_target a) ->
    is_justifiable_after sl (cp_slot (latest_finalized s)) = false.
Proof.
  intros P Sh Hu H Hne. apply process_attestation_sim in H as (Ha & _ & _); [|done..].
  assert (Hf : sf_finalized (alpha s' m') <> sf_finalized (alpha s m)) by done.
  rewrite Ha in Hf. apply sf_step_finalizes in Hf as (H1 & H2 & H3 & H4 & H5).
  rewrite <-Ha in H1. unfold sf_quorum in H4. b2p. done.
Qed.

(** C29: reading the pending votes back from the flat encoding that [process_attestations]
    writes gives the map that was written. *)
Theorem justifications_roundtrip s m s' :
  encode_justifications s m = Ok s' ->
  exists m', decode_justifications s' = Ok m' /\ bl_iter <$> m' = bl_iter <$> m.
Proof. apply encode_justifications_decodes. Qed.

(** [process_slots] advances to the target slot and fills the state root of the latest
    header exactly once, with the root of the state it starts from. *)
Theorem process_slots_header s target :
  0 <= slot s < target -> target < 2 ^ 64 -> tree_hash_root s <> B256_ZERO ->
  process_slots s target
  = Ok (set_slot target (set_latest_block_header (cache_state_root s) s)).
Proof.
  intros Hs Ht Hz. unfold process_slots. rewrite (proj2 (Z.ltb_lt _ _)) by lia. cbn [ensure mbind res_bind].
  destruct (Z.to_nat (target - slot s)) as [|n] eqn:Hn; [lia|].
  apply process_slots_loop_header; [lia|lia|done|]. unfold cache_state_root. case_if; b2p; done.
Qed.

(** a header is accepted only in its slot, after the latest block, from the proposer
    of the slot and on the root of the latest header; the history then gets that root
    and a zero per empty slot, the window is extended to the slot before the block,
    and the first block after genesis anchors both checkpoints. *)
Theorem process_block_header_effect s b s' :
  wf s -> process_block_header s b = Ok s' -> header_step s b s'.
Proof. apply process_block_header_spec. Qed.

(** with an empty registry the header check divides by zero before the check that
    the registry has validators is reached. *)
Theorem empty_registry_panics s b :
  validators_len s = 0%nat -> blk_slot b = slot s ->
  hdr_slot (latest_block_header s) < blk_slot b ->
  process_block_header s b = Panic.
Proof. apply process_block_header_panics. Qed.

End theorems.

(** the greedy choice of proofs stops, covers every validator any of the proofs
    covers, chooses among the given proofs, and every proof it chooses brings in a
    validator that was not covered before. *)
Theorem extend_proofs_greedily_covers {SS : SszTypes} {E} ps selected c :
  exists chosen rest,
    extend_proofs_greedily (E := E) (Some ps) selected c
      = Ok (selected ++ chosen, c ∪ union_participants ps) /\
    ps ≡ₚ chosen ++ rest /\ all_useful c chosen.
Proof.
  destruct (extend_loop_spec (E := E) (length ps) ps selected c eq_refl)
    as (chosen & rest & H1 & H2 & H3 & H4).
  exists chosen, rest. split_and!; [|done..]. unfold extend_proofs_greedily. rewrite H1. do 2 f_equal.
  apply set_eq. intros v. unfold union_participants in *. rewrite H2, fmap_app, union_list_app_L.
  set_solver.
Qed.

(** [is_justifiable_after] accepts exactly the slots at distance at most five, a
    square or a pronic number from the finalized slot; its 64- and 128-bit arithmetic
    never wraps. *)
Theorem is_justifiable_after_spec c f :
  is_u64 c -> is_u64 f ->
  is_justifiable_after c f = true <-> f <= c /\ justifiable_distance (c - f).
Proof. apply is_justifiable_after_correct. Qed.

(** a justifiable slot is never far: from any slot there is one within the square
    root of its distance to the finalized slot. *)
Theorem next_justifiable_slot c f :
  0 <= f <= c -> c + Z.sqrt (c - f) < 2 ^ 64 ->
  exists s, c <= s <= c + Z.sqrt (c - f) /\ is_justifiable_after s f = true.
Proof. apply justifiable_gap. Qed.

(** ** Instances on the concrete chain *)

(** The vote that completes the quorum a pending vote began. *)
Definition second_vote : AggregatedAttestation := vote g_cp (cp a1) (cp a1) [true; false].

Lemma process_attestations_refines_witness :
  exists s', process_attestations sc2 [second_vote] = Ok s' /\
    latest_justified s' = cp a1 /\
    sf_of s' = sf_attestations (history sc2) 3 (sf_of sc2) [second_vote].
Proof.
  eexists. split; [vm_compute; reflexivity|]. split; [vm_compute; reflexivity|].
  apply (process_attestations_refines sc2 [second_vote]); [exact wf_c2| |vm_compute; reflexivity].
  repeat constructor; vm_compute; discriminate || reflexivity.
Defined.

Lemma accountable_safety_witness :
  exists V : gset Z, (3 <= 3 * size V)%nat /\
    forall v, v ∈ V -> 0 <= v < 3 /\ voted_in [a1; a2] (cp a1) v /\ voted_in [b1; b2] (cp b1) v.
Proof.
  apply (accountable_safety 0 (Some registry) genesis [a1; a2] sa2 [b1; b2] sb2 (cp a1) (cp b1)
    hash_header_inj genesis_Ok reach_a2 reach_b2).
  - left. vm_compute. reflexivity.
  - left. vm_compute. reflexivity.
  - vm_compute. reflexivity.
  - vm_compute. reflexivity.
Defined.

Lemma finality_permanent_witness :
  cp_slot (latest_finalized sa2) <= cp_slot (latest_finalized sa3) /\
  history sa3 !! 0%nat = Some (cp_root (latest_finalized sa2)).
Proof.
  destruct (finality_permanent 0 (Some registry) genesis [a1; a2] sa2 [a3] sa3) as (H1 & _ & H2 & _);
    [exact genesis_Ok|exact reach_a2|exact step_a3|discriminate|]. split; [exact H1|exact H2].
Defined.

Lemma reachable_wf_witness : wf sa3.
Proof. apply (reachable_wf 0 (Some registry) genesis [a1; a2; a3]); [exact genesis_Ok|exact reach_a3]. Defined.

Lemma state_transition_accepts_witness : exists s', state_transition sa2 a3 true = Ok s'.
Proof.
  apply state_transition_accepts.
  - exact wf_a2.
  - vm_compute. split; [reflexivity|discriminate].
  - vm_compute. discriminate.
  - split; [vm_compute; discriminate|]. repeat constructor; vm_compute; discriminate || reflexivity.
  - intros s1 H1. vm_compute in H1. injection H1 as <-.
    split; try (vm_compute; reflexivity || discriminate). split; [vm_compute; lia|vm_compute; reflexivity].
  - intros. vm_compute. reflexivity.
Defined.

Lemma state_transition_returns_witness : returns (state_transition sa2 b1 false).
Proof.
  apply state_transition_returns; [vm_compute; discriminate|split; [vm_compute; discriminate|vm_compute; reflexivity]|].
  vm_compute. lia.
Defined.

Lemma finalization_rule_witness :
  exists m s' m', process_attestation (build_root_to_slot sa2h) (sa2h, m) (vote (cp a1) (cp a2) (cp a2) [true; true])
      = Ok (s', m') /\ latest_finalized s' = cp a1.
Proof.
  exists ∅. do 2 eexists. split; [vm_compute; reflexivity|].
  eapply (finalization_rule (build_root_to_slot sa2h) sa2h ∅ (vote (cp a1) (cp a2) (cp a2) [true; true]));
    [apply wf_loop_pre, wf_a2h| | |vm_compute; reflexivity|vm_compute; discriminate].
  - split; [vm_compute; reflexivity|intros root b H; discriminate H].
  - repeat constructor; vm_compute; discriminate || reflexivity.
Defined.

Definition some_votes : gmap B256 BitList :=
  list_to_map [(5, [true; false; true] : BitList); (9, [false; false; true])].
Definition with_some_votes : LeanState :=
  Eval vm_compute in match encode_justifications sc2 some_votes with Ok s => s | _ => sc2 end.

Lemma justifications_roundtrip_witness :
  justifications_roots with_some_votes = [5; 9] /\
  exists m', decode_justifications with_some_votes = Ok m' /\ bl_iter <$> m' = bl_iter <$> some_votes.
Proof.
  split; [vm_compute; reflexivity|].
  apply (justifications_roundtrip sc2 some_votes with_some_votes). vm_compute. reflexivity.
Defined.

Lemma process_slots_header_witness :
  process_slots sa2 9 = Ok (set_slot 9 (set_latest_block_header (cache_state_root sa2) sa2)).
Proof.
  apply process_slots_header; [vm_compute; split; [discriminate|reflexivity]|reflexivity|vm_compute; discriminate].
Defined.

Lemma process_block_header_effect_witness : header_step sa2s a3 sa2h.
Proof. apply process_block_header_effect; [exact wf_a2s|vm_compute; reflexivity]. Defined.

Lemma empty_registry_panics_witness :
  process_block_header (set_slot 1 empty_genesis) (mkBlock 1 0 0 0 (mkBlockBody [])) = Panic.
Proof. apply empty_registry_panics; vm_compute; reflexivity. Defined.

Lemma is_justifiable_after_spec_witness : is_justifiable_after 30 10 = true <-> 10 <= 30 /\ justifiable_distance 20.
Proof. apply (is_justifiable_after_spec 30 10); split; vm_compute; discriminate || reflexivity. Defined.

Lemma next_justifiable_slot_witness :
  exists s, 17 <= s <= 21 /\ is_justifiable_after s 0 = true.
Proof. apply (next_justifiable_slot 17 0); [lia|vm_compute; reflexivity]. Defined.
