(* ===== verification/StoreTheorems.v ===== *)
(** * Theorems about the fork-choice store

    The properties of [crates/common/fork_choice/lean/src/store.rs] but for block
    production and aggregation, each followed by an instance on the store of
    [StoreConcrete.v]. *)

From S2P Require Import Prelude StateMonad Redb Ssz Slot LeanTypes.
From S2P Require Import LeanState LeanInvariant LeanTransition LeanSafety LeanDB Ghost ForkChoice.
From S2P Require Import ForkChoiceFacts StoreInvariant StoreRuns Attesting Concrete StoreConcrete.
Import Ex SEx.

Section theorems.
Context {SS : SszTypes} {SL : SszLaws SS}.
Context {RD : Redb} {RL : RedbLaws RD} {HO : HashOrder} {HL : HashOrderLaws HO} {PQ : PqCrypto}.
Context {HS : TreeHash LeanState} {HH : TreeHash BlockHeader} {HB : TreeHash BlockBody}
        {HA : TreeHash AttestationData} {HBl : TreeHash Block}.

(** C4: every store reached from an initial one by blocks, ticks, gossip, accepting and
    pruning, whatever their outcomes, has a block tree ordered by slot in which only the
    anchor's parent is missing, a well-formed state for each block whose history names
    the block's ancestors, consistent indices, and head, safe target and justified
    checkpoint that are stored blocks. *)
Theorem store_invariant spec sb st time vid s0 s :
  anchor_ok sb st -> match time with Some t => is_u64 t | None => True end ->
  get_forkchoice_store spec sb st empty_db time vid = Ok s0 ->
  store_reachable spec (blk_parent_root (sb_block sb)) s0 s ->
  db_inv (blk_parent_root (sb_block sb)) (store s).
Proof.
  intros Ha Ht H0 Hr. eapply store_reachable_inv; [|exact Hr]. by eapply get_forkchoice_store_inv.
Qed.

Section with_inv.
Context (dangling : B256).


(** the head depends neither on the order of the votes nor on the iteration order of
    the hash maps. *)
Theorem ghost_head_order {HO2 : HashOrder} {HL2 : HashOrderLaws HO2} d atts atts' provided ms :
  db_inv dangling d -> Z.of_nat (length atts) < 2 ^ 64 -> atts ≡ₚ atts' ->
  compute_lmd_ghost_head (HO := HO) d atts provided ms =
  compute_lmd_ghost_head (HO := HO2) d atts' provided ms.
Proof.
  intros I Hl Hp. destruct (ghost_start_Ok dangling d provided I) as (r & p & sl & Hs & _).
  eapply ghost_order_irrelevant; [by eapply index_map_wf|done..].
Qed.

(** [update_head] always succeeds; the head it writes is a stored block with its slot,
    the GHOST head of the latest known votes from the justified block on, and the
    finalized checkpoint it writes is the old one or the head state's finalized
    checkpoint, an ancestor of the head. *)
Theorem update_head_correct s :
  db_inv dangling (store s) ->
  exists s' h hs c, update_head s = (s', Ok tt) /\ head_choice (store s) h hs c /\
    f_head (store s') = Some h /\ f_finalized (store s') = Some c /\
    head_checkpoint s' = mkCheckpoint h hs /\ finalized_checkpoint s' = c /\
    db_inv dangling (store s').
Proof.
  intros I. destruct (update_head_run _ s I) as (h & hs & c & Hc & E).
  pose proof (update_head_inv dangling s I) as I'. rewrite E in *. do 4 eexists. by split_and!.
Qed.

(** the votes weighed are the latest ones: the vote kept for a validator is one of
    its known votes, and none of its known votes is for a later slot (the greater data
    root among equals). *)
Theorem latest_votes d keys v data :
  extract_attestations_from_aggregated_payloads d keys !! v = Some data <->
  exists r, mkSignatureKey v r ∈ keys /\ data_get d r = Some data /\
    forall r' data', mkSignatureKey v r' ∈ keys -> data_get d r' = Some data' -> not_later data' r' data r.
Proof. apply extract_spec. Qed.

(** ticking never fails: it moves the store's time to the interval of the wall clock,
    or leaves it when it is already there or beyond, and keeps the invariant. *)
Theorem on_tick_reaches spec time p a s g t :
  db_inv dangling (store s) -> store_genesis_time (store s) = Ok g -> f_time (store s) = Some t ->
  g <= time -> (spec_seconds_per_slot spec * 1000)%u64 <> 0 ->
  exists s' target, tick_target spec (time - g) = Ok target /\
    on_tick spec time p a s = (s', Ok tt) /\ db_inv dangling (store s') /\
    f_time (store s') = Some (Z.max t target).
Proof. apply on_tick_run. Qed.

(** accepting attestations leaves nothing pending; what is known afterwards is what
    was known or pending, without the votes superseded by a later vote of their
    validator. *)
Theorem accept_new_attestations_merges s :
  db_inv dangling (store s) ->
  exists s', accept_new_attestations s = (s', Ok tt) /\
    rd_view (t_new_payloads (store s')) = ∅ /\
    forall k ps, rd_view (t_known_payloads (store s')) !! k = Some ps <->
      merged (store s) k = Some ps /\
      forall k', is_Some (merged (store s) k') -> sk_validator_id k' = sk_validator_id k ->
        key_slot (store s) k' <= key_slot (store s) k.
Proof. apply accept_new_attestations_effect. Qed.


(** a block that names an attestation data twice is refused, but only after it has
    been stored with its state; handing it in again is then answered with success. *)
Theorem on_block_duplicate_stays sb verify s st c :
  block_contains_key (store s) (tree_hash_root (sb_block sb)) = false ->
  check_block (store s) sb verify = Ok (st, c) -> ~ NoDup (data_roots sb) ->
  exists s', on_block sb verify s = (s', Err DuplicateAttestationData) /\
    block_get (store s') (tree_hash_root (sb_block sb)) = Some sb /\
    state_get (store s') (tree_hash_root (sb_block sb)) = Some st /\
    on_block sb verify s' = (s', Ok tt).
Proof. apply on_block_duplicate. Qed.

(** gossip validation accepts exactly the attestations whose checkpoints name stored
    blocks with their slots, in order, on one chain through the finalized block, with a
    head not after the attestation's slot and a slot that has begun or is about to
    (the last comparison on 64-bit intervals). *)
Theorem validate_attestation_exact d sa :
  wf_index (block_index d) ->
  validate_attestation d sa = Ok tt <-> attestation_valid d (sa_message sa).
Proof. apply validate_attestation_Ok. Qed.

(** the ancestor check ends and decides ancestry in the block tree. *)
Theorem checkpoint_is_ancestor_decides d a c :
  wf_index (block_index d) ->
  (forall pc, block_index d !! cp_root c = Some pc -> pc.2 = cp_slot c) ->
  exists b, checkpoint_is_ancestor d a c = Ok b /\
    (b = true <-> ancestor (block_index d) (cp_root c) (cp_root a) /\
       exists p, block_index d !! cp_root a = Some (p, cp_slot a)).
Proof. apply checkpoint_is_ancestor_spec. Qed.

(** what a validator attests to is well-founded: when the checkpoints of the head's
    state are on the head's chain and the safe target is not below the finalized slot, the
    search for a target ends, and the attestation data produced for the current slot
    passes the store's own validation. *)
Theorem produced_attestation_valid d h st safe sl t :
  db_inv dangling d -> head_view d h st safe -> cp_slot (latest_finalized st) <= safe ->
  f_time d = Some t -> hdr_slot (latest_block_header st) <= sl ->
  (sl * INTERVALS_PER_SLOT)%u64 <= (t + GOSSIP_DISPARITY_INTERVALS)%u64 ->
  exists data, produce_attestation_data d sl = Ok data /\ ad_slot data = sl /\
    cp_root (ad_head data) = h /\
    validate_attestation d (mkSignedAttestation 0 data blank) = Ok tt.
Proof.
  intros I V H1 H2 H3 H4.
  destruct (produce_attestation_data_valid dangling d h st safe sl t I V H1 H2 H3 H4)
    as (data & ? & ? & ? & Hv). exists data. split_and!; [done..|].
  apply validate_attestation_Ok; [by eapply di_order|done].
Qed.

(** pruning keeps every payload, drops the attestation data and signatures that are
    stale and unused, and keeps in the children index exactly the blocks at or above the
    finalized slot. *)
Theorem prune_keeps_payloads s f :
  f_finalized (store s) = Some f ->
  let stale := stale_roots (store s) (cp_slot f)
    (Z.max (cp_slot f) (u64_saturating_sub (cp_slot (head_checkpoint s)) ATTESTATION_RETENTION_SLOTS)) in
  exists s', prune_stale_attestation_data s = (s', Ok tt) /\
    rd_view (t_known_payloads (store s')) = rd_view (t_known_payloads (store s)) /\
    rd_view (t_new_payloads (store s')) = rd_view (t_new_payloads (store s)) /\
    (forall r, rd_view (t_data (store s')) !! r =
       if decide (r ∈ stale) then None else rd_view (t_data (store s)) !! r) /\
    (forall k, rd_view (t_signatures (store s')) !! k =
       if decide (sk_data_root k ∈ stale) then None else rd_view (t_signatures (store s)) !! k) /\
    rd_view (t_children (store s')) =
      map_retain (fun _ e => cp_slot f <=? cie_slot e) (rd_view (t_children (store s))).
Proof. apply prune_run. Qed.
End with_inv.
End theorems.

Lemma store_invariant_witness : db_inv 0 (store s2).
Proof.
  apply (store_invariant spec (signed g_block) genesis (Some 10) (Some 0) (start 10) s2);
    [exact anchor_genesis|by vm_compute|apply start_Ok|apply run_reachable; by vm_compute].
Defined.


Lemma ghost_head_order_witness :
  compute_lmd_ghost_head (store s2) [mkSignedAttestation 0 vote1 blank; mkSignedAttestation 1 vote2 blank]
    (root_of a1) 0 =
  compute_lmd_ghost_head (store s2) [mkSignedAttestation 1 vote2 blank; mkSignedAttestation 0 vote1 blank]
    (root_of a1) 0.
Proof. apply (ghost_head_order 0 (store s2)); [exact s2_inv|by vm_compute|by constructor]. Defined.

Lemma update_head_correct_witness :
  exists s' h hs c, update_head s2 = (s', Ok tt) /\ head_choice (store s2) h hs c /\
    f_head (store s') = Some h /\ f_finalized (store s') = Some c /\
    head_checkpoint s' = mkCheckpoint h hs /\ finalized_checkpoint s' = c /\ db_inv 0 (store s').
Proof. apply (update_head_correct 0 s2), s2_inv. Defined.

Lemma latest_votes_witness :
  extract_attestations_from_aggregated_payloads (store s2) (known_iter_keys (store s2)) !! 1 = Some vote1.
Proof.
  apply (latest_votes (store s2) (known_iter_keys (store s2)) 1 vote1).
  exists (tree_hash_root vote1). split_and!.
  - apply (bool_decide_unpack _). by vm_compute.
  - by vm_compute.
  - intros r' data' Hk Hd. right.
    assert (Hr : forall k, k ∈ known_iter_keys (store s2) -> sk_data_root k = tree_hash_root vote1).
    { apply Forall_forall. apply (bool_decide_unpack _). by vm_compute. }
    apply Hr in Hk. cbn [sk_data_root] in Hk. subst r'.
    assert (E : data_get (store s2) (tree_hash_root vote1) = Some vote1) by (by vm_compute).
    rewrite E in Hd. injection Hd as <-. split; [done|reflexivity].
Defined.

Lemma on_tick_reaches_witness :
  exists s' target, tick_target spec (12 - 0) = Ok target /\
    on_tick spec 12 true false s2 = (s', Ok tt) /\ db_inv 0 (store s') /\
    f_time (store s') = Some (Z.max 10 target).
Proof.
  apply (on_tick_reaches 0 spec 12 true false s2 0 10); [exact s2_inv|by vm_compute..].
Defined.

Lemma accept_new_attestations_merges_witness :
  exists s', accept_new_attestations s_two = (s', Ok tt) /\
    rd_view (t_new_payloads (store s')) = ∅ /\
    forall k ps, rd_view (t_known_payloads (store s')) !! k = Some ps <->
      merged (store s_two) k = Some ps /\
      forall k', is_Some (merged (store s_two) k') -> sk_validator_id k' = sk_validator_id k ->
        key_slot (store s_two) k' <= key_slot (store s_two) k.
Proof. apply (accept_new_attestations_merges 0 s_two), s_two_inv. Defined.


Lemma on_block_duplicate_stays_witness :
  exists s', on_block two_signed false s_two_after = (s', Err DuplicateAttestationData) /\
    block_get (store s') (tree_hash_root (sb_block two_signed)) = Some two_signed /\
    state_get (store s') (tree_hash_root (sb_block two_signed)) = Some two_post /\
    on_block two_signed false s' = (s', Ok tt).
Proof.
  apply (on_block_duplicate_stays two_signed false s_two_after two_post two_justified);
    [by vm_compute|exact two_check|exact two_twice].
Defined.

Lemma validate_attestation_exact_witness : attestation_valid (store s2) vote2.
Proof.
  apply (validate_attestation_exact (store s2) (mkSignedAttestation 0 vote2 blank));
    [apply (di_order 0), s2_inv|by vm_compute].
Defined.

Lemma checkpoint_is_ancestor_decides_witness :
  exists b, checkpoint_is_ancestor (store s2) (cp a1) (cp a2) = Ok b /\
    (b = true <-> ancestor (block_index (store s2)) (root_of a2) (root_of a1) /\
       exists p, block_index (store s2) !! root_of a1 = Some (p, 1)).
Proof.
  apply (checkpoint_is_ancestor_decides (store s2) (cp a1) (cp a2)); [apply (di_order 0), s2_inv|].
  assert (E : block_index (store s2) !! cp_root (cp a2) = Some (root_of a1, 2)) by (by vm_compute).
  intros pc Hpc. rewrite E in Hpc. by injection Hpc as <-.
Defined.

Lemma produced_attestation_valid_witness :
  exists data, produce_attestation_data (store s2) 2 = Ok data /\ ad_slot data = 2 /\
    cp_root (ad_head data) = root_of a2 /\
    validate_attestation (store s2) (mkSignedAttestation 0 data blank) = Ok tt.
Proof.
  apply (produced_attestation_valid 0 (store s2) (root_of a2) sa2 0 2 10);
    [exact s2_inv|exact s2_view|by vm_compute..].
Defined.

Lemma prune_keeps_payloads_witness :
  exists s', prune_stale_attestation_data s2 = (s', Ok tt) /\
    rd_view (t_known_payloads (store s')) = rd_view (t_known_payloads (store s2)).
Proof.
  assert (E : f_finalized (store s2) = Some g_cp) by (by vm_compute).
  destruct (prune_keeps_payloads s2 g_cp E) as (s' & H1 & H2 & _). exists s'. split; [exact H1|exact H2].
Defined.

(** the comparison against the current interval is on wrapped 64-bit products: an
    attestation for slot 3689348814741910324 is accepted at interval 10. *)
Theorem far_future_attestation_accepted :
  f_time (store s2) = Some 10 /\ ad_slot far_vote = 3689348814741910324 /\
  validate_attestation (store s2) (mkSignedAttestation 0 far_vote blank) = Ok tt.
Proof. by vm_compute. Qed.
