(* ===== verification/ProductionTheorems.v ===== *)
(** * Theorems about block production and aggregation

    The properties of the production and the aggregation functions of
    [crates/common/fork_choice/lean/src/store.rs], each followed by an instance on the
    store of [StoreConcrete.v], and the scenarios in which the parts do not fit
    together. *)

From S2P Require Import Prelude StateMonad Redb Ssz Slot LeanTypes.
From S2P Require Import LeanState ThreeSF LeanRefinement LeanInvariant LeanTransition LeanSafety.
From S2P Require Import ProofSelection LeanDB Ghost ForkChoice ForkChoiceFacts StoreInvariant StoreRuns.
From S2P Require Import Production ProductionFacts ProjectionFacts Aggregation AggregationFacts.
From S2P Require Import Concrete StoreConcrete.
Import Ex SEx.

Section theorems.
Context {SS : SszTypes} {SL : SszLaws SS}.
Context {RD : Redb} {RL : RedbLaws RD} {HO : HashOrder} {HL : HashOrderLaws HO} {PQ : PqCrypto}.
Context {HS : TreeHash LeanState} {HH : TreeHash BlockHeader} {HB : TreeHash BlockBody}
        {HA : TreeHash AttestationData} {HBl : TreeHash Block}.

(** choosing the proofs for a block ends; each attestation chosen is a known proof for
    requested data, with the proof's participants, and every requested vote that has a
    known proof is covered by one of them. *)
Theorem selected_proofs_cover d l :
  exists atts proofs, select_aggregated_proofs d l = Ok (atts, proofs) /\
    length atts = length proofs /\
    (forall i a p, atts !! i = Some a -> proofs !! i = Some p ->
       backed d (aa_message a) (a, p) /\ exists v, mkAggregatedAttestations v (aa_message a) ∈ l) /\
    (forall v data, mkAggregatedAttestations v data ∈ l -> has_own_proof d data v ->
       exists a, a ∈ atts /\ aa_message a = data /\ v ∈ signers (bl_iter (aa_aggregation_bits a))).
Proof. apply select_aggregated_proofs_spec. Qed.

(** C37: a block the node produces extends the head of its store, is for the slot and by
    its proposer, is accepted by the state transition of the head's state with the state
    root it carries, and comes with one known proof and one key list per attestation. *)
Theorem produced_block_accepted spec slot v s s' bws :
  produce_block_with_signatures spec slot v s = (s', Ok bws) ->
  exists h, f_head (store s') = Some h /\ produced (store s') slot v h bws.
Proof. apply produce_block_spec. Qed.

(** producing a block ends with a block or an error in every store that satisfies the
    invariant, for both strategies, when no stored state has an empty registry. *)
Theorem produce_block_ends dangling spec slot v s :
  db_inv dangling (store s) -> is_u64 slot -> (spec_seconds_per_slot spec * 1000)%u64 <> 0 ->
  (forall h st, rd_view (t_state (store s)) !! h = Some st -> (0 < validators_len st)%nat) ->
  returns (produce_block_with_signatures spec slot v s).2.
Proof. apply produce_block_returns. Qed.

(** the tiered strategy projects justification as the state transition does it: an
    entry whose target is not justified yet moves the projected finalized slot, the
    projected justified slots and the running votes exactly as 3SF-mini does. *)
Theorem projection_refines ctx chain n p A data proofs score new p' :
  proj_rel chain p A -> roots_distinct chain ->
  is_u64 (pr_finalized_slot p) -> att_u64 data -> is_u64 (cp_slot (ad_source data) + 1) ->
  score_candidate ctx chain n p data proofs = Some (score, new) ->
  genesis_self_vote data \/ sf_is_justified A (cp_slot (ad_target data)) = false ->
  project p data (sc_tier score) new = Ok p' ->
  proj_rel chain p' (sf_step chain n A data (pool_voters proofs)).
Proof. apply project_refines. Qed.

(** the tiered strategy picks, among the entries not used yet that can count, one with
    the smallest key (finalizing before justifying before building, more new voters,
    older target, older vote, smaller root), and stops only when no entry can count. *)
Theorem tiered_pick_minimal ctx hashes n p done_ pool :
  match best_candidate ctx hashes n p done_ pool with
  | Some (r, score, nv) =>
      (exists data proofs, pool !! r = Some (data, proofs) /\ r ∉ done_ /\
         score_candidate ctx hashes n p data proofs = Some (score, nv)) /\
      (forall r' data' proofs' score' nv', pool !! r' = Some (data', proofs') -> r' ∉ done_ ->
         score_candidate ctx hashes n p data' proofs' = Some (score', nv') ->
         key_ltb (ordering_key score' r') (ordering_key score r) = false)
  | None =>
      forall r data proofs, pool !! r = Some (data, proofs) -> r ∉ done_ ->
        score_candidate ctx hashes n p data proofs = None
  end.
Proof. apply best_candidate_spec. Qed.

(** the chain that votes are matched against while a block is built is the history of
    the state the block leads to. *)
Theorem production_chain_is_history st b sigs post :
  wf st -> block_u64 b -> state_transition st b sigs = Ok post ->
  history post = extended_historical_block_hashes st (blk_parent_root b) (blk_slot b).
Proof. apply extended_hashes_history. Qed.

(** with no signed attestation in the table of known attestations, the round-based
    strategy selects exactly the votes it is given, none filtered. *)
Theorem round_based_unfiltered ctx hashes atts slot v parent :
  bc_available_signed_attestations ctx = ∅ ->
  select_round_based ctx hashes atts slot v parent = Ok (vl_iter (default vl_empty atts), 0).
Proof. apply select_round_based_nothing. Qed.

(** an aggregation job is sound: its children are stored proofs and its raw signatures
    stored signatures of other registered validators, all for its data and with the keys
    of their validators; its bits name exactly the validators of both, and every gossip
    signature of a registered validator is covered. *)
Theorem aggregation_job_sound d st groups new known data j :
  (forall v, v ∈ default [] (groups !! data) -> 0 <= v) ->
  prepare_job d st groups new known data = Ok (Some j) ->
  exists children raws, job_sound d st new known data (default [] (groups !! data)) j children raws.
Proof. apply prepare_job_sound. Qed.

(** applying aggregates loses no payload: a key has afterwards the proofs it had and
    those of the aggregates it takes part in, and exactly the signatures of the
    aggregated data are dropped. *)
Theorem aggregate_apply_merges l s k p :
  let d' := store (aggregate_apply l s).1 in
  (p ∈ default [] (rd_view (t_new_payloads d') !! k) <->
   p ∈ default [] (rd_view (t_new_payloads (store s)) !! k) \/ p ∈ proofs_for l k) /\
  rd_view (t_signatures d') !! k =
    (if decide (sk_data_root k ∈ aggregated_data_roots l) then None
     else rd_view (t_signatures (store s)) !! k).
Proof. apply aggregate_apply_view. Qed.
End theorems.

Lemma selected_proofs_cover_witness :
  exists atts proofs,
    select_aggregated_proofs (store s_two_after) [mkAggregatedAttestations 0 vote1] = Ok (atts, proofs) /\
    length atts = length proofs.
Proof.
  destruct (selected_proofs_cover (store s_two_after) [mkAggregatedAttestations 0 vote1])
    as (atts & proofs & H1 & H2 & _). exists atts, proofs. split; [exact H1|exact H2].
Defined.

Lemma produced_block_accepted_witness :
  exists h, f_head (store s_two_after) = Some h /\ produced (store s_two_after) 2 2 h two_block.
Proof. apply (produced_block_accepted spec 2 2 s_two); exact two_produced. Defined.

Lemma produce_block_ends_witness : returns (produce_block_with_signatures spec 2 2 s_two).2.
Proof.
  apply (produce_block_ends 0 spec 2 2 s_two); [exact s_two_inv|by vm_compute|by vm_compute|].
  assert (H : map_Forall (fun _ st => (0 < validators_len st)%nat) (rd_view (t_state (store s_two)))).
  { apply (bool_decide_unpack _). by vm_compute. }
  intros h st Hst. exact (H h st Hst).
Defined.

Lemma projection_refines_witness :
  proj_rel chain3 proj3 (sf_step chain3 3 (sf_of sa2) vote2 (pool_voters everyone)).
Proof.
  apply (projection_refines ctx2 chain3 3 proj2' (sf_of sa2) vote2 everyone score2 voters2).
  - apply (initial_projection sa2 3 js2 votes2); [exact wf_a2|by vm_compute..].
  - intros i j root _ Hi Hj. assert (Hn : NoDup chain3) by (apply (bool_decide_unpack _); by vm_compute).
    eapply NoDup_lookup; [exact Hn|exact Hi|exact Hj].
  - by vm_compute.
  - split_and!; by vm_compute.
  - by vm_compute.
  - by vm_compute.
  - right. by vm_compute.
  - by vm_compute.
Defined.

Lemma tiered_pick_minimal_witness :
  exists r score nv, best_candidate ctx2 chain3 3 proj2' ∅ {[tree_hash_root vote2 := (vote2, everyone)]}
      = Some (r, score, nv) /\
    score_candidate ctx2 chain3 3 proj2' vote2 everyone = Some (score, nv).
Proof.
  pose proof (tiered_pick_minimal ctx2 chain3 3 proj2' ∅ {[tree_hash_root vote2 := (vote2, everyone)]}) as H.
  destruct (best_candidate _ _ _ _ _ _) as [[[r score] nv]|].
  - exists r, score, nv. split; [reflexivity|]. destruct H as [(data & proofs & Hp & _ & Hs) _].
    apply lookup_singleton_Some in Hp as [_ [= <- <-]]. exact Hs.
  - exfalso. assert (E : score_candidate ctx2 chain3 3 proj2' vote2 everyone = Some (score2, voters2))
      by (by vm_compute).
    assert (E' := H (tree_hash_root vote2) vote2 everyone (lookup_singleton_eq _ _) (not_elem_of_empty _)).
    rewrite E' in E. discriminate E.
Defined.

Lemma production_chain_is_history_witness :
  history sa3 = extended_historical_block_hashes sa2 (blk_parent_root a3) (blk_slot a3).
Proof.
  apply (production_chain_is_history sa2 a3 true sa3); [exact wf_a2|by apply block_u64_dec|by vm_compute].
Defined.

Lemma round_based_unfiltered_witness :
  select_round_based ctx2 chain3 (Some [mkAggregatedAttestations 0 vote1]) 3 0 (root_of a2)
  = Ok ([mkAggregatedAttestations 0 vote1], 0).
Proof. apply (round_based_unfiltered ctx2); reflexivity. Defined.

Lemma aggregation_job_sound_witness :
  exists children raws, job_sound (store s_late) sa2 (new_payloads (store s_late))
    (known_payloads (store s_late)) vote1 (default [] (late_groups !! vote1)) late_job children raws.
Proof.
  apply (aggregation_job_sound (store s_late) sa2 late_groups); [|by vm_compute].
  apply Forall_forall. apply (bool_decide_unpack _). by vm_compute.
Defined.

Lemma aggregate_apply_merges_witness :
  let k := mkSignatureKey 0 (tree_hash_root vote1) in
  let p := mkSingleMessageAggregate [true] [1] in
  p ∈ default [] (rd_view (t_new_payloads (store (aggregate_apply [aggregated [true; true] vote1] s_one).1)) !! k).
Proof.
  apply (aggregate_apply_merges [aggregated [true; true] vote1] s_one). left.
  apply (bool_decide_unpack _). by vm_compute.
Defined.


(** the tiered strategy ranks a vote for a slot that is already justified as
    finalizing; processing the vote finalizes nothing. *)
Theorem tiered_counts_justified_target :
  cp_slot (latest_finalized sa3') = 0 /\
  is_projected_slot_justified (justified_slots sa3') 0 (cp_slot (ad_target again)) = true /\
  (exists score nv,
     score_candidate ctx3 (extended_historical_block_hashes sa3' (root_of a3') 4) 3
       (mkProjection 0 (justified_slots sa3') ∅) again everyone = Some (score, nv) /\
     sc_tier score = Finalize) /\
  (exists s, state_transition sa3' (block_on sa3' 4 [mkAggregatedAttestation [true; true; true] again]) true = Ok s /\
     cp_slot (latest_finalized s) = 0).
Proof.
  split_and!; [by vm_compute..| |].
  - exists (mkScore Finalize 3 2 3), (list_to_set [0; 1; 2]). split; by vm_compute.
  - eexists. split; [vm_compute; reflexivity|reflexivity].
Qed.

(** a signature that arrives after a block carried its vote stops the aggregation: the
    block's votes were stored with an empty proof, which becomes a child of the job, and
    proving fails when the decoder refuses the empty string. *)
Theorem late_signature_stops_aggregation :
  exists jobs, aggregate_prepare (store s_late) = Ok jobs /\
    (exists j pks, j ∈ jobs /\ ([], pks) ∈ job_child_wires j) /\
    prove_aggregation_jobs jobs = Err ProofInvalid.
Proof.
  exists [late_job]. split_and!; [by vm_compute| |by vm_compute].
  exists late_job, [mkPublicKey [0]; mkPublicKey [1]]. split; [by left|].
  apply (bool_decide_unpack _). by vm_compute.
Qed.

(** [aggregate] drops the pending payloads it has not aggregated: a single pending
    proof gives no aggregate and is gone afterwards. *)
Theorem aggregate_drops_payload :
  let k := mkSignatureKey 0 (tree_hash_root vote1) in
  is_Some (rd_view (t_new_payloads (store s_one)) !! k) /\
  (aggregate s_one).2 = Ok [] /\
  rd_view (t_new_payloads (store (aggregate s_one).1)) !! k = None.
Proof. split_and!; [eexists; by vm_compute|by vm_compute..]. Qed.
