(* ===== verification/BeaconTheorems.v ===== *)
(** * Theorems about the beacon chain

    The properties of the beacon state transition, the shuffling and the Merkle proofs,
    each followed by an instance on the chain of [BeaconConcrete.v]. *)

From stdpp Require Import strings.
From S2P Require Import Prelude StateMonad Bytes Shuffling Merkle BeaconTypes BeaconAccess BeaconMutate BeaconEpoch BeaconBlockOps BeaconTransition BeaconFacts BeaconRegistry BeaconSafety BeaconParticipation BeaconJustification BeaconEpochSafety BeaconFrame BeaconReplay BeaconWithdrawals BeaconRewards BeaconProofs BeaconConcrete.

Section theorems.
Context {H : Sha256} {HLaw : Sha256Laws H} {F : CandidateFuel} {HO : HashOrder} {HOL : HashOrderLaws HO}.
Context {SV : SszVec} {SVL : SszVecLaws SV}.
Context {R : Roots} {B : Bls} {BT : BlsTotal B} {N : BeaconNetworkSpec}.

(** ** The transition as a whole *)


(** C12: along an accepted block the finalized epoch does not decrease, the checkpoints stay
    ordered, slashed validators stay slashed, scheduled exits are not moved and keys do
    not change. *)
Theorem finality_never_reverts block validate engine root s s' :
  ffg_ordered s -> 0 <= slot s -> b_slot (sb_message block) < 2 ^ 64 ->
  state_transition_from_root block validate engine root s = (s', Ok tt) ->
  ffg_ordered s' /\ cp_epoch (finalized_checkpoint s) <= cp_epoch (finalized_checkpoint s') /\
  forall i v, validators s !! i = Some v -> exists v', validators s' !! i = Some v' /\
    public_key v' = public_key v /\ (slashed v = true -> slashed v' = true) /\
    (exit_epoch v <> FAR_FUTURE_EPOCH -> exit_epoch v' = exit_epoch v).
Proof.
  intros Ho H0 Hb E. destruct (state_transition_order _ _ _ _ _ _ Ho H0 Hb E) as [Ho' [Hf Hr]].
  split_and!; [done..|]. intros i v (v' & Hv' & [K1 K2 K3])%Hr. eauto 10.
Qed.

(** C13: the end of an epoch applies the FFG rule: the bits shift and record which of the two
    epochs has a supermajority of target votes, the justified checkpoint is the newest
    such epoch's block, and a justified checkpoint becomes final exactly when one of the
    four patterns of consecutive justified epochs says so. *)
Theorem justification_is_ffg s :
  epoch_end s -> ffg_ordered s ->
  exists previous_root current_root,
    get_block_root s (get_previous_epoch s) = Ok previous_root /\
    get_block_root s (get_current_epoch s) = Ok current_root /\
    process_justification_and_finalization s =
      (apply_justification_and_finalization (ffg_step s previous_root current_root) s, Ok tt).
Proof.
  intros He Ho. destruct (compute_justification_Ok s He Ho) as (pr & cr & H1 & H2 & E). exists pr, cr.
  split_and!; [done..|]. unfold process_justification_and_finalization. rewrite bindM_match. unfold reads. by rewrite E.
Qed.

(** C30: a block that was accepted with all its checks replays to the same state without
    them. *)
Theorem replay_agrees block engine root s s' :
  state_transition_from_root block true engine root s = (s', Ok tt) ->
  replay_block block root s = (s', Ok tt).
Proof. apply replay_relaxes. Qed.

(** processing a block by way of the first slot of its epoch, keeping that state, ends in
    the same state and with the same result as processing it directly. *)
Theorem keeping_epoch_start_agrees block validate engine root s :
  0 <= slot s -> 0 <= b_slot (sb_message block) < 2 ^ 64 ->
  state_transition_from_root block validate engine root s =
  (state_transition_keeping_epoch_start block validate engine root;; mret tt) s.
Proof. apply keeping_epoch_start_same. Qed.

(** ** Balances *)

(** C31: the withdrawals a payload must carry exist; they are at most sixteen, numbered in a
    row and within the balances; a payload with other withdrawals is refused, and with
    them every balance falls by exactly what is taken from it. *)
Theorem withdrawals_within_balances s payload :
  withdrawals_ready s ->
  exists ws n, get_expected_withdrawals s = Ok (ws, n) /\ (length ws <= 16)%nat /\
    payable s (next_withdrawal_index s) ws /\
    if decide (ep_withdrawals payload = ws) then
      exists s', process_withdrawals payload s = (s', Ok tt) /\
        sumZ (balances s') = sumZ (balances s) - paid_out ws /\
        (forall i b, 0 <= i -> balances s !! Z.to_nat i = Some b ->
           balances s' !! Z.to_nat i = Some (b - taken ws i)) /\
        validators s' = validators s /\
        pending_partial_withdrawals s' = drop (Z.to_nat n) (pending_partial_withdrawals s) /\
        next_withdrawal_index s' = next_withdrawal_index s + Z.of_nat (length ws) /\
        in_registry s' (next_withdrawal_validator_index s')
    else process_withdrawals payload s = (s, Err "Withdrawals do not match expected withdrawals"%string).
Proof.
  intros Hr. destruct (get_expected_withdrawals_Ok s Hr) as (ws & n & E & Hp & Hl & _). exists ws, n.
  split_and!; [done..|]. by apply process_withdrawals_Ok.
Qed.

(** C32: the single pass that pays rewards and penalties gives what applying the delta lists
    of the source, target and head flags and of inactivity in turn gives. *)
Theorem rewards_are_deltas s :
  shape s -> Forall is_u64 (balances s) -> get_current_epoch s <> GENESIS_EPOCH ->
  exists d0 d1 d2 dp,
    get_flag_index_deltas s TIMELY_SOURCE_FLAG_INDEX = Ok d0 /\
    get_flag_index_deltas s TIMELY_TARGET_FLAG_INDEX = Ok d1 /\
    get_flag_index_deltas s TIMELY_HEAD_FLAG_INDEX = Ok d2 /\
    get_inactivity_penalty_deltas s = Ok dp /\
    process_rewards_and_penalties s =
      (set_balances (foldl apply_deltas (balances s) [d0; d1; d2; dp]) s, Ok tt).
Proof. apply process_rewards_Ok. Qed.

(** the three ways of counting who took part in an epoch agree: the mask, the set of
    indices and its total balance, and the balances summed chunk by chunk. *)
Theorem participation_counts_agree s flag epoch :
  shape s -> recent_epoch s epoch -> get_previous_epoch s <> get_current_epoch s ->
  exists mask balance indices,
    get_unslashed_participating_mask s flag epoch = Ok (mask, balance) /\
    get_unslashed_participating_indices s flag epoch = Ok indices /\
    get_total_balance s indices = Ok balance /\
    (forall i, i ∈ indices <-> 0 <= i /\ mask !! Z.to_nat i = Some true) /\
    (if epoch =? get_current_epoch s then snd else fst) (get_unslashed_participating_balances s flag) = balance.
Proof.
  intros Hs Hr Hne. pose proof (participation_length s epoch Hs) as Hl.
  eexists _, _, _. split_and!; [by apply mask_Ok|by apply indices_Ok|by apply participating_total| |].
  - intros i. rewrite elem_of_list_to_set, elem_of_kept. setoid_rewrite list_lookup_fmap_Some. naive_solver.
  - rewrite balances_Ok by (apply Hs || done). destruct Hr as [->| ->]; [|by rewrite Z.eqb_refl].
    by rewrite (proj2 (Z.eqb_neq _ _)).
Qed.

(** however many exits are scheduled in a row, the balance that leaves is what the epochs
    from the first to the last assigned offer, less what is left, and the epochs
    assigned do not decrease. *)
Theorem exit_churn_conserved bals s :
  Forall (fun b => 0 <= b) bals -> churn_room s (sumZ bals) ->
  exists s' es, exits bals s = (s', Ok es) /\
    sumZ bals + exit_left s' = (exit_start s' - exit_start s) * exit_churn s + exit_left s /\
    0 <= exit_left s' /\ exit_churn s' = exit_churn s /\
    MIN_PER_EPOCH_CHURN_LIMIT_ELECTRA <= exit_churn s <= MAX_PER_EPOCH_ACTIVATION_EXIT_CHURN_LIMIT /\
    StronglySorted Z.le es /\ Forall (fun e => exit_start s <= e <= exit_start s') es.
Proof.
  intros Hb Hr. destruct (exits_Ok bals s Hb Hr) as (s' & es & E & H1 & H2 & H3 & H4 & H5 & H6).
  exists s', es. split_and!; try done; apply exit_churn_bounds.
Qed.

(** ** Registry, committees and shuffling *)

(** searching the registry chunk by chunk for several keys, comparing a prefix first,
    finds for each key the first validator that has it. *)
Theorem find_validator_indices_first s keys k i :
  find_validator_indices s keys !! k = Some i <->
  k ∈ keys /\ (exists v, validators s !! i = Some v /\ public_key v = k) /\
  forall j v, (j < i)%nat -> validators s !! j = Some v -> public_key v <> k.
Proof.
  rewrite find_validator_indices_spec. case_bool_decide as Hk; [rewrite first_index_Some; naive_solver|naive_solver].
Qed.

(** C33: shuffling a whole list gives at each index the element that shuffling the index
    alone points to, and is a permutation. *)
Theorem shuffled_list_agrees seed l :
  Z.of_nat (length l) < 2 ^ 62 ->
  exists l', compute_shuffled_list l seed = Ok l' /\ l' ≡ₚ l /\
    forall i, (i < length l)%nat -> exists j,
      compute_shuffled_index (Z.of_nat i) (Z.of_nat (length l)) seed = Ok j /\ l' !! i = l !! Z.to_nat j.
Proof.
  intros Hl. destruct (compute_shuffled_list_spec seed l Hl) as (l' & E & _ & Hi). exists l'.
  split_and!; [done|by eapply compute_shuffled_list_perm|]. intros i Hlt.
  destruct (compute_shuffled_index_spec (Z.of_nat (length l)) seed (Z.of_nat i)) as [Ei _]; [lia..|]. eauto.
Qed.

(** every validator active in an epoch has exactly one committee, in one slot, and its
    assignment is that committee; the others have none. *)
Theorem one_committee_per_epoch s e v :
  length (randao_mixes s) = Z.to_nat EPOCHS_PER_HISTORICAL_VECTOR ->
  Z.of_nat (length (validators s)) <= 2 ^ 40 ->
  0 <= slot s < 2 ^ 63 -> 0 <= e <= get_current_epoch s + 1 ->
  exists r, get_committee_assignment s e v = Ok r /\
    (r = None <-> v ∉ get_active_validator_indices s e) /\
    forall c i sl, r = Some (c, i, sl) ->
      compute_epoch_at_slot sl = e /\ get_beacon_committee s sl i = Ok c /\ v ∈ c /\
      forall n sl' i' c', get_committee_count_per_slot s e = Ok n ->
        compute_epoch_at_slot sl' = e -> 0 <= i' < n ->
        get_beacon_committee s sl' i' = Ok c' -> v ∈ c' -> sl' = sl /\ i' = i.
Proof. apply committee_assignment_Ok. Qed.

(** drawing a sync committee when no validator is active in the next epoch divides by
    zero, while drawing a proposer from no candidates reports an error. *)
Theorem no_active_validator_panics s seed :
  candidate_fuel <> 0%nat -> shape s ->
  get_active_validator_indices s (get_current_epoch s + 1)%u64 = [] ->
  get_next_sync_committee s = Panic /\
  exists err, compute_proposer_index s (get_active_validator_indices s (get_current_epoch s + 1)%u64) seed = Err err.
Proof.
  intros Hf Hs Ha. split; [|rewrite Ha; by eexists].
  unfold get_next_sync_committee, get_next_sync_committee_indices. rewrite Ha.
  pose proof (sh_mixes s Hs) as Hm.
  assert (exists sd, get_seed s (get_current_epoch s + 1)%u64 DOMAIN_SYNC_COMMITTEE = Ok sd) as [sd ->].
  { unfold get_seed, get_randao_mix. edestruct (index_returns (E := anyhow) (randao_mixes s)) as [m Em];
      [|rewrite Em; by eexists]. by apply mod_lt_length. }
  cbn [mbind res_bind]. by destruct candidate_fuel.
Qed.

(** ** Arithmetic and Merkle proofs *)

(** the integer square root ends with the floor of the root, for every 64-bit number. *)
Theorem integer_squareroot_floor n : is_u64 n -> integer_squareroot n = Ok (Z.sqrt n).
Proof. apply integer_squareroot_sqrt. Qed.

(** C34: a proof generated from a Merkle tree verifies against the recursively defined root
    of its leaves; and any other branch that verifies at the index starts from the same
    leaf, or hashes at one of its levels a string that collides with the one of the proof. *)
Theorem merkle_proof_roundtrip leaves (d : nat) i leaf :
  (d < 62)%nat -> (length leaves <= 2 ^ d)%nat -> Forall word32 leaves -> 0 <= i -> leaves !! Z.to_nat i = Some leaf ->
  exists tree proof,
    merkle_tree leaves (Z.of_nat d) = Ok tree /\ generate_proof tree i (Z.of_nat d) = Ok proof /\
    is_valid_merkle_branch leaf proof (Z.of_nat d) i (merkle_ref d leaves) = Ok true /\
    forall leaf' branch, word32 leaf' -> Forall word32 branch ->
      is_valid_merkle_branch leaf' branch (Z.of_nat d) i (merkle_ref d leaves) = Ok true ->
      leaf' = leaf \/ branches_collide leaf' branch leaf proof i.
Proof.
  intros Hd Hl Hw Hi Hleaf. destruct (merkle_tree_root leaves d Hd Hl) as (tree & E & Ht & H0 & Hr).
  assert (0 <= i < 2 ^ Z.of_nat d) as Hi'.
  { apply lookup_lt_Some in Hleaf. rewrite <-(Z2Nat.id (2 ^ Z.of_nat d)), pow_nat by lia. lia. }
  exists tree, (sibling_at tree d i <$> seq 0 d).
  pose proof (branch_prefix tree d i d Ht Hd Hi' ltac:(lia)) as Hb. rewrite H0, Hr, Hleaf in Hb by done.
  split_and!; [done|by apply generate_proof_Ok|apply branch_valid_root; [by rewrite length_fmap, length_seq|exact Hb]|].
  intros leaf' branch Hw1 Hw2 Hv. unfold is_valid_merkle_branch in Hv. case_match; [done|].
  apply bind_Ok in Hv as (r & Er & Hv). injection Hv as Hv. apply bool_decide_eq_true in Hv. subst r.
  refine (branch_binding _ _ _ _ _ _ _ hash_length Hw1 _ Hw2 _ Er Hb).
  - rewrite Forall_forall in Hw. by eapply Hw, list_elem_of_lookup_2.
  - eapply siblings_word; [exact hash_length|exact Hw|lia|done|done|done].
Qed.

(** the proof of the finalized root, which goes through the finalized checkpoint, has
    depth seven and verifies against the state root. *)
Theorem finalized_root_proof_verifies {RL : RootsLaws H R} s :
  roots_are_32_bytes s ->
  exists proof, finalized_root_inclusion_proof s = Ok proof /\ length proof = 7%nat /\
    is_valid_merkle_branch (cp_root (finalized_checkpoint s)) proof 7 41 (state_root s) = Ok true.
Proof. apply finalized_root_proof. Qed.
End theorems.

(** ** Instances *)

Import BeaconEx.
#[local] Existing Instances sha sha_laws vec vec_laws bls bls_total roots roots_laws network fuel order.
#[local] Instance order_laws : HashOrderLaws order := gmap_order_laws.


Lemma finality_never_reverts_witness :
  exists s', state_transition_from_root good_block true None None (state 70 0) = (s', Ok tt) /\ ffg_ordered s'.
Proof.
  eexists. split; [exact good_block_accepted|].
  eapply (finality_never_reverts good_block true None None (state 70 0)).
  - by split.
  - done.
  - done.
  - exact good_block_accepted.
Defined.

(** All flags set: both validators voted for the target of both epochs. *)
Lemma justification_is_ffg_witness :
  epoch_end (state 95 7) /\ ffg_ordered (state 95 7) /\
  exists pr cr, process_justification_and_finalization (state 95 7) =
    (apply_justification_and_finalization (ffg_step (state 95 7) pr cr) (state 95 7), Ok tt) /\
    cp_epoch (jf_current_justified_checkpoint (ffg_step (state 95 7) pr cr)) = 2.
Proof.
  assert (epoch_end (state 95 7)) as He by (split; [apply state_shape|done|done|done]).
  assert (ffg_ordered (state 95 7)) as Ho by by split.
  split_and!; [done..|].
  destruct (justification_is_ffg (state 95 7) He Ho) as (pr & cr & _ & _ & E). exists pr, cr. split; [exact E|done].
Defined.

Lemma replay_agrees_witness :
  exists s', state_transition_from_root good_block true None None (state 70 0) = (s', Ok tt) /\
    replay_block good_block None (state 70 0) = (s', Ok tt).
Proof.
  eexists. split; [exact good_block_accepted|]. apply (replay_agrees good_block None None (state 70 0)).
  exact good_block_accepted.
Defined.

Lemma keeping_epoch_start_agrees_witness :
  state_transition_from_root good_block true None None (state 20 0) =
  (state_transition_keeping_epoch_start good_block true None None;; mret tt) (state 20 0).
Proof. by apply (keeping_epoch_start_agrees good_block true None None (state 20 0)). Defined.

Lemma withdrawals_within_balances_witness :
  withdrawals_ready (state 70 0) /\
  exists ws n, get_expected_withdrawals (state 70 0) = Ok (ws, n) /\ (length ws <= 16)%nat.
Proof.
  assert (withdrawals_ready (state 70 0)) as Hr.
  { split; [apply state_shape|by repeat constructor|constructor|done|done|done]. }
  split; [done|].
  destruct (withdrawals_within_balances (state 70 0) (execution_payload body) Hr) as (ws & n & E & Hl & _).
  exists ws, n. split; [exact E|exact Hl].
Defined.

Lemma rewards_are_deltas_witness :
  get_current_epoch (state 70 3) <> GENESIS_EPOCH /\
  exists l, process_rewards_and_penalties (state 70 3) = (set_balances l (state 70 3), Ok tt).
Proof.
  assert (get_current_epoch (state 70 3) <> GENESIS_EPOCH) as He by done. split; [done|].
  destruct (rewards_are_deltas (state 70 3)) as (d0 & d1 & d2 & dp & _ & _ & _ & _ & E).
  - apply state_shape.
  - by repeat constructor.
  - done.
  - eexists. exact E.
Defined.

Lemma participation_counts_agree_witness :
  exists indices, get_unslashed_participating_indices (state 70 2) TIMELY_TARGET_FLAG_INDEX 1 = Ok indices /\
    get_total_balance (state 70 2) indices = Ok 64000000000.
Proof.
  destruct (participation_counts_agree (state 70 2) TIMELY_TARGET_FLAG_INDEX 1) as (m & b & l & E1 & E2 & E3 & _).
  - apply state_shape.
  - by left.
  - done.
  - exists l. split; [done|]. rewrite E3. f_equal. vm_compute in E1. by injection E1.
Defined.

Lemma exit_churn_conserved_witness :
  churn_room (state 70 0) (sumZ [32000000000; 200000000000]) /\
  exists s' es, exits [32000000000; 200000000000] (state 70 0) = (s', Ok es) /\ StronglySorted Z.le es.
Proof.
  assert (churn_room (state 70 0) (sumZ [32000000000; 200000000000])) as Hr by by split.
  split; [done|].
  destruct (exit_churn_conserved [32000000000; 200000000000] (state 70 0)) as (s' & es & E & _ & _ & _ & _ & Hs & _).
  - by repeat constructor.
  - done.
  - exists s', es. split; [exact E|exact Hs].
Defined.

Lemma shuffled_list_agrees_witness :
  exists l', compute_shuffled_list [10; 20; 30; 40; 50] (word 9) = Ok l' /\ l' ≡ₚ [10; 20; 30; 40; 50].
Proof.
  destruct (shuffled_list_agrees (word 9) [10; 20; 30; 40; 50]) as (l' & E & Hp & _); [done|].
  exists l'. split; [exact E|exact Hp].
Defined.

Lemma one_committee_per_epoch_witness :
  exists r, get_committee_assignment (state 70 0) 2 1 = Ok r /\ (r = None <-> 1 ∉ get_active_validator_indices (state 70 0) 2).
Proof.
  destruct (one_committee_per_epoch (state 70 0) 2 1) as (r & E & Hr & _).
  - apply length_replicate.
  - done.
  - done.
  - done.
  - exists r. split; [exact E|exact Hr].
Defined.

(** Both validators have exited by the next epoch. *)
Definition exited_state : BeaconState := set_validators (set_exit_epoch 1 <$> [validator 1; validator 2]) (state 70 0).

Lemma no_active_validator_panics_witness : get_next_sync_committee exited_state = Panic.
Proof.
  destruct (no_active_validator_panics exited_state (word 0)) as [E _].
  - done.
  - destruct (state_shape 70 0) as [H1 H2 H3 H4 H5 H6 H7 H8 H9 H10 H11 H12 H13 H14 H15].
    exact (mkShape exited_state H1 H2 H3 H4 H5 H6 ltac:(cbn; by repeat constructor) H8 H9 H10 H11 H12 H13 H14 H15).
  - done.
  - exact E.
Defined.

Lemma integer_squareroot_floor_witness : integer_squareroot 64000000000 = Ok 252982.
Proof. rewrite (integer_squareroot_floor 64000000000); [done|]. done. Defined.

Lemma merkle_proof_roundtrip_witness :
  exists tree proof, merkle_tree [word 1; word 2; word 3] 2 = Ok tree /\ generate_proof tree 1 2 = Ok proof /\
    is_valid_merkle_branch (word 2) proof 2 1 (merkle_ref 2 [word 1; word 2; word 3]) = Ok true.
Proof.
  destruct (merkle_proof_roundtrip [word 1; word 2; word 3] 2 1 (word 2)) as (tree & proof & E1 & E2 & E3 & _).
  - lia.
  - cbn. lia.
  - by repeat constructor.
  - done.
  - done.
  - exists tree, proof. split_and!; [exact E1|exact E2|exact E3].
Defined.

Lemma finalized_root_proof_verifies_witness :
  exists proof, finalized_root_inclusion_proof (state 70 0) = Ok proof /\
    is_valid_merkle_branch B256_ZERO proof 7 41 (state_root (state 70 0)) = Ok true.
Proof.
  destruct (finalized_root_proof_verifies (state 70 0)) as (proof & E & _ & Hv).
  - repeat constructor.
  - exists proof. split; [exact E|exact Hv].
Defined.
