(* ===== verification/BeaconStoreTheorems.v ===== *)
(** * Theorems about the beacon fork choice

    The properties of the fork choice tree, the store around it, the table of latest
    messages and the pools, each followed by an instance on the chain of
    [BeaconConcrete.v]. *)

From stdpp Require Import strings.
From S2P Require Import Prelude StateMonad Redb Bytes Shuffling Merkle BeaconTypes BeaconAccess BeaconMutate BeaconEpoch BeaconBlockOps BeaconTransition BeaconFacts LatestMessages BeaconDb ForkTree ForkTreeFacts ForkTreeWeights ForkTreeInvariant ForkTreeBlocks ForkTreeSpec DataAvailability OperationPool SyncCommitteePool BeaconStore BeaconHandlers BeaconWalks BeaconSync BeaconSteps BeaconStoreFacts BeaconBuild BeaconRuns BeaconConcrete.

Section theorems.
Context {RD : Redb} {RDL : RedbLaws RD} {RM : RedbMulti} {RML : RedbMultiLaws RM}.
Context {H : Sha256} {HLaw : Sha256Laws H} {F : CandidateFuel} {HO : HashOrder} {HOL : HashOrderLaws HO}.
Context {SV : SszVec} {SVL : SszVecLaws SV}.
Context {R : Roots} {B : Bls} {N : BeaconNetworkSpec}.
Context {BA : BlsAggregate} {TH : TreeHash SignedBLSToExecutionChange} {FS : ForkChoiceSpec} {BH : TreeHash BeaconBlock}.

(** ** The tree *)

(** C6: the head the tree caches is the one LMD-GHOST reaches: after any sequence of votes,
    slashings, boosts, balances, contexts, blocks and prunings the cached head is the one
    block that going from the justified block to the viable child with the most support,
    the greatest root among equals, ends in. *)
Theorem tree_head_is_ghost anchor context t ops :
  tree_new anchor context = Ok t -> ops_ok t ops ->
  let t' := after_ops t ops in
  forall h, ghost t' (cp_root (vc_justified_checkpoint (ft_context t'))) h <-> h = tree_head t'.
Proof.
  intros E Hok t' h. destruct (tree_new_inv anchor context) as (t0 & E0 & I & _). assert (t0 = t) as -> by congruence.
  pose proof (after_ops_inv ops t I Hok) as I'. pose proof (head_ghost _ I') as Hg. fold t' in Hg. split; [|by intros ->].
  intros Hh. by eapply ghost_det.
Qed.

(** C17: the tree keeps its type: after any sequence of operations the nodes are a tree under
    its root, every weight is a 64-bit number, the support of the block exactly, and the
    next operation ends with a tree or, for a block or a pruning the code refuses, an
    error: it never panics. *)
Theorem tree_well_typed anchor context t ops op :
  tree_new anchor context = Ok t -> ops_ok t (ops ++ [op]) ->
  let t' := after_ops t ops in
  forest (ft_root t') (ft_nodes t') /\
  (forall x n, ft_nodes t' !! x = Some n -> is_u64 (fn_weight n) /\ fn_weight n = support t' x) /\
  match run_op t' op with
  | Ok t2 => forest (ft_root t2) (ft_nodes t2)
  | Err _ => op_rejected t' op
  | _ => False
  end.
Proof.
  intros E Hok t'. destruct (tree_new_inv anchor context) as (t0 & E0 & I & _). assert (t0 = t) as -> by congruence. clear E0.
  apply ops_ok_snoc in Hok as [Hok Hop]. fold t' in Hop. assert (tree_inv t') as I' by (by apply after_ops_inv).
  split_and!; [apply I'| |].
  - intros x n Hx. pose proof (fn_weight_support t' I' x n Hx) as Ew. split; [|done]. rewrite Ew.
    destruct (own_weight_bounds t' (ft_nodes t') (ti_votes _ I') (ti_supply _ I') (ti_boost _ I')) as [H0 Ht].
    destruct (subtree_weight_bounds (ft_nodes t') (own_weight t') x) as [B1 B2]; [auto|]. unfold support, is_u64. lia.
  - destruct (run_op_spec t' op I' Hop) as [(t2 & -> & I2)|(Hr & e & ->)]; [apply I2|done].
Qed.

(** ** The store *)

(** C7: the head of the tree is the head the specification computes from the database: in a
    store in step with its tree, the walk over the stored blocks, votes and checkpoints
    gives the head the tree has cached, and so does the store after losing its tree. *)
Theorem database_head_agrees s t :
  st_fork_choice s = Some t -> synced s t -> is_Some (ft_nodes t !! cp_root (vc_justified_checkpoint (ft_context t))) ->
  get_head s = Ok (tree_head t) /\ get_head_from_db s = Ok (tree_head t) /\
  get_head (st_set_fork_choice None s) = Ok (tree_head t).
Proof.
  intros Ht Sy Hj. destruct (in_step_head s) as (t' & Ht' & Hh); [by exists t|]. assert (t' = t) as -> by congruence. by apply Hh.
Qed.



(** a batch of attestations leaves for each validator the vote of the newest target, the
    earliest in the batch among equals, and none for those that equivocated; or, when the
    database refuses it, changes nothing. *)
Theorem votes_are_newest s t now l s' r :
  st_fork_choice s = Some t -> synced s t -> fresh_votes (st_db s) l -> update_latest_messages_batch now l s = (s', r) ->
  (r = Ok tt /\ in_step s' /\
   lm_view (bd_messages (st_db s')) = note_votes (ft_equivocating t) (lm_view (bd_messages (st_db s))) l) \/
  (s' = s /\ exists e, r = Err e).
Proof. apply votes_in_step. Qed.

(** the walk to the ancestor at a slot, by way of the tree where it can, ends with the
    block at or before the slot that the walk over the database alone ends with. *)
Theorem ancestors_agree s lo slot x :
  linked (st_db s) lo -> tree_ok s lo -> lo <= slot -> is_Some (block_at (st_db s) x) ->
  exists a, get_ancestor s x slot = Ok a /\ get_ancestor_from_db (st_db s) x slot = Ok a /\ db_anc (st_db s) slot x a.
Proof.
  intros Hl Ht Hs Hx. destruct (get_ancestor_spec s lo slot x Hl Ht Hs Hx) as (a & E & Ha). exists a.
  split_and!; [done| |done]. by eapply get_ancestor_from_db_spec.
Qed.

(** C14: the checkpoints of the store never go back: whatever the handlers are called with, in
    whatever order, and however they end, the justified and finalized epochs of the
    database do not decrease, the unrealized ones neither. *)
Theorem store_checkpoints_monotone s ops c :
  stored_checkpoints (st_db s) = Some c ->
  exists c', stored_checkpoints (st_db (after_store_ops ops s)) = Some c' /\
    cp_epoch (ck_justified c) <= cp_epoch (ck_justified c') /\ cp_epoch (ck_finalized c) <= cp_epoch (ck_finalized c') /\
    cp_epoch (ck_unrealized_justified c) <= cp_epoch (ck_unrealized_justified c') /\
    cp_epoch (ck_unrealized_finalized c) <= cp_epoch (ck_unrealized_finalized c').
Proof. intros E. apply (after_store_ops_at_least c). by exists c. Qed.

(** C28: [on_tick] catches up slot by slot: with the clock in range it is one tick at the start
    of every slot missed, in order, and one at the time given; the loop ends. *)
Theorem on_tick_catches_up now time s genesis current :
  bd_genesis_time (st_db s) = Some genesis -> get_current_slot s = Ok current -> 0 <= current ->
  in_time genesis (get_slots_since_genesis_at time genesis) slot_duration_ms -> genesis <= time ->
  on_tick now time s =
    (forM (seqZ (current + 1) (get_slots_since_genesis_at time genesis - current))
       (fun k => on_tick_per_slot now (get_time_at_slot genesis k));;
     on_tick_per_slot now time) s.
Proof. apply on_tick_slots. Qed.

(** recording a finalized block ends, with every stored ancestor of it entered at its own
    slot and the other slots as they were, when slots fall along the ancestry and what is
    recorded already has its ancestry recorded. *)
Theorem finalized_chain_recorded d root :
  falling d root ->
  (forall a b, descends d root a -> block_at d a = Some b -> rd_get (bd_canonical d) (b_slot b) = Some a ->
     recorded d (bd_canonical d) a) ->
  exists canonical, record_finalized root d = Ok (bd_set_canonical canonical d) /\
    (forall a b, descends d root a -> block_at d a = Some b -> rd_get canonical (b_slot b) = Some a) /\
    forall k, (forall a b, descends d root a -> block_at d a = Some b -> b_slot b <> k) ->
      rd_get canonical k = rd_get (bd_canonical d) k.
Proof.
  intros Hf Ht. destruct (record_loop_spec d _ root (bd_canonical d) (le_n _) Hf Ht) as (c & E & Hr & Hk).
  exists c. split_and!; [|exact Hr|exact Hk]. unfold record_finalized. by rewrite E.
Qed.

(** ** The latest messages *)

(** C22: the table of latest messages, part of it pending in memory while a thread writes it to
    the database chunk by chunk, is one map: every step does to the map what its caller
    asked and the writer's steps nothing, a bulk read against a later snapshot gives the
    map of its start, and a single read that looks into the database later gives what the
    map held at some point in between. *)
Theorem latest_messages_linearizable w ws w' :
  writer_inv w -> run w ws w' ->
  writer_inv w' /\
  (forall e w2, step e w' w2 -> view w2 = effect e (view w')) /\
  (forall w2, rtc commit w' w2 -> w_messages w' ∪ rd_view (w_db w2) = view w') /\
  (forall key, exists w1, w1 ∈ ws /\ read_later w w' key = view w1 !! key).
Proof.
  intros I Hr. assert (writer_inv w') as I' by (clear -Hr I RDL HOL; induction Hr; [done|eapply step_inv; eauto]).
  split_and!; [done| | |].
  - intros e w2 Hs. by apply step_view.
  - intros w2 Hc. by apply commits_view.
  - intros key. by apply read_later_seen.
Qed.

(** ** The pools *)

(** C38: a block is handed to the import exactly when it is there with every required column,
    or needs none, in whatever order blocks and columns came; and only once. *)
Theorem available_in_any_order {State : Type} (c : DataAvailabilityChecker (State := State)) root l :
  da_entries c !! root = None ->
  (take_if_complete root (foldl arrive c l)).2 =
    match block_of root l with
    | Some pb => if decide (blob_kzg_commitments (b_body (sb_message (pb_signed_block pb))) = [] \/
                            da_required_columns c ⊆ columns_of root l) then Some pb else None
    | None => None
    end /\
  forall c' pb, take_if_complete root (foldl arrive c l) = (c', Some pb) -> (take_if_complete root c').2 = None.
Proof.
  intros Hc. split; [by apply take_complete|]. intros c' pb E. destruct (take_once _ _ _ _ E) as (_ & Hs & _).
  unfold status in Hs. unfold take_if_complete. destruct (da_entries c' !! root) as [entry|]; [|done].
  destruct (is_complete c' entry); [done|]. by destruct (pa_pending_block entry).
Qed.

(** C39: an aggregate of the pool's attestations for a block has the votes of attestations of
    the pool, no vote twice, and its signature is the aggregate of theirs; every
    attestation of the group that has something new shares a vote with one of them. *)
Theorem aggregates_count_once first rest included :
  exists chosen bits,
    chosen `sublist_of` (first :: rest) /\ NoDup (mjoin ((fun a => set_positions (aggregation_bits a)) <$> chosen)) /\
    (forall i, bits !! i = Some true <-> exists a, a ∈ chosen /\ i ∈ set_positions (aggregation_bits a)) /\
    (forall a, a ∈ first :: rest -> useful (committee_bits first) included (length (aggregation_bits first)) a ->
       exists b i, b ∈ chosen /\ i ∈ set_positions (aggregation_bits a) /\ i ∈ set_positions (aggregation_bits b)) /\
    aggregate_attestation_group (first :: rest) included =
      if decide (chosen = []) then None
      else signature ← aggregate_signatures (att_signature <$> chosen);
           Some (mkAttestation bits (att_data first) signature (committee_bits first)).
Proof.
  destruct (aggregate_group first rest included) as (chosen & g & M & Hsub & Hu & E). exists chosen, (g_bits g).
  split_and!; [done|apply M|apply M|done|done].
Qed.

(** aggregating messages of a sync committee, however many batches there are, leaves no
    member in two contributions of a key, and no bit string of another length. *)
Theorem sync_members_once batches max key l :
  sp_contributions (foldl (fun p (k : Z * B256 * Z * list (SyncCommitteeMessage * nat)) =>
    aggregate_messages k.1.1.1 k.1.1.2 k.1.2 k.2 p) (sync_pool_new max) batches) !! key = Some l -> counted_once l.
Proof.
  assert (pool_ok (sync_pool_new max)) as H0 by (intros k l0 Hk; cbn in Hk; by rewrite lookup_empty in Hk). revert H0.
  generalize (sync_pool_new max). induction batches as [|k batches IH]; intros p Hp; cbn [foldl]; [by apply Hp|].
  apply IH. by apply aggregate_messages_ok.
Qed.
End theorems.

(** ** Instances *)

Module BeaconStoreEx.
Import BeaconEx.

(** A signature scheme of lists, roots by slot, and a slot of twelve seconds. *)
Definition aggregates : BlsAggregate := fun l => Some (mkBLSSignature (concat (sig_inner <$> l))).
Definition change_root : TreeHash SignedBLSToExecutionChange := fun _ => word 0.
Definition block_root : TreeHash BeaconBlock := fun b => word (b_slot b).
Definition fork_choice_spec : ForkChoiceSpec := {|
  slot_duration_ms := 12000; attestation_due_bps := 3333; proposer_reorg_cutoff_bps := 1667;
  min_epochs_for_data_column_sidecars_requests := 4096;
|}.
#[export] Existing Instances gmap_redb gmap_redb_laws gmap_multi gmap_multi_laws.
#[export] Existing Instances sha sha_laws vec vec_laws bls bls_total roots network fuel order.
#[export] Existing Instances aggregates change_root block_root fork_choice_spec.
#[export] Instance beacon_order_laws : HashOrderLaws order := gmap_order_laws.

(** ** A store *)

Definition empty_db : BeaconDB :=
  mkBeaconDB rd_empty rd_empty mm_empty rd_empty rd_empty rd_empty rd_empty rd_empty (mkLatestMessagesTable rd_empty None true)
    ∅ None None None None None None None None None.
Definition anchor_state : BeaconState := state 70 0.
Definition anchor : SignedBeaconBlock :=
  mkSignedBeaconBlock (mkBeaconBlock 64 1 (word 3) (state_root anchor_state) body) infinity.
Definition anchor_root : B256 := word 64.
Definition ex_db : BeaconDB := anchored_db anchor_state anchor empty_db.

Lemma empty_db_fresh : fresh_db empty_db.
Proof. split_and!; [done|done|]. by vm_compute. Qed.

Definition balances : ForkChoiceBalances := mkForkChoiceBalances [32000000000; 32000000000] 800000000.
Lemma anchor_is_ok : anchor_ok anchor_state anchor balances.
Proof.
  split_and!; [by vm_compute|by vm_compute|by vm_compute|]. split_and!; [by repeat constructor|done|done].
Qed.

Definition checker : DataAvailabilityChecker (State := BeaconState) := mkDataAvailabilityChecker ∅ {[ 0; 1 ]}.
Definition ex_store : Store := mkStore ex_db checker pool_default sync_pool_default None backoff_new [] None.

Abbreviation started := (get_forkchoice_store anchor_state anchor empty_db).

Definition double_vote (root : B256) : IndexedAttestation :=
  mkIndexedAttestation [0] (mkAttestationData 70 0 root (mkCheckpoint 1 B256_ZERO) (mkCheckpoint 2 anchor_root))
    (mkBLSSignature (pk_inner (key 1))).
Definition ex_slashing : AttesterSlashing := mkAttesterSlashing (double_vote anchor_root) (double_vote (word 5)).

(** The store starts with the anchor in its tree, and accepts the slashing. *)
Lemma started_checked :
  match started with
  | Ok s => bool_decide ((fun t => bool_decide (is_Some (ft_nodes t !! cp_root (vc_justified_checkpoint (ft_context t))))) <$> st_fork_choice s = Some true)
            && is_ok (on_attester_slashing ex_slashing s).2
  | _ => false
  end = true.
Proof. vm_compute. reflexivity. Qed.
End BeaconStoreEx.

Import BeaconEx BeaconStoreEx.

(** Two children of the anchor, one of them voted for, then boosted, then the finalized root. *)
Definition ex_checkpoint : Checkpoint := mkCheckpoint 0 (word 1).
Definition tree_anchor : ForkChoiceBlock := mkForkChoiceBlock (word 1) (word 0) 0 ex_checkpoint ex_checkpoint.
Definition tree_child (r s : Z) : ForkChoiceBlock := mkForkChoiceBlock (word r) (word 1) s ex_checkpoint ex_checkpoint.
Definition tree_context : ViabilityContext := mkViabilityContext ex_checkpoint ex_checkpoint 0.
Definition tree_ops : list tree_op :=
  [OpBalances ex_checkpoint [32; 32] 10; OpInsert (tree_child 2 1); OpInsert (tree_child 3 2); OpVotes [(0, word 2)];
   OpBoost (Some (word 3)); OpVotes [(1, word 3)]; OpEquivocating [1]].

Lemma tree_ops_ok t : tree_new tree_anchor tree_context = Ok t -> ops_ok t (tree_ops ++ [OpPrune (word 2)]).
Proof.
  intros E. vm_compute in E. injection E as <-. cbn [app tree_ops ops_ok]. split_and!; try (by vm_compute).
  - split_and!; [by repeat constructor|done|done].
  - by repeat constructor.
  - by repeat constructor.
Qed.

Lemma tree_head_is_ghost_witness :
  exists t, tree_new tree_anchor tree_context = Ok t /\ ghost (after_ops t tree_ops) (word 1) (word 2).
Proof.
  destruct (tree_new tree_anchor tree_context) as [t| | |] eqn:E; [|by vm_compute in E..]. exists t. split; [done|].
  destruct (ops_ok_snoc _ _ _ (tree_ops_ok t E)) as [Hok _].
  pose proof (tree_head_is_ghost tree_anchor tree_context t tree_ops E Hok (word 2)) as [_ Hg].
  vm_compute in E. injection E as <-. apply Hg. by vm_compute.
Defined.

Lemma tree_well_typed_witness :
  exists t, tree_new tree_anchor tree_context = Ok t /\ forest (ft_root (after_ops t tree_ops)) (ft_nodes (after_ops t tree_ops)).
Proof.
  destruct (tree_new tree_anchor tree_context) as [t| | |] eqn:E; [|by vm_compute in E..]. exists t. split; [done|].
  destruct (tree_well_typed tree_anchor tree_context t tree_ops (OpPrune (word 2)) E (tree_ops_ok t E)) as (Hf & _ & _). exact Hf.
Defined.

Lemma database_head_agrees_witness : exists s t, started = Ok s /\ st_fork_choice s = Some t /\ get_head_from_db s = Ok (tree_head t).
Proof.
  pose proof started_checked as Hc. destruct started as [s| | |] eqn:E; [|discriminate..]. apply andb_true_iff in Hc as [Hc _].
  destruct (start_in_step empty_db anchor_state anchor BeaconStoreEx.balances s empty_db_fresh anchor_is_ok E) as [(t & Ht & Sy) _].
  exists s, t. split_and!; [reflexivity|exact Ht|]. apply (database_head_agrees s t Ht Sy). rewrite Ht in Hc.
  apply bool_decide_eq_true in Hc. injection Hc as Hc. by apply bool_decide_eq_true in Hc.
Defined.


Lemma ex_buildable : exists e, buildable ex_store (mkCheckpoint 2 anchor_root) (mkCheckpoint 2 anchor_root) e BeaconStoreEx.balances (sb_message anchor).
Proof. exact (anchored_buildable empty_db anchor_state anchor BeaconStoreEx.balances ex_db pool_default checker sync_pool_default empty_db_fresh anchor_is_ok (anchored_db_spec _ _ _)). Qed.


Definition ex_attestation : Attestation :=
  mkAttestation [true; false] (mkAttestationData 70 0 anchor_root (mkCheckpoint 1 B256_ZERO) (mkCheckpoint 2 anchor_root))
    (mkBLSSignature [1]) [true].

Lemma votes_are_newest_witness : exists s s' r, started = Ok s /\
  update_latest_messages_batch 5 [([0], ex_attestation)] s = (s', r) /\ (in_step s' \/ s' = s).
Proof.
  pose proof started_checked as Hc. destruct started as [s| | |] eqn:E; [|discriminate..]. clear Hc.
  destruct (start_in_step empty_db anchor_state anchor BeaconStoreEx.balances s empty_db_fresh anchor_is_ok E) as [(t & Ht & Sy) Ed].
  destruct (update_latest_messages_batch 5 [([0], ex_attestation)] s) as [s' r] eqn:Eu. exists s, s', r.
  split_and!; [reflexivity|exact Eu|].
  destruct (votes_are_newest s t 5 [([0], ex_attestation)] s' r Ht Sy) as [(_ & Hs & _)|[Hs _]]; [|exact Eu|left; exact Hs|right; exact Hs].
  intros ix a Hin. apply list_elem_of_singleton in Hin. injection Hin as -> ->. split; [by repeat constructor|]. rewrite Ed.
  eexists. rewrite (anchored_block empty_db anchor_state anchor); [|exact empty_db_fresh|apply anchored_db_spec].
  rewrite decide_True; reflexivity.
Defined.

Lemma ancestors_agree_witness : exists a, get_ancestor ex_store anchor_root 70 = Ok a /\ get_ancestor_from_db ex_db anchor_root 70 = Ok a.
Proof.
  destruct ex_buildable as (e & Bl). destruct (ancestors_agree ex_store 64 70 anchor_root) as (a & E1 & E2 & _).
  - exact (bl_linked _ _ _ _ _ _ Bl).
  - done.
  - done.
  - eexists. exact (bl_root _ _ _ _ _ _ Bl).
  - exists a. split; [exact E1|exact E2].
Defined.

Lemma store_checkpoints_monotone_witness :
  exists c', stored_checkpoints (st_db (after_store_ops [OpTick 0 900; OpSlashing ex_slashing] ex_store)) = Some c' /\
  2 <= cp_epoch (ck_finalized c').
Proof.
  destruct (store_checkpoints_monotone ex_store [OpTick 0 900; OpSlashing ex_slashing]
    (mkStoredCheckpoints (mkCheckpoint 2 anchor_root) (Some (mkCheckpoint 2 anchor_root)) (mkCheckpoint 2 anchor_root)
       (mkCheckpoint 2 anchor_root) (mkCheckpoint 2 anchor_root))) as (c' & E & _ & Hf & _).
  - reflexivity.
  - exists c'. split; [exact E|exact Hf].
Defined.

Lemma on_tick_catches_up_witness :
  on_tick 0 900 ex_store =
    (forM [71; 72; 73; 74; 75] (fun k => on_tick_per_slot 0 (get_time_at_slot 0 k));; on_tick_per_slot 0 900) ex_store.
Proof.
  assert (seqZ (70 + 1) (get_slots_since_genesis_at 900 0 - 70) = [71; 72; 73; 74; 75]) as Es by (vm_compute; reflexivity).
  pose proof (on_tick_catches_up 0 900 ex_store 0 70) as E. rewrite Es in E. apply E; clear E Es.
  - reflexivity.
  - vm_compute. reflexivity.
  - lia.
  - by repeat split.
  - lia.
Defined.

(** The anchor is the one block. *)
Lemma ex_block : exists m, b_slot m = 64 /\ b_parent_root m = word 3 /\
  forall x, block_at ex_db x = if decide (x = anchor_root) then Some m else None.
Proof.
  exists (sb_message anchor). split_and!; [reflexivity..|]. intros x.
  exact (anchored_block empty_db anchor_state anchor ex_db x empty_db_fresh (anchored_db_spec _ _ _)).
Qed.

Lemma finalized_chain_recorded_witness :
  exists canonical, record_finalized anchor_root ex_db = Ok (bd_set_canonical canonical ex_db) /\ rd_get canonical 64 = Some anchor_root.
Proof.
  destruct ex_block as (m & Hs & Hp & Hb). assert (word 3 <> anchor_root) as Hne by (by vm_compute).
  assert (block_at ex_db anchor_root = Some m) as Ha by (by rewrite Hb, decide_True).
  assert (block_at ex_db (word 3) = None) as Hn by (by rewrite Hb, decide_False).
  assert (forall y, descends ex_db anchor_root y -> y = anchor_root) as Hd.
  { intros y Hy. inversion Hy as [|x b a Hx Hx' Hd]; [reflexivity|]. assert (b = m) as -> by congruence. rewrite Hp in Hd.
    inversion Hd; congruence. }
  destruct (finalized_chain_recorded ex_db anchor_root) as (canonical & E & Hr & _).
  - intros y b Hy. apply Hd in Hy. rewrite Hy, Ha. intros Hbm. assert (b = m) as -> by congruence. rewrite Hs, Hp. split; [lia|congruence].
  - intros a b _ _ Hc. rewrite rd_get_view in Hc. exfalso. revert Hc. generalize (b_slot b). intros k Hc. change (rd_view (bd_canonical ex_db)) with (∅ : gmap Z B256) in Hc.
    by rewrite lookup_empty in Hc.
  - exists canonical. split; [exact E|]. rewrite <-Hs. apply (Hr anchor_root m); [|exact Ha]. eapply desc_here. exact Ha.
Defined.

Definition idle_world : World := mkWorld ∅ rd_empty Idle.
Definition voted_world : World := mkWorld (extend [(7, mkLatestMessage 2 anchor_root)] ∅) rd_empty Idle.

Lemma latest_messages_linearizable_witness :
  exists w1, w1 ∈ [idle_world; voted_world] /\ read_later idle_world voted_world 7 = view w1 !! 7.
Proof.
  destruct (latest_messages_linearizable idle_world [idle_world; voted_world] voted_world) as (_ & _ & _ & Hr).
  - exact I.
  - apply (run_step (Inserted [(7, mkLatestMessage 2 anchor_root)]) idle_world [idle_world] idle_world voted_world); constructor.
  - exact (Hr 7).
Defined.

(** A block with a blob and two columns required, one of which comes before it. *)
Definition blob_block : SignedBeaconBlock :=
  mkSignedBeaconBlock (mkBeaconBlock 64 1 (word 3) B256_ZERO
    (mkBeaconBlockBody infinity (bb_eth1_data body) B256_ZERO [] [] [] [] [] (sync_aggregate body) (execution_payload body) []
       [replicate 48 0] (execution_requests body))) infinity.
Definition column_checker : DataAvailabilityChecker (State := Z) := mkDataAvailabilityChecker ∅ {[ 0; 1 ]}.

Lemma available_in_any_order_witness :
  (take_if_complete anchor_root (foldl arrive column_checker
     [ColumnArrives anchor_root 1 64; BlockArrives anchor_root blob_block 9; ColumnArrives anchor_root 0 64])).2 =
  Some (mkPendingBlock blob_block 9).
Proof.
  destruct (available_in_any_order column_checker anchor_root
    [ColumnArrives anchor_root 1 64; BlockArrives anchor_root blob_block 9; ColumnArrives anchor_root 0 64] eq_refl) as [E _].
  rewrite E. vm_compute. reflexivity.
Defined.

Lemma aggregates_count_once_witness : exists chosen (bits : list bool), chosen `sublist_of` [ex_attestation] /\
  forall i, bits !! i = Some true <-> exists a, a ∈ chosen /\ i ∈ set_positions (aggregation_bits a).
Proof. destruct (aggregates_count_once ex_attestation [] ∅) as (chosen & bits & Hs & _ & Hb & _). exists chosen, bits. split; [exact Hs|exact Hb]. Defined.

Definition ex_message : SyncCommitteeMessage := mkSyncCommitteeMessage 70 anchor_root 1 (mkBLSSignature [1]).
Definition ex_batches : list (Z * B256 * Z * list (SyncCommitteeMessage * nat)) :=
  [(70, anchor_root, 0, [(ex_message, 3%nat)]); (70, anchor_root, 0, [(ex_message, 3%nat); (ex_message, 5%nat)])].

Lemma sync_members_once_witness :
  exists l, sp_contributions (foldl (fun p (k : Z * B256 * Z * list (SyncCommitteeMessage * nat)) =>
    aggregate_messages k.1.1.1 k.1.1.2 k.1.2 k.2 p) (sync_pool_new 4) ex_batches)
    !! mkSyncCommitteeDataKey 70 anchor_root 0 = Some l /\ counted_once l.
Proof.
  destruct (sp_contributions _ !! _) as [l|] eqn:E; [|vm_compute in E; discriminate].
  exists l. split; [reflexivity|]. exact (sync_members_once ex_batches 4 _ l E).
Defined.
